(* ===== verification/_CoqProject ===== *)
-Q . S2P
Prelude.v
JsRuntime.v
HdcMessages.v
HdcSerialize.v
HdcCommands.v
HdcQueue.v
HdcTransport.v
Effects.v
HdcStream.v
HdcHandshake.v
HeapModel.v
Grouping.v
HeapRetainers.v
HeapFlags.v
HeapDom.v
HeapDistance.v
HeapDominators.v
HeapOrder.v
HeapClasses.v
HeapSamples.v
HeapAllocation.v
HeapItems.v
HeapDatabase.v
HeapLoader.v
HeapDataInterface.v
WebSocket.v
CallTree.v
FileCallTree.v
FileCallTimes.v
JsChart.v
JsChartPage.v
JsProfiler.v
SwimFilter.v
LaneBuffers.v
SwimLanes.v
SwimRange.v
StateTable.v
WorkerPool.v
FileEvents.v
Scheduling.v
PathTree.v
PerfWorker.v
PerfTree.v
ParallelSweep.v
ParallelTables.v
CoreSettings.v
MtPage.v
BusyTime.v
FreqUsage.v
