(* ===== verification/Prelude.v ===== *)
(** * SmartPerf Host: a verified model of its protocols and analyses

    SmartPerf Host is a browser application that records performance traces from
    a device and shows them.  The development models the parts of its TypeScript
    code (under [ide/src]) that have an algorithmic or protocol contract of their
    own:

    - the HDC client ([ide/src/hdc]): the page talks to a device over USB.  A
      command ([HdcDeviceManager]) opens a stream ([HdcStream]), which sends and
      receives packets through the client ([HdcClient]); [DataProcessing] frames
      them for the USB channel and reads the device's packets in a loop, and each
      packet goes to the queue ([AsyncQueue]) of the stream of its channel;
    - the JavaScript heap views ([ide/src/js-heap]): [LoadDatabase] reads the
      tables of a snapshot, [HeapLoader] computes references, flags, distances,
      dominators and retained sizes in the order of its constructor, and
      [HeapDataInterface] serves the views of one or more files from the loaders;
    - the session with the local service ([ide/src/webSocket]): the message codec
      and the manager that logs in, beats, dispatches and reconnects;
    - the logic workers ([trace/database/logic-worker]): the page gives a worker a
      task and gets the answer in pages; the workers build call trees and filter
      them, attribute samples to functions, and sum up thread states, frequencies
      and the samples of the profilers;
    - the lanes ([trace/database/data-trafic], [trace/database/ui-worker]): a
      database worker keeps the slices of every lane in memory, thins them for the
      window and posts them as typed arrays; the page unpacks them, and the drawing
      worker finds and places the slices of a window;
    - the sheets of parallelism ([trace/component/trace/sheet/parallel]): a sweep over
      the running slices of the selected threads, two tables that sum its stretches, the
      settings of processors that choose what the tables are computed for, and a page that
      waits for queries while the user goes on;
    - two workers of sheets ([trace/database]) for the frequencies of the processors.

    ** Files

    - [Prelude], [JsRuntime]: errors ([res]), tactics, hint database [js], lists
      indexed by [Z], sorting, sums; the parts of JavaScript the code relies on:
      32-bit operators, typed arrays, [DataView], UTF-16 strings, UTF-8, objects as
      dictionaries, numbers as texts.
    - [Effects]: the monad of [async] code: a result, an error, or waiting for ever.
    - [HdcMessages], [HdcSerialize]: records and byte formats ([message/*],
      [common/Serialize.ts]).
    - [HdcCommands]: command lines and number printers ([hdcclient/FormatCommand.ts],
      [common/BaseConversion.ts], [common/Utils.ts]).
    - [HdcQueue]: [AsyncQueue.ts]; promises are cells of a store.  The class
      [FifoQueue] is the interface that streams rely on.
    - [HdcTransport]: [DataMessage.ts], [DataProcessing.ts],
      [UsbTransmissionChannel.ts], the routing of [HdcClient.ts].
    - [HdcStream], [HdcHandshake]: [HdcStream.ts] with the commands of
      [HdcDeviceManager.ts], and [HdcClient.connectDevice].
    - [HeapModel], [HeapDatabase]: [model/*.ts] and [LoadDatabase.ts]; [HeapModel]
      also has JavaScript's [Map] and grouping into one, [Grouping] what the groups of
      rows say of their rows.
    - [HeapRetainers], [HeapFlags], [HeapDom], [HeapDistance], [HeapDominators],
      [HeapOrder], [HeapClasses], [HeapSamples], [HeapItems]: the passes and views
      of [logic/HeapLoader.ts]; [HeapAllocation]: [logic/Allocation.ts].
    - [HeapLoader], [HeapDataInterface]: the passes composed, and the interface.
    - [WebSocket]: [webSocket/*.ts].
    - [CallTree]: the filters of [ProcedureLogicWorkerCommon.ts] over a store of
      beans; [FileCallTree], [FileCallTimes]: the call tree of
      [ProcedureLogicWorkerFileSystem.ts] and its times; [FileEvents]: the events,
      stacks and the analysis of the same worker, and the texts of times and sizes.
    - [JsChart], [JsChartPage], [JsProfiler]: the JavaScript profiler from the samples
      ([ArkTsReceiver.ts]) over the page ([ArkTsSender.ts], [SpArkTsChart.ts]) to the
      sheets ([ProcedureLogicWorkerJsCpuProfiler.ts]).
    - [SwimFilter]: [utils/DataFilter.ts]; the class [Doubles] stands for the
      operations of floating-point numbers that round, with their laws in
      [DoubleLaws], and exact arithmetic is an instance.  [LaneBuffers], [SwimLanes]:
      eleven pairs of receivers and senders over typed arrays, the memory
      ([AllMemoryCache.ts]) and the dispatch ([ExecProtoForWorker.ts]).
    - [SwimRange]: the searches and the placing of [ProcedureWorkerCommon.ts].
    - [StateTable]: [ProcedureLogicWorkerSPT.ts]; [WorkerPool]: tasks and paged answers
      ([Procedure.ts], [ProcedureLogicWorkerCommon.ts]); [Scheduling]:
      [ProcedureLogicWorkerSchedulingAnalysis.ts] and [ProcedureLogicWorkerCpuState.ts].
    - [PathTree]: merging stacks into trees, in general; [PerfWorker], [PerfTree]: the
      samples of the processors ([ProcedureLogicWorkerPerf.ts]): loading, analysis and
      the reversed tree, and the call tree.
    - [ParallelSweep], [ParallelTables]: [ParallelUtil.ts], [TabPaneTimeParallel.ts] and
      [TabPaneMtParallel.ts]; [CoreSettings]: the classes and groups of processors
      ([TabPaneFilter.ts], [TabPaneMtParallel.ts]) over a store of arrays that the page
      and the listeners share, and maps that loops read while they change; [MtPage]: the
      page of [TabPaneMtParallel.ts] with its updates under way, as steps of events.
    - [BusyTime], [FreqUsage]: the workers [StateBusyTimeWorker.ts] and
      [TabPaneFreqUsageWorker.ts], which relate running slices and idle states to the
      frequencies of the processors.

    ** What the theorems show

    Wire format: messages survive serialization and framing for the values that
    the 32-bit code handles, and exactly how other values, and the commands on channels
    with long numbers, are damaged.  Transport:
    the read loop delivers to every stream exactly the packets of its channel, in
    order, under every interleaving with the readers; a connection is reported only
    after the device accepted it; command results are the concatenation of the
    answers.  Heap: loading yields exactly the retainers of each node; the flags and
    the DOM states are reachability; distances are shortest paths, and exactly when
    computing them fails; on the nodes with these marks the post order numbers every
    node once; retained sizes are sums over the dominator tree, whose
    inverse is what the dominated lists hold; the summaries, differences, timeline
    and retains views list what they should; expansion cannot go on for ever; a
    failed load leaves no file half loaded.  Session: the manager refines an abstract
    session of logins, frames and listener calls, keeps one heartbeat per open
    socket and recovers from a dropped connection.

    Call trees: after hiding a symbol or a library, with or without a search, every
    bean that is neither hidden nor put aside by the search is shown under its nearest
    ancestor of that kind, and which beans are put aside; taking the filters back
    restores the tree; the times of a tree add up, but for samples of a single frame.  Profiler: the frames that
    list a sample are its call stack, the chart arrives on the page unchanged, and
    the sheets merge and sum exactly the selected frames.  Lanes: the fast and the
    slow filter show one longest slice per pixel column; a lane is queried once and
    its answers are a function of the first rows; what
    arrives is what was sent modulo the widths of the arrays; every slice that a
    window can show is found, and drawn at its pixels when it is a pixel long or the
    window has few.  Tasks: whatever is interleaved, a handler
    gets its whole answer and its end once.  Tables: rows of thread states,
    frequencies, cores and events count and sum exactly the slices they stand for,
    times at frequencies add up to the running time, and exactly when the analysis
    throws; the call tree of the processor samples loses and doubles no sample.
    Parallelism: the stretches of the sweep tile the time in which something runs, the
    sweep returns exactly when every slice has an end, the tables of rows
    with ends count exactly the instants at which the shown number of threads ran, for the
    page of physical cores whatever harmless events come between the queries of an update
    that is alone; the groups of the settings are disjoint whatever the user does, and so
    are those of an update as long as none is taken out meanwhile; and what happens to a
    processor that is moved to another class.
    Frequencies: busy times count the instants at which a processor was busy with a
    frequency, and the tree of consumption adds up from the pieces of the slices; which
    slices are counted twice.  The theorems about flaws of the code are marked by their doc comments.

    ** Bounds and fuel

    Integers of the tables and times in nanoseconds are below 2^53 and therefore [Z];
    32-bit operators and typed arrays reduce modulo their widths where the code does;
    quotients are rationals rounded by [Doubles].  Loops that are not structural take a
    number of rounds and return [None] (or [NoFuel]) when it is too small; each file
    defines a sufficient number from the sizes of its input (for instance one round per
    edge and node for the searches, the height of a tree for the call trees, the length
    of a lane for the bisection) and proves that the loop ends within it.  The dominator
    fixpoint is the exception: it is executable and bounded in the model, without a
    general bound.

    ** Not modelled

    The database engine, the browser, the USB device and the signing service are
    parameters, scripts or events.  The drawing code, the custom elements, most charts
    and sheets and the SQL texts are not modelled: they are user interface, or texts
    for an engine outside the sources.  Of the modelled workers, the filters of the call
    tree of the processor samples, which repeat those of [CallTree], the worker of native
    memory ([ProcedureLogicWorkerNativeNemory.ts]), which builds the same trees from
    allocations, and the remaining receivers of lanes (slices, logs, system events,
    virtual memory), which have the shape of those in [SwimLanes], are left out.  What
    overlapping updates of the page of physical cores do to each other's texts is not
    followed ([MtPage]).  The
    theorems on dominators do not say that the computed tree is the dominator tree: on
    graphs with cycles it is not. *)

From Stdlib Require Export ZArith Lia Sorted.
From stdpp Require Export base gmap list list_numbers option strings fin_maps.

(** ** Notations, tactics, hint databases *)

Declare Scope js_scope.
Delimit Scope js_scope with js.

#[global] Open Scope Z_scope.

Create HintDb js.

(** The errors a JavaScript expression can raise, as far as the modelled code
    can raise them. *)
Inductive js_error :=
  | RangeError
  | TypeError
  | JsError (msg : string).

#[export] Instance js_error_eq_dec : EqDecision js_error.
Proof. solve_decision. Defined.

(** Fallible, effect free code: a value or a thrown error. *)
Inductive res (A : Type) :=
  | Ok (a : A)
  | Throw (e : js_error).
Arguments Ok {A} a.
Arguments Throw {A} e.

Lemma Ok_inj {A} (a b : A) : Ok a = Ok b -> a = b.
Proof. congruence. Qed.

Definition res_bind {A B} (r : res A) (f : A -> res B) : res B :=
  match r with Ok a => f a | Throw e => Throw e end.

Definition res_catch {A} (r : res A) (h : js_error -> res A) : res A :=
  match r with Ok a => Ok a | Throw e => h e end.

Definition of_option {A} (e : js_error) (o : option A) : res A :=
  match o with Some a => Ok a | None => Throw e end.

Notation "'let*' x ':=' c 'in' k" := (res_bind c (fun x => k))
  (at level 10, x name, c at level 200, k at level 200) : js_scope.
Notation "'let*' ' p ':=' c 'in' k" := (res_bind c (fun x => match x with p => k end))
  (at level 10, p pattern, c at level 200, k at level 200) : js_scope.
#[global] Open Scope js_scope.

(** Case analysis on the boolean comparisons of [Z] that occur in the goal. *)
Ltac zcase :=
  repeat match goal with
  | |- context [Z.eqb ?a ?b] => destruct (Z.eqb_spec a b)
  | |- context [Z.ltb ?a ?b] => destruct (Z.ltb_spec a b)
  | |- context [Z.leb ?a ?b] => destruct (Z.leb_spec a b)
  end.

Ltac zcase_in H :=
  repeat match type of H with
  | context [Z.eqb ?a ?b] => destruct (Z.eqb_spec a b)
  | context [Z.ltb ?a ?b] => destruct (Z.ltb_spec a b)
  | context [Z.leb ?a ?b] => destruct (Z.leb_spec a b)
  end.

(** ** Lists *)

Definition zlen {A} (l : list A) : Z := Z.of_nat (length l).

Lemma zlen_nil {A} : zlen (@nil A) = 0.
Proof. reflexivity. Qed.

Lemma zlen_cons {A} (x : A) l : zlen (x :: l) = 1 + zlen l.
Proof. unfold zlen. simpl. lia. Qed.

Lemma zlen_app {A} (l k : list A) : zlen (l ++ k) = zlen l + zlen k.
Proof. unfold zlen. rewrite length_app. lia. Qed.

Lemma zlen_nonneg {A} (l : list A) : 0 <= zlen l.
Proof. unfold zlen. lia. Qed.

Create Rewrite HintDb js.
#[export] Hint Rewrite @zlen_nil @zlen_cons @zlen_app @length_app @length_nil @length_cons : js.
#[export] Hint Resolve zlen_nonneg : js.

(** Lookup by a [Z] index: nothing below zero. *)
Definition zlookup {A} (i : Z) (l : list A) : option A :=
  if i <? 0 then None else l !! Z.to_nat i.

Lemma zlookup_Some_lt {A} i (l : list A) x :
  zlookup i l = Some x -> 0 <= i < zlen l.
Proof.
  unfold zlookup, zlen. zcase; [done|].
  intros Hl%lookup_lt_Some. lia.
Qed.

Lemma zlookup_is_Some {A} i (l : list A) :
  0 <= i < zlen l -> is_Some (zlookup i l).
Proof.
  unfold zlookup, zlen. intros. zcase; [lia|].
  apply lookup_lt_is_Some. lia.
Qed.

Lemma zlookup_app_r {A} (l k : list A) i :
  zlen l <= i -> zlookup i (l ++ k) = zlookup (i - zlen l) k.
Proof.
  unfold zlookup, zlen. intros. zcase; try lia.
  rewrite lookup_app_r by lia. f_equal. lia.
Qed.

Lemma zlookup_app_l {A} (l k : list A) i :
  i < zlen l -> zlookup i (l ++ k) = zlookup i l.
Proof.
  unfold zlookup, zlen. intros. zcase; [done|].
  rewrite lookup_app_l by lia. done.
Qed.

Lemma zlookup_0 {A} (x : A) l : zlookup 0 (x :: l) = Some x.
Proof. reflexivity. Qed.

Lemma fmap_omap {A B C} (f : A -> option B) (g : B -> C) (l : list A) :
  g <$> omap f l = omap (fun x => g <$> f x) l.
Proof. induction l as [|x l IH]; [done|]. simpl. destruct (f x); simpl; [f_equal|]; apply IH. Qed.

Lemma omap_ext {A B} (f g : A -> option B) (l : list A) :
  (forall x, x ∈ l -> f x = g x) -> omap f l = omap g l.
Proof.
  induction l as [|x l IH]; intros H; [done|]. simpl. rewrite (H x) by set_solver.
  destruct (g x); [f_equal|]; apply IH; set_solver.
Qed.

Lemma omap_seq_lookup {A} (l : list A) {B} (f : A -> option B) :
  omap (fun e => a ← l !! e; f a) (seq 0 (length l)) = omap f l.
Proof.
  induction l as [|a l IH] using rev_ind; [done|].
  rewrite length_app, seq_app, !omap_app, Nat.add_0_l. f_equal.
  - rewrite <- IH. apply omap_ext. intros e [_ He]%elem_of_seq. by rewrite lookup_app_l by lia.
  - simpl. rewrite lookup_app_r, Nat.sub_diag by lia. done.
Qed.

Lemma filter_all {A} (P : A -> Prop) `{!forall x, Decision (P x)} (l : list A) :
  Forall P l -> filter P l = l.
Proof. induction 1 as [|x l Hx _ IH]; [done|]. rewrite filter_cons, decide_True by done. by rewrite IH. Qed.

Lemma filter_none {A} (P : A -> Prop) `{!forall x, Decision (P x)} (l : list A) :
  Forall (fun x => ~ P x) l -> filter P l = [].
Proof. induction 1 as [|x l Hx _ IH]; [done|]. by rewrite filter_cons, decide_False. Qed.

(** ** Stable sorting by an integer key

    [Array.prototype.sort] with a comparator [key a - key b]. *)

Section SortBy.
Context {A : Type} (key : A -> Z).

Fixpoint sort_insert (x : A) (l : list A) : list A :=
  match l with
  | [] => [x]
  | y :: l' => if key x <=? key y then x :: l else y :: sort_insert x l'
  end.

Definition sort_by (l : list A) : list A := foldr sort_insert [] l.

Lemma sort_insert_perm x l : sort_insert x l ≡ₚ x :: l.
Proof.
  induction l as [|y l IH]; simpl; [done|]. destruct (key x <=? key y); [done|].
  rewrite IH. apply Permutation_swap.
Qed.

Lemma sort_by_perm l : sort_by l ≡ₚ l.
Proof. induction l as [|x l IH]; simpl; [done|]. by rewrite sort_insert_perm, IH. Qed.

Definition key_le (x y : A) : Prop := key x <= key y.

Lemma sort_insert_sorted x l : StronglySorted key_le l -> StronglySorted key_le (sort_insert x l).
Proof.
  induction 1 as [|y l Hs IH HF]; simpl; [by repeat constructor|].
  destruct (Z.leb_spec (key x) (key y)) as [Hle|Hgt].
  - constructor; [by constructor|]. constructor; [done|].
    eapply Forall_impl; [exact HF|]. unfold key_le. intros z. cbn. lia.
  - constructor; [done|]. rewrite sort_insert_perm. constructor; [unfold key_le; lia|done].
Qed.

Lemma sort_by_sorted l : StronglySorted key_le (sort_by l).
Proof. induction l; simpl; [constructor|by apply sort_insert_sorted]. Qed.

(** The first [n] of a list in the order of the key: what is left out does not come
    before what is shown. *)
Definition best (n : nat) (all shown : list A) : Prop :=
  length shown = Nat.min n (length all) /\ StronglySorted key_le shown /\
  exists rest, shown ++ rest ≡ₚ all /\ Forall (fun x => Forall (key_le x) rest) shown.

Lemma StronglySorted_app_le l k : StronglySorted key_le (l ++ k) ->
  StronglySorted key_le l /\ Forall (fun x => Forall (key_le x) k) l.
Proof.
  induction l as [|x l IH]; [intros; split; constructor|]. cbn. intros [HS HF]%StronglySorted_inv.
  apply Forall_app in HF as [HF1 HF2]. destruct (IH HS). split; by constructor.
Qed.

Lemma best_take n l : best n l (take n (sort_by l)).
Proof.
  destruct (StronglySorted_app_le (take n (sort_by l)) (drop n (sort_by l))) as [HS HF];
    [rewrite take_drop; apply sort_by_sorted|].
  split; [|split; [done|exists (drop n (sort_by l)); split; [rewrite take_drop; apply sort_by_perm|done]]].
  by rewrite length_take, sort_by_perm.
Qed.

Lemma best_perm n all all' shown : all ≡ₚ all' -> best n all shown -> best n all' shown.
Proof. intros HP (Hl & HS & rest & Hr & HF). split; [by rewrite <- HP|]. split; [done|]. exists rest. by rewrite <- HP. Qed.
End SortBy.

(** A map that keeps the key may come before or after sorting. *)
Lemma sort_by_fmap {A} (key : A -> Z) (f : A -> A) l : (forall x, key (f x) = key x) -> f <$> sort_by key l = sort_by key (f <$> l).
Proof.
  intros Hf. assert (Hi : forall x k, f <$> sort_insert key x k = sort_insert key (f x) (f <$> k)).
  { intros x k. induction k as [|y k IH]; [done|]. cbn. rewrite !Hf. destruct (key x <=? key y); [done|]. cbn. f_equal. exact IH. }
  induction l as [|x l IH]; [done|]. unfold sort_by in *. cbn [foldr]. rewrite Hi, IH. done.
Qed.

(** ** Sums *)

Definition zsum (l : list Z) : Z := foldr Z.add 0 l.

Lemma zsum_cons x l : zsum (x :: l) = x + zsum l.
Proof. done. Qed.

Lemma zsum_one_elem x : zsum [x] = x.
Proof. cbn. lia. Qed.

Lemma zsum_app l k : zsum (l ++ k) = zsum l + zsum k.
Proof. induction l; simpl; lia. Qed.

#[export] Instance zsum_perm : Proper ((≡ₚ) ==> eq) zsum.
Proof. induction 1; simpl in *; lia. Qed.

Lemma zsum_update (f g : nat -> Z) (d : nat) (x : Z) (l : list nat) :
  NoDup l -> d ∈ l -> (forall w, g w = if decide (w = d) then f d + x else f w) ->
  zsum (g <$> l) = zsum (f <$> l) + x.
Proof.
  intros HN Hd Hg. induction HN as [|a l Ha _ IH]; [set_solver|].
  rewrite !fmap_cons. simpl. rewrite Hg. apply elem_of_cons in Hd as [->|Hd].
  - rewrite decide_True by done. rewrite (list_fmap_ext g f l); [lia|].
    intros i w Hw. rewrite Hg, decide_False; [done|]. intros ->. apply Ha. by eapply list_elem_of_lookup_2.
  - rewrite decide_False by (intros ->; done). rewrite IH by done. lia.
Qed.

(** ** The slice of an array between two relative indices

    [Array.prototype.slice], [ArrayBuffer.prototype.slice] and
    [TypedArray.prototype.slice] share these index rules: a negative index
    counts from the end, and both ends are clamped to the length. *)

Definition rel_index (len i : Z) : Z :=
  if i <? 0 then Z.max (len + i) 0 else Z.min i len.

Definition js_slice {A} (l : list A) (start fin : Z) : list A :=
  let len := zlen l in
  let first := rel_index len start in
  let final := rel_index len fin in
  take (Z.to_nat (final - first)) (drop (Z.to_nat first) l).

Definition js_slice_from {A} (l : list A) (start : Z) : list A :=
  js_slice l start (zlen l).

Lemma js_slice_from_drop {A} (l : list A) n :
  0 <= n -> js_slice_from l n = drop (Z.to_nat n) l.
Proof.
  intros Hn. unfold js_slice_from, js_slice, rel_index. zcase; try (unfold zlen in *; lia).
  rewrite take_ge.
  - destruct (Z.le_ge_cases n (zlen l)).
    + f_equal. lia.
    + rewrite !drop_ge; [done| |]; unfold zlen in *; lia.
  - rewrite length_drop. unfold zlen in *. lia.
Qed.

Lemma js_slice_prefix {A} (l k : list A) n :
  n = zlen l -> js_slice (l ++ k) 0 n = l.
Proof.
  intros ->. unfold js_slice, rel_index. zcase; unfold zlen in *; rewrite ?length_app in *; try lia.
  rewrite Z.min_l, Z.min_l by lia. rewrite drop_0. apply take_app_length'. lia.
Qed.

Lemma js_slice_take {A} (l : list A) n : js_slice l 0 (Z.of_nat n) = take n l.
Proof.
  unfold js_slice, rel_index. zcase; try lia. rewrite (Z.min_l 0) by apply zlen_nonneg.
  change (Z.to_nat 0) with O. rewrite drop_0.
  destruct (Nat.le_ge_cases n (length l)).
  - f_equal. unfold zlen. lia.
  - rewrite !take_ge; unfold zlen; [done|lia..].
Qed.

Lemma js_slice_mid {A} (a b c : list A) i j :
  i = zlen a -> j = zlen a + zlen b -> js_slice (a ++ b ++ c) i j = b.
Proof.
  intros -> ->. unfold js_slice, rel_index.
  zcase; unfold zlen in *; rewrite ?length_app in *; try lia.
  rewrite !Z.min_l by lia. rewrite drop_app_length' by lia. apply take_app_length'. lia.
Qed.

Lemma js_slice_suffix {A} (a b : list A) i j :
  i = zlen a -> j = zlen a + zlen b -> js_slice (a ++ b) i j = b.
Proof.
  intros Hi Hj. rewrite <- (app_nil_r b) at 1. by apply js_slice_mid.
Qed.

Lemma js_slice_from_app {A} (l k : list A) n :
  n = zlen l -> js_slice_from (l ++ k) n = k.
Proof.
  intros ->. rewrite js_slice_from_drop by apply zlen_nonneg.
  apply drop_app_length'. unfold zlen. lia.
Qed.

(** ** [flat_map] *)

Lemma elem_of_flat_map {A B} (f : A -> list B) l x : x ∈ flat_map f l <-> exists a, a ∈ l /\ x ∈ f a.
Proof.
  rewrite list_elem_of_In, in_flat_map. split; intros (a & Ha & Hx); exists a; by rewrite !list_elem_of_In in *.
Qed.

Lemma NoDup_flat_map {A B} (f : A -> list B) l :
  NoDup l -> (forall a, a ∈ l -> NoDup (f a)) ->
  (forall a b x, a ∈ l -> b ∈ l -> x ∈ f a -> x ∈ f b -> a = b) -> NoDup (flat_map f l).
Proof.
  induction 1 as [|a l Ha HN IH]; intros Hf Hd; [constructor|]. cbn. apply NoDup_app. split_and!.
  - apply Hf. set_solver.
  - intros x Hx Hin. apply elem_of_flat_map in Hin as (b & Hb & Hxb).
    apply Ha. rewrite (Hd a b x); [done|set_solver..].
  - apply IH; [intros; apply Hf; set_solver|]. intros b c x Hb Hc. apply Hd; set_solver.
Qed.
