(* ===== verification/JsRuntime.v ===== *)
(** * The part of the JavaScript runtime the modelled code uses

    Bitwise operators on 32-bit integers, byte buffers ([ArrayBuffer],
    [Uint8Array], [DataView]), UTF-16 strings and the UTF-8 codec behind
    [TextEncoder] and [TextDecoder].  Numbers of the modelled code are
    integers far below 2^53, hence [Z]; the bitwise operators convert their
    operands to 32 bits exactly as the language does. *)

From S2P Require Import Prelude.

(** ** Bitwise operators *)

Definition toUint32 (z : Z) : Z := z mod 2 ^ 32.

Definition toInt32 (z : Z) : Z :=
  let m := z mod 2 ^ 32 in if m <? 2 ^ 31 then m else m - 2 ^ 32.

Definition js_and (a b : Z) : Z := Z.land (toInt32 a) (toInt32 b).
Definition js_or (a b : Z) : Z := Z.lor (toInt32 a) (toInt32 b).
Definition js_shl (a n : Z) : Z := toInt32 (Z.shiftl (toInt32 a) (n mod 32)).
Definition js_shr (a n : Z) : Z := Z.shiftr (toInt32 a) (n mod 32).
Definition js_ushr (a n : Z) : Z := Z.shiftr (toUint32 a) (n mod 32).

(** Truthiness of a number that is not NaN. *)
Definition truthy (z : Z) : bool := negb (z =? 0).

Lemma toInt32_small z : 0 <= z < 2 ^ 31 -> toInt32 z = z.
Proof.
  intros. unfold toInt32. rewrite Z.mod_small by lia. zcase; lia.
Qed.

Lemma toInt32_range z : - 2 ^ 31 <= toInt32 z < 2 ^ 31.
Proof.
  unfold toInt32. pose proof (Z.mod_pos_bound z (2 ^ 32)). zcase; lia.
Qed.

Lemma toInt32_id z : - 2 ^ 31 <= z < 2 ^ 31 -> toInt32 z = z.
Proof.
  intros. destruct (Z.le_gt_cases 0 z).
  - apply toInt32_small. lia.
  - unfold toInt32. replace (z mod 2 ^ 32) with (z + 2 ^ 32).
    + zcase; lia.
    + symmetry. rewrite <- (Z_mod_plus_full z 1). apply Z.mod_small. lia.
Qed.

Lemma js_and_ones v n :
  0 <= v < 2 ^ 31 -> 0 <= n < 31 -> js_and v (Z.ones n) = v mod 2 ^ n.
Proof.
  intros. unfold js_and. rewrite (toInt32_small v) by lia.
  rewrite toInt32_small.
  - apply Z.land_ones. lia.
  - rewrite Z.ones_equiv. assert (2 ^ n < 2 ^ 31) by (apply Z.pow_lt_mono_r; lia).
    assert (0 < 2 ^ n) by (apply Z.pow_pos_nonneg; lia). lia.
Qed.

Lemma js_shr_div v n :
  0 <= v < 2 ^ 31 -> 0 <= n < 32 -> js_shr v n = v / 2 ^ n.
Proof.
  intros. unfold js_shr. rewrite toInt32_small, (Z.mod_small n) by lia.
  apply Z.shiftr_div_pow2. lia.
Qed.

Lemma js_shl_mul v n :
  0 <= v < 2 ^ 31 -> 0 <= n < 32 -> v * 2 ^ n < 2 ^ 31 -> js_shl v n = v * 2 ^ n.
Proof.
  intros. unfold js_shl. rewrite (toInt32_small v), (Z.mod_small n) by lia.
  rewrite Z.shiftl_mul_pow2 by lia. apply toInt32_small.
  assert (0 < 2 ^ n) by (apply Z.pow_pos_nonneg; lia). nia.
Qed.

(** A low part and a shifted high part do not overlap. *)
Lemma land_low_high a b n :
  0 <= n -> 0 <= a < 2 ^ n -> Z.land a (Z.shiftl b n) = 0.
Proof.
  intros. apply Z.bits_inj'. intros i Hi. rewrite Z.land_spec, Z.bits_0.
  destruct (Z.lt_ge_cases i n).
  - rewrite Z.shiftl_spec_low by lia. apply andb_false_r.
  - rewrite <- (Z.mod_small a (2 ^ n)), Z.mod_pow2_bits_high by lia. done.
Qed.

Lemma lor_low_high a b n :
  0 <= n -> 0 <= a < 2 ^ n -> Z.lor a (b * 2 ^ n) = a + b * 2 ^ n.
Proof.
  intros. rewrite <- Z.shiftl_mul_pow2 by lia.
  rewrite Z.add_nocarry_lxor by (apply land_low_high; lia).
  symmetry. apply Z.lxor_lor, land_low_high; lia.
Qed.

(** Bit [i] of the conversion: the low 31 bits are kept, bit 31 is extended. *)
Lemma toInt32_mod z : toInt32 z mod 2 ^ 32 = z mod 2 ^ 32.
Proof.
  unfold toInt32. zcase; [by rewrite Z.mod_mod by lia|].
  replace (z mod 2 ^ 32 - 2 ^ 32) with (z mod 2 ^ 32 + (-1) * 2 ^ 32) by lia.
  rewrite Z_mod_plus_full. by rewrite Z.mod_mod by lia.
Qed.

Lemma testbit_sign_above x n i :
  0 < n -> - 2 ^ n <= x < 2 ^ n -> n <= i -> Z.testbit x i = (x <? 0).
Proof.
  intros. zcase.
  - apply Z.bits_above_log2_neg; [lia|].
    destruct (Z.eq_dec (Z.pred (- x)) 0) as [->|].
    + simpl. lia.
    + apply Z.log2_lt_pow2; [lia|].
      assert (2 ^ n <= 2 ^ i) by (apply Z.pow_le_mono_r; lia). lia.
  - destruct (Z.eq_dec x 0) as [->|]; [apply Z.bits_0|].
    apply Z.bits_above_log2; [lia|]. apply Z.log2_lt_pow2; [lia|].
    assert (2 ^ n <= 2 ^ i) by (apply Z.pow_le_mono_r; lia). lia.
Qed.

Lemma toInt32_testbit z i :
  0 <= i -> Z.testbit (toInt32 z) i = Z.testbit z (Z.min i 31).
Proof.
  intros Hi. pose proof (toInt32_range z) as Hr.
  assert (Hlow : forall j, 0 <= j < 32 -> Z.testbit (toInt32 z) j = Z.testbit z j).
  { intros j Hj. rewrite <- (Z.mod_pow2_bits_low z 32 j), <- toInt32_mod by lia.
    symmetry. apply Z.mod_pow2_bits_low. lia. }
  destruct (Z.le_gt_cases i 31).
  - rewrite Z.min_l by lia. apply Hlow. lia.
  - rewrite Z.min_r by lia. rewrite <- Hlow by lia.
    rewrite !(testbit_sign_above _ 31) by lia. done.
Qed.

Lemma toInt32_lor a b : Z.lor (toInt32 a) (toInt32 b) = toInt32 (Z.lor a b).
Proof.
  apply Z.bits_inj'. intros i Hi.
  rewrite Z.lor_spec, !toInt32_testbit by lia. by rewrite Z.lor_spec.
Qed.

Lemma toInt32_congr a b : a mod 2 ^ 32 = b mod 2 ^ 32 -> toInt32 a = toInt32 b.
Proof. unfold toInt32. by intros ->. Qed.

Lemma toInt32_idem a : toInt32 (toInt32 a) = toInt32 a.
Proof. apply toInt32_congr, toInt32_mod. Qed.

(** Accumulating a shifted digit with [|] and [<<] is addition modulo 2^32. *)
Lemma js_or_shl_add lo d n :
  0 <= n < 32 -> 0 <= lo < 2 ^ n -> 0 <= d ->
  js_or (toInt32 lo) (js_shl d n) = toInt32 (lo + d * 2 ^ n).
Proof.
  intros Hn Hlo Hd. unfold js_or, js_shl. rewrite !toInt32_idem.
  rewrite (Z.mod_small n) by lia.
  rewrite toInt32_lor. rewrite <- lor_low_high by lia.
  rewrite <- toInt32_lor, <- (toInt32_lor lo). f_equal.
  rewrite Z.shiftl_mul_pow2 by lia. apply toInt32_congr.
  rewrite <- Z.mul_mod_idemp_l, toInt32_mod, Z.mul_mod_idemp_l by lia. done.
Qed.

Lemma js_or_low_high a b n :
  0 <= n < 32 -> 0 <= a < 2 ^ n -> 0 <= b -> a + b * 2 ^ n < 2 ^ 31 ->
  js_or a (b * 2 ^ n) = a + b * 2 ^ n.
Proof.
  intros. unfold js_or. assert (0 < 2 ^ n) by (apply Z.pow_pos_nonneg; lia).
  rewrite !toInt32_small by nia. apply lor_low_high; lia.
Qed.

(** ** Bytes and buffers *)

Definition is_byte (b : Z) : Prop := 0 <= b < 256.

#[export] Instance is_byte_dec b : Decision (is_byte b).
Proof. unfold is_byte. apply _. Defined.

Definition uint8 (z : Z) : Z := z mod 256.

Lemma uint8_byte z : is_byte (uint8 z).
Proof. apply Z.mod_pos_bound. lia. Qed.

Lemma uint8_id z : is_byte z -> uint8 z = z.
Proof. apply Z.mod_small. Qed.

(** [new Uint8Array(array)]: every element is converted to a byte. *)
Definition uint8_of_array (l : list Z) : list Z := uint8 <$> l.

(** [new Uint8Array(n)], [new ArrayBuffer(n)]. *)
Definition zeros (n : Z) : list Z := replicate (Z.to_nat n) 0.

(** [target.set(source, offset)]: a RangeError when the source does not fit. *)
Definition typed_set (target source : list Z) (offset : Z) : res (list Z) :=
  if (offset <? 0) || (zlen target <? offset + zlen source) then Throw RangeError
  else Ok (take (Z.to_nat offset) target ++ source ++
           drop (Z.to_nat (offset + zlen source)) target).

(** The loop shape [m.set(p0, 0); off += p0.length; m.set(p1, off); ...]. *)
Fixpoint set_pieces (target : list Z) (offset : Z) (pieces : list (list Z)) : res (list Z) :=
  match pieces with
  | [] => Ok target
  | p :: ps =>
      let* target' := typed_set target p offset in
      set_pieces target' (offset + zlen p) ps
  end.

(** [let merged = new Uint8Array(sum of lengths)] filled piece by piece. *)
Definition merge_arrays (pieces : list (list Z)) : res (list Z) :=
  set_pieces (zeros (zlen (concat pieces))) 0 pieces.

Lemma typed_set_at (a b c src : list Z) off :
  off = zlen a -> zlen src = zlen b -> typed_set (a ++ b ++ c) src off = Ok (a ++ src ++ c).
Proof.
  intros -> Hb. unfold typed_set.
  assert (Hle : (zlen a <? 0) || (zlen (a ++ b ++ c) <? zlen a + zlen src) = false).
  { rewrite !zlen_app. pose proof (zlen_nonneg a). pose proof (zlen_nonneg c).
    apply orb_false_iff. split; zcase; lia. }
  rewrite Hle. f_equal. f_equal.
  - apply take_app_length'. unfold zlen. lia.
  - f_equal. rewrite app_assoc. apply drop_app_length'.
    rewrite length_app. unfold zlen in *. lia.
Qed.

Lemma typed_set_start (b c src : list Z) :
  zlen src = zlen b -> typed_set (b ++ c) src 0 = Ok (src ++ c).
Proof. exact (typed_set_at [] b c src 0 eq_refl). Qed.

Lemma set_pieces_concat pieces : forall (a z : list Z),
  zlen z = zlen (concat pieces) ->
  set_pieces (a ++ z) (zlen a) pieces = Ok (a ++ concat pieces).
Proof.
  induction pieces as [|p ps IH]; intros a z Hz; simpl in *.
  - destruct z as [|b z]; [done|]. unfold zlen in Hz. simpl in Hz. lia.
  - rewrite zlen_app in Hz.
    assert (Hsplit : z = take (length p) z ++ drop (length p) z) by (by rewrite take_drop).
    rewrite Hsplit, (typed_set_at a _ _ p); [|done|].
    + simpl. rewrite app_assoc. replace (zlen a + zlen p) with (zlen (a ++ p)) by apply zlen_app.
      rewrite IH.
      * by rewrite <- app_assoc.
      * unfold zlen in *. rewrite length_drop. lia.
    + unfold zlen in *. rewrite length_take. lia.
Qed.

Lemma merge_arrays_concat pieces : merge_arrays pieces = Ok (concat pieces).
Proof.
  unfold merge_arrays. apply (set_pieces_concat pieces [] (zeros _)).
  unfold zeros, zlen. rewrite length_replicate. lia.
Qed.

Lemma zeros_app a b : 0 <= a -> 0 <= b -> zeros (a + b) = zeros a ++ zeros b.
Proof. intros. unfold zeros. rewrite Z2Nat.inj_add by lia. apply replicate_add. Qed.

Lemma zlen_zeros n : 0 <= n -> zlen (zeros n) = n.
Proof. intros. unfold zlen, zeros. rewrite length_replicate. lia. Qed.

(** ** [DataView] over a whole buffer *)

Definition getUint8 (view : list Z) (i : Z) : res Z := of_option RangeError (zlookup i view).

Definition getUint16 (view : list Z) (i : Z) : res Z :=
  let* hi := getUint8 view i in
  let* lo := getUint8 view (i + 1) in
  Ok (hi * 2 ^ 8 + lo).

Definition getUint32 (view : list Z) (i : Z) : res Z :=
  let* b3 := getUint8 view i in
  let* b2 := getUint8 view (i + 1) in
  let* b1 := getUint8 view (i + 2) in
  let* b0 := getUint8 view (i + 3) in
  Ok (b3 * 2 ^ 24 + b2 * 2 ^ 16 + b1 * 2 ^ 8 + b0).

Definition be16 (v : Z) : list Z := [v / 2 ^ 8 mod 256; v mod 256].
Definition be32 (v : Z) : list Z :=
  [v / 2 ^ 24 mod 256; v / 2 ^ 16 mod 256; v / 2 ^ 8 mod 256; v mod 256].

Definition setUint8 (view : list Z) (i v : Z) : res (list Z) := typed_set view [uint8 v] i.
Definition setUint16 (view : list Z) (i v : Z) : res (list Z) := typed_set view (be16 v) i.
Definition setUint32 (view : list Z) (i v : Z) : res (list Z) := typed_set view (be32 v) i.

Lemma be16_value v : 0 <= v < 2 ^ 16 -> (v / 2 ^ 8 mod 256) * 2 ^ 8 + v mod 256 = v.
Proof. intros. Z.div_mod_to_equations. lia. Qed.

Lemma be32_value v : 0 <= v < 2 ^ 32 ->
  (v / 2 ^ 24 mod 256) * 2 ^ 24 + (v / 2 ^ 16 mod 256) * 2 ^ 16
    + (v / 2 ^ 8 mod 256) * 2 ^ 8 + v mod 256 = v.
Proof. intros. Z.div_mod_to_equations. lia. Qed.

Lemma be32_bytes v : Forall is_byte (be32 v).
Proof. repeat constructor; apply Z.mod_pos_bound; lia. Qed.

Lemma be16_bytes v : Forall is_byte (be16 v).
Proof. repeat constructor; apply Z.mod_pos_bound; lia. Qed.

#[export] Hint Resolve uint8_byte be16_bytes be32_bytes : js.

(** ** Strings *)

(** A JavaScript string is its sequence of UTF-16 code units. *)
Abbreviation jsstring := (list Z).

Fixpoint js (s : string) : jsstring :=
  match s with
  | EmptyString => []
  | String c s' => Z.of_N (Ascii.N_of_ascii c) :: js s'
  end.

(** [s.startsWith(p)] *)
Fixpoint startsWith (s p : jsstring) {struct p} : bool :=
  match p, s with
  | [], _ => true
  | a :: p', b :: s' => (a =? b) && startsWith s' p'
  | _ :: _, [] => false
  end.

(** [s.endsWith(p)] *)
Definition endsWith (s p : jsstring) : bool := startsWith (rev s) (rev p).

(** [s.substring(n)] for one argument: [n] is clamped to [0, length]. *)
Definition substring_from (s : jsstring) (n : Z) : jsstring := drop (Z.to_nat n) s.

(** [s.indexOf(p)]: the first position, or -1. *)
Fixpoint indexOf_at (s p : jsstring) (i : Z) : Z :=
  if startsWith s p then i
  else match s with
       | [] => -1
       | _ :: s' => indexOf_at s' p (i + 1)
       end.
Definition indexOf (s p : jsstring) : Z := indexOf_at s p 0.
Definition includes (s p : jsstring) : bool := negb (indexOf s p =? -1).

Lemma startsWith_app p s : startsWith (p ++ s) p = true.
Proof. induction p as [|a p IH]; simpl; [by destruct s|]. rewrite Z.eqb_refl. apply IH. Qed.

Lemma startsWith_iff s p : startsWith s p = true <-> exists t, s = p ++ t.
Proof.
  split.
  - revert s. induction p as [|a p IH]; intros s; simpl.
    + exists s. done.
    + destruct s as [|b s]; [done|]. intros [E H]%andb_true_iff. apply Z.eqb_eq in E as ->.
      destruct (IH _ H) as [t ->]. by exists t.
  - intros [t ->]. apply startsWith_app.
Qed.

Lemma substring_from_app p s n : n = zlen p -> substring_from (p ++ s) n = s.
Proof. intros ->. apply drop_app_length'. unfold zlen. lia. Qed.

(** [s.split(sep)] for a non-empty separator. *)
Fixpoint split_at (fuel : nat) (s sep : jsstring) (acc : jsstring) : list jsstring :=
  match fuel, s with
  | S fuel', u :: s' =>
      if startsWith s sep then acc :: split_at fuel' (drop (length sep) s) sep []
      else split_at fuel' s' sep (acc ++ [u])
  | _, _ => [acc]
  end.
Definition js_split (s sep : jsstring) : list jsstring := split_at (length s) s sep [].

(** [n.toString(radix)] of a non-negative integer. *)
Definition digit (d : Z) : Z := if d <? 10 then 48 + d else 87 + d.
Fixpoint radix_digits (fuel : nat) (radix n : Z) (acc : jsstring) : jsstring :=
  match fuel with
  | O => acc
  | S fuel' =>
      let acc := digit (n mod radix) :: acc in
      if n <? radix then acc else radix_digits fuel' radix (n / radix) acc
  end.
Definition toString_nonneg (radix n : Z) : jsstring :=
  radix_digits (S (Z.to_nat (Z.log2 n))) radix n [].
Definition js_toString (radix n : Z) : jsstring :=
  if n <? 0 then 45 :: toString_nonneg radix (- n) else toString_nonneg radix n.

Example toString_hex : js_toString 16 (-48879) = js "-beef".
Proof. reflexivity. Qed.
Example toString_dec : js_toString 10 1024 = js "1024".
Proof. reflexivity. Qed.

(** ** UTF-8 *)

(** Code units to code points; an unpaired surrogate becomes U+FFFD, as in the
    conversion to a USVString. *)
Fixpoint code_points (s : jsstring) : list Z :=
  match s with
  | [] => []
  | u :: s' =>
      if (0xD800 <=? u) && (u <? 0xDC00) then
        match s' with
        | v :: s'' =>
            if (0xDC00 <=? v) && (v <? 0xE000)
            then 0x10000 + (u - 0xD800) * 0x400 + (v - 0xDC00) :: code_points s''
            else 0xFFFD :: code_points s'
        | [] => [0xFFFD]
        end
      else if (0xDC00 <=? u) && (u <? 0xE000) then 0xFFFD :: code_points s'
      else u :: code_points s'
  end.

(** Code points to code units. *)
Definition code_units (c : Z) : jsstring :=
  if c <? 0x10000 then [c]
  else [0xD800 + (c - 0x10000) / 0x400; 0xDC00 + (c - 0x10000) mod 0x400].

Definition utf8_code_point (c : Z) : list Z :=
  if c <? 0x80 then [c]
  else if c <? 0x800 then [0xC0 + c / 2 ^ 6; 0x80 + c mod 2 ^ 6]
  else if c <? 0x10000 then [0xE0 + c / 2 ^ 12; 0x80 + c / 2 ^ 6 mod 2 ^ 6; 0x80 + c mod 2 ^ 6]
  else [0xF0 + c / 2 ^ 18; 0x80 + c / 2 ^ 12 mod 2 ^ 6; 0x80 + c / 2 ^ 6 mod 2 ^ 6;
        0x80 + c mod 2 ^ 6].

(** [new TextEncoder().encode(s)] *)
Definition text_encode (s : jsstring) : list Z := flat_map utf8_code_point (code_points s).

(** The UTF-8 decoder of the Encoding Standard: the code point read so far,
    the continuation bytes still needed and the range the next one must be in. *)
Record utf8_state := {
  u8_cp : Z;
  u8_needed : nat;
  u8_lower : Z;
  u8_upper : Z;
}.

Definition utf8_start : utf8_state :=
  {| u8_cp := 0; u8_needed := 0; u8_lower := 0x80; u8_upper := 0xBF |}.

Definition utf8_lead (b : Z) : list Z * utf8_state :=
  if b <? 0x80 then ([b], utf8_start)
  else if (0xC2 <=? b) && (b <=? 0xDF) then
    ([], {| u8_cp := b - 0xC0; u8_needed := 1; u8_lower := 0x80; u8_upper := 0xBF |})
  else if (0xE0 <=? b) && (b <=? 0xEF) then
    ([], {| u8_cp := b - 0xE0; u8_needed := 2;
            u8_lower := if b =? 0xE0 then 0xA0 else 0x80;
            u8_upper := if b =? 0xED then 0x9F else 0xBF |})
  else if (0xF0 <=? b) && (b <=? 0xF4) then
    ([], {| u8_cp := b - 0xF0; u8_needed := 3;
            u8_lower := if b =? 0xF0 then 0x90 else 0x80;
            u8_upper := if b =? 0xF4 then 0x8F else 0xBF |})
  else ([0xFFFD], utf8_start).

Definition utf8_step (st : utf8_state) (b : Z) : list Z * utf8_state :=
  match u8_needed st with
  | O => utf8_lead b
  | S n =>
      if (u8_lower st <=? b) && (b <=? u8_upper st) then
        let cp := u8_cp st * 2 ^ 6 + (b - 0x80) in
        match n with
        | O => ([cp], utf8_start)
        | _ => ([], {| u8_cp := cp; u8_needed := n; u8_lower := 0x80; u8_upper := 0xBF |})
        end
      else let '(out, st') := utf8_lead b in (0xFFFD :: out, st')
  end.

Fixpoint utf8_run (st : utf8_state) (bs : list Z) : list Z :=
  match bs with
  | [] => match u8_needed st with O => [] | _ => [0xFFFD] end
  | b :: bs' => let '(out, st') := utf8_step st b in out ++ utf8_run st' bs'
  end.

(** [new TextDecoder().decode(bytes)]: a leading byte order mark is dropped. *)
Definition text_decode (bs : list Z) : jsstring :=
  flat_map code_units
    (utf8_run utf8_start (if startsWith bs [0xEF; 0xBB; 0xBF] then drop 3 bs else bs)).

Definition is_ascii (s : jsstring) : Prop := Forall (fun c => 0 <= c < 0x80) s.

#[export] Instance is_ascii_dec s : Decision (is_ascii s).
Proof. unfold is_ascii. apply _. Defined.

Lemma code_points_ascii s : is_ascii s -> code_points s = s.
Proof.
  induction 1 as [|c s Hc Hs IH]; simpl; [done|].
  zcase; simpl; try lia. by rewrite IH.
Qed.

Lemma text_encode_ascii s : is_ascii s -> text_encode s = s.
Proof.
  intros H. unfold text_encode. rewrite code_points_ascii by done.
  induction H as [|c s Hc Hs IH]; simpl; [done|].
  rewrite IH. unfold utf8_code_point. zcase; try lia; done.
Qed.

Lemma utf8_run_ascii s : is_ascii s -> utf8_run utf8_start s = s.
Proof.
  induction 1 as [|c s Hc Hs IH]; simpl; [done|].
  unfold utf8_step, utf8_lead. simpl. zcase; try lia. simpl. by rewrite IH.
Qed.

Lemma ascii_no_bom s : is_ascii s -> startsWith s [0xEF; 0xBB; 0xBF] = false.
Proof.
  destruct 1 as [|c s Hc Hs]; [done|]. cbn [startsWith].
  by replace (0xEF =? c) with false by (symmetry; apply Z.eqb_neq; lia).
Qed.

Lemma text_decode_ascii s : is_ascii s -> text_decode s = s.
Proof.
  intros H. unfold text_decode. rewrite ascii_no_bom, utf8_run_ascii by done.
  induction H as [|c s Hc Hs IH]; [done|]. cbn [flat_map].
  rewrite IH. unfold code_units. zcase; [done|lia].
Qed.

Lemma text_encode_bytes s : Forall (fun u => 0 <= u < 2 ^ 16) s -> Forall is_byte (text_encode s).
Proof.
  intros Hs. unfold text_encode.
  assert (Hc : Forall (fun c => 0 <= c < 0x110000) (code_points s)).
  { induction s as [s IH] using (induction_ltof1 _ length). unfold ltof in IH.
    destruct s as [|u s]; simpl; [constructor|].
    inversion_clear Hs as [|? ? Hu Hs'].
    assert (IHs := IH s ltac:(simpl; lia) Hs').
    destruct ((0xD800 <=? u) && (u <? 0xDC00)) eqn:E1.
    - apply andb_true_iff in E1 as [?%Z.leb_le ?%Z.ltb_lt].
      destruct s as [|v s]; [repeat constructor; lia|].
      inversion_clear Hs' as [|? ? Hv Hs''].
      assert (IHs' := IH s ltac:(simpl; lia) Hs'').
      destruct ((0xDC00 <=? v) && (v <? 0xE000)) eqn:E2.
      + apply andb_true_iff in E2 as [?%Z.leb_le ?%Z.ltb_lt]. constructor; [lia|done].
      + constructor; [lia|done].
    - destruct ((0xDC00 <=? u) && (u <? 0xE000)); constructor; try done; lia. }
  clear Hs. induction Hc as [|c l Hc _ IH]; simpl; [constructor|].
  apply Forall_app. split; [|done].
  unfold utf8_code_point, is_byte.
  zcase; repeat constructor; Z.div_mod_to_equations; lia.
Qed.

(** ** Numbers in texts *)

(** [parseInt(text, 10)]: the number a decimal prefix denotes, after white space
    and a sign; [None] is NaN. *)
Fixpoint decimal_prefix (acc : option Z) (s : jsstring) : option Z :=
  match s with
  | c :: s' => if (48 <=? c) && (c <=? 57) then decimal_prefix (Some (default 0 acc * 10 + (c - 48))) s' else acc
  | [] => acc
  end.

Definition is_space (c : Z) : bool := existsb (Z.eqb c)
    ([9; 10; 11; 12; 13; 32; 160; 5760; 8232; 8233; 8239; 8287; 12288; 65279] ++ seqZ 8192 11).

Fixpoint trim_start (s : jsstring) : jsstring :=
  match s with c :: s' => if is_space c then trim_start s' else s | [] => [] end.

Definition parseInt10 (s : jsstring) : option Z :=
  match trim_start s with
  | 45 :: s' => Z.opp <$> decimal_prefix None s'
  | 43 :: s' => decimal_prefix None s'
  | s' => decimal_prefix None s'
  end.

(** [parseInt(text)]: hexadecimal after 0x. *)
Definition hex_digit (c : Z) : option Z :=
  if (48 <=? c) && (c <=? 57) then Some (c - 48)
  else if (97 <=? c) && (c <=? 102) then Some (c - 87)
  else if (65 <=? c) && (c <=? 70) then Some (c - 55)
  else None.

Fixpoint hex_prefix (acc : option Z) (s : jsstring) : option Z :=
  match s with
  | c :: s' => match hex_digit c with Some d => hex_prefix (Some (default 0 acc * 16 + d)) s' | None => acc end
  | [] => acc
  end.

Definition parse_unsigned (s : jsstring) : option Z :=
  match s with
  | 48 :: 120 :: s' | 48 :: 88 :: s' => hex_prefix None s'
  | _ => decimal_prefix None s
  end.

Definition parseInt (s : jsstring) : option Z :=
  match trim_start s with
  | 45 :: s' => Z.opp <$> parse_unsigned s'
  | 43 :: s' => parse_unsigned s'
  | s' => parse_unsigned s'
  end.

(** ** Objects used as dictionaries *)

(** A property name that is an array index: the decimal text of a number below
    2^32 - 1. *)
Definition array_index (k : jsstring) : option Z :=
  match decimal_prefix None k with
  | Some n => if bool_decide (js_toString 10 n = k) && (n <? 2 ^ 32 - 1) then Some n else None
  | None => None
  end.

(** [Object.values]: the values at array indices in ascending order, then the others
    in the order in which their names were added. *)
Definition Object_entries {V} (o : list (jsstring * V)) : list (jsstring * V) :=
  sort_by (fun kv => default 0 (array_index kv.1)) (filter (fun kv => is_Some (array_index kv.1)) o) ++
  filter (fun kv => ~ is_Some (array_index kv.1)) o.

Definition Object_values {V} (o : list (jsstring * V)) : list V := (Object_entries o).*2.

Lemma Object_entries_perm {V} (o : list (jsstring * V)) : Object_entries o ≡ₚ o.
Proof.
  unfold Object_entries. rewrite sort_by_perm. induction o as [|kv o IH]; [done|]. rewrite !filter_cons.
  destruct (decide (is_Some (array_index kv.1))) as [H|H].
  - rewrite decide_False by tauto. cbn. by rewrite IH.
  - rewrite decide_True by done. rewrite <- Permutation_middle. by rewrite IH.
Qed.

Lemma Object_values_perm {V} (o : list (jsstring * V)) : Object_values o ≡ₚ o.*2.
Proof. unfold Object_values. by rewrite Object_entries_perm. Qed.

Example Object_values_order :
  Object_values [(js "b", 1); (js "10", 2); (js "9", 3); (js "-1", 4); (js "07", 5)] = [3; 2; 1; 4; 5].
Proof. vm_compute. reflexivity. Qed.

(** The decimal text of a number reads back as that number, so it names one number. *)
Lemma radix_digits_read fuel n acc :
  0 <= n < 2 ^ Z.of_nat fuel -> (fuel <> 0)%nat ->
  decimal_prefix None (radix_digits fuel 10 n acc) = decimal_prefix (Some n) acc.
Proof.
  revert n acc. induction fuel as [|fuel IH]; intros n acc Hn Hf; [done|].
  assert (Hd : forall m o, 0 <= m < 10 ->
    decimal_prefix o (digit m :: acc) = decimal_prefix (Some (default 0 o * 10 + m)) acc).
  { intros m o Hm. cbn. unfold digit. zcase; try lia. cbn. do 2 f_equal. lia. }
  cbn [radix_digits]. pose proof (Z.mod_pos_bound n 10 ltac:(lia)).
  destruct (Z.ltb_spec n 10).
  - rewrite Z.mod_small by lia. rewrite Hd by lia. done.
  - assert (fuel <> 0)%nat by (intros ->; cbn in Hn; lia).
    rewrite IH; [rewrite Hd by lia; f_equal; f_equal; cbn; pose proof (Z_div_mod_eq_full n 10); lia| |done].
    split; [apply Z.div_pos; lia|]. apply Z.div_lt_upper_bound; [lia|].
    rewrite Nat2Z.inj_succ, Z.pow_succ_r in Hn by lia. lia.
Qed.

Lemma toString_nonneg_read n : 0 <= n -> decimal_prefix None (toString_nonneg 10 n) = Some n.
Proof.
  intros Hn. unfold toString_nonneg. rewrite radix_digits_read; [done| |done].
  split; [done|]. rewrite Nat2Z.inj_succ, Z2Nat.id by apply Z.log2_nonneg.
  destruct (decide (n = 0)) as [->|]; [done|]. apply Z.log2_spec. lia.
Qed.

Lemma js_toString_nonneg n : 0 <= n -> decimal_prefix None (js_toString 10 n) = Some n.
Proof. intros Hn. unfold js_toString. zcase; [lia|]. by apply toString_nonneg_read. Qed.

Lemma js_toString_inj : Inj eq eq (js_toString 10).
Proof.
  intros n m H. assert (Hr : forall z, z < 0 -> decimal_prefix None (js_toString 10 z) = None).
  { intros z Hz. unfold js_toString. zcase; [done|lia]. }
  destruct (Z.lt_ge_cases n 0) as [Hn|Hn], (Z.lt_ge_cases m 0) as [Hm|Hm].
  - unfold js_toString in H. zcase_in H; try lia.
    assert (H' : toString_nonneg 10 (- n) = toString_nonneg 10 (- m)) by congruence.
    apply (f_equal (decimal_prefix None)) in H'. rewrite !toString_nonneg_read in H' by lia.
    apply (inj Some) in H'. lia.
  - apply (f_equal (decimal_prefix None)) in H. rewrite (Hr n), (js_toString_nonneg m) in H by lia. done.
  - apply (f_equal (decimal_prefix None)) in H. rewrite (Hr m), (js_toString_nonneg n) in H by lia. done.
  - apply (f_equal (decimal_prefix None)) in H. rewrite !js_toString_nonneg in H by lia. by apply (inj Some).
Qed.

Lemma digits_app fuel n acc s : radix_digits fuel 10 n acc ++ s = radix_digits fuel 10 n (acc ++ s).
Proof.
  revert n acc. induction fuel as [|fuel IH]; intros n acc; [done|]. cbn [radix_digits].
  destruct (n <? 10); [done|]. by rewrite IH.
Qed.

Lemma js_toString_read_app n s : 0 <= n -> decimal_prefix None (js_toString 10 n ++ js "-" ++ s) = Some n.
Proof.
  intros Hn. unfold js_toString. destruct (Z.ltb_spec n 0); [lia|]. unfold toString_nonneg.
  rewrite digits_app, radix_digits_read; [done| |done].
  split; [done|]. rewrite Nat2Z.inj_succ, Z2Nat.id by apply Z.log2_nonneg.
  destruct (decide (n = 0)) as [->|]; [done|]. apply Z.log2_spec. lia.
Qed.

(** Two numbers with a dash between them are read back. *)
Lemma dash_inj a b a' b' : 0 <= a -> 0 <= a' ->
  js_toString 10 a ++ js "-" ++ js_toString 10 b = js_toString 10 a' ++ js "-" ++ js_toString 10 b' -> a = a' /\ b = b'.
Proof.
  intros Ha Ha' E. assert (a = a') as <-.
  { apply (f_equal (decimal_prefix None)) in E. rewrite !js_toString_read_app in E by done. by apply (inj Some). }
  split; [done|]. apply app_inv_head, app_inv_head in E. by apply js_toString_inj in E.
Qed.

(** A group of an object used as a dictionary: [(o[k] = o[k] || []).push(x)]. *)
Fixpoint obj_push {V} (k : jsstring) (x : V) (o : list (jsstring * list V)) : list (jsstring * list V) :=
  match o with
  | [] => [(k, [x])]
  | (k', xs) :: o' => if decide (k = k') then (k', xs ++ [x]) :: o' else (k', xs) :: obj_push k x o'
  end.

(** [array.reduce((pre, it) => ((pre[key(it)] = pre[key(it)] || []).push(it), pre), {})] *)
Definition group_by {V} (key : V -> jsstring) (l : list V) : list (jsstring * list V) :=
  foldl (fun o x => obj_push (key x) x o) [] l.

Lemma obj_push_keys {V} k (x : V) o k' : k' ∈ (obj_push k x o).*1 <-> k' = k \/ k' ∈ o.*1.
Proof.
  induction o as [|[k0 xs] o IH]; cbn; [set_solver|].
  case_decide; subst; cbn; rewrite !elem_of_cons; [tauto|]. rewrite IH. tauto.
Qed.

Lemma obj_push_NoDup {V} k (x : V) o : NoDup o.*1 -> NoDup (obj_push k x o).*1.
Proof.
  induction o as [|[k0 xs] o IH]; cbn; [intros; repeat constructor; set_solver|].
  intros [H0 HN]%NoDup_cons. case_decide; cbn; constructor; auto.
  rewrite obj_push_keys. naive_solver.
Qed.

Lemma obj_push_elem {V} k (x : V) o k' ys : NoDup o.*1 ->
  (k', ys) ∈ obj_push k x o <->
  (k' <> k /\ (k', ys) ∈ o) \/
  (k' = k /\ ((exists xs, (k, xs) ∈ o /\ ys = xs ++ [x]) \/ (k ∉ o.*1 /\ ys = [x]))).
Proof.
  induction o as [|[k0 xs] o IH]; cbn; intros HN; [set_solver|].
  apply NoDup_cons in HN as [H0 HN]. assert (Hno : forall zs, (k0, zs) ∈ o -> False).
  { intros zs Hz. apply H0, list_elem_of_fmap. by exists (k0, zs). }
  case_decide; subst.
  - rewrite !elem_of_cons. split.
    + intros [[= -> ->]|Hi]; [right; split; [done|]; left; exists xs; set_solver|].
      left. split; [|set_solver]. intros ->. by destruct (Hno ys).
    + intros [[Hne [[=]|Hi]]|[-> [[xs' [[[= ->]|Hi]%elem_of_cons ->]]|[Hn _]]]]; [done|by right|by left| |].
      * by destruct (Hno xs').
      * destruct Hn. set_solver.
  - rewrite elem_of_cons, (IH HN), elem_of_cons. split.
    + intros [[= -> ->]|[[Hne Hi]|[-> [[xs' [Hi ->]]|[Hn ->]]]]].
      * left. split; [done|by left].
      * left. split; [done|by right].
      * right. split; [done|]. left. exists xs'. set_solver.
      * right. split; [done|]. right. split; [|done]. intros [->|?]%elem_of_cons; [done|]. done.
    + intros [[Hne [[= -> ->]|Hi]]|[-> [[xs' [[[= -> ->]|Hi]%elem_of_cons ->]]|[Hn ->]]]]; [by left|right|done|right|right].
      * by left.
      * right. split; [done|]. left. by exists xs'.
      * right. split; [done|]. right. split; [|done]. set_solver.
Qed.

Lemma group_by_spec {V} (key : V -> jsstring) (l : list V) :
  NoDup (group_by key l).*1 /\
  (forall k xs, (k, xs) ∈ group_by key l <-> xs = filter (fun x => key x = k) l /\ xs <> []).
Proof.
  unfold group_by. induction l as [|x l [HN IH]] using rev_ind; [cbn; split; [constructor|set_solver]|].
  rewrite foldl_snoc. split; [by apply obj_push_NoDup|]. intros k xs.
  rewrite obj_push_elem, IH, filter_app, filter_cons, filter_nil by done.
  destruct (decide (key x = k)) as [<-|Hk]; [|rewrite app_nil_r; naive_solver].
  split.
  - intros [[? _]|[_ [[ys [[-> ?]%IH ->]]|[Hn ->]]]]; [done|..].
    + split; [done|]. by intros [_ ?]%app_eq_nil.
    + split; [|done]. destruct (filter _ l) as [|y ys] eqn:E; [done|].
      destruct Hn. apply list_elem_of_fmap. exists (key x, y :: ys). split; [done|]. apply IH. by rewrite E.
  - intros [-> _]. right. split; [done|]. destruct (filter _ l) as [|y ys] eqn:E.
    + right. split; [|done]. intros [[k' zs] [Hk [-> Hz]%IH]]%list_elem_of_fmap. cbn in Hk. subst k'. by rewrite E in Hz.
    + left. exists (y :: ys). split; [|done]. apply IH. by rewrite E.
Qed.

Lemma Object_values_group {V} (key : V -> jsstring) (l xs : list V) :
  xs ∈ Object_values (group_by key l) <-> exists k, xs = filter (fun x => key x = k) l /\ xs <> [].
Proof.
  destruct (group_by_spec key l) as [_ Hs]. rewrite Object_values_perm, list_elem_of_fmap. split.
  - intros [[k ys] [-> [-> ?]%Hs]]. by exists k.
  - intros [k [-> Hne]]. exists (k, filter (fun x => key x = k) l). split; [done|]. by apply Hs.
Qed.

Lemma group_by_concat {V} (key : V -> jsstring) (l : list V) : concat (group_by key l).*2 ≡ₚ l.
Proof.
  assert (Hp : forall k (x : V) o, concat (obj_push k x o).*2 ≡ₚ x :: concat o.*2).
  { intros k x o. induction o as [|[k' xs] o IH]; cbn; [done|]. case_decide; cbn; [|rewrite IH].
    - rewrite <- app_assoc. symmetry. apply Permutation_middle.
    - by rewrite <- Permutation_middle. }
  unfold group_by. induction l as [|x l IH] using rev_ind; [done|].
  rewrite foldl_snoc, Hp, IH. apply Permutation_cons_append.
Qed.

Lemma Object_values_concat {V} (key : V -> jsstring) (l : list V) : concat (Object_values (group_by key l)) ≡ₚ l.
Proof.
  rewrite <- (group_by_concat key l) at 2. assert (Hc : forall a b : list (list V), a ≡ₚ b -> concat a ≡ₚ concat b).
  { induction 1; cbn; [done|by f_equiv|by rewrite !app_assoc, (Permutation_app_comm x y)|by etrans]. }
  apply Hc, Object_values_perm.
Qed.
