(* ===== verification/HdcMessages.v ===== *)
(** * HDC message records and fixed-size packet heads

    The data classes of [ide/src/hdc/message] and the constants they are
    built from.  [USBHead] and [PayloadHead] are the two 11-byte heads of the
    USB framing: their [getDataView] writes a fresh 11-byte buffer field by
    field and their parser reads it back, raising RangeError on a short
    buffer. *)

From S2P Require Import Prelude JsRuntime.

(** ** Constants *)

Definition HANDSHAKE_MESSAGE : jsstring := js "OHOS HDC".
Definition PACKET_FLAG : jsstring := js "HW".
Definition USB_PACKET_FLAG : jsstring := js "UB".
Definition CMDSTR_SHELL : jsstring := js "shell".
Definition CMDSTR_FILE_SEND : jsstring := js "file send".
Definition CMDSTR_FILE_RECV : jsstring := js "file recv".

Module AuthType.
Definition AUTH_NONE : Z := 0.
Definition AUTH_TOKEN : Z := 1.
Definition AUTH_SIGNATURE : Z := 2.
Definition AUTH_PUBLICKEY : Z := 3.
Definition AUTH_OK : Z := 4.
End AuthType.

Module WireType.
Definition VARINT : Z := 0.
Definition FIXED64 : Z := 1.
Definition LENGTH_DELIMETED : Z := 2.
Definition START_GROUP : Z := 3.
Definition END_GROUP : Z := 4.
Definition FIXED32 : Z := 5.
End WireType.

Inductive UsbProtocolOption :=
  | USB_OPTION_HEADER | USB_OPTION_RESET | USB_OPTION_RESERVE4
  | USB_OPTION_RESERVE8 | USB_OPTION_RESERVE16.

Definition option_value (o : UsbProtocolOption) : Z :=
  match o with
  | USB_OPTION_HEADER => 1 | USB_OPTION_RESET => 2 | USB_OPTION_RESERVE4 => 4
  | USB_OPTION_RESERVE8 => 8 | USB_OPTION_RESERVE16 => 16
  end.

Inductive HdcCommand :=
  | CMD_KERNEL_HELP | CMD_KERNEL_HANDSHAKE | CMD_KERNEL_CHANNEL_CLOSE
  | CMD_KERNEL_SERVER_KILL | CMD_KERNEL_TARGET_DISCOVER | CMD_KERNEL_TARGET_LIST
  | CMD_KERNEL_TARGET_ANY | CMD_KERNEL_TARGET_CONNECT | CMD_KERNEL_TARGET_DISCONNECT
  | CMD_KERNEL_ECHO | CMD_KERNEL_ECHO_RAW | CMD_KERNEL_ENABLE_KEEPALIVE
  | CMD_KERNEL_WAKEUP_SLAVETASK
  | CMD_UNITY_COMMAND_HEAD | CMD_UNITY_EXECUTE | CMD_UNITY_REMOUNT | CMD_UNITY_REBOOT
  | CMD_UNITY_RUNMODE | CMD_UNITY_HILOG | CMD_UNITY_TERMINATE | CMD_UNITY_ROOTRUN
  | CMD_JDWP_LIST | CMD_JDWP_TRACK | CMD_UNITY_COMMAND_TAIL
  | CMD_UNITY_BUGREPORT_INIT | CMD_UNITY_BUGREPORT_DATA
  | CMD_SHELL_INIT | CMD_SHELL_DATA
  | CMD_FILE_INIT | CMD_FILE_CHECK | CMD_FILE_BEGIN | CMD_FILE_DATA | CMD_FILE_FINISH
  | CMD_APP_SIDELOAD | CMD_APP_INIT | CMD_APP_CHECK | CMD_APP_BEGIN | CMD_APP_DATA
  | CMD_APP_FINISH | CMD_APP_UNINSTALL.

Definition cmd (c : HdcCommand) : Z :=
  match c with
  | CMD_KERNEL_HELP => 0 | CMD_KERNEL_HANDSHAKE => 1 | CMD_KERNEL_CHANNEL_CLOSE => 2
  | CMD_KERNEL_SERVER_KILL => 3 | CMD_KERNEL_TARGET_DISCOVER => 4
  | CMD_KERNEL_TARGET_LIST => 5 | CMD_KERNEL_TARGET_ANY => 6
  | CMD_KERNEL_TARGET_CONNECT => 7 | CMD_KERNEL_TARGET_DISCONNECT => 8
  | CMD_KERNEL_ECHO => 9 | CMD_KERNEL_ECHO_RAW => 10 | CMD_KERNEL_ENABLE_KEEPALIVE => 11
  | CMD_KERNEL_WAKEUP_SLAVETASK => 12
  | CMD_UNITY_COMMAND_HEAD => 1000 | CMD_UNITY_EXECUTE => 1001 | CMD_UNITY_REMOUNT => 1002
  | CMD_UNITY_REBOOT => 1003 | CMD_UNITY_RUNMODE => 1004 | CMD_UNITY_HILOG => 1005
  | CMD_UNITY_TERMINATE => 1006 | CMD_UNITY_ROOTRUN => 1007 | CMD_JDWP_LIST => 1008
  | CMD_JDWP_TRACK => 1009 | CMD_UNITY_COMMAND_TAIL => 1010
  | CMD_UNITY_BUGREPORT_INIT => 1011 | CMD_UNITY_BUGREPORT_DATA => 1012
  | CMD_SHELL_INIT => 2000 | CMD_SHELL_DATA => 2001
  | CMD_FILE_INIT => 3000 | CMD_FILE_CHECK => 3001 | CMD_FILE_BEGIN => 3002
  | CMD_FILE_DATA => 3003 | CMD_FILE_FINISH => 3004
  | CMD_APP_SIDELOAD => 3005 | CMD_APP_INIT => 3500 | CMD_APP_CHECK => 3501
  | CMD_APP_BEGIN => 3502 | CMD_APP_DATA => 3503 | CMD_APP_FINISH => 3504
  | CMD_APP_UNINSTALL => 3505
  end.

Inductive CompressType :=
  | COMPRESS_NONE | COMPRESS_LZ4 | COMPRESS_LZ77 | COMPRESS_LZMA | COMPRESS_BROTLI.

(** ** Message records *)

Record USBHead := {
  uh_flag : list Z;
  uh_option : Z;
  uh_sessionId : Z;
  uh_dataSize : Z;
}.

Record PayloadHead := {
  ph_flag : list Z;
  ph_reserve : list Z;
  ph_protocolVer : Z;
  ph_headSize : Z;
  ph_dataSize : Z;
}.

Record PayloadProtect := {
  pp_channelId : Z;
  pp_commandFlag : Z;
  pp_checkSum : Z;
  pp_vCode : Z;
}.

Record SessionHandShake := {
  hs_banner : jsstring;
  hs_authType : Z;
  hs_sessionId : Z;
  hs_connectKey : jsstring;
  hs_buf : jsstring;
  hs_version : jsstring;
}.

Record TransferConfig := {
  tc_fileSize : Z;
  tc_atime : Z;
  tc_mtime : Z;
  tc_options : jsstring;
  tc_path : jsstring;
  tc_optionalName : jsstring;
  tc_updateIfNew : bool;
  tc_compressType : Z;
  tc_holdTimestamp : bool;
  tc_functionName : jsstring;
  tc_clientCwd : jsstring;
  tc_reserve1 : jsstring;
  tc_reserve2 : jsstring;
}.

Record TransferPayload := {
  tp_index : Z;
  tp_compressType : Z;
  tp_compressSize : Z;
  tp_uncompressSize : Z;
}.

(** ** The packet heads *)

Definition USBHeadLength : Z := 11.
Definition PayloadHeadLength : Z := 11.

(** [array[i]] stored as a byte: [undefined] becomes NaN, which is stored as 0. *)
Definition num_at (l : list Z) (i : Z) : Z := default 0 (zlookup i l).

Definition USBHead_getDataView (h : USBHead) : res (list Z) :=
  let dataView := zeros 11 in
  let* dataView := setUint8 dataView 0 (num_at (uh_flag h) 0) in
  let* dataView := setUint8 dataView 1 (num_at (uh_flag h) 1) in
  let* dataView := setUint8 dataView 2 (uh_option h) in
  let* dataView := setUint32 dataView 3 (uh_sessionId h) in
  let* dataView := setUint32 dataView 7 (uh_dataSize h) in
  Ok dataView.

Definition parseHeadData (data : list Z) : res USBHead :=
  let* flagZero := getUint8 data 0 in
  let* flagOne := getUint8 data 1 in
  let* option := getUint8 data 2 in
  let* sessionId := getUint32 data 3 in
  let* dataSize := getUint32 data 7 in
  Ok {| uh_flag := [flagZero; flagOne]; uh_option := option;
        uh_sessionId := sessionId; uh_dataSize := dataSize |}.

Definition PayloadHead_getDataView (h : PayloadHead) : res (list Z) :=
  let view := zeros 11 in
  let* view := setUint8 view 0 (num_at (ph_flag h) 0) in
  let* view := setUint8 view 1 (num_at (ph_flag h) 1) in
  let* view := setUint8 view 2 (num_at (ph_reserve h) 0) in
  let* view := setUint8 view 3 (num_at (ph_reserve h) 1) in
  let* view := setUint8 view 4 (ph_protocolVer h) in
  let* view := setUint16 view 5 (ph_headSize h) in
  let* view := setUint32 view 7 (ph_dataSize h) in
  Ok view.

Definition parsePlayHead (data : list Z) : res PayloadHead :=
  let* flagZero := getUint8 data 0 in
  let* flagOne := getUint8 data 1 in
  let* reserveZero := getUint8 data 2 in
  let* reserveOne := getUint8 data 3 in
  let* protocolVer := getUint8 data 4 in
  let* headSize := getUint16 data 5 in
  let* dataSize := if zlen data <? 11 then Ok 0 else getUint32 data 7 in
  Ok {| ph_flag := [flagZero; flagOne]; ph_reserve := [reserveZero; reserveOne];
        ph_protocolVer := protocolVer; ph_headSize := headSize; ph_dataSize := dataSize |}.

(** ** Layout of the heads *)

Lemma USBHead_getDataView_layout h :
  USBHead_getDataView h =
    Ok (uint8 (num_at (uh_flag h) 0) :: uint8 (num_at (uh_flag h) 1) ::
        uint8 (uh_option h) :: be32 (uh_sessionId h) ++ be32 (uh_dataSize h)).
Proof. reflexivity. Qed.

Lemma PayloadHead_getDataView_layout h :
  PayloadHead_getDataView h =
    Ok (uint8 (num_at (ph_flag h) 0) :: uint8 (num_at (ph_flag h) 1) ::
        uint8 (num_at (ph_reserve h) 0) :: uint8 (num_at (ph_reserve h) 1) ::
        uint8 (ph_protocolVer h) :: be16 (ph_headSize h) ++ be32 (ph_dataSize h)).
Proof. reflexivity. Qed.

(** The field widths the two heads can carry. *)
Definition USBHead_ok (h : USBHead) : Prop :=
  (exists a b, uh_flag h = [a; b] /\ is_byte a /\ is_byte b) /\
  is_byte (uh_option h) /\ 0 <= uh_sessionId h < 2 ^ 32 /\ 0 <= uh_dataSize h < 2 ^ 32.

Definition PayloadHead_ok (h : PayloadHead) : Prop :=
  (exists a b, ph_flag h = [a; b] /\ is_byte a /\ is_byte b) /\
  (exists a b, ph_reserve h = [a; b] /\ is_byte a /\ is_byte b) /\
  is_byte (ph_protocolVer h) /\ 0 <= ph_headSize h < 2 ^ 16 /\ 0 <= ph_dataSize h < 2 ^ 32.

Lemma parseHeadData_bytes a b o s0 s1 s2 s3 d0 d1 d2 d3 rest :
  parseHeadData (a :: b :: o :: [s3; s2; s1; s0] ++ [d3; d2; d1; d0] ++ rest) =
    Ok {| uh_flag := [a; b]; uh_option := o;
          uh_sessionId := s3 * 2 ^ 24 + s2 * 2 ^ 16 + s1 * 2 ^ 8 + s0;
          uh_dataSize := d3 * 2 ^ 24 + d2 * 2 ^ 16 + d1 * 2 ^ 8 + d0 |}.
Proof. reflexivity. Qed.

(** The head bytes followed by anything parse back to the head. *)
Lemma parseHeadData_getDataView h rest bs :
  USBHead_ok h -> USBHead_getDataView h = Ok bs -> parseHeadData (bs ++ rest) = Ok h.
Proof.
  destruct h as [fl o s d]. intros ((a & b & Hf & Ha & Hb) & Ho & Hs & Hd). simpl in *. subst fl.
  rewrite USBHead_getDataView_layout. intros [= <-].
  cbn [uh_flag uh_option uh_sessionId uh_dataSize num_at zlookup].
  change (num_at [a; b] 0) with a. change (num_at [a; b] 1) with b.
  rewrite !uint8_id by done. unfold be32.
  etransitivity; [apply parseHeadData_bytes|]. by rewrite !be32_value.
Qed.

Lemma getUint32_app view rest i v :
  getUint32 view i = Ok v -> getUint32 (view ++ rest) i = Ok v.
Proof.
  unfold getUint32, getUint8. intros H.
  repeat match type of H with
  | context [zlookup ?j view] =>
      let E := fresh "E" in destruct (zlookup j view) eqn:E; [|discriminate];
      pose proof (zlookup_Some_lt _ _ _ E); simpl in H
  end.
  rewrite !zlookup_app_l by lia. by rewrite E, E0, E1, E2.
Qed.

Lemma parsePlayHead_getDataView h rest bs :
  PayloadHead_ok h -> PayloadHead_getDataView h = Ok bs -> parsePlayHead (bs ++ rest) = Ok h.
Proof.
  destruct h as [fl re p hs d].
  intros ((a & b & Hf & Ha & Hb) & (c & e & Hr & Hc & He) & Hp & Hh & Hd). simpl in *. subst fl re.
  rewrite PayloadHead_getDataView_layout. intros [= <-].
  cbn [ph_flag ph_reserve ph_protocolVer ph_headSize ph_dataSize].
  change (num_at [a; b] 0) with a. change (num_at [a; b] 1) with b.
  change (num_at [c; e] 0) with c. change (num_at [c; e] 1) with e.
  rewrite !uint8_id by done. unfold be32, be16.
  transitivity (Ok {| ph_flag := [a; b]; ph_reserve := [c; e]; ph_protocolVer := p;
    ph_headSize := (hs / 2 ^ 8 mod 256) * 2 ^ 8 + hs mod 256;
    ph_dataSize := (d / 2 ^ 24 mod 256) * 2 ^ 24 + (d / 2 ^ 16 mod 256) * 2 ^ 16
      + (d / 2 ^ 8 mod 256) * 2 ^ 8 + d mod 256 |}).
  - unfold parsePlayHead. match goal with |- context [zlen ?l <? 11] => destruct (Z.ltb_spec (zlen l) 11) as [Hl|Hl] end.
    + cbn [app] in Hl. rewrite !zlen_cons in Hl. pose proof (zlen_nonneg rest). lia.
    + reflexivity.
  - by rewrite be16_value, be32_value.
Qed.

Lemma getDataView_lengths u p :
  (exists bs, USBHead_getDataView u = Ok bs /\ zlen bs = USBHeadLength /\ Forall is_byte bs) /\
  (exists bs, PayloadHead_getDataView p = Ok bs /\ zlen bs = PayloadHeadLength /\ Forall is_byte bs).
Proof.
  rewrite USBHead_getDataView_layout, PayloadHead_getDataView_layout.
  split; eexists; split; [done| |done|]; split; try reflexivity.
  all: repeat (apply Forall_cons_2; [apply uint8_byte|]); apply Forall_nil_2.
Qed.
