(* ===== verification/HdcSerialize.v ===== *)
(** * The protobuf-like serializer of the HDC protocol

    [ide/src/hdc/common/Serialize.ts]: varints written with JavaScript's
    signed 32-bit shifts, tagged fields, and the message (de)serializers built
    from them.  Against the reference encoding [leb128] the theorems say for
    which values the varint functions are right, and which messages survive a
    round trip. *)

From S2P Require Import Prelude JsRuntime HdcMessages.

(** ** Varints *)

Fixpoint writeVarInt (k : nat) (value : Z) : list Z :=
  match k with
  | O => []
  | S k' =>
      let b := js_and value 127 in
      let value := js_shr value 7 in
      if truthy value then js_or b 128 :: writeVarInt k' value else [b]
  end.

Definition writeVarIntU32 (u32value : Z) : list Z := uint8_of_array (writeVarInt 5 u32value).
Definition writeVarIntU64 (u64value : Z) : list Z := uint8_of_array (writeVarInt 10 u64value).

Fixpoint readVarInt (k : nat) (index acc : Z) (dataView : list Z) : Z :=
  match k with
  | O => -1
  | S k' =>
      if zlen dataView <? index + 1 then -1
      else
        let int8 := num_at dataView index in
        let readValue := js_and int8 127 in
        let acc := js_or acc (js_shl readValue (7 * index)) in
        if truthy (js_and int8 128) then readVarInt k' (index + 1) acc dataView else acc
  end.

Definition readVarIntU32 (dataView : list Z) : Z := readVarInt 5 0 0 dataView.
Definition readVarIntU64 (dataView : list Z) : Z := readVarInt 10 0 0 dataView.

(** ** Tags and single fields *)

Definition makeTagWireType (tag wireType : Z) : Z := js_or (js_shl tag 3) wireType.
Definition writeTagWriteType (tag wireType : Z) : list Z :=
  writeVarIntU32 (makeTagWireType tag wireType).
Definition readTagWireType (tagKey : Z) : Z := js_shr tagKey 3.
Definition getTag (wireType : Z) (dataView : list Z) : Z :=
  readTagWireType (readVarIntU32 dataView).

Definition serializeToString (tag : Z) (value : jsstring) : res (list Z) :=
  let data := writeVarIntU32 (makeTagWireType tag WireType.LENGTH_DELIMETED) in
  let dataLength := writeVarIntU32 (zlen value) in
  let buffer := text_encode value in
  merge_arrays [data; dataLength; buffer].

Definition serializeU32 (tag value : Z) : res (list Z) :=
  merge_arrays [writeTagWriteType tag WireType.VARINT; writeVarIntU32 value].

Definition serializeU8 (tag value : Z) : res (list Z) := serializeU32 tag value.

Definition serializeU64 (tag value : Z) : res (list Z) :=
  merge_arrays [writeTagWriteType tag WireType.VARINT; writeVarIntU64 value].

Definition parseU32 (dataView : list Z) : Z := readVarIntU32 dataView.
Definition parseU8 (dataView : list Z) : Z := parseU32 dataView.
Definition parseU64 (dataView : list Z) : Z := readVarIntU64 dataView.
Definition parseString (buffer : list Z) (size : Z) : jsstring :=
  text_decode (js_slice buffer 0 size).

(** ** Messages *)

Definition serializeSessionHandShake (h : SessionHandShake) : res (list Z) :=
  let* bannerValue := serializeToString 1 (hs_banner h) in
  let* authTypeValue := serializeU8 2 (hs_authType h) in
  let* sessionIdValue := serializeU32 3 (hs_sessionId h) in
  let* connectKey := serializeToString 4 (hs_connectKey h) in
  let* buf := serializeToString 5 (hs_buf h) in
  let* version := serializeToString 6 (hs_version h) in
  merge_arrays [bannerValue; authTypeValue; sessionIdValue; connectKey; buf; version].

Definition serializePayloadProtect (p : PayloadProtect) : res (list Z) :=
  let* channelId := serializeU32 1 (pp_channelId p) in
  let* commandFlag := serializeU32 2 (pp_commandFlag p) in
  let* checkSum := serializeU8 3 (pp_checkSum p) in
  let* vCode := serializeU8 4 (pp_vCode p) in
  merge_arrays [channelId; commandFlag; checkSum; vCode].

Definition serializeTransferConfig (c : TransferConfig) : res (list Z) :=
  let* fileSizeValue := serializeU64 1 (tc_fileSize c) in
  let* atimeValue := serializeU64 2 (tc_atime c) in
  let* mtimeValue := serializeU64 3 (tc_mtime c) in
  let* optionsValue := serializeToString 4 (tc_options c) in
  let* pathValue := serializeToString 5 (tc_path c) in
  let* optionalNameValue := serializeToString 6 (tc_optionalName c) in
  let* updateIfNewValue := serializeU32 7 (if tc_updateIfNew c then 1 else 0) in
  let* compressTypeValue := serializeU8 8 (tc_compressType c) in
  let* holdTimestampValue := serializeU32 9 (if tc_holdTimestamp c then 1 else 0) in
  let* functionNameValue := serializeToString 10 (tc_functionName c) in
  let* clientCwdValue := serializeToString 11 (tc_clientCwd c) in
  let* reserve1Value := serializeToString 12 (tc_reserve1 c) in
  let* reserve2Value := serializeToString 13 (tc_reserve2 c) in
  merge_arrays
    [fileSizeValue; atimeValue; mtimeValue; optionsValue; pathValue; optionalNameValue;
     updateIfNewValue; compressTypeValue; holdTimestampValue; functionNameValue;
     clientCwdValue; reserve1Value; reserve2Value].

Definition serializeTransferPayload (p : TransferPayload) : res (list Z) :=
  let* indexValue := serializeU64 1 (tp_index p) in
  let* compressTypeValue := serializeU8 2 (tp_compressType p) in
  let* compressSizeValue := serializeU32 3 (tp_compressSize p) in
  let* uncompressSizeValue := serializeU32 4 (tp_uncompressSize p) in
  merge_arrays [indexValue; compressTypeValue; compressSizeValue; uncompressSizeValue].

(** The block [parseHandshake] repeats for each string: tag, length, data.
    The result is the text and the buffer after it. *)
Definition parseStringField (buffer : list Z) : jsstring * list Z :=
  let tag := getTag WireType.LENGTH_DELIMETED buffer in
  let lengthBuf :=
    js_slice_from buffer (zlen (writeVarIntU32 (makeTagWireType tag WireType.LENGTH_DELIMETED))) in
  let size := readVarIntU32 lengthBuf in
  let dataBuffer := js_slice_from lengthBuf (zlen (writeVarIntU32 size)) in
  (parseString dataBuffer size, js_slice_from dataBuffer size).

(** The block [parseHandshake] repeats for each number. *)
Definition parseVarintField (buffer : list Z) : Z * list Z :=
  let tag := getTag WireType.VARINT buffer in
  let dataBuffer :=
    js_slice_from buffer (zlen (writeVarIntU32 (makeTagWireType tag WireType.VARINT))) in
  let value := parseU32 dataBuffer in
  (value, js_slice_from dataBuffer (zlen (writeVarIntU32 value))).

Definition parseHandshake (data : list Z) : SessionHandShake :=
  let '(banner, authBuffer) := parseStringField data in
  let '(authType, sessionIdBuffer) := parseVarintField authBuffer in
  let '(sessionId, connectKeyBuffer) := parseVarintField sessionIdBuffer in
  let '(connectKey, bufBuffer) := parseStringField connectKeyBuffer in
  let '(buf, versionBuffer) := parseStringField bufBuffer in
  let '(version, _) := parseStringField versionBuffer in
  {| hs_banner := banner; hs_authType := authType; hs_sessionId := sessionId;
     hs_connectKey := connectKey; hs_buf := buf; hs_version := version |}.

(** Every tag and every value is taken to be one byte long. *)
Definition parsePayloadProtect (data : list Z) : PayloadProtect :=
  let channelDataBuffer := js_slice_from data 1 in
  let channelId := parseU32 channelDataBuffer in
  let commandTagBuffer := js_slice_from channelDataBuffer 1 in
  let commandDataBuffer := js_slice_from commandTagBuffer 1 in
  let commandFlag := parseU32 commandDataBuffer in
  let checkSumTagBuffer := js_slice_from commandDataBuffer 1 in
  let checkSumDataBuffer := js_slice_from checkSumTagBuffer 1 in
  let checkSum := parseU8 checkSumDataBuffer in
  let vCodeTagBuffer := js_slice_from checkSumDataBuffer 1 in
  let vCodeDataBuffer := js_slice_from vCodeTagBuffer 1 in
  let vCode := parseU8 vCodeDataBuffer in
  {| pp_channelId := channelId; pp_commandFlag := commandFlag;
     pp_checkSum := checkSum; pp_vCode := vCode |}.

Definition parseTransferConfig (data : list Z) : TransferConfig :=
  let channelDataBuffer := js_slice_from data 1 in
  let fileSize := parseU64 channelDataBuffer in
  {| tc_fileSize := fileSize; tc_atime := 0; tc_mtime := 0; tc_options := [];
     tc_path := []; tc_optionalName := []; tc_updateIfNew := false; tc_compressType := 0;
     tc_holdTimestamp := false; tc_functionName := []; tc_clientCwd := [];
     tc_reserve1 := []; tc_reserve2 := [] |}.

Example varint_624485 : writeVarIntU32 624485 = [0xE5; 0x8E; 0x26].
Proof. reflexivity. Qed.
Example varint_read_back : readVarIntU32 [0xE5; 0x8E; 0x26; 7] = 624485.
Proof. reflexivity. Qed.

(** ** The reference encoding *)

(** LEB128 with at most [k] digits of seven bits. *)
Fixpoint leb128 (k : nat) (v : Z) : list Z :=
  match k with
  | O => []
  | S k' => if v <? 2 ^ 7 then [v] else 2 ^ 7 + v mod 2 ^ 7 :: leb128 k' (v / 2 ^ 7)
  end.

Lemma or_128 d : 0 <= d < 2 ^ 7 -> js_or d 128 = 2 ^ 7 + d.
Proof.
  intros. change 128 with (1 * 2 ^ 7). rewrite js_or_low_high; lia.
Qed.

(** On values below 2^31 the signed shifts produce the reference encoding. *)
Lemma writeVarInt_leb128 k : forall v,
  0 <= v < 2 ^ 31 -> uint8_of_array (writeVarInt k v) = leb128 k v.
Proof.
  induction k as [|k IH]; intros v Hv; [done|]. cbn [writeVarInt leb128].
  change 127 with (Z.ones 7). rewrite js_and_ones, js_shr_div by lia.
  unfold truthy. destruct (Z.eqb_spec (v / 2 ^ 7) 0) as [E|E]; cbn [negb].
  - assert (v < 2 ^ 7) by (apply Z.div_small_iff in E; lia).
    replace (v <? 2 ^ 7) with true by (symmetry; apply Z.ltb_lt; lia).
    cbn. rewrite (Z.mod_small v) by lia. by rewrite uint8_id by (unfold is_byte; lia).
  - assert (~ v < 2 ^ 7) by (intros ?; apply E, Z.div_small; lia).
    replace (v <? 2 ^ 7) with false by (symmetry; apply Z.ltb_ge; lia).
    pose proof (Z.mod_pos_bound v (2 ^ 7)). rewrite or_128 by lia.
    cbn [uint8_of_array fmap list_fmap]. f_equal.
    + apply uint8_id. unfold is_byte. lia.
    + apply IH. split; [apply Z.div_pos; lia|].
      apply Z.div_lt_upper_bound; lia.
Qed.

Lemma leb128_nonempty k v : leb128 (S k) v <> [].
Proof. cbn. by case_match. Qed.

Lemma continuation_bit d : 0 <= d < 2 ^ 7 ->
  truthy (js_and (2 ^ 7 + d) 128) = true /\ truthy (js_and d 128) = false /\
  js_and (2 ^ 7 + d) 127 = d /\ js_and d 127 = d.
Proof.
  intros Hd. change 127 with (Z.ones 7). rewrite !js_and_ones by lia.
  rewrite (Z.mod_small d) by lia.
  replace ((2 ^ 7 + d) mod 2 ^ 7) with d by (Z.div_mod_to_equations; lia).
  unfold js_and. rewrite !toInt32_small by lia. unfold truthy.
  change 128 with (2 ^ 7).
  assert (H1 : forall x, Z.land x (2 ^ 7) = if Z.testbit x 7 then 2 ^ 7 else 0).
  { intros x. apply Z.bits_inj'. intros i Hi.
    rewrite Z.land_spec, Z.pow2_bits_eqb by lia.
    destruct (Z.eqb_spec 7 i) as [<-|].
    - destruct (Z.testbit x 7); [by rewrite Z.pow2_bits_true by lia|by rewrite Z.bits_0].
    - rewrite andb_false_r. destruct (Z.testbit x 7); [|by rewrite Z.bits_0].
      by rewrite Z.pow2_bits_false by lia. }
  rewrite !H1.
  replace (Z.testbit d 7) with false.
  2: { symmetry. rewrite <- (Z.mod_small d (2 ^ 7)) by lia. apply Z.mod_pow2_bits_high. lia. }
  replace (Z.testbit (2 ^ 7 + d) 7) with true; [done|].
  symmetry. apply Z.testbit_true; [lia|].
  replace (2 ^ 7 + d) with (d + 1 * 2 ^ 7) by lia.
  rewrite Z.div_add, (Z.div_small d) by lia. done.
Qed.

Lemma num_at_app pre b rest : num_at (pre ++ b :: rest) (zlen pre) = b.
Proof.
  unfold num_at. rewrite zlookup_app_r by lia. by rewrite Z.sub_diag.
Qed.

(** One round of the read loop, at the last digit and at a continued one. *)
Lemma readVarInt_last k pre rest lo v :
  0 <= lo < 2 ^ (7 * zlen pre) -> 0 <= v < 2 ^ 7 -> 7 * zlen pre < 32 ->
  readVarInt (S k) (zlen pre) (toInt32 lo) (pre ++ v :: rest) =
    toInt32 (lo + v * 2 ^ (7 * zlen pre)).
Proof.
  intros Hlo Hv Hn. cbn [readVarInt]. rewrite zlen_app, zlen_cons, num_at_app.
  pose proof (zlen_nonneg rest). pose proof (zlen_nonneg pre).
  case_match eqn:E; [apply Z.ltb_lt in E; lia|].
  destruct (continuation_bit v) as (_ & -> & _ & ->); [lia|]. apply js_or_shl_add; lia.
Qed.

Lemma readVarInt_more k pre rest lo d :
  0 <= lo < 2 ^ (7 * zlen pre) -> 0 <= d < 2 ^ 7 -> 7 * zlen pre < 32 ->
  readVarInt (S k) (zlen pre) (toInt32 lo) (pre ++ 2 ^ 7 + d :: rest) =
    readVarInt k (zlen (pre ++ [2 ^ 7 + d])) (toInt32 (lo + d * 2 ^ (7 * zlen pre)))
      ((pre ++ [2 ^ 7 + d]) ++ rest).
Proof.
  intros Hlo Hv Hn. cbn [readVarInt].
  rewrite <- app_assoc, !zlen_app, zlen_cons, num_at_app.
  pose proof (zlen_nonneg rest). pose proof (zlen_nonneg pre).
  case_match eqn:E; [apply Z.ltb_lt in E; lia|].
  destruct (continuation_bit d) as (-> & _ & -> & _); [lia|].
  by rewrite js_or_shl_add by lia.
Qed.

(** Reading a reference encoding yields its value as a signed 32-bit number. *)
Lemma readVarInt_leb128 k : forall pre rest lo v,
  0 <= lo < 2 ^ (7 * zlen pre) -> 0 <= v < 2 ^ (7 * Z.of_nat (S k)) ->
  lo + v * 2 ^ (7 * zlen pre) < 2 ^ 35 -> 7 * zlen pre < 32 ->
  readVarInt (S k) (zlen pre) (toInt32 lo) (pre ++ leb128 (S k) v ++ rest) =
    toInt32 (lo + v * 2 ^ (7 * zlen pre)).
Proof.
  induction k as [|k IH]; intros pre rest lo v Hlo Hv Hb Hn;
    cbn [leb128]; destruct (Z.ltb_spec v (2 ^ 7)) as [Hs|Hs];
    try (apply readVarInt_last; lia); [lia|].
  change (if v / 2 ^ 7 <? 2 ^ 7 then [v / 2 ^ 7] else 2 ^ 7 + (v / 2 ^ 7) mod 2 ^ 7 :: leb128 k (v / 2 ^ 7 / 2 ^ 7))
    with (leb128 (S k) (v / 2 ^ 7)).
  pose proof (Z.mod_pos_bound v (2 ^ 7)). pose proof (zlen_nonneg pre).
  cbn [app]. rewrite readVarInt_more by lia.
  assert (Hpre : zlen (pre ++ [2 ^ 7 + v mod 2 ^ 7]) = zlen pre + 1) by (by rewrite zlen_app).
  assert (Hp : 2 ^ (7 * (zlen pre + 1)) = 2 ^ (7 * zlen pre) * 2 ^ 7)
    by (rewrite <- Z.pow_add_r by lia; f_equal; lia).
  assert (Hv' : 2 ^ (7 * Z.of_nat (S (S k))) = 2 ^ (7 * Z.of_nat (S k)) * 2 ^ 7)
    by (rewrite <- Z.pow_add_r by lia; f_equal; lia).
  assert (Hpos : 0 < 2 ^ (7 * zlen pre)) by (apply Z.pow_pos_nonneg; lia).
  pose proof (Z.div_mod v (2 ^ 7)).
  rewrite IH; rewrite ?Hpre, ?Hp.
  - f_equal. nia.
  - nia.
  - split; [apply Z.div_pos; lia|]. apply Z.div_lt_upper_bound; lia.
  - nia.
  - assert (Hlt : 2 ^ (7 * (zlen pre + 1)) < 2 ^ 35) by nia.
    apply Z.pow_lt_mono_r_iff in Hlt; lia.
Qed.

Lemma readVarIntU32_leb128 v rest :
  0 <= v < 2 ^ 35 -> readVarIntU32 (leb128 5 v ++ rest) = toInt32 v.
Proof.
  intros. unfold readVarIntU32. 
  pose proof (readVarInt_leb128 4 [] rest 0 v) as E.
  change (7 * zlen []) with 0 in E. change (7 * Z.of_nat 5) with 35 in E.
  etransitivity; [apply E; lia|f_equal; lia].
Qed.

Lemma readVarIntU64_leb128 v rest :
  0 <= v < 2 ^ 35 -> readVarIntU64 (leb128 10 v ++ rest) = toInt32 v.
Proof.
  intros. unfold readVarIntU64. 
  pose proof (readVarInt_leb128 9 [] rest 0 v) as E.
  change (7 * zlen []) with 0 in E. change (7 * Z.of_nat 10) with 70 in E.
  etransitivity; [apply E; lia|f_equal; lia].
Qed.

Lemma readVarIntU32_write v rest :
  0 <= v < 2 ^ 31 -> readVarIntU32 (writeVarIntU32 v ++ rest) = v.
Proof.
  intros. unfold writeVarIntU32. rewrite writeVarInt_leb128 by lia.
  rewrite readVarIntU32_leb128 by lia. by apply toInt32_small.
Qed.

Lemma readVarIntU64_write v rest :
  0 <= v < 2 ^ 31 -> readVarIntU64 (writeVarIntU64 v ++ rest) = v.
Proof.
  intros. unfold writeVarIntU64. rewrite writeVarInt_leb128 by lia.
  rewrite readVarIntU64_leb128 by lia. by apply toInt32_small.
Qed.

(** Above 2^31 the arithmetic shift never reaches zero: every byte written is
    a continuation byte. *)
Lemma writeVarInt_negative k : forall v, - 2 ^ 31 <= toInt32 v < 0 ->
  length (writeVarInt k v) = k /\
  Forall (fun b => exists d, b = 2 ^ 7 + d /\ 0 <= d < 2 ^ 7) (writeVarInt k v).
Proof.
  induction k as [|k IH]; intros v Hv; [by split|]. cbn [writeVarInt].
  assert (Hshr : - 2 ^ 31 <= js_shr v 7 < 0).
  { unfold js_shr. rewrite Z.shiftr_div_pow2 by done.
    change (7 mod 32) with 7. Z.div_mod_to_equations. lia. }
  unfold truthy. destruct (Z.eqb_spec (js_shr v 7) 0); [lia|]. cbn [negb].
  destruct (IH (js_shr v 7)) as [Hl Hf]; [by rewrite toInt32_id by lia|].
  split; [cbn; by rewrite Hl|]. constructor; [|done].
  exists (toInt32 v mod 2 ^ 7).
  pose proof (Z.mod_pos_bound (toInt32 v) (2 ^ 7)).
  split; [|lia]. rewrite <- or_128 by lia. f_equal.
  unfold js_and. change (toInt32 127) with (Z.ones 7). apply Z.land_ones. lia.
Qed.

Lemma readVarInt_continued bs : forall pre rest acc,
  Forall (fun b => exists d, b = 2 ^ 7 + d /\ 0 <= d < 2 ^ 7) bs ->
  readVarInt (length bs) (zlen pre) acc (pre ++ bs ++ rest) = -1.
Proof.
  induction bs as [|b bs IH]; intros pre rest acc Hf; [done|].
  inversion_clear Hf as [|? ? (d & -> & Hd) Hf']. cbn [length readVarInt app].
  case_match; [done|]. rewrite num_at_app.
  destruct (continuation_bit d) as (-> & _); [lia|].
  replace (pre ++ 2 ^ 7 + d :: bs ++ rest) with ((pre ++ [2 ^ 7 + d]) ++ bs ++ rest)
    by (by rewrite <- app_assoc).
  replace (zlen pre + 1) with (zlen (pre ++ [2 ^ 7 + d])) by (by rewrite zlen_app).
  by apply IH.
Qed.

Lemma readVarIntU32_write_high v rest :
  2 ^ 31 <= v < 2 ^ 32 -> readVarIntU32 (writeVarIntU32 v ++ rest) = -1.
Proof.
  intros Hv. assert (Ht : toInt32 v = v - 2 ^ 32)
    by (unfold toInt32; rewrite Z.mod_small by lia; zcase; lia).
  destruct (writeVarInt_negative 5 v) as [Hl Hf]; [lia|].
  assert (Hw : writeVarIntU32 v = writeVarInt 5 v).
  { unfold writeVarIntU32, uint8_of_array. clear Hl. induction Hf as [|b l (d & -> & Hd) _ IH]; [done|].
    cbn. rewrite IH, uint8_id; [done|unfold is_byte; lia]. }
  rewrite Hw. unfold readVarIntU32. rewrite <- Hl at 1.
  by apply (readVarInt_continued _ [] rest).
Qed.

(** ** Fields *)

Lemma makeTagWireType_add tag w :
  0 <= tag < 2 ^ 28 -> 0 <= w < 2 ^ 3 -> makeTagWireType tag w = w + tag * 2 ^ 3.
Proof.
  intros. unfold makeTagWireType. rewrite js_shl_mul by lia.
  unfold js_or. rewrite Z.lor_comm. apply (js_or_low_high w tag 3); lia.
Qed.

Lemma getTag_write tag w rest :
  0 <= tag < 2 ^ 28 -> 0 <= w < 2 ^ 3 ->
  getTag w (writeVarIntU32 (makeTagWireType tag w) ++ rest) = tag.
Proof.
  intros. unfold getTag, readTagWireType.
  rewrite makeTagWireType_add, readVarIntU32_write by lia.
  rewrite js_shr_div by lia. rewrite Z.div_add, Z.div_small by lia. lia.
Qed.

Lemma serializeToString_bytes tag s :
  serializeToString tag s =
    Ok (writeVarIntU32 (makeTagWireType tag WireType.LENGTH_DELIMETED)
        ++ writeVarIntU32 (zlen s) ++ text_encode s).
Proof. unfold serializeToString. rewrite merge_arrays_concat. cbn [concat]. by rewrite app_nil_r. Qed.

Lemma serializeU32_bytes tag v :
  serializeU32 tag v =
    Ok (writeVarIntU32 (makeTagWireType tag WireType.VARINT) ++ writeVarIntU32 v).
Proof. unfold serializeU32. rewrite merge_arrays_concat. cbn [concat]. by rewrite app_nil_r. Qed.

Lemma serializeU64_bytes tag v :
  serializeU64 tag v =
    Ok (writeVarIntU32 (makeTagWireType tag WireType.VARINT) ++ writeVarIntU64 v).
Proof. unfold serializeU64. rewrite merge_arrays_concat. cbn [concat]. by rewrite app_nil_r. Qed.

Lemma bind_Ok {A B} (r : res A) a (f : A -> res B) c :
  r = Ok a -> f a = c -> res_bind r f = c.
Proof. by intros -> <-. Qed.

(** Run the field serializers at the head of a message serializer. *)
Ltac run_serializers :=
  repeat (cbv beta; lazymatch goal with
  | |- res_bind (serializeU64 _ _) _ = _ => eapply bind_Ok; [apply serializeU64_bytes|]
  | |- res_bind (serializeU32 _ _) _ = _ => eapply bind_Ok; [apply serializeU32_bytes|]
  | |- res_bind (serializeU8 _ _) _ = _ => eapply bind_Ok; [apply serializeU32_bytes|]
  | |- res_bind (serializeToString _ _) _ = _ => eapply bind_Ok; [apply serializeToString_bytes|]
  end).

Lemma parseStringField_write tag s rest :
  0 <= tag < 2 ^ 28 -> is_ascii s -> zlen s < 2 ^ 31 ->
  parseStringField (writeVarIntU32 (makeTagWireType tag WireType.LENGTH_DELIMETED)
                    ++ writeVarIntU32 (zlen s) ++ text_encode s ++ rest) = (s, rest).
Proof.
  intros Ht Hs Hl. pose proof (zlen_nonneg s). unfold parseStringField.
  rewrite getTag_write by (unfold WireType.LENGTH_DELIMETED; lia).
  rewrite js_slice_from_app by done. rewrite readVarIntU32_write by lia.
  rewrite js_slice_from_app by done. rewrite text_encode_ascii by done.
  unfold parseString. rewrite js_slice_prefix, js_slice_from_app by done.
  by rewrite text_decode_ascii.
Qed.

Lemma parseVarintField_write tag v rest :
  0 <= tag < 2 ^ 28 -> 0 <= v < 2 ^ 31 ->
  parseVarintField (writeVarIntU32 (makeTagWireType tag WireType.VARINT)
                    ++ writeVarIntU32 v ++ rest) = (v, rest).
Proof.
  intros Ht Hv. unfold parseVarintField.
  rewrite getTag_write by (unfold WireType.VARINT; lia).
  rewrite js_slice_from_app by done. unfold parseU32. rewrite readVarIntU32_write by lia.
  by rewrite js_slice_from_app.
Qed.

(** What [serializeSessionHandShake] can carry: ASCII text, 31-bit numbers. *)
Definition handshake_ok (h : SessionHandShake) : Prop :=
  (is_ascii (hs_banner h) /\ zlen (hs_banner h) < 2 ^ 31) /\
  0 <= hs_authType h < 2 ^ 31 /\ 0 <= hs_sessionId h < 2 ^ 31 /\
  (is_ascii (hs_connectKey h) /\ zlen (hs_connectKey h) < 2 ^ 31) /\
  (is_ascii (hs_buf h) /\ zlen (hs_buf h) < 2 ^ 31) /\
  (is_ascii (hs_version h) /\ zlen (hs_version h) < 2 ^ 31).

#[export] Instance handshake_ok_dec h : Decision (handshake_ok h).
Proof. unfold handshake_ok. apply _. Defined.

Lemma serializeSessionHandShake_bytes h :
  serializeSessionHandShake h =
    Ok ((writeVarIntU32 (makeTagWireType 1 WireType.LENGTH_DELIMETED)
          ++ writeVarIntU32 (zlen (hs_banner h)) ++ text_encode (hs_banner h))
        ++ (writeVarIntU32 (makeTagWireType 2 WireType.VARINT) ++ writeVarIntU32 (hs_authType h))
        ++ (writeVarIntU32 (makeTagWireType 3 WireType.VARINT) ++ writeVarIntU32 (hs_sessionId h))
        ++ (writeVarIntU32 (makeTagWireType 4 WireType.LENGTH_DELIMETED)
          ++ writeVarIntU32 (zlen (hs_connectKey h)) ++ text_encode (hs_connectKey h))
        ++ (writeVarIntU32 (makeTagWireType 5 WireType.LENGTH_DELIMETED)
          ++ writeVarIntU32 (zlen (hs_buf h)) ++ text_encode (hs_buf h))
        ++ (writeVarIntU32 (makeTagWireType 6 WireType.LENGTH_DELIMETED)
          ++ writeVarIntU32 (zlen (hs_version h)) ++ text_encode (hs_version h))).
Proof.
  unfold serializeSessionHandShake. run_serializers.
  rewrite merge_arrays_concat. cbn [concat]. by rewrite app_nil_r.
Qed.

Lemma parse_serialize_handshake h bs :
  handshake_ok h -> serializeSessionHandShake h = Ok bs -> parseHandshake bs = h.
Proof.
  destruct h as [ba au se ck bu ve]. unfold handshake_ok.
  cbn [hs_banner hs_authType hs_sessionId hs_connectKey hs_buf hs_version].
  intros ((? & ?) & ? & ? & (? & ?) & (? & ?) & (? & ?)).
  rewrite serializeSessionHandShake_bytes. intros <-%Ok_inj. unfold parseHandshake.
  rewrite <- !app_assoc. cbn [hs_banner hs_authType hs_sessionId hs_connectKey hs_buf hs_version].
  rewrite <- (app_nil_r (text_encode ve)).
  repeat (first [rewrite parseStringField_write by first [assumption | lia]
                |rewrite parseVarintField_write by first [assumption | lia]]; cbv beta iota).
  reflexivity.
Qed.

(** ** The payload protection record *)

Lemma writeVarIntU32_small v : 0 <= v < 2 ^ 7 -> writeVarIntU32 v = [v].
Proof.
  intros. unfold writeVarIntU32. rewrite writeVarInt_leb128 by lia.
  cbn [leb128]. by replace (v <? 2 ^ 7) with true by (symmetry; apply Z.ltb_lt; lia).
Qed.

Lemma serializePayloadProtect_bytes p :
  serializePayloadProtect p =
    Ok ([8] ++ writeVarIntU32 (pp_channelId p) ++ [16] ++ writeVarIntU32 (pp_commandFlag p)
        ++ [24] ++ writeVarIntU32 (pp_checkSum p) ++ [32] ++ writeVarIntU32 (pp_vCode p)).
Proof.
  unfold serializePayloadProtect. run_serializers.
  rewrite merge_arrays_concat. cbn [concat]. rewrite app_nil_r, <- !app_assoc. reflexivity.
Qed.

Lemma slice_tail (b : Z) l : js_slice_from (b :: l) 1 = l.
Proof. by rewrite js_slice_from_drop. Qed.

(** With a one-byte channel id the channel and the command are read back. *)
Lemma parse_serialize_protect p bs :
  0 <= pp_channelId p < 2 ^ 7 -> 0 <= pp_commandFlag p < 2 ^ 31 ->
  serializePayloadProtect p = Ok bs ->
  pp_channelId (parsePayloadProtect bs) = pp_channelId p /\
  pp_commandFlag (parsePayloadProtect bs) = pp_commandFlag p.
Proof.
  intros Hc Hf. rewrite serializePayloadProtect_bytes. intros <-%Ok_inj.
  unfold parsePayloadProtect. cbn [pp_channelId pp_commandFlag app].
  rewrite !slice_tail. unfold parseU32. split; [by rewrite readVarIntU32_write by lia|].
  rewrite writeVarIntU32_small by done. cbn [app]. rewrite !slice_tail.
  apply readVarIntU32_write. done.
Qed.

(** What the parser takes for the command: it steps over one byte of the channel
    id, whatever its length.  With two bytes it reads the tag of the command field,
    with more it reads the rest of the channel id. *)
Definition read_command (channelId commandFlag : Z) : Z :=
  if channelId <? 2 ^ 7 then commandFlag
  else if channelId <? 2 ^ 14 then 16
  else channelId / 2 ^ 14.

Lemma leb128_two v : 2 ^ 7 <= v ->
  leb128 5 v = 2 ^ 7 + v mod 2 ^ 7 :: leb128 4 (v / 2 ^ 7).
Proof. intros H. cbn [leb128]. by destruct (Z.ltb_spec v (2 ^ 7)); [lia|]. Qed.

(** One group more changes nothing when the value fits. *)
Lemma leb128_more k : forall v, 0 <= v < 2 ^ (7 * Z.of_nat (S k)) -> leb128 (S (S k)) v = leb128 (S k) v.
Proof.
  induction k as [|k IH]; intros v Hv.
  { cbn [leb128]. destruct (Z.ltb_spec v (2 ^ 7)); [done|]. simpl in Hv. lia. }
  remember (S k) as k'. cbn [leb128]. destruct (Z.ltb_spec v (2 ^ 7)); [done|]. f_equal. subst k'. apply IH.
  replace (7 * Z.of_nat (S (S k))) with (7 + 7 * Z.of_nat (S k)) in Hv by lia. rewrite Z.pow_add_r in Hv by lia.
  split; [apply Z.div_pos; lia|]. apply Z.div_lt_upper_bound; lia.
Qed.

(** For every channel id the channel is read back, and the command as said. *)
Lemma parse_serialize_protect_any p bs :
  0 <= pp_channelId p < 2 ^ 31 -> 0 <= pp_commandFlag p < 2 ^ 31 ->
  serializePayloadProtect p = Ok bs ->
  pp_channelId (parsePayloadProtect bs) = pp_channelId p /\
  pp_commandFlag (parsePayloadProtect bs) = read_command (pp_channelId p) (pp_commandFlag p).
Proof.
  intros Hc Hf E. unfold read_command. destruct (Z.ltb_spec (pp_channelId p) (2 ^ 7)) as [Hs|Hs].
  { apply parse_serialize_protect; [lia|lia|done]. }
  revert E. rewrite serializePayloadProtect_bytes. intros <-%Ok_inj.
  unfold parsePayloadProtect. cbn [pp_channelId pp_commandFlag app].
  rewrite !slice_tail. unfold parseU32. split; [by rewrite readVarIntU32_write by lia|].
  set (ch := pp_channelId p) in *. set (rest := 16 :: _).
  assert (Hw : writeVarIntU32 ch = 2 ^ 7 + ch mod 2 ^ 7 :: leb128 4 (ch / 2 ^ 7)).
  { unfold writeVarIntU32. rewrite writeVarInt_leb128 by lia. by apply leb128_two. }
  assert (H7 : ch / 2 ^ 7 / 2 ^ 7 = ch / 2 ^ 14) by (rewrite Z.div_div by lia; done).
  rewrite Hw. cbn [app]. rewrite slice_tail.
  change (leb128 4 (ch / 2 ^ 7)) with
    (if ch / 2 ^ 7 <? 2 ^ 7 then [ch / 2 ^ 7]
     else 2 ^ 7 + (ch / 2 ^ 7) mod 2 ^ 7 :: leb128 3 (ch / 2 ^ 7 / 2 ^ 7)).
  destruct (Z.ltb_spec ch (2 ^ 14)) as [H14|H14].
  - assert (ch / 2 ^ 7 < 2 ^ 7) by (apply Z.div_lt_upper_bound; lia).
    destruct (Z.ltb_spec (ch / 2 ^ 7) (2 ^ 7)); [|lia]. cbn [app]. rewrite slice_tail.
    apply (readVarIntU32_write 16). done.
  - assert (2 ^ 7 <= ch / 2 ^ 7) by (apply Z.div_le_lower_bound; lia).
    destruct (Z.ltb_spec (ch / 2 ^ 7) (2 ^ 7)); [lia|]. cbn [app]. rewrite slice_tail, H7.
    assert (0 <= ch / 2 ^ 14 < 2 ^ 17) by (split; [apply Z.div_pos; lia|apply Z.div_lt_upper_bound; lia]).
    rewrite <- (leb128_more 2), <- (leb128_more 3) by (simpl; lia).
    rewrite readVarIntU32_leb128 by lia. apply toInt32_small. lia.
Qed.

Lemma serializeTransferConfig_prefix c :
  exists rest, serializeTransferConfig c = Ok (8 :: writeVarIntU64 (tc_fileSize c) ++ rest).
Proof.
  eexists. unfold serializeTransferConfig. run_serializers.
  rewrite merge_arrays_concat. cbn [concat]. rewrite <- app_assoc. reflexivity.
Qed.

(** ** Properties *)

(** C1: every handshake with ASCII texts and numbers below 2^31 survives the
    wire: serializing it succeeds and [parseHandshake] returns exactly it. *)
Theorem handshake_roundtrip (h : SessionHandShake) (Hok : handshake_ok h) :
  exists bs, serializeSessionHandShake h = Ok bs /\ parseHandshake bs = h.
Proof.
  eexists. split; [apply serializeSessionHandShake_bytes|].
  by apply parse_serialize_handshake; [|apply serializeSessionHandShake_bytes].
Qed.

Definition sample_handshake : SessionHandShake :=
  {| hs_banner := HANDSHAKE_MESSAGE; hs_authType := AuthType.AUTH_SIGNATURE;
     hs_sessionId := 98765432; hs_connectKey := js "7001005458323933328a";
     hs_buf := js "authtype        1               1"; hs_version := js "Ver: 3.0.0b" |}.

Lemma handshake_roundtrip_witness :
  exists bs, serializeSessionHandShake sample_handshake = Ok bs /\
             parseHandshake bs = sample_handshake.
Proof. apply (handshake_roundtrip sample_handshake). apply (bool_decide_unpack _). vm_compute. exact I. Defined.

(** below 2^31 the varint writer agrees with the reference LEB128 encoding
    and both readers return the value whatever follows it; so the 32- and the
    64-bit functions agree on this range. *)
Theorem varint_roundtrip (v : Z) (rest : list Z) (Hv : 0 <= v < 2 ^ 31) :
  writeVarIntU32 v = leb128 5 v /\
  readVarIntU32 (writeVarIntU32 v ++ rest) = v /\
  readVarIntU64 (writeVarIntU64 v ++ rest) = v.
Proof.
  split; [by apply writeVarInt_leb128|].
  split; [by apply readVarIntU32_write|by apply readVarIntU64_write].
Qed.

Lemma varint_roundtrip_witness :
  readVarIntU32 (writeVarIntU32 3001 ++ [24; 0]) = 3001.
Proof. apply (varint_roundtrip 3001 [24; 0]). lia. Defined.

(** from 2^31 to 2^32 (still a uint32) the writer emits five continuation
    bytes that the reader rejects with -1, and a correct encoding sent by the
    peer is read as a negative number, by the 64-bit reader too: the size of a
    file of 2 GiB or more is read as a negative size. *)
Theorem varint_above_31_bits (v : Z) (rest : list Z) (Hv : 2 ^ 31 <= v < 2 ^ 32) :
  readVarIntU32 (writeVarIntU32 v ++ rest) = -1 /\
  readVarIntU32 (leb128 5 v ++ rest) = v - 2 ^ 32 /\
  readVarIntU64 (leb128 10 v ++ rest) = v - 2 ^ 32.
Proof.
  assert (Ht : toInt32 v = v - 2 ^ 32)
    by (unfold toInt32; rewrite Z.mod_small by lia; zcase; lia).
  split; [by apply readVarIntU32_write_high|].
  by rewrite readVarIntU32_leb128, readVarIntU64_leb128 by lia.
Qed.

Lemma varint_above_31_bits_witness : readVarIntU64 (leb128 10 (2 ^ 31)) = - 2 ^ 31.
Proof. apply (varint_above_31_bits (2 ^ 31) []). lia. Defined.

(** the channel id and the command flag of a payload protection record are
    read back when the channel id is below 128, for every command flag the
    protocol defines. *)
Theorem payload_protect_roundtrip (p : PayloadProtect) (c : HdcCommand)
  (Hc : 0 <= pp_channelId p < 128) (Hf : pp_commandFlag p = cmd c) :
  exists bs, serializePayloadProtect p = Ok bs /\
    pp_channelId (parsePayloadProtect bs) = pp_channelId p /\
    pp_commandFlag (parsePayloadProtect bs) = cmd c.
Proof.
  eexists. split; [apply serializePayloadProtect_bytes|]. rewrite <- Hf.
  apply parse_serialize_protect; [lia| |apply serializePayloadProtect_bytes].
  rewrite Hf. destruct c; simpl; lia.
Qed.

Lemma payload_protect_roundtrip_witness :
  exists bs, serializePayloadProtect
      {| pp_channelId := 127; pp_commandFlag := 3001; pp_checkSum := 0; pp_vCode := 9 |} = Ok bs /\
    pp_channelId (parsePayloadProtect bs) = 127 /\
    pp_commandFlag (parsePayloadProtect bs) = 3001.
Proof.
  apply (payload_protect_roundtrip
    {| pp_channelId := 127; pp_commandFlag := 3001; pp_checkSum := 0; pp_vCode := 9 |} CMD_FILE_CHECK);
    simpl; lia.
Defined.

(** from the 128th channel on the command flag is lost.  The parser assumes
    one byte per value, so with a two-byte channel id it returns the tag byte 16
    as the command, whatever the command was: a channel close is never seen. *)
Theorem payload_protect_long_channel (p : PayloadProtect)
  (Hc : 128 <= pp_channelId p < 16384) (Hf : 0 <= pp_commandFlag p < 2 ^ 31) :
  exists bs, serializePayloadProtect p = Ok bs /\
    pp_channelId (parsePayloadProtect bs) = pp_channelId p /\
    pp_commandFlag (parsePayloadProtect bs) = 16.
Proof.
  eexists. split; [apply serializePayloadProtect_bytes|].
  destruct (parse_serialize_protect_any p _ ltac:(lia) Hf (serializePayloadProtect_bytes p)) as [-> ->].
  split; [done|]. unfold read_command. destruct (Z.ltb_spec (pp_channelId p) (2 ^ 7)); [lia|].
  by destruct (Z.ltb_spec (pp_channelId p) (2 ^ 14)); [|lia].
Qed.

Lemma payload_protect_long_channel_witness :
  exists bs, serializePayloadProtect
      {| pp_channelId := 128; pp_commandFlag := 2; pp_checkSum := 0; pp_vCode := 9 |} = Ok bs /\
    pp_channelId (parsePayloadProtect bs) = 128 /\
    pp_commandFlag (parsePayloadProtect bs) = 16.
Proof.
  apply (payload_protect_long_channel
    {| pp_channelId := 128; pp_commandFlag := 2; pp_checkSum := 0; pp_vCode := 9 |}); simpl; lia.
Defined.

(** The length written before a text is its number of UTF-16 code units, so the
    reader takes that many bytes of the UTF-8 text and leaves the others to the
    next field. *)
Lemma parseStringField_any tag s rest :
  0 <= tag < 2 ^ 28 -> zlen s < 2 ^ 31 ->
  parseStringField (writeVarIntU32 (makeTagWireType tag WireType.LENGTH_DELIMETED)
                    ++ writeVarIntU32 (zlen s) ++ text_encode s ++ rest) =
    (text_decode (take (length s) (text_encode s ++ rest)),
     drop (length s) (text_encode s ++ rest)).
Proof.
  intros Ht Hl. pose proof (zlen_nonneg s). unfold parseStringField.
  rewrite getTag_write by (unfold WireType.LENGTH_DELIMETED; lia).
  rewrite js_slice_from_app by done. rewrite readVarIntU32_write by lia.
  rewrite js_slice_from_app by done. unfold parseString.
  f_equal.
  - f_equal. apply js_slice_take.
  - rewrite js_slice_from_drop by lia. f_equal. unfold zlen. lia.
Qed.

(** the file size of a transfer configuration is read back when it is
    below 2^31; it is the only field [parseTransferConfig] reads, the others
    get fixed defaults. *)
Theorem transfer_config_fileSize (c : TransferConfig) (Hs : 0 <= tc_fileSize c < 2 ^ 31) :
  exists bs, serializeTransferConfig c = Ok bs /\
    parseTransferConfig bs =
      {| tc_fileSize := tc_fileSize c; tc_atime := 0; tc_mtime := 0; tc_options := [];
         tc_path := []; tc_optionalName := []; tc_updateIfNew := false; tc_compressType := 0;
         tc_holdTimestamp := false; tc_functionName := []; tc_clientCwd := [];
         tc_reserve1 := []; tc_reserve2 := [] |}.
Proof.
  destruct (serializeTransferConfig_prefix c) as [rest Hr].
  eexists. split; [apply Hr|]. unfold parseTransferConfig, parseU64.
  rewrite slice_tail. by rewrite readVarIntU64_write.
Qed.

Definition sample_config : TransferConfig :=
  {| tc_fileSize := 123456789; tc_atime := 5; tc_mtime := 6; tc_options := js "-a";
     tc_path := js "/data/local/tmp/a.htrace"; tc_optionalName := js "a.htrace";
     tc_updateIfNew := true; tc_compressType := 0; tc_holdTimestamp := false;
     tc_functionName := js "recv"; tc_clientCwd := js "C:"; tc_reserve1 := []; tc_reserve2 := [] |}.

Lemma transfer_config_fileSize_witness :
  exists bs, serializeTransferConfig sample_config = Ok bs /\
    tc_fileSize (parseTransferConfig bs) = 123456789.
Proof.
  destruct (transfer_config_fileSize sample_config) as (bs & H1 & H2); [simpl; lia|].
  exists bs. split; [exact H1|]. rewrite H2. reflexivity.
Defined.
