(* ===== verification/HdcCommands.v ===== *)
(** * Command lines of the HDC client

    [FormatCommand.ts], [Utils.ts], [BaseConversion.ts] and the command line
    clean-up of [HdcDeviceManager.processCommand]: from a text typed by the
    user to a command flag and its parameters, and the hexadecimal printers. *)

From S2P Require Import Prelude JsRuntime HdcMessages.

(** ** [BaseConversion.ts] *)

(** The loop that prepends [padLen] zeros. *)
Definition padded (width : Z) (num : Z) : jsstring :=
  let str := js_toString 16 num in
  let padLen := width - zlen str in
  replicate (Z.to_nat padLen) 48 ++ str.

Definition toHex8 (num : Z) : jsstring := padded 1 num.
Definition toHex16 (num : Z) : jsstring := padded 2 num.
Definition toHex32 (num : Z) : jsstring := padded 4 num.
Definition toHex64 (num : Z) : jsstring := padded 8 num.

Definition uint8ArrayToString (array : list Z) (convertToHex16 : bool) : jsstring :=
  foldl (fun result b =>
    if convertToHex16 then result ++ toHex16 b else result ++ js_toString 10 b) [] array.

(** ** [Utils.ts] *)

(** [getLocalId]: the id to use and the next one. *)
Definition getLocalId (localId : Z) : Z * Z :=
  let localId := if localId =? 4294967295 then 1 else localId in
  (localId, localId + 1).

Definition numToHexString (num : option Z) : jsstring :=
  match num with
  | None => js "0x0"
  | Some num =>
      if num <? 0 then js "0x" ++ js_toString 16 (js_ushr num 0)
      else js "0x" ++ js_toString 16 num
  end.

(** ** [FormatCommand.ts] *)

Record FormatCommand := {
  fc_cmdFlag : Z;
  fc_parameters : jsstring;
  fc_bJumpDo : bool;
}.

Definition string2FormatCommand (c : jsstring) : FormatCommand :=
  if startsWith c (CMDSTR_SHELL ++ js " ") then
    {| fc_cmdFlag := cmd CMD_UNITY_EXECUTE;
       fc_parameters := substring_from c (zlen (CMDSTR_SHELL ++ js " ")); fc_bJumpDo := false |}
  else if startsWith c CMDSTR_SHELL then
    {| fc_cmdFlag := cmd CMD_SHELL_INIT; fc_parameters := []; fc_bJumpDo := false |}
  else if startsWith c CMDSTR_FILE_RECV then
    {| fc_cmdFlag := cmd CMD_FILE_INIT;
       fc_parameters := substring_from c (zlen (CMDSTR_FILE_RECV ++ js " ")); fc_bJumpDo := false |}
  else if startsWith c CMDSTR_FILE_SEND then
    {| fc_cmdFlag := cmd CMD_FILE_INIT;
       fc_parameters := substring_from c (zlen (CMDSTR_FILE_SEND ++ js " ")); fc_bJumpDo := false |}
  else {| fc_cmdFlag := -1; fc_parameters := []; fc_bJumpDo := true |}.

Definition formatCommand (c : jsstring) : FormatCommand :=
  let command :=
    if startsWith c (js "hdc_std") then substring_from c (zlen (js "hdc_std "))
    else if startsWith c (js "hdc") then substring_from c (zlen (js "hdc "))
    else c in
  string2FormatCommand command.

(** ** [HdcDeviceManager.processCommand] *)

Definition backslash : jsstring := [92].

Definition processCommand (command : jsstring) : jsstring :=
  if indexOf command backslash =? -1 then command
  else
    foldl (fun processedCommand line =>
      if endsWith line backslash
      then processedCommand ++ js_slice line 0 (-1)
      else processedCommand ++ line ++ [10])
    [] (js_split command [13; 10]).

Example processCommand_joins :
  processCommand (js "echo a\" ++ [13; 10] ++ js "b") = js "echo ab" ++ [10].
Proof. reflexivity. Qed.

(** ** Hexadecimal text *)

Definition undigit (c : Z) : Z := if c <? 58 then c - 48 else c - 87.

(** The reader of two-digit hexadecimal text, as a specification. *)
Fixpoint hex_bytes (s : jsstring) : list Z :=
  match s with
  | hi :: lo :: s' => 16 * undigit hi + undigit lo :: hex_bytes s'
  | _ => []
  end.

Lemma undigit_digit d : 0 <= d < 16 -> undigit (digit d) = d.
Proof. intros. unfold undigit, digit. zcase; lia. Qed.

Lemma toHex16_byte b : is_byte b -> toHex16 b = [digit (b / 16); digit (b mod 16)].
Proof.
  intros Hb. unfold is_byte in Hb.
  assert (Hall : forallb (fun b => bool_decide (toHex16 b = [digit (b / 16); digit (b mod 16)]))
                   (seqZ 0 256) = true) by (vm_compute; reflexivity).
  rewrite forallb_forall in Hall. specialize (Hall b).
  rewrite bool_decide_eq_true in Hall. apply Hall.
  apply list_elem_of_In, elem_of_seqZ. lia.
Qed.

Lemma uint8ArrayToString_acc l : forall acc,
  foldl (fun result b => result ++ toHex16 b) acc l = acc ++ flat_map toHex16 l.
Proof.
  induction l as [|b l IH]; intros acc; simpl; [by rewrite app_nil_r|].
  by rewrite IH, app_assoc.
Qed.

Lemma hex_bytes_flat_map l : Forall is_byte l -> hex_bytes (flat_map toHex16 l) = l.
Proof.
  induction 1 as [|b l Hb Hl IH]; [done|]. cbn [flat_map]. rewrite toHex16_byte by done.
  cbn [app hex_bytes]. unfold is_byte in Hb. rewrite !undigit_digit.
  - rewrite IH. f_equal. pose proof (Z.div_mod b 16). lia.
  - apply Z.mod_pos_bound. lia.
  - split; [apply Z.div_pos; lia|]. apply Z.div_lt_upper_bound; lia.
Qed.

(** ** Properties *)

(** the hexadecimal dump of a byte array is faithful: two digits per byte,
    and reading them back gives the array. *)
Theorem hex_dump_roundtrip (array : list Z) (Hb : Forall is_byte array) :
  hex_bytes (uint8ArrayToString array true) = array /\
  zlen (uint8ArrayToString array true) = 2 * zlen array.
Proof.
  unfold uint8ArrayToString. rewrite uint8ArrayToString_acc. cbn [app]. split.
  - by apply hex_bytes_flat_map.
  - induction Hb as [|b l Hb Hl IH]; [done|]. cbn [flat_map]. rewrite toHex16_byte by done.
    rewrite zlen_app, IH, !zlen_cons, zlen_nil. lia.
Qed.

Lemma hex_dump_roundtrip_witness :
  hex_bytes (uint8ArrayToString [0; 15; 255; 16] true) = [0; 15; 255; 16].
Proof. apply (hex_dump_roundtrip [0; 15; 255; 16]). repeat constructor; lia. Defined.

(** the command line forms of the client.  With either prefix, [shell] with
    arguments runs them, a bare [shell] opens an interactive shell, both file
    transfers become a file command with the text after the keyword as
    parameters, and a text that starts with none of the keywords is marked as
    unsupported with flag -1. *)
Theorem command_line_forms (prefix args : jsstring) (Hp : prefix = js "hdc " \/ prefix = js "hdc_std ") :
  formatCommand (prefix ++ js "shell " ++ args) =
    {| fc_cmdFlag := cmd CMD_UNITY_EXECUTE; fc_parameters := args; fc_bJumpDo := false |} /\
  formatCommand (prefix ++ js "shell") =
    {| fc_cmdFlag := cmd CMD_SHELL_INIT; fc_parameters := []; fc_bJumpDo := false |} /\
  formatCommand (prefix ++ js "file recv " ++ args) =
    {| fc_cmdFlag := cmd CMD_FILE_INIT; fc_parameters := args; fc_bJumpDo := false |} /\
  formatCommand (prefix ++ js "file send " ++ args) =
    {| fc_cmdFlag := cmd CMD_FILE_INIT; fc_parameters := args; fc_bJumpDo := false |} /\
  ((forall k, k = CMDSTR_SHELL \/ k = CMDSTR_FILE_RECV \/ k = CMDSTR_FILE_SEND ->
              startsWith args k = false) ->
   formatCommand (prefix ++ args) = {| fc_cmdFlag := -1; fc_parameters := []; fc_bJumpDo := true |}).
Proof.
  destruct Hp as [-> | ->].
  all: split; [reflexivity|]; split; [reflexivity|]; split; [reflexivity|]; split; [reflexivity|].
  all: intros Hk.
  all: assert (Hf : string2FormatCommand args =
         {| fc_cmdFlag := -1; fc_parameters := []; fc_bJumpDo := true |});
    [|exact Hf].
  all: unfold string2FormatCommand.
  all: destruct (startsWith args (CMDSTR_SHELL ++ js " ")) eqn:E;
    [|by rewrite (Hk CMDSTR_SHELL), (Hk CMDSTR_FILE_RECV), (Hk CMDSTR_FILE_SEND) by tauto].
  all: apply startsWith_iff in E as [t ->]; rewrite <- app_assoc in Hk.
  all: specialize (Hk CMDSTR_SHELL (or_introl eq_refl)); by rewrite startsWith_app in Hk.
Qed.

Lemma command_line_forms_witness :
  formatCommand (js "hdc_std shell ls -l /data") =
    {| fc_cmdFlag := 1001; fc_parameters := js "ls -l /data"; fc_bJumpDo := false |}.
Proof. apply (command_line_forms (js "hdc_std ") (js "ls -l /data")). right. reflexivity. Defined.

(** channel ids stay uint32 and are never zero, and between two wraps of the
    counter (4294967294 calls) no id is given twice. *)
Theorem local_ids_fresh (n : nat) (localId : Z) (i j : nat)
  (Hl : 1 <= localId < 4294967295) (Hn : localId + Z.of_nat n <= 4294967295)
  (Hij : (i < j < n)%nat) :
  let id k := fst (getLocalId (Nat.iter k (fun l => snd (getLocalId l)) localId)) in
  1 <= id i < 2 ^ 32 /\ id i <> id j.
Proof.
  assert (Hk : forall k, (k < n)%nat ->
    Nat.iter k (fun l => snd (getLocalId l)) localId = localId + Z.of_nat k /\
    fst (getLocalId (localId + Z.of_nat k)) = localId + Z.of_nat k).
  { intros k Hk. assert (Hid : forall k, (k < n)%nat -> getLocalId (localId + Z.of_nat k) =
      (localId + Z.of_nat k, localId + Z.of_nat k + 1)).
    { intros k' Hk'. unfold getLocalId. destruct (Z.eqb_spec (localId + Z.of_nat k') 4294967295); [lia|done]. }
    split; [|by rewrite Hid]. induction k as [|k IH]; [simpl; lia|].
    rewrite Nat.iter_succ, IH, Hid by lia. simpl. lia. }
  intros id. unfold id. destruct (Hk i ltac:(lia)) as [-> ->]. destruct (Hk j ltac:(lia)) as [-> ->]. lia.
Qed.

Lemma local_ids_fresh_witness :
  fst (getLocalId (Nat.iter 0 (fun l => snd (getLocalId l)) 1)) <>
  fst (getLocalId (Nat.iter 3 (fun l => snd (getLocalId l)) 1)).
Proof. apply (local_ids_fresh 10 1 0 3); lia. Defined.
