(* ===== verification/HdcQueue.v ===== *)
(** * The message queue of an HDC stream

    [ide/src/hdc/hdcclient/AsyncQueue.ts].  [DataMessageQueue] is an array used
    from both ends; [AsyncQueue] pairs a queue of promises with a queue of the
    functions that resolve them.  Promises are modelled as cells of a store: a
    resolver is the address of the cell it fulfils.  [FifoQueue] states what a
    stream relies on, whatever the implementation; the instance below shows
    that [AsyncQueue] provides it under every interleaving of readers and
    writers. *)

From S2P Require Import Prelude JsRuntime.

(** ** [DataMessageQueue] *)

Section DataMessageQueue.
Context {T : Type}.

(** [push]: [null] is refused, anything else goes to the front of the array. *)
Definition queue_push (eleArray : list T) (entry : option T) : bool * list T :=
  match entry with
  | None => (false, eleArray)
  | Some e => (true, e :: eleArray)
  end.

(** [pop]: the last element of the array. *)
Definition queue_pop (eleArray : list T) : option T * list T :=
  match rev eleArray with
  | [] => (None, eleArray)
  | e :: r => (Some e, rev r)
  end.

Definition queue_size (eleArray : list T) : Z := zlen eleArray.

Lemma queue_pop_snoc l e : queue_pop (l ++ [e]) = (Some e, l).
Proof. unfold queue_pop. rewrite rev_app_distr. simpl. by rewrite rev_involutive. Qed.
End DataMessageQueue.

(** ** [AsyncQueue] *)

(** A promise cell: pending, or fulfilled with a value. *)
Record AsyncQueue (T : Type) := {
  promiseQueue : list nat;
  resolverQueue : list nat;
  promises : gmap nat (option T);
  nextPromise : nat;
}.
Arguments promiseQueue {T}.
Arguments resolverQueue {T}.
Arguments promises {T}.
Arguments nextPromise {T}.

Section AsyncQueue.
Context {T : Type}.
Implicit Types q : AsyncQueue T.

Definition new_queue : AsyncQueue T :=
  {| promiseQueue := []; resolverQueue := []; promises := ∅; nextPromise := 0 |}.

(** A new pending promise. The executor runs at once, so the resolver is queued
    before the promise is. *)
Definition add q : AsyncQueue T :=
  let p := nextPromise q in
  {| resolverQueue := snd (queue_push (resolverQueue q) (Some p));
     promiseQueue := snd (queue_push (promiseQueue q) (Some p));
     promises := <[p := None]> (promises q);
     nextPromise := S p |}.

(** Calling a resolver: only the first call counts. *)
Definition resolve (p : nat) (item : T) (ps : gmap nat (option T)) : gmap nat (option T) :=
  match ps !! p with
  | Some None => <[p := Some item]> ps
  | _ => ps
  end.

Definition enqueue q (item : T) : AsyncQueue T :=
  let q := if queue_size (resolverQueue q) =? 0 then add q else q in
  let '(r, rq) := queue_pop (resolverQueue q) in
  {| resolverQueue := rq;
     promiseQueue := promiseQueue q;
     promises := match r with Some p => resolve p item (promises q) | None => promises q end;
     nextPromise := nextPromise q |}.

(** The promise handed to the caller; the fallback is a promise nothing resolves. *)
Definition dequeue q : nat * AsyncQueue T :=
  let q := if queue_size (promiseQueue q) =? 0 then add q else q in
  let '(r, pq) := queue_pop (promiseQueue q) in
  match r with
  | Some p => (p, {| resolverQueue := resolverQueue q; promiseQueue := pq;
                     promises := promises q; nextPromise := nextPromise q |})
  | None => (nextPromise q,
             {| resolverQueue := resolverQueue q; promiseQueue := pq;
                promises := <[nextPromise q := None]> (promises q);
                nextPromise := S (nextPromise q) |})
  end.

(** What awaiting promise [p] yields: nothing while it is pending. *)
Definition awaited q (p : nat) : option T := (promises q !! p) ≫= id.

(** The shape of a reachable queue after the messages [ms] were put and [d]
    reads were made: promise [k] belongs to message [k] and to read [k]. *)
Record queue_inv q (ms : list T) (d : nat) : Prop := {
  inv_next : nextPromise q = Nat.max (length ms) d;
  inv_promises : promiseQueue q = rev (seq d (nextPromise q - d));
  inv_resolvers : resolverQueue q = rev (seq (length ms) (nextPromise q - length ms));
  inv_store : forall k, promises q !! k = if decide (k < nextPromise q)%nat then Some (ms !! k) else None;
}.

Lemma queue_inv_new : queue_inv new_queue [] 0.
Proof. constructor; try done. Qed.

Lemma zlen_rev_seq a n : queue_size (rev (seq a n)) =? 0 = (n =? 0)%nat.
Proof.
  unfold queue_size, zlen. rewrite length_rev, length_seq.
  destruct (Nat.eqb_spec n 0) as [->|]; [done|]. apply Z.eqb_neq. lia.
Qed.

Lemma rev_seq_snoc a n : rev (seq a (S n)) = rev (seq (S a) n) ++ [a].
Proof. done. Qed.

Lemma rev_seq_cons a n : rev (seq a (S n)) = (a + n)%nat :: rev (seq a n).
Proof. rewrite seq_S, rev_app_distr. done. Qed.

Lemma resolve_pending p item (ps : gmap nat (option T)) k :
  ps !! p = Some None ->
  resolve p item ps !! k = if decide (k = p) then Some (Some item) else ps !! k.
Proof.
  intros Hp. unfold resolve. rewrite Hp. case_decide; subst; by simplify_map_eq.
Qed.

Lemma queue_inv_enqueue q ms d item :
  queue_inv q ms d -> queue_inv (enqueue q item) (ms ++ [item]) d.
Proof.
  intros [Hn Hp Hr Hs]. unfold enqueue.
  rewrite Hr, zlen_rev_seq. destruct (Nat.eqb_spec (nextPromise q - length ms) 0) as [E|E].
  - cbn [resolverQueue promiseQueue promises nextPromise add snd queue_push].
    rewrite Hr, E. change (nextPromise q :: rev (seq (length ms) 0)) with ([] ++ [nextPromise q]).
    rewrite queue_pop_snoc. assert (Hnm : nextPromise q = length ms) by lia.
    constructor; cbn.
    + rewrite length_app. simpl. lia.
    + rewrite Hp. replace (S (nextPromise q) - d)%nat with (S (nextPromise q - d)) by lia.
      rewrite rev_seq_cons. f_equal. lia.
    + rewrite length_app. simpl. by replace (S (nextPromise q) - (length ms + 1))%nat with 0%nat by lia.
    + intros k. rewrite resolve_pending by apply lookup_insert_eq.
      destruct (decide (k = nextPromise q)) as [->|].
      * rewrite decide_True by lia. by rewrite Hnm, list_lookup_middle.
      * rewrite lookup_insert_ne, Hs by done.
        destruct (decide (k < nextPromise q)%nat); [|by rewrite decide_False by lia].
        rewrite decide_True by lia. by rewrite lookup_app_l by lia.
  - rewrite Hr. replace (nextPromise q - length ms)%nat with (S (nextPromise q - length ms - 1)) by lia.
    rewrite rev_seq_snoc, queue_pop_snoc. constructor; cbn.
    + rewrite length_app. simpl. lia.
    + done.
    + rewrite length_app. simpl. do 2 f_equal; lia.
    + intros k. rewrite resolve_pending.
      * destruct (decide (k = length ms)) as [->|].
        -- rewrite decide_True by lia. by rewrite list_lookup_middle.
        -- rewrite Hs. case_decide; [|done].
           destruct (decide (k < length ms)%nat); [by rewrite lookup_app_l|].
           rewrite !lookup_ge_None_2; [done|rewrite length_app; simpl; lia|lia].
      * rewrite Hs, decide_True by lia. by rewrite lookup_ge_None_2 by lia.
Qed.

Lemma queue_inv_dequeue q ms d :
  queue_inv q ms d -> fst (dequeue q) = d /\ queue_inv (snd (dequeue q)) ms (S d).
Proof.
  intros [Hn Hp Hr Hs]. unfold dequeue.
  rewrite Hp, zlen_rev_seq. destruct (Nat.eqb_spec (nextPromise q - d) 0) as [E|E].
  - cbn [resolverQueue promiseQueue promises nextPromise add snd queue_push].
    rewrite Hp, E. change (nextPromise q :: rev (seq d 0)) with ([] ++ [nextPromise q]).
    rewrite queue_pop_snoc. split; [cbn; lia|]. assert (Hnd : nextPromise q = d) by lia.
    constructor; cbn.
    + lia.
    + by replace (nextPromise q - d)%nat with 0%nat by lia.
    + rewrite Hr. replace (S (nextPromise q) - length ms)%nat with (S (nextPromise q - length ms)) by lia.
      rewrite rev_seq_cons. f_equal. lia.
    + intros k. destruct (decide (k = nextPromise q)) as [->|].
      * rewrite lookup_insert_eq, decide_True by lia. by rewrite lookup_ge_None_2 by lia.
      * rewrite lookup_insert_ne, Hs by done.
        destruct (decide (k < nextPromise q)%nat); [by rewrite decide_True by lia|by rewrite decide_False by lia].
  - rewrite Hp. replace (nextPromise q - d)%nat with (S (nextPromise q - d - 1)) by lia.
    rewrite rev_seq_snoc, queue_pop_snoc. split; [done|]. constructor; cbn; try done.
    + lia.
    + do 2 f_equal; lia.
Qed.

End AsyncQueue.

(** ** The interface of a stream's queue *)

(** [fq_rel q ms d]: the messages [ms] have been put and [d] of them asked for.
    The reads are answered in order, and reading message [k] before it was put
    waits for it. *)
Class FifoQueue (T Q H : Type) := {
  fq_new : Q;
  fq_put : Q -> T -> Q;
  fq_get : Q -> H * Q;
  fq_await : Q -> H -> option T;
  fq_rel : Q -> list T -> list H -> Prop;
  fq_new_rel : fq_rel fq_new [] [];
  fq_put_rel q ms hs m : fq_rel q ms hs -> fq_rel (fq_put q m) (ms ++ [m]) hs;
  fq_get_rel q ms hs : fq_rel q ms hs -> fq_rel (snd (fq_get q)) ms (hs ++ [fst (fq_get q)]);
  fq_await_rel q ms hs k h : fq_rel q ms hs -> hs !! k = Some h -> fq_await q h = ms !! k;
}.

Program Definition async_fifo {T : Type} : FifoQueue T (AsyncQueue T) nat := {|
  fq_new := new_queue;
  fq_put := enqueue;
  fq_get := dequeue;
  fq_await := awaited;
  fq_rel q ms hs := queue_inv q ms (length hs) /\ hs = seq 0 (length hs);
|}.
Next Obligation. intros T. split; [apply queue_inv_new|done]. Qed.
Next Obligation. intros T q ms hs m [H1 H2]. split; [by apply queue_inv_enqueue|done]. Qed.
Next Obligation.
  intros T q ms hs [H1 H2]. destruct (queue_inv_dequeue _ _ _ H1) as [Hf Hi].
  rewrite length_app. simpl. rewrite Nat.add_comm. split; [done|].
  cbn [Nat.add]. rewrite seq_S, <- H2. by rewrite Hf.
Qed.
Next Obligation.
  intros T q ms hs k h [[Hn Hp Hr Hs] H2] Hk.
  assert (Hlt := lookup_lt_Some _ _ _ Hk). rewrite H2 in Hk.
  apply lookup_seq in Hk as [-> _]. unfold awaited. rewrite Hs, decide_True by lia. done.
Qed.
#[export] Existing Instance async_fifo.

(** ** Clients of the interface *)

Inductive queue_op (T : Type) := Put (m : T) | Get.
Arguments Put {T} m.
Arguments Get {T}.

Section Client.
Context {T Q H : Type} `{FifoQueue T Q H}.

(** A run of a schedule of writers and readers: the final queue and the handles
    the reads obtained, in order. *)
Fixpoint run_ops (q : Q) (ops : list (queue_op T)) : Q * list H :=
  match ops with
  | [] => (q, [])
  | Put m :: ops' => run_ops (fq_put q m) ops'
  | Get :: ops' => let '(h, q') := fq_get q in
                   let '(q'', hs) := run_ops q' ops' in (q'', h :: hs)
  end.

Definition puts (ops : list (queue_op T)) : list T :=
  omap (fun o => match o with Put m => Some m | Get => None end) ops.

Lemma run_ops_rel ops : forall q ms hs,
  fq_rel q ms hs -> fq_rel (fst (run_ops q ops)) (ms ++ puts ops) (hs ++ snd (run_ops q ops)).
Proof.
  induction ops as [|[m|] ops IH]; intros q ms hs Hr; simpl.
  - by rewrite !app_nil_r.
  - rewrite cons_middle, app_assoc. by apply IH, fq_put_rel.
  - apply fq_get_rel in Hr. destruct (fq_get q) as [h q'] eqn:E. simpl in Hr.
    specialize (IH q' ms (hs ++ [h]) Hr). destruct (run_ops q' ops) as [q'' hs'].
    simpl in *. by rewrite <- app_assoc in IH.
Qed.

Lemma run_ops_fifo ops k h :
  snd (run_ops fq_new ops) !! k = Some h ->
  fq_await (fst (run_ops fq_new ops)) h = puts ops !! k.
Proof.
  intros Hk. pose proof (run_ops_rel ops fq_new [] [] fq_new_rel) as Hr. simpl in Hr.
  by apply (fq_await_rel _ _ _ _ _ Hr).
Qed.
End Client.

(** ** Properties *)

(** C4: in every schedule of writers and readers of an [AsyncQueue] the [k]-th
    read is answered with the [k]-th message put, and waits while fewer
    messages were put; no message is lost, duplicated or reordered. *)
Theorem async_queue_fifo {T : Type} (ops : list (queue_op T)) (k : nat) (p : nat)
  (Hk : snd (run_ops new_queue ops) !! k = Some p) :
  awaited (fst (run_ops new_queue ops)) p = puts ops !! k.
Proof. exact (run_ops_fifo (H0 := async_fifo) ops k p Hk). Qed.

(** Two reads before any message, then three messages and one more read. *)
Definition sample_ops : list (queue_op Z) := [Get; Get; Put 7; Put 8; Put 9; Get].

Lemma async_queue_fifo_witness :
  awaited (fst (run_ops new_queue sample_ops)) 2 = Some 9.
Proof. apply (async_queue_fifo sample_ops 2 2). reflexivity. Defined.
