(* ===== verification/HdcTransport.v ===== *)
(** * Packets, the USB channel and the read loop

    [DataMessage] ([ide/src/hdc/message/DataMessage.ts]), [DataProcessing]
    ([ide/src/hdc/transmission/DataProcessing.ts]), [UsbTransmissionChannel]
    and the stream routing of [HdcClient].  The USB device is outside the
    sources: it is a script of the transfers it will answer and a log of the
    buffers written to it; a read past the script waits for ever. *)

From S2P Require Import Prelude JsRuntime HdcMessages HdcSerialize HdcQueue.

(** ** [DataMessage] *)

(** The field [_result] is left out: it only keeps the text last returned by
    [getDataToString]. *)
Record DataMessage := {
  dm_body : option (list Z);
  dm_usbHead : USBHead;
  dm_channelId : Z;
  dm_channelClose : bool;
  dm_resArrayBuffer : option (list Z);
  dm_commandFlag : Z;
}.

Definition splitData (usbHead : USBHead) (body : list Z) : res DataMessage :=
  let playHeadArray := js_slice body 0 11 in
  let* resultPayloadHead := parsePlayHead playHeadArray in
  let headSize := ph_headSize resultPayloadHead in
  let dataSize := ph_dataSize resultPayloadHead in
  let resultPlayProtectBuffer := js_slice body 11 (11 + headSize) in
  let payloadProtect := parsePayloadProtect resultPlayProtectBuffer in
  let close := pp_commandFlag payloadProtect =? cmd CMD_KERNEL_CHANNEL_CLOSE in
  Ok {| dm_body := Some body; dm_usbHead := usbHead;
        dm_channelId := pp_channelId payloadProtect;
        dm_commandFlag := pp_commandFlag payloadProtect;
        dm_channelClose := close;
        dm_resArrayBuffer :=
          if close then None
          else if 0 <? dataSize
               then Some (js_slice body (11 + headSize) (11 + headSize + dataSize))
               else None |}.

Definition new_DataMessage (usbHead : USBHead) (body : option (list Z)) : res DataMessage :=
  match body with
  | Some b => splitData usbHead b
  | None => Ok {| dm_body := None; dm_usbHead := usbHead; dm_channelId := -1;
                  dm_channelClose := false; dm_resArrayBuffer := None; dm_commandFlag := -1 |}
  end.

(** [getData], [getDataToString]: decoding [undefined] gives the empty string. *)
Definition getData (m : DataMessage) : option (list Z) := dm_resArrayBuffer m.
Definition getDataToString (m : DataMessage) : jsstring :=
  match dm_resArrayBuffer m with Some b => text_decode b | None => [] end.

(** ** The USB channel *)

Record UsbTransmissionChannel := {
  usb_open : bool;
  usb_in : list (option (list Z));
  usb_out : list (list Z);
}.

Inductive transfer (A : Type) :=
  | Received (a : A)
  | Waiting.
Arguments Received {A} a.
Arguments Waiting {A}.

(** A closed channel ([_device] is null) drops what is written to it. *)
Definition writeData (c : UsbTransmissionChannel) (data : list Z) : UsbTransmissionChannel :=
  if usb_open c
  then {| usb_open := true; usb_in := usb_in c; usb_out := usb_out c ++ [data] |}
  else c.

(** A transfer without data, or on a closed channel, is an empty view. *)
Definition readData (c : UsbTransmissionChannel) : transfer (list Z) * UsbTransmissionChannel :=
  if usb_open c then
    match usb_in c with
    | [] => (Waiting, c)
    | r :: rs => (Received (default [] r),
                  {| usb_open := true; usb_in := rs; usb_out := usb_out c |})
    end
  else (Received [], c).

Definition channel_close (c : UsbTransmissionChannel) : UsbTransmissionChannel :=
  {| usb_open := false; usb_in := usb_in c; usb_out := usb_out c |}.

(** Finding the HDC interface of a device by its class triple. *)
Record USBEndpoint := { ep_in : bool; ep_bulk : bool; ep_number : Z }.
Record USBAlternate := {
  al_class : Z; al_subclass : Z; al_protocol : Z; al_endpoints : list USBEndpoint }.
Record USBInterface := { if_number : Z; if_alternates : list USBAlternate }.
Record USBConfiguration := { cf_value : Z; cf_interfaces : list USBInterface }.
Record matchingUsbDevice := { md_configurationValue : Z; md_interfaceNumber : Z;
                              md_endPoints : list USBEndpoint }.

Definition hdc_alternate (al : USBAlternate) : bool :=
  (255 =? al_class al) && (80 =? al_subclass al) && (1 =? al_protocol al).

Definition filterAndFindDevice (configurations : list USBConfiguration) : option matchingUsbDevice :=
  head (flat_map (fun config =>
    flat_map (fun intf =>
      omap (fun al =>
        if hdc_alternate al
        then Some {| md_configurationValue := cf_value config;
                     md_interfaceNumber := if_number intf;
                     md_endPoints := al_endpoints al |}
        else None) (if_alternates intf)) (cf_interfaces config)) configurations).

(** The first bulk endpoint of a direction; a TypeError when there is none. *)
Definition filterEndpointNumber (usbEndpoints : list USBEndpoint) (dir_in : bool) : res Z :=
  match filter (fun e => ep_in e = dir_in /\ ep_bulk e = true) usbEndpoints with
  | e :: _ => Ok (ep_number e)
  | [] => Throw TypeError
  end.

(** The endpoints and the interface of the opened device; [None] for [null].
    [accepts] says whether the device lets the configuration be selected and
    the interface be claimed. *)
Definition openHdcDevice (accepts : Z -> Z -> bool) (configurations : list USBConfiguration) :
    option (Z * Z * Z) :=
  match filterAndFindDevice configurations with
  | None => None
  | Some m =>
      if accepts (md_configurationValue m) (md_interfaceNumber m) then
        match filterEndpointNumber (md_endPoints m) true,
              filterEndpointNumber (md_endPoints m) false with
        | Ok endpointIn, Ok endpointOut => Some (endpointIn, endpointOut, md_interfaceNumber m)
        | _, _ => None
        end
      else None
  end.

(** ** Sending: [DataProcessing.send] *)

Definition vCode : Z := 9.
Definition checkSum : Z := 0.

Definition buildPacketHeader (sessionId option dataSize : Z) : res (list Z) :=
  USBHead_getDataView {| uh_flag := USB_PACKET_FLAG; uh_option := option;
                         uh_sessionId := sessionId; uh_dataSize := dataSize |}.

(** The two buffers [send] writes: the USB head and the packet. *)
Definition send_buffers (sessionId channelId commandFlag : Z) (data : list Z) (dataSize : Z) :
    res (list Z * list Z) :=
  let protectBuf := {| pp_channelId := channelId; pp_commandFlag := commandFlag;
                       pp_checkSum := checkSum; pp_vCode := vCode |} in
  let* pbs := serializePayloadProtect protectBuf in
  let payloadHead := {| ph_flag := PACKET_FLAG; ph_reserve := [0; 0]; ph_protocolVer := 1;
                        ph_headSize := zlen pbs; ph_dataSize := dataSize |} in
  let* dataView := PayloadHead_getDataView payloadHead in
  let finalBufSize := zlen dataView + zlen pbs + dataSize in
  let finalBuf := zeros finalBufSize in
  let* finalBuf := typed_set finalBuf dataView 0 in
  let* finalBuf := typed_set finalBuf pbs (zlen dataView) in
  let* finalBuf := typed_set finalBuf data (zlen dataView + zlen pbs) in
  let* header := buildPacketHeader sessionId (option_value USB_OPTION_HEADER) finalBufSize in
  Ok (header, finalBuf).

(** ** The client's receiving side *)

Record HdcClient := {
  hc_sessionId : Z;
  hc_channel : option UsbTransmissionChannel;
  hc_readData : bool;
  hc_cmdStreams : gmap Z nat;                       (** channel id to stream *)
  hc_queues : gmap nat (AsyncQueue DataMessage);    (** stream to its queue *)
}.

Definition set_channel (c : HdcClient) (ch : UsbTransmissionChannel) : HdcClient :=
  {| hc_sessionId := hc_sessionId c; hc_channel := Some ch; hc_readData := hc_readData c;
     hc_cmdStreams := hc_cmdStreams c; hc_queues := hc_queues c |}.

Definition stopReadData (c : HdcClient) : HdcClient :=
  {| hc_sessionId := hc_sessionId c; hc_channel := hc_channel c; hc_readData := false;
     hc_cmdStreams := hc_cmdStreams c; hc_queues := hc_queues c |}.

Definition set_streams (c : HdcClient) (st : gmap Z nat) (q : gmap nat (AsyncQueue DataMessage)) :
    HdcClient :=
  {| hc_sessionId := hc_sessionId c; hc_channel := hc_channel c; hc_readData := hc_readData c;
     hc_cmdStreams := st; hc_queues := q |}.

Definition send (c : HdcClient) (sessionId channelId commandFlag : Z) (data : list Z) (dataSize : Z) :
    res (bool * HdcClient) :=
  let* '(header, finalBuf) := send_buffers sessionId channelId commandFlag data dataSize in
  match hc_channel c with
  | Some ch => Ok (true, set_channel c (writeData (writeData ch header) finalBuf))
  | None => Ok (false, stopReadData c)
  end.

Definition putMessageInQueue (s : nat) (m : DataMessage) (c : HdcClient) : HdcClient :=
  set_streams c (hc_cmdStreams c) (alter (fun q => enqueue q m) s (hc_queues c)).

Definition bindStream (channel : Z) (s : nat) (c : HdcClient) : HdcClient :=
  set_streams c (<[channel := s]> (hc_cmdStreams c)) (hc_queues c).

Definition unbindStream (channel : Z) (c : HdcClient) : HdcClient :=
  set_streams c (delete channel (hc_cmdStreams c)) (hc_queues c).

Definition createDataMessage (m : DataMessage) (c : HdcClient) : HdcClient :=
  match hc_cmdStreams c !! dm_channelId m with
  | Some s => putMessageInQueue s m c
  | None => c
  end.

(** [disconnect]: the channel is closed, the read loop told to stop, and every
    bound stream gets a message whose head carries the session id -1. *)
Definition disconnect_message : DataMessage :=
  {| dm_body := None;
     dm_usbHead := {| uh_flag := [0; 1]; uh_option := -1; uh_sessionId := -1; uh_dataSize := -1 |};
     dm_channelId := -1; dm_channelClose := false; dm_resArrayBuffer := None;
     dm_commandFlag := -1 |}.

Definition disconnect (c : HdcClient) : HdcClient :=
  let c := match hc_channel c with Some ch => set_channel c (channel_close ch) | None => c end in
  let c := stopReadData c in
  let c := map_fold (fun _ s c => putMessageInQueue s disconnect_message c) c (hc_cmdStreams c) in
  set_streams c ∅ (hc_queues c).

Inductive read_end :=
  | ReadStopped                 (** [readData] was cleared *)
  | ReadFailed (e : js_error)   (** an exception left the loop *)
  | ReadWaiting                 (** waiting for the next transfer *)
  | ReadFuel.

(** One round of the loop of [startReadData]. *)
Definition read_step (c : HdcClient) : option read_end * HdcClient :=
  match hc_channel c with
  | None => (Some (ReadFailed TypeError), c)
  | Some ch =>
      match readData ch with
      | (Waiting, _) => (Some ReadWaiting, c)
      | (Received res, ch1) =>
          let c1 := set_channel c ch1 in
          match parseHeadData res with
          | Throw e => (Some (ReadFailed e), c1)
          | Ok usbHead =>
              if 0 <? uh_dataSize usbHead then
                match readData ch1 with
                | (Waiting, _) => (Some ReadWaiting, c1)
                | (Received body, ch2) =>
                    let c2 := set_channel c ch2 in
                    match new_DataMessage usbHead (Some body) with
                    | Throw e => (Some (ReadFailed e), c2)
                    | Ok m => (None, createDataMessage m c2)
                    end
                end
              else
                match new_DataMessage usbHead None with
                | Throw e => (Some (ReadFailed e), c1)
                | Ok m => (None, createDataMessage m c1)
                end
          end
      end
  end.

Fixpoint read_loop (fuel : nat) (c : HdcClient) : read_end * HdcClient :=
  if hc_readData c then
    match fuel with
    | O => (ReadFuel, c)
    | S fuel' =>
        match read_step c with
        | (Some e, c') => (e, c')
        | (None, c') => read_loop fuel' c'
        end
    end
  else (ReadStopped, c).

Definition error_message : DataMessage :=
  {| dm_body := None;
     dm_usbHead := {| uh_flag := [-1; -1]; uh_option := -1; uh_sessionId := -1; uh_dataSize := -1 |};
     dm_channelId := -1; dm_channelClose := false; dm_resArrayBuffer := None;
     dm_commandFlag := -1 |}.

Definition startReadData (fuel : nat) (c : HdcClient) : read_end * HdcClient :=
  match read_loop fuel c with
  | (ReadFailed e, c') => (ReadFailed e, createDataMessage error_message c')
  | r => r
  end.

(** ** Packets *)

Record packet := {
  pk_session : Z;
  pk_channel : Z;
  pk_command : HdcCommand;
  pk_data : list Z;
}.

(** A packet whose numbers fit their fields. *)
Definition packet_ok (p : packet) : Prop :=
  0 <= pk_session p < 2 ^ 32 /\ 0 <= pk_channel p < 2 ^ 31 /\ zlen (pk_data p) < 2 ^ 31.

#[export] Instance packet_ok_dec p : Decision (packet_ok p).
Proof. unfold packet_ok. apply _. Defined.

Definition packet_buffers (p : packet) : res (list Z * list Z) :=
  send_buffers (pk_session p) (pk_channel p) (cmd (pk_command p)) (pk_data p) (zlen (pk_data p)).

Lemma cmd_range c : 0 <= cmd c < 2 ^ 12.
Proof. destruct c; simpl; lia. Qed.

Lemma cmd_close c : (cmd c =? cmd CMD_KERNEL_CHANNEL_CLOSE) = true <-> c = CMD_KERNEL_CHANNEL_CLOSE.
Proof. destruct c; simpl; split; done. Qed.

Lemma leb128_length k : forall v, (length (leb128 k v) <= k)%nat.
Proof. induction k as [|k IH]; intros v; cbn; [lia|]. case_match; cbn; [lia|]. specialize (IH (v / 2 ^ 7)). lia. Qed.

Lemma protect_length ch c : 0 <= ch < 2 ^ 31 -> forall bs,
  serializePayloadProtect {| pp_channelId := ch; pp_commandFlag := cmd c;
                             pp_checkSum := checkSum; pp_vCode := vCode |} = Ok bs ->
  0 <= zlen bs <= 16.
Proof.
  intros Hc bs. rewrite serializePayloadProtect_bytes. intros <-%Ok_inj.
  cbn [pp_channelId pp_commandFlag pp_checkSum pp_vCode].
  change (writeVarIntU32 checkSum) with [0]. change (writeVarIntU32 vCode) with [9].
  unfold writeVarIntU32. pose proof (cmd_range c). rewrite !writeVarInt_leb128 by lia.
  unfold zlen. rewrite !length_app. cbn [length].
  pose proof (leb128_length 5 ch). pose proof (leb128_length 5 (cmd c)). lia.
Qed.

(** The two buffers of a packet, field by field. *)
Lemma packet_buffers_split p : packet_ok p ->
  exists header pv pbs,
    packet_buffers p = Ok (header, pv ++ pbs ++ pk_data p) /\
    serializePayloadProtect {| pp_channelId := pk_channel p; pp_commandFlag := cmd (pk_command p);
                               pp_checkSum := checkSum; pp_vCode := vCode |} = Ok pbs /\
    PayloadHead_getDataView {| ph_flag := PACKET_FLAG; ph_reserve := [0; 0]; ph_protocolVer := 1;
                               ph_headSize := zlen pbs; ph_dataSize := zlen (pk_data p) |} = Ok pv /\
    USBHead_getDataView {| uh_flag := USB_PACKET_FLAG; uh_option := 1;
                           uh_sessionId := pk_session p;
                           uh_dataSize := zlen (pv ++ pbs ++ pk_data p) |} = Ok header /\
    zlen pv = 11.
Proof.
  intros (Hs & Hc & Hd).
  destruct (serializePayloadProtect _) as [pbs|] eqn:Epbs;
    [|rewrite serializePayloadProtect_bytes in Epbs; discriminate].
  set (ph := {| ph_flag := PACKET_FLAG; ph_reserve := [0; 0]; ph_protocolVer := 1;
                ph_headSize := zlen pbs; ph_dataSize := zlen (pk_data p) |}).
  destruct (getDataView_lengths {| uh_flag := []; uh_option := 0; uh_sessionId := 0; uh_dataSize := 0 |} ph)
    as [_ (pv & Epv & Lpv & _)].
  destruct (getDataView_lengths {| uh_flag := USB_PACKET_FLAG; uh_option := 1;
      uh_sessionId := pk_session p; uh_dataSize := zlen (pv ++ pbs ++ pk_data p) |} ph)
    as [(header & Eh & _) _].
  exists header, pv, pbs. split; [|by split_and!].
  unfold packet_buffers, send_buffers. rewrite Epbs. cbn [res_bind]. fold ph. rewrite Epv. cbn [res_bind].
  pose proof (zlen_nonneg pv). pose proof (zlen_nonneg pbs). pose proof (zlen_nonneg (pk_data p)).
  rewrite !zeros_app by lia. rewrite <- app_assoc.
  rewrite typed_set_start by (by rewrite zlen_zeros). cbn [res_bind].
  rewrite typed_set_at by (rewrite ?zlen_zeros; done). cbn [res_bind].
  rewrite <- (app_nil_r (zeros (zlen (pk_data p)))), app_assoc.
  rewrite typed_set_at by (rewrite ?zlen_zeros, ?zlen_app; done). cbn [res_bind].
  rewrite app_nil_r, <- app_assoc. unfold buildPacketHeader.
  replace (zlen pv + zlen pbs + zlen (pk_data p)) with (zlen (pv ++ pbs ++ pk_data p))
    by (rewrite !zlen_app; lia).
  change (option_value USB_OPTION_HEADER) with 1. rewrite Eh. reflexivity.
Qed.

(** The command that a receiver reads in a packet: the one sent on a channel below
    128, other numbers above. *)
Definition pk_read (p : packet) : Z := read_command (pk_channel p) (cmd (pk_command p)).

Lemma pk_read_cases p : 0 <= pk_channel p ->
  (pk_channel p < 128 -> pk_read p = cmd (pk_command p)) /\
  (128 <= pk_channel p < 16384 -> pk_read p = 16) /\
  (16384 <= pk_channel p -> pk_read p = Z.shiftr (pk_channel p) 14).
Proof.
  intros H. unfold pk_read, read_command. rewrite Z.shiftr_div_pow2 by lia.
  change (2 ^ 7) with 128. change (2 ^ 14) with 16384.
  destruct (Z.ltb_spec (pk_channel p) 128), (Z.ltb_spec (pk_channel p) 16384); repeat split; intros; done || lia.
Qed.

(** When a packet is read as the closing of its channel. *)
Lemma pk_read_close p : packet_ok p ->
  pk_read p = cmd CMD_KERNEL_CHANNEL_CLOSE <->
  pk_channel p < 128 /\ pk_command p = CMD_KERNEL_CHANNEL_CLOSE \/ 32768 <= pk_channel p < 49152.
Proof.
  intros (_ & Hc & _). destruct (pk_read_cases p ltac:(lia)) as (H1 & H2 & H3).
  destruct (Z.lt_ge_cases (pk_channel p) 128) as [Hs|Hs].
  { rewrite H1, <- Z.eqb_eq, cmd_close by done. split; [auto|]. intros [[_ ?]|?]; [done|lia]. }
  destruct (Z.lt_ge_cases (pk_channel p) 16384) as [Hm|Hm].
  { rewrite H2 by lia. split; [done|lia]. }
  rewrite H3, Z.shiftr_div_pow2 by lia. change (2 ^ 14) with 16384. change (cmd CMD_KERNEL_CHANNEL_CLOSE) with 2.
  pose proof (Z.div_mod (pk_channel p) 16384 ltac:(lia)). pose proof (Z.mod_pos_bound (pk_channel p) 16384 ltac:(lia)).
  lia.
Qed.

(** The message a receiver makes of a packet. *)
Definition packet_message (p : packet) (body : list Z) : DataMessage :=
  let close := bool_decide (pk_read p = cmd CMD_KERNEL_CHANNEL_CLOSE) in
  {| dm_body := Some body;
     dm_usbHead := {| uh_flag := USB_PACKET_FLAG; uh_option := 1;
                      uh_sessionId := pk_session p; uh_dataSize := zlen body |};
     dm_channelId := pk_channel p;
     dm_channelClose := close;
     dm_resArrayBuffer := if close then None
                          else match pk_data p with [] => None | d => Some d end;
     dm_commandFlag := pk_read p |}.

Lemma sent_head_ok h d : 0 <= h < 2 ^ 16 -> 0 <= d < 2 ^ 32 ->
  PayloadHead_ok {| ph_flag := PACKET_FLAG; ph_reserve := [0; 0]; ph_protocolVer := 1;
                    ph_headSize := h; ph_dataSize := d |}.
Proof.
  intros. unfold PayloadHead_ok, is_byte. cbn.
  split; [exists 72, 87; split; [done|lia]|]. split; [exists 0, 0; split; [done|lia]|]. lia.
Qed.

Lemma packet_decodes p : packet_ok p ->
  exists header body, packet_buffers p = Ok (header, body) /\
    0 < zlen body /\
    parseHeadData header = Ok {| uh_flag := USB_PACKET_FLAG; uh_option := 1;
                                 uh_sessionId := pk_session p; uh_dataSize := zlen body |} /\
    new_DataMessage {| uh_flag := USB_PACKET_FLAG; uh_option := 1;
                       uh_sessionId := pk_session p; uh_dataSize := zlen body |} (Some body) =
      Ok (packet_message p body).
Proof.
  intros Hok. destruct (packet_buffers_split p Hok) as (header & pv & pbs & Hb & Epbs & Epv & Eh & Lpv).
  destruct Hok as (Hs & Hc & Hd).
  pose proof (protect_length (pk_channel p) (pk_command p) ltac:(lia) _ Epbs) as Lpbs.
  pose proof (zlen_nonneg (pk_data p)) as Hd0.
  exists header, (pv ++ pbs ++ pk_data p). split; [done|]. rewrite !zlen_app.
  split; [lia|]. split.
  - rewrite <- (app_nil_r header). apply parseHeadData_getDataView; [|by rewrite !zlen_app in Eh].
    repeat split; cbn; try lia. exists 85, 66. done.
  - cbn [new_DataMessage]. unfold splitData.
    rewrite js_slice_prefix by lia. rewrite <- (app_nil_r pv) at 1.
    rewrite (parsePlayHead_getDataView _ [] _ (sent_head_ok (zlen pbs) (zlen (pk_data p)) ltac:(lia) ltac:(lia)) Epv).
    cbn [res_bind ph_headSize ph_dataSize]. rewrite js_slice_mid by lia.
    pose proof (cmd_range (pk_command p)).
    apply parse_serialize_protect_any in Epbs as [E1 E2]; [|cbn; lia..].
    cbn [pp_channelId pp_commandFlag] in E1, E2. rewrite E1, E2. fold (pk_read p).
    unfold packet_message. do 2 f_equal.
    + rewrite !zlen_app. done.
    + by destruct (Z.eqb_spec (pk_read p) (cmd CMD_KERNEL_CHANNEL_CLOSE)); case_bool_decide.
    + destruct (Z.eqb_spec (pk_read p) (cmd CMD_KERNEL_CHANNEL_CLOSE)); case_bool_decide; try done.
      destruct (pk_data p) as [|b d] eqn:Edata; [done|].
      rewrite zlen_cons. pose proof (zlen_nonneg d). destruct (Z.ltb_spec 0 (1 + zlen d)); [|lia].
      f_equal. rewrite app_assoc.
      apply js_slice_suffix; rewrite ?zlen_app, ?zlen_cons; lia.
Qed.

(** ** The read loop *)

(** The transfers a device makes for a packet, and what the client decodes. *)
Definition packet_script (p : packet) : list (option (list Z)) :=
  match packet_buffers p with
  | Ok (header, body) => [Some header; Some body]
  | Throw _ => []
  end.

Definition decoded (p : packet) : option DataMessage :=
  match packet_buffers p with
  | Ok (_, body) => Some (packet_message p body)
  | Throw _ => None
  end.

Definition messages_for (ch : Z) (ps : list packet) : list DataMessage :=
  filter (fun m => dm_channelId m = ch) (omap decoded ps).

Definition deliver (ms : list DataMessage) (c : HdcClient) : HdcClient :=
  foldl (fun c m => createDataMessage m c) c ms.

Lemma createDataMessage_frame m c :
  hc_channel (createDataMessage m c) = hc_channel c /\
  hc_readData (createDataMessage m c) = hc_readData c /\
  hc_cmdStreams (createDataMessage m c) = hc_cmdStreams c.
Proof. unfold createDataMessage. by case_match. Qed.

Lemma createDataMessage_set_channel m c ch :
  createDataMessage m (set_channel c ch) = set_channel (createDataMessage m c) ch.
Proof. unfold createDataMessage. cbn. by case_match. Qed.

Lemma set_channel_twice c a b : set_channel (set_channel c a) b = set_channel c b.
Proof. done. Qed.

Lemma deliver_set_channel ms : forall c ch,
  deliver ms (set_channel c ch) = set_channel (deliver ms c) ch.
Proof.
  induction ms as [|m ms IH]; intros c ch; cbn [deliver foldl]; [done|].
  rewrite createDataMessage_set_channel. apply IH.
Qed.

Lemma read_step_packet p c rest out :
  packet_ok p ->
  hc_channel c = Some {| usb_open := true; usb_in := packet_script p ++ rest; usb_out := out |} ->
  exists m, decoded p = Some m /\ dm_channelId m = pk_channel p /\
    read_step c =
      (None, set_channel (createDataMessage m c)
               {| usb_open := true; usb_in := rest; usb_out := out |}).
Proof.
  intros Hok Hc. destruct (packet_decodes p Hok) as (h & b & Eb & Hl & Eh & Em).
  unfold packet_script, decoded in *. rewrite Eb in *. eexists. split; [done|]. split; [done|].
  unfold read_step. rewrite Hc. cbn [readData usb_open usb_in usb_out app from_option id].
  rewrite Eh. cbn [uh_dataSize]. destruct (Z.ltb_spec 0 (zlen b)); [|lia].
  cbn [readData usb_open usb_in usb_out app from_option id].
  unfold new_DataMessage in Em. cbn [new_DataMessage]. rewrite Em.
  by rewrite createDataMessage_set_channel.
Qed.

Lemma read_loop_script ps : forall fuel c out,
  Forall packet_ok ps -> hc_readData c = true -> (length ps < fuel)%nat ->
  hc_channel c = Some {| usb_open := true; usb_in := flat_map packet_script ps; usb_out := out |} ->
  read_loop fuel c =
    (ReadWaiting, set_channel (deliver (omap decoded ps) c)
                    {| usb_open := true; usb_in := []; usb_out := out |}).
Proof.
  induction ps as [|p ps IH]; intros fuel c out Hok Hr Hf Hc;
    (destruct fuel as [|fuel]; [simpl in Hf; lia|]); cbn [read_loop]; rewrite Hr.
  - unfold read_step. rewrite Hc. cbn. destruct c. cbn in *. by subst.
  - inversion_clear Hok as [|? ? Hp Hps]. cbn [flat_map] in Hc.
    destruct (read_step_packet p c _ out Hp Hc) as (m & Em & _ & ->).
    rewrite (IH fuel _ out); [|done|cbn; by rewrite (proj1 (proj2 (createDataMessage_frame m c)))|simpl in Hf; lia|done].
    cbn [omap list_omap]. rewrite Em. cbn [deliver foldl].
    by rewrite deliver_set_channel.
Qed.

(** Messages reach exactly the queue of the stream bound to their channel. *)
Lemma createDataMessage_queue m c s ch q :
  (forall ch', hc_cmdStreams c !! ch' = Some s <-> ch' = ch) ->
  hc_queues c !! s = Some q ->
  hc_queues (createDataMessage m c) !! s =
    Some (if decide (dm_channelId m = ch) then enqueue q m else q).
Proof.
  intros Hb Hq. unfold createDataMessage.
  destruct (hc_cmdStreams c !! dm_channelId m) as [s'|] eqn:E; cbn.
  - destruct (decide (s' = s)) as [->|Hne].
    + apply Hb in E. rewrite decide_True by done. by rewrite lookup_alter_eq, Hq.
    + rewrite lookup_alter_ne by done. rewrite decide_False; [done|].
      intros E'. apply Hb in E'. congruence.
  - rewrite decide_False; [done|]. intros E'. apply Hb in E'. congruence.
Qed.

Lemma deliver_queue ms : forall c s ch q msgs d,
  (forall ch', hc_cmdStreams c !! ch' = Some s <-> ch' = ch) ->
  hc_queues c !! s = Some q -> queue_inv q msgs d ->
  exists q', hc_queues (deliver ms c) !! s = Some q' /\
    queue_inv q' (msgs ++ filter (fun m => dm_channelId m = ch) ms) d.
Proof.
  induction ms as [|m ms IH]; intros c s ch q msgs d Hb Hq Hi; cbn [deliver foldl].
  - exists q. rewrite filter_nil, app_nil_r. done.
  - pose proof (createDataMessage_queue m c s ch q Hb Hq) as Hq'.
    destruct (createDataMessage_frame m c) as (_ & _ & Hs).
    destruct (IH (createDataMessage m c) s ch
      (if decide (dm_channelId m = ch) then enqueue q m else q)
      (if decide (dm_channelId m = ch) then msgs ++ [m] else msgs) d) as (q' & H1 & H2).
    + by rewrite Hs.
    + done.
    + case_decide; [by apply queue_inv_enqueue|done].
    + exists q'. split; [done|]. rewrite filter_cons. case_decide; [|done].
      by rewrite <- app_assoc in H2.
Qed.

(** Every round of the loop takes at least one transfer from the device. *)
Lemma read_step_consumes c ch c' :
  hc_channel c = Some ch -> read_step c = (None, c') ->
  exists ch', hc_channel c' = Some ch' /\ (length (usb_in ch') < length (usb_in ch))%nat.
Proof.
  intros Hc. unfold read_step. rewrite Hc. unfold readData at 1.
  destruct (usb_open ch) eqn:Eo; [|done].
  destruct (usb_in ch) as [|r rs] eqn:Ei; [done|].
  destruct (parseHeadData _) as [h|]; [|done].
  destruct (0 <? uh_dataSize h).
  - unfold readData. cbn [usb_open usb_in]. destruct rs as [|r' rs]; [done|].
    destruct (new_DataMessage _ _) as [m|]; [|done]. intros [= <-].
    eexists. split; [by rewrite (proj1 (createDataMessage_frame _ _))|]. cbn. lia.
  - destruct (new_DataMessage _ _) as [m|]; [|done]. intros [= <-].
    eexists. split; [by rewrite (proj1 (createDataMessage_frame _ _))|]. cbn. lia.
Qed.

Lemma read_loop_enough_fuel fuel : forall c ch,
  hc_channel c = Some ch -> (length (usb_in ch) < fuel)%nat -> fst (read_loop fuel c) <> ReadFuel.
Proof.
  induction fuel as [|fuel IH]; intros c ch Hc Hf; [lia|]. cbn [read_loop].
  destruct (hc_readData c); [|done].
  destruct (read_step c) as [[e|] c'] eqn:E.
  - cbn. unfold read_step in E. rewrite Hc in E.
    repeat (case_match || injection E as <- _ || congruence).
  - destruct (read_step_consumes c ch c' Hc E) as (ch' & Hc' & Hl). eapply IH; [done|lia].
Qed.

(** ** Properties *)

(** C2: what a [DataMessage] reads of what [send] writes.  For every command of the
    protocol, every 32-bit session id, every channel id below 2^31 and every payload
    shorter than 2^31 bytes: the USB head decodes to the session and the size of the
    packet, and the packet to its channel.  The command is read back on the channels
    below 128 only; on the next ones, up to 16383, every command is read as 16, and
    above as the channel id shifted by 14 bits.  The message closes its channel
    exactly when the command read is the closing one, and carries exactly the payload
    when it is not: on a channel below 128 that is the closing of the sender, from
    128 to 16383 no closing is ever seen, and on the channels 32768 to 49151 every
    packet closes and its payload is dropped. *)
Theorem send_receive (p : packet) (Hok : packet_ok p) :
  exists header body,
    send_buffers (pk_session p) (pk_channel p) (cmd (pk_command p)) (pk_data p)
      (zlen (pk_data p)) = Ok (header, body) /\
    exists usbHead m,
      parseHeadData header = Ok usbHead /\ uh_dataSize usbHead = zlen body /\
      uh_sessionId usbHead = pk_session p /\
      new_DataMessage usbHead (Some body) = Ok m /\ dm_channelId m = pk_channel p /\
      (pk_channel p < 128 -> dm_commandFlag m = cmd (pk_command p)) /\
      (128 <= pk_channel p < 16384 -> dm_commandFlag m = 16) /\
      (16384 <= pk_channel p -> dm_commandFlag m = Z.shiftr (pk_channel p) 14) /\
      (if dm_channelClose m
       then (pk_channel p < 128 /\ pk_command p = CMD_KERNEL_CHANNEL_CLOSE \/ 32768 <= pk_channel p < 49152) /\
            getData m = None
       else (pk_channel p < 128 -> pk_command p <> CMD_KERNEL_CHANNEL_CLOSE) /\
            ~ 32768 <= pk_channel p < 49152 /\ default [] (getData m) = pk_data p).
Proof.
  destruct (packet_decodes p Hok) as (header & body & Eb & _ & Eh & Em).
  exists header, body. split; [exact Eb|]. eexists. eexists. split; [exact Eh|].
  split; [done|]. split; [done|]. split; [exact Em|]. split; [done|].
  destruct (pk_read_cases p) as (H1 & H2 & H3); [apply Hok|].
  split; [exact H1|]. split; [exact H2|]. split; [exact H3|].
  cbn [packet_message dm_channelClose getData dm_resArrayBuffer]. case_bool_decide as E.
  - split; [by apply pk_read_close|done].
  - rewrite pk_read_close in E by done. split; [tauto|]. split; [tauto|]. by destruct (pk_data p).
Qed.

Definition sample_packet : packet :=
  {| pk_session := 98765432; pk_channel := 3; pk_command := CMD_SHELL_DATA; pk_data := js "ls -l" |}.

Lemma send_receive_witness :
  exists header body, send_buffers 98765432 3 2001 (js "ls -l") 5 = Ok (header, body) /\
    parseHeadData header = Ok {| uh_flag := [85; 66]; uh_option := 1; uh_sessionId := 98765432;
                                 uh_dataSize := zlen body |}.
Proof.
  destruct (send_receive sample_packet) as (header & body & H1 & uh & m & H2 & H3 & H4 & _).
  - apply (bool_decide_unpack _). vm_compute. exact I.
  - exists header, body. split; [exact H1|].
    vm_compute in H1. injection H1 as <- <-. reflexivity.
Defined.

(** C3: the read loop routes.  When the device sends the packets [ps] and then
    nothing, the loop ends up waiting for the device, and the queue of a stream
    bound to channel [ch] (and to no other) has received exactly the packets of
    that channel, each as a [DataMessage] reads it, in order, after what it held
    before. *)
Theorem read_loop_routes (c : HdcClient) (ps : list packet) (out : list (list Z))
  (ch : Z) (s : nat) (q : AsyncQueue DataMessage) (ms : list DataMessage) (d : nat)
  (Hok : Forall packet_ok ps) (Hr : hc_readData c = true)
  (Hc : hc_channel c =
        Some {| usb_open := true; usb_in := flat_map packet_script ps; usb_out := out |})
  (Hb : forall ch', hc_cmdStreams c !! ch' = Some s <-> ch' = ch)
  (Hq : hc_queues c !! s = Some q) (Hi : queue_inv q ms d) :
  exists c' q', startReadData (S (length ps)) c = (ReadWaiting, c') /\
    hc_queues c' !! s = Some q' /\ queue_inv q' (ms ++ messages_for ch ps) d.
Proof.
  destruct (deliver_queue (omap decoded ps) c s ch q ms d Hb Hq Hi) as (q' & H1 & H2).
  eexists. exists q'. unfold startReadData.
  rewrite (read_loop_script ps (S (length ps)) c out Hok Hr ltac:(lia) Hc).
  split; [done|]. by split.
Qed.

Definition sample_client (ps : list packet) : HdcClient :=
  {| hc_sessionId := 98765432;
     hc_channel := Some {| usb_open := true; usb_in := flat_map packet_script ps; usb_out := [] |};
     hc_readData := true; hc_cmdStreams := {[3 := 0%nat]}; hc_queues := {[0%nat := new_queue]} |}.

Lemma read_loop_routes_witness :
  exists c' q', startReadData 3 (sample_client [sample_packet; sample_packet]) = (ReadWaiting, c') /\
    hc_queues c' !! 0%nat = Some q' /\
    queue_inv q' ([] ++ messages_for 3 [sample_packet; sample_packet]) 0.
Proof.
  apply (read_loop_routes (sample_client [sample_packet; sample_packet])
           [sample_packet; sample_packet] [] 3 0%nat new_queue [] 0%nat).
  - repeat constructor; apply (bool_decide_unpack _); vm_compute; exact I.
  - reflexivity.
  - reflexivity.
  - intros ch'. cbn [sample_client hc_cmdStreams]. rewrite lookup_singleton.
    destruct (decide (3 = ch')); split; intros; congruence.
  - reflexivity.
  - apply queue_inv_new.
Defined.

(** the read loop terminates or waits for the device: with more rounds than
    transfers pending on the channel it never runs out of rounds, whatever the
    device sends. *)
Theorem read_loop_progress (c : HdcClient) (ch : UsbTransmissionChannel) (fuel : nat)
  (Hc : hc_channel c = Some ch) (Hf : (length (usb_in ch) < fuel)%nat) :
  fst (startReadData fuel c) <> ReadFuel.
Proof.
  pose proof (read_loop_enough_fuel fuel c ch Hc Hf) as H. unfold startReadData.
  by destruct (read_loop fuel c) as [[] c'].
Qed.

Lemma read_loop_progress_witness :
  fst (startReadData 2 (set_channel (sample_client [])
         {| usb_open := true; usb_in := [Some [1; 2; 3]]; usb_out := [] |})) <> ReadFuel.
Proof.
  apply (read_loop_progress _ {| usb_open := true; usb_in := [Some [1; 2; 3]]; usb_out := [] |});
    [reflexivity|simpl; lia].
Defined.

(** a device error is not reported to any stream.  When a transfer is too
    short for a USB head (the device was unplugged, or the channel closed), the
    loop ends with RangeError, and the message it creates for its listener is
    dropped because no stream is bound to channel -1: every queue is unchanged,
    so commands waiting for an answer keep waiting. *)
Theorem device_error_unreported (c : HdcClient) (r : option (list Z)) (rest : list (option (list Z)))
  (out : list (list Z)) (fuel : nat)
  (Hr : hc_readData c = true)
  (Hc : hc_channel c = Some {| usb_open := true; usb_in := r :: rest; usb_out := out |})
  (Hs : zlen (default [] r) < 11)
  (Hb : hc_cmdStreams c !! (-1) = None) :
  exists c', startReadData (S fuel) c = (ReadFailed RangeError, c') /\ hc_queues c' = hc_queues c.
Proof.
  assert (Hp : parseHeadData (default [] r) = Throw RangeError).
  { destruct (default [] r) as [|? [|? [|? [|? [|? [|? [|? [|? [|? [|? [|? l]]]]]]]]]]]; try reflexivity.
    rewrite !zlen_cons in Hs. pose proof (zlen_nonneg l). lia. }
  eexists. unfold startReadData. cbn [read_loop]. rewrite Hr. unfold read_step.
  rewrite Hc. cbn [readData usb_open usb_in usb_out]. rewrite Hp. cbn iota. cbn beta.
  unfold createDataMessage. cbn [dm_channelId error_message set_channel hc_cmdStreams].
  rewrite Hb. by split.
Qed.

Lemma device_error_unreported_witness :
  exists c', startReadData 1 (set_channel (sample_client [])
      {| usb_open := true; usb_in := [None]; usb_out := [] |}) = (ReadFailed RangeError, c') /\
    hc_queues c' = {[0%nat := new_queue]}.
Proof.
  apply (device_error_unreported (set_channel (sample_client [])
      {| usb_open := true; usb_in := [None]; usb_out := [] |}) None [] [] 0); reflexivity.
Defined.
