(* ===== verification/Effects.v ===== *)
(** * A state monad for asynchronous code

    An [async] function of the sources is a computation over the part of the
    world it can reach.  It returns, raises, or is [Blocked] for ever on an
    [await] that nothing answers.  [NoFuel] is only produced by loops that were
    given too few rounds; the theorems about loops show that it does not
    occur. *)

From S2P Require Import Prelude.

Inductive outcome (S A : Type) :=
  | Done (a : A) (s : S)
  | Raised (e : js_error) (s : S)
  | Blocked (s : S)
  | NoFuel (s : S).
Arguments Done {S A} a s.
Arguments Raised {S A} e s.
Arguments Blocked {S A} s.
Arguments NoFuel {S A} s.

Definition Eff (S A : Type) : Type := S -> outcome S A.

Definition eff_ret {S A} (a : A) : Eff S A := fun s => Done a s.

Definition eff_bind {S A B} (m : Eff S A) (f : A -> Eff S B) : Eff S B :=
  fun s => match m s with
           | Done a s' => f a s'
           | Raised e s' => Raised e s'
           | Blocked s' => Blocked s'
           | NoFuel s' => NoFuel s'
           end.

#[export] Instance eff_mret S : MRet (Eff S) := @eff_ret S.
#[export] Instance eff_mbind S : MBind (Eff S) := fun A B f m => eff_bind m f.

Definition get_state {S} : Eff S S := fun s => Done s s.
Definition put_state {S} (s : S) : Eff S unit := fun _ => Done tt s.
Definition modify_state {S} (f : S -> S) : Eff S unit := fun s => Done tt (f s).
Definition raise {S A} (e : js_error) : Eff S A := fun s => Raised e s.
Definition lift_res {S A} (r : res A) : Eff S A :=
  fun s => match r with Ok a => Done a s | Throw e => Raised e s end.

(** The monad laws, pointwise. *)
Lemma eff_ret_bind {S A B} (a : A) (f : A -> Eff S B) s : (mret a ≫= f) s = f a s.
Proof. done. Qed.

Lemma eff_bind_assoc {S A B C} (m : Eff S A) (f : A -> Eff S B) (g : B -> Eff S C) s :
  ((m ≫= f) ≫= g) s = (m ≫= fun a => f a ≫= g) s.
Proof. unfold mbind, eff_mbind, eff_bind. by destruct (m s). Qed.

Lemma eff_bind_Done {S A B} (m : Eff S A) (f : A -> Eff S B) s a s' :
  m s = Done a s' -> (m ≫= f) s = f a s'.
Proof. unfold mbind, eff_mbind, eff_bind. by intros ->. Qed.
