(* ===== verification/HdcStream.v ===== *)
(** * HDC streams and the commands run over them

    [HdcStream] ([ide/src/hdc/hdcclient/HdcStream.ts]) and the commands of
    [HdcDeviceManager] that read a whole answer from a stream.  A command is a
    computation over the stream it opened: the client it writes to, and the
    messages its queue will deliver in order ([HdcQueue], [HdcTransport]),
    which [getMessage] takes one by one. *)

From S2P Require Import Prelude JsRuntime HdcMessages HdcSerialize HdcCommands HdcQueue HdcTransport Effects.

(** Progress reported to the caller of [fileRecv]: bytes received so far of the
    announced size, or the final 100. *)
Inductive progress := Received_of (offset size : Z) | Hundred.

Record stream_world := {
  w_client : HdcClient;
  w_channelId : Z;
  w_inbox : list DataMessage;
  w_interactiveShellMode : bool;
  w_fileSize : Z;
  w_handled : list jsstring;   (** texts given to [shellResultHandleFun] *)
  w_progress : list progress;  (** calls of [callBack] *)
}.

Definition with_client (c : HdcClient) (w : stream_world) : stream_world :=
  {| w_client := c; w_channelId := w_channelId w; w_inbox := w_inbox w;
     w_interactiveShellMode := w_interactiveShellMode w; w_fileSize := w_fileSize w;
     w_handled := w_handled w; w_progress := w_progress w |}.
Definition with_inbox (i : list DataMessage) (w : stream_world) : stream_world :=
  {| w_client := w_client w; w_channelId := w_channelId w; w_inbox := i;
     w_interactiveShellMode := w_interactiveShellMode w; w_fileSize := w_fileSize w;
     w_handled := w_handled w; w_progress := w_progress w |}.
Definition with_shell (b : bool) (w : stream_world) : stream_world :=
  {| w_client := w_client w; w_channelId := w_channelId w; w_inbox := w_inbox w;
     w_interactiveShellMode := b; w_fileSize := w_fileSize w;
     w_handled := w_handled w; w_progress := w_progress w |}.
Definition with_fileSize (n : Z) (w : stream_world) : stream_world :=
  {| w_client := w_client w; w_channelId := w_channelId w; w_inbox := w_inbox w;
     w_interactiveShellMode := w_interactiveShellMode w; w_fileSize := n;
     w_handled := w_handled w; w_progress := w_progress w |}.
Definition log_handled (t : jsstring) (w : stream_world) : stream_world :=
  {| w_client := w_client w; w_channelId := w_channelId w; w_inbox := w_inbox w;
     w_interactiveShellMode := w_interactiveShellMode w; w_fileSize := w_fileSize w;
     w_handled := w_handled w ++ [t]; w_progress := w_progress w |}.
Definition log_progress (p : progress) (w : stream_world) : stream_world :=
  {| w_client := w_client w; w_channelId := w_channelId w; w_inbox := w_inbox w;
     w_interactiveShellMode := w_interactiveShellMode w; w_fileSize := w_fileSize w;
     w_handled := w_handled w; w_progress := w_progress w ++ [p] |}.

Abbreviation M := (Eff stream_world).

(** ** [HdcStream] *)

(** The constructor: a fresh channel id, bound to the new stream [s]. The result
    is the stream's world over the messages its queue will deliver, and the next
    local id. *)
Definition new_HdcStream (localId : Z) (s : nat) (c : HdcClient) (inbox : list DataMessage) :
    stream_world * Z :=
  let '(channelId, next) := getLocalId localId in
  let c := set_streams c (hc_cmdStreams c) (<[s := new_queue]> (hc_queues c)) in
  ({| w_client := bindStream channelId s c; w_channelId := channelId; w_inbox := inbox;
      w_interactiveShellMode := false; w_fileSize := -1; w_handled := []; w_progress := [] |}, next).

Definition getMessage : M DataMessage := fun w =>
  match w_inbox w with
  | [] => Blocked w
  | m :: ms => Done m (with_inbox ms w)
  end.

Definition sendToDaemon (command : FormatCommand) (payload : list Z) (dataLength : Z) : M bool := fun w =>
  match send (w_client w) (hc_sessionId (w_client w)) (w_channelId w) (fc_cmdFlag command)
             payload dataLength with
  | Ok (b, c) => Done b (with_client c w)
  | Throw e => Raised e w
  end.

Definition closeStream : M unit :=
  modify_state (fun w => with_client (unbindStream (w_channelId w) (w_client w)) w).

(** [message.body!.buffer]: a TypeError when the message has no body. *)
Definition body_of (m : DataMessage) : M (list Z) := lift_res (of_option TypeError (dm_body m)).

Definition handleCommandFileCheck : M unit :=
  m ← getMessage;
  body ← body_of m;
  head ← lift_res (parsePlayHead (js_slice body 0 PayloadHeadLength));
  let headSize := ph_headSize head in
  let dataSize := ph_dataSize head in
  let protect := parsePayloadProtect (js_slice body PayloadHeadLength (PayloadHeadLength + headSize)) in
  if pp_commandFlag protect =? cmd CMD_FILE_CHECK then
    (if 0 <? dataSize then
       modify_state (with_fileSize (tc_fileSize (parseTransferConfig
         (js_slice body (PayloadHeadLength + headSize) (PayloadHeadLength + headSize + dataSize)))))
     else mret tt);;
    sendToDaemon {| fc_cmdFlag := cmd CMD_FILE_BEGIN; fc_parameters := []; fc_bJumpDo := false |} [] 0;;
    mret tt
  else mret tt.

Definition FileRecvCommand (command : FormatCommand) : M unit :=
  let cmdFlag := if cmd CMD_FILE_INIT =? fc_cmdFlag command then js "send " else [] in
  if zlen (fc_parameters command) >? zlen cmdFlag then
    let data := text_encode (fc_parameters command) in
    let aa := js_slice_from data 5 in
    sendToDaemon command aa (zlen aa);;
    m ← getMessage;
    body ← body_of m;
    head ← lift_res (parsePlayHead (js_slice body 0 PayloadHeadLength));
    handleCommandFileCheck
  else mret tt.

Definition is_text_command (flag : Z) : bool :=
  existsb (fun c => flag =? cmd c)
    [CMD_SHELL_INIT; CMD_SHELL_DATA; CMD_UNITY_EXECUTE; CMD_UNITY_TERMINATE; CMD_UNITY_REMOUNT;
     CMD_UNITY_REBOOT; CMD_UNITY_RUNMODE; CMD_UNITY_HILOG].

Definition DoCommandRemote (command : FormatCommand) : M bool :=
  (if is_text_command (fc_cmdFlag command) then
     let data := text_encode (fc_parameters command) in
     sendResult ← sendToDaemon command data (zlen data);
     if sendResult && (cmd CMD_SHELL_INIT =? fc_cmdFlag command)
     then modify_state (with_shell true) else mret tt
   else if fc_cmdFlag command =? cmd CMD_FILE_INIT then FileRecvCommand command
   else if (fc_cmdFlag command =? cmd CMD_FILE_FINISH)
           || (fc_cmdFlag command =? cmd CMD_KERNEL_CHANNEL_CLOSE) then
     sendToDaemon command [if bool_decide (fc_parameters command = js "0") then 0 else 1] 1;; mret tt
   else mret tt);;
  mret false.

Definition DoCommand (c : jsstring) : M bool :=
  w ← get_state;
  DoCommandRemote (if w_interactiveShellMode w
    then {| fc_cmdFlag := cmd CMD_SHELL_DATA; fc_parameters := c; fc_bJumpDo := false |}
    else formatCommand c).

(** ** Commands of [HdcDeviceManager] *)

Definition closeCommand (parameters : jsstring) : FormatCommand :=
  {| fc_cmdFlag := cmd CMD_KERNEL_CHANNEL_CLOSE; fc_parameters := parameters; fc_bJumpDo := false |}.

(** [None]: the loop returned because the device is abnormal. *)
Fixpoint shell_loop (fuel : nat) (handles isSkipResult : bool) (c result : jsstring) :
    M (option jsstring) :=
  match fuel with
  | O => fun w => NoFuel w
  | S fuel' =>
      m ← getMessage;
      if dm_channelClose m || isSkipResult then
        DoCommandRemote (closeCommand (js "0"));;
        mret (Some (result ++ getDataToString m))
      else if uh_sessionId (dm_usbHead m) =? -1 then
        closeStream;; mret None
      else
        let dataResult := getDataToString m in
        (if handles && endsWith c (js "CONFIG") then modify_state (log_handled dataResult) else mret tt);;
        shell_loop fuel' handles isSkipResult c (result ++ dataResult)
  end.

(** [shellResultAsString] on an open client: [handles] says whether a
    [shellResultHandleFun] was given. *)
Definition shellResultAsString (fuel : nat) (c : jsstring) (isSkipResult handles : bool) : M jsstring :=
  DoCommand c;;
  r ← shell_loop fuel handles isSkipResult c [];
  match r with
  | None => mret (js "The device is abnormal")
  | Some result =>
      closeStream;;
      DoCommandRemote (closeCommand (js "0"));;
      mret result
  end.

Fixpoint stop_loop (fuel : nat) (m : DataMessage) (result : jsstring) : M jsstring :=
  if dm_channelClose m then mret result
  else match fuel with
       | O => fun w => NoFuel w
       | S fuel' => m' ← getMessage; stop_loop fuel' m' (result ++ getDataToString m')
       end.

Definition stopHiprofiler (fuel : nat) (c : jsstring) : M jsstring :=
  DoCommand c;;
  m ← getMessage;
  result ← stop_loop fuel m (getDataToString m);
  DoCommandRemote (closeCommand (js "0"));;
  closeStream;;
  mret result.

Definition appendBuffer (buffer1 buffer2 : list Z) : res (list Z) :=
  let tmp := zeros (zlen buffer1 + zlen buffer2) in
  let* tmp := typed_set tmp buffer1 0 in
  typed_set tmp buffer2 (zlen buffer1).

Fixpoint blob_loop (fuel : nat) (isSkipResult : bool) (finalBuffer : option (list Z)) :
    M (option (list Z)) :=
  match fuel with
  | O => fun w => NoFuel w
  | S fuel' =>
      m ← getMessage;
      if dm_channelClose m || isSkipResult then mret finalBuffer
      else
        match getData m, finalBuffer with
        | Some res, None => blob_loop fuel' isSkipResult (Some res)
        | Some res, Some b => b' ← lift_res (appendBuffer b res); blob_loop fuel' isSkipResult (Some b')
        | None, _ => blob_loop fuel' isSkipResult finalBuffer
        end
  end.

(** The blob's bytes. *)
Definition shellResultAsBlob (fuel : nat) (c : jsstring) (isSkipResult : bool) : M (list Z) :=
  DoCommand c;;
  finalBuffer ← blob_loop fuel isSkipResult None;
  closeStream;;
  mret (default [] finalBuffer).

Definition FILE_RECV_PREFIX_STRING : jsstring := js "hdc file recv -cwd C:\ ".

Fixpoint recv_loop (fuel : nat) (finalBuffer : option (list Z)) (offset : Z) : M (option (list Z)) :=
  match fuel with
  | O => fun w => NoFuel w
  | S fuel' =>
      m ← getMessage;
      if dm_channelClose m then mret finalBuffer
      else if dm_commandFlag m =? cmd CMD_FILE_FINISH then
        DoCommandRemote (closeCommand []);; mret finalBuffer
      else
        w ← get_state;
        '(finalBuffer, offset) ←
          match getData m, finalBuffer with
          | Some res, Some b =>
              let resRS := js_slice_from res 64 in
              b' ← lift_res (typed_set b resRS offset);
              modify_state (log_progress (Received_of (offset + zlen resRS) (w_fileSize w)));;
              mret (Some b', offset + zlen resRS)
          | _, _ => mret (finalBuffer, offset)
          end;
        (if negb (w_fileSize w =? -1) && (w_fileSize w <=? offset) then
           modify_state (log_progress Hundred);;
           DoCommandRemote {| fc_cmdFlag := cmd CMD_FILE_FINISH; fc_parameters := []; fc_bJumpDo := false |};;
           mret tt
         else mret tt);;
        recv_loop fuel' finalBuffer offset
  end.

(** The blob's bytes. *)
Definition fileRecv (fuel : nat) (filename : jsstring) : M (list Z) :=
  DoCommand (FILE_RECV_PREFIX_STRING ++ filename ++ js " ./");;
  w ← get_state;
  finalBuffer ← recv_loop fuel (if 0 <? w_fileSize w then Some (zeros (w_fileSize w)) else None) 0;
  mret (default [] finalBuffer).

(** ** Sending always completes *)

Lemma send_buffers_total sid ch flag data :
  exists bufs, send_buffers sid ch flag data (zlen data) = Ok bufs.
Proof.
  unfold send_buffers. rewrite serializePayloadProtect_bytes. cbn [res_bind].
  rewrite PayloadHead_getDataView_layout. cbn [res_bind].
  match goal with |- context [typed_set (zeros (zlen ?v + zlen ?p + _)) ?v 0] =>
    pose proof (zlen_nonneg v); pose proof (zlen_nonneg p); set (pv := v) in *; set (pbs := p) in * end.
  pose proof (zlen_nonneg data). rewrite !zeros_app by lia. rewrite <- app_assoc.
  rewrite typed_set_start by (by rewrite zlen_zeros). cbn [res_bind].
  rewrite typed_set_at by (rewrite ?zlen_zeros; done). cbn [res_bind].
  rewrite <- (app_nil_r (zeros (zlen data))), app_assoc.
  rewrite typed_set_at by (rewrite ?zlen_zeros, ?zlen_app; done). cbn [res_bind].
  unfold buildPacketHeader. rewrite USBHead_getDataView_layout. by eexists.
Qed.

(** The client after a send: only what was written, and the stop flag of a
    client without a channel, can differ. *)
Definition client_frame (c c' : HdcClient) : Prop :=
  hc_sessionId c' = hc_sessionId c /\ hc_cmdStreams c' = hc_cmdStreams c /\
  hc_queues c' = hc_queues c.

#[export] Instance client_frame_preorder : PreOrder client_frame.
Proof.
  split.
  - done.
  - intros c1 c2 c3 (? & ? & ?) (? & ? & ?). unfold client_frame. split_and!; congruence.
Qed.

Lemma sendToDaemon_done command payload w :
  exists b c, sendToDaemon command payload (zlen payload) w = Done b (with_client c w) /\
              client_frame (w_client w) c.
Proof.
  unfold sendToDaemon, send.
  destruct (send_buffers_total (hc_sessionId (w_client w)) (w_channelId w)
              (fc_cmdFlag command) payload) as [[h b] ->].
  cbn [res_bind]. destruct (hc_channel (w_client w)); eexists _, _; (split; [reflexivity|]); done.
Qed.

(** Every command but a file transfer only writes: it consumes no message. *)
Lemma DoCommandRemote_done command w :
  fc_cmdFlag command <> cmd CMD_FILE_INIT ->
  exists c b, DoCommandRemote command w = Done false (with_shell b (with_client c w)) /\
              client_frame (w_client w) c.
Proof.
  intros Hf. assert (Hw : forall b, b = w_interactiveShellMode w -> with_shell b (with_client (w_client w) w) = w)
    by (intros b ->; by destruct w).
  unfold DoCommandRemote.
  destruct (is_text_command (fc_cmdFlag command)).
  - destruct (sendToDaemon_done command (text_encode (fc_parameters command)) w) as (b & c & E & Hc).
    unfold mbind, eff_mbind, eff_bind. rewrite E.
    destruct (b && _); eexists c, _; (split; [reflexivity|done]).
  - apply Z.eqb_neq in Hf. rewrite Hf. case_match.
    + destruct (sendToDaemon_done command [if bool_decide (fc_parameters command = js "0") then 0 else 1] w)
        as (b & c & E & Hc).
      unfold mbind, eff_mbind, eff_bind. change (zlen _) with 1 in E. rewrite E.
      eexists c, _. split; [reflexivity|done].
    + eexists (w_client w), _. split; [|done]. cbn. by rewrite Hw.
Qed.

Lemma close_done p w :
  exists c b, DoCommandRemote (closeCommand p) w = Done false (with_shell b (with_client c w)) /\
              client_frame (w_client w) c.
Proof. by apply DoCommandRemote_done. Qed.

(** A command line that is not a file transfer. *)
Definition plain_command (c : jsstring) : Prop := fc_cmdFlag (formatCommand c) <> cmd CMD_FILE_INIT.

#[export] Instance plain_command_dec c : Decision (plain_command c).
Proof. unfold plain_command. apply _. Defined.

Lemma DoCommand_done c w :
  plain_command c ->
  exists cl b, DoCommand c w = Done false (with_shell b (with_client cl w)) /\
               client_frame (w_client w) cl.
Proof.
  intros Hc. unfold DoCommand. unfold mbind, eff_mbind, eff_bind, get_state.
  apply DoCommandRemote_done. by destruct (w_interactiveShellMode w).
Qed.

(** ** Shell results *)

Definition data_message (m : DataMessage) : Prop :=
  dm_channelClose m = false /\ uh_sessionId (dm_usbHead m) <> -1.

#[export] Instance data_message_dec m : Decision (data_message m).
Proof. unfold data_message. apply _. Defined.

Definition texts (ms : list DataMessage) : jsstring := concat (getDataToString <$> ms).

Lemma shell_loop_data handles c ms : forall fuel w result m rest,
  Forall data_message ms -> dm_channelClose m = true -> (length ms < fuel)%nat ->
  w_inbox w = ms ++ m :: rest ->
  exists w', shell_loop fuel handles false c result w = Done (Some (result ++ texts (ms ++ [m]))) w' /\
    w_inbox w' = rest /\ client_frame (w_client w) (w_client w') /\
    w_channelId w' = w_channelId w /\
    w_handled w' = w_handled w ++
      (if handles && endsWith c (js "CONFIG") then getDataToString <$> ms else []).
Proof.
  induction ms as [|m' ms IH]; intros fuel w result m rest Hms Hm Hf Hi;
    (destruct fuel as [|fuel]; [simpl in Hf; lia|]); cbn [shell_loop];
    unfold mbind, eff_mbind, eff_bind; unfold getMessage at 1; rewrite Hi; cbn [app].
  - rewrite Hm. cbn [orb].
    destruct (close_done (js "0") (with_inbox rest w)) as (cl & b & -> & Hc).
    eexists. split; [cbn; unfold texts; cbn; by rewrite app_nil_r|].
    split_and!; try done. cbn. destruct (handles && _); by rewrite app_nil_r.
  - inversion_clear Hms as [|? ? [Hc0 Hs0] Hms']. rewrite Hc0. cbn [orb].
    destruct (Z.eqb_spec (uh_sessionId (dm_usbHead m')) (-1)); [done|].
    destruct (handles && endsWith c (js "CONFIG")) eqn:Eh; cbn [mret eff_mret eff_ret modify_state].
    + destruct (IH fuel (log_handled (getDataToString m') (with_inbox (ms ++ m :: rest) w))
        (result ++ getDataToString m') m rest) as (w' & -> & H1 & H2 & H3 & H4);
        [done|done|simpl in Hf; lia|done|].
      exists w'. split; [unfold texts; cbn; by rewrite <- app_assoc|].
      split_and!; try done. rewrite H4. cbn. by rewrite <- app_assoc.
    + destruct (IH fuel (with_inbox (ms ++ m :: rest) w) (result ++ getDataToString m') m rest)
        as (w' & -> & H1 & H2 & H3 & H4); [done|done|simpl in Hf; lia|done|].
      exists w'. split; [unfold texts; cbn; by rewrite <- app_assoc|].
      split_and!; done.
Qed.

Lemma blob_loop_data ms : forall fuel w b m rest,
  Forall (fun m => dm_channelClose m = false) ms -> dm_channelClose m = true ->
  (length ms < fuel)%nat -> w_inbox w = ms ++ m :: rest ->
  exists r, blob_loop fuel false b w = Done r (with_inbox rest w) /\
    default [] r = default [] b ++ concat (default [] <$> (getData <$> ms)).
Proof.
  induction ms as [|m' ms IH]; intros fuel w b m rest Hms Hm Hf Hi;
    (destruct fuel as [|fuel]; [simpl in Hf; lia|]); cbn [blob_loop];
    unfold mbind, eff_mbind, eff_bind; unfold getMessage at 1; rewrite Hi; cbn [app].
  - rewrite Hm. cbn. eexists. split; [reflexivity|]. by rewrite app_nil_r.
  - inversion_clear Hms as [|? ? Hc0 Hms']. rewrite Hc0. cbn [orb].
    assert (Hnext : forall b', exists r,
      blob_loop fuel false b' (with_inbox (ms ++ m :: rest) w) = Done r (with_inbox rest w) /\
      default [] r = default [] b' ++ concat (default [] <$> (getData <$> ms))).
    { intros b'. destruct (IH fuel (with_inbox (ms ++ m :: rest) w) b' m rest) as (r & E & Hr);
        [done|done|simpl in Hf; lia|done|]. by exists r. }
    cbn [fmap list_fmap concat]. destruct (getData m') as [d|]; cbn [from_option id].
    + destruct b as [b|].
      * assert (Ha : appendBuffer b d = Ok (b ++ d)).
        { unfold appendBuffer. rewrite zeros_app by apply zlen_nonneg.
          rewrite typed_set_start by (by rewrite zlen_zeros by apply zlen_nonneg).
          cbn [res_bind]. rewrite <- (app_nil_r (zeros (zlen d))).
          rewrite typed_set_at by (rewrite ?zlen_zeros by apply zlen_nonneg; done). by rewrite app_nil_r. }
        rewrite Ha. cbn [lift_res]. destruct (Hnext (Some (b ++ d))) as (r & -> & Hr).
        exists r. split; [done|]. rewrite Hr. cbn. by rewrite <- app_assoc.
      * destruct (Hnext (Some d)) as (r & -> & Hr). exists r. split; [done|]. by rewrite Hr.
    + destruct (Hnext b) as (r & -> & Hr). exists r. split; [done|]. by rewrite Hr.
Qed.

(** ** File reception *)

(** A message that carries the chunk [d] of a file behind a 64-byte head. *)
Definition chunk_message (d : list Z) (m : DataMessage) : Prop :=
  dm_channelClose m = false /\ dm_commandFlag m <> cmd CMD_FILE_FINISH /\
  exists h, zlen h = 64 /\ getData m = Some (h ++ d).

Definition finish_message (m : DataMessage) : Prop :=
  dm_channelClose m = true \/ dm_commandFlag m = cmd CMD_FILE_FINISH.

Lemma recv_loop_chunks ms : forall chunks fuel w done tail offset m rest,
  Forall2 chunk_message chunks ms -> finish_message m ->
  (length ms < fuel)%nat -> w_inbox w = ms ++ m :: rest ->
  offset = zlen done -> zlen tail = zlen (concat chunks) ->
  exists w', recv_loop fuel (Some (done ++ tail)) offset w = Done (Some (done ++ concat chunks)) w' /\
             w_inbox w' = rest /\ client_frame (w_client w) (w_client w').
Proof.
  induction ms as [|m' ms IH]; intros chunks fuel w done tail offset m rest Hms Hm Hf Hi Ho Ht;
    (destruct fuel as [|fuel]; [simpl in Hf; lia|]); cbn [recv_loop];
    unfold mbind, eff_mbind, eff_bind; unfold getMessage at 1; rewrite Hi; cbn [app].
  - inversion Hms; subst. cbn in Ht. destruct tail; [|unfold zlen in Ht; simpl in Ht; lia].
    cbn [concat]. destruct (dm_channelClose m) eqn:Ec.
    + eexists. split; [reflexivity|]. done.
    + destruct Hm as [Hm|Hm]; [congruence|]. rewrite Hm, Z.eqb_refl.
      destruct (close_done [] (with_inbox rest w)) as (cl & b & -> & Hc).
      eexists. split; [reflexivity|]. done.
  - inversion Hms as [|d ? chunks' ? (Hc0 & Hf0 & h & Hh & Hd) Hms']; subst.
    rewrite Hc0. apply Z.eqb_neq in Hf0. rewrite Hf0. cbn [get_state]. rewrite Hd.
    rewrite (js_slice_from_app h d 64) by done.
    cbn [concat] in Ht. rewrite zlen_app in Ht.
    assert (Hsplit : tail = take (length d) tail ++ drop (length d) tail) by (by rewrite take_drop).
    rewrite Hsplit, typed_set_at; [|done|unfold zlen in *; rewrite length_take; lia].
    cbn [lift_res modify_state mret eff_mret eff_ret].
    set (w1 := log_progress _ _).
    assert (Hnext : forall w2, w_inbox w2 = ms ++ m :: rest -> client_frame (w_client w) (w_client w2) ->
      exists w', recv_loop fuel (Some (done ++ d ++ drop (length d) tail)) (zlen done + zlen d) w2 =
        Done (Some (done ++ concat (d :: chunks'))) w' /\
        w_inbox w' = rest /\ client_frame (w_client w) (w_client w')).
    { intros w2 Hi2 Hc2. destruct (IH chunks' fuel w2 (done ++ d) (drop (length d) tail) (zlen done + zlen d) m rest)
        as (w' & E & H1 & H2); try done.
      - simpl in Hf. lia.
      - by rewrite zlen_app.
      - unfold zlen in *. rewrite length_drop. lia.
      - exists w'. rewrite <- !app_assoc in E. split; [exact E|]. split; [done|]. by transitivity (w_client w2). }
    destruct (negb (w_fileSize _ =? -1) && (_ <=? _)).
    + cbn [modify_state]. match goal with |- context [DoCommandRemote ?cm ?ww] =>
        destruct (DoCommandRemote_done cm ww) as (cl & b & -> & Hc); [done|] end.
      cbn. by apply Hnext.
    + by apply Hnext.
Qed.

(** ** Properties *)

(** the result of a shell command.  When the stream delivers the data
    messages [ms] and then the close of the channel, [shellResultAsString]
    returns the concatenation of their texts, leaves later messages in the
    queue, unbinds its channel and no other, and hands every text to the
    result handler exactly when one is given and the command ends in CONFIG. *)
Theorem shell_result_concat (c : jsstring) (w : stream_world) (handles : bool)
  (ms : list DataMessage) (m : DataMessage) (rest : list DataMessage) (fuel : nat)
  (Hc : plain_command c) (Hms : Forall data_message ms) (Hm : dm_channelClose m = true)
  (Hi : w_inbox w = ms ++ m :: rest) (Hf : (length ms < fuel)%nat) :
  exists w', shellResultAsString fuel c false handles w = Done (texts (ms ++ [m])) w' /\
    w_inbox w' = rest /\
    hc_cmdStreams (w_client w') = delete (w_channelId w) (hc_cmdStreams (w_client w)) /\
    w_handled w' = w_handled w ++
      (if handles && endsWith c (js "CONFIG") then getDataToString <$> ms else []).
Proof.
  unfold shellResultAsString, mbind, eff_mbind, eff_bind.
  destruct (DoCommand_done c w Hc) as (cl & b & -> & Hcl).
  destruct (shell_loop_data handles c ms fuel (with_shell b (with_client cl w)) [] m rest)
    as (w1 & -> & H1 & (_ & H2 & _) & H3 & H4); [done|done|done|done|].
  unfold closeStream at 1. cbn [modify_state].
  match goal with |- context [DoCommandRemote ?cm ?ww] =>
    destruct (close_done (js "0") ww) as (cl2 & b2 & -> & (_ & Hs2 & _)) end.
  eexists. split; [reflexivity|]. split; [done|]. split; [|done].
  cbn in Hs2 |- *. rewrite Hs2, H3. cbn. rewrite H2. cbn. by rewrite (proj1 (proj2 Hcl)).
Qed.

Definition text_message (t : jsstring) : DataMessage :=
  {| dm_body := None;
     dm_usbHead := {| uh_flag := USB_PACKET_FLAG; uh_option := 1; uh_sessionId := 7; uh_dataSize := 0 |};
     dm_channelId := 1; dm_channelClose := false; dm_resArrayBuffer := Some t;
     dm_commandFlag := cmd CMD_SHELL_DATA |}.

Definition closing_message : DataMessage :=
  {| dm_body := None;
     dm_usbHead := {| uh_flag := USB_PACKET_FLAG; uh_option := 1; uh_sessionId := 7; uh_dataSize := 0 |};
     dm_channelId := 1; dm_channelClose := true; dm_resArrayBuffer := None;
     dm_commandFlag := cmd CMD_KERNEL_CHANNEL_CLOSE |}.

Definition sample_world (inbox : list DataMessage) : stream_world :=
  fst (new_HdcStream 1 0 (sample_client []) inbox).

Lemma shell_result_concat_witness :
  exists w', shellResultAsString 3 (js "hdc shell ls") false false
      (sample_world [text_message (js "a.txt "); text_message (js "b.txt"); closing_message]) =
    Done (js "a.txt b.txt") w' /\ w_inbox w' = [].
Proof.
  destruct (shell_result_concat (js "hdc shell ls")
    (sample_world [text_message (js "a.txt "); text_message (js "b.txt"); closing_message]) false
    [text_message (js "a.txt "); text_message (js "b.txt")] closing_message [] 3)
    as (w' & H1 & H2 & _).
  - discriminate.
  - repeat constructor; discriminate.
  - reflexivity.
  - reflexivity.
  - simpl. lia.
  - exists w'. split; [exact H1|exact H2].
Defined.

(** a character split over two messages is lost.  Each message is decoded by
    its own decoder, so the two bytes of U+00E9 arriving in two messages come
    out as two replacement characters, although the bytes together are valid
    UTF-8. *)
Theorem shell_result_splits_characters :
  exists w', shellResultAsString 3 (js "hdc shell ls") false false
      (sample_world [text_message [0xC3]; text_message [0xA9]; closing_message]) =
    Done [0xFFFD; 0xFFFD] w' /\
  text_decode ([0xC3] ++ [0xA9]) = [0xE9].
Proof. eexists. split; vm_compute; reflexivity. Qed.

(** [shellResultAsBlob] returns the data of the messages before the close of
    the channel, concatenated, messages without data counting as empty. *)
Theorem shell_blob_concat (c : jsstring) (w : stream_world)
  (ms : list DataMessage) (m : DataMessage) (rest : list DataMessage) (fuel : nat)
  (Hc : plain_command c) (Hms : Forall (fun m => dm_channelClose m = false) ms)
  (Hm : dm_channelClose m = true)
  (Hi : w_inbox w = ms ++ m :: rest) (Hf : (length ms < fuel)%nat) :
  exists w', shellResultAsBlob fuel c false w =
      Done (concat (default [] <$> (getData <$> ms))) w' /\ w_inbox w' = rest.
Proof.
  unfold shellResultAsBlob, mbind, eff_mbind, eff_bind.
  destruct (DoCommand_done c w Hc) as (cl & b & -> & Hcl).
  destruct (blob_loop_data ms fuel (with_shell b (with_client cl w)) None m rest)
    as (r & -> & Hr); [done|done|done|done|].
  eexists. unfold closeStream. cbn [modify_state mret eff_mret eff_ret]. rewrite Hr. done.
Qed.

Lemma shell_blob_concat_witness :
  exists w', shellResultAsBlob 3 (js "hdc shell cat f") false
      (sample_world [text_message [1; 2]; text_message [3]; closing_message]) =
    Done [1; 2; 3] w' /\ w_inbox w' = [].
Proof.
  apply (shell_blob_concat (js "hdc shell cat f")
    (sample_world [text_message [1; 2]; text_message [3]; closing_message])
    [text_message [1; 2]; text_message [3]] closing_message [] 3); try reflexivity.
  - discriminate.
  - repeat constructor.
  - simpl. lia.
Defined.

(** a received file is the concatenation of its chunks.  When the transfer
    was opened with the size [n > 0] and the device then sends chunks of [n]
    bytes in all, each behind its 64-byte head, and finishes, [fileRecv]
    returns exactly those bytes. *)
Theorem file_recv_reassembles (filename : jsstring) (w w1 : stream_world)
  (chunks : list (list Z)) (ms : list DataMessage) (m : DataMessage) (rest : list DataMessage)
  (fuel : nat) (b : bool)
  (Ho : DoCommand (FILE_RECV_PREFIX_STRING ++ filename ++ js " ./") w = Done b w1)
  (Hn : w_fileSize w1 = zlen (concat chunks)) (Hpos : 0 < zlen (concat chunks))
  (Hi : w_inbox w1 = ms ++ m :: rest)
  (Hms : Forall2 chunk_message chunks ms) (Hm : finish_message m) (Hf : (length ms < fuel)%nat) :
  exists w', fileRecv fuel filename w = Done (concat chunks) w' /\ w_inbox w' = rest.
Proof.
  unfold fileRecv, mbind, eff_mbind, eff_bind, get_state. rewrite Ho, Hn.
  destruct (Z.ltb_spec 0 (zlen (concat chunks))); [|lia].
  destruct (recv_loop_chunks ms chunks fuel w1 [] (zeros (zlen (concat chunks))) 0 m rest)
    as (w' & E & H1 & _); try done.
  - apply zlen_zeros. lia.
  - cbn [app] in E. rewrite E. by exists w'.
Qed.

Definition chunk (d : list Z) : DataMessage := text_message (zeros 64 ++ d).

Lemma chunk_message_chunk d : chunk_message d (chunk d).
Proof. split; [done|]. split; [discriminate|]. by exists (zeros 64). Qed.

Definition check_packet (size : list Z) : DataMessage :=
  match decoded {| pk_session := 7; pk_channel := 1; pk_command := CMD_FILE_CHECK; pk_data := 8 :: size |} with
  | Some m => m
  | None => closing_message
  end.

Definition recv_world : stream_world :=
  sample_world [check_packet [3]; check_packet [3]; chunk [10; 20]; chunk [30]; closing_message].

Lemma file_recv_reassembles_witness :
  exists w', fileRecv 3 (js "f") recv_world = Done [10; 20; 30] w' /\ w_inbox w' = [].
Proof.
  destruct (DoCommand (FILE_RECV_PREFIX_STRING ++ js "f" ++ js " ./") recv_world) as [b w1| | |] eqn:Ho;
    [|vm_compute in Ho; discriminate..].
  apply (file_recv_reassembles (js "f") recv_world w1 [[10; 20]; [30]] [chunk [10; 20]; chunk [30]]
           closing_message [] 3 b Ho).
  - vm_compute in Ho. injection Ho as <- <-. reflexivity.
  - reflexivity.
  - vm_compute in Ho. injection Ho as <- <-. vm_compute. reflexivity.
  - apply Forall2_cons; split; [apply chunk_message_chunk|].
    apply Forall2_cons; split; [apply chunk_message_chunk|apply Forall2_nil; exact I].
  - left. reflexivity.
  - simpl. lia.
Defined.

(** a file announced with a size of 2 GiB or more is dropped.  The size field
    of the reply is read as a negative number, so no buffer is allocated and
    [fileRecv] returns an empty blob whatever chunks arrive. *)
Theorem file_recv_large_dropped (filename : jsstring) (w w1 : stream_world)
  (ms : list DataMessage) (m : DataMessage) (rest : list DataMessage) (fuel : nat) (b : bool)
  (Ho : DoCommand (FILE_RECV_PREFIX_STRING ++ filename ++ js " ./") w = Done b w1)
  (Hn : w_fileSize w1 < 0)
  (Hi : w_inbox w1 = ms ++ m :: rest)
  (Hms : Forall (fun m => dm_channelClose m = false /\ dm_commandFlag m <> cmd CMD_FILE_FINISH) ms)
  (Hm : dm_channelClose m = true) (Hf : (length ms < fuel)%nat) :
  exists w', fileRecv fuel filename w = Done [] w'.
Proof.
  assert (Hloop : forall ms fuel w2, w_inbox w2 = ms ++ m :: rest -> (length ms < fuel)%nat ->
    Forall (fun m => dm_channelClose m = false /\ dm_commandFlag m <> cmd CMD_FILE_FINISH) ms ->
    exists w', recv_loop fuel None 0 w2 = Done None w').
  { clear -Hm. induction ms as [|m' ms IH]; intros fuel w2 Hi Hf Hms;
      (destruct fuel as [|fuel]; [simpl in Hf; lia|]); cbn [recv_loop];
      unfold mbind, eff_mbind, eff_bind; unfold getMessage at 1; rewrite Hi; cbn [app].
    - rewrite Hm. by eexists.
    - inversion_clear Hms as [|? ? [Hc0 Hf0] Hms']. rewrite Hc0. apply Z.eqb_neq in Hf0. rewrite Hf0.
      cbn [get_state]. simpl in Hf.
      destruct (getData m'); cbn [mret eff_mret eff_ret];
        (destruct (negb (w_fileSize _ =? -1) && (_ <=? _)); cbn [modify_state];
         [match goal with |- context [DoCommandRemote ?cm ?ww] =>
            destruct (DoCommandRemote_done cm ww) as (cl & b & -> & _); [done|] end|]);
        apply IH; try done; lia. }
  unfold fileRecv, mbind, eff_mbind, eff_bind, get_state. rewrite Ho.
  destruct (Z.ltb_spec 0 (w_fileSize w1)); [lia|].
  destruct (Hloop ms fuel w1 Hi Hf Hms) as (w' & ->). by eexists.
Qed.

Definition large_world : stream_world :=
  sample_world [check_packet [3]; check_packet (leb128 10 (2 ^ 31)); chunk [10; 20]; closing_message].

Lemma file_recv_large_dropped_witness :
  exists w', fileRecv 2 (js "f") large_world = Done [] w'.
Proof.
  destruct (DoCommand (FILE_RECV_PREFIX_STRING ++ js "f" ++ js " ./") large_world) as [b w1| | |] eqn:Ho;
    [|vm_compute in Ho; discriminate..].
  apply (file_recv_large_dropped (js "f") large_world w1 [chunk [10; 20]] closing_message [] 2 b Ho).
  - vm_compute in Ho. injection Ho as <- <-. reflexivity.
  - vm_compute in Ho. injection Ho as <- <-. vm_compute. reflexivity.
  - repeat constructor; discriminate.
  - reflexivity.
  - simpl. lia.
Defined.
