(* ===== verification/HdcHandshake.v ===== *)
(** * Connecting to a device

    [HdcClient.connectDevice] and its helpers
    ([ide/src/hdc/hdcclient/HdcClient.ts]): the authentication dialogue.  What
    the sources do not define is a parameter: the clock, the signing service
    behind [fetch] and the public key it serves. *)

From S2P Require Import Prelude JsRuntime HdcMessages HdcSerialize HdcQueue HdcTransport Effects.

(** [toLocaleLowerCase] on the ASCII letters; no other character lowers to one
    of the letters of the word searched for. *)
Definition to_lower (s : jsstring) : jsstring :=
  (fun c => if (65 <=? c) && (c <=? 90) then c + 32 else c) <$> s.

Record connect_world := {
  cw_client : HdcClient;
  cw_clock : nat;                       (** readings of the clock so far *)
  cw_isSuccess : bool;
  cw_isSigna : bool;
  cw_handBody : option (list Z);
  cw_message : option DataMessage;
  cw_reading : bool;                    (** [startReadData] was launched *)
}.

Definition upd_client (c : HdcClient) (w : connect_world) : connect_world :=
  {| cw_client := c; cw_clock := cw_clock w; cw_isSuccess := cw_isSuccess w;
     cw_isSigna := cw_isSigna w; cw_handBody := cw_handBody w; cw_message := cw_message w;
     cw_reading := cw_reading w |}.
Definition upd_clock (w : connect_world) : connect_world :=
  {| cw_client := cw_client w; cw_clock := S (cw_clock w); cw_isSuccess := cw_isSuccess w;
     cw_isSigna := cw_isSigna w; cw_handBody := cw_handBody w; cw_message := cw_message w;
     cw_reading := cw_reading w |}.
Definition upd_success (b : bool) (w : connect_world) : connect_world :=
  {| cw_client := cw_client w; cw_clock := cw_clock w; cw_isSuccess := b;
     cw_isSigna := cw_isSigna w; cw_handBody := cw_handBody w; cw_message := cw_message w;
     cw_reading := cw_reading w |}.
Definition upd_signa (b : bool) (w : connect_world) : connect_world :=
  {| cw_client := cw_client w; cw_clock := cw_clock w; cw_isSuccess := cw_isSuccess w;
     cw_isSigna := b; cw_handBody := cw_handBody w; cw_message := cw_message w;
     cw_reading := cw_reading w |}.
Definition upd_body (b : list Z) (w : connect_world) : connect_world :=
  {| cw_client := cw_client w; cw_clock := cw_clock w; cw_isSuccess := cw_isSuccess w;
     cw_isSigna := cw_isSigna w; cw_handBody := Some b; cw_message := cw_message w;
     cw_reading := cw_reading w |}.
Definition upd_message (m : DataMessage) (w : connect_world) : connect_world :=
  {| cw_client := cw_client w; cw_clock := cw_clock w; cw_isSuccess := cw_isSuccess w;
     cw_isSigna := cw_isSigna w; cw_handBody := cw_handBody w; cw_message := Some m;
     cw_reading := cw_reading w |}.
Definition upd_reading (w : connect_world) : connect_world :=
  {| cw_client := cw_client w; cw_clock := cw_clock w; cw_isSuccess := cw_isSuccess w;
     cw_isSigna := cw_isSigna w; cw_handBody := cw_handBody w; cw_message := cw_message w;
     cw_reading := true |}.

Abbreviation C := (Eff connect_world).

Definition AUTH_BUF : jsstring := js "authtype        1               1".

(** [new Uint8Array(...)] of a failed key request: [publicKey] is the boolean
    [false], whose [length] is undefined and whose text is "false". *)
Definition serializeFalse (tag : Z) : res (list Z) :=
  merge_arrays [writeVarIntU32 (makeTagWireType tag WireType.LENGTH_DELIMETED);
                [0]; text_encode (js "false")].

Section Connect.
Context (clock : nat -> Z).
Context (fetch_sign : bool -> jsstring -> option jsstring).
Context (fetch_key : option jsstring).
Context (serialNumber : jsstring).

(** [buf] is [None] for the boolean [false]. *)
Definition handshake_bytes (authType : Z) (sessionId : Z) (buf : option jsstring) : res (list Z) :=
  match buf with
  | Some b =>
      serializeSessionHandShake
        {| hs_banner := HANDSHAKE_MESSAGE; hs_authType := authType; hs_sessionId := sessionId;
           hs_connectKey := serialNumber; hs_buf := b; hs_version := js "Ver: 3.0.0b" |}
  | None =>
      let* bannerValue := serializeToString 1 HANDSHAKE_MESSAGE in
      let* authTypeValue := serializeU8 2 authType in
      let* sessionIdValue := serializeU32 3 sessionId in
      let* connectKey := serializeToString 4 serialNumber in
      let* bufValue := serializeFalse 5 in
      let* version := serializeToString 6 (js "Ver: 3.0.0b") in
      merge_arrays [bannerValue; authTypeValue; sessionIdValue; connectKey; bufValue; version]
  end.

Definition handShakeConnect (authType : Z) (buf : option jsstring) : C unit := fun w =>
  let sid := hc_sessionId (cw_client w) in
  match handshake_bytes authType sid buf with
  | Throw e => Raised e w
  | Ok hs =>
      match send (cw_client w) sid 0 (cmd CMD_KERNEL_HANDSHAKE) hs (zlen hs) with
      | Ok (_, c) => Done tt (upd_client c w)
      | Throw e => Raised e w
      end
  end.

(** [transmissionChannel.readData] *)
Definition read_transfer : C (list Z) := fun w =>
  match hc_channel (cw_client w) with
  | None => Raised TypeError w
  | Some ch =>
      match readData ch with
      | (Waiting, _) => Blocked w
      | (Received b, ch') => Done b (upd_client (set_channel (cw_client w) ch') w)
      end
  end.

Definition readHandShakeMsg : C bool :=
  w ← get_state;
  if cw_isSuccess w then mret false
  else
    res ← read_transfer;
    handShake ← lift_res (parseHeadData res);
    handBody ← read_transfer;
    modify_state (upd_body handBody);;
    message ← lift_res (new_DataMessage handShake (Some handBody));
    modify_state (upd_message message);;
    mret true.

Definition handShakeSuccess : C unit :=
  w ← get_state;
  handBody ← lift_res (of_option TypeError (cw_handBody w));
  resultPayloadHead ← lift_res (parsePlayHead (js_slice handBody 0 PayloadHeadLength));
  modify_state upd_reading.

Definition getTime : C Z := fun w => Done (clock (cw_clock w)) (upd_clock w).

(** The switch on the kind of the answer: the time stamp to go on with. *)
Definition handle_answer (returnAuth : Z) (returnBuf : jsstring) (timeStamp : Z) : C Z :=
  if returnAuth =? AuthType.AUTH_SIGNATURE then
    w ← get_state;
    match fetch_sign (cw_isSigna w) returnBuf with
    | Some signatureHdcMsg =>
        handShakeConnect AuthType.AUTH_SIGNATURE (Some signatureHdcMsg);; getTime
    | None => mret timeStamp
    end
  else if returnAuth =? AuthType.AUTH_PUBLICKEY then
    modify_state (upd_signa (bool_decide (returnBuf = AUTH_BUF)));;
    handShakeConnect AuthType.AUTH_PUBLICKEY
      ((fun k => js "smartPerf-Host" ++ [12] ++ k) <$> fetch_key);;
    getTime
  else if returnAuth =? AuthType.AUTH_OK then
    if (indexOf (to_lower returnBuf) (js "unauth") =? -1) || includes returnBuf (js "SUCCESS")
    then handShakeSuccess;; modify_state (upd_success true);; mret timeStamp
    else mret timeStamp
  else mret timeStamp.

Fixpoint connect_loop (fuel : nat) (timeStamp : Z) : C unit :=
  match fuel with
  | O => fun w => NoFuel w
  | S fuel' =>
      more ← readHandShakeMsg;
      if (more : bool) then
        now ← getTime;
        if now - timeStamp >? 10000 then mret tt
        else
          w ← get_state;
          match cw_message w with
          | Some m =>
              if dm_commandFlag m =? cmd CMD_KERNEL_HANDSHAKE then
                let backMessage := parseHandshake (default [] (dm_resArrayBuffer m)) in
                timeStamp' ← handle_answer (hs_authType backMessage) (hs_buf backMessage) timeStamp;
                connect_loop fuel' timeStamp'
              else connect_loop fuel' timeStamp
          | None => connect_loop fuel' timeStamp
          end
      else mret tt
  end.

(** [sessionId] is the random number of [Utils.getSessionId]. *)
Definition connectDevice (fuel : nat) (sessionId : Z) : C bool :=
  modify_state (fun w => upd_client
    {| hc_sessionId := sessionId; hc_channel := hc_channel (cw_client w);
       hc_readData := hc_readData (cw_client w); hc_cmdStreams := hc_cmdStreams (cw_client w);
       hc_queues := hc_queues (cw_client w) |} w);;
  modify_state (upd_success false);;
  handShakeConnect AuthType.AUTH_NONE (Some AUTH_BUF);;
  timeStamp ← getTime;
  connect_loop fuel timeStamp;;
  w ← get_state;
  mret (cw_isSuccess w).

(** ** Invariant: success is only reached through an accepted AUTH_OK *)

(** The last message read is a handshake answer that accepts the client. *)
Definition accepted (w : connect_world) : Prop :=
  exists m, cw_message w = Some m /\ dm_commandFlag m = cmd CMD_KERNEL_HANDSHAKE /\
    let h := parseHandshake (default [] (dm_resArrayBuffer m)) in
    hs_authType h = AuthType.AUTH_OK /\
    (indexOf (to_lower (hs_buf h)) (js "unauth") = -1 \/ includes (hs_buf h) (js "SUCCESS") = true).

Definition connect_inv (w : connect_world) : Prop :=
  cw_isSuccess w = true -> cw_reading w = true /\ accepted w.

(** The state in which an outcome leaves the world. *)
Definition final_state {A} (o : outcome connect_world A) : connect_world :=
  match o with Done _ w | Raised _ w | Blocked w | NoFuel w => w end.

Lemma handShakeConnect_keeps a b w :
  let w' := final_state (handShakeConnect a b w) in
  cw_isSuccess w' = cw_isSuccess w /\ cw_reading w' = cw_reading w /\ cw_message w' = cw_message w.
Proof.
  cbn. unfold handShakeConnect. destruct (handshake_bytes _ _ _) as [hs|]; [|done].
  destruct (send _ _ _ _ _ _) as [[]|]; done.
Qed.

Lemma read_transfer_keeps w :
  let w' := final_state (read_transfer w) in
  cw_isSuccess w' = cw_isSuccess w /\ cw_reading w' = cw_reading w /\ cw_message w' = cw_message w.
Proof.
  cbn. unfold read_transfer. destruct (hc_channel (cw_client w)) as [ch|]; [|done].
  by destruct (readData ch) as [[] ?].
Qed.

(** After a message was read the client is not connected; when none is read the
    world is as it was. *)
Lemma readHandShakeMsg_spec w :
  match readHandShakeMsg w with
  | Done false w' => w' = w /\ cw_isSuccess w = true
  | o => cw_isSuccess (final_state o) = false
  end.
Proof.
  unfold readHandShakeMsg, mbind, eff_mbind, eff_bind, get_state.
  destruct (cw_isSuccess w) eqn:Es; [done|].
  pose proof (read_transfer_keeps w) as H1. destruct (read_transfer w) as [r1 w1|e w1|w1|w1];
    cbn in H1; destruct H1 as (H1 & _); try (cbn; congruence).
  unfold lift_res at 1. destruct (parseHeadData r1) as [h|]; [|cbn; congruence].
  pose proof (read_transfer_keeps w1) as H2. destruct (read_transfer w1) as [r2 w2|e w2|w2|w2];
    cbn in H2; destruct H2 as (H2 & _); try (cbn; congruence).
  cbn [modify_state]. unfold lift_res. destruct (new_DataMessage h (Some r2)); cbn; congruence.
Qed.

Lemma handle_answer_inv a b ts w m :
  cw_isSuccess w = false -> cw_message w = Some m ->
  dm_commandFlag m = cmd CMD_KERNEL_HANDSHAKE ->
  a = hs_authType (parseHandshake (default [] (dm_resArrayBuffer m))) ->
  b = hs_buf (parseHandshake (default [] (dm_resArrayBuffer m))) ->
  connect_inv (final_state (handle_answer a b ts w)).
Proof.
  intros Hs Hm Hf Ha Hb. unfold handle_answer, connect_inv.
  destruct (a =? AuthType.AUTH_SIGNATURE); [|destruct (a =? AuthType.AUTH_PUBLICKEY);
    [|destruct (Z.eqb_spec a AuthType.AUTH_OK) as [Ea|]; [|cbn; congruence]]].
  - unfold mbind, eff_mbind, eff_bind, get_state.
    destruct (fetch_sign (cw_isSigna w) b) as [sg|]; [|cbn; congruence].
    pose proof (handShakeConnect_keeps AuthType.AUTH_SIGNATURE (Some sg) w) as (H1 & _).
    destruct (handShakeConnect _ _ w) as [[] w1|e w1|w1|w1]; cbn in H1 |- *; congruence.
  - unfold mbind, eff_mbind, eff_bind, modify_state.
    match goal with |- context [handShakeConnect ?x ?y ?z] =>
      pose proof (handShakeConnect_keeps x y z) as (H1 & _);
      destruct (handShakeConnect x y z) as [[] w1|e w1|w1|w1]; cbn in H1 |- *; congruence end.
  - destruct ((indexOf (to_lower b) (js "unauth") =? -1) || includes b (js "SUCCESS")) eqn:Eb;
      [|cbn; congruence].
    unfold handShakeSuccess, mbind, eff_mbind, eff_bind, get_state.
    destruct (cw_handBody w) as [hb|]; [|cbn; congruence]. cbn [lift_res of_option].
    destruct (parsePlayHead _) as [ph|]; [|cbn; congruence]. cbn [lift_res modify_state].
    cbn. intros _. split; [done|]. exists m. split; [done|]. split; [done|].
    cbv zeta. rewrite <- Ha, <- Hb. split; [done|].
    apply orb_true_iff in Eb as [E%Z.eqb_eq|E]; auto.
Qed.

Lemma connect_loop_inv fuel : forall ts w,
  connect_inv w -> connect_inv (final_state (connect_loop fuel ts w)).
Proof.
  induction fuel as [|fuel IH]; intros ts w Hw; [done|]. cbn [connect_loop].
  unfold mbind, eff_mbind, eff_bind.
  pose proof (readHandShakeMsg_spec w) as Hr.
  destruct (readHandShakeMsg w) as [[] w1|e w1|w1|w1]; cbn [final_state] in Hr |- *;
    try (unfold connect_inv; congruence).
  - unfold getTime at 1. cbn iota. case_match;
      [unfold connect_inv; cbn [final_state mret eff_mret eff_ret upd_clock cw_isSuccess]; congruence|].
    cbn [get_state]. destruct (cw_message (upd_clock w1)) as [m|] eqn:Em;
      [|apply IH; unfold connect_inv; cbn [upd_clock cw_isSuccess]; congruence].
    destruct (Z.eqb_spec (dm_commandFlag m) (cmd CMD_KERNEL_HANDSHAKE)) as [Ef|];
      [|apply IH; unfold connect_inv; cbn [upd_clock cw_isSuccess]; congruence].
    match goal with |- context [handle_answer ?a ?b ?t ?s] =>
      pose proof (handle_answer_inv a b t s m Hr Em Ef eq_refl eq_refl) as Hi;
      destruct (handle_answer a b t s) as [t' w2|e w2|w2|w2] end; cbn [final_state] in Hi |- *; try done.
    by apply IH.
  - destruct Hr as [-> _]. done.
Qed.

(** C5: no connection without the device's consent.  Whatever the device sends,
    whatever the clock and the signing service answer, and however long the
    dialogue: when [connectDevice] returns true, the last packet read was a
    handshake packet with AUTH_OK whose text does not say "unauth" or says
    SUCCESS, and the read loop was started. *)
Theorem connect_only_when_accepted (fuel : nat) (sessionId : Z) (w w' : connect_world)
  (Hr : connectDevice fuel sessionId w = Done true w') :
  cw_reading w' = true /\ accepted w'.
Proof.
  unfold connectDevice, mbind, eff_mbind, eff_bind in Hr. cbn [modify_state] in Hr.
  match type of Hr with context [handShakeConnect ?a ?b ?s] =>
    pose proof (handShakeConnect_keeps a b s) as (H1 & _);
    destruct (handShakeConnect a b s) as [[] w1|e w1|w1|w1]; try discriminate end.
  cbn [final_state upd_client upd_success cw_isSuccess] in H1. unfold getTime at 1 in Hr.
  match type of Hr with context [connect_loop ?f ?t ?s] =>
    pose proof (connect_loop_inv f t s) as Hi;
    destruct (connect_loop f t s) as [[] w2|e w2|w2|w2]; try discriminate end.
  cbn [get_state mret eff_mret eff_ret final_state] in Hr, Hi. injection Hr as Hs <-. apply Hi; [|done].
  unfold connect_inv. cbn [upd_clock cw_isSuccess]. congruence.
Qed.
End Connect.

(** ** A dialogue *)

Definition answer (authType : Z) (buf : jsstring) : list (option (list Z)) :=
  match serializeSessionHandShake
          {| hs_banner := HANDSHAKE_MESSAGE; hs_authType := authType; hs_sessionId := 7;
             hs_connectKey := js "SN1"; hs_buf := buf; hs_version := js "Ver: 3.0.0b" |} with
  | Ok hs => packet_script {| pk_session := 7; pk_channel := 0; pk_command := CMD_KERNEL_HANDSHAKE;
                              pk_data := hs |}
  | Throw _ => []
  end.

Definition dialogue (script : list (option (list Z))) : connect_world :=
  {| cw_client :=
       {| hc_sessionId := 0; hc_channel := Some {| usb_open := true; usb_in := script; usb_out := [] |};
          hc_readData := true; hc_cmdStreams := ∅; hc_queues := ∅ |};
     cw_clock := 0; cw_isSuccess := false; cw_isSigna := false; cw_handBody := None;
     cw_message := None; cw_reading := false |}.

Definition good_device : connect_world :=
  dialogue (answer AuthType.AUTH_PUBLICKEY AUTH_BUF
            ++ answer AuthType.AUTH_SIGNATURE (js "challenge")
            ++ answer AuthType.AUTH_OK (js "SUCCESS")).

Abbreviation sample_connect :=
  (connectDevice (fun _ => 0) (fun _ m => Some (m ++ js "-signed")) (Some (js "KEY")) (js "SN1")
    4 7 good_device).

Example good_device_connects :
  exists w, sample_connect = Done true w.
Proof. eexists. vm_compute. reflexivity. Qed.

Lemma connect_only_when_accepted_witness :
  exists w, sample_connect = Done true w /\ cw_reading w = true.
Proof.
  destruct sample_connect as [b w| | |] eqn:E; [|vm_compute in E; discriminate..].
  assert (b = true) as -> by (vm_compute in E; congruence).
  exists w. split; [reflexivity|].
  apply connect_only_when_accepted in E. exact (proj1 E).
Defined.
