(* ===== verification/HeapModel.v ===== *)
(** * The heap snapshot: data and loading

    [js-heap/model/DatabaseStruct.ts], [js-heap/model/UiStruct.ts],
    [js-heap/utils/Utils.ts] and the row readers of [js-heap/LoadDatabase.ts].
    A node object is a cell of the list [nodes] (the array [HeapLoader.nodes]);
    a reference to a node is its position there, which for a loaded snapshot is
    the node's [nodeIndex].  A reference to an edge is its position in the array
    [edges].  Sizes and counts are integers below 2^53, hence [Z].  A name read
    from the string table is [None] when the table has no such entry
    (JavaScript's [undefined]). *)

From S2P Require Import Prelude JsRuntime.

(** ** Typed arrays and ordered maps *)

(** [Uint32Array]: a read out of range is [undefined], which the modelled
    arithmetic never meets (the theorems show the indices in range) and which is
    rendered as 0; a write is reduced modulo 2^32 and ignored out of range. *)
Definition u32_at (a : list Z) (i : Z) : Z := default 0 (zlookup i a).
Definition u32_set (a : list Z) (i v : Z) : list Z :=
  if i <? 0 then a else <[Z.to_nat i := toUint32 v]> a.

(** [Map]: keys in insertion order; setting a present key keeps its place. *)
Section OrderedMap.
Context {K V : Type} `{EqDecision K}.

Fixpoint map_get (m : list (K * V)) (k : K) : option V :=
  match m with
  | [] => None
  | (k', v) :: m' => if decide (k' = k) then Some v else map_get m' k
  end.

Fixpoint map_set (m : list (K * V)) (k : K) (v : V) : list (K * V) :=
  match m with
  | [] => [(k, v)]
  | (k', v') :: m' => if decide (k' = k) then (k', v) :: m' else (k', v') :: map_set m' k v
  end.

Definition map_has (m : list (K * V)) (k : K) : bool :=
  match map_get m k with Some _ => true | None => false end.
End OrderedMap.

Lemma map_get_set {K V} `{EqDecision K} (m : list (K * V)) k v k' :
  map_get (map_set m k v) k' = if decide (k = k') then Some v else map_get m k'.
Proof.
  induction m as [|[k0 v0] m IH]; simpl; [done|].
  destruct (decide (k0 = k)) as [->|Hne]; simpl; repeat case_decide; congruence.
Qed.

Lemma map_set_keys {K V} `{EqDecision K} (m : list (K * V)) k v :
  (map_set m k v).*1 = if map_has m k then m.*1 else m.*1 ++ [k].
Proof.
  unfold map_has. induction m as [|[k0 v0] m IH]; [done|]. cbn [map_set map_get].
  destruct (decide (k0 = k)); [done|]. rewrite !fmap_cons, IH. by case_match.
Qed.

Lemma map_get_elem {K V} `{EqDecision K} (m : list (K * V)) k :
  k ∈ m.*1 <-> is_Some (map_get m k).
Proof.
  induction m as [|[k0 v0] m IH]; [split; [set_solver|by intros []]|].
  rewrite fmap_cons, elem_of_cons, IH. cbn [map_get fst]. case_decide; [split; [eauto|by left]|naive_solver].
Qed.

Lemma map_set_nodup {K V} `{EqDecision K} (m : list (K * V)) k v : NoDup m.*1 -> NoDup (map_set m k v).*1.
Proof.
  intros HN. rewrite map_set_keys. unfold map_has. destruct (map_get m k) eqn:E; [done|].
  apply NoDup_app. split_and!; [done| |apply NoDup_singleton]. intros x Hx ->%list_elem_of_singleton.
  apply map_get_elem in Hx as [? ?]. congruence.
Qed.

Lemma map_get_nodup {K V} `{EqDecision K} (m : list (K * V)) k v :
  NoDup m.*1 -> (k, v) ∈ m -> map_get m k = Some v.
Proof.
  induction m as [|[k0 v0] m IH]; [set_solver|]. rewrite fmap_cons, NoDup_cons. cbn [fst map_get].
  intros [Hk0 HN] [Heq|Hin]%elem_of_cons; [injection Heq as -> ->; by rewrite decide_True|].
  rewrite decide_False; [by apply IH|]. intros ->. apply Hk0. by apply (list_elem_of_fmap_2 fst _ (k, v)).
Qed.

Lemma map_set_values_new {K V} `{EqDecision K} (m : list (K * V)) k v :
  map_get m k = None -> (map_set m k v).*2 = m.*2 ++ [v].
Proof.
  induction m as [|[k0 v0] m IH]; [done|]. cbn [map_get map_set]. case_decide; [done|].
  intros H0. by rewrite !fmap_cons, IH.
Qed.

Lemma map_get_in {K V} `{EqDecision K} (m : list (K * V)) k v : map_get m k = Some v -> (k, v) ∈ m.
Proof.
  induction m as [|[k0 v0] m IH]; [done|]. cbn [map_get]. case_decide as E; [intros [= ->]; subst; by left|]. intros. right. auto.
Qed.

(** Grouping: every element of a list updates what the map has at its key. *)
Section Accumulate.
Context {K V X : Type} `{EqDecision K} (key : X -> K) (upd : option V -> X -> V).

Definition map_accumulate (m : list (K * V)) (l : list X) : list (K * V) :=
  foldl (fun m x => map_set m (key x) (upd (map_get m (key x)) x)) m l.

Lemma map_accumulate_get l : forall m k,
  map_get (map_accumulate m l) k = foldl (fun o x => Some (upd o x)) (map_get m k) (filter (fun x => key x = k) l).
Proof.
  induction l as [|x l IH]; intros m k; [done|]. unfold map_accumulate. cbn [foldl]. fold (map_accumulate (map_set m (key x) (upd (map_get m (key x)) x)) l).
  rewrite IH, map_get_set, filter_cons. case_decide as E; [by rewrite <- E|done].
Qed.

Lemma map_accumulate_nodup l : forall m, NoDup m.*1 -> NoDup (map_accumulate m l).*1.
Proof. induction l as [|x l IH]; intros m HN; [done|]. apply IH. by apply map_set_nodup. Qed.

(** The entries of a map built from nothing: one per key of the list. *)
Lemma map_accumulate_elem l k v :
  (k, v) ∈ map_accumulate [] l <-> foldl (fun o x => Some (upd o x)) None (filter (fun x => key x = k) l) = Some v.
Proof.
  pose proof (map_accumulate_get l [] k) as E. cbn [map_get] in E. rewrite <- E. split; [apply map_get_nodup, map_accumulate_nodup; constructor|apply map_get_in].
Qed.
End Accumulate.

(** ** Enumerations *)

Inductive EdgeType :=
  | EDGE_CONTEXT | EDGE_ELEMENT | EDGE_PROPERTY | EDGE_INTERNAL | EDGE_HIDDEN | EDGE_SHORTCUT
  | EDGE_WEAK | EDGE_STRING_OR_NUMBER | EDGE_NODE | EDGE_INVISIBLE.

Definition edge_type (t : EdgeType) : Z :=
  match t with
  | EDGE_CONTEXT => 0 | EDGE_ELEMENT => 1 | EDGE_PROPERTY => 2 | EDGE_INTERNAL => 3
  | EDGE_HIDDEN => 4 | EDGE_SHORTCUT => 5 | EDGE_WEAK => 6 | EDGE_STRING_OR_NUMBER => 6
  | EDGE_NODE => 7 | EDGE_INVISIBLE => 8
  end.

Inductive NodeType :=
  | HIDDEN | ARRAY | STRING | OBJECT | CODE | CLOSURE | REGEXP | NUMBER | NATIVE | SYNTHETIC
  | CONCATENATED_STRING | SLICED_STRING | SYMBOL | BIGINT | OBJECT_SHAPE.

Definition node_type (t : NodeType) : Z :=
  match t with
  | HIDDEN => 0 | ARRAY => 1 | STRING => 2 | OBJECT => 3 | CODE => 4 | CLOSURE => 5 | REGEXP => 6
  | NUMBER => 7 | NATIVE => 8 | SYNTHETIC => 9 | CONCATENATED_STRING => 10 | SLICED_STRING => 11
  | SYMBOL => 12 | BIGINT => 13 | OBJECT_SHAPE => 14
  end.

(** The lower-case name of a node type, as [getNodeTypeName] and [toLowerCase]
    produce it inside a template string. *)
Definition node_type_names : list jsstring :=
  js <$> ["hidden"; "array"; "string"; "object"; "code"; "closure"; "regexp"; "number"; "native";
          "synthetic"; "concatenated_string"; "sliced_string"; "symbol"; "bigint"; "object_shape"]%string.

Definition getNodeTypeName (t : Z) : jsstring :=
  default (js "undefined") (zlookup t node_type_names).

Inductive DetachedNessState := UNKNOWN | ATTACHED | DETACHED.

Definition detached_state (d : DetachedNessState) : Z :=
  match d with UNKNOWN => 0 | ATTACHED => 1 | DETACHED => 2 end.

(** ** Nodes and edges *)

Record HeapNode := {
  hn_fileId : Z;
  hn_nodeIndex : Z;
  hn_nodeOldIndex : Z;
  hn_type : Z;
  hn_name : option jsstring;
  hn_id : Z;
  hn_selfSize : Z;
  hn_edgeCount : Z;
  hn_traceNodeId : Z;
  hn_detachedness : Z;
  hn_edges : list nat;
  hn_distance : Z;
  hn_retainedSize : Z;
  hn_displayName : jsstring;
  hn_firstEdgeIndex : Z;
  hn_flag : Z;
  hn_retainsEdgeIdx : list Z;
  hn_retainsNodeIdx : list Z;
}.

Definition new_HeapNode (fileId nodeIndex type : Z) (name : option jsstring)
    (id selfSize edgeCount traceNodeId detachedness firstEdgeIndex : Z) : HeapNode :=
  {| hn_fileId := fileId; hn_nodeIndex := nodeIndex; hn_nodeOldIndex := nodeIndex * 7;
     hn_type := type; hn_name := name; hn_id := id; hn_selfSize := selfSize;
     hn_edgeCount := edgeCount; hn_traceNodeId := traceNodeId; hn_detachedness := detachedness;
     hn_edges := []; hn_distance := -5; hn_retainedSize := selfSize; hn_displayName := [];
     hn_firstEdgeIndex := firstEdgeIndex; hn_flag := 0; hn_retainsEdgeIdx := [];
     hn_retainsNodeIdx := [] |}.

(** Assignments to one field of a node. *)
Definition with_edges (v : list nat) (n : HeapNode) : HeapNode :=
  let 'Build_HeapNode a b c d e f g h i j _ k l m o p q r := n in Build_HeapNode a b c d e f g h i j v k l m o p q r.
Definition with_detachedness (v : Z) (n : HeapNode) : HeapNode :=
  let 'Build_HeapNode a b c d e f g h i _ j k l m o p q r := n in Build_HeapNode a b c d e f g h i v j k l m o p q r.
Definition with_distance (v : Z) (n : HeapNode) : HeapNode :=
  let 'Build_HeapNode a b c d e f g h i j k _ l m o p q r := n in Build_HeapNode a b c d e f g h i j k v l m o p q r.
Definition with_retainedSize (v : Z) (n : HeapNode) : HeapNode :=
  let 'Build_HeapNode a b c d e f g h i j k l _ m o p q r := n in Build_HeapNode a b c d e f g h i j k l v m o p q r.
Definition with_displayName (v : jsstring) (n : HeapNode) : HeapNode :=
  let 'Build_HeapNode a b c d e f g h i j k l m _ o p q r := n in Build_HeapNode a b c d e f g h i j k l m v o p q r.
Definition with_flag (v : Z) (n : HeapNode) : HeapNode :=
  let 'Build_HeapNode a b c d e f g h i j k l m o p _ q r := n in Build_HeapNode a b c d e f g h i j k l m o p v q r.
Definition with_retains (es ns : list Z) (n : HeapNode) : HeapNode :=
  let 'Build_HeapNode a b c d e f g h i j k l m o p q _ _ := n in Build_HeapNode a b c d e f g h i j k l m o p q es ns.

Definition nodeName (n : HeapNode) : option jsstring :=
  if bool_decide (hn_displayName n = []) then hn_name n else Some (hn_displayName n).

Definition className (n : HeapNode) : option jsstring :=
  if hn_type n =? node_type HIDDEN then Some (js "(system)")
  else if (hn_type n =? node_type OBJECT) || (hn_type n =? node_type NATIVE) then nodeName n
  else if hn_type n =? node_type CODE then Some (js "(compiled code)")
  else Some (js "(" ++ getNodeTypeName (hn_type n) ++ js ")").

(** [edges] is a set of edge objects in insertion order. *)
Definition addEdge (e : nat) (n : HeapNode) : HeapNode :=
  if bool_decide (e ∈ hn_edges n) then n else with_edges (hn_edges n ++ [e]) n.

Definition idHidden (n : HeapNode) : bool := hn_type n =? node_type HIDDEN.
Definition isArray (n : HeapNode) : bool := hn_type n =? node_type ARRAY.
Definition isUserRoot (n : HeapNode) : bool := negb (hn_type n =? node_type SYNTHETIC).
Definition isDocumentDOMTreesRoot (n : HeapNode) : bool :=
  negb (hn_type n =? node_type SYNTHETIC) && bool_decide (hn_name n = Some (js "(Document DOM trees)")).

Record HeapEdge := {
  he_edgeIndex : Z;
  he_type : Z;
  he_nameOrIndex : jsstring;
  he_nodeId : Z;
  he_fromNodeId : Z;
  he_toNodeId : Z;
}.

Definition edge_is (t : EdgeType) (e : HeapEdge) : bool := he_type e =? edge_type t.

Record HeapTraceFunctionInfo := {
  tf_id : Z; tf_index : Z; tf_name : Z; tf_scriptName : Z; tf_scriptId : Z; tf_line : Z; tf_column : Z;
}.

Record HeapSample := { hs_timestamp : Z; hs_lastAssignedId : Z; hs_size : Z }.

(** ** Rows of the database and their reading *)

Record node_row := {
  nr_nodeIndex : Z; nr_type : Z; nr_nameIdx : Z; nr_id : Z; nr_selfSize : Z; nr_edgeCount : Z;
  nr_traceNodeId : Z; nr_detachedness : Z;
}.

(** [loadNode]: the map from ids to nodes, in insertion order, and the id of the
    first row ([-1]: no row). *)
Definition loadNode_row (fileId : Z) (strings : list jsstring)
    (st : list (Z * HeapNode) * Z * Z) (row : node_row) : list (Z * HeapNode) * Z * Z :=
  let '(heapNodes, rootNodeId, firstEdgeIndex) := st in
  let node := new_HeapNode fileId (nr_nodeIndex row) (nr_type row) (zlookup (nr_nameIdx row) strings)
                (nr_id row) (nr_selfSize row) (nr_edgeCount row) (nr_traceNodeId row)
                (nr_detachedness row) firstEdgeIndex in
  (map_set heapNodes (hn_id node) node,
   if rootNodeId =? -1 then nr_id row else rootNodeId,
   firstEdgeIndex + nr_edgeCount row).

Definition loadNode (fileId : Z) (strings : list jsstring) (rows : list node_row) :
    list (Z * HeapNode) * Z * Z :=
  fold_left (loadNode_row fileId strings) rows ([], -1, 0).

(** ** The array of nodes, built by the constructor of [HeapLoader] *)

(** [nodes[value.nodeIndex] = value]: an array grows when it is assigned past its end. *)
Definition array_assign {A} (a : list (option A)) (i : nat) (v : A) : list (option A) :=
  if Nat.ltb i (length a) then <[i := Some v]> a
  else a ++ replicate (i - length a) None ++ [Some v].

Definition place_nodes (nodeCount : Z) (nodeMap : list (Z * HeapNode)) : list (option HeapNode) :=
  fold_left (fun a kv => array_assign a (Z.to_nat (hn_nodeIndex kv.2)) kv.2) nodeMap
            (replicate (Z.to_nat nodeCount) None).

(** Sorting by [nodeIndex] leaves placed nodes in order and moves the holes to
    the end.  [None]: there are holes, and the first loop over the nodes raises a
    TypeError (unless there is no node at all). Nodes that share an index are not
    modelled: the array would hold only the last of them. *)
Definition node_array (nodeCount : Z) (nodeMap : list (Z * HeapNode)) : option (list HeapNode) :=
  mapM id (place_nodes nodeCount nodeMap).

(** The index of a node, by id: the map of the loader, as references. *)
Definition node_index_map (nodes : list HeapNode) : gmap Z nat :=
  list_to_map (imap (fun i n => (hn_id n, i)) nodes).

(** ** Items of the views *)

Inductive ConstructorType := ClassType | InstanceType | FiledType | RetainersType | ComparisonType.

#[export] Instance ConstructorType_eq_dec : EqDecision ConstructorType.
Proof. solve_decision. Defined.

(** The plain fields of [ConstructorItem] that the logic reads or writes. *)
Record item_data := {
  ci_fileId : Z;
  ci_nodeName : option jsstring;
  ci_edgeName : jsstring;
  ci_childCount : Z;
  ci_distance : Z;
  ci_shallowSize : Z;
  ci_retainedSize : Z;
  ci_hasNext : bool;
  ci_edgeCount : Z;
  ci_edgeType : option Z;
  ci_type : option ConstructorType;
  ci_nodeType : option Z;
  ci_id : Z;
  ci_index : Z;
  ci_traceNodeId : Z;
}.

(** The fields [ConstructorComparison] adds. *)
Record comparison_data := {
  cc_targetFileId : Z;
  cc_addedCount : Z;
  cc_removedCount : Z;
  cc_deltaCount : Z;
  cc_addedSize : Z;
  cc_removedSize : Z;
  cc_deltaSize : Z;
  cc_deletedIdx : list Z;
  cc_addedIndx : list Z;
  cc_isAdd : bool;
}.

(** [ConstructorComparison], the class of every item the logic creates. *)
Inductive ConstructorItem := {
  ci : item_data;
  ci_parent : option ConstructorItem;
  ci_children : list ConstructorItem;
  ci_retains : list ConstructorItem;
  ci_classChildren : list ConstructorItem;
  cc : comparison_data;
}.

Definition no_comparison : comparison_data := {|
  cc_targetFileId := -1; cc_addedCount := 0; cc_removedCount := 0; cc_deltaCount := 0;
  cc_addedSize := 0; cc_removedSize := 0; cc_deltaSize := 0; cc_deletedIdx := [];
  cc_addedIndx := []; cc_isAdd := false |}.

Definition new_item (d : item_data) : ConstructorItem :=
  {| ci := d; ci_parent := None; ci_children := []; ci_retains := []; ci_classChildren := [];
     cc := no_comparison |}.

Definition default_data : item_data := {|
  ci_fileId := -1; ci_nodeName := Some []; ci_edgeName := []; ci_childCount := 1; ci_distance := -1;
  ci_shallowSize := -1; ci_retainedSize := -1; ci_hasNext := true; ci_edgeCount := 0;
  ci_edgeType := None; ci_type := None; ci_nodeType := None; ci_id := -1; ci_index := -1;
  ci_traceNodeId := -1 |}.

(** [HeapNodeToConstructorItem], the fields. *)
Definition HeapNodeToConstructorItem (node : HeapNode) : item_data := {|
  ci_fileId := hn_fileId node; ci_nodeName := nodeName node; ci_edgeName := []; ci_childCount := 1;
  ci_distance := hn_distance node; ci_shallowSize := hn_selfSize node;
  ci_retainedSize := hn_retainedSize node; ci_hasNext := true; ci_edgeCount := hn_edgeCount node;
  ci_edgeType := None; ci_type := None; ci_nodeType := Some (hn_type node); ci_id := hn_id node;
  ci_index := hn_nodeIndex node; ci_traceNodeId := -1 |}.

(** [clone]: the fields [cloneContent] copies; the others have their defaults. *)
Definition clone (d : item_data) : item_data := {|
  ci_fileId := ci_fileId d; ci_nodeName := ci_nodeName d; ci_edgeName := []; ci_childCount := ci_childCount d;
  ci_distance := ci_distance d; ci_shallowSize := ci_shallowSize d; ci_retainedSize := -1;
  ci_hasNext := ci_hasNext d; ci_edgeCount := ci_edgeCount d; ci_edgeType := ci_edgeType d;
  ci_type := None; ci_nodeType := None; ci_id := -1; ci_index := -1; ci_traceNodeId := -1 |}.

(** [isString] of an item. *)
Definition isString (d : item_data) : bool :=
  existsb (fun t => bool_decide (ci_nodeType d = Some (node_type t))) [STRING; CONCATENATED_STRING; SLICED_STRING].
