(* ===== verification/Grouping.v ===== *)
(** * Grouping the rows of a query

    Many analyses walk over rows and keep, in a [Map] or an object, a record per key
    that every row of the key updates ([map_accumulate] of [HeapModel]).  What such a
    record says of its rows follows here from what one update does: sums, the columns
    that the first row decides, and how the groups share out a total. *)

From S2P Require Import Prelude HeapModel.
Open Scope Z_scope.

(** [map.has(k) ? map.get(k).push(x) : map.set(k, [x])] *)
Definition push_to {X} (o : option (list X)) (x : X) : list X := default [] o ++ [x].

Section Folds.
Context {V X : Type} (upd : option V -> X -> V).

Notation run start l := (foldl (fun o x => Some (upd o x)) start l).

Lemma run_None l : run None l = None <-> l = [].
Proof.
  assert (Hs : forall l v, is_Some (run (Some v) l)) by (induction l0; cbn; eauto).
  destruct l as [|x l]; [done|]. cbn. destruct (Hs l (upd None x)) as [v ->]. done.
Qed.

(** A number that every element adds to. *)
Lemma run_sum (f : V -> Z) (g : X -> Z) (Hf : forall o x, f (upd o x) = from_option f 0 o + g x) l : forall o v,
  run o l = Some v -> f v = from_option f 0 o + zsum (g <$> l).
Proof.
  induction l as [|x l IH]; intros o v; cbn [foldl].
  - intros ->. cbn. lia.
  - intros E%IH. rewrite E, fmap_cons, zsum_cons. cbn [from_option]. rewrite Hf. lia.
Qed.

(** A column that the first element decides. *)
Lemma run_first {Y} (p : V -> Y) (q : X -> Y) (Hs : forall v x, p (upd (Some v) x) = p v) (Hn : forall x, p (upd None x) = q x) l v :
  run None l = Some v -> q <$> head l = Some (p v).
Proof.
  assert (Hk : forall l v0 v, run (Some v0) l = Some v -> p v = p v0).
  { induction l0 as [|x l0 IH]; intros v0 v1; cbn; [by intros [= ->]|]. intros E%IH. by rewrite E, Hs. }
  destruct l as [|x l]; [done|]. cbn. intros E%Hk. by rewrite E, Hn.
Qed.

(** A list that every element joins at the end. *)
Lemma run_log {Y} (p : V -> list Y) (q : X -> Y) (Hp : forall o x, p (upd o x) = from_option p [] o ++ [q x]) l : forall o v,
  run o l = Some v -> p v = from_option p [] o ++ (q <$> l).
Proof.
  induction l as [|x l IH]; intros o v; cbn [foldl].
  - intros ->. by rewrite app_nil_r.
  - intros E%IH. rewrite E. cbn [from_option]. by rewrite Hp, <- app_assoc.
Qed.

(** What every update makes true. *)
Lemma run_last (P : V -> Prop) (HP : forall o x, P (upd o x)) l v : run None l = Some v -> P v.
Proof. destruct l as [|x l _] using rev_ind; [done|]. rewrite foldl_snoc. by intros [= <-]. Qed.

Context {K : Type} `{EqDecision K} (key : X -> K).

Lemma map_set_sum (f : V -> Z) (m : list (K * V)) k v :
  zsum (f <$> (map_set m k v).*2) = zsum (f <$> m.*2) - from_option f 0 (map_get m k) + f v.
Proof.
  induction m as [|[k0 v0] m IH]; [cbn; lia|]. cbn [map_set map_get]. case_decide; rewrite !fmap_cons, !zsum_cons; cbn [snd from_option]; lia.
Qed.

(** The groups share out the sum. *)
Lemma accumulate_sum (f : V -> Z) (g : X -> Z) (Hf : forall o x, f (upd o x) = from_option f 0 o + g x) l : forall m,
  zsum (f <$> (map_accumulate key upd m l).*2) = zsum (f <$> m.*2) + zsum (g <$> l).
Proof.
  induction l as [|x l IH]; intros m; [symmetry; apply Z.add_0_r|]. rewrite fmap_cons, zsum_cons.
  change (map_accumulate key upd m (x :: l)) with (map_accumulate key upd (map_set m (key x) (upd (map_get m (key x)) x)) l).
  rewrite IH, map_set_sum, Hf. lia.
Qed.
End Folds.

(** Values that determine their keys are as different as the keys. *)
Lemma nodup_by_key {K V Y} (p : V -> Y) (h : Y -> K) (g : list (K * V)) :
  (forall k v, (k, v) ∈ g -> k = h (p v)) -> NoDup g.*1 -> NoDup (p <$> g.*2).
Proof.
  intros Hk HN. assert (E : g.*1 = h <$> (p <$> g.*2)).
  { clear HN. induction g as [|[k v] g IH]; [done|]. rewrite !fmap_cons, <- IH by (intros; apply Hk; by right).
    f_equal. apply Hk. by left. }
  rewrite E in HN. by apply NoDup_fmap_1 in HN.
Qed.

Lemma run_push {X} (l : list X) : forall o,
  foldl (fun o x => Some (push_to o x)) o l = match l with [] => o | _ => Some (default [] o ++ l) end.
Proof.
  induction l as [|x l IH]; intros o; [done|]. cbn [foldl]. rewrite IH. unfold push_to. destruct l; [done|]. f_equal.
  change (default [] (Some (default [] o ++ [x]))) with (default [] o ++ [x]). by rewrite <- app_assoc.
Qed.

Lemma zsum_concat (l : list (list Z)) : zsum (concat l) = zsum (zsum <$> l).
Proof. induction l as [|x l IH]; [done|]. cbn [concat fmap list_fmap]. by rewrite zsum_app, IH, zsum_cons. Qed.

Lemma foldl_sum {X} (g : X -> Z) l : forall a, foldl (fun a x => a + g x) a l = a + zsum (g <$> l).
Proof. induction l as [|x l IH]; intros a; cbn [foldl]; [symmetry; apply Z.add_0_r|]. rewrite IH, fmap_cons, zsum_cons. lia. Qed.

(** What a filter leaves out counts for nothing. *)
Lemma zsum_filter {X} (P : X -> Prop) `{!forall x, Decision (P x)} (f g : X -> Z) l :
  (forall x, P x -> f x = g x) -> (forall x, ~ P x -> g x = 0) -> zsum (f <$> filter P l) = zsum (g <$> l).
Proof.
  intros Hy Hn. induction l as [|x l IH]; [done|]. rewrite filter_cons, fmap_cons, zsum_cons.
  case_decide; [rewrite fmap_cons, zsum_cons, Hy by done; lia|rewrite Hn by done; lia].
Qed.

Lemma zsum_concat_map {X Y} (F : X -> list Y) (g : Y -> Z) (l : list X) :
  zsum (g <$> concat (F <$> l)) = zsum ((fun x => zsum (g <$> F x)) <$> l).
Proof. induction l as [|x l IH]; [done|]. rewrite !fmap_cons. cbn [concat]. by rewrite fmap_app, zsum_app, zsum_cons, IH. Qed.

Lemma zsum_ext {X} (f g : X -> Z) l : Forall (fun x => f x = g x) l -> zsum (f <$> l) = zsum (g <$> l).
Proof. induction 1 as [|x l E _ IH]; [done|]. by rewrite !fmap_cons, !zsum_cons, E, IH. Qed.

Lemma zsum_zero {X} (f : X -> Z) l : Forall (fun x => f x = 0) l -> zsum (f <$> l) = 0.
Proof. induction 1 as [|x l E _ IH]; [done|]. by rewrite fmap_cons, zsum_cons, E, IH. Qed.

Lemma zsum_filter_if {X} (P : X -> Prop) `{!forall x, Decision (P x)} (f : X -> Z) l :
  zsum (f <$> filter P l) = zsum ((fun x => if decide (P x) then f x else 0) <$> l).
Proof. apply zsum_filter; intros x Hx; [by rewrite decide_True|by rewrite decide_False]. Qed.

Lemma zsum_plus {X} (f g : X -> Z) l : zsum ((fun x => f x + g x) <$> l) = zsum (f <$> l) + zsum (g <$> l).
Proof. induction l as [|x l IH]; [done|]. rewrite !fmap_cons, !zsum_cons, IH. lia. Qed.

(** The same for the entries of some of the keys. *)
Lemma map_set_keyed_sum {K V} `{EqDecision K} (P : K -> bool) (f : V -> Z) (m : list (K * V)) k v :
  zsum ((fun kv => if P kv.1 then f kv.2 else 0) <$> map_set m k v) =
  zsum ((fun kv => if P kv.1 then f kv.2 else 0) <$> m) + (if P k then f v - from_option f 0 (map_get m k) else 0).
Proof.
  induction m as [|[k0 v0] m IH]; [cbn; destruct (P k); cbn; lia|]. cbn [map_set map_get].
  case_decide as E; rewrite !fmap_cons, !zsum_cons; cbn [fst snd from_option]; [subst; destruct (P k); lia|lia].
Qed.

Lemma accumulate_keyed_sum {K V X} `{EqDecision K} (key : X -> K) (upd : option V -> X -> V) (P : K -> bool) (f : V -> Z) (g : X -> Z)
    (Hf : forall o x, f (upd o x) = from_option f 0 o + g x) l : forall m,
  zsum ((fun kv => if P kv.1 then f kv.2 else 0) <$> map_accumulate key upd m l) =
  zsum ((fun kv => if P kv.1 then f kv.2 else 0) <$> m) + zsum ((fun x => if P (key x) then g x else 0) <$> l).
Proof.
  induction l as [|x l IH]; intros m; [symmetry; apply Z.add_0_r|]. rewrite fmap_cons, zsum_cons.
  change (map_accumulate key upd m (x :: l)) with (map_accumulate key upd (map_set m (key x) (upd (map_get m (key x)) x)) l).
  rewrite IH, map_set_keyed_sum, Hf. destruct (P (key x)); lia.
Qed.

Lemma map_set_same {K V} `{EqDecision K} (m : list (K * V)) k v : map_get m k = Some v -> map_set m k v = m.
Proof.
  induction m as [|[k0 v0] m IH]; [done|]. cbn [map_get map_set]. case_decide; [by intros [= ->]|]. intros E. by rewrite IH.
Qed.

(** Folding elements of one key into the first of them. *)
Definition fold_equal {X} (merge : X -> X -> X) (o : option X) (x : X) : X := match o with Some a => merge a x | None => x end.

Lemma run_fold_equal {X} (merge : X -> X -> X) (l : list X) : forall a,
  foldl (fun o x => Some (fold_equal merge o x)) (Some a) l = Some (foldl merge a l).
Proof. induction l as [|x l IH]; intros a; [done|]. cbn [foldl fold_equal]. apply IH. Qed.

(** A group comes first when its first element does, and the others do not see it. *)
Lemma accumulate_front {K V X} `{EqDecision K} (key : X -> K) (upd : option V -> X -> V) k v l : forall m,
  exists v', foldl (fun o x => Some (upd o x)) (Some v) (filter (fun x => key x = k) l) = Some v' /\
    map_accumulate key upd ((k, v) :: m) l = (k, v') :: map_accumulate key upd m (filter (fun x => key x <> k) l).
Proof.
  revert v. induction l as [|x l IH]; intros v m; [by exists v|]. rewrite !filter_cons. destruct (decide (key x = k)) as [E|E].
  - rewrite (decide_False (P := key x <> k)) by (intros ?; done). cbn [foldl]. destruct (IH (upd (Some v) x) m) as (v' & E1 & E2). exists v'. split; [done|].
    rewrite <- E2. unfold map_accumulate. cbn [foldl map_get map_set]. by rewrite E, !decide_True.
  - rewrite (decide_True (P := key x <> k)) by done. destruct (IH v (map_set m (key x) (upd (map_get m (key x)) x))) as (v' & E1 & E2). exists v'. split; [done|].
    etransitivity; [|exact E2]. unfold map_accumulate. cbn [foldl map_get map_set]. by rewrite !decide_False by congruence.
Qed.
