(* ===== verification/HeapRetainers.v ===== *)
(** * Edges and retainers of a heap snapshot

    [HeapLoader.buildNodeEdge] and [HeapLoader.buildRetainers]
    ([js-heap/logic/HeapLoader.ts]), and the in-place bucket fill that
    [buildRetainers] and [buildDominatedNode] share. *)

From S2P Require Import Prelude JsRuntime HeapModel.

(** ** Slots of a bucketed array *)

(** The loop that turns the counts of [first] into first slots, leaving each
    count in the first slot of its bucket. *)
Definition assign_slot (st : list Z * list Z * Z) (k : Z) : list Z * list Z * Z :=
  let '(first, arr, unused) := st in
  let count := u32_at first k in
  (u32_set first k unused, u32_set arr unused count, unused + count).

Definition assign_slots (keys : list Z) (first arr : list Z) : list Z * list Z :=
  (fold_left assign_slot keys (first, arr, 0)).1.

(** [first[k] + --arr[first[k]]]: the slot that takes the next member of bucket
    [k], and the array with the decremented counter. *)
Definition take_slot (first arr : list Z) (k : Z) : Z * list Z :=
  let s := u32_at first k in
  let c := u32_at arr s - 1 in
  (s + c, u32_set arr s c).

(** ** The two passes over the nodes *)

Section Snapshot.
Context (edges : list HeapEdge) (nodeMap : gmap Z nat).

(** [nodeMap.get(id)]: the reference and the node it denotes. *)
Definition get_node (nodes : list HeapNode) (id : Z) : option (nat * HeapNode) :=
  i ← nodeMap !! id; n ← nodes !! i; Some (i, n).

Definition buildNodeEdge_node (node : HeapNode) : HeapNode :=
  fold_left (fun node i =>
      let edgeIndex := hn_firstEdgeIndex node + i in
      if zlen edges >? edgeIndex then addEdge (Z.to_nat edgeIndex) node else node)
    (seqZ 0 (hn_edgeCount node)) node.

Definition buildNodeEdge (nodes : list HeapNode) : list HeapNode :=
  buildNodeEdge_node <$> nodes.

(** The state [buildRetainers] works on. *)
Record retainers := {
  rt_nodes : list HeapNode;
  rt_retainingNodes : list Z;
  rt_retainingEdges : list Z;
}.

Definition count_retainers (nodes : list HeapNode) (first : list Z) : list Z :=
  fold_left (fun first edge =>
      match get_node nodes (he_toNodeId edge) with
      | Some (_, toNode) => u32_set first (hn_nodeIndex toNode) (u32_at first (hn_nodeIndex toNode) + 1)
      | None => first
      end) edges first.

Definition push_retainer (nodeIdx edgeIdx : Z) (child : HeapNode) : HeapNode :=
  with_retains (hn_retainsEdgeIdx child ++ [edgeIdx]) (hn_retainsNodeIdx child ++ [nodeIdx]) child.

(** One edge of the fill loop. *)
Definition fill_edge (first : list Z) (rootIndex nodeIndex : Z) (st : retainers) (e : nat) : retainers :=
  match edges !! e with
  | None => st
  | Some edge =>
      match get_node (rt_nodes st) (he_toNodeId edge) with
      | None => st
      | Some (c, childNode) =>
          let nodes := if nodeIndex =? rootIndex then rt_nodes st
                       else <[c := push_retainer nodeIndex (he_edgeIndex edge) childNode]> (rt_nodes st) in
          let '(slot, retainingNodes) := take_slot first (rt_retainingNodes st) (hn_nodeIndex childNode) in
          {| rt_nodes := nodes;
             rt_retainingNodes := u32_set retainingNodes slot nodeIndex;
             rt_retainingEdges := u32_set (rt_retainingEdges st) slot (he_edgeIndex edge) |}
      end
  end.

Definition fill_node (first : list Z) (rootIndex : Z) (st : retainers) (i : nat) : retainers :=
  match rt_nodes st !! i with
  | None => st
  | Some node => fold_left (fill_edge first rootIndex (hn_nodeIndex node)) (hn_edges node) st
  end.

Definition fill_retainers (first : list Z) (rootIndex : Z) (st : retainers) : retainers :=
  fold_left (fill_node first rootIndex) (seq 0 (length (rt_nodes st))) st.

(** The arrays are those the constructor allocates; the result has
    [firstRetainerIndex] and the filled state. *)
Definition buildRetainers (nodeCount edgeCount rootIndex : Z) (nodes : list HeapNode) :
    list Z * retainers :=
  let first := count_retainers nodes (zeros (nodeCount + 1)) in
  let '(first, retainingNodes) := assign_slots (hn_nodeIndex <$> nodes) first (zeros edgeCount) in
  let first := u32_set first nodeCount (zlen retainingNodes) in
  (first, fill_retainers first rootIndex
            {| rt_nodes := nodes; rt_retainingNodes := retainingNodes;
               rt_retainingEdges := zeros edgeCount |}).
End Snapshot.

(** ** Reading and writing typed arrays *)

Definition is_u32 (z : Z) : Prop := 0 <= z < 2 ^ 32.

Lemma u32_at_nat a i : u32_at a (Z.of_nat i) = default 0 (a !! i).
Proof. unfold u32_at, zlookup. zcase; [lia|]. by rewrite Nat2Z.id. Qed.

Lemma u32_at_Some a i v : a !! i = Some v -> u32_at a (Z.of_nat i) = v.
Proof. intros H. by rewrite u32_at_nat, H. Qed.

Lemma u32_set_nat a i v : is_u32 v -> u32_set a (Z.of_nat i) v = <[i := v]> a.
Proof.
  intros Hv. unfold u32_set. zcase; [lia|]. unfold toUint32. rewrite Z.mod_small by apply Hv.
  by rewrite Nat2Z.id.
Qed.

Lemma length_u32_set a i v : length (u32_set a i v) = length a.
Proof. unfold u32_set. zcase; [done|]. apply length_insert. Qed.

Lemma zeros_lookup n i : (i < Z.to_nat n)%nat -> zeros n !! i = Some 0.
Proof. intros. by apply lookup_replicate_2. Qed.

(** ** Correctness of the bucket fill

    [c k] members go to bucket [k], whose slots start at [start c k]. *)

Fixpoint start (c : nat -> nat) (k : nat) : nat :=
  match k with O => O | S k' => start c k' + c k' end.

Lemma start_mono c j k : (j <= k)%nat -> (start c j <= start c k)%nat.
Proof. induction 1; simpl; lia. Qed.

Lemma start_disjoint c j k : (j < k)%nat -> (start c j + c j <= start c k)%nat.
Proof. intros H. apply (start_mono c (S j) k) in H. simpl in H. lia. Qed.

Lemma assign_slots_loop (c : nat -> nat) (n : nat) first arr :
  length first = S n -> (start c n <= length arr)%nat -> Z.of_nat (length arr) < 2 ^ 32 ->
  (forall k, (k < n)%nat -> first !! k = Some (Z.of_nat (c k))) ->
  forall m, (m <= n)%nat ->
  exists first' arr',
    fold_left assign_slot (Z.of_nat <$> seq 0 m) (first, arr, 0) = (first', arr', Z.of_nat (start c m)) /\
    length first' = S n /\ length arr' = length arr /\
    (forall k, (k < m)%nat -> first' !! k = Some (Z.of_nat (start c k))) /\
    (forall k, (m <= k < n)%nat -> first' !! k = Some (Z.of_nat (c k))) /\
    (forall k, (k < m)%nat -> (0 < c k)%nat -> arr' !! start c k = Some (Z.of_nat (c k))).
Proof.
  intros Hlen Hfit Hsmall Hfirst. induction m as [|m IH]; intros Hm.
  { exists first, arr. split_and!; try done; intros; try lia; apply Hfirst; lia. }
  destruct IH as (first' & arr' & Hfold & Hl1 & Hl2 & Hdone & Htodo & Harr); [lia|].
  rewrite seq_S, fmap_app, fold_left_app, Hfold. cbn [fold_left fmap list_fmap plus].
  pose proof (start_mono c m n ltac:(lia)) as Hsm. pose proof (start_disjoint c m n ltac:(lia)).
  unfold assign_slot. rewrite (u32_at_Some _ _ _ (Htodo m ltac:(lia))).
  rewrite !u32_set_nat by (unfold is_u32; lia).
  eexists _, _. split; [f_equal; simpl; lia|]. rewrite !length_insert.
  split_and!; try done.
  - intros k Hk. destruct (decide (k = m)) as [->|].
    + apply list_lookup_insert_eq. lia.
    + rewrite list_lookup_insert_ne by done. apply Hdone. lia.
  - intros k Hk. rewrite list_lookup_insert_ne by lia. apply Htodo. lia.
  - intros k Hk Hc. destruct (decide (k = m)) as [->|].
    + apply list_lookup_insert_eq. lia.
    + pose proof (start_disjoint c k m ltac:(lia)).
      rewrite list_lookup_insert_ne by lia. apply Harr; lia.
Qed.

Lemma assign_slots_spec (c : nat -> nat) (n : nat) first arr :
  length first = S n -> (start c n <= length arr)%nat -> Z.of_nat (length arr) < 2 ^ 32 ->
  (forall k, (k < n)%nat -> first !! k = Some (Z.of_nat (c k))) ->
  exists first' arr',
    assign_slots (Z.of_nat <$> seq 0 n) first arr = (first', arr') /\
    length first' = S n /\ length arr' = length arr /\
    (forall k, (k < n)%nat -> first' !! k = Some (Z.of_nat (start c k))) /\
    (forall k, (k < n)%nat -> (0 < c k)%nat -> arr' !! start c k = Some (Z.of_nat (c k))).
Proof.
  intros H1 H2 H3 H4. destruct (assign_slots_loop c n first arr H1 H2 H3 H4 n) as (f & a & Hf & H); [done|].
  exists f, a. unfold assign_slots. rewrite Hf. naive_solver.
Qed.

(** The members of bucket [k] among the items put so far, oldest first. *)
Definition members {A} (k : nat) (its : list (nat * A)) : list A :=
  snd <$> filter (fun it => it.1 = k) its.

Lemma members_app {A} k (l l' : list (nat * A)) : members k (l ++ l') = members k l ++ members k l'.
Proof. unfold members. by rewrite filter_app, fmap_app. Qed.

Lemma members_cons {A} k k' (x : A) l :
  members k ((k', x) :: l) = if decide (k' = k) then x :: members k l else members k l.
Proof. unfold members. rewrite filter_cons. simpl. by repeat case_decide. Qed.

(** Two parallel arrays in the middle of a fill. *)
Definition filling (c : nat -> nat) (n : nat) (its : list (nat * (Z * Z))) (arr arr2 : list Z) : Prop :=
  length arr = start c n /\ length arr2 = start c n /\
  forall k, (k < n)%nat ->
    (length (members k its) <= c k)%nat /\
    ((length (members k its) < c k)%nat ->
       arr !! start c k = Some (Z.of_nat (c k - length (members k its)))) /\
    (forall j v w, members k its !! j = Some (v, w) ->
       arr !! (start c k + c k - 1 - j)%nat = Some v /\ arr2 !! (start c k + c k - 1 - j)%nat = Some w).

Lemma filling_put c n its arr arr2 first k v w :
  filling c n its arr arr2 ->
  Z.of_nat (start c n) < 2 ^ 32 ->
  (k < n)%nat -> (length (members k its) < c k)%nat ->
  first !! k = Some (Z.of_nat (start c k)) -> is_u32 v -> is_u32 w ->
  exists slot arr', take_slot first arr (Z.of_nat k) = (slot, arr') /\
    filling c n (its ++ [(k, (v, w))]) (u32_set arr' slot v) (u32_set arr2 slot w).
Proof.
  intros (Hl1 & Hl2 & Hfill) Hsmall Hk Hroom Hfirst Hv Hw.
  pose proof (start_disjoint c k n Hk) as Hkn.
  destruct (Hfill k Hk) as (_ & Hcnt & _). specialize (Hcnt Hroom).
  unfold take_slot. rewrite (u32_at_Some _ _ _ Hfirst), (u32_at_Some _ _ _ Hcnt).
  eexists _, _. split; [done|].
  set (r := length (members k its)) in *.
  replace (Z.of_nat (c k - r) - 1) with (Z.of_nat (c k - 1 - r)) by lia.
  replace (Z.of_nat (start c k) + Z.of_nat (c k - 1 - r)) with (Z.of_nat (start c k + c k - 1 - r)) by lia.
  rewrite !u32_set_nat by (unfold is_u32 in *; lia).
  split_and!; rewrite ?length_insert; try done.
  intros k' Hk'. rewrite members_app, length_app. cbn [members].
  destruct (Hfill k' Hk') as (Hle & Hcnt' & Hput).
  destruct (decide (k' = k)) as [->|Hne].
  - unfold members at 2 4 6 8. cbn [filter list_filter]. rewrite decide_True by done. cbn [fmap list_fmap length snd].
    fold r. split_and!; [lia| |].
    + intros ?. rewrite list_lookup_insert_ne by lia. rewrite list_lookup_insert_eq by lia. f_equal; lia.
    + intros j v' w' Hj. apply lookup_app_Some in Hj as [Hj|[Hge Hj]].
      * pose proof (lookup_lt_Some _ _ _ Hj). fold r in H. destruct (Hput j v' w' Hj).
        rewrite !list_lookup_insert_ne by lia. done.
      * fold r in Hge, Hj. assert (j = r) as -> by (apply lookup_lt_Some in Hj; simpl in Hj; lia).
        rewrite Nat.sub_diag in Hj. injection Hj as <- <-.
        rewrite !list_lookup_insert_eq; rewrite ?length_insert; try lia. done.
  - unfold members at 2 4 6 8. cbn [filter list_filter]. rewrite decide_False by done. cbn [fmap list_fmap length].
    rewrite Nat.add_0_r, app_nil_r.
    assert (Hsep : (start c k' + c k' <= start c k)%nat \/ (start c k + c k <= start c k')%nat).
    { destruct (Nat.lt_ge_cases k' k); [left|right]; apply start_disjoint; lia. }
    split_and!; [done| |].
    + intros Hlt. specialize (Hcnt' Hlt). rewrite !list_lookup_insert_ne by lia. done.
    + intros j v' w' Hj. pose proof (lookup_lt_Some _ _ _ Hj). destruct (Hput j v' w' Hj).
      rewrite !list_lookup_insert_ne by lia. done.
Qed.

(** When all members are in, the bucket holds them newest first. *)
Lemma filling_done c n its arr arr2 k :
  filling c n its arr arr2 -> (k < n)%nat -> length (members k its) = c k ->
  take (c k) (drop (start c k) arr) = reverse (fst <$> members k its) /\
  take (c k) (drop (start c k) arr2) = reverse (snd <$> members k its).
Proof.
  intros (Hl1 & Hl2 & Hfill) Hk Hfull. pose proof (start_disjoint c k n Hk).
  destruct (Hfill k Hk) as (_ & _ & Hput).
  split; (apply list_eq_same_length with (c k);
    [by rewrite length_reverse, length_fmap | rewrite length_take, length_drop; lia |]);
  intros i x y Hi Hx Hy;
  rewrite lookup_take_lt, lookup_drop in Hx by lia;
  rewrite reverse_lookup in Hy by (rewrite length_fmap; lia);
  rewrite length_fmap, Hfull, list_lookup_fmap in Hy;
  destruct (members k its !! (c k - S i)%nat) as [[v w]|] eqn:E; try done;
  destruct (Hput _ _ _ E) as [Hp1 Hp2];
  replace (start c k + c k - 1 - (c k - S i))%nat with (start c k + i)%nat in * by lia;
  simpl in Hy; congruence.
Qed.

(** ** Well-formed snapshots

    What the loader relies on: the nodes stand at their index and are found
    under their id, every edge leads to a node, and the edge lists of the nodes,
    in order, are the table of edges.  [load_wf] below shows that the loaded
    tables of a consistent database have it. *)

Record snapshot_wf (edges : list HeapEdge) (nodeMap : gmap Z nat) (nodes : list HeapNode) : Prop := {
  wf_index : forall i n, nodes !! i = Some n -> hn_nodeIndex n = Z.of_nat i;
  wf_map : forall id i, nodeMap !! id = Some i <-> exists n, nodes !! i = Some n /\ hn_id n = id;
  wf_target : Forall (fun e => is_Some (nodeMap !! he_toNodeId e)) edges;
  wf_edges : concat (hn_edges <$> nodes) = seq 0 (length edges);
  wf_edgeIndex : Forall (fun e => is_u32 (he_edgeIndex e)) edges;
  wf_nodes_small : zlen nodes < 2 ^ 32;
  wf_edges_small : zlen edges < 2 ^ 32;
}.

Section Retainers.
Context (edges : list HeapEdge) (nodeMap : gmap Z nat).

(** The specification: the edges that lead to a node, in the order of the
    tables, each with the index of the node it comes from. *)
Definition edge_item (nodeIdx : Z) (e : nat) : option (nat * (Z * Z)) :=
  edge ← edges !! e; c ← nodeMap !! he_toNodeId edge; Some (c, (nodeIdx, he_edgeIndex edge)).

Definition node_items (n : HeapNode) : list (nat * (Z * Z)) :=
  omap (edge_item (hn_nodeIndex n)) (hn_edges n).

Definition edge_items (nodes : list HeapNode) : list (nat * (Z * Z)) :=
  concat (node_items <$> nodes).

Definition incoming (nodes : list HeapNode) (v : nat) : list (Z * Z) :=
  members v (edge_items nodes).

Definition targets : list nat := omap (fun edge => nodeMap !! he_toNodeId edge) edges.
Definition indegree (v : nat) : nat := length (filter (.= v) targets).

Lemma length_members {A} k (its : list (nat * A)) :
  length (members k its) = length (filter (.= k) (fst <$> its)).
Proof.
  induction its as [|[k' x] its IH]; [done|]. rewrite members_cons, fmap_cons, filter_cons. simpl.
  case_decide; simpl; by rewrite IH.
Qed.

Lemma edge_item_target nodeIdx e :
  fst <$> edge_item nodeIdx e = (edge ← edges !! e; nodeMap !! he_toNodeId edge).
Proof.
  unfold edge_item. destruct (edges !! e) as [edge|]; [|done]. simpl.
  by destruct (nodeMap !! he_toNodeId edge).
Qed.

Lemma edge_items_targets nodes :
  concat (hn_edges <$> nodes) = seq 0 (length edges) -> fst <$> edge_items nodes = targets.
Proof.
  intros Hseq. unfold targets. rewrite <- (omap_seq_lookup edges), <- Hseq. clear Hseq.
  unfold edge_items. induction nodes as [|n nodes IH]; [done|].
  rewrite !fmap_cons. cbn [concat]. rewrite fmap_app, omap_app, IH. f_equal.
  unfold node_items. rewrite fmap_omap. apply omap_ext. intros e _. apply edge_item_target.
Qed.

Lemma start_add_one c x n :
  start (fun k => c k + if decide (x = k) then 1 else 0)%nat n
  = (start c n + if decide (x < n)%nat then 1 else 0)%nat.
Proof. induction n as [|n IH]; [done|]. simpl. rewrite IH. repeat case_decide; lia. Qed.

Lemma start_ext c c' n : (forall k, (k < n)%nat -> c k = c' k) -> start c n = start c' n.
Proof. induction n; simpl; intros H; [done|]. rewrite IHn, H; auto with lia. Qed.

Lemma start_count (ks : list nat) n :
  Forall (fun k => (k < n)%nat) ks -> start (fun k => length (filter (.= k) ks)) n = length ks.
Proof.
  induction 1 as [|x ks Hx _ IH].
  - induction n as [|m IHm]; [done|]. cbn [start]. by rewrite IHm.
  - rewrite (start_ext _ (fun k => length (filter (.= k) ks) + if decide (x = k) then 1 else 0)%nat).
    + rewrite start_add_one, IH, decide_True by done. simpl. lia.
    + intros k _. rewrite filter_cons. case_decide; simpl; lia.
Qed.

Section Proofs.
Context (nodes : list HeapNode) (WF : snapshot_wf edges nodeMap nodes).
Let n := length nodes.

Lemma get_node_Some id i : nodeMap !! id = Some i -> exists nd, nodes !! i = Some nd.
Proof. intros H%(wf_map _ _ _ WF). naive_solver. Qed.

Lemma length_targets : length targets = length edges.
Proof.
  unfold targets. pose proof (wf_target _ _ _ WF) as HF. clear WF n.
  induction HF as [|e es [c Hc] _ IH]; [done|]. simpl. by rewrite Hc, <- IH.
Qed.

Lemma targets_lt : Forall (fun k => (k < n)%nat) targets.
Proof.
  apply Forall_forall. intros c (e & _ & He)%list_elem_of_omap.
  apply get_node_Some in He as [nd Hnd]. by apply lookup_lt_Some in Hnd.
Qed.

Lemma start_indegree : start indegree n = length edges.
Proof. rewrite <- length_targets. apply start_count, targets_lt. Qed.

Lemma indegree_incoming v : length (incoming nodes v) = indegree v.
Proof.
  unfold incoming, indegree. rewrite length_members.
  by rewrite edge_items_targets by apply (wf_edges _ _ _ WF).
Qed.

(** The counting pass. *)
Lemma count_retainers_prefix (es : list HeapEdge) : forall first,
  Forall (fun e => is_Some (nodeMap !! he_toNodeId e)) es ->
  length first = S n ->
  (forall k x, first !! k = Some x -> 0 <= x /\ x + zlen es < 2 ^ 32) ->
  let first' := count_retainers es nodeMap nodes first in
  length first' = S n /\
  forall k x, first !! k = Some x ->
    first' !! k = Some (x + Z.of_nat (length (filter (.= k) (omap (fun e => nodeMap !! he_toNodeId e) es)))).
Proof.
  induction es as [|e es IH]; intros first HF Hlen Hb; simpl.
  { split; [done|]. intros k x ->. f_equal. lia. }
  apply Forall_cons in HF as [[c Hc] HF]. rewrite Hc.
  destruct (get_node_Some _ _ Hc) as [nd Hnd]. unfold get_node. rewrite Hc. simpl. rewrite Hnd. simpl.
  rewrite (wf_index _ _ _ WF _ _ Hnd).
  assert (Hcn : (c < S n)%nat) by (apply lookup_lt_Some in Hnd; unfold n; lia).
  destruct (lookup_lt_is_Some_2 first c) as [x Hx]; [lia|].
  rewrite (u32_at_Some _ _ _ Hx). destruct (Hb c x Hx) as [Hx0 Hx1].
  rewrite zlen_cons in Hx1. pose proof (zlen_nonneg es).
  rewrite u32_set_nat by (unfold is_u32; lia).
  destruct (IH (<[c := x + 1]> first)) as [IH1 IH2]; [done|by rewrite length_insert| |].
  { intros k y Hy. apply list_lookup_insert_Some in Hy as [(-> & <- & _)|[_ Hy]]; [lia|].
    apply Hb in Hy. rewrite zlen_cons in Hy. lia. }
  split; [done|]. intros k y Hy. rewrite filter_cons. case_decide as Hd.
  - subst k. rewrite (IH2 c (x + 1)); [simplify_eq; f_equal; rewrite length_cons; unfold omap; lia|].
    apply list_lookup_insert_eq. lia.
  - rewrite (IH2 k y); [done|]. by rewrite list_lookup_insert_ne.
Qed.

Lemma count_retainers_spec k :
  (k < n)%nat ->
  count_retainers edges nodeMap nodes (zeros (Z.of_nat n + 1)) !! k = Some (Z.of_nat (indegree k)).
Proof.
  intros Hk.
  destruct (count_retainers_prefix edges (zeros (Z.of_nat n + 1))) as [_ H].
  - apply (wf_target _ _ _ WF).
  - unfold zeros. rewrite length_replicate. lia.
  - intros j x [-> _]%lookup_replicate. split; [lia|]. apply (wf_edges_small _ _ _ WF).
  - rewrite (H k 0); [done|]. apply zeros_lookup. lia.
Qed.

Lemma count_retainers_length :
  length (count_retainers edges nodeMap nodes (zeros (Z.of_nat n + 1))) = S n.
Proof.
  apply count_retainers_prefix.
  - apply (wf_target _ _ _ WF).
  - unfold zeros. rewrite length_replicate. lia.
  - intros j x [-> _]%lookup_replicate. split; [lia|]. apply (wf_edges_small _ _ _ WF).
Qed.
(** The filling pass.  [retained root p] gives every node the retainers among
    the items [p]. *)
Definition not_from (root : Z) (p : Z * Z) : Prop := p.1 <> root.
#[local] Instance not_from_dec root p : Decision (not_from root p).
Proof. unfold not_from. apply _. Defined.

Definition add_retains (r : list (Z * Z)) (nd : HeapNode) : HeapNode :=
  with_retains (hn_retainsEdgeIdx nd ++ (snd <$> r)) (hn_retainsNodeIdx nd ++ (fst <$> r)) nd.

Definition retained (root : Z) (p : list (nat * (Z * Z))) : list HeapNode :=
  imap (fun i nd => add_retains (filter (not_from root) (members i p)) nd) nodes.

Lemma retained_lookup root p i :
  retained root p !! i = add_retains (filter (not_from root) (members i p)) <$> nodes !! i.
Proof. unfold retained. by rewrite list_lookup_imap. Qed.

Lemma add_retains_fixed r nd :
  hn_nodeIndex (add_retains r nd) = hn_nodeIndex nd /\ hn_edges (add_retains r nd) = hn_edges nd.
Proof. by destruct nd. Qed.

Lemma push_add_retains a b r nd :
  push_retainer a b (add_retains r nd) = add_retains (r ++ [(a, b)]) nd.
Proof.
  destruct nd. unfold push_retainer, add_retains. simpl. rewrite !fmap_app. simpl. by rewrite !app_assoc.
Qed.

Lemma retained_put root p c nd a b :
  nodes !! c = Some nd ->
  (if a =? root then retained root p
   else <[c := push_retainer a b (add_retains (filter (not_from root) (members c p)) nd)]> (retained root p))
  = retained root (p ++ [(c, (a, b))]).
Proof.
  intros Hc. apply list_eq. intros i.
  assert (Hi : retained root (p ++ [(c, (a, b))]) !! i =
    add_retains (filter (not_from root) (members i p) ++
       if decide (c = i) then (if a =? root then [] else [(a, b)]) else []) <$> nodes !! i).
  { rewrite retained_lookup, members_app, members_cons, filter_app. f_equal. f_equal.
    destruct (decide (c = i)); [|done]. rewrite filter_cons. unfold not_from at 2. simpl.
    zcase; by case_decide. }
  rewrite Hi. destruct (Z.eqb_spec a root).
  - rewrite retained_lookup. case_decide; by rewrite app_nil_r.
  - case_decide as Hci; [subst i|].
    + rewrite push_add_retains, list_lookup_insert_eq, Hc; [done|].
      unfold retained. rewrite length_imap. by apply lookup_lt_Some in Hc.
    + rewrite app_nil_r, list_lookup_insert_ne by done. apply retained_lookup.
Qed.

Definition fill_inv (root : Z) (p : list (nat * (Z * Z))) (st : retainers) : Prop :=
  rt_nodes st = retained root p /\
  filling indegree n p (rt_retainingNodes st) (rt_retainingEdges st).

Context (first : list Z) (root : Z).
Context (Hfirst : forall k, (k < n)%nat -> first !! k = Some (Z.of_nat (start indegree k))).

Lemma fill_edge_inv nodeIdx e it p q st :
  is_u32 nodeIdx -> edge_item nodeIdx e = Some it -> edge_items nodes = p ++ it :: q ->
  fill_inv root p st -> fill_inv root (p ++ [it]) (fill_edge edges nodeMap first root nodeIdx st e).
Proof.
  intros Hu Hit Hitems [Hn Hf]. unfold edge_item in Hit. unfold fill_edge.
  destruct (edges !! e) as [edge|] eqn:He; [|done]. simpl in Hit.
  destruct (nodeMap !! he_toNodeId edge) as [c|] eqn:Hc; [|done]. simpl in Hit. injection Hit as <-.
  destruct (get_node_Some _ _ Hc) as [nd Hnd]. pose proof (lookup_lt_Some _ _ _ Hnd).
  assert (get_node nodeMap (rt_nodes st) (he_toNodeId edge)
          = Some (c, add_retains (filter (not_from root) (members c p)) nd)) as ->.
  { unfold get_node. rewrite Hc. simpl. by rewrite Hn, retained_lookup, Hnd. }
  rewrite (proj1 (add_retains_fixed _ _)), (wf_index _ _ _ WF _ _ Hnd), Hn.
  destruct (filling_put indegree n p _ _ first c nodeIdx (he_edgeIndex edge) Hf) as (slot & arr & -> & Hput).
  - rewrite start_indegree. apply (wf_edges_small _ _ _ WF).
  - done.
  - rewrite <- indegree_incoming. unfold incoming. rewrite Hitems, members_app, length_app, members_cons.
    rewrite decide_True by done. simpl. lia.
  - by apply Hfirst.
  - done.
  - pose proof (wf_edgeIndex _ _ _ WF) as HF. rewrite Forall_lookup in HF. by eapply HF.
  - split; [|done]. by apply retained_put.
Qed.

Lemma edge_item_Some nodeIdx e :
  (e < length edges)%nat -> exists it, edge_item nodeIdx e = Some it.
Proof.
  intros [edge He]%lookup_lt_is_Some. unfold edge_item. rewrite He. simpl.
  pose proof (wf_target _ _ _ WF) as HF. rewrite Forall_lookup in HF.
  destruct (HF _ _ He) as [c ->]. by eexists.
Qed.

Lemma fill_edges_inv nodeIdx es : forall p q st,
  is_u32 nodeIdx -> Forall (fun e => (e < length edges)%nat) es ->
  edge_items nodes = p ++ omap (edge_item nodeIdx) es ++ q ->
  fill_inv root p st ->
  fill_inv root (p ++ omap (edge_item nodeIdx) es) (fold_left (fill_edge edges nodeMap first root nodeIdx) es st).
Proof.
  induction es as [|e es IH]; intros p q st Hu HF Hitems Hinv; cbn [omap list_omap fold_left].
  { by rewrite app_nil_r. }
  apply Forall_cons in HF as [He HF]. destruct (edge_item_Some nodeIdx e He) as [it Hit].
  rewrite Hit in *. cbn [omap list_omap] in Hitems. rewrite Hit in Hitems.
  rewrite cons_middle, app_assoc. apply (IH _ q); [done|done| |].
  - by rewrite <- app_assoc.
  - by eapply fill_edge_inv.
Qed.

Lemma node_edges_lt nd : nd ∈ nodes -> Forall (fun e => (e < length edges)%nat) (hn_edges nd).
Proof.
  intros Hin. apply Forall_forall. intros e He.
  assert (Hc : e ∈ concat (hn_edges <$> nodes)).
  { apply list_elem_of_In, in_concat. exists (hn_edges nd). rewrite <- !list_elem_of_In.
    split; [by apply list_elem_of_fmap_2|done]. }
  rewrite (wf_edges _ _ _ WF) in Hc. apply elem_of_seq in Hc. lia.
Qed.

Lemma edge_items_take i nd :
  nodes !! i = Some nd ->
  edge_items nodes = edge_items (take i nodes) ++ node_items nd ++ edge_items (drop (S i) nodes).
Proof.
  intros Hi. rewrite <- (take_drop_middle nodes i nd Hi) at 1.
  unfold edge_items. rewrite fmap_app, concat_app, fmap_cons. done.
Qed.

Lemma fill_nodes_inv st : forall m, (m <= n)%nat ->
  fill_inv root [] st ->
  fill_inv root (edge_items (take m nodes)) (fold_left (fill_node edges nodeMap first root) (seq 0 m) st).
Proof.
  induction m as [|m IH]; intros Hm Hst; [done|].
  rewrite seq_S, fold_left_app. cbn [fold_left plus].
  destruct (lookup_lt_is_Some_2 nodes m) as [nd Hnd]; [unfold n in *; lia|].
  specialize (IH ltac:(lia) Hst). set (st' := fold_left _ _ st) in *.
  rewrite (take_S_r _ _ _ Hnd). unfold edge_items at 1.
  rewrite fmap_app, concat_app. cbn [fmap list_fmap concat]. rewrite app_nil_r.
  fold (edge_items (take m nodes)).
  unfold fill_node. rewrite (proj1 IH), retained_lookup, Hnd. cbn [fmap option_fmap option_map].
  rewrite (proj1 (add_retains_fixed _ _)), (proj2 (add_retains_fixed _ _)).
  eapply fill_edges_inv; [| | |done].
  - rewrite (wf_index _ _ _ WF _ _ Hnd). pose proof (wf_nodes_small _ _ _ WF).
    unfold is_u32, zlen, n in *. lia.
  - apply node_edges_lt. by eapply list_elem_of_lookup_2.
  - rewrite (edge_items_take _ _ Hnd). reflexivity.
Qed.
End Proofs.
End Retainers.

(** ** The loaded snapshot is well formed *)

(** A consistent database: rows in index order with distinct ids, as many edges
    as the rows announce, and every edge leading to a row. *)
Record rows_ok (rows : list node_row) (edges : list HeapEdge) : Prop := {
  ro_index : forall i r, rows !! i = Some r -> nr_nodeIndex r = Z.of_nat i;
  ro_ids : NoDup (nr_id <$> rows);
  ro_counts : Forall (fun r => 0 <= nr_edgeCount r) rows;
  ro_total : sum_list_with (fun r => Z.to_nat (nr_edgeCount r)) rows = length edges;
  ro_targets : Forall (fun e => he_toNodeId e ∈ nr_id <$> rows) edges;
  ro_edgeIndex : Forall (fun e => is_u32 (he_edgeIndex e)) edges;
  ro_small : zlen rows < 2 ^ 32 /\ zlen edges < 2 ^ 32;
}.

(** The nodes that [loadNode] creates, in row order. *)
Fixpoint row_nodes (fileId : Z) (strings : list jsstring) (first : Z) (rows : list node_row) : list HeapNode :=
  match rows with
  | [] => []
  | r :: rows' =>
      new_HeapNode fileId (nr_nodeIndex r) (nr_type r) (zlookup (nr_nameIdx r) strings) (nr_id r)
        (nr_selfSize r) (nr_edgeCount r) (nr_traceNodeId r) (nr_detachedness r) first
      :: row_nodes fileId strings (first + nr_edgeCount r) rows'
  end.

Lemma map_set_fresh {K V} `{EqDecision K} (m : list (K * V)) k v :
  k ∉ (fst <$> m) -> map_set m k v = m ++ [(k, v)].
Proof.
  induction m as [|[k' v'] m IH]; [done|]. rewrite fmap_cons, not_elem_of_cons. intros [Hne Hk]. simpl.
  rewrite decide_False by (simpl in Hne; congruence). by rewrite IH.
Qed.

Lemma loadNode_rows fileId strings rows : forall m root first,
  NoDup ((fst <$> m) ++ (nr_id <$> rows)) ->
  exists root' first', fold_left (loadNode_row fileId strings) rows (m, root, first)
    = (m ++ ((fun nd => (hn_id nd, nd)) <$> row_nodes fileId strings first rows), root', first').
Proof.
  induction rows as [|r rows IH]; intros m root first Hnd; simpl.
  { rewrite app_nil_r. by eexists _, _. }
  rewrite fmap_cons in Hnd. pose proof Hnd as (_ & Hdisj & _)%NoDup_app.
  rewrite map_set_fresh by set_solver.
  edestruct IH as (root' & first' & ->).
  - rewrite fmap_app, <- app_assoc. exact Hnd.
  - rewrite <- app_assoc. by eexists _, _.
Qed.

Lemma row_nodes_lookup fileId strings rows : forall first i,
  (fun nd => (hn_nodeIndex nd, hn_id nd)) <$> row_nodes fileId strings first rows !! i
  = (fun r => (nr_nodeIndex r, nr_id r)) <$> rows !! i.
Proof. induction rows as [|r rows IH]; intros first [|i]; try done. simpl. apply IH. Qed.

Lemma length_row_nodes fileId strings rows : forall first,
  length (row_nodes fileId strings first rows) = length rows.
Proof. induction rows; intros; simpl; auto. Qed.

Lemma row_nodes_ids fileId strings rows : forall first,
  hn_id <$> row_nodes fileId strings first rows = nr_id <$> rows.
Proof. induction rows as [|r rows IH]; intros; [done|]. simpl. f_equal. apply IH. Qed.

Lemma place_nodes_in_order (l : list (Z * HeapNode)) :
  (forall i kv, l !! i = Some kv -> hn_nodeIndex kv.2 = Z.of_nat i) ->
  node_array (zlen l) l = Some (snd <$> l).
Proof.
  intros Hidx. unfold node_array, place_nodes, zlen. rewrite Nat2Z.id.
  assert (Hpre : forall k, (k <= length l)%nat ->
    fold_left (fun a kv => array_assign a (Z.to_nat (hn_nodeIndex kv.2)) kv.2) (take k l)
              (replicate (length l) None)
    = (Some <$> (snd <$> take k l)) ++ replicate (length l - k) None).
  { induction k as [|k IH]; intros Hk; [by rewrite Nat.sub_0_r|].
    destruct (lookup_lt_is_Some_2 l k) as [kv Hkv]; [lia|].
    rewrite (take_S_r _ _ _ Hkv), fold_left_app, IH by lia. cbn [fold_left].
    rewrite (Hidx _ _ Hkv), Nat2Z.id. unfold array_assign.
    rewrite length_app, !length_fmap, length_take, length_replicate.
    destruct (Nat.ltb_spec k (k `min` length l + (length l - k))); [|lia].
    rewrite insert_app_r_alt by (rewrite !length_fmap, length_take; lia).
    rewrite !length_fmap, length_take, Nat.min_l, Nat.sub_diag by lia.
    replace (length l - k)%nat with (S (length l - S k)) by lia. simpl.
    rewrite !fmap_app, <- app_assoc. done. }
  specialize (Hpre (length l) ltac:(done)). rewrite firstn_all, Nat.sub_diag, app_nil_r in Hpre.
  rewrite Hpre. apply mapM_Some. rewrite Forall2_fmap_l. by apply Forall_Forall2_diag, Forall_true.
Qed.

(** ** Edge lists *)

Lemma addEdge_range (edges : list HeapEdge) nd : forall k f,
  0 <= f -> f = hn_firstEdgeIndex nd -> f + Z.of_nat k <= zlen edges ->
  hn_edges nd = [] ->
  fold_left (fun node i =>
      let edgeIndex := hn_firstEdgeIndex node + i in
      if zlen edges >? edgeIndex then addEdge (Z.to_nat edgeIndex) node else node)
    (Z.of_nat <$> seq 0 k) nd = with_edges (seq (Z.to_nat f) k) nd.
Proof.
  induction k as [|k IH]; intros f Hf Hfn Hfit Hnil.
  { destruct nd; simpl in *; by subst. }
  rewrite (seq_S k 0), fmap_app, fold_left_app, (IH f) by (try done; lia). cbn [fold_left fmap list_fmap plus].
  assert (hn_firstEdgeIndex (with_edges (seq (Z.to_nat f) k) nd) = f) as -> by (destruct nd; by subst).
  rewrite Z.gtb_ltb. destruct (Z.ltb_spec (f + Z.of_nat k) (zlen edges)); [|lia].
  unfold addEdge. rewrite bool_decide_false.
  - rewrite (seq_S k (Z.to_nat f)). destruct nd; simpl. do 3 f_equal. lia.
  - destruct nd; simpl. rewrite elem_of_seq. lia.
Qed.

Lemma seqZ_of_nat k : 0 <= k -> seqZ 0 k = Z.of_nat <$> seq 0 (Z.to_nat k).
Proof.
  intros. unfold seqZ. apply list_fmap_ext. intros. lia.
Qed.

Lemma buildNodeEdge_edges edges nd :
  0 <= hn_firstEdgeIndex nd -> 0 <= hn_edgeCount nd ->
  hn_firstEdgeIndex nd + hn_edgeCount nd <= zlen edges -> hn_edges nd = [] ->
  buildNodeEdge_node edges nd
  = with_edges (seq (Z.to_nat (hn_firstEdgeIndex nd)) (Z.to_nat (hn_edgeCount nd))) nd.
Proof.
  intros. unfold buildNodeEdge_node. rewrite seqZ_of_nat by done. apply addEdge_range; try done. lia.
Qed.

Lemma concat_row_edges edges fileId strings rows : forall first,
  0 <= first -> Forall (fun r => 0 <= nr_edgeCount r) rows ->
  first + Z.of_nat (sum_list_with (fun r => Z.to_nat (nr_edgeCount r)) rows) <= zlen edges ->
  concat (hn_edges <$> buildNodeEdge edges (row_nodes fileId strings first rows))
  = seq (Z.to_nat first) (sum_list_with (fun r => Z.to_nat (nr_edgeCount r)) rows) /\
  forall i nd, buildNodeEdge edges (row_nodes fileId strings first rows) !! i = Some nd ->
    exists nd', row_nodes fileId strings first rows !! i = Some nd' /\
      hn_nodeIndex nd = hn_nodeIndex nd' /\ hn_id nd = hn_id nd'.
Proof.
  induction rows as [|r rows IH]; intros first Hf HF Hfit; [done|].
  apply Forall_cons in HF as [Hr HF]. cbn [sum_list_with] in *. cbn [row_nodes buildNodeEdge fmap list_fmap].
  rewrite buildNodeEdge_edges by (cbn [hn_firstEdgeIndex hn_edgeCount hn_edges new_HeapNode]; try done; lia).
  destruct (IH (first + nr_edgeCount r)) as [IHc IHi]; [lia|done|lia|]. split.
  - cbn [concat hn_edges with_edges new_HeapNode hn_firstEdgeIndex hn_edgeCount].
    rewrite seq_app. f_equal. unfold buildNodeEdge in IHc. rewrite Z2Nat.inj_add in IHc by lia. exact IHc.
  - intros [|i] nd; simpl.
    + intros [= <-]. by eexists.
    + apply IHi.
Qed.

(** Edges of a node: a range of the table. *)
Definition spans_ok (edges : list HeapEdge) (nodes : list HeapNode) : Prop :=
  forall i n, nodes !! i = Some n ->
    0 <= hn_firstEdgeIndex n /\ 0 <= hn_edgeCount n /\ hn_firstEdgeIndex n + hn_edgeCount n <= zlen edges /\
    hn_edges n = seq (Z.to_nat (hn_firstEdgeIndex n)) (Z.to_nat (hn_edgeCount n)).

Lemma row_nodes_spans edges fileId strings rows : forall first,
  0 <= first -> Forall (fun r => 0 <= nr_edgeCount r) rows ->
  first + Z.of_nat (sum_list_with (fun r => Z.to_nat (nr_edgeCount r)) rows) <= zlen edges ->
  spans_ok edges (buildNodeEdge edges (row_nodes fileId strings first rows)).
Proof.
  induction rows as [|r rows IH]; intros first Hf HF Hfit; [intros i n; done|].
  apply Forall_cons in HF as [Hr HF]. cbn [sum_list_with] in *. cbn [row_nodes buildNodeEdge fmap list_fmap].
  rewrite buildNodeEdge_edges by (cbn [hn_firstEdgeIndex hn_edgeCount hn_edges new_HeapNode]; try done; lia).
  intros [|i] nd; simpl.
  - intros [= <-]. cbn. split_and!; [done|done|lia|done].
  - apply (IH (first + nr_edgeCount r)); [lia|done|lia].
Qed.

Lemma row_nodes_index fileId strings rows edges i nd :
  rows_ok rows edges -> row_nodes fileId strings 0 rows !! i = Some nd -> hn_nodeIndex nd = Z.of_nat i.
Proof.
  intros Hok Hi. pose proof (row_nodes_lookup fileId strings rows 0 i) as Hl.
  rewrite Hi in Hl. destruct (rows !! i) as [r|] eqn:Hr; [|done]. simpl in Hl.
  injection Hl as -> _. by eapply ro_index.
Qed.

(** The node array of a consistent database has no holes. *)
Lemma load_array fileId strings rows edges :
  rows_ok rows edges ->
  node_array (zlen rows) (loadNode fileId strings rows).1.1 = Some (row_nodes fileId strings 0 rows).
Proof.
  intros Hok. destruct (loadNode_rows fileId strings rows [] (-1) 0) as (root & first & Hload); [apply Hok|].
  unfold loadNode. rewrite Hload. cbn [fst]. rewrite app_nil_l.
  pose proof (row_nodes_index fileId strings rows edges) as Hnidx. set (nodes := row_nodes _ _ _ _) in *.
  assert (Hlen : length nodes = length rows) by apply length_row_nodes.
  replace (zlen rows) with (zlen ((fun nd => (hn_id nd, nd)) <$> nodes)) by (unfold zlen; rewrite length_fmap; lia).
  rewrite place_nodes_in_order.
  - rewrite <- list_fmap_compose. f_equal. apply list_fmap_id.
  - intros i kv. rewrite list_lookup_fmap. destruct (nodes !! i) as [nd|] eqn:E; [|done].
    intros [= <-]. by apply Hnidx.
Qed.

(** Reading the tables of a consistent database gives a well-formed snapshot. *)
Lemma load_wf fileId strings rows edges :
  rows_ok rows edges ->
  exists nodes, node_array (zlen rows) (loadNode fileId strings rows).1.1 = Some nodes /\
    length nodes = length rows /\
    snapshot_wf edges (node_index_map (buildNodeEdge edges nodes)) (buildNodeEdge edges nodes) /\
    spans_ok edges (buildNodeEdge edges nodes).
Proof.
  intros Hok. pose proof Hok as [_ _ Hcnt Htot Htgt Hei [Hs1 Hs2]].
  pose proof (ro_ids _ _ Hok) as Hids.
  set (nodes := row_nodes fileId strings 0 rows).
  assert (Hlen : length nodes = length rows) by apply length_row_nodes.
  assert (Hnidx : forall i nd, nodes !! i = Some nd -> hn_nodeIndex nd = Z.of_nat i)
    by (intros; by eapply row_nodes_index).
  destruct (concat_row_edges edges fileId strings rows 0) as [Hcat Hfix]; [lia|done|unfold zlen; lia|].
  fold nodes in Hcat, Hfix. exists nodes.
  split_and!; [by eapply load_array|done| |apply row_nodes_spans; [lia|done|unfold zlen; lia]].
  - set (nodes' := buildNodeEdge edges nodes) in *.
    assert (Hids' : hn_id <$> nodes' = nr_id <$> rows).
    { rewrite <- (row_nodes_ids fileId strings rows 0). fold nodes. apply list_eq_same_length with (length nodes).
      - by rewrite length_fmap.
      - by unfold nodes', buildNodeEdge; rewrite !length_fmap.
      - intros i x y _. rewrite !list_lookup_fmap. destruct (nodes' !! i) as [nd|] eqn:E; [|done].
        destruct (Hfix _ _ E) as (nd' & E' & _ & Hid). rewrite E'. simpl. congruence. }
    assert (Hmap : forall id i, node_index_map nodes' !! id = Some i <-> exists nd, nodes' !! i = Some nd /\ hn_id nd = id).
    { intros id i. unfold node_index_map. rewrite <- elem_of_list_to_map.
      - rewrite list_elem_of_lookup. setoid_rewrite list_lookup_imap. split.
        + intros [j Hj]. destruct (nodes' !! j) eqn:E; [|done]. simpl in Hj. simplify_eq. eauto.
        + intros (nd & Hi & <-). exists i. by rewrite Hi.
      - rewrite fmap_imap. replace (imap _ nodes') with (hn_id <$> nodes'); [by rewrite Hids'|].
        apply list_eq. intros j. rewrite list_lookup_imap, list_lookup_fmap. by destruct (nodes' !! j). }
    split; try done.
    + intros i nd Hi. destruct (Hfix _ _ Hi) as (nd' & Hi' & -> & _). by apply Hnidx.
    + eapply Forall_impl; [exact Htgt|]. intros e He. cbn beta in He. rewrite <- Hids' in He.
      apply list_elem_of_fmap in He as (nd & -> & [i Hi]%list_elem_of_lookup). exists i.
      apply Hmap. eauto.
    + rewrite Hcat. by rewrite Htot.
    + unfold zlen in *. unfold nodes', buildNodeEdge. rewrite length_fmap. lia.
Qed.

(** ** The retainers of a snapshot *)

Section BuildRetainers.
Context (edges : list HeapEdge) (nodeMap : gmap Z nat) (nodes : list HeapNode).
Context (WF : snapshot_wf edges nodeMap nodes).

Lemma node_indices : hn_nodeIndex <$> nodes = Z.of_nat <$> seq 0 (length nodes).
Proof.
  apply list_eq. intros i. rewrite !list_lookup_fmap. destruct (nodes !! i) as [nd|] eqn:E.
  - rewrite lookup_seq_lt by (by apply lookup_lt_Some in E). simpl. f_equal. by apply (wf_index _ _ _ WF).
  - apply lookup_ge_None in E. by rewrite lookup_seq_ge.
Qed.

Lemma filling_start c n arr arr2 :
  length arr = start c n -> length arr2 = start c n ->
  (forall k, (k < n)%nat -> (0 < c k)%nat -> arr !! start c k = Some (Z.of_nat (c k))) ->
  filling c n [] arr arr2.
Proof.
  intros H1 H2 H3. split_and!; try done. intros k Hk. split_and!; try done.
  - simpl. lia.
  - intros. rewrite Nat.sub_0_r. by apply H3.
Qed.

(** What [buildRetainers] leaves behind, for every node. *)
Lemma buildRetainers_spec root :
  exists first st, buildRetainers edges nodeMap (zlen nodes) (zlen edges) root nodes = (first, st) /\
    length first = S (length nodes) /\
    (forall k, (k <= length nodes)%nat -> first !! k = Some (Z.of_nat (start (indegree edges nodeMap) k))) /\
    fill_inv edges nodeMap nodes root (edge_items edges nodeMap nodes) st.
Proof.
  unfold buildRetainers. set (n := length nodes). set (c := indegree edges nodeMap).
  pose proof (start_indegree edges nodeMap nodes WF) as Hst. fold n c in Hst.
  pose proof (wf_edges_small _ _ _ WF) as Hsmall.
  rewrite node_indices. change (zlen nodes) with (Z.of_nat n). fold n.
  destruct (assign_slots_spec c n (count_retainers edges nodeMap nodes (zeros (Z.of_nat n + 1)))
    (zeros (zlen edges))) as (first & arr & -> & Hl1 & Hl2 & Hf & Ha).
  - by apply count_retainers_length.
  - unfold zeros, zlen. rewrite length_replicate. lia.
  - unfold zeros, zlen in *. rewrite length_replicate. lia.
  - intros. by apply count_retainers_spec.
  - unfold zeros in Hl2 at 1. rewrite length_replicate in Hl2. unfold zlen in Hl2. rewrite Nat2Z.id in Hl2.
    assert (Hz : zlen arr = Z.of_nat (start c n)) by (unfold zlen; lia). rewrite Hz.
    rewrite u32_set_nat by (unfold is_u32, zlen in *; lia).
    assert (Hf' : forall k, (k <= n)%nat -> <[n := Z.of_nat (start c n)]> first !! k = Some (Z.of_nat (start c k))).
    { intros k Hk. destruct (decide (k = n)) as [->|].
      - apply list_lookup_insert_eq. lia.
      - rewrite list_lookup_insert_ne by done. apply Hf. lia. }
    eexists _, _. split; [done|]. split; [by rewrite length_insert|]. split; [done|].
    replace (edge_items edges nodeMap nodes) with (edge_items edges nodeMap (take n nodes))
      by (unfold n; by rewrite firstn_all).
    apply fill_nodes_inv; [done| |done|].
    + intros. apply Hf'. unfold n. lia.
    + split; simpl.
      * unfold retained. apply list_eq. intros i. rewrite list_lookup_imap.
        destruct (nodes !! i) as [nd|]; [|done]. simpl. destruct nd. unfold add_retains. simpl. by rewrite !app_nil_r.
      * fold n c. apply filling_start; [lia| |done]. unfold zeros, zlen. rewrite length_replicate, Nat2Z.id. by symmetry.
Qed.

Lemma filling_slice c n its arr arr2 k :
  filling c n its arr arr2 -> (k < n)%nat -> length (members k its) = c k ->
  js_slice arr (Z.of_nat (start c k)) (Z.of_nat (start c (S k))) = reverse (fst <$> members k its) /\
  js_slice arr2 (Z.of_nat (start c k)) (Z.of_nat (start c (S k))) = reverse (snd <$> members k its).
Proof.
  intros Hf Hk Hfull. pose proof (start_disjoint c k n Hk) as Hd.
  destruct (filling_done _ _ _ _ _ _ Hf Hk Hfull) as [<- <-].
  destruct Hf as (Hl1 & Hl2 & _).
  assert (Hs : forall l : list Z, length l = start c n ->
    js_slice l (Z.of_nat (start c k)) (Z.of_nat (start c (S k))) = take (c k) (drop (start c k) l)).
  { intros l Hl. unfold js_slice, rel_index, zlen. zcase; try lia. cbn [start].
    rewrite !Z.min_l by lia. f_equal; [lia|f_equal; lia]. }
  by rewrite !Hs.
Qed.
End BuildRetainers.

(** C6: After a consistent database has been loaded, every node knows its
    retainers.  The slice of [retainingNodes] ([retainingEdges]) that
    [firstRetainerIndex] delimits for a node lists the nodes (the edges) through
    which it is referenced, each reference exactly once, last one first; and the
    node's own [retainsNodeIdx] and [retainsEdgeIdx] list the references that do
    not come from the root, in order. *)
Theorem loaded_retainers fileId strings rows edges (root : Z) :
  rows_ok rows edges ->
  exists loaded, node_array (zlen rows) (loadNode fileId strings rows).1.1 = Some loaded /\
    let nodes := buildNodeEdge edges loaded in
    let nodeMap := node_index_map nodes in
    concat (hn_edges <$> nodes) = seq 0 (length edges) /\
    let '(first, st) := buildRetainers edges nodeMap (zlen nodes) (zlen edges) root nodes in
    forall v nd, nodes !! v = Some nd ->
      let refs := incoming edges nodeMap nodes v in
      let from := u32_at first (Z.of_nat v) in
      let to := u32_at first (Z.of_nat v + 1) in
      js_slice (rt_retainingNodes st) from to = reverse (fst <$> refs) /\
      js_slice (rt_retainingEdges st) from to = reverse (snd <$> refs) /\
      rt_nodes st !! v = Some (add_retains (filter (not_from root) refs) nd).
Proof.
  intros Hok. destruct (load_wf fileId strings rows edges Hok) as (loaded & Harr & _ & WF & _).
  exists loaded. split; [done|]. cbn zeta. split; [apply (wf_edges _ _ _ WF)|].
  destruct (buildRetainers_spec _ _ _ WF root) as (first & st & -> & _ & Hf & Hn & Hfill).
  intros v nd Hv. pose proof (lookup_lt_Some _ _ _ Hv) as Hlt.
  replace (Z.of_nat v + 1) with (Z.of_nat (S v)) by lia.
  rewrite (u32_at_Some _ _ _ (Hf v ltac:(lia))), (u32_at_Some _ _ _ (Hf (S v) ltac:(lia))).
  destruct (filling_slice _ _ _ _ _ v Hfill Hlt) as [-> ->].
  - by apply indegree_incoming.
  - split_and!; try done. rewrite Hn, retained_lookup, Hv. done.
Qed.

(** Decides [rows_ok] of concrete tables. *)
Ltac solve_rows_ok :=
  split;
  [ let i := fresh in let r := fresh in let H := fresh in intros i r H;
    repeat (destruct i as [|i]; [by injection H as <-|]); done
  | apply (bool_decide_unpack _); vm_compute; exact I
  | repeat constructor; vm_compute; congruence
  | reflexivity
  | apply (bool_decide_unpack _); vm_compute; exact I
  | repeat constructor; vm_compute; congruence
  | split; vm_compute; reflexivity ].

(** ** A small snapshot

    Used by the witnesses of the heap theorems: a root, two user objects that
    share a third, and a string. *)

Definition sample_row (index type nameIdx id selfSize edgeCount : Z) : node_row :=
  {| nr_nodeIndex := index; nr_type := type; nr_nameIdx := nameIdx; nr_id := id; nr_selfSize := selfSize;
     nr_edgeCount := edgeCount; nr_traceNodeId := 0; nr_detachedness := 0 |}.

Definition sample_edge (index type to : Z) : HeapEdge :=
  {| he_edgeIndex := index; he_type := type; he_nameOrIndex := js "x"; he_nodeId := 0;
     he_fromNodeId := 0; he_toNodeId := to |}.

Definition sample_strings : list jsstring := js <$> [""; "Window"; "Page"; "Node"; "text"]%string.

Definition sample_rows : list node_row :=
  [sample_row 0 9 0 1 0 3; sample_row 1 3 1 3 16 2; sample_row 2 3 2 5 24 2;
   sample_row 3 8 3 7 40 1; sample_row 4 2 4 9 8 0].

Definition sample_edges : list HeapEdge :=
  [sample_edge 0 1 3; sample_edge 1 5 5; sample_edge 2 6 7; sample_edge 3 2 7; sample_edge 4 2 9;
   sample_edge 5 2 7; sample_edge 6 3 3; sample_edge 7 2 9].

Lemma sample_rows_ok : rows_ok sample_rows sample_edges.
Proof. solve_rows_ok. Qed.

Lemma loaded_retainers_witness :
  exists loaded, node_array (zlen sample_rows) (loadNode 1 sample_strings sample_rows).1.1 = Some loaded /\
    length loaded = 5%nat.
Proof.
  destruct (loaded_retainers 1 sample_strings sample_rows sample_edges 0 sample_rows_ok) as (loaded & H & _).
  exists loaded. split; [exact H|]. vm_compute in H. injection H as <-. reflexivity.
Defined.
