(* ===== verification/HeapFlags.v ===== *)
(** * Queryable and page-owned nodes

    [HeapLoader.markQueryableNodes] and [HeapLoader.markPageOwnedNodes]
    ([js-heap/logic/HeapLoader.ts]).  A work list that the code pushes to and
    pops from the end of an array is a list whose head is that end. *)

From S2P Require Import Prelude JsRuntime HeapModel HeapRetainers.

Definition CAN_BE_QUERIED : Z := 1.
Definition DETACHED_DOM_NODE : Z := 2.
Definition PAGE_PROJECT : Z := 4.

Definition has_flag (flag : Z) (n : HeapNode) : bool := truthy (js_and (hn_flag n) flag).
Definition set_flag (flag : Z) (n : HeapNode) : HeapNode := with_flag (js_or (hn_flag n) flag) n.

Definition edge_in (ts : list EdgeType) (e : HeapEdge) : bool := existsb (fun t => edge_is t e) ts.

Section Flags.
Context (edges : list HeapEdge) (nodeMap : gmap Z nat).

Definition root_edges (nodes : list HeapNode) : list nat :=
  match nodes !! 0%nat with Some rootNode => hn_edges rootNode | None => [] end.

(** ** [markQueryableNodes] *)

(** Push the target of edge [e], if it is a node and the test accepts it. *)
Definition push_if (test : HeapEdge -> HeapNode -> bool) (nodes : list HeapNode) (todo : list nat) (e : nat) :
    list nat :=
  match edges !! e with
  | None => todo
  | Some edge =>
      match get_node nodeMap nodes (he_toNodeId edge) with
      | Some (c, childNode) => if test edge childNode then c :: todo else todo
      | None => todo
      end
  end.

Definition query_edge (edge : HeapEdge) : bool :=
  negb (edge_in [EDGE_HIDDEN; EDGE_INVISIBLE; EDGE_INTERNAL; EDGE_WEAK] edge).

Definition push_query_root : list HeapNode -> list nat -> nat -> list nat :=
  push_if (fun _ childNode => isUserRoot childNode).

Definition push_query_child : list HeapNode -> list nat -> nat -> list nat :=
  push_if (fun edge childNode => negb (has_flag CAN_BE_QUERIED childNode) && query_edge edge).

Fixpoint query_loop (fuel : nat) (nodes : list HeapNode) (todo : list nat) : option (list HeapNode) :=
  match todo, fuel with
  | [], _ => Some nodes
  | _ :: _, O => None
  | i :: rest, S fuel' =>
      match nodes !! i with
      | None => query_loop fuel' nodes rest
      | Some node =>
          if has_flag CAN_BE_QUERIED node then query_loop fuel' nodes rest
          else
            let nodes := <[i := set_flag CAN_BE_QUERIED node]> nodes in
            query_loop fuel' nodes (fold_left (push_query_child nodes) (hn_edges node) rest)
      end
  end.

(** Rounds enough for every run: each round pops one entry, and a node puts its
    edges on the list at most once. *)
Definition query_fuel (nodes : list HeapNode) : nat :=
  length (root_edges nodes) + sum_list_with (fun n => length (hn_edges n)) nodes.

Definition markQueryableNodes (nodes : list HeapNode) : option (list HeapNode) :=
  query_loop (query_fuel nodes) nodes (fold_left (push_query_root nodes) (root_edges nodes) []).

(** ** [markPageOwnedNodes] *)

(** Flag and push the target of edge [e], if it is a node and the test accepts it. *)
Definition mark_if (test : HeapEdge -> HeapNode -> bool) (st : list HeapNode * list nat) (e : nat) :
    list HeapNode * list nat :=
  let '(nodes, todo) := st in
  match edges !! e with
  | None => st
  | Some edge =>
      match get_node nodeMap nodes (he_toNodeId edge) with
      | Some (c, node) =>
          if test edge node then (<[c := set_flag PAGE_PROJECT node]> nodes, c :: todo) else st
      | None => st
      end
  end.

Definition page_root (edge : HeapEdge) (node : HeapNode) : bool :=
  if edge_is EDGE_ELEMENT edge then isDocumentDOMTreesRoot node else edge_is EDGE_SHORTCUT edge.

Definition page_edge (edge : HeapEdge) : bool := negb (edge_is EDGE_WEAK edge).

Definition push_page_root : list HeapNode * list nat -> nat -> list HeapNode * list nat :=
  mark_if page_root.

Definition push_page_child : list HeapNode * list nat -> nat -> list HeapNode * list nat :=
  mark_if (fun edge childNode => negb (has_flag PAGE_PROJECT childNode) && page_edge edge).

Fixpoint page_loop (fuel : nat) (nodes : list HeapNode) (todo : list nat) : option (list HeapNode) :=
  match todo, fuel with
  | [], _ => Some nodes
  | _ :: _, O => None
  | i :: rest, S fuel' =>
      match nodes !! i with
      | None => page_loop fuel' nodes rest
      | Some node =>
          let '(nodes, todo) := fold_left push_page_child (hn_edges node) (nodes, rest) in
          page_loop fuel' nodes todo
      end
  end.

(** Every node is pushed at most once by the loop. *)
Definition page_fuel (nodes : list HeapNode) : nat := length (root_edges nodes) + length nodes.

Definition markPageOwnedNodes (nodes : list HeapNode) : option (list HeapNode) :=
  let '(nodes', todo) := fold_left push_page_root (root_edges nodes) (nodes, []) in
  page_loop (page_fuel nodes) nodes' todo.

Definition calFlags (nodes : list HeapNode) : option (list HeapNode) :=
  nodes ← markQueryableNodes nodes; markPageOwnedNodes nodes.

(** ** What the marks mean

    A reference along an edge whose type is accepted. *)
Definition refers (ok : HeapEdge -> bool) (nodes : list HeapNode) (u v : nat) : Prop :=
  exists nd e edge, nodes !! u = Some nd /\ e ∈ hn_edges nd /\ edges !! e = Some edge /\
    nodeMap !! he_toNodeId edge = Some v /\ (v < length nodes)%nat /\ ok edge = true.

Definition reachable (root : nat -> Prop) (ok : HeapEdge -> bool) (nodes : list HeapNode) (v : nat) : Prop :=
  exists r, root r /\ rtc (refers ok nodes) r v.

(** A node the root refers to, for which [p edge node] holds. *)
Definition root_child (p : HeapEdge -> HeapNode -> bool) (nodes : list HeapNode) (v : nat) : Prop :=
  exists e edge nd, e ∈ root_edges nodes /\ edges !! e = Some edge /\
    nodeMap !! he_toNodeId edge = Some v /\ nodes !! v = Some nd /\ p edge nd = true.

Definition queryable : list HeapNode -> nat -> Prop := fun nodes =>
  reachable (root_child (fun _ nd => isUserRoot nd) nodes) query_edge nodes.

Definition page_owned : list HeapNode -> nat -> Prop := fun nodes =>
  reachable (root_child page_root nodes) page_edge nodes.
End Flags.

(** ** Flags *)

Definition is_flag (f : Z) : Prop := f = 1 \/ f = 2 \/ f = 4.

Lemma js_or_int32 a b : toInt32 (js_or a b) = js_or a b.
Proof. unfold js_or. by rewrite toInt32_lor, toInt32_idem. Qed.

Lemma has_set_flag f f' n :
  is_flag f -> is_flag f' -> has_flag f' (set_flag f n) = has_flag f' n || (f =? f').
Proof.
  intros Hf Hf'. unfold has_flag, set_flag.
  assert (hn_flag (with_flag (js_or (hn_flag n) f) n) = js_or (hn_flag n) f) as -> by by destruct n.
  unfold js_and. rewrite js_or_int32. unfold js_or. rewrite Z.land_lor_distr_l. unfold truthy.
  set (a := Z.land (toInt32 (hn_flag n)) (toInt32 f')).
  assert (Hb : Z.land (toInt32 f) (toInt32 f') = if f =? f' then f else 0)
    by (destruct Hf as [->|[->| ->]], Hf' as [->|[->| ->]]; reflexivity).
  rewrite Hb. destruct (Z.eqb_spec f f') as [->|].
  - rewrite orb_true_r. destruct (Z.eqb_spec (Z.lor a f') 0) as [[_ E]%Z.lor_eq_0_iff|]; [|done].
    unfold is_flag in Hf. lia.
  - by rewrite Z.lor_0_r, orb_false_r.
Qed.

(** Passes that only change flags. *)
Definition flags_only (nodes nodes' : list HeapNode) : Prop :=
  Forall2 (fun n n' => n' = with_flag (hn_flag n') n) nodes nodes'.

Lemma with_flag_self n : n = with_flag (hn_flag n) n.
Proof. by destruct n. Qed.

#[export] Instance flags_only_preorder : PreOrder flags_only.
Proof.
  split.
  - intros l. induction l; constructor; [apply with_flag_self|done].
  - intros l1 l2 l3 H12. revert l3. induction H12 as [|a b l1 l2 Hab _ IH]; intros l3 H23.
    + inversion H23. constructor.
    + inversion_clear H23 as [|? c ? l3' Hbc Hl]. constructor; [|by apply IH].
      rewrite Hbc, Hab. by destruct a.
Qed.

Lemma flags_only_sym nodes nodes' : flags_only nodes nodes' -> flags_only nodes' nodes.
Proof. intros H. induction H as [|n n' l l' E _ IH]; constructor; [|done]. rewrite E. by destruct n. Qed.

Lemma flags_only_insert nodes i n f :
  nodes !! i = Some n -> flags_only nodes (<[i := set_flag f n]> nodes).
Proof.
  intros Hi. rewrite <- (list_insert_id nodes i n Hi) at 1. apply Forall2_insert; [reflexivity|].
  unfold set_flag. by destruct n.
Qed.

Lemma flags_only_lookup nodes nodes' i n :
  flags_only nodes nodes' -> nodes !! i = Some n ->
  exists n', nodes' !! i = Some n' /\ n' = with_flag (hn_flag n') n.
Proof. intros H Hi. destruct (Forall2_lookup_l _ _ _ _ _ H Hi) as (n' & ? & ?). eauto. Qed.

Lemma flags_only_lookup_r nodes nodes' i n' :
  flags_only nodes nodes' -> nodes' !! i = Some n' ->
  exists n, nodes !! i = Some n /\ n' = with_flag (hn_flag n') n.
Proof. intros H Hi. destruct (Forall2_lookup_r _ _ _ _ _ H Hi) as (n & ? & ?). eauto. Qed.

Lemma flags_only_length nodes nodes' : flags_only nodes nodes' -> length nodes' = length nodes.
Proof. intros H. symmetry. by eapply Forall2_length. Qed.

Lemma with_flag_fields f n :
  hn_edges (with_flag f n) = hn_edges n /\ hn_type (with_flag f n) = hn_type n /\
  hn_name (with_flag f n) = hn_name n.
Proof. by destruct n. Qed.

Lemma flags_only_refers edges nodeMap ok nodes nodes' u v :
  flags_only nodes nodes' -> refers edges nodeMap ok nodes u v <-> refers edges nodeMap ok nodes' u v.
Proof.
  intros H. unfold refers. rewrite (flags_only_length _ _ H). split.
  - intros (nd & e & edge & Hu & ? & ?). destruct (flags_only_lookup _ _ _ _ H Hu) as (nd' & Hu' & E).
    exists nd', e, edge. rewrite E, (proj1 (with_flag_fields _ _)). by rewrite <- E.
  - intros (nd' & e & edge & Hu & He & ?). destruct (flags_only_lookup_r _ _ _ _ H Hu) as (nd & Hu' & E).
    rewrite E, (proj1 (with_flag_fields _ _)) in He. eauto 10.
Qed.

Definition marked (f : Z) (nodes : list HeapNode) (i : nat) : Prop :=
  exists n, nodes !! i = Some n /\ has_flag f n = true.

Lemma marked_insert f f' nodes i n j :
  is_flag f -> is_flag f' -> nodes !! i = Some n ->
  marked f' (<[i := set_flag f n]> nodes) j <-> marked f' nodes j \/ (i = j /\ f = f').
Proof.
  intros Hf Hf' Hi. unfold marked. destruct (decide (i = j)) as [<-|Hne].
  - rewrite list_lookup_insert_eq by (by eapply lookup_lt_Some). setoid_rewrite Hi. split.
    + intros (n' & [= <-] & H). rewrite has_set_flag in H by done.
      apply orb_true_iff in H as [H|H%Z.eqb_eq]; [left; eauto|right; done].
    + intros [(n' & [= <-] & H)|[_ ->]]; eexists; split; try done; rewrite has_set_flag by done;
        [by rewrite H|by rewrite Z.eqb_refl, orb_true_r].
  - rewrite list_lookup_insert_ne by done. naive_solver.
Qed.

(** ** Shared facts on the work lists *)

Lemma sum_list_with_insert {A} (f : A -> nat) (l : list A) i x y :
  l !! i = Some x -> (sum_list_with f (<[i := y]> l) + f x = sum_list_with f l + f y)%nat.
Proof.
  revert i. induction l as [|a l IH]; intros [|i] Hi; simplify_eq/=; [lia|].
  specialize (IH _ Hi). lia.
Qed.

Section FlagProofs.
Context (edges : list HeapEdge) (nodeMap : gmap Z nat).

Lemma reachable_closed root ok nodes (P : nat -> Prop) :
  (forall r, root r -> P r) -> (forall u v, P u -> refers edges nodeMap ok nodes u v -> P v) ->
  forall v, reachable edges nodeMap root ok nodes v -> P v.
Proof. intros Hr Hs v (r & Hroot%Hr & Hrtc). induction Hrtc; eauto. Qed.

Lemma reachable_step root ok nodes u v :
  reachable edges nodeMap root ok nodes u -> refers edges nodeMap ok nodes u v ->
  reachable edges nodeMap root ok nodes v.
Proof. intros (r & Hr & Hs) Hstep. exists r. split; [done|]. by eapply rtc_r. Qed.

Lemma get_node_spec (nodes : list HeapNode) id c nd :
  get_node nodeMap nodes id = Some (c, nd) <-> nodeMap !! id = Some c /\ nodes !! c = Some nd.
Proof.
  unfold get_node. destruct (nodeMap !! id) as [i|]; simpl; [|naive_solver].
  destruct (nodes !! i) eqn:E; simpl; naive_solver.
Qed.

(** The target of [e] passes the test. *)
Definition accepted (test : HeapEdge -> HeapNode -> bool) (nodes : list HeapNode) (e v : nat) : Prop :=
  exists edge nd, edges !! e = Some edge /\ nodeMap !! he_toNodeId edge = Some v /\
    nodes !! v = Some nd /\ test edge nd = true.

Lemma push_if_cases test nodes todo e :
  (exists c, accepted test nodes e c /\ push_if edges nodeMap test nodes todo e = c :: todo) \/
  ((forall v, ~ accepted test nodes e v) /\ push_if edges nodeMap test nodes todo e = todo).
Proof.
  unfold push_if, accepted. destruct (edges !! e) as [edge|]; [|right; naive_solver].
  destruct (get_node nodeMap nodes (he_toNodeId edge)) as [[c nd]|] eqn:G.
  - apply get_node_spec in G as [G1 G2]. destruct (test edge nd) eqn:T; [left; eauto 10|right].
    split; [|done]. intros v (edge' & nd' & [= <-] & ? & ? & ?). congruence.
  - right. split; [|done]. intros v (edge' & nd' & [= <-] & H1 & H2 & _).
    assert (get_node nodeMap nodes (he_toNodeId edge) = Some (v, nd')) by by apply get_node_spec. congruence.
Qed.

Lemma push_all_spec test nodes es : forall todo,
  let todo' := fold_left (push_if edges nodeMap test nodes) es todo in
  (length todo' <= length todo + length es)%nat /\
  forall v, v ∈ todo' <-> v ∈ todo \/ exists e, e ∈ es /\ accepted test nodes e v.
Proof.
  induction es as [|e es IH]; intros todo; simpl; [set_solver by lia|].
  destruct (IH (push_if edges nodeMap test nodes todo e)) as [IHl IHv].
  assert (Hfun : forall c v, accepted test nodes e c -> accepted test nodes e v -> v = c)
    by (unfold accepted; naive_solver congruence).
  destruct (push_if_cases test nodes todo e) as [(c & Hc & E)|[Hno E]]; rewrite E in *; simpl in *;
    (split; [lia|]); intros v; rewrite IHv; set_solver.
Qed.

(** *** The queryable nodes *)

Record query_inv (nodes0 nodes : list HeapNode) (todo : list nat) : Prop := {
  qi_frame : flags_only nodes0 nodes;
  qi_sound : forall v, marked CAN_BE_QUERIED nodes v \/ v ∈ todo -> queryable edges nodeMap nodes0 v;
  qi_roots : forall r, root_child edges nodeMap (fun _ nd => isUserRoot nd) nodes0 r ->
               marked CAN_BE_QUERIED nodes r \/ r ∈ todo;
  qi_step : forall u v, marked CAN_BE_QUERIED nodes u -> refers edges nodeMap query_edge nodes0 u v ->
              marked CAN_BE_QUERIED nodes v \/ v ∈ todo;
  qi_other : forall f v, is_flag f -> f <> CAN_BE_QUERIED -> marked f nodes v <-> marked f nodes0 v;
}.

Definition query_measure (nodes : list HeapNode) (todo : list nat) : nat :=
  length todo + sum_list_with (fun n => if has_flag CAN_BE_QUERIED n then O else length (hn_edges n)) nodes.

Lemma query_flag : is_flag CAN_BE_QUERIED.
Proof. by left. Qed.
#[local] Hint Resolve query_flag : js.

(** A popped node that is not marked: it is marked and its successors pushed. *)
Lemma query_visit nodes0 nodes i rest node :
  query_inv nodes0 nodes (i :: rest) -> nodes !! i = Some node ->
  has_flag CAN_BE_QUERIED node = false ->
  let nodes' := <[i := set_flag CAN_BE_QUERIED node]> nodes in
  query_inv nodes0 nodes' (fold_left (push_query_child edges nodeMap nodes') (hn_edges node) rest).
Proof.
  intros [Hfr Hs Hr Hst Ho] Hi Hun nodes'.
  assert (Hfr' : flags_only nodes0 nodes') by (etrans; [done|by apply flags_only_insert]).
  assert (Hm : forall v, marked CAN_BE_QUERIED nodes' v <-> marked CAN_BE_QUERIED nodes v \/ v = i).
  { intros v. unfold nodes'. rewrite marked_insert by auto with js. naive_solver. }
  assert (Hpush : forall v, refers edges nodeMap query_edge nodes0 i v <->
    refers edges nodeMap query_edge nodes' i v) by (intros; by apply flags_only_refers).
  assert (Hacc : forall v, refers edges nodeMap query_edge nodes0 i v ->
    marked CAN_BE_QUERIED nodes' v \/
    exists e, e ∈ hn_edges node /\ accepted (fun edge nd => negb (has_flag CAN_BE_QUERIED nd) && query_edge edge) nodes' e v).
  { intros v (nd & e & edge & H0 & He & Hedge & Hv & Hlt & Hok)%Hpush.
    unfold nodes' in H0. rewrite list_lookup_insert_eq in H0 by (by eapply lookup_lt_Some). injection H0 as <-.
    destruct (lookup_lt_is_Some_2 _ _ Hlt) as [nv Hnv].
    destruct (has_flag CAN_BE_QUERIED nv) eqn:Hf; [left; by eexists|right]. exists e. split.
    - unfold set_flag in He. by rewrite (proj1 (with_flag_fields _ _)) in He.
    - exists edge, nv. by rewrite Hf, Hok. }
  assert (Hsnd : forall e v, e ∈ hn_edges node ->
    accepted (fun edge nd => negb (has_flag CAN_BE_QUERIED nd) && query_edge edge) nodes' e v ->
    refers edges nodeMap query_edge nodes0 i v).
  { intros e v He (edge & nd & Hedge & Hv & Hnd & [_ Hok]%andb_true_iff). apply Hpush.
    exists (set_flag CAN_BE_QUERIED node), e, edge. unfold nodes' at 1.
    rewrite list_lookup_insert_eq by (by eapply lookup_lt_Some). unfold set_flag.
    rewrite (proj1 (with_flag_fields _ _)). split_and!; try done. by eapply lookup_lt_Some. }
  unfold push_query_child. set (test := fun edge nd => _).
  destruct (push_all_spec test nodes' (hn_edges node) rest) as [_ Hin].
  split.
  - done.
  - intros v. rewrite Hm, Hin. intros [[Hv| ->]|[Hv|(e & He & Ha)]].
    + apply Hs. by left.
    + apply Hs. set_solver.
    + apply Hs. set_solver.
    + eapply reachable_step; [apply (Hs i); set_solver|]. by eapply Hsnd.
  - intros r Hroot. rewrite Hm, Hin. destruct (Hr r Hroot) as [|[->|]%elem_of_cons]; auto.
  - intros u v. rewrite Hm, Hin, Hm. intros [Hu| ->] Href.
    + destruct (Hst u v Hu Href) as [|[->|]%elem_of_cons]; auto.
    + destruct (Hacc v Href) as [[|]%Hm|]; auto.
  - intros f v Hf Hne. unfold nodes'. rewrite marked_insert by auto with js. rewrite Ho by done. naive_solver.
Qed.

Lemma query_loop_total nodes0 : forall fuel nodes todo,
  query_inv nodes0 nodes todo -> (query_measure nodes todo <= fuel)%nat ->
  exists nodes', query_loop edges nodeMap fuel nodes todo = Some nodes' /\ query_inv nodes0 nodes' [].
Proof.
  induction fuel as [|fuel IH]; intros nodes [|i rest] Hinv Hfuel; simpl;
    [by eauto|unfold query_measure in Hfuel; simpl in Hfuel; lia|by eauto|].
  destruct (nodes !! i) as [node|] eqn:Hi.
  - destruct (has_flag CAN_BE_QUERIED node) eqn:Hf.
    + apply IH; [|unfold query_measure in *; simpl in *; lia]. destruct Hinv as [Hfr Hs Hr Hst Ho].
      assert (Hmi : marked CAN_BE_QUERIED nodes i) by by eexists.
      split; [done| | | |done]; intros.
      * apply Hs. set_solver.
      * destruct (Hr r) as [|[->|]%elem_of_cons]; auto.
      * destruct (Hst u v) as [|[->|]%elem_of_cons]; auto.
    + apply IH; [by apply query_visit|]. unfold query_measure in *.
      pose proof (push_all_spec (fun edge nd => negb (has_flag CAN_BE_QUERIED nd) && query_edge edge)
        (<[i := set_flag CAN_BE_QUERIED node]> nodes) (hn_edges node) rest) as [Hlen _].
      pose proof (sum_list_with_insert (fun n => if has_flag CAN_BE_QUERIED n then O else length (hn_edges n))
        nodes i node (set_flag CAN_BE_QUERIED node) Hi) as Hsum. cbn beta in Hsum.
      rewrite Hf, has_set_flag, orb_true_r in Hsum by auto with js.
      unfold push_query_child. simpl in *. lia.
  - exfalso. destruct Hinv as [Hfr Hs _ _ _]. destruct (Hs i) as (r & (e & edge & nd & _ & _ & _ & Hr & _) & Hrtc); [set_solver|].
    apply lookup_ge_None in Hi. rewrite (flags_only_length _ _ Hfr) in Hi.
    apply rtc_inv_r in Hrtc as [<-|(u & _ & (?&?&?&?&?&?&?&?&?))]; [apply lookup_lt_Some in Hr|]; lia.
Qed.

Lemma markQueryableNodes_spec nodes :
  (forall v, ~ marked CAN_BE_QUERIED nodes v) ->
  exists nodes', markQueryableNodes edges nodeMap nodes = Some nodes' /\ flags_only nodes nodes' /\
    (forall v, marked CAN_BE_QUERIED nodes' v <-> queryable edges nodeMap nodes v) /\
    (forall f v, is_flag f -> f <> CAN_BE_QUERIED -> marked f nodes' v <-> marked f nodes v).
Proof.
  intros Hclear. unfold markQueryableNodes, push_query_root. set (test := fun _ nd => _).
  destruct (push_all_spec test nodes (root_edges nodes) []) as [Hlen Hin].
  destruct (query_loop_total nodes (query_fuel nodes) nodes
    (fold_left (push_if edges nodeMap test nodes) (root_edges nodes) [])) as (nodes' & Hl & [Hfr Hs Hr Hst Ho]).
  - split; [reflexivity| | |naive_solver|done].
    + intros v [Hv|Hv]; [by apply Hclear in Hv|]. apply Hin in Hv as [Hv|(e & He & edge & nd & H)]; [set_solver|].
      exists v. split; [|done]. exists e, edge, nd. naive_solver.
    + intros r (e & edge & nd & He & H). right. apply Hin. right. exists e. split; [done|]. by exists edge, nd.
  - unfold query_measure, query_fuel. simpl in Hlen. apply Nat.add_le_mono; [done|].
    clear. induction nodes; simpl; [done|]. destruct (has_flag CAN_BE_QUERIED a); lia.
  - exists nodes'. split_and!; try done. intros v. split; [intros; apply Hs; by left|].
    apply reachable_closed.
    + intros r Hroot. destruct (Hr r Hroot) as [|H%elem_of_nil]; done.
    + intros u w Hu Href. destruct (Hst u w Hu Href) as [|H%elem_of_nil]; done.
Qed.

(** *** The page-owned nodes *)

Lemma page_flag : is_flag PAGE_PROJECT.
Proof. by do 2 right. Qed.
#[local] Hint Resolve page_flag : js.

Lemma mark_if_cases test nodes todo e :
  (exists c nd, accepted test nodes e c /\ nodes !! c = Some nd /\
     mark_if edges nodeMap test (nodes, todo) e = (<[c := set_flag PAGE_PROJECT nd]> nodes, c :: todo)) \/
  ((forall v, ~ accepted test nodes e v) /\ mark_if edges nodeMap test (nodes, todo) e = (nodes, todo)).
Proof.
  unfold mark_if, accepted. destruct (edges !! e) as [edge|]; [|right; naive_solver].
  destruct (get_node nodeMap nodes (he_toNodeId edge)) as [[c nd]|] eqn:G.
  - apply get_node_spec in G as [G1 G2]. destruct (test edge nd) eqn:T; [left; eauto 10|right].
    split; [|done]. intros v (edge' & nd' & [= <-] & ? & ? & ?). congruence.
  - right. split; [|done]. intros v (edge' & nd' & [= <-] & H1 & H2 & _).
    assert (get_node nodeMap nodes (he_toNodeId edge) = Some (v, nd')) by by apply get_node_spec. congruence.
Qed.

(** Tests that do not look at the flags. *)
Definition flag_blind (test : HeapEdge -> HeapNode -> bool) : Prop :=
  forall edge f nd, test edge (with_flag f nd) = test edge nd.

Lemma accepted_frame test nodes nodes' e v :
  flag_blind test -> flags_only nodes nodes' -> accepted test nodes e v <-> accepted test nodes' e v.
Proof.
  intros Hb Hfr. unfold accepted. split; intros (edge & nd & H1 & H2 & H3 & H4).
  - destruct (flags_only_lookup _ _ _ _ Hfr H3) as (nd' & ? & E). exists edge, nd'.
    split_and!; try done. by rewrite E, Hb.
  - destruct (flags_only_lookup_r _ _ _ _ Hfr H3) as (nd' & ? & E). exists edge, nd'.
    split_and!; try done. by rewrite E, Hb in H4.
Qed.

Lemma mark_roots_spec test es : flag_blind test -> forall nodes todo,
  exists nodes' todo', fold_left (mark_if edges nodeMap test) es (nodes, todo) = (nodes', todo') /\
    flags_only nodes nodes' /\ (length todo' <= length todo + length es)%nat /\
    (forall v, v ∈ todo' <-> v ∈ todo \/ exists e, e ∈ es /\ accepted test nodes e v) /\
    (forall f v, is_flag f -> marked f nodes' v <-> marked f nodes v \/
       (f = PAGE_PROJECT /\ exists e, e ∈ es /\ accepted test nodes e v)).
Proof.
  intros Hb. induction es as [|e es IH]; intros nodes todo; cbn [fold_left].
  { eexists _, _. split; [done|]. split_and!; [reflexivity|simpl; lia|set_solver|set_solver]. }
  assert (Hfun : forall c v, accepted test nodes e c -> accepted test nodes e v -> v = c)
    by (unfold accepted; naive_solver congruence).
  destruct (mark_if_cases test nodes todo e) as [(c & nd & Hc & Hnd & ->)|[Hno ->]].
  - assert (Hfr : flags_only nodes (<[c := set_flag PAGE_PROJECT nd]> nodes)) by by apply flags_only_insert.
    destruct (IH (<[c := set_flag PAGE_PROJECT nd]> nodes) (c :: todo)) as (nodes' & todo' & E & Hfr' & Hlen & Hin & Hm).
    exists nodes', todo'. split; [done|]. split_and!.
    + by etrans.
    + simpl in *. lia.
    + intros v. rewrite Hin. setoid_rewrite <- (accepted_frame test _ _ _ _ Hb Hfr). set_solver.
    + intros f v Hf. rewrite Hm, marked_insert by auto with js.
      setoid_rewrite <- (accepted_frame test _ _ _ _ Hb Hfr). set_solver.
  - destruct (IH nodes todo) as (nodes' & todo' & E & Hfr' & Hlen & Hin & Hm).
    exists nodes', todo'. split; [done|]. split_and!; [done|simpl; lia| |].
    + intros v. rewrite Hin. set_solver.
    + intros f v Hf. rewrite Hm by done. set_solver.
Qed.

Definition unmarked (nodes : list HeapNode) : nat :=
  sum_list_with (fun n => if has_flag PAGE_PROJECT n then O else 1%nat) nodes.

Definition page_child_test (edge : HeapEdge) (nd : HeapNode) : bool :=
  negb (has_flag PAGE_PROJECT nd) && page_edge edge.

(** [v] is the target of edge [e], which is not weak. *)
Definition page_target (nodes : list HeapNode) (e v : nat) : Prop :=
  accepted (fun edge _ => page_edge edge) nodes e v.

Lemma mark_children_spec es : forall nodes todo,
  exists nodes' todo', fold_left (mark_if edges nodeMap page_child_test) es (nodes, todo) = (nodes', todo') /\
    flags_only nodes nodes' /\ (length todo' + unmarked nodes' = length todo + unmarked nodes)%nat /\
    (forall v, v ∈ todo' <-> v ∈ todo \/ (marked PAGE_PROJECT nodes' v /\ ~ marked PAGE_PROJECT nodes v)) /\
    (forall f v, is_flag f -> marked f nodes' v <-> marked f nodes v \/
       (f = PAGE_PROJECT /\ exists e, e ∈ es /\ page_target nodes e v)).
Proof.
  induction es as [|e es IH]; intros nodes todo; cbn [fold_left].
  { eexists _, _. split; [done|]. split_and!; [reflexivity|done|naive_solver|set_solver]. }
  assert (Hblind : flag_blind (fun edge _ => page_edge edge)) by done.
  assert (Hfun : forall c v, page_target nodes e c -> page_target nodes e v -> v = c)
    by (unfold page_target, accepted; naive_solver congruence).
  destruct (mark_if_cases page_child_test nodes todo e) as [(c & nd & Hc & Hnd & ->)|[Hno ->]].
  - destruct Hc as (edge & nd' & He & Hmap & Hnd' & Ht). assert (nd' = nd) as -> by congruence.
    apply andb_true_iff in Ht as [Hun%negb_true_iff Hok].
    assert (Htc : page_target nodes e c) by by exists edge, nd.
    assert (Hnm : ~ marked PAGE_PROJECT nodes c) by (intros (x & ? & ?); congruence).
    set (nodes1 := <[c := set_flag PAGE_PROJECT nd]> nodes).
    assert (Hfr : flags_only nodes nodes1) by by apply flags_only_insert.
    assert (Hm1 : forall f v, is_flag f -> marked f nodes1 v <-> marked f nodes v \/ (c = v /\ PAGE_PROJECT = f))
      by (intros; apply marked_insert; auto with js).
    destruct (IH nodes1 (c :: todo)) as (nodes' & todo' & E & Hfr' & Hlen & Hin & Hm).
    exists nodes', todo'. split; [done|].
    assert (Hm' : forall f v, is_flag f -> marked f nodes' v <-> marked f nodes v \/
       (f = PAGE_PROJECT /\ exists e', e' ∈ e :: es /\ page_target nodes e' v)).
    { intros f v Hf. rewrite Hm, Hm1 by done. unfold page_target in *.
      setoid_rewrite <- (accepted_frame _ _ _ _ _ Hblind Hfr). set_solver. }
    split_and!; [by etrans| | |done].
    + pose proof (sum_list_with_insert (fun n => if has_flag PAGE_PROJECT n then O else 1%nat)
        nodes c nd (set_flag PAGE_PROJECT nd) Hnd) as Hsum. cbn beta in Hsum.
      rewrite Hun, has_set_flag, orb_true_r in Hsum by auto with js.
      unfold unmarked in *. fold nodes1 in Hsum. simpl in Hlen. lia.
    + intros v. rewrite Hin, elem_of_cons, Hm1 by auto with js. split.
      * intros [[->|]|[? Hn]]; [right|by left|right; naive_solver].
        split; [|done]. apply Hm'; [auto with js|]. right. split; [done|]. exists e. set_solver.
      * intros [|[Hv Hn]]; [by left; right|]. destruct (decide (v = c)) as [->|]; [by left; left|right].
        naive_solver.
  - destruct (IH nodes todo) as (nodes' & todo' & E & Hfr' & Hlen & Hin & Hm).
    exists nodes', todo'. split; [done|]. split_and!; [done|done|done|].
    intros f v Hf. rewrite Hm by done. split; [set_solver|].
    intros [|(-> & e' & [->|]%elem_of_cons & Ht)]; [by left| |right; eauto].
    left. destruct Ht as (edge & nd & ? & ? & Hv & Hok). exists nd. split; [done|].
    destruct (has_flag PAGE_PROJECT nd) eqn:Hf'; [done|]. exfalso. apply (Hno v). exists edge, nd.
    split_and!; try done. unfold page_child_test. by rewrite Hf', Hok.
Qed.

Record page_inv (nodes0 nodes : list HeapNode) (todo : list nat) : Prop := {
  pi_frame : flags_only nodes0 nodes;
  pi_sound : forall v, marked PAGE_PROJECT nodes v -> page_owned edges nodeMap nodes0 v;
  pi_todo : forall v, v ∈ todo -> marked PAGE_PROJECT nodes v;
  pi_roots : forall r, root_child edges nodeMap page_root nodes0 r -> marked PAGE_PROJECT nodes r;
  pi_step : forall u v, marked PAGE_PROJECT nodes u -> u ∉ todo ->
              refers edges nodeMap page_edge nodes0 u v -> marked PAGE_PROJECT nodes v;
  pi_other : forall f v, is_flag f -> f <> PAGE_PROJECT -> marked f nodes v <-> marked f nodes0 v;
}.

Lemma page_target_refers nodes0 nodes i node v :
  flags_only nodes0 nodes -> nodes !! i = Some node ->
  refers edges nodeMap page_edge nodes0 i v <-> exists e, e ∈ hn_edges node /\ page_target nodes e v.
Proof.
  intros Hfr Hi. rewrite (flags_only_refers _ _ _ _ _ _ _ Hfr). split.
  - intros (nd & e & edge & H0 & He & Hedge & Hv & Hlt & Hok). assert (nd = node) as -> by congruence.
    destruct (lookup_lt_is_Some_2 _ _ Hlt) as [nv Hnv]. exists e. split; [done|]. by exists edge, nv.
  - intros (e & He & edge & nv & Hedge & Hv & Hnv & Hok). exists node, e, edge.
    split_and!; try done. by eapply lookup_lt_Some.
Qed.

Lemma page_loop_total nodes0 : forall fuel nodes todo,
  page_inv nodes0 nodes todo -> (length todo + unmarked nodes <= fuel)%nat ->
  exists nodes', page_loop edges nodeMap fuel nodes todo = Some nodes' /\ page_inv nodes0 nodes' [].
Proof.
  induction fuel as [|fuel IH]; intros nodes [|i rest] Hinv Hfuel; simpl;
    [by eauto|simpl in Hfuel; lia|by eauto|].
  destruct Hinv as [Hfr Hs Ht Hr Hst Ho].
  destruct (Ht i) as (node & Hi & _); [set_solver|]. rewrite Hi.
  unfold push_page_child. fold page_child_test.
  destruct (mark_children_spec (hn_edges node) nodes rest) as (nodes' & todo' & -> & Hfr' & Hlen & Hin & Hm).
  apply IH; [|simpl in Hfuel; lia].
  assert (Href : forall v, refers edges nodeMap page_edge nodes0 i v <->
    exists e, e ∈ hn_edges node /\ page_target nodes e v) by (intros; by apply page_target_refers).
  assert (Hmk : forall v, marked PAGE_PROJECT nodes' v <-> marked PAGE_PROJECT nodes v \/
    refers edges nodeMap page_edge nodes0 i v).
  { intros v. rewrite Hm, Href by auto with js. naive_solver. }
  assert (Hdec : forall v, marked PAGE_PROJECT nodes v \/ ~ marked PAGE_PROJECT nodes v).
  { intros v. unfold marked. destruct (nodes !! v) as [nv|]; [|right; naive_solver].
    destruct (has_flag PAGE_PROJECT nv) eqn:?; [left; eauto|right; naive_solver congruence]. }
  split.
  - by etrans.
  - intros v [Hv|Hv]%Hmk; [by apply Hs|]. eapply reachable_step; [|exact Hv]. apply Hs, Ht. set_solver.
  - intros v [Hv|[Hv _]]%Hin; [|done]. apply Hmk. left. apply Ht. set_solver.
  - intros r Hroot. apply Hmk. left. by apply Hr.
  - intros u v Hu Hnot Huv. apply Hmk. rewrite Hin in Hnot.
    destruct (decide (u = i)) as [->|Hne]; [by right|left].
    destruct (Hdec u) as [Hmu|Hmu]; [|by exfalso; apply Hnot; right].
    apply (Hst u v); [done| |done]. set_solver.
  - intros f v Hf Hne. rewrite Hm, Ho by done. naive_solver.
Qed.

Lemma page_root_blind : flag_blind page_root.
Proof. intros edge f nd. by destruct nd. Qed.

Lemma root_child_accepted test nodes v :
  root_child edges nodeMap test nodes v <-> exists e, e ∈ root_edges nodes /\ accepted test nodes e v.
Proof. unfold root_child, accepted. naive_solver. Qed.

Lemma markPageOwnedNodes_spec nodes :
  (forall v, ~ marked PAGE_PROJECT nodes v) ->
  exists nodes', markPageOwnedNodes edges nodeMap nodes = Some nodes' /\ flags_only nodes nodes' /\
    (forall v, marked PAGE_PROJECT nodes' v <-> page_owned edges nodeMap nodes v) /\
    (forall f v, is_flag f -> f <> PAGE_PROJECT -> marked f nodes' v <-> marked f nodes v).
Proof.
  intros Hclear. unfold markPageOwnedNodes, push_page_root.
  destruct (mark_roots_spec page_root (root_edges nodes) page_root_blind nodes [])
    as (nodes1 & todo & -> & Hfr & Hlen & Hin & Hm).
  assert (Hmk : forall v, marked PAGE_PROJECT nodes1 v <-> root_child edges nodeMap page_root nodes v).
  { intros v. rewrite Hm, root_child_accepted by auto with js. naive_solver. }
  destruct (page_loop_total nodes (page_fuel nodes) nodes1 todo) as (nodes' & Hl & [Hfr' Hs Ht Hr Hst Ho]).
  - split.
    + done.
    + intros v Hv%Hmk. by exists v.
    + intros v [Hv|Hv]%Hin; [set_solver|]. by apply Hmk, root_child_accepted.
    + intros r Hroot. by apply Hmk.
    + intros u v Hu%Hmk Hnot. exfalso. apply Hnot, Hin. right. by apply root_child_accepted.
    + intros f v Hf Hne. rewrite Hm by done. naive_solver.
  - unfold page_fuel. simpl in Hlen. apply Nat.add_le_mono; [done|].
    rewrite <- (flags_only_length _ _ Hfr). clear. unfold unmarked.
    induction nodes1; simpl; [done|]. destruct (has_flag PAGE_PROJECT a); lia.
  - exists nodes'. split_and!; try done. intros v. split; [apply Hs|]. apply reachable_closed; [done|].
    intros u w Hu. apply Hst; [done|set_solver].
Qed.

Lemma page_owned_frame nodes nodes' v :
  flags_only nodes nodes' -> page_owned edges nodeMap nodes' v -> page_owned edges nodeMap nodes v.
Proof.
  intros Hfr (r & Hr & Hrtc). exists r. split.
  - apply root_child_accepted. apply root_child_accepted in Hr as (e & He & Ha). exists e. split.
    + unfold root_edges in *. destruct (nodes' !! 0%nat) as [n'|] eqn:E'; [|set_solver].
      destruct (flags_only_lookup_r _ _ _ _ Hfr E') as (n & -> & E). rewrite E in He.
      by rewrite (proj1 (with_flag_fields _ _)) in He.
    + by rewrite (accepted_frame _ _ _ _ _ page_root_blind Hfr).
  - eapply rtc_subrel; [|exact Hrtc]. intros x y. by apply (flags_only_refers _ _ _ _ _ _ _ Hfr).
Qed.

End FlagProofs.

(** The types a reference may have to be followed. *)
Lemma query_edge_types e : query_edge e = true <-> ~ (he_type e ∈ [3; 4; 6; 8]).
Proof.
  unfold query_edge, edge_in, edge_is. cbn [existsb edge_type]. rewrite negb_true_iff, !orb_false_iff, !Z.eqb_neq.
  rewrite !elem_of_cons, elem_of_nil. naive_solver.
Qed.

Lemma page_edge_types e : page_edge e = true <-> he_type e <> 6.
Proof. unfold page_edge, edge_is. by rewrite negb_true_iff, Z.eqb_neq. Qed.

Lemma calFlags_spec edges nodeMap nodes :
  (forall v, ~ marked CAN_BE_QUERIED nodes v /\ ~ marked PAGE_PROJECT nodes v) ->
  exists nodes', calFlags edges nodeMap nodes = Some nodes' /\ flags_only nodes nodes' /\
    (forall v, marked CAN_BE_QUERIED nodes' v <-> queryable edges nodeMap nodes v) /\
    (forall v, marked PAGE_PROJECT nodes' v <-> page_owned edges nodeMap nodes v) /\
    (forall v, marked DETACHED_DOM_NODE nodes' v <-> marked DETACHED_DOM_NODE nodes v) /\
    (forall e, query_edge e = true <-> ~ (he_type e ∈ [3; 4; 6; 8])) /\
    (forall e, page_edge e = true <-> he_type e <> 6).
Proof.
  intros Hclear. unfold calFlags.
  destruct (markQueryableNodes_spec edges nodeMap nodes) as (nodes1 & -> & Hfr1 & Hq & Ho1).
  { intros v. apply Hclear. }
  cbn [mbind option_bind].
  destruct (markPageOwnedNodes_spec edges nodeMap nodes1) as (nodes2 & -> & Hfr2 & Hp & Ho2).
  { intros v. rewrite Ho1; [apply Hclear|apply page_flag|done]. }
  exists nodes2. split_and!; [done|by etrans| | | |apply query_edge_types|apply page_edge_types].
  - intros v. by rewrite Ho2, Hq by (try apply query_flag; done).
  - intros v. rewrite Hp. split; apply page_owned_frame; [done|by apply flags_only_sym].
  - intros v. rewrite Ho2, Ho1; try done; right; by left.
Qed.

(** C22: The flags of the nodes mean reachability.  On nodes that have neither of the two
    flags yet, as loading leaves them, [calFlags] terminates, whatever the graph;
    afterwards the flag [CAN_BE_QUERIED] is on exactly the nodes that the root's user
    objects reach without hidden, invisible, internal and weak references (types 4, 8, 3
    and 6), the flag [PAGE_PROJECT] on exactly the nodes that the document trees and the
    global (shortcut) objects reach without weak references, and nothing else of the nodes
    has changed. *)
Theorem calFlags_reachability edges nodeMap nodes :
  (forall v, ~ marked CAN_BE_QUERIED nodes v /\ ~ marked PAGE_PROJECT nodes v) ->
  exists nodes', calFlags edges nodeMap nodes = Some nodes' /\ flags_only nodes nodes' /\
    (forall v, marked CAN_BE_QUERIED nodes' v <-> queryable edges nodeMap nodes v) /\
    (forall v, marked PAGE_PROJECT nodes' v <-> page_owned edges nodeMap nodes v) /\
    (forall v, marked DETACHED_DOM_NODE nodes' v <-> marked DETACHED_DOM_NODE nodes v) /\
    (forall e, query_edge e = true <-> ~ (he_type e ∈ [3; 4; 6; 8])) /\
    (forall e, page_edge e = true <-> he_type e <> 6).
Proof. exact (calFlags_spec edges nodeMap nodes). Qed.

(** In the sample snapshot every object is queryable except the root, and the
    page owns what the shortcut to [Page] reaches. *)
Definition sample_nodes : list HeapNode :=
  default [] (buildNodeEdge sample_edges <$> node_array (zlen sample_rows) (loadNode 1 sample_strings sample_rows).1.1).

Definition no_flags (nodes : list HeapNode) : bool := forallb (fun n => hn_flag n =? 0) nodes.

Lemma no_flags_clear nodes :
  no_flags nodes = true -> forall v, ~ marked CAN_BE_QUERIED nodes v /\ ~ marked PAGE_PROJECT nodes v.
Proof.
  intros H v. unfold no_flags in H. rewrite forallb_forall in H.
  assert (Hz : forall f n, nodes !! v = Some n -> has_flag f n = false).
  { intros f n Hn. apply list_elem_of_lookup_2, list_elem_of_In in Hn. specialize (H _ Hn).
    apply Z.eqb_eq in H. unfold has_flag. by rewrite H. }
  split; intros (n & Hn & Hf); rewrite Hz in Hf; done.
Qed.

Lemma calFlags_reachability_witness :
  exists nodes', calFlags sample_edges (node_index_map sample_nodes) sample_nodes = Some nodes' /\
    (hn_flag <$> nodes') = [0; 5; 5; 5; 5] /\
    (forall v, marked PAGE_PROJECT nodes' v <-> page_owned sample_edges (node_index_map sample_nodes) sample_nodes v).
Proof.
  destruct (calFlags_reachability sample_edges (node_index_map sample_nodes) sample_nodes
              (no_flags_clear sample_nodes eq_refl)) as (nodes' & E & _ & _ & Hp & _).
  exists nodes'. split; [exact E|]. split; [|exact Hp]. vm_compute in E. injection E as <-. reflexivity.
Defined.
