(* ===== verification/HeapDom.v ===== *)
(** * Attached and detached DOM nodes

    [HeapLoader.distributeDOMState] with [processNode], [iterateFilteredChildren]
    and the class [DOMState] ([js-heap/logic/HeapLoader.ts]). *)

From S2P Require Import Prelude JsRuntime HeapModel HeapRetainers HeapFlags.

(** [DOMState] with the nodes it is about.  The two arrays of ids are used as
    stacks: their heads are the ends the code pushes to and pops from. *)
Record DOMState := {
  ds_nodes : list HeapNode;
  ds_visited : list Z;
  ds_attached : list Z;
  ds_detached : list Z;
}.

(** The node's part of [processNode]. *)
Definition enter_state (newState : Z) (node : HeapNode) : HeapNode :=
  let node := with_detachedness newState node in
  if newState =? detached_state ATTACHED then node
  else if newState =? detached_state DETACHED then
    set_flag DETACHED_DOM_NODE
      (with_displayName (js "Detached " ++ default (js "undefined") (hn_name node)) node)
  else node.

Section Dom.
Context (edges : list HeapEdge) (nodeMap : gmap Z nat).

Definition processNode (newState : Z) (st : DOMState) (i : nat) : DOMState :=
  match ds_nodes st !! i with
  | None => st
  | Some node =>
      if truthy (u32_at (ds_visited st) (hn_nodeIndex node)) then st
      else
        let visited := u32_set (ds_visited st) (hn_nodeIndex node) 1 in
        if negb (hn_type node =? node_type NATIVE) then
          {| ds_nodes := ds_nodes st; ds_visited := visited;
             ds_attached := ds_attached st; ds_detached := ds_detached st |}
        else
          {| ds_nodes := <[i := enter_state newState node]> (ds_nodes st);
             ds_visited := visited;
             ds_attached := if newState =? detached_state ATTACHED then hn_id node :: ds_attached st
                            else ds_attached st;
             ds_detached := if newState =? detached_state ATTACHED then ds_detached st
                            else if newState =? detached_state DETACHED then hn_id node :: ds_detached st
                            else ds_detached st |}
  end.

Definition dom_edge (edge : HeapEdge) : bool :=
  negb (edge_is EDGE_HIDDEN edge || edge_is EDGE_WEAK edge || edge_is EDGE_INVISIBLE edge).

Definition iterate_edge (newState : Z) (st : DOMState) (e : nat) : DOMState :=
  match edges !! e with
  | None => st
  | Some edge =>
      if negb (dom_edge edge) then st
      else match get_node nodeMap (ds_nodes st) (he_toNodeId edge) with
           | Some (c, _) => processNode newState st c
           | None => st
           end
  end.

Definition iterateFilteredChildren (newState : Z) (st : DOMState) (node : HeapNode) : DOMState :=
  fold_left (iterate_edge newState) (hn_edges node) st.

(** Step 1: the nodes whose state is known. *)
Definition process_known (st : DOMState) (i : nat) : DOMState :=
  match ds_nodes st !! i with
  | None => st
  | Some node =>
      if hn_detachedness node =? detached_state UNKNOWN then st
      else processNode (hn_detachedness node) st i
  end.

Definition pop (s : DetachedNessState) (st : DOMState) : option (Z * DOMState) :=
  match s, ds_attached st, ds_detached st with
  | ATTACHED, id :: rest, detached =>
      Some (id, {| ds_nodes := ds_nodes st; ds_visited := ds_visited st;
                   ds_attached := rest; ds_detached := detached |})
  | DETACHED, attached, id :: rest =>
      Some (id, {| ds_nodes := ds_nodes st; ds_visited := ds_visited st;
                   ds_attached := attached; ds_detached := rest |})
  | _, _, _ => None
  end.

(** The loops of steps 2 (children of attached nodes are attached) and 3 (other
    children of detached nodes are detached; step 3 skips attached nodes). *)
Fixpoint spread_loop (s : DetachedNessState) (fuel : nat) (st : DOMState) : option DOMState :=
  match pop s st, fuel with
  | None, _ => Some st
  | Some _, O => None
  | Some (nodeId, st), S fuel' =>
      spread_loop s fuel'
        match get_node nodeMap (ds_nodes st) nodeId with
        | Some (_, node) =>
            if match s with DETACHED => negb (hn_detachedness node =? detached_state ATTACHED) | _ => true end
            then iterateFilteredChildren (detached_state s) st node else st
        | None => st
        end
  end.

(** A node enters a stack at most once. *)
Definition distributeDOMState (nodeCount : Z) (nodes : list HeapNode) : option (list HeapNode) :=
  let st := {| ds_nodes := nodes; ds_visited := zeros nodeCount; ds_attached := []; ds_detached := [] |} in
  let st := fold_left process_known (seq 0 (length nodes)) st in
  st ← spread_loop ATTACHED (length nodes) st;
  st ← spread_loop DETACHED (length nodes) st;
  Some (ds_nodes st).

(** ** What it computes

    A native node of unknown state is attached when an attached node refers to
    it, and detached when it is not attached and a detached node refers to it. *)
Definition is_native (n : HeapNode) : bool := hn_type n =? node_type NATIVE.

Inductive attached (nodes : list HeapNode) : nat -> Prop :=
  | attached_known i n :
      nodes !! i = Some n -> is_native n = true -> hn_detachedness n = detached_state ATTACHED ->
      attached nodes i
  | attached_child u i n :
      attached nodes u -> refers edges nodeMap dom_edge nodes u i ->
      nodes !! i = Some n -> is_native n = true -> hn_detachedness n = detached_state UNKNOWN ->
      attached nodes i.

Inductive detached (nodes : list HeapNode) : nat -> Prop :=
  | detached_known i n :
      nodes !! i = Some n -> is_native n = true -> hn_detachedness n = detached_state DETACHED ->
      detached nodes i
  | detached_child u i n :
      detached nodes u -> refers edges nodeMap dom_edge nodes u i ->
      nodes !! i = Some n -> is_native n = true -> hn_detachedness n = detached_state UNKNOWN ->
      ~ attached nodes i -> detached nodes i.
End Dom.

(** ** One phase of the propagation

    A phase starts from nodes [nodes1], visited marks [V0] and a stack [T0], and
    gives state [s] to what it reaches. *)

Definition vis (V : list Z) (i : nat) : bool := truthy (u32_at V (Z.of_nat i)).

Lemma vis_insert V v j :
  (v < length V)%nat -> vis (u32_set V (Z.of_nat v) 1) j = vis V j || bool_decide (v = j).
Proof.
  intros Hv. rewrite u32_set_nat by done. unfold vis. rewrite !u32_at_nat.
  destruct (decide (v = j)) as [->|].
  - rewrite list_lookup_insert_eq by done. by rewrite bool_decide_true, orb_true_r.
  - rewrite list_lookup_insert_ne by done. by rewrite bool_decide_false, orb_false_r.
Qed.

Definition unvisited (V : list Z) : nat := sum_list_with (fun x => if truthy x then O else 1%nat) V.

Lemma unvisited_insert V v :
  (v < length V)%nat -> vis V v = false -> unvisited V = S (unvisited (u32_set V (Z.of_nat v) 1)).
Proof.
  intros [x Hx]%lookup_lt_is_Some Hv. rewrite u32_set_nat by done. unfold vis in Hv.
  rewrite (u32_at_Some _ _ _ Hx) in Hv.
  pose proof (sum_list_with_insert (fun x => if truthy x then O else 1%nat) V v x 1 Hx) as H.
  cbn beta in H. rewrite Hv in H. unfold unvisited. simpl in H. lia.
Qed.

Definition same_keys (n n' : HeapNode) : Prop :=
  hn_id n' = hn_id n /\ hn_nodeIndex n' = hn_nodeIndex n /\ hn_edges n' = hn_edges n /\
  hn_type n' = hn_type n /\ hn_name n' = hn_name n.

#[export] Instance same_keys_preorder : PreOrder same_keys.
Proof.
  split; [by intros ?|]. intros a b c (? & ? & ? & ? & ?) (? & ? & ? & ? & ?).
  unfold same_keys. split_and!; congruence.
Qed.

Lemma same_keys_sym nodes nodes' : Forall2 same_keys nodes nodes' -> Forall2 same_keys nodes' nodes.
Proof.
  intros H. apply Forall2_flip. eapply Forall2_impl; [exact H|].
  intros n n' (? & ? & ? & ? & ?). unfold flip, same_keys. split_and!; congruence.
Qed.

Lemma enter_state_keys s n : same_keys n (enter_state s n).
Proof. unfold enter_state, set_flag, same_keys. destruct n. by repeat case_match. Qed.

Lemma enter_state_detachedness s n :
  s <> UNKNOWN -> hn_detachedness (enter_state (detached_state s) n) = detached_state s.
Proof. intros Hs. unfold enter_state, set_flag. destruct s; [done|..]; by destruct n. Qed.

Lemma snapshot_wf_keys edges nodeMap nodes nodes' :
  Forall2 same_keys nodes nodes' -> snapshot_wf edges nodeMap nodes -> snapshot_wf edges nodeMap nodes'.
Proof.
  intros HF [H1 H2 H3 H4 H5 H6 H7].
  assert (Hlen : length nodes' = length nodes) by (symmetry; by eapply Forall2_length).
  split; try done.
  - intros i n' Hi. destruct (Forall2_lookup_r _ _ _ _ _ HF Hi) as (n & Hn & (_ & -> & _)). by apply H1.
  - intros id i. rewrite H2. split.
    + intros (n & Hn & <-). destruct (Forall2_lookup_l _ _ _ _ _ HF Hn) as (n' & ? & (? & _)). eauto.
    + intros (n' & Hn & <-). destruct (Forall2_lookup_r _ _ _ _ _ HF Hn) as (n & ? & (? & _)). eauto.
  - rewrite <- H4. f_equal. clear -HF. induction HF as [|n n' l l' (_ & _ & E & _) _ IH]; [done|].
    rewrite !fmap_cons, E. by f_equal.
  - unfold zlen in *. by rewrite Hlen.
Qed.

Lemma refers_keys edges nodeMap ok nodes nodes' u v :
  Forall2 same_keys nodes nodes' -> refers edges nodeMap ok nodes u v <-> refers edges nodeMap ok nodes' u v.
Proof.
  intros HF. unfold refers. rewrite <- (Forall2_length _ _ _ HF). split.
  - intros (n & e & edge & Hu & He & H). destruct (Forall2_lookup_l _ _ _ _ _ HF Hu) as (n' & Hu' & (_ & _ & E & _)).
    exists n', e, edge. by rewrite E.
  - intros (n' & e & edge & Hu & He & H). destruct (Forall2_lookup_r _ _ _ _ _ HF Hu) as (n & Hu' & (_ & _ & E & _)).
    exists n, e, edge. by rewrite <- E.
Qed.

Section Phase.
Context (edges : list HeapEdge) (nodeMap : gmap Z nat) (nodes1 : list HeapNode).
Context (WF : snapshot_wf edges nodeMap nodes1).
Context (s : DetachedNessState) (Hs : s <> UNKNOWN).
Context (V0 : list Z) (T0 : list nat) (other : list Z).

Definition newly (V : list Z) (i : nat) : Prop :=
  exists n, nodes1 !! i = Some n /\ is_native n = true /\ vis V i = true /\ vis V0 i = false.

Inductive spread : nat -> Prop :=
  | spread_start i : i ∈ T0 -> spread i
  | spread_child u i n :
      spread u -> refers edges nodeMap dom_edge nodes1 u i ->
      nodes1 !! i = Some n -> is_native n = true -> vis V0 i = false -> spread i.

Definition spread_node (V : list Z) (i : nat) (n : HeapNode) : HeapNode :=
  if is_native n && vis V i && negb (vis V0 i) then enter_state (detached_state s) n else n.

Definition spread_nodes (V : list Z) : list HeapNode := imap (spread_node V) nodes1.

Definition stack (st : DOMState) : list Z :=
  match s with ATTACHED => ds_attached st | _ => ds_detached st end.
Definition other_stack (st : DOMState) : list Z :=
  match s with ATTACHED => ds_detached st | _ => ds_attached st end.

Record phase (st : DOMState) (T : list nat) : Prop := {
  ph_nodes : ds_nodes st = spread_nodes (ds_visited st);
  ph_len : length (ds_visited st) = length nodes1;
  ph_stack : Forall2 (fun i id => nodeMap !! id = Some i) T (stack st);
  ph_other : other_stack st = other;
  ph_mono : forall i, vis V0 i = true -> vis (ds_visited st) i = true;
  ph_todo : forall i, i ∈ T -> i ∈ T0 \/ newly (ds_visited st) i;
  ph_sound : forall i, newly (ds_visited st) i -> spread i;
}.

Lemma spread_nodes_lookup V i :
  spread_nodes V !! i = spread_node V i <$> nodes1 !! i.
Proof. unfold spread_nodes. by rewrite list_lookup_imap. Qed.

Lemma spread_nodes_keys V : Forall2 same_keys nodes1 (spread_nodes V).
Proof.
  apply Forall2_same_length_lookup. split; [by unfold spread_nodes; rewrite length_imap|].
  intros i n n' Hn. rewrite spread_nodes_lookup, Hn. simpl. intros [= <-].
  unfold spread_node. destruct (is_native n && _ && _); [apply enter_state_keys|]. by destruct n.
Qed.

Lemma push_stacks nodes V st id :
  let st' := {| ds_nodes := nodes; ds_visited := V;
    ds_attached := if detached_state s =? detached_state ATTACHED then id :: ds_attached st else ds_attached st;
    ds_detached := if detached_state s =? detached_state ATTACHED then ds_detached st
                   else if detached_state s =? detached_state DETACHED then id :: ds_detached st
                   else ds_detached st |} in
  stack st' = id :: stack st /\ other_stack st' = other_stack st.
Proof. unfold stack, other_stack. destruct s; [done|by split..]. Qed.

(** Processing node [v], which the phase may reach. *)
Lemma processNode_phase st T v :
  phase st T -> (v < length nodes1)%nat ->
  (forall n, nodes1 !! v = Some n -> is_native n = true -> vis V0 v = false -> spread v) ->
  let st' := processNode (detached_state s) st v in
  exists T', phase st' T' /\ (forall i, i ∈ T -> i ∈ T') /\
    (forall i, i ∈ T' -> i ∈ T \/ newly (ds_visited st') i) /\
    (forall i, newly (ds_visited st') i -> newly (ds_visited st) i \/ i ∈ T') /\
    (forall i, vis (ds_visited st') i = vis (ds_visited st) i || bool_decide (v = i)) /\
    (length T' + unvisited (ds_visited st') <= length T + unvisited (ds_visited st))%nat.
Proof.
  intros [Hn Hl Hst Hot Hmono Htd Hsnd] Hv Hreach. unfold processNode.
  destruct (lookup_lt_is_Some_2 _ _ Hv) as [n1 Hn1].
  destruct (Forall2_lookup_l _ _ _ _ _ (spread_nodes_keys (ds_visited st)) Hn1) as (n & Hnv & (Hid & Hix & _ & Hty & _)).
  rewrite Hn, Hnv, Hix, (wf_index _ _ _ WF _ _ Hn1). fold (vis (ds_visited st) v).
  destruct (vis (ds_visited st) v) eqn:Hvis.
  { exists T. split; [by split|]. split_and!; auto. intros i. case_bool_decide; [|by rewrite orb_false_r].
    subst. by rewrite Hvis. }
  assert (HV0 : vis V0 v = false).
  { destruct (vis V0 v) eqn:E; [|done]. by rewrite Hmono in Hvis. }
  set (V' := u32_set (ds_visited st) (Z.of_nat v) 1).
  assert (HV' : forall j, vis V' j = vis (ds_visited st) j || bool_decide (v = j)) by (intros; apply vis_insert; lia).
  pose proof (unvisited_insert (ds_visited st) v ltac:(lia) Hvis) as Hun. fold V' in Hun.
  assert (Hnn : n = n1).
  { rewrite spread_nodes_lookup, Hn1 in Hnv. simpl in Hnv. unfold spread_node in Hnv.
    rewrite Hvis, andb_false_r in Hnv. simpl in Hnv. congruence. }
  subst n. fold (is_native n1).
  assert (Hnew : forall i, newly V' i <-> newly (ds_visited st) i \/ (i = v /\ is_native n1 = true)).
  { intros i. unfold newly. setoid_rewrite HV'. split.
    - intros (n & Hi & Hnat & Hvi & H0). apply orb_true_iff in Hvi as [|<-%bool_decide_eq_true]; [left; eauto|right].
      split; [done|]. congruence.
    - intros [(n & ? & ? & -> & ?)|[-> ?]]; eexists; split_and!; try done.
      by rewrite bool_decide_true, orb_true_r. }
  assert (Hsp : spread_nodes V' = if is_native n1 then <[v := enter_state (detached_state s) n1]> (spread_nodes (ds_visited st))
                                  else spread_nodes (ds_visited st)).
  { apply list_eq. intros j. rewrite spread_nodes_lookup.
    destruct (decide (v = j)) as [<-|Hne].
    - rewrite Hn1. simpl. unfold spread_node. rewrite HV', bool_decide_true, orb_true_r, HV0, !andb_true_r by done.
      destruct (is_native n1) eqn:E; [|by rewrite Hnv].
      rewrite list_lookup_insert_eq; [done|]. unfold spread_nodes. by rewrite length_imap.
    - destruct (is_native n1); [rewrite list_lookup_insert_ne by done|]; rewrite spread_nodes_lookup;
        (destruct (nodes1 !! j); [|done]); simpl; unfold spread_node;
        by rewrite HV', (bool_decide_false (v = j)), orb_false_r by done. }
  assert (Hlen' : length V' = length nodes1) by (unfold V'; by rewrite length_u32_set).
  assert (Hmono' : forall i, vis V0 i = true -> vis V' i = true) by (intros; rewrite HV', Hmono; done).
  assert (Hmap : nodeMap !! hn_id n1 = Some v) by (apply (wf_map _ _ _ WF); eauto).
  destruct (is_native n1) eqn:Hnat; cbn [negb].
  - exists (v :: T). split.
    + split; cbn [ds_visited ds_nodes]; try done.
      * rewrite (proj1 (push_stacks _ _ _ _)). by constructor.
      * rewrite (proj2 (push_stacks _ _ _ _)). done.
      * intros i [->|[|]%Htd]%elem_of_cons; [right|by left|right]; apply Hnew; auto.
      * intros i [|[-> _]]%Hnew; [auto|]. by eapply Hreach.
    + cbn [ds_visited]. split_and!; [set_solver| | |done|simpl; lia].
      * intros i [->|]%elem_of_cons; [right; apply Hnew; auto|by left].
      * intros i [|[-> _]]%Hnew; [by left|right; set_solver].
  - exists T. split.
    + split; cbn [ds_visited ds_nodes]; try done.
      * intros i [|]%Htd; [by left|right]. apply Hnew. auto.
      * intros i [|[_ ?]]%Hnew; [auto|done].
    + cbn [ds_visited]. split_and!; [done|auto| |done|lia].
      intros i [|[_ ?]]%Hnew; [by left|done].
Qed.

(** [v] is the target of edge [e], along which states spread. *)
Definition dom_target (e v : nat) : Prop :=
  exists edge, edges !! e = Some edge /\ dom_edge edge = true /\ nodeMap !! he_toNodeId edge = Some v.

Lemma dom_target_refers u n v :
  nodes1 !! u = Some n ->
  refers edges nodeMap dom_edge nodes1 u v <-> exists e, e ∈ hn_edges n /\ dom_target e v.
Proof.
  intros Hu. unfold refers, dom_target. split.
  { intros (n' & e & edge & H0 & He & Hedge & Hv & _ & Hok). assert (n' = n) as -> by congruence. eauto 10. }
  intros (e & He & edge & Hedge & Hok & Hv). exists n, e, edge. split_and!; try done.
  apply (wf_map _ _ _ WF) in Hv as (n' & Hn' & _). by eapply lookup_lt_Some.
Qed.

Lemma iterate_edge_target st T e :
  phase st T ->
  iterate_edge edges nodeMap (detached_state s) st e = st /\ (forall v, ~ dom_target e v) \/
  exists v, dom_target e v /\ (v < length nodes1)%nat /\
    iterate_edge edges nodeMap (detached_state s) st e = processNode (detached_state s) st v.
Proof.
  intros Hph. unfold iterate_edge, dom_target. destruct (edges !! e) as [edge|]; [|left; naive_solver].
  destruct (dom_edge edge) eqn:Hd; cbn [negb];
    [|left; split; [done|]; intros v (edge' & [= <-] & Hd' & _); congruence].
  destruct (get_node nodeMap (ds_nodes st) (he_toNodeId edge)) as [[c n]|] eqn:G.
  - apply get_node_spec in G as [G1 G2]. right. exists c. split_and!; [by eexists| |done].
    apply (wf_map _ _ _ WF) in G1 as (n' & Hn' & _). by eapply lookup_lt_Some.
  - left. split; [done|]. intros v (edge' & [= <-] & _ & Hv).
    pose proof Hv as (n' & Hn' & _)%(wf_map _ _ _ WF).
    destruct (Forall2_lookup_l _ _ _ _ _ (spread_nodes_keys (ds_visited st)) Hn') as (n & Hn & _).
    rewrite <- (ph_nodes _ _ Hph) in Hn.
    assert (get_node nodeMap (ds_nodes st) (he_toNodeId edge) = Some (v, n)) by by apply get_node_spec. congruence.
Qed.

Lemma iterate_phase es : forall st T,
  phase st T ->
  (forall e v n, e ∈ es -> dom_target e v -> nodes1 !! v = Some n -> is_native n = true ->
     vis V0 v = false -> spread v) ->
  let st' := fold_left (iterate_edge edges nodeMap (detached_state s)) es st in
  exists T', phase st' T' /\ (forall i, i ∈ T -> i ∈ T') /\
    (forall i, newly (ds_visited st') i -> newly (ds_visited st) i \/ i ∈ T') /\
    (forall i, vis (ds_visited st) i = true -> vis (ds_visited st') i = true) /\
    (forall e v, e ∈ es -> dom_target e v -> vis (ds_visited st') v = true) /\
    (length T' + unvisited (ds_visited st') <= length T + unvisited (ds_visited st))%nat.
Proof.
  induction es as [|e es IH]; intros st T Hph Hel; cbn [fold_left].
  { exists T. split_and!; auto. set_solver. }
  destruct (iterate_edge_target st T e Hph) as [[-> Hno]|(v & Htv & Hlt & ->)].
  - destruct (IH st T Hph) as (T' & H1 & H2 & H3 & H4 & H5 & H6); [set_solver|].
    exists T'. split_and!; auto. intros e' v [->|]%elem_of_cons Ht; [by apply Hno in Ht|eauto].
  - destruct (processNode_phase st T v Hph Hlt) as (T1 & P1 & P2 & P3 & P4 & P5 & P6).
    { intros n Hn ? ?. apply (Hel e v n); set_solver. }
    set (st1 := processNode (detached_state s) st v) in *.
    destruct (IH st1 T1 P1) as (T' & H1 & H2 & H3 & H4 & H5 & H6); [set_solver|].
    exists T'. split_and!; auto.
    + intros i [[|]%P4|]%H3; auto.
    + intros i Hi. apply H4. by rewrite P5, Hi.
    + intros e' w [->|]%elem_of_cons Ht; [|eauto]. apply H4. rewrite P5.
      assert (w = v) as -> by (unfold dom_target in *; naive_solver congruence).
      by rewrite bool_decide_true, orb_true_r.
    + lia.
Qed.

Context (HT0 : forall i, i ∈ T0 ->
  vis V0 i = true /\ exists n, nodes1 !! i = Some n /\ hn_detachedness n = detached_state s).

Definition closed (st : DOMState) (T : list nat) : Prop :=
  forall u v, u ∈ T0 \/ newly (ds_visited st) u -> u ∉ T ->
    refers edges nodeMap dom_edge nodes1 u v -> vis (ds_visited st) v = true.

Lemma pop_phase st T :
  phase st T ->
  match T with
  | [] => pop s st = None
  | i :: T' => exists id st', pop s st = Some (id, st') /\ nodeMap !! id = Some i /\
                 ds_nodes st' = ds_nodes st /\ ds_visited st' = ds_visited st /\ phase st' T'
  end.
Proof.
  intros [Hn Hl Hst Hot Hm Ht Hsd].
  assert (Hpop : forall id rest, stack st = id :: rest -> exists st', pop s st = Some (id, st') /\
    ds_nodes st' = ds_nodes st /\ ds_visited st' = ds_visited st /\ stack st' = rest /\
    other_stack st' = other_stack st).
  { clear -Hs. unfold stack, other_stack, pop. intros id rest. destruct s; [done|..]; intros E; rewrite E;
      eexists; by split_and!. }
  assert (Hnil : stack st = [] -> pop s st = None).
  { clear -Hs. unfold stack, pop. destruct s; [done|..]; intros ->; by repeat case_match. }
  destruct T as [|i T'].
  - apply Hnil. by inversion Hst.
  - inversion Hst as [|? id ? rest Hid HF E1 E2]. symmetry in E2.
    destruct (Hpop _ _ E2) as (st' & Hp & E3 & E4 & E5 & E6). exists id, st'.
    split_and!; try done. split; rewrite ?E3, ?E4, ?E5, ?E6; try done. intros j Hj. apply Ht. set_solver.
Qed.

Lemma spread_loop_total : forall fuel st T,
  phase st T -> closed st T -> (length T + unvisited (ds_visited st) <= fuel)%nat ->
  exists st', spread_loop edges nodeMap s fuel st = Some st' /\ phase st' [] /\ closed st' [] /\
    (unvisited (ds_visited st') <= length T + unvisited (ds_visited st))%nat.
Proof.
  induction fuel as [|fuel IH]; intros st [|i T] Hph Hcl Hfuel; pose proof (pop_phase _ _ Hph) as Hpop;
    cbn [spread_loop]; simpl in Hfuel; try lia.
  - rewrite Hpop. by exists st.
  - rewrite Hpop. by exists st.
  - destruct Hpop as (id & st1 & -> & Hid & En & Ev & Hph1).
    pose proof Hid as (n1 & Hn1 & _)%(wf_map _ _ _ WF).
    destruct (Forall2_lookup_l _ _ _ _ _ (spread_nodes_keys (ds_visited st1)) Hn1) as (n & Hn & (_ & _ & Hedges & _)).
    rewrite <- (ph_nodes _ _ Hph1) in Hn.
    rewrite (proj2 (get_node_spec nodeMap (ds_nodes st1) id i n)) by done.
    assert (Hdet : hn_detachedness n = detached_state s).
    { rewrite (ph_nodes _ _ Hph1), spread_nodes_lookup, Hn1 in Hn. simpl in Hn. injection Hn as <-.
      unfold spread_node. destruct (ph_todo _ _ Hph i) as [Hi|Hi]; [set_solver|..].
      - apply HT0 in Hi as (-> & n' & ? & Hd). rewrite andb_false_r. congruence.
      - destruct Hi as (n' & ? & Hnat & Hv & ->). assert (n' = n1) as -> by congruence.
        rewrite Hnat, Ev, Hv. by apply enter_state_detachedness. }
    assert (Hguard : match s with DETACHED => negb (hn_detachedness n =? detached_state ATTACHED) | _ => true end = true).
    { rewrite Hdet. clear. by destruct s. }
    rewrite Hguard. unfold iterateFilteredChildren. rewrite Hedges.
    assert (Hsp : spread i).
    { destruct (ph_todo _ _ Hph i) as [|Hi]; [set_solver|by constructor|]. exact (ph_sound _ _ Hph i Hi). }
    destruct (iterate_phase (hn_edges n1) st1 T Hph1) as (T' & P1 & P2 & P3 & P4 & P5 & P6).
    { intros e v nv He Ht Hnv Hnat Hv0. eapply spread_child; [exact Hsp| |done..].
      apply (dom_target_refers _ _ _ Hn1). eauto. }
    rewrite <- Ev in *. destruct (IH _ T' P1) as (st' & Hl & ? & ? & ?);
      [|lia|exists st'; split_and!; try done; simpl; lia].
    intros u v Hu Hnot Huv.
    destruct (decide (u = i)) as [->|Hne].
    { apply (dom_target_refers _ _ _ Hn1) in Huv as (e & He & Ht). eauto. }
    apply P4. unfold closed in Hcl. rewrite <- Ev in Hcl. apply (Hcl u v); [|set_solver|done].
    destruct Hu as [|[|]%P3]; [by left|by right|done].
Qed.

(** At the end of a phase exactly what the start reaches has changed. *)
Lemma phase_end st :
  phase st [] -> closed st [] ->
  forall i, newly (ds_visited st) i <-> spread i /\ vis V0 i = false.
Proof.
  intros Hph Hcl i. split.
  - intros Hi. split; [by eapply ph_sound|]. by destruct Hi as (? & _ & _ & _ & ?).
  - intros [Hsp H0].
    assert (Hin : i ∈ T0 \/ newly (ds_visited st) i).
    { induction Hsp as [i|u i n Hu IH Huv Hi Hnat Hv]; [by left|right]. exists n. split_and!; try done.
      apply (Hcl u i); [|set_solver|done]. destruct Hu as [u Hu|u' u n' ? ? ? ? Hv']; [by left|]. by apply IH. }
    destruct Hin as [Hi|]; [|done]. apply HT0 in Hi as [Hi _]. congruence.
Qed.
End Phase.

Lemma phase_start edges nodeMap nodes1 s T st :
  ds_nodes st = nodes1 -> length (ds_visited st) = length nodes1 ->
  Forall2 (fun i id => nodeMap !! id = Some i) T (stack s st) ->
  phase edges nodeMap nodes1 s (ds_visited st) T (other_stack s st) st T /\
  closed edges nodeMap nodes1 (ds_visited st) T st T.
Proof.
  intros Hn Hl HF.
  assert (Hnew : forall i, ~ newly nodes1 (ds_visited st) (ds_visited st) i)
    by (intros i (? & _ & _ & ? & ?); congruence).
  split.
  - split; try done.
    + rewrite Hn. apply list_eq. intros i. rewrite spread_nodes_lookup. destruct (nodes1 !! i) as [n|]; [|done].
      simpl. unfold spread_node. by rewrite <- andb_assoc, andb_negb_r, andb_false_r.
    + by left.
    + intros i Hi. by apply Hnew in Hi.
  - intros u v [Hu|Hu] Hnot; [done|by apply Hnew in Hu].
Qed.

(** A phase, from its start to its end. *)
Lemma run_phase edges nodeMap s T st fuel :
  let nodes1 := ds_nodes st in
  let V0 := ds_visited st in
  snapshot_wf edges nodeMap nodes1 -> s <> UNKNOWN -> length V0 = length nodes1 ->
  Forall2 (fun i id => nodeMap !! id = Some i) T (stack s st) ->
  (forall i, i ∈ T -> vis V0 i = true /\ exists n, nodes1 !! i = Some n /\ hn_detachedness n = detached_state s) ->
  (length T + unvisited V0 <= fuel)%nat ->
  exists st', spread_loop edges nodeMap s fuel st = Some st' /\
    phase edges nodeMap nodes1 s V0 T (other_stack s st) st' [] /\
    (forall i, newly nodes1 V0 (ds_visited st') i <-> spread edges nodeMap nodes1 V0 T i /\ vis V0 i = false) /\
    (unvisited (ds_visited st') <= length T + unvisited V0)%nat.
Proof.
  intros nodes1 V0 WF Hs Hlen HF HT Hfuel.
  destruct (phase_start edges nodeMap nodes1 s T st eq_refl Hlen HF) as [P C].
  destruct (spread_loop_total _ _ _ WF s Hs _ _ _ HT fuel st T P C Hfuel) as (st' & Hl & P' & C' & M).
  exists st'. split_and!; try done. by apply (phase_end _ _ _ WF s Hs V0 T _ HT st' P' C').
Qed.

(** ** The known nodes *)

Section Known.
Context (edges : list HeapEdge) (nodeMap : gmap Z nat) (nodes : list HeapNode).
Context (WF : snapshot_wf edges nodeMap nodes).

Definition known (n : HeapNode) : bool := negb (hn_detachedness n =? detached_state UNKNOWN).

Definition known_node (n : HeapNode) : HeapNode :=
  if is_native n && known n then enter_state (hn_detachedness n) n else n.

(** The references of native nodes in state [s] among the first [m]. *)
Definition in_state (s : DetachedNessState) (m i : nat) : Prop :=
  (i < m)%nat /\ exists n, nodes !! i = Some n /\ is_native n = true /\ hn_detachedness n = detached_state s.

Record known_inv (m : nat) (st : DOMState) (A D : list nat) : Prop := {
  ki_nodes : ds_nodes st = imap (fun i n => if Nat.ltb i m then known_node n else n) nodes;
  ki_len : length (ds_visited st) = length nodes;
  ki_vis : forall i n, nodes !! i = Some n -> vis (ds_visited st) i = Nat.ltb i m && known n;
  ki_attached : Forall2 (fun i id => nodeMap !! id = Some i) A (ds_attached st);
  ki_detached : Forall2 (fun i id => nodeMap !! id = Some i) D (ds_detached st);
  ki_A : forall i, i ∈ A <-> in_state ATTACHED m i;
  ki_D : forall i, i ∈ D <-> in_state DETACHED m i;
  ki_measure : (length A + length D + unvisited (ds_visited st) <= length nodes)%nat;
}.

Lemma ltb_S i m : Nat.ltb i (S m) = Nat.ltb i m || bool_decide (m = i).
Proof. case_bool_decide; destruct (Nat.ltb_spec i m), (Nat.ltb_spec i (S m)); simpl; lia. Qed.

Lemma known_nodes_step m n :
  nodes !! m = Some n ->
  imap (fun i x => if Nat.ltb i (S m) then known_node x else x) nodes
  = <[m := known_node n]> (imap (fun i x => if Nat.ltb i m then known_node x else x) nodes).
Proof.
  intros Hn. apply list_eq. intros i. rewrite list_lookup_imap, ltb_S.
  destruct (decide (m = i)) as [<-|Hne].
  - rewrite list_lookup_insert_eq by (rewrite length_imap; by eapply lookup_lt_Some).
    rewrite Hn. simpl. by rewrite bool_decide_true, orb_true_r.
  - rewrite list_lookup_insert_ne, list_lookup_imap, bool_decide_false, orb_false_r by done. done.
Qed.

Lemma in_state_step s m i n :
  nodes !! m = Some n ->
  in_state s (S m) i <->
    in_state s m i \/ (i = m /\ is_native n = true /\ hn_detachedness n = detached_state s).
Proof.
  intros Hn. unfold in_state. split.
  - intros (Hlt & n' & Hi & ?). destruct (decide (i = m)) as [->|]; [right; naive_solver congruence|left].
    split; [lia|eauto].
  - intros [[? ?]|(-> & ? & ?)]; (split; [lia|]); eauto.
Qed.

Lemma process_known_step m st A D :
  (m < length nodes)%nat -> known_inv m st A D ->
  exists A' D', known_inv (S m) (process_known st m) A' D'.
Proof.
  intros Hm [Hn Hl Hv HFA HFD HA HD Hms].
  destruct (lookup_lt_is_Some_2 _ _ Hm) as [n Hnm].
  assert (Hst : ds_nodes st !! m = Some n).
  { rewrite Hn, list_lookup_imap, Hnm. simpl. by rewrite Nat.ltb_irrefl. }
  pose proof (known_nodes_step m n Hnm) as Hstep. rewrite <- Hn in Hstep.
  assert (Hvm : vis (ds_visited st) m = false) by (rewrite (Hv m n Hnm), Nat.ltb_irrefl; done).
  assert (Hin : forall s i, in_state s (S m) i <-> in_state s m i \/
    (i = m /\ is_native n = true /\ hn_detachedness n = detached_state s)) by (intros; by apply in_state_step).
  assert (Hmap : nodeMap !! hn_id n = Some m) by (apply (wf_map _ _ _ WF); eauto).
  unfold process_known. rewrite Hst.
  destruct (Z.eqb_spec (hn_detachedness n) (detached_state UNKNOWN)) as [Hu|Hk].
  { assert (Hkn : known n = false) by (unfold known; rewrite Hu; done).
    exists A, D. split; try done.
    - rewrite Hstep. unfold known_node. rewrite Hkn, andb_false_r. symmetry. by apply list_insert_id.
    - intros i n' Hi. rewrite (Hv i n' Hi), ltb_S. case_bool_decide as E; [|by rewrite orb_false_r].
      subst i. assert (n' = n) as -> by congruence. by rewrite Hkn, !andb_false_r.
    - intros i. rewrite HA, Hin, Hu. split; [by left|intros [|(_ & _ & ?)]; done].
    - intros i. rewrite HD, Hin, Hu. split; [by left|intros [|(_ & _ & ?)]; done]. }
  assert (Hkn : known n = true) by (unfold known; destruct (Z.eqb_spec (hn_detachedness n) (detached_state UNKNOWN)); done).
  unfold processNode. rewrite Hst, (wf_index _ _ _ WF _ _ Hnm). fold (vis (ds_visited st) m). rewrite Hvm.
  fold (is_native n). set (V' := u32_set (ds_visited st) (Z.of_nat m) 1).
  assert (HV' : forall i n', nodes !! i = Some n' -> vis V' i = Nat.ltb i (S m) && known n').
  { intros i n' Hi. unfold V'. rewrite vis_insert by lia. rewrite (Hv i n' Hi), ltb_S.
    case_bool_decide as E; [|by rewrite !orb_false_r]. subst i. assert (n' = n) as -> by congruence.
    by rewrite Hkn, !orb_true_r. }
  pose proof (unvisited_insert (ds_visited st) m ltac:(lia) Hvm) as Hun. fold V' in Hun.
  assert (HlV : length V' = length nodes) by (unfold V'; by rewrite length_u32_set).
  destruct (is_native n) eqn:Hnat; cbn [negb].
  2: { exists A, D. split; cbn [ds_nodes ds_visited ds_attached ds_detached]; try done; [| | |lia].
       2,3: intros i; rewrite ?HA, ?HD, Hin; split; [by left|intros [|(_ & ? & _)]; done].
       rewrite Hstep. unfold known_node. rewrite Hnat. symmetry. by apply list_insert_id. }
  exists (if hn_detachedness n =? detached_state ATTACHED then m :: A else A),
    (if hn_detachedness n =? detached_state ATTACHED then D
     else if hn_detachedness n =? detached_state DETACHED then m :: D else D).
  split; cbn [ds_nodes ds_visited ds_attached ds_detached]; try done.
  - rewrite Hstep. unfold known_node. by rewrite Hnat, Hkn.
  - case_match; [by constructor|done].
  - repeat case_match; try done. by constructor.
  - intros i. destruct (Z.eqb_spec (hn_detachedness n) (detached_state ATTACHED)) as [E|E];
      rewrite ?elem_of_cons, HA, Hin; [rewrite E|]; intuition.
  - intros i. destruct (Z.eqb_spec (hn_detachedness n) (detached_state ATTACHED)) as [E|E].
    + rewrite HD, Hin, E. split; [by left|intros [|(_ & _ & ?)]; done].
    + destruct (Z.eqb_spec (hn_detachedness n) (detached_state DETACHED)) as [E'|E'];
        rewrite ?elem_of_cons, HD, Hin; [rewrite E'|]; intuition.
  - repeat case_match; simpl; lia.
Qed.

Lemma process_known_all m st :
  (m <= length nodes)%nat -> known_inv 0 st [] [] ->
  exists A D, known_inv m (fold_left process_known (seq 0 m) st) A D.
Proof.
  induction m as [|m IH]; intros Hm H0; [by exists [], []|].
  destruct IH as (A & D & IH); [lia|done|]. rewrite seq_S, fold_left_app.
  apply process_known_step with A D; [lia|done].
Qed.

Lemma known_inv_start :
  known_inv 0 {| ds_nodes := nodes; ds_visited := zeros (zlen nodes); ds_attached := []; ds_detached := [] |} [] [].
Proof.
  assert (Hz : length (zeros (zlen nodes)) = length nodes)
    by (unfold zeros, zlen; rewrite length_replicate; lia).
  split; cbn [ds_nodes ds_visited ds_attached ds_detached]; try done.
  - apply list_eq. intros i. rewrite list_lookup_imap. by destruct (nodes !! i).
  - intros i n Hi. unfold vis. rewrite (u32_at_Some _ _ 0); [done|]. apply zeros_lookup.
    apply lookup_lt_Some in Hi. unfold zlen. lia.
  - intros i. unfold in_state. split; [set_solver|intros [? _]; lia].
  - intros i. unfold in_state. split; [set_solver|intros [? _]; lia].
  - rewrite <- Hz. unfold unvisited. clear. induction (zeros (zlen nodes)); simpl; [done|]. case_match; simpl in *; lia.
Qed.
End Known.

(** ** The whole propagation *)

Section Distribute.
Context (edges : list HeapEdge) (nodeMap : gmap Z nat) (nodes : list HeapNode).
Context (WF : snapshot_wf edges nodeMap nodes).

Lemma known_node_keys n : same_keys n (known_node n).
Proof. unfold known_node. case_match; [apply enter_state_keys|by destruct n]. Qed.

Lemma known_node_unknown n : known n = false -> known_node n = n.
Proof. unfold known_node. intros ->. by rewrite andb_false_r. Qed.

Lemma is_native_keys n n' : same_keys n n' -> is_native n' = is_native n.
Proof. unfold is_native. by intros (_ & _ & _ & -> & _). Qed.

Lemma known_unknown n : known n = false <-> hn_detachedness n = detached_state UNKNOWN.
Proof. unfold known. rewrite negb_false_iff. apply Z.eqb_eq. Qed.

(** The state after the known nodes. *)
Context (st1 : DOMState) (A D : list nat).
Context (K : known_inv nodeMap nodes (length nodes) st1 A D).
Let nodes1 := ds_nodes st1.
Let V1 := ds_visited st1.

Lemma nodes1_eq : nodes1 = known_node <$> nodes.
Proof.
  unfold nodes1. rewrite (ki_nodes _ _ _ _ _ _ K). apply list_eq. intros i.
  rewrite list_lookup_imap, list_lookup_fmap. destruct (nodes !! i) as [n|] eqn:E; [|done]. simpl.
  apply lookup_lt_Some in E. destruct (Nat.ltb_spec i (length nodes)); [done|lia].
Qed.

Lemma nodes1_keys : Forall2 same_keys nodes nodes1.
Proof. rewrite nodes1_eq. apply Forall2_fmap_r, Forall_Forall2_diag, Forall_true. apply known_node_keys. Qed.

Lemma V1_vis i n : nodes !! i = Some n -> vis V1 i = known n.
Proof.
  intros Hi. unfold V1. rewrite (ki_vis _ _ _ _ _ _ K i n Hi). apply lookup_lt_Some in Hi.
  destruct (Nat.ltb_spec i (length nodes)); [done|lia].
Qed.

Lemma known_in_state s i :
  in_state nodes s (length nodes) i -> s <> UNKNOWN ->
  vis V1 i = true /\ exists n, nodes1 !! i = Some n /\ hn_detachedness n = detached_state s.
Proof.
  intros (_ & n & Hn & Hnat & Hd) Hs. assert (Hk : known n = true) by (unfold known; rewrite Hd; by destruct s).
  split; [by rewrite (V1_vis _ _ Hn)|]. exists (known_node n). rewrite nodes1_eq, list_lookup_fmap, Hn.
  split; [done|]. unfold known_node. rewrite Hnat, Hk, Hd. by apply enter_state_detachedness.
Qed.

(** What spreads from the known attached nodes is attached. *)
Lemma spread_attached i : spread edges nodeMap nodes1 V1 A i <-> attached edges nodeMap nodes i.
Proof.
  split.
  - induction 1 as [i Hi|u i n Hu IH Huv Hn Hnat Hv].
    + apply (ki_A _ _ _ _ _ _ K) in Hi as (_ & n & ? & ? & ?). by eapply attached_known.
    + destruct (Forall2_lookup_r _ _ _ _ _ nodes1_keys Hn) as (n0 & Hn0 & Hk).
      rewrite (V1_vis _ _ Hn0), known_unknown in Hv. rewrite (is_native_keys _ _ Hk) in Hnat.
      eapply attached_child; [exact IH| |done..]. by apply (refers_keys _ _ _ _ _ _ _ nodes1_keys).
  - induction 1 as [i n Hn Hnat Hd|u i n Hu IH Huv Hn Hnat Hd].
    + constructor. apply (ki_A _ _ _ _ _ _ K). split; [by eapply lookup_lt_Some|eauto].
    + destruct (Forall2_lookup_l _ _ _ _ _ nodes1_keys Hn) as (n1 & Hn1 & Hk).
      eapply spread_child; [exact IH| |done| |].
      * by apply (refers_keys _ _ _ _ _ _ _ nodes1_keys).
      * by rewrite (is_native_keys _ _ Hk).
      * by rewrite (V1_vis _ _ Hn), known_unknown.
Qed.

(** The state after the attached nodes. *)
Context (st2 : DOMState).
Context (P2 : phase edges nodeMap nodes1 ATTACHED V1 A (ds_detached st1) st2 []).
Context (N2 : forall i, newly nodes1 V1 (ds_visited st2) i <-> spread edges nodeMap nodes1 V1 A i /\ vis V1 i = false).
Let nodes2 := ds_nodes st2.
Let V2 := ds_visited st2.

Lemma nodes2_keys : Forall2 same_keys nodes nodes2.
Proof.
  unfold nodes2. rewrite (ph_nodes _ _ _ _ _ _ _ _ _ P2).
  etrans; [apply nodes1_keys|apply spread_nodes_keys].
Qed.

Lemma V2_free i n :
  nodes !! i = Some n -> is_native n = true ->
  vis V2 i = false <-> hn_detachedness n = detached_state UNKNOWN /\ ~ attached edges nodeMap nodes i.
Proof.
  intros Hn Hnat. pose proof (V1_vis _ _ Hn) as H1. rewrite <- spread_attached, <- known_unknown, <- H1.
  destruct (Forall2_lookup_l _ _ _ _ _ nodes1_keys Hn) as (n1 & Hn1 & Hk). split.
  - intros H2. assert (HV1 : vis V1 i = false).
    { destruct (vis V1 i) eqn:E; [|done]. apply (ph_mono _ _ _ _ _ _ _ _ _ P2) in E. unfold V2 in H2. congruence. }
    split; [done|]. intros Hsp. destruct (proj2 (N2 i) (conj Hsp HV1)) as (? & _ & _ & Hv & _).
    unfold V2 in H2. congruence.
  - intros [HV1 Hno]. destruct (vis V2 i) eqn:E; [|done]. exfalso. apply Hno, (N2 i).
    exists n1. split_and!; try done. by rewrite (is_native_keys _ _ Hk).
Qed.

Lemma spread_detached i : spread edges nodeMap nodes2 V2 D i <-> detached edges nodeMap nodes i.
Proof.
  split.
  - induction 1 as [i Hi|u i n Hu IH Huv Hn Hnat Hv].
    + apply (ki_D _ _ _ _ _ _ K) in Hi as (_ & n & ? & ? & ?). by eapply detached_known.
    + destruct (Forall2_lookup_r _ _ _ _ _ nodes2_keys Hn) as (n0 & Hn0 & Hk).
      rewrite (is_native_keys _ _ Hk) in Hnat. apply (V2_free _ _ Hn0 Hnat) in Hv as [Hd Hno].
      eapply detached_child; [exact IH| |done..]. by apply (refers_keys _ _ _ _ _ _ _ nodes2_keys).
  - induction 1 as [i n Hn Hnat Hd|u i n Hu IH Huv Hn Hnat Hd Hno].
    + constructor. apply (ki_D _ _ _ _ _ _ K). split; [by eapply lookup_lt_Some|eauto].
    + destruct (Forall2_lookup_l _ _ _ _ _ nodes2_keys Hn) as (n2 & Hn2 & Hk).
      eapply spread_child; [exact IH| |done| |].
      * by apply (refers_keys _ _ _ _ _ _ _ nodes2_keys).
      * by rewrite (is_native_keys _ _ Hk).
      * by apply (V2_free _ _ Hn Hnat).
Qed.

(** The state after the detached nodes. *)
Context (st3 : DOMState).
Context (P3 : phase edges nodeMap nodes2 DETACHED V2 D [] st3 []).
Context (N3 : forall i, newly nodes2 V2 (ds_visited st3) i <-> spread edges nodeMap nodes2 V2 D i /\ vis V2 i = false).

Lemma nodes3_lookup i n :
  nodes !! i = Some n ->
  ds_nodes st3 !! i = Some (spread_node DETACHED V2 (ds_visited st3) i
                             (spread_node ATTACHED V1 V2 i (known_node n))).
Proof.
  intros Hn. rewrite (ph_nodes _ _ _ _ _ _ _ _ _ P3), spread_nodes_lookup. unfold nodes2.
  by rewrite (ph_nodes _ _ _ _ _ _ _ _ _ P2), spread_nodes_lookup, nodes1_eq, list_lookup_fmap, Hn.
Qed.

(** A phase leaves a node alone that was visited before, or that is not native,
    or that the phase does not reach. *)
Lemma spread_node_same s V V' j n : is_native n && vis V' j && negb (vis V j) = false -> spread_node s V V' j n = n.
Proof. unfold spread_node. by intros ->. Qed.

Lemma distribute_result i n :
  nodes !! i = Some n ->
  (attached edges nodeMap nodes i -> ds_nodes st3 !! i = Some (enter_state (detached_state ATTACHED) n)) /\
  (detached edges nodeMap nodes i -> ds_nodes st3 !! i = Some (enter_state (detached_state DETACHED) n)) /\
  (~ attached edges nodeMap nodes i -> ~ detached edges nodeMap nodes i -> ds_nodes st3 !! i = Some n).
Proof.
  intros Hn. rewrite (nodes3_lookup _ _ Hn). pose proof (V1_vis _ _ Hn) as HV1.
  assert (Hmono2 : vis V1 i = true -> vis V2 i = true) by apply (ph_mono _ _ _ _ _ _ _ _ _ P2).
  pose proof (is_native_keys _ _ (known_node_keys n)) as Hkn.
  pose proof (Forall2_lookup_l _ _ _ _ _ nodes1_keys Hn) as (n1 & Hn1 & Hk1).
  pose proof (Forall2_lookup_l _ _ _ _ _ nodes2_keys Hn) as (n2 & Hn2 & Hk2).
  split_and!.
  - intros Hatt. assert (Hnat : is_native n = true) by (destruct Hatt; congruence).
    assert (HV2 : vis V2 i = true).
    { destruct (vis V2 i) eqn:E; [done|]. by apply (V2_free _ _ Hn Hnat) in E as [_ ?]. }
    rewrite (spread_node_same DETACHED) by (rewrite HV2, andb_false_r; done). f_equal.
    unfold spread_node. rewrite Hkn, Hnat, HV2, HV1. simpl.
    assert (Hd : hn_detachedness n = detached_state ATTACHED \/ hn_detachedness n = detached_state UNKNOWN).
    { destruct Hatt as [? n' Hn' _ ?|? ? n' _ _ Hn' _ ?]; [left|right]; congruence. }
    unfold known_node, known. rewrite Hnat. by destruct Hd as [-> | ->].
  - intros Hdet. assert (Hnat : is_native n = true) by (destruct Hdet; congruence).
    destruct (vis V2 i) eqn:HV2.
    + rewrite (spread_node_same DETACHED) by (rewrite HV2, andb_false_r; done). f_equal.
      destruct Hdet as [? n' Hn' _ Hd|? ? n' _ _ Hn' _ Hd Hno]; assert (n' = n) as -> by congruence.
      * rewrite spread_node_same.
        -- unfold known_node, known. by rewrite Hnat, Hd.
        -- rewrite HV1. unfold known. rewrite Hd. by rewrite andb_false_r.
      * rewrite (proj2 (V2_free _ _ Hn Hnat)) in HV2; done.
    + apply (V2_free _ _ Hn Hnat) in HV2 as Hfree. destruct Hfree as [Hd Hno].
      assert (Hku : known n = false) by by apply known_unknown.
      assert (HV3 : vis (ds_visited st3) i = true).
      { apply spread_detached in Hdet. by destruct (proj2 (N3 i) (conj Hdet HV2)) as (? & _ & _ & ? & _). }
      rewrite (known_node_unknown _ Hku), (spread_node_same ATTACHED) by (by rewrite HV2, andb_false_r).
      unfold spread_node. by rewrite Hnat, HV3, HV2.
  - intros Hna Hnd.
    assert (H2 : is_native (known_node n) && vis V2 i && negb (vis V1 i) = false).
    { rewrite Hkn. destruct (is_native n) eqn:Hnat, (vis V2 i) eqn:E2, (vis V1 i) eqn:E1; try done.
      exfalso. apply Hna, spread_attached, (N2 i). exists n1. split_and!; try done.
      by rewrite (is_native_keys _ _ Hk1). }
    rewrite (spread_node_same ATTACHED _ _ _ _ H2).
    rewrite spread_node_same.
    + f_equal. unfold known_node, known, enter_state.
      destruct (is_native n) eqn:Hnat; [|done]. simpl.
      destruct (Z.eqb_spec (hn_detachedness n) 0); [done|]. simpl.
      destruct (Z.eqb_spec (hn_detachedness n) 1) as [E|]; [exfalso; apply Hna; by eapply attached_known|].
      destruct (Z.eqb_spec (hn_detachedness n) 2) as [E|]; [exfalso; apply Hnd; by eapply detached_known|].
      by destruct n.
    + rewrite Hkn. destruct (is_native n) eqn:Hnat, (vis V2 i) eqn:E2, (vis (ds_visited st3) i) eqn:E3; try done.
      exfalso. apply Hnd, spread_detached, (N3 i). exists n2. split_and!; try done.
      by rewrite (is_native_keys _ _ Hk2).
Qed.
End Distribute.

(** A node that has entered states, perhaps none. *)
Definition entered : HeapNode -> HeapNode -> Prop := rtc (fun a b => exists z, b = enter_state z a).

Lemma entered_once (c : bool) z n : entered n (if c then enter_state z n else n).
Proof. destruct c; [|apply rtc_refl]. apply rtc_once. eauto. Qed.

Lemma distributeDOMState_run edges nodeMap nodes :
  snapshot_wf edges nodeMap nodes ->
  exists nodes', distributeDOMState edges nodeMap (zlen nodes) nodes = Some nodes' /\
    Forall2 entered nodes nodes' /\
    forall i n, nodes !! i = Some n ->
      (attached edges nodeMap nodes i -> nodes' !! i = Some (with_detachedness 1 n)) /\
      (detached edges nodeMap nodes i -> nodes' !! i =
         Some (set_flag DETACHED_DOM_NODE
           (with_displayName (js "Detached " ++ default (js "undefined") (hn_name n)) (with_detachedness 2 n)))) /\
      (~ attached edges nodeMap nodes i -> ~ detached edges nodeMap nodes i -> nodes' !! i = Some n).
Proof.
  intros WF. unfold distributeDOMState.
  destruct (process_known_all edges nodeMap nodes WF (length nodes) _ ltac:(done) (known_inv_start _ _ _ WF)) as (A & D & K).
  set (st1 := fold_left process_known _ _) in *. pose proof (ki_measure _ _ _ _ _ _ K) as Hms.
  pose proof (nodes1_keys _ _ _ _ _ K) as K1. pose proof (snapshot_wf_keys _ _ _ _ K1 WF) as WF1.
  destruct (run_phase edges nodeMap ATTACHED A st1 (length nodes)) as (st2 & -> & P2 & N2 & M2); [done|done| |apply K| |lia|].
  { rewrite (ki_len _ _ _ _ _ _ K). by apply Forall2_length in K1. }
  { intros i Hi%(ki_A _ _ _ _ _ _ K). by apply (known_in_state _ _ _ _ _ K). }
  cbn [mbind option_bind].
  pose proof (nodes2_keys _ _ _ _ _ _ K _ P2) as K2. pose proof (snapshot_wf_keys _ _ _ _ K2 WF) as WF2.
  pose proof (ph_other _ _ _ _ _ _ _ _ _ P2) as Ho. cbn [other_stack] in Ho.
  assert (Ha : ds_attached st2 = []) by (pose proof (ph_stack _ _ _ _ _ _ _ _ _ P2) as H; by inversion H).
  destruct (run_phase edges nodeMap DETACHED D st2 (length nodes)) as (st3 & -> & P3 & N3 & M3); [done|done| | | |lia|].
  { rewrite (ph_len _ _ _ _ _ _ _ _ _ P2), <- (Forall2_length _ _ _ K2). by rewrite <- (Forall2_length _ _ _ K1). }
  { cbn [stack]. rewrite Ho. apply K. }
  { intros i Hi%(ki_D _ _ _ _ _ _ K). destruct (known_in_state _ _ _ _ _ K _ _ Hi ltac:(done)) as (Hv & n & Hn & Hd).
    split; [by apply (ph_mono _ _ _ _ _ _ _ _ _ P2)|]. exists n. split; [|done].
    rewrite (ph_nodes _ _ _ _ _ _ _ _ _ P2), spread_nodes_lookup, Hn. simpl. f_equal.
    apply spread_node_same. by rewrite Hv, andb_false_r. }
  cbn [mbind option_bind other_stack] in *. rewrite Ha in P3. eexists. split; [done|]. split.
  { apply Forall2_same_length_lookup_2.
    - rewrite (ph_nodes _ _ _ _ _ _ _ _ _ P3). unfold spread_nodes. rewrite length_imap. by apply Forall2_length in K2.
    - intros i n n' Hn. rewrite (nodes3_lookup edges nodeMap nodes st1 A D K st2 P2 st3 P3 i n Hn). intros [= <-].
      unfold spread_node, known_node. etrans; [apply entered_once|]. etrans; apply entered_once. }
  intros i n Hn.
  pose proof (distribute_result edges nodeMap nodes st1 A D K st2 P2 N2 st3 P3 N3 i n Hn) as H.
  destruct n. exact H.
Qed.

(** DOM states spread as the comments in the code say.  On a well-formed
    snapshot [distributeDOMState] terminates; a native node is then in state
    attached exactly when it was known to be attached or an attached node refers
    to it (and its state was unknown); it is detached, renamed and flagged,
    exactly when it was known to be detached or it is not attached and a detached
    node refers to it; every other node is as before. *)
Theorem distributeDOMState_spreads edges nodeMap nodes :
  snapshot_wf edges nodeMap nodes ->
  exists nodes', distributeDOMState edges nodeMap (zlen nodes) nodes = Some nodes' /\
    forall i n, nodes !! i = Some n ->
      (attached edges nodeMap nodes i -> nodes' !! i = Some (with_detachedness 1 n)) /\
      (detached edges nodeMap nodes i -> nodes' !! i =
         Some (set_flag DETACHED_DOM_NODE
           (with_displayName (js "Detached " ++ default (js "undefined") (hn_name n)) (with_detachedness 2 n)))) /\
      (~ attached edges nodeMap nodes i -> ~ detached edges nodeMap nodes i -> nodes' !! i = Some n).
Proof.
  intros WF. destruct (distributeDOMState_run edges nodeMap nodes WF) as (nodes' & ? & _ & ?). by exists nodes'.
Qed.

(** Five native nodes: 1 is detached and refers to 2, which refers to 3; 4 is
    attached and refers to 3. *)
Definition dom_row (index id edgeCount detachedness : Z) : node_row :=
  {| nr_nodeIndex := index; nr_type := 8; nr_nameIdx := 3; nr_id := id; nr_selfSize := 8;
     nr_edgeCount := edgeCount; nr_traceNodeId := 0; nr_detachedness := detachedness |}.

Definition dom_rows : list node_row :=
  [dom_row 0 1 1 0; dom_row 1 3 1 2; dom_row 2 5 1 0; dom_row 3 7 0 0; dom_row 4 9 1 1].

Definition dom_edges : list HeapEdge :=
  [sample_edge 0 6 3; sample_edge 1 2 5; sample_edge 2 2 7; sample_edge 3 2 7].

Lemma dom_rows_ok : rows_ok dom_rows dom_edges.
Proof. solve_rows_ok. Qed.

Lemma distributeDOMState_spreads_witness :
  exists nodes nodes',
    node_array 5 (loadNode 1 sample_strings dom_rows).1.1 = Some nodes /\
    distributeDOMState dom_edges (node_index_map (buildNodeEdge dom_edges nodes)) (zlen (buildNodeEdge dom_edges nodes))
      (buildNodeEdge dom_edges nodes) = Some nodes' /\
    hn_detachedness <$> nodes' = [0; 2; 2; 1; 1] /\
    nodeName <$> nodes' = Some <$> [js "Node"; js "Detached Node"; js "Detached Node"; js "Node"; js "Node"].
Proof.
  destruct (load_wf 1 sample_strings dom_rows dom_edges dom_rows_ok) as (nodes & Hn & _ & WF & _).
  destruct (distributeDOMState_spreads _ _ _ WF) as (nodes' & Hd & _).
  exists nodes, nodes'. split; [exact Hn|]. split; [exact Hd|].
  vm_compute in Hn. injection Hn as <-. vm_compute in Hd. injection Hd as <-. split; reflexivity.
Defined.
