(* ===== verification/HeapDistance.v ===== *)
(** * Distances from the root

    [HeapLoader.calDistances], [bfs] and [filterForBpf]
    ([js-heap/logic/HeapLoader.ts]). *)

From S2P Require Import Prelude JsRuntime HeapModel HeapRetainers HeapFlags HeapDom.

Definition BASE_SYSTEM_DISTANCE : Z := 100000000.

Definition filterForBpf (node : HeapNode) (edge : HeapEdge) : bool :=
  if hn_type node =? node_type HIDDEN then
    negb (bool_decide (he_nameOrIndex edge = js "sloppy_function_map"))
    || negb (bool_decide (hn_name node = Some (js "system / NativeContext")))
  else if hn_type node =? node_type ARRAY then
    if negb (bool_decide (hn_name node = Some (js "(map descriptors)"))) then true
    else match parseInt10 (he_nameOrIndex edge) with
         | Some index => (index <? 2) || negb (Z.rem index 3 =? 1)
         | None => true
         end
  else true.

Section Distances.
Context (edges : list HeapEdge) (nodeMap : gmap Z nat).

(** The nodes, the array [nodesToVisit] and its used length. *)
Record bfs_state := { bs_nodes : list HeapNode; bs_visit : list Z; bs_len : Z }.

Definition bfs_edge (node : HeapNode) (distance : Z) (st : bfs_state) (e : nat) : bfs_state :=
  match edges !! e with
  | None => st
  | Some edge =>
      if edge_is EDGE_WEAK edge then st
      else match get_node nodeMap (bs_nodes st) (he_toNodeId edge) with
           | None => st
           | Some (c, childNode) =>
               if negb (hn_distance childNode =? -5) || negb (filterForBpf node edge) then st
               else {| bs_nodes := <[c := with_distance distance childNode]> (bs_nodes st);
                       bs_visit := u32_set (bs_visit st) (bs_len st) (hn_id childNode);
                       bs_len := bs_len st + 1 |}
           end
  end.

Definition bfs_round (st : bfs_state) (index : Z) : bfs_state :=
  match zlookup index (bs_visit st) with
  | None => st
  | Some nodeId =>
      match get_node nodeMap (bs_nodes st) nodeId with
      | None => st
      | Some (_, node) => fold_left (bfs_edge node (hn_distance node + 1)) (hn_edges node) st
      end
  end.

Fixpoint bfs_loop (fuel : nat) (st : bfs_state) (index : Z) : option bfs_state :=
  if index <? bs_len st then
    match fuel with
    | O => None
    | S fuel' => bfs_loop fuel' (bfs_round st index) (index + 1)
    end
  else Some st.

(** [None]: more rounds are needed than entries can be added. *)
Definition bfs (nodeCount : Z) (st : bfs_state) : option (res bfs_state) :=
  st' ← bfs_loop (Z.to_nat (bs_len st) + length (bs_nodes st)) st 0;
  Some (if bs_len st' >? nodeCount then Throw (JsError "BFS failed") else Ok st').

Definition push_user_root (st : bfs_state) (e : nat) : bfs_state :=
  match edges !! e with
  | None => st
  | Some edge =>
      match get_node nodeMap (bs_nodes st) (he_toNodeId edge) with
      | None => st
      | Some (c, node) =>
          if isUserRoot node || isDocumentDOMTreesRoot node then
            {| bs_nodes := <[c := with_distance 1 node]> (bs_nodes st);
               bs_visit := u32_set (bs_visit st) (bs_len st) (hn_id node);
               bs_len := bs_len st + 1 |}
          else st
      end
  end.

Definition calDistances (nodeCount : Z) (nodes : list HeapNode) : option (res (list HeapNode)) :=
  match nodes !! 0%nat with
  | None => Some (Ok nodes)
  | Some _ =>
      let st := fold_left push_user_root (root_edges nodes)
                  {| bs_nodes := nodes; bs_visit := zeros nodeCount; bs_len := 0 |} in
      let nodesToVisitLen := bs_len st in
      r ← bfs nodeCount st;
      match r with
      | Throw e => Some (Throw e)
      | Ok st =>
          let nodes := alter (with_distance (if nodesToVisitLen >? 0 then BASE_SYSTEM_DISTANCE else 0)) 0%nat
                         (bs_nodes st) in
          let rootId := from_option hn_id 0 (nodes !! 0%nat) in
          r ← bfs nodeCount {| bs_nodes := nodes; bs_visit := u32_set (bs_visit st) 0 rootId; bs_len := 1 |};
          Some (match r with Throw e => Throw e | Ok st => Ok (bs_nodes st) end)
      end
  end.

(** ** Paths *)

Definition bfs_ref (nodes : list HeapNode) (u v : nat) : Prop :=
  exists n e edge, nodes !! u = Some n /\ e ∈ hn_edges n /\ edges !! e = Some edge /\
    nodeMap !! he_toNodeId edge = Some v /\ edge_is EDGE_WEAK edge = false /\ filterForBpf n edge = true.

Inductive path (nodes : list HeapNode) (start : nat -> Prop) : nat -> nat -> Prop :=
  | path_start v : start v -> path nodes start 0 v
  | path_step k u v : path nodes start k u -> bfs_ref nodes u v -> path nodes start (S k) v.

(** [v] is [k] references away from the nearest start. *)
Definition nearest (nodes : list HeapNode) (start : nat -> Prop) (k v : nat) : Prop :=
  path nodes start k v /\ forall j, path nodes start j v -> (k <= j)%nat.
End Distances.

(** ** Passes that only change distances *)

Definition dist_only (nodes nodes' : list HeapNode) : Prop :=
  Forall2 (fun n n' => n' = with_distance (hn_distance n') n) nodes nodes'.

#[export] Instance dist_only_preorder : PreOrder dist_only.
Proof.
  split.
  - intros l. induction l as [|n l IH]; constructor; [by destruct n|done].
  - intros l1 l2 l3 H12. revert l3. induction H12 as [|a b l1 l2 Hab _ IH]; intros l3 H23.
    + inversion H23. constructor.
    + inversion_clear H23 as [|? c ? l3' Hbc Hl]. constructor; [|by apply IH].
      rewrite Hbc, Hab. by destruct a.
Qed.

Lemma dist_only_insert nodes i n d :
  nodes !! i = Some n -> dist_only nodes (<[i := with_distance d n]> nodes).
Proof.
  intros Hi. rewrite <- (list_insert_id nodes i n Hi) at 1. apply Forall2_insert; [reflexivity|by destruct n].
Qed.

Lemma dist_only_keys nodes nodes' : dist_only nodes nodes' -> Forall2 same_keys nodes nodes'.
Proof. intros H. eapply Forall2_impl; [exact H|]. intros n n' E. rewrite E. by destruct n. Qed.

Lemma bfs_ref_keys edges nodeMap nodes nodes' u v :
  Forall2 same_keys nodes nodes' -> bfs_ref edges nodeMap nodes u v <-> bfs_ref edges nodeMap nodes' u v.
Proof.
  intros HF.
  assert (Hf : forall n n' edge, same_keys n n' -> filterForBpf n' edge = filterForBpf n edge)
    by (unfold filterForBpf; intros n n' edge (_ & _ & _ & -> & ->); done).
  split; intros (n & e & edge & Hu & He & H1 & H2 & H3 & H4).
  - destruct (Forall2_lookup_l _ _ _ _ _ HF Hu) as (n' & Hu' & Hk). exists n', e, edge.
    rewrite (Hf _ _ _ Hk). destruct Hk as (_ & _ & -> & _). done.
  - destruct (Forall2_lookup_r _ _ _ _ _ HF Hu) as (n' & Hu' & Hk). exists n', e, edge.
    rewrite (Hf _ _ _ Hk) in H4. destruct Hk as (_ & _ & <- & _). done.
Qed.

Definition dist (nodes : list HeapNode) (v : nat) : Z := from_option hn_distance (-5) (nodes !! v).

Lemma dist_insert nodes i n d v :
  nodes !! i = Some n -> dist (<[i := with_distance d n]> nodes) v = if decide (i = v) then d else dist nodes v.
Proof.
  intros Hi. unfold dist. case_decide as E.
  - subst. rewrite list_lookup_insert_eq by (by eapply lookup_lt_Some). by destruct n.
  - by rewrite list_lookup_insert_ne.
Qed.

(** ** Breadth-first search

    From a queue [Q0] of nodes at distance [b], over nodes whose distance is not
    yet set.  [Q0] may name a node several times; the array has room for as many
    entries as there are nodes, and what is pushed beyond is not visited. *)

Section Bfs.
Context (edges : list HeapEdge) (nodeMap : gmap Z nat) (nodes0 : list HeapNode).
Context (WF : snapshot_wf edges nodeMap nodes0).
Context (HID : forall i n, nodes0 !! i = Some n -> is_u32 (hn_id n)).
Context (b : Z) (Hb : 0 <= b) (Q0 : list nat).
Context (HQ0 : forall v, v ∈ Q0 -> (v < length nodes0)%nat /\ dist nodes0 v = b).
Let n := length nodes0.

Definition fresh (v : nat) : Prop := (v < n)%nat /\ dist nodes0 v = -5.

(** Paths through fresh nodes. *)
Inductive fpath : nat -> nat -> Prop :=
  | fpath_start v : v ∈ Q0 -> fpath 0 v
  | fpath_step k u v : fpath k u -> bfs_ref edges nodeMap nodes0 u v -> fresh v -> fpath (S k) v.

Record bfs_inv (i : nat) (nodes : list HeapNode) (Q : list nat) : Prop := {
  bi_frame : dist_only nodes0 nodes;
  bi_old : forall v, ~ fresh v -> dist nodes v = dist nodes0 v;
  bi_fresh : forall v, fresh v -> dist nodes v <> -5 <-> v ∈ Q;
  bi_start : forall v, v ∈ Q0 -> v ∈ Q;
  bi_found : exists R, Q = Q0 ++ R /\ NoDup R /\ forall v, v ∈ R -> fresh v;
  bi_level : forall v, v ∈ Q -> (v < n)%nat /\ exists k : nat, dist nodes v = b + Z.of_nat k /\ fpath k v;
  bi_mono : forall j j' u w, (j <= j')%nat -> Q !! j = Some u -> Q !! j' = Some w -> dist nodes u <= dist nodes w;
  bi_bound : forall u w, Q !! i = Some u -> w ∈ Q -> dist nodes w <= dist nodes u + 1;
  bi_done : forall j u v, (j < i)%nat -> (j < n)%nat -> Q !! j = Some u -> bfs_ref edges nodeMap nodes0 u v -> fresh v ->
              v ∈ Q /\ dist nodes v <= dist nodes u + 1;
}.

(** The array holds the ids of the queue, as far as it has room. *)
Definition queue_ids (visit : list Z) (Q : list nat) : Prop :=
  length visit = n /\
  forall j u, (j < n)%nat -> Q !! j = Some u -> exists nd, nodes0 !! u = Some nd /\ visit !! j = Some (hn_id nd).

Lemma nodup_length (Q : list nat) : NoDup Q -> (forall v, v ∈ Q -> (v < n)%nat) -> (length Q <= n)%nat.
Proof.
  intros HN Hlt. rewrite <- (length_seq n 0). apply submseteq_length, NoDup_submseteq; [done|].
  intros x Hx. apply elem_of_seq. specialize (Hlt x Hx). lia.
Qed.

Lemma queue_push visit Q c nd :
  queue_ids visit Q -> nodes0 !! c = Some nd ->
  queue_ids (u32_set visit (Z.of_nat (length Q)) (hn_id nd)) (Q ++ [c]).
Proof.
  intros [Hl Hq] Hc. rewrite u32_set_nat by (by eapply HID). split; [by rewrite length_insert|].
  intros j u Hjn Hj. apply lookup_app_Some in Hj as [Hj|[Hge Hj]].
  - pose proof (lookup_lt_Some _ _ _ Hj). rewrite list_lookup_insert_ne by lia. by apply Hq.
  - assert (j = length Q) as -> by (apply lookup_lt_Some in Hj; simpl in Hj; lia).
    rewrite Nat.sub_diag in Hj. injection Hj as <-. exists nd. split; [done|]. apply list_lookup_insert_eq. lia.
Qed.

(** Setting the distance of a fresh node [c] found from [u]. *)
Lemma bfs_discover i nodes Q u c k :
  bfs_inv i nodes Q -> Q !! i = Some u -> fresh c -> c ∉ Q -> dist nodes u = b + Z.of_nat k -> fpath (S k) c ->
  forall nc, nodes !! c = Some nc ->
  bfs_inv i (<[c := with_distance (dist nodes u + 1) nc]> nodes) (Q ++ [c]).
Proof.
  intros [Hfr Hold Hfre Hst Hnd Hlev Hmono Hbd Hdone] Hu Hfc HcQ Hk Hpath nc Hnc.
  set (nodes' := <[c := _]> nodes).
  assert (Hd : forall v, dist nodes' v = if decide (c = v) then dist nodes u + 1 else dist nodes v)
    by (intros; by apply dist_insert).
  assert (HuQ : u ∈ Q) by (by eapply list_elem_of_lookup_2).
  assert (Hdq : forall v, v ∈ Q -> dist nodes' v = dist nodes v).
  { intros v Hv. rewrite Hd. case_decide; [by subst|done]. }
  assert (Hdc : dist nodes' c = dist nodes u + 1) by (rewrite Hd; by case_decide).
  split.
  - etrans; [exact Hfr|by apply dist_only_insert].
  - intros v Hv. rewrite Hd. case_decide; [by subst|auto].
  - intros v Hv. rewrite elem_of_app, list_elem_of_singleton, Hd. case_decide as E.
    + subst v. split; [by right|lia].
    + rewrite Hfre by done. naive_solver.
  - intros v Hv. apply elem_of_app. left. auto.
  - destruct Hnd as (R & -> & HR & Hf). exists (R ++ [c]). rewrite app_assoc. split; [done|]. split.
    + apply NoDup_app. split_and!; [done|set_solver|apply NoDup_singleton].
    + intros v [?| ->%list_elem_of_singleton]%elem_of_app; auto.
  - intros v [Hv| ->%list_elem_of_singleton]%elem_of_app; [rewrite Hdq by done; auto|].
    split; [apply Hfc|]. exists (S k). split; [lia|done].
  - intros j j' x y Hle Hx Hy.
    assert (HyQ : forall z, z ∈ Q -> dist nodes z <= dist nodes u + 1) by (intros; by apply (Hbd u)).
    apply lookup_app_Some in Hy as [Hy|[Hge Hy]].
    + pose proof (lookup_lt_Some _ _ _ Hy). rewrite lookup_app_l in Hx by lia.
      rewrite !Hdq by (by eapply list_elem_of_lookup_2). exact (Hmono j j' x y Hle Hx Hy).
    + assert (y = c) as -> by (by apply list_elem_of_lookup_2, list_elem_of_singleton in Hy).
      apply list_elem_of_lookup_2, elem_of_app in Hx as [Hx| ->%list_elem_of_singleton]; [|done].
      rewrite Hdq, Hdc by done. auto.
  - intros u' w Hu' [Hw| ->%list_elem_of_singleton]%elem_of_app;
      rewrite lookup_app_l in Hu' by exact (lookup_lt_Some _ _ _ Hu); assert (u' = u) as -> by congruence.
    + rewrite !Hdq by done. by apply Hbd.
    + rewrite Hdc, Hdq by done. done.
  - intros j x v Hj Hjn Hx Href Hv. pose proof (lookup_lt_Some _ _ _ Hu).
    rewrite lookup_app_l in Hx by lia.
    destruct (Hdone j x v Hj Hjn Hx Href Hv) as [HvQ Hle]. split; [apply elem_of_app; by left|].
    rewrite !Hdq; [done|by eapply list_elem_of_lookup_2|done].
Qed.

Record state_inv (i : nat) (st : bfs_state) (Q : list nat) : Prop := {
  si_inv : bfs_inv i (bs_nodes st) Q;
  si_ids : queue_ids (bs_visit st) Q;
  si_len : bs_len st = Z.of_nat (length Q);
}.

(** [v] is the fresh target of edge [e] of node [nd]. *)
Definition fresh_target (nd : HeapNode) (e v : nat) : Prop :=
  exists edge, edges !! e = Some edge /\ nodeMap !! he_toNodeId edge = Some v /\
    edge_is EDGE_WEAK edge = false /\ filterForBpf nd edge = true /\ fresh v.

Lemma bfs_edge_step i st Q u nd d e :
  state_inv i st Q -> Q !! i = Some u -> nodes0 !! u = Some nd -> e ∈ hn_edges nd ->
  forall node, same_keys nd node -> d = dist (bs_nodes st) u + 1 ->
  exists R, state_inv i (bfs_edge edges nodeMap node d st e) (Q ++ R) /\
    dist (bs_nodes (bfs_edge edges nodeMap node d st e)) u = dist (bs_nodes st) u /\
    (forall v, fresh_target nd e v -> v ∈ Q ++ R).
Proof.
  intros [Hinv Hids Hlen] Hu Hnd He node Hkeys Hd.
  assert (Hflt : forall edge, filterForBpf node edge = filterForBpf nd edge)
    by (intros; unfold filterForBpf; destruct Hkeys as (_ & _ & _ & -> & ->); done).
  assert (Hsame : (forall v, fresh_target nd e v -> v ∈ Q) ->
    exists R, state_inv i st (Q ++ R) /\ dist (bs_nodes st) u = dist (bs_nodes st) u /\
      (forall v, fresh_target nd e v -> v ∈ Q ++ R)).
  { intros H. exists []. rewrite app_nil_r. split_and!; [by split|done|done]. }
  unfold bfs_edge. destruct (edges !! e) as [edge|] eqn:Hedge;
    [|apply Hsame; intros v (? & ? & _); congruence].
  destruct (edge_is EDGE_WEAK edge) eqn:Hw;
    [apply Hsame; intros v (? & ? & _ & ? & _); congruence|].
  destruct (get_node nodeMap (bs_nodes st) (he_toNodeId edge)) as [[c nc]|] eqn:G.
  2: { apply Hsame. intros v (edge' & E & Hv & _ & _ & Hf).
       assert (edge' = edge) as -> by congruence. destruct Hf as [Hlt _].
       unfold n in Hlt. rewrite (Forall2_length _ _ _ (bi_frame _ _ _ Hinv)) in Hlt.
       apply lookup_lt_is_Some_2 in Hlt as [nv Hnv].
       assert (get_node nodeMap (bs_nodes st) (he_toNodeId edge) = Some (v, nv)) by by apply get_node_spec. congruence. }
  apply get_node_spec in G as [Gm Gn]. rewrite Hflt.
  assert (Hdc : dist (bs_nodes st) c = hn_distance nc) by (unfold dist; by rewrite Gn).
  assert (Hlt : (c < n)%nat).
  { apply lookup_lt_Some in Gn. by rewrite <- (Forall2_length _ _ _ (bi_frame _ _ _ Hinv)) in Gn. }
  destruct (Z.eqb_spec (hn_distance nc) (-5)) as [E5|N5]; cbn [negb orb].
  2: { apply Hsame. intros v (edge' & E & Hv & _ & _ & Hf).
       assert (v = c) as -> by congruence. apply (bi_fresh _ _ _ Hinv); [done|]. by rewrite Hdc. }
  destruct (filterForBpf nd edge) eqn:Hfl; cbn [negb];
    [|apply Hsame; intros v (? & ? & _ & _ & ? & _); congruence].
  assert (Hfc : fresh c).
  { split; [done|]. destruct (decide (dist nodes0 c = -5)) as [|Hne]; [done|].
    rewrite <- (bi_old _ _ _ Hinv c); [congruence|]. intros [_ ?]. done. }
  assert (HcQ : c ∉ Q) by (rewrite <- (bi_fresh _ _ _ Hinv c Hfc), Hdc, E5; tauto).
  assert (HuQ : u ∈ Q) by (by eapply list_elem_of_lookup_2).
  destruct (bi_level _ _ _ Hinv u HuQ) as (_ & k & Hk & Hpath).
  assert (Hpc : fpath (S k) c).
  { eapply fpath_step; [exact Hpath| |done]. exists nd, e, edge. done. }
  pose proof (bfs_discover i (bs_nodes st) Q u c k Hinv Hu Hfc HcQ Hk Hpc nc Gn) as Hinv'.
  destruct (lookup_lt_is_Some_2 nodes0 c Hlt) as [nc0 Hnc0].
  assert (Hid : hn_id nc = hn_id nc0).
  { destruct (Forall2_lookup_l _ _ _ _ _ (bi_frame _ _ _ Hinv) Hnc0) as (x & Hx & E).
    assert (x = nc) as -> by congruence. rewrite E. by destruct nc0. }
  exists [c]. split_and!.
  - rewrite <- Hd in Hinv'. split; cbn [bs_nodes bs_visit bs_len]; [done| |rewrite length_app; simpl; lia].
    rewrite Hlen, Hid. by apply queue_push.
  - cbn [bs_nodes]. rewrite dist_insert by done. case_decide; [by subst|done].
  - intros v (edge' & E & Hv & _). assert (v = c) as -> by congruence. set_solver.
Qed.

Lemma bfs_edges_step i u nd es : forall st Q d,
  state_inv i st Q -> Q !! i = Some u -> nodes0 !! u = Some nd -> (forall e, e ∈ es -> e ∈ hn_edges nd) ->
  forall node, same_keys nd node -> d = dist (bs_nodes st) u + 1 ->
  exists R, state_inv i (fold_left (bfs_edge edges nodeMap node d) es st) (Q ++ R) /\
    (forall e v, e ∈ es -> fresh_target nd e v -> v ∈ Q ++ R).
Proof.
  induction es as [|e es IH]; intros st Q d Hst Hu Hnd Hes node Hk Hd; cbn [fold_left].
  { exists []. rewrite app_nil_r. split; [done|set_solver]. }
  destruct (bfs_edge_step i st Q u nd d e Hst Hu Hnd ltac:(set_solver) node Hk Hd) as (R & H1 & H2 & H3).
  destruct (IH _ (Q ++ R) d H1) with (node := node) as (R' & H4 & H5); [|done|set_solver|done|by rewrite H2|].
  { rewrite lookup_app_l by (by eapply lookup_lt_Some). done. }
  exists (R ++ R'). rewrite app_assoc. split; [done|].
  intros e' v [->|]%elem_of_cons Hv; [|eauto]. apply elem_of_app. left. auto.
Qed.

(** After the edges of [Q !! i] the search moves on. *)
Lemma bfs_inv_next i nodes Q u nd :
  bfs_inv i nodes Q -> Q !! i = Some u -> nodes0 !! u = Some nd ->
  ((i < n)%nat -> forall e v, e ∈ hn_edges nd -> fresh_target nd e v -> v ∈ Q) ->
  bfs_inv (S i) nodes Q.
Proof.
  intros [Hfr Hold Hfre Hst Hnd Hlev Hmono Hbd Hdone] Hu Hn0 Hall. split; try done.
  - intros u' w Hu' Hw. pose proof (Hbd u w Hu Hw). pose proof (Hmono i (S i) u u' ltac:(lia) Hu Hu'). lia.
  - intros j x v Hj Hjn Hx Href Hv. destruct (decide (j = i)) as [->|].
    + assert (x = u) as -> by congruence.
      destruct Href as (n' & e & edge & H0 & He & ? & ? & ? & ?). assert (n' = nd) as -> by congruence.
      assert (HvQ : v ∈ Q) by (apply (Hall Hjn e v); [done|by exists edge]).
      split; [done|]. by apply Hbd.
    + apply (Hdone j); [lia|done..].
Qed.

Lemma bfs_round_step i st Q :
  state_inv i st Q -> (i < length Q)%nat ->
  exists R, state_inv (S i) (bfs_round edges nodeMap st (Z.of_nat i)) (Q ++ R).
Proof.
  intros Hst Hi. destruct (lookup_lt_is_Some_2 Q i Hi) as [u Hu].
  destruct (si_ids _ _ _ Hst) as [Hl Hq]. destruct (decide (i < n)%nat) as [Hin|Hin].
  2: { exists []. unfold bfs_round, zlookup. destruct (Z.ltb_spec (Z.of_nat i) 0); [lia|].
       rewrite Nat2Z.id, app_nil_r, (lookup_ge_None_2 (bs_visit st)) by lia. destruct Hst as [I1 I2 I3].
       destruct (bi_level _ _ _ I1 u (list_elem_of_lookup_2 _ _ _ Hu)) as [Hlt _].
       destruct (lookup_lt_is_Some_2 nodes0 u Hlt) as [nd Hnd].
       split; [|done|done]. eapply bfs_inv_next; [done..|]. done. }
  destruct (Hq i u Hin Hu) as (nd & Hnd & Hv).
  unfold bfs_round, zlookup. destruct (Z.ltb_spec (Z.of_nat i) 0); [lia|]. rewrite Nat2Z.id, Hv.
  pose proof (bi_frame _ _ _ (si_inv _ _ _ Hst)) as Hfr.
  destruct (Forall2_lookup_l _ _ _ _ _ (dist_only_keys _ _ Hfr) Hnd) as (node & Hnode & Hk).
  assert (Hg : get_node nodeMap (bs_nodes st) (hn_id nd) = Some (u, node)).
  { apply get_node_spec. split; [|done]. apply (wf_map _ _ _ WF). eauto. }
  rewrite Hg. assert (Hed : hn_edges node = hn_edges nd) by (by destruct Hk as (_ & _ & ? & _)). rewrite Hed.
  destruct (bfs_edges_step i u nd (hn_edges nd) st Q (hn_distance node + 1) Hst Hu Hnd ltac:(done) node Hk)
    as (R & H1 & H2).
  { unfold dist. by rewrite Hnode. }
  exists R. destruct H1 as [I1 I2 I3]. split; try done. eapply bfs_inv_next; eauto.
  rewrite lookup_app_l by done. done.
Qed.

Lemma bfs_loop_total : forall fuel i st Q,
  state_inv i st Q -> (i <= length Q)%nat -> (length Q0 + n - i <= fuel)%nat ->
  exists st' Q', bfs_loop edges nodeMap fuel st (Z.of_nat i) = Some st' /\ state_inv (length Q') st' Q'.
Proof.
  assert (Hcap : forall i st Q, state_inv i st Q -> (length Q <= length Q0 + n)%nat).
  { intros i st Q [Hinv _ _]. destruct (bi_found _ _ _ Hinv) as (R & -> & HR & Hf). rewrite length_app.
    pose proof (nodup_length R HR) as Hl. specialize (Hl ltac:(intros; by apply Hf)). lia. }
  induction fuel as [|fuel IH]; intros i st Q Hst Hi Hfuel; cbn [bfs_loop]; rewrite (si_len _ _ _ Hst);
    pose proof (Hcap _ _ _ Hst).
  - destruct (Z.ltb_spec (Z.of_nat i) (Z.of_nat (length Q))); [lia|].
    assert (i = length Q) as -> by lia. eauto.
  - destruct (Z.ltb_spec (Z.of_nat i) (Z.of_nat (length Q))).
    + destruct (bfs_round_step i st Q Hst ltac:(lia)) as (R & HR).
      replace (Z.of_nat i + 1) with (Z.of_nat (S i)) by lia.
      apply (IH (S i) _ (Q ++ R)); [done|rewrite length_app; lia|lia].
    + assert (i = length Q) as -> by lia. eauto.
Qed.

(** The distances at the end: the length of a shortest path. *)
Lemma bfs_inv_end nodes Q :
  bfs_inv (length Q) nodes Q -> (length Q <= n)%nat ->
  forall v, fresh v ->
    (forall k, fpath k v -> v ∈ Q /\ exists k', (k' <= k)%nat /\ fpath k' v /\ dist nodes v = b + Z.of_nat k') /\
    ((forall k, ~ fpath k v) -> dist nodes v = -5).
Proof.
  intros Hinv Hroom v Hv.
  assert (Hcomp : forall k u, fpath k u -> u ∈ Q /\ dist nodes u <= b + Z.of_nat k).
  { intros k u Hp. induction Hp as [u Hu|k u w Hp [HuQ IH] Href Hw].
    - split; [by apply (bi_start _ _ _ Hinv)|]. rewrite (bi_old _ _ _ Hinv).
      + rewrite (proj2 (HQ0 u Hu)). lia.
      + intros [_ E]. rewrite (proj2 (HQ0 u Hu)) in E. lia.
    - apply list_elem_of_lookup in HuQ as [j Hj].
      pose proof (lookup_lt_Some _ _ _ Hj).
      destruct (bi_done _ _ _ Hinv j u w) as [HwQ Hle]; [lia|lia|done..|].
      split; [done|lia]. }
  split.
  - intros k Hk. destruct (Hcomp k v Hk) as [HvQ Hle].
    destruct (bi_level _ _ _ Hinv v HvQ) as (_ & k' & Hd & Hp). split; [done|]. exists k'. split_and!; [lia|done|done].
  - intros Hno. destruct (decide (dist nodes v = -5)) as [|Hne]; [done|]. exfalso.
    apply (bi_fresh _ _ _ Hinv v Hv), (bi_level _ _ _ Hinv) in Hne as (_ & k & _ & Hp). by apply (Hno k).
Qed.
End Bfs.

(** A whole search, from a queue that the array holds: it ends; the nodes [R] that it
    finds are new; and when the array has room for them and the queue, no node is
    missed and each has its distance. *)
Lemma bfs_spec edges nodeMap st b Q0 :
  let nodes0 := bs_nodes st in
  snapshot_wf edges nodeMap nodes0 -> (forall i n, nodes0 !! i = Some n -> is_u32 (hn_id n)) -> 0 <= b ->
  (forall v, v ∈ Q0 -> (v < length nodes0)%nat /\ dist nodes0 v = b) ->
  queue_ids nodes0 (bs_visit st) Q0 -> bs_len st = Z.of_nat (length Q0) ->
  exists st' R, NoDup R /\
    (forall v, v ∈ R -> fresh nodes0 v /\ exists k, fpath edges nodeMap nodes0 Q0 k v) /\
    bfs edges nodeMap (zlen nodes0) st =
      Some (if Nat.ltb (length nodes0) (length Q0 + length R) then Throw (JsError "BFS failed") else Ok st') /\
    ((length Q0 + length R <= length nodes0)%nat ->
      length (bs_visit st') = length nodes0 /\ dist_only nodes0 (bs_nodes st') /\
      (forall v, ~ fresh nodes0 v -> dist (bs_nodes st') v = dist nodes0 v) /\
      forall v, fresh nodes0 v ->
        (forall k, fpath edges nodeMap nodes0 Q0 k v -> v ∈ R /\
           exists k', (k' <= k)%nat /\ fpath edges nodeMap nodes0 Q0 k' v /\ dist (bs_nodes st') v = b + Z.of_nat k') /\
        ((forall k, ~ fpath edges nodeMap nodes0 Q0 k v) -> dist (bs_nodes st') v = -5)).
Proof.
  intros nodes0 WF HID Hb HQ0 Hids Hlen.
  assert (Hold0 : forall v, v ∈ Q0 -> ~ fresh nodes0 v).
  { intros v Hv [_ E]. rewrite (proj2 (HQ0 v Hv)) in E. lia. }
  assert (Hst : state_inv edges nodeMap nodes0 b Q0 0 st Q0).
  { split; [|done|done]. split.
    - reflexivity.
    - done.
    - intros v Hv. pose proof Hv as [_ E]. fold nodes0. rewrite E. split; [done|]. intros Hin. by destruct (Hold0 v).
    - done.
    - exists []. rewrite app_nil_r. split; [done|]. split; [constructor|set_solver].
    - intros v Hv. destruct (HQ0 v Hv) as [Hlt Hd]. split; [done|]. exists O. split; [fold nodes0; lia|by constructor].
    - intros j j' u w _ Hu Hw. fold nodes0.
      rewrite (proj2 (HQ0 u (list_elem_of_lookup_2 _ _ _ Hu))), (proj2 (HQ0 w (list_elem_of_lookup_2 _ _ _ Hw))). done.
    - intros u w Hu Hw. fold nodes0. rewrite (proj2 (HQ0 w Hw)).
      rewrite (proj2 (HQ0 u (list_elem_of_lookup_2 _ _ _ Hu))). lia.
    - intros j u v Hj. lia. }
  destruct (bfs_loop_total edges nodeMap nodes0 WF HID b Hb Q0 HQ0
              (Z.to_nat (bs_len st) + length nodes0)%nat 0 st Q0 Hst ltac:(lia) ltac:(lia))
    as (st' & Q' & Hloop & [Hinv [Hvl Hids'] Hlen']).
  destruct (bi_found _ _ _ _ _ _ _ _ Hinv) as (R & EQ & HR & Hf). exists st', R. split; [done|]. split.
  { intros v Hv. split; [by apply Hf|]. destruct (bi_level _ _ _ _ _ _ _ _ Hinv v) as (_ & k & _ & ?); [set_solver|eauto]. }
  assert (EL : length Q' = (length Q0 + length R)%nat) by (by rewrite EQ, length_app). split.
  { unfold bfs. fold nodes0. change 0 with (Z.of_nat 0) at 1. rewrite Hloop. cbn [mbind option_bind].
    rewrite Hlen', EL, Z.gtb_ltb. unfold zlen.
    by destruct (Z.ltb_spec (Z.of_nat (length nodes0)) (Z.of_nat (length Q0 + length R))),
      (Nat.ltb_spec (length nodes0) (length Q0 + length R)); try lia. }
  intros Hroom. split_and!; [done|apply Hinv|apply Hinv|]. intros v Hv.
  destruct (bfs_inv_end edges nodeMap nodes0 b Hb Q0 HQ0 _ _ Hinv ltac:(lia) v Hv) as [H1 H2].
  split; [|done]. intros k Hk. destruct (H1 k Hk) as [HvQ ?]. split; [|done].
  rewrite EQ in HvQ. apply elem_of_app in HvQ as [?|?]; [|done]. by destruct (Hold0 v).
Qed.

Section CalDistances.
Context (edges : list HeapEdge) (nodeMap : gmap Z nat) (nodes : list HeapNode).
Context (WF : snapshot_wf edges nodeMap nodes).
Context (HID : forall i n, nodes !! i = Some n -> is_u32 (hn_id n)).

(** The children of the root from which distances are counted, in the order of
    the root's edges. *)
Definition user_root (e : nat) : option nat :=
  edge ← edges !! e; '(c, nd) ← get_node nodeMap nodes (he_toNodeId edge);
  if isUserRoot nd || isDocumentDOMTreesRoot nd then Some c else None.

Definition user_roots : list nat := omap user_root (root_edges nodes).

Lemma user_root_keys nodes' e :
  Forall2 same_keys nodes nodes' ->
  user_root e = (edge ← edges !! e; '(c, nd) ← get_node nodeMap nodes' (he_toNodeId edge);
                 if isUserRoot nd || isDocumentDOMTreesRoot nd then Some c else None).
Proof.
  intros HF. unfold user_root, get_node. destruct (edges !! e) as [edge|]; [|done]. simpl.
  destruct (nodeMap !! he_toNodeId edge) as [c|]; [|done]. simpl.
  destruct (nodes !! c) as [nd|] eqn:E; simpl.
  - destruct (Forall2_lookup_l _ _ _ _ _ HF E) as (nd' & -> & (_ & _ & _ & Ht & Hn)). simpl.
    unfold isUserRoot, isDocumentDOMTreesRoot. by rewrite Ht, Hn.
  - apply lookup_ge_None in E. rewrite (Forall2_length _ _ _ HF) in E. apply lookup_ge_None in E. by rewrite E.
Qed.

Lemma user_root_lt e c : user_root e = Some c -> (c < length nodes)%nat.
Proof.
  unfold user_root. destruct (edges !! e) as [edge|]; [|done]. simpl.
  destruct (get_node nodeMap nodes (he_toNodeId edge)) as [[c' nd]|] eqn:G; [|done]. simpl.
  case_match; [|done]. intros [= <-]. apply get_node_spec in G as [_ G]. by eapply lookup_lt_Some.
Qed.

(** The pushes of the root's children. *)
Lemma push_user_roots es : forall st Q,
  dist_only nodes (bs_nodes st) -> queue_ids nodes (bs_visit st) Q -> bs_len st = Z.of_nat (length Q) ->
  let st' := fold_left (push_user_root edges nodeMap) es st in
  let Q' := Q ++ omap user_root es in
  dist_only nodes (bs_nodes st') /\ queue_ids nodes (bs_visit st') Q' /\ bs_len st' = Z.of_nat (length Q') /\
  forall v, dist (bs_nodes st') v = if bool_decide (v ∈ omap user_root es) then 1 else dist (bs_nodes st) v.
Proof.
  induction es as [|e es IH]; intros st Q Hfr Hids Hlen; cbn [fold_left omap list_omap] in *.
  { rewrite app_nil_r. split_and!; try done. }
  unfold push_user_root at 2 4 6 8. pose proof (user_root_keys _ e (dist_only_keys _ _ Hfr)) as Hr.
  destruct (edges !! e) as [edge|]; cbn [mbind option_bind] in Hr; [|rewrite Hr in *; by apply IH].
  destruct (get_node nodeMap (bs_nodes st) (he_toNodeId edge)) as [[c nd]|] eqn:G;
    cbn [mbind option_bind] in Hr; [|rewrite Hr in *; by apply IH].
  destruct (isUserRoot nd || isDocumentDOMTreesRoot nd); rewrite Hr in *; [|by apply IH].
  apply get_node_spec in G as [Gm Gn].
  destruct (Forall2_lookup_r _ _ _ _ _ Hfr Gn) as (nd0 & Hnd0 & E).
  assert (Hid : hn_id nd = hn_id nd0) by (rewrite E; by destruct nd0).
  rewrite cons_middle, app_assoc.
  edestruct (IH {| bs_nodes := <[c := with_distance 1 nd]> (bs_nodes st);
                   bs_visit := u32_set (bs_visit st) (bs_len st) (hn_id nd); bs_len := bs_len st + 1 |}
              (Q ++ [c])) as (H1 & H2 & H3 & H4); cbn [bs_nodes bs_visit bs_len]; try done.
  - etrans; [done|by apply dist_only_insert].
  - rewrite Hlen, Hid. by apply queue_push.
  - rewrite length_app. simpl. lia.
  - split_and!; try done. intros v. rewrite H4. cbn [bs_nodes]. rewrite dist_insert by done.
    rewrite (bool_decide_ext (v ∈ c :: _) (v = c \/ v ∈ omap user_root es)) by apply elem_of_cons.
    destruct (bool_decide_reflect (v ∈ omap user_root es)); [by rewrite bool_decide_true by auto|].
    case_decide; [rewrite bool_decide_true by auto; done|]. rewrite bool_decide_false; [done|naive_solver].
Qed.

Definition is_user_root (v : nat) : Prop := v ∈ user_roots.

(** The array of nodes to visit has one entry per reference of the root to a user
    object, and one per other node that a user object reaches: they fit when they are
    not more than the nodes. *)
Definition visits_fit : Prop :=
  forall L, NoDup L ->
    (forall v, v ∈ L -> ~ is_user_root v /\ exists k, path edges nodeMap nodes is_user_root k v) ->
    (length user_roots + length L <= length nodes)%nat.

Context (Hunset : forall v, dist nodes v = -5).

Lemma user_roots_lt v : is_user_root v -> (v < length nodes)%nat.
Proof. intros (e & _ & He)%list_elem_of_omap. by eapply user_root_lt. Qed.

Lemma bfs_ref_lt u v : bfs_ref edges nodeMap nodes u v -> (v < length nodes)%nat.
Proof. intros (_ & _ & edge & _ & _ & _ & Hv & _). apply (wf_map _ _ _ WF) in Hv as (? & ? & _). by eapply lookup_lt_Some. Qed.

Lemma path_lt start k v :
  (forall r, start r -> (r < length nodes)%nat) -> path edges nodeMap nodes start k v -> (v < length nodes)%nat.
Proof. intros Hs [w Hw|j u w _ Hr]; [by apply Hs|by eapply bfs_ref_lt]. Qed.

(** References of different nodes always fit. *)
Lemma distinct_fit : NoDup user_roots -> visits_fit.
Proof.
  intros HN L HL Hf. rewrite <- length_app. apply (nodup_length nodes).
  - apply NoDup_app. split_and!; [done| |done]. intros v Hv HvL. by destruct (Hf v HvL).
  - intros v [Hv|Hv]%elem_of_app; [by apply user_roots_lt|]. destruct (Hf v Hv) as [_ [k Hk]].
    eapply path_lt, Hk. apply user_roots_lt.
Qed.

(** The first search: nodes that a user root reaches. *)
Lemma first_search st1 :
  dist_only nodes (bs_nodes st1) -> queue_ids nodes (bs_visit st1) user_roots ->
  bs_len st1 = Z.of_nat (length user_roots) ->
  (forall v, dist (bs_nodes st1) v = if bool_decide (v ∈ user_roots) then 1 else -5) ->
  ~ visits_fit /\ bfs edges nodeMap (zlen nodes) st1 = Some (Throw (JsError "BFS failed")) \/
  visits_fit /\ exists st2, bfs edges nodeMap (zlen nodes) st1 = Some (Ok st2) /\
    length (bs_visit st2) = length nodes /\ dist_only nodes (bs_nodes st2) /\
    forall v, (forall k, nearest edges nodeMap nodes is_user_root k v -> dist (bs_nodes st2) v = 1 + Z.of_nat k) /\
      ((forall k, ~ path edges nodeMap nodes is_user_root k v) -> dist (bs_nodes st2) v = -5).
Proof.
  intros Hfr Hids Hlen Hd. pose proof (dist_only_keys _ _ Hfr) as HK.
  pose proof (Forall2_length _ _ _ HK) as HL.
  assert (Hfresh : forall v, (v < length nodes)%nat -> v ∉ user_roots -> fresh (bs_nodes st1) v).
  { intros v Hv Hn. split; [by rewrite <- HL|]. by rewrite Hd, bool_decide_false. }
  assert (Hnroot : forall v, fresh (bs_nodes st1) v -> v ∉ user_roots).
  { intros v [_ E] Hv. by rewrite Hd, bool_decide_true in E. }
  assert (Hfp : forall k v, path edges nodeMap nodes is_user_root k v ->
    exists k', (k' <= k)%nat /\ fpath edges nodeMap (bs_nodes st1) user_roots k' v).
  { intros k v Hp. induction Hp as [v Hv|k u v Hp (k' & Hle & IH) Hr]; [by exists O; split; [lia|constructor]|].
    destruct (decide (v ∈ user_roots)); [exists O; split; [lia|by constructor]|].
    exists (S k'). split; [lia|]. eapply fpath_step; [exact IH|by apply (bfs_ref_keys _ _ _ _ _ _ HK)|].
    apply Hfresh; [by eapply bfs_ref_lt|done]. }
  assert (Hpf : forall k v, fpath edges nodeMap (bs_nodes st1) user_roots k v ->
    path edges nodeMap nodes is_user_root k v).
  { intros k v Hp. induction Hp as [v Hv|k u v Hp IH Hr Hf]; [by constructor|].
    eapply path_step; [exact IH|]. by apply (bfs_ref_keys _ _ _ _ _ _ HK). }
  destruct (bfs_spec edges nodeMap st1 1 user_roots) as (st2 & R & HR & HRp & Hbfs & Hok); [..|].
  - by eapply snapshot_wf_keys.
  - intros i nd Hi. destruct (Forall2_lookup_r _ _ _ _ _ HK Hi) as (nd0 & Hi0 & (-> & _)). by eapply HID.
  - lia.
  - intros v Hv. rewrite Hd, bool_decide_true by done. split; [|done]. rewrite <- HL. by apply user_roots_lt.
  - destruct Hids as [H1 H2]. split; [by rewrite H1|]. intros j u Hjn Hj. rewrite <- HL in Hjn.
    destruct (H2 j u Hjn Hj) as (nd & Hu & ?).
    destruct (Forall2_lookup_l _ _ _ _ _ HK Hu) as (nd' & ? & (E & _)). exists nd'. by rewrite E.
  - done.
  - replace (zlen (bs_nodes st1)) with (zlen nodes) in Hbfs by (unfold zlen; lia). rewrite <- HL in Hbfs, Hok.
    destruct (Nat.ltb_spec (length nodes) (length user_roots + length R)) as [Hover|Hroom].
    { left. split; [|done]. intros Hfit. specialize (Hfit R HR). enough (length user_roots + length R <= length nodes)%nat by lia.
      apply Hfit. intros v Hv. destruct (HRp v Hv) as [Hf [k Hk]]. split; [by apply Hnroot|eauto]. }
    right. destruct (Hok Hroom) as (Hvl & Hfr2 & Hold & Hnew). split.
    { intros L HNL Hf. enough (length L <= length R)%nat by lia.
      apply submseteq_length, NoDup_submseteq; [done|]. intros v Hv. destruct (Hf v Hv) as [Hu [k Hk]].
      destruct (Hfp k v Hk) as (k1 & _ & Hk1).
      by apply (proj1 (Hnew v (Hfresh v ltac:(eapply path_lt, Hk; apply user_roots_lt) Hu)) k1). }
    exists st2. split_and!; [done|done|by etrans|]. intros v. split.
    + intros k [Hk Hmin]. destruct (decide (v ∈ user_roots)) as [Hu|Hu].
      * assert (k = O) as -> by (specialize (Hmin O ltac:(by constructor)); lia).
        rewrite Hold, Hd, bool_decide_true; [done|done|]. intros ?%Hnroot. done.
      * assert (Hvf : fresh (bs_nodes st1) v) by (apply Hfresh; [by eapply path_lt, Hk; apply user_roots_lt|done]).
        destruct (Hfp k v Hk) as (k1 & Hle & Hk1). destruct (proj1 (Hnew v Hvf) k1 Hk1) as (_ & k2 & Hle2 & Hk2 & ->).
        pose proof (Hmin k2 (Hpf _ _ Hk2)). lia.
    + intros Hno. assert (Hu : v ∉ user_roots) by (intros Hu; apply (Hno O); by constructor).
      destruct (decide (v < length nodes)%nat) as [Hlt|Hge].
      * apply (Hnew v (Hfresh v Hlt Hu)). intros k Hk. by apply (Hno k), Hpf.
      * rewrite Hold, Hd, bool_decide_false; try done. intros [Hlt _]. rewrite <- HL in Hlt. done.
Qed.

(** The second search: the other nodes that the root reaches. *)
Lemma second_search st3 base :
  dist_only nodes (bs_nodes st3) -> 0 <= base -> dist (bs_nodes st3) 0 = base ->
  (0 < length nodes)%nat -> queue_ids nodes (bs_visit st3) [O] -> bs_len st3 = 1 ->
  (forall v, v <> O ->
     (forall k, nearest edges nodeMap nodes is_user_root k v -> dist (bs_nodes st3) v = 1 + Z.of_nat k) /\
     ((forall k, ~ path edges nodeMap nodes is_user_root k v) -> dist (bs_nodes st3) v = -5)) ->
  exists st4, bfs edges nodeMap (zlen nodes) st3 = Some (Ok st4) /\ dist_only nodes (bs_nodes st4) /\
    dist (bs_nodes st4) 0 = base /\
    forall v, v <> O ->
      (forall k, nearest edges nodeMap nodes is_user_root k v -> dist (bs_nodes st4) v = 1 + Z.of_nat k) /\
      ((forall k, ~ path edges nodeMap nodes is_user_root k v) ->
         (forall k, nearest edges nodeMap nodes (.= O) k v -> dist (bs_nodes st4) v = base + Z.of_nat k) /\
         ((forall k, ~ path edges nodeMap nodes (.= O) k v) -> dist (bs_nodes st4) v = -5)).
Proof.
  intros Hfr Hbase Hroot Hpos Hids Hlen Hd. pose proof (dist_only_keys _ _ Hfr) as HK.
  pose proof (Forall2_length _ _ _ HK) as HL.
  destruct (bfs_spec edges nodeMap st3 base [O]) as (st4 & R & HR & HRp & Hbfs & Hok); [..|].
  - by eapply snapshot_wf_keys.
  - intros i nd Hi. destruct (Forall2_lookup_r _ _ _ _ _ HK Hi) as (nd0 & Hi0 & (-> & _)). by eapply HID.
  - done.
  - intros v ->%list_elem_of_singleton. split; [lia|done].
  - destruct Hids as [H1 H2]. split; [by rewrite H1|]. intros j u Hjn Hj. rewrite <- HL in Hjn.
    destruct (H2 j u Hjn Hj) as (nd & Hu & ?).
    destruct (Forall2_lookup_l _ _ _ _ _ HK Hu) as (nd' & ? & (E & _)). exists nd'. by rewrite E.
  - done.
  - assert (Hroom : (length [O] + length R <= length (bs_nodes st3))%nat).
    { rewrite <- length_app. apply (nodup_length (bs_nodes st3)).
      - apply NoDup_app. split_and!; [apply NoDup_singleton| |done]. intros v ->%list_elem_of_singleton Hv.
        destruct (HRp _ Hv) as [[_ E] _]. lia.
      - intros v [->%list_elem_of_singleton|Hv]%elem_of_app; [lia|]. apply (HRp _ Hv). }
    destruct (Hok Hroom) as (Hvl & Hfr2 & Hold & Hnew).
    destruct (Nat.ltb_spec (length (bs_nodes st3)) (length [O] + length R)); [lia|].
    exists st4. replace (zlen nodes) with (zlen (bs_nodes st3)) by (unfold zlen; lia).
    split_and!; [done|by etrans| |].
    { rewrite Hold, Hroot; [done|]. intros [_ E]. lia. }
    intros v Hv0. destruct (Hd v Hv0) as [HdU HdN]. split.
    { intros k Hk. rewrite Hold; [by apply HdU|]. intros [_ E]. rewrite (HdU k Hk) in E. lia. }
    intros HnoU.
    assert (Hfp : forall k w, path edges nodeMap nodes (.= O) k w ->
      (forall j, ~ path edges nodeMap nodes is_user_root j w) ->
      exists k', (k' <= k)%nat /\ fpath edges nodeMap (bs_nodes st3) [O] k' w).
    { intros k w Hp. induction Hp as [w ->|k u w Hp IH Hr]; intros Hno; [exists O; split; [lia|constructor; set_solver]|].
      destruct IH as (k' & Hle & IH). { intros j Hj. apply (Hno (S j)). by eapply path_step. }
      destruct (decide (w = O)) as [->|Hw0]; [exists O; split; [lia|constructor; set_solver]|].
      exists (S k'). split; [lia|]. eapply fpath_step; [exact IH|by apply (bfs_ref_keys _ _ _ _ _ _ HK)|].
      split; [rewrite <- HL; by eapply bfs_ref_lt|]. by apply (Hd w Hw0). }
    assert (Hpf : forall k w, fpath edges nodeMap (bs_nodes st3) [O] k w -> path edges nodeMap nodes (.= O) k w).
    { intros k w Hp. induction Hp as [w Hw|k u w Hp IH Hr Hf]; [constructor; set_solver|].
      eapply path_step; [exact IH|]. by apply (bfs_ref_keys _ _ _ _ _ _ HK). }
    split.
    + intros k [Hk Hmin]. assert (Hvf : fresh (bs_nodes st3) v).
      { split; [rewrite <- HL; eapply path_lt, Hk; by intros ? ->|by apply HdN]. }
      destruct (Hfp k v Hk HnoU) as (k1 & Hle & Hk1). destruct (proj1 (Hnew v Hvf) k1 Hk1) as (_ & k2 & Hle2 & Hk2 & ->).
      pose proof (Hmin k2 (Hpf _ _ Hk2)). lia.
    + intros Hno. destruct (decide (v < length nodes)%nat) as [Hlt|Hge].
      * apply (Hnew v); [split; [by rewrite <- HL|by apply HdN]|]. intros k Hk. by apply (Hno k), Hpf.
      * rewrite Hold; [by apply HdN|]. intros [Hlt _]. rewrite <- HL in Hlt. done.
Qed.
End CalDistances.

(** The condition depends on what the passes before leave alone. *)
Lemma user_roots_keys edges nodeMap nodes nodes' :
  Forall2 same_keys nodes nodes' -> user_roots edges nodeMap nodes' = user_roots edges nodeMap nodes.
Proof.
  intros HF. unfold user_roots. assert (root_edges nodes' = root_edges nodes) as ->.
  { unfold root_edges. destruct HF as [|n n' l l' (_ & _ & E & _) _]; [done|]. exact E. }
  apply list_omap_ext, Forall_Forall2_diag, Forall_true. intros e. symmetry. by apply user_root_keys.
Qed.

Lemma path_keys edges nodeMap nodes nodes' start k v :
  Forall2 same_keys nodes nodes' -> path edges nodeMap nodes start k v -> path edges nodeMap nodes' start k v.
Proof.
  intros HF. induction 1 as [v Hv|k u v _ IH Hr]; [by constructor|].
  eapply path_step; [exact IH|]. by apply (bfs_ref_keys _ _ _ _ _ _ HF).
Qed.

Lemma visits_fit_keys edges nodeMap nodes nodes' :
  Forall2 same_keys nodes nodes' -> visits_fit edges nodeMap nodes' -> visits_fit edges nodeMap nodes.
Proof.
  intros HF H L HN HL. pose proof (user_roots_keys edges nodeMap _ _ HF) as E.
  specialize (H L HN). unfold is_user_root in H. rewrite E, <- (Forall2_length _ _ _ HF) in H. apply H.
  intros v Hv. destruct (HL v Hv) as [? [k Hk]]. split; [done|]. exists k. by apply (path_keys _ _ nodes).
Qed.

Lemma calDistances_cases edges nodeMap nodes :
  snapshot_wf edges nodeMap nodes -> nodes <> [] ->
  (forall i n, nodes !! i = Some n -> is_u32 (hn_id n)) ->
  (forall v, dist nodes v = -5) ->
  let user v := v ∈ user_roots edges nodeMap nodes in
  let base := if bool_decide (user_roots edges nodeMap nodes = []) then 0 else BASE_SYSTEM_DISTANCE in
  (~ visits_fit edges nodeMap nodes /\
     calDistances edges nodeMap (zlen nodes) nodes = Some (Throw (JsError "BFS failed")) \/
   visits_fit edges nodeMap nodes /\
   exists nodes', calDistances edges nodeMap (zlen nodes) nodes = Some (Ok nodes') /\
    dist_only nodes nodes' /\ dist nodes' 0 = base /\
    forall v, v <> O ->
      (forall k, nearest edges nodeMap nodes user k v -> dist nodes' v = 1 + Z.of_nat k) /\
      ((forall k, ~ path edges nodeMap nodes user k v) ->
         (forall k, nearest edges nodeMap nodes (.= O) k v -> dist nodes' v = base + Z.of_nat k) /\
         ((forall k, ~ path edges nodeMap nodes (.= O) k v) -> dist nodes' v = -5))).
Proof.
  intros WF Hne HID Hunset user base. unfold calDistances.
  destruct (nodes !! 0%nat) as [rootNode|] eqn:Hroot; [|by destruct nodes].
  pose proof (lookup_lt_Some _ _ _ Hroot) as Hpos.
  destruct (push_user_roots edges nodeMap nodes HID (root_edges nodes)
    {| bs_nodes := nodes; bs_visit := zeros (zlen nodes); bs_len := 0 |} []) as (H1 & H2 & H3 & H4);
    [reflexivity| |done|].
  { split; [cbn [bs_visit]; unfold zeros, zlen; rewrite length_replicate; lia|done]. }
  rewrite app_nil_l in *. fold (user_roots edges nodeMap nodes) in *.
  set (st1 := fold_left (push_user_root edges nodeMap) _ _) in *.
  destruct (first_search edges nodeMap nodes WF HID st1) as [[Hno ->]|(Hfit & st2 & -> & Hvl & Hfr2 & Hd2)]; [done..| | |].
  { intros v. rewrite H4. cbn [bs_nodes]. by rewrite Hunset. }
  { by left. }
  right. split; [done|]. cbn [mbind option_bind].
  assert (Hbase : (if bs_len st1 >? 0 then BASE_SYSTEM_DISTANCE else 0) = base).
  { unfold base. rewrite H3. destruct (user_roots edges nodeMap nodes); [done|]. by rewrite bool_decide_false. }
  rewrite Hbase. destruct (Forall2_lookup_l _ _ _ _ _ Hfr2 Hroot) as (root2 & Hroot2 & Er).
  set (nodes3 := alter (with_distance base) 0%nat (bs_nodes st2)).
  assert (Hn3 : nodes3 = <[0%nat := with_distance base root2]> (bs_nodes st2)).
  { apply list_eq. intros i. unfold nodes3. destruct (decide (i = O)) as [->|].
    - rewrite list_lookup_alter_eq, list_lookup_insert_eq by (by eapply lookup_lt_Some). by rewrite Hroot2.
    - by rewrite list_lookup_alter_ne, list_lookup_insert_ne. }
  assert (Hid : from_option hn_id 0 (nodes3 !! 0%nat) = hn_id rootNode).
  { rewrite Hn3, list_lookup_insert_eq by (by eapply lookup_lt_Some). simpl. rewrite Er. by destruct rootNode. }
  rewrite Hid.
  destruct (second_search edges nodeMap nodes WF HID Hunset
    {| bs_nodes := nodes3; bs_visit := u32_set (bs_visit st2) 0 (hn_id rootNode); bs_len := 1 |} base)
    as (st4 & -> & Hfr4 & Hr4 & Hd4); cbn [bs_nodes bs_visit bs_len]; try done.
  - rewrite Hn3. etrans; [done|by apply dist_only_insert].
  - unfold base. case_bool_decide; done.
  - rewrite Hn3, dist_insert by done. by rewrite decide_True.
  - change 0 with (Z.of_nat 0). rewrite u32_set_nat by (by eapply HID). split; [by rewrite length_insert|].
    intros [|j] u _ Hj; [|done]. injection Hj as <-. exists rootNode. split; [done|].
    apply list_lookup_insert_eq. lia.
  - intros v Hv. rewrite Hn3, dist_insert by done. rewrite decide_False by done. apply Hd2.
  - exists (bs_nodes st4). cbn [mbind option_bind]. done.
Qed.

(** C7: [calDistances] computes distances, or fails.  On a loaded snapshot it always
    ends.  When the references of the root to user objects and the other nodes that
    user objects reach are together not more than the nodes (so always when the root
    does not refer twice to a user object) it returns, and a node other than the root
    then has: one more than the length of a shortest chain of references from a user
    object, if there is one; otherwise the distance of the root (100000000, or 0 when
    there is no user object) plus the length of a shortest chain from the root, if
    there is one; otherwise it keeps -5.  Weak references and those [filterForBpf]
    rejects do not count.  When they are more, it throws 'BFS failed'. *)
Theorem calDistances_shortest edges nodeMap nodes :
  snapshot_wf edges nodeMap nodes -> nodes <> [] ->
  (forall i n, nodes !! i = Some n -> is_u32 (hn_id n)) ->
  (forall v, dist nodes v = -5) ->
  let user v := v ∈ user_roots edges nodeMap nodes in
  let base := if bool_decide (user_roots edges nodeMap nodes = []) then 0 else BASE_SYSTEM_DISTANCE in
  (NoDup (user_roots edges nodeMap nodes) -> visits_fit edges nodeMap nodes) /\
  (~ visits_fit edges nodeMap nodes /\
     calDistances edges nodeMap (zlen nodes) nodes = Some (Throw (JsError "BFS failed")) \/
   visits_fit edges nodeMap nodes /\
   exists nodes', calDistances edges nodeMap (zlen nodes) nodes = Some (Ok nodes') /\
    dist_only nodes nodes' /\ dist nodes' 0 = base /\
    forall v, v <> O ->
      (forall k, nearest edges nodeMap nodes user k v -> dist nodes' v = 1 + Z.of_nat k) /\
      ((forall k, ~ path edges nodeMap nodes user k v) ->
         (forall k, nearest edges nodeMap nodes (.= O) k v -> dist nodes' v = base + Z.of_nat k) /\
         ((forall k, ~ path edges nodeMap nodes (.= O) k v) -> dist nodes' v = -5))).
Proof.
  intros WF Hne HID Hunset user base. split; [by apply distinct_fit|]. by apply calDistances_cases.
Qed.

(** The sample snapshot: [Window] and [Page] are user objects, the others are
    found from them. *)
Lemma calDistances_shortest_witness :
  exists nodes', calDistances sample_edges (node_index_map sample_nodes) 5 sample_nodes = Some (Ok nodes') /\
    hn_distance <$> nodes' = [100000000; 1; 1; 1; 2] /\ dist nodes' 0 = 100000000.
Proof.
  destruct (load_wf 1 sample_strings sample_rows sample_edges sample_rows_ok) as (nodes & Hn & _ & WF & _).
  assert (E : buildNodeEdge sample_edges nodes = sample_nodes) by (vm_compute in Hn; injection Hn as <-; reflexivity).
  rewrite E in WF.
  assert (HN : NoDup (user_roots sample_edges (node_index_map sample_nodes) sample_nodes))
    by (apply (bool_decide_unpack _); vm_compute; exact I).
  destruct (calDistances_shortest sample_edges (node_index_map sample_nodes) sample_nodes WF)
    as [Hfit [[Hno _]|(_ & nodes' & Hd & _ & Hr & _)]].
  - vm_compute. congruence.
  - intros i n Hi. do 5 (destruct i as [|i]; [injection Hi as <-; split; vm_compute; congruence|]). vm_compute in Hi. congruence.
  - intros v. do 5 (destruct v as [|v]; [reflexivity|]). reflexivity.
  - destruct (Hno (Hfit HN)).
  - exists nodes'. split; [exact Hd|]. split; [|exact Hr]. vm_compute in Hd. injection Hd as <-. reflexivity.
Defined.

Definition repeated_rows : list node_row := [sample_row 0 9 0 1 0 3; sample_row 1 3 1 3 16 0].
Definition repeated_edges : list HeapEdge := [sample_edge 0 1 3; sample_edge 1 5 3; sample_edge 2 3 3].

Lemma repeated_rows_ok : rows_ok repeated_rows repeated_edges.
Proof. solve_rows_ok. Qed.

(** A root that refers three times to its only object makes the search fail:
    the object enters the list of nodes to visit once per reference, the list is
    then longer than the number of nodes, and [calDistances] throws, so that the
    snapshot is not loaded. *)
Theorem calDistances_repeated_reference :
  exists nodes, node_array 2 (loadNode 1 sample_strings repeated_rows).1.1 = Some nodes /\
    let nodes1 := buildNodeEdge repeated_edges nodes in
    snapshot_wf repeated_edges (node_index_map nodes1) nodes1 /\
    calDistances repeated_edges (node_index_map nodes1) 2 nodes1 = Some (Throw (JsError "BFS failed")).
Proof.
  destruct (load_wf 1 sample_strings repeated_rows repeated_edges repeated_rows_ok) as (nodes & Hn & _ & WF & _).
  exists nodes. split; [done|]. split; [done|]. vm_compute in Hn. injection Hn as <-. reflexivity.
Qed.
