(* ===== verification/HeapDominators.v ===== *)
(** * Dominators and retained sizes

    [HeapLoader.buildOrderIdxAndDominateTree] with its helpers,
    [buildDominatorTree] (the algorithm of Cooper, Harvey and Kennedy),
    [calRetainedSize] and [buildDominatedNode] ([js-heap/logic/HeapLoader.ts]).
    A TypeError is [Throw]; [None] is a loop that was given too few rounds. *)

From S2P Require Import Prelude JsRuntime HeapModel HeapRetainers HeapFlags.

Section Dominators.
Context (edges : list HeapEdge) (nodeMap : gmap Z nat) (nodes : list HeapNode).
Context (nodeCount : Z) (rootNode : HeapNode).
Context (firstRetainerIndex retainingNodes retainingEdges : list Z).

Definition isEssentialEdge (edge : HeapEdge) (nodeId : Z) : bool :=
  negb (edge_is EDGE_WEAK edge) && (negb (edge_is EDGE_SHORTCUT edge) || (nodeId =? hn_id rootNode)).

Definition retainer_slots (nodeIdx : Z) : list Z :=
  let start := u32_at firstRetainerIndex nodeIdx in
  seqZ start (u32_at firstRetainerIndex (nodeIdx + 1) - start).

(** The retaining edges are positions of the table: [buildRetainers] put them there. *)
Definition hasOnlyWeakRetainers (node : HeapNode) : bool :=
  forallb (fun index =>
      match zlookup (u32_at retainingEdges index) edges with
      | Some edge => edge_is EDGE_WEAK edge || edge_is EDGE_SHORTCUT edge
      | None => true
      end) (retainer_slots (hn_nodeIndex node)).

(** ** The post order *)

Record order_state := {
  os_stackNodes : list Z;
  os_stackCurrentEdge : list Z;
  os_orderIdx2NodeIdx : list Z;
  os_nodeIdx2OrderIdx : list Z;
  os_visited : list Z;
  os_stack : Z;
  os_postOrderIdx : Z;
}.

Definition buildOrderIdxInit : order_state := {|
  os_stackNodes := u32_set (zeros nodeCount) 0 (hn_nodeIndex rootNode);
  os_stackCurrentEdge := zeros nodeCount;
  os_orderIdx2NodeIdx := zeros nodeCount;
  os_nodeIdx2OrderIdx := zeros nodeCount;
  os_visited := u32_set (zeros nodeCount) (hn_nodeIndex rootNode) 1;
  os_stack := 0;
  os_postOrderIdx := 0 |}.

Definition with_currentEdge (a : list Z) (st : order_state) : order_state := {|
  os_stackNodes := os_stackNodes st; os_stackCurrentEdge := a;
  os_orderIdx2NodeIdx := os_orderIdx2NodeIdx st; os_nodeIdx2OrderIdx := os_nodeIdx2OrderIdx st;
  os_visited := os_visited st; os_stack := os_stack st; os_postOrderIdx := os_postOrderIdx st |}.

Definition push_child (childNode : HeapNode) (st : order_state) : order_state :=
  let stack := os_stack st + 1 in {|
  os_stackNodes := u32_set (os_stackNodes st) stack (hn_nodeIndex childNode);
  os_stackCurrentEdge := u32_set (os_stackCurrentEdge st) stack (hn_firstEdgeIndex childNode);
  os_orderIdx2NodeIdx := os_orderIdx2NodeIdx st; os_nodeIdx2OrderIdx := os_nodeIdx2OrderIdx st;
  os_visited := u32_set (os_visited st) (hn_nodeIndex childNode) 1;
  os_stack := stack; os_postOrderIdx := os_postOrderIdx st |}.

(** [nodeIdx2OrderIdx[i] = postOrderIdx; orderIdx2NodeIdx[postOrderIdx++] = i] *)
Definition number_node (i : Z) (st : order_state) : order_state := {|
  os_stackNodes := os_stackNodes st; os_stackCurrentEdge := os_stackCurrentEdge st;
  os_orderIdx2NodeIdx := u32_set (os_orderIdx2NodeIdx st) (os_postOrderIdx st) i;
  os_nodeIdx2OrderIdx := u32_set (os_nodeIdx2OrderIdx st) i (os_postOrderIdx st);
  os_visited := os_visited st; os_stack := os_stack st; os_postOrderIdx := os_postOrderIdx st + 1 |}.

Definition with_stack (stack : Z) (st : order_state) : order_state := {|
  os_stackNodes := os_stackNodes st; os_stackCurrentEdge := os_stackCurrentEdge st;
  os_orderIdx2NodeIdx := os_orderIdx2NodeIdx st; os_nodeIdx2OrderIdx := os_nodeIdx2OrderIdx st;
  os_visited := os_visited st; os_stack := stack; os_postOrderIdx := os_postOrderIdx st |}.

Definition with_postOrderIdx (i : Z) (st : order_state) : order_state := {|
  os_stackNodes := os_stackNodes st; os_stackCurrentEdge := os_stackCurrentEdge st;
  os_orderIdx2NodeIdx := os_orderIdx2NodeIdx st; os_nodeIdx2OrderIdx := os_nodeIdx2OrderIdx st;
  os_visited := os_visited st; os_stack := os_stack st; os_postOrderIdx := i |}.

(** One round of the inner loop.  A stack entry that is no node repeats the
    round for ever. *)
Definition order_round (st : order_state) : res order_state :=
  match zlookup (u32_at (os_stackNodes st) (os_stack st)) nodes with
  | None => Ok st
  | Some node =>
      let edgeIndex := u32_at (os_stackCurrentEdge st) (os_stack st) in
      if edgeIndex <? hn_firstEdgeIndex node + hn_edgeCount node then
        let st := with_currentEdge (u32_set (os_stackCurrentEdge st) (os_stack st) (edgeIndex + 1)) st in
        match zlookup edgeIndex edges with
        | None => Throw TypeError
        | Some edge =>
            if negb (isEssentialEdge edge (hn_id node)) then Ok st
            else match get_node nodeMap nodes (he_toNodeId edge) with
                 | None => Ok st
                 | Some (_, childNode) =>
                     if truthy (u32_at (os_visited st) (hn_nodeIndex childNode)) then Ok st
                     else if negb (hn_id node =? hn_id rootNode) && has_flag PAGE_PROJECT childNode
                             && negb (truthy (hn_flag node)) then Ok st
                     else Ok (push_child childNode st)
                 end
        end
      else Ok (with_stack (os_stack st - 1) (number_node (hn_nodeIndex node) st))
  end.

Fixpoint order_loop (fuel : nat) (st : order_state) : option (res order_state) :=
  if (0 <=? os_stack st) && (os_stack st <? nodeCount) then
    match fuel with
    | O => None
    | S fuel' => match order_round st with
                 | Ok st => order_loop fuel' st
                 | Throw e => Some (Throw e)
                 end
    end
  else Some (Ok st).

(** The second start: the root at the bottom, its edges used up, and the nodes
    that only weak references retain. *)
Definition push_orphan (st : order_state) (node : HeapNode) : order_state :=
  if truthy (u32_at (os_visited st) (hn_nodeIndex node)) || negb (hasOnlyWeakRetainers node) then st
  else push_child node st.

Definition buildOrderIdxRootNode (st : order_state) : res order_state :=
  match zlookup (hn_nodeIndex rootNode + 1) nodes with
  | None => Throw TypeError
  | Some next =>
      let st := {|
        os_stackNodes := u32_set (os_stackNodes st) 0 (hn_nodeIndex rootNode);
        os_stackCurrentEdge := u32_set (os_stackCurrentEdge st) 0 (hn_firstEdgeIndex next);
        os_orderIdx2NodeIdx := os_orderIdx2NodeIdx st; os_nodeIdx2OrderIdx := os_nodeIdx2OrderIdx st;
        os_visited := os_visited st; os_stack := 0; os_postOrderIdx := os_postOrderIdx st |} in
      Ok (fold_left push_orphan nodes st)
  end.

Definition buildOrderIdxOrphans (st : order_state) : order_state :=
  if os_postOrderIdx st =? nodeCount then st
  else
    let st := with_postOrderIdx (os_postOrderIdx st - 1) st in
    let st := fold_left (fun st i => if truthy (u32_at (os_visited st) i) then st else number_node i st)
                (seqZ 0 nodeCount) st in
    number_node (hn_nodeIndex rootNode) st.

(** Every node is pushed once, the root twice; a round uses up an edge or an entry. *)
Definition order_fuel : nat := 2 * length edges + 2 * length nodes + 2.

(** The loop that runs at most twice. *)
Definition buildOrderIdx : option (res order_state) :=
  r ← order_loop order_fuel buildOrderIdxInit;
  match r with
  | Throw e => Some (Throw e)
  | Ok st =>
      if os_postOrderIdx st =? nodeCount then Some (Ok st)
      else match buildOrderIdxRootNode (with_postOrderIdx (os_postOrderIdx st - 1) st) with
           | Throw e => Some (Throw e)
           | Ok st =>
               r ← order_loop order_fuel st;
               Some (match r with Throw e => Throw e | Ok st => Ok (buildOrderIdxOrphans st) end)
           end
  end.

(** ** The dominator tree *)

Definition affectedNode (affected nodeIdx2OrderIdx : list Z) : list Z :=
  fold_left (fun affected e =>
      match edges !! e with
      | None => affected
      | Some edge =>
          if negb (isEssentialEdge edge (hn_id rootNode)) then affected
          else match get_node nodeMap nodes (he_toNodeId edge) with
               | Some (_, childNode) => u32_set affected (u32_at nodeIdx2OrderIdx (hn_nodeIndex childNode)) 1
               | None => affected
               end
      end) (hn_edges rootNode) affected.

(** [while (x < bound) x = dominators[x]]; reading past the array gives
    [undefined], with which the surrounding loop never ends. *)
Fixpoint climb (fuel : nat) (dominators : list Z) (x bound : Z) : option Z :=
  if x <? bound then
    match fuel with
    | O => None
    | S fuel' => match zlookup x dominators with
                 | Some y => climb fuel' dominators y bound
                 | None => None
                 end
    end
  else Some x.

Fixpoint intersect (fuel : nat) (dominators : list Z) (retainer newDominator : Z) : option Z :=
  if retainer =? newDominator then Some newDominator
  else match fuel with
       | O => None
       | S fuel' =>
           retainer ← climb fuel' dominators retainer newDominator;
           newDominator ← climb fuel' dominators newDominator retainer;
           intersect fuel' dominators retainer newDominator
       end.

(** The loop over the retainers of a node: the new dominator and whether no
    essential reference was found. *)
Fixpoint dominator_of (fuel : nat) (slots : list Z) (pageNode : bool) (rootOrderedIdx : Z)
    (dominators nodeIdx2OrderIdx : list Z) (newDominatorIdx : Z) (orphanNode : bool) : option (Z * bool) :=
  match slots with
  | [] => Some (newDominatorIdx, orphanNode)
  | idx :: slots' =>
      let continue := dominator_of fuel slots' pageNode rootOrderedIdx dominators nodeIdx2OrderIdx in
      let retainerNodeIdx := u32_at retainingNodes idx in
      match zlookup retainerNodeIdx nodes, zlookup (u32_at retainingEdges idx) edges with
      | Some node, Some edge =>
          if negb (isEssentialEdge edge (hn_id node)) then continue newDominatorIdx orphanNode
          else if negb (retainerNodeIdx =? hn_nodeIndex rootNode) && pageNode
                  && negb (has_flag PAGE_PROJECT node)
          then continue newDominatorIdx false
          else
            let retainerOrderIdx := u32_at nodeIdx2OrderIdx retainerNodeIdx in
            if u32_at dominators retainerOrderIdx =? nodeCount then continue newDominatorIdx false
            else
              newDominatorIdx ← (if newDominatorIdx =? nodeCount then Some retainerOrderIdx
                                 else intersect fuel dominators retainerOrderIdx newDominatorIdx);
              if newDominatorIdx =? rootOrderedIdx then Some (newDominatorIdx, false)
              else continue newDominatorIdx false
      | _, _ => None
      end
  end.

Definition buildDominatorTreeLogic (fuel : nat) (nodeIdx rootOrderedIdx : Z)
    (dominators nodeIdx2OrderIdx : list Z) : option Z :=
  node ← zlookup nodeIdx nodes;
  r ← dominator_of fuel (retainer_slots nodeIdx) (has_flag PAGE_PROJECT node) rootOrderedIdx
        dominators nodeIdx2OrderIdx nodeCount true;
  let '(newDominatorIdx, orphanNode) := (r : Z * bool) in
  Some (if orphanNode then rootOrderedIdx else newDominatorIdx).

Record dominator_state := { dm_dominators : list Z; dm_affected : list Z; dm_changed : bool }.

Definition mark_children (nodeIdx2OrderIdx : list Z) (node : HeapNode) (affected : list Z) : list Z :=
  fold_left (fun affected e =>
      match edges !! e with
      | None => affected
      | Some edge =>
          match get_node nodeMap nodes (he_toNodeId edge) with
          | Some (_, childNode) => u32_set affected (u32_at nodeIdx2OrderIdx (hn_nodeIndex childNode)) 1
          | None => affected
          end
      end) (hn_edges node) affected.

(** The body of the loop over the order, for one order index. *)
Definition dominator_step (fuel : nat) (orderIdx2NodeIdx nodeIdx2OrderIdx : list Z)
    (st : option dominator_state) (orderIdx : Z) : option dominator_state :=
  st ← st;
  let rootOrderedIdx := nodeCount - 1 in
  if u32_at (dm_affected st) orderIdx =? 0 then Some st
  else
    let affected := u32_set (dm_affected st) orderIdx 0 in
    let st' := {| dm_dominators := dm_dominators st; dm_affected := affected; dm_changed := dm_changed st |} in
    if u32_at (dm_dominators st) orderIdx =? rootOrderedIdx then Some st'
    else
      let nodeIdx := u32_at orderIdx2NodeIdx orderIdx in
      newDominatorIdx ← buildDominatorTreeLogic fuel nodeIdx rootOrderedIdx (dm_dominators st) nodeIdx2OrderIdx;
      if negb (newDominatorIdx =? nodeCount) && negb (u32_at (dm_dominators st) orderIdx =? newDominatorIdx) then
        node ← zlookup nodeIdx nodes;
        Some {| dm_dominators := u32_set (dm_dominators st) orderIdx newDominatorIdx;
                dm_affected := mark_children nodeIdx2OrderIdx node affected;
                dm_changed := true |}
      else Some st'.

Fixpoint dominator_loop (fuel : nat) (orderIdx2NodeIdx nodeIdx2OrderIdx : list Z) (st : dominator_state) :
    option dominator_state :=
  match fuel with
  | O => None
  | S fuel' =>
      st ← fold_left (dominator_step fuel' orderIdx2NodeIdx nodeIdx2OrderIdx)
             (reverse (seqZ 0 (nodeCount - 1)))
             (Some {| dm_dominators := dm_dominators st; dm_affected := dm_affected st; dm_changed := false |});
      if dm_changed st then dominator_loop fuel' orderIdx2NodeIdx nodeIdx2OrderIdx st else Some st
  end.

Definition buildDominatorTree (fuel : nat) (orderIdx2NodeIdx nodeIdx2OrderIdx : list Z) : option (list Z) :=
  let rootOrderedIdx := nodeCount - 1 in
  let dominators := u32_set (replicate (Z.to_nat nodeCount) nodeCount) rootOrderedIdx rootOrderedIdx in
  st ← dominator_loop fuel orderIdx2NodeIdx nodeIdx2OrderIdx
         {| dm_dominators := dominators; dm_affected := affectedNode (zeros nodeCount) nodeIdx2OrderIdx;
            dm_changed := true |};
  Some (fold_left (fun tree orderIdx =>
            u32_set tree (u32_at orderIdx2NodeIdx orderIdx)
              (u32_at orderIdx2NodeIdx (u32_at (dm_dominators st) orderIdx)))
          (seqZ 0 (zlen (dm_dominators st))) (zeros nodeCount)).
End Dominators.

(** ** Retained sizes *)

(** One round of [calRetainedSize]. *)
Definition propagate_size (orderIdx2NodeIdx dominatorTree : list Z) (nodes : list HeapNode) (idx : Z) :
    list HeapNode :=
  match zlookup (u32_at orderIdx2NodeIdx idx) nodes with
  | None => nodes
  | Some node =>
      alter (fun d => with_retainedSize (hn_retainedSize d + hn_retainedSize node) d)
            (Z.to_nat (u32_at dominatorTree (hn_nodeIndex node))) nodes
  end.

Definition propagate_sizes (nodeCount : Z) (orderIdx2NodeIdx dominatorTree : list Z) (nodes : list HeapNode) :
    list HeapNode :=
  fold_left (propagate_size orderIdx2NodeIdx dominatorTree) (seqZ 0 (nodeCount - 1)) nodes.

(** [calRetainedSize]: the dominator tree and the nodes with their sizes. *)
Definition calRetainedSize (fuel : nat) (edges : list HeapEdge) (nodeMap : gmap Z nat) (nodeCount : Z)
    (firstRetainerIndex retainingNodes retainingEdges : list Z) (nodes : list HeapNode) :
    option (res (list Z * list HeapNode)) :=
  rootNode ← nodes !! 0%nat;
  r ← buildOrderIdx edges nodeMap nodes nodeCount rootNode firstRetainerIndex retainingEdges;
  match r with
  | Throw e => Some (Throw e)
  | Ok st =>
      tree ← buildDominatorTree edges nodeMap nodes nodeCount rootNode firstRetainerIndex retainingNodes
               retainingEdges fuel (os_orderIdx2NodeIdx st) (os_nodeIdx2OrderIdx st);
      Some (Ok (tree, propagate_sizes nodeCount (os_orderIdx2NodeIdx st) tree nodes))
  end.

(** ** Dominated nodes *)

(** [buildDominatedNode]: [firstDominatedNodesIdx] and [dominatedNodes]. *)
Definition dominated_range (nodeCount rootIndex : Z) : res (Z * Z) :=
  if rootIndex =? 0 then Ok (1, nodeCount)
  else if rootIndex =? nodeCount - 1 then Ok (0, nodeCount - 1)
  else Throw (JsError "Root node is expected to be either first or last").

Definition buildDominatedNode (nodeCount rootIndex : Z) (dominatorTree : list Z) : res (list Z * list Z) :=
  let* ' (fromNodeIdx, toNodeIdx) := dominated_range nodeCount rootIndex in
  let range := seqZ fromNodeIdx (toNodeIdx - fromNodeIdx) in
  let first := fold_left (fun first nodeIdx =>
                   let d := u32_at dominatorTree nodeIdx in u32_set first d (u32_at first d + 1))
                 range (zeros (nodeCount + 1)) in
  let '(first, dominated) := assign_slots (seqZ 0 nodeCount) first (zeros (nodeCount - 1)) in
  let first := u32_set first nodeCount (zlen dominated) in
  let dominated := fold_left (fun dominated nodeIdx =>
                       let '(slot, dominated) := take_slot first dominated (u32_at dominatorTree nodeIdx) in
                       u32_set dominated slot nodeIdx)
                     range dominated in
  Ok (first, dominated).

(** ** The sum of retained sizes *)

Definition size_at (nodes : list HeapNode) (v : nat) : Z := from_option hn_retainedSize 0 (nodes !! v).

Section Propagate.
Context (nodes0 : list HeapNode) (ord tree : list nat).
Let n := length nodes0.
Context (Hidx : forall i nd, nodes0 !! i = Some nd -> hn_nodeIndex nd = Z.of_nat i).
Context (Hord : ord ≡ₚ seq 0 n) (Htree : length tree = n).
(** Every node but the last comes before its dominator. *)
Context (Hlater : forall j v, (S j < n)%nat -> ord !! j = Some v ->
  exists d k, tree !! v = Some d /\ ord !! k = Some d /\ (j < k)%nat).

Definition sizes_run (m : nat) : list HeapNode :=
  fold_left (propagate_size (Z.of_nat <$> ord) (Z.of_nat <$> tree)) (Z.of_nat <$> seq 0 m) nodes0.

Lemma ord_nodup : NoDup ord.
Proof. rewrite Hord. apply NoDup_seq. Qed.

Lemma ord_lt j v : ord !! j = Some v -> (v < n)%nat.
Proof. intros H%list_elem_of_lookup_2. rewrite Hord in H. apply elem_of_seq in H. lia. Qed.

Lemma ord_length : length ord = n.
Proof. rewrite Hord. apply length_seq. Qed.

Lemma sizes_run_frame m i : hn_nodeIndex <$> sizes_run m !! i = hn_nodeIndex <$> nodes0 !! i.
Proof.
  unfold sizes_run. induction m as [|m IH]; [done|].
  rewrite seq_S, fmap_app, fold_left_app. cbn [fold_left fmap list_fmap]. rewrite <- IH.
  set (ns := fold_left _ _ nodes0). unfold propagate_size. destruct (zlookup _ ns) as [nd|]; [|done].
  set (d := Z.to_nat _). destruct (decide (i = d)) as [->|].
  - rewrite list_lookup_alter_eq. destruct (ns !! d) as [x|]; [|done]. by destruct x.
  - by rewrite list_lookup_alter_ne.
Qed.

Lemma sizes_run_length m : length (sizes_run m) = n.
Proof.
  unfold sizes_run. induction m as [|m IH]; [done|].
  rewrite seq_S, fmap_app, fold_left_app. cbn [fold_left fmap list_fmap]. rewrite <- IH.
  unfold propagate_size. case_match; [apply length_alter|done].
Qed.

(** One round adds the size of the node at position [m] to its dominator. *)
Lemma sizes_run_step m v d :
  ord !! m = Some v -> tree !! v = Some d -> (d < n)%nat ->
  forall w, size_at (sizes_run (S m)) w =
    if decide (w = d) then size_at (sizes_run m) d + size_at (sizes_run m) v else size_at (sizes_run m) w.
Proof.
  intros Hv Hd Hdn w. unfold sizes_run at 1. rewrite seq_S, fmap_app, fold_left_app. cbn [fold_left fmap list_fmap plus].
  fold (sizes_run m). unfold propagate_size.
  rewrite (u32_at_Some _ _ (Z.of_nat v)) by (by rewrite list_lookup_fmap, Hv).
  unfold zlookup. destruct (Z.ltb_spec (Z.of_nat v) 0); [lia|]. rewrite Nat2Z.id.
  pose proof (ord_lt _ _ Hv) as Hvn.
  destruct (lookup_lt_is_Some_2 (sizes_run m) v) as [nd Hnd]; [by rewrite sizes_run_length|].
  rewrite Hnd. assert (Hni : hn_nodeIndex nd = Z.of_nat v).
  { pose proof (sizes_run_frame m v) as Hf. rewrite Hnd in Hf.
    destruct (nodes0 !! v) as [nd0|] eqn:E; [|done]. simpl in Hf. injection Hf as ->. by apply Hidx. }
  rewrite Hni, (u32_at_Some _ _ (Z.of_nat d)) by (by rewrite list_lookup_fmap, Hd). rewrite Nat2Z.id.
  destruct (lookup_lt_is_Some_2 (sizes_run m) d) as [nd' Hnd']; [by rewrite sizes_run_length|].
  assert (Hsv : size_at (sizes_run m) v = hn_retainedSize nd) by (unfold size_at; by rewrite Hnd). rewrite Hsv.
  unfold size_at. case_decide as E.
  - subst w. rewrite list_lookup_alter_eq, Hnd'. simpl. by destruct nd'.
  - by rewrite list_lookup_alter_ne.
Qed.

(** The children whose sizes [v] has received in the first [m] rounds. *)
Definition dominated_before (m v : nat) : list nat :=
  filter (fun c => tree !! c = Some v) (take m ord).

Lemma later_dominator j v d : (S j < n)%nat -> ord !! j = Some v -> tree !! v = Some d ->
  (d < n)%nat /\ forall k, (k <= j)%nat -> ord !! k <> Some d.
Proof.
  intros Hj Hv Hd. destruct (Hlater j v Hj Hv) as (d' & k & Hd' & Hk & Hjk).
  assert (d' = d) as -> by congruence. split; [by eapply ord_lt|].
  intros k' Hk' E. pose proof (NoDup_lookup _ _ _ _ ord_nodup E Hk). lia.
Qed.

(** The size of a node does not change once its own round has come. *)
Lemma sizes_run_stable j v : ord !! j = Some v -> forall m, (j <= m < n)%nat -> size_at (sizes_run m) v = size_at (sizes_run j) v.
Proof.
  intros Hv. induction m as [|m IH]; intros Hm; [by replace j with O by lia|].
  destruct (decide (j = S m)) as [->|]; [done|]. rewrite <- IH by lia.
  destruct (lookup_lt_is_Some_2 ord m) as [u Hu]; [rewrite ord_length; lia|].
  destruct (Hlater m u) as (d & k & Hd & _ & _); [lia|done|].
  destruct (later_dominator m u d) as [Hdn Hnot]; [lia|done|done|].
  rewrite (sizes_run_step m u d) by done. rewrite decide_False; [done|]. intros ->. by apply (Hnot j); [lia|].
Qed.

Lemma sizes_run_equation m : (m < n)%nat -> forall v,
  size_at (sizes_run m) v = size_at nodes0 v + zsum (size_at (sizes_run (n - 1)) <$> dominated_before m v).
Proof.
  induction m as [|m IH]; intros Hm v; [unfold dominated_before; simpl; unfold sizes_run; simpl; lia|].
  destruct (lookup_lt_is_Some_2 ord m) as [u Hu]; [rewrite ord_length; lia|].
  destruct (Hlater m u) as (d & k & Hd & _ & _); [lia|done|].
  destruct (later_dominator m u d) as [Hdn _]; [lia|done|done|].
  rewrite (sizes_run_step m u d) by done. rewrite (IH ltac:(lia) v).
  unfold dominated_before. rewrite (take_S_r _ _ _ Hu), filter_app, fmap_app, zsum_app, filter_cons. simpl.
  fold (dominated_before m v).
  rewrite <- (sizes_run_stable m u Hu (n - 1)%nat) by lia.
  destruct (decide (v = d)) as [->|Hne].
  - rewrite decide_True by done. simpl. rewrite (IH ltac:(lia) d). lia.
  - rewrite decide_False by congruence. simpl. lia.
Qed.

(** The sizes of the nodes still to come always sum to the whole. *)
Lemma sizes_run_total m : (m < n)%nat ->
  zsum (size_at (sizes_run m) <$> drop m ord) = zsum (size_at nodes0 <$> seq 0 n).
Proof.
  induction m as [|m IH]; intros Hm.
  - rewrite drop_0. unfold sizes_run. simpl. rewrite Hord. done.
  - rewrite <- IH by lia. destruct (lookup_lt_is_Some_2 ord m) as [u Hu]; [rewrite ord_length; lia|].
    destruct (Hlater m u) as (d & k & Hd & Hk & Hmk); [lia|done|].
    rewrite (drop_S _ _ _ Hu), fmap_cons. simpl.
    rewrite (zsum_update (size_at (sizes_run m)) _ d (size_at (sizes_run m) u)); [lia| | |].
    + apply (sublist_NoDup _ ord); [apply ord_nodup|apply sublist_drop].
    + apply list_elem_of_lookup. exists (k - S m)%nat. rewrite lookup_drop. rewrite <- Hk. f_equal. lia.
    + intros w. apply sizes_run_step; [done|done|by eapply ord_lt].
Qed.
End Propagate.

(** ** Dominated nodes *)

Lemma fold_left_fmap {A B C} (f : C -> B -> C) (g : A -> B) (l : list A) : forall c,
  fold_left f (g <$> l) c = fold_left (fun c x => f c (g x)) l c.
Proof. induction l; intros; simpl; auto. Qed.

Lemma count_keys n (ks : list nat) : forall first,
  Forall (fun k => (k < n)%nat) ks -> length first = S n ->
  (forall k x, first !! k = Some x -> 0 <= x /\ x + zlen ks < 2 ^ 32) ->
  let first' := fold_left (fun first d => u32_set first d (u32_at first d + 1)) (Z.of_nat <$> ks) first in
  length first' = S n /\
  forall k x, first !! k = Some x -> first' !! k = Some (x + Z.of_nat (length (filter (.= k) ks))).
Proof.
  induction ks as [|c ks IH]; intros first HF Hlen Hb; cbn [fold_left fmap list_fmap].
  { split; [done|]. intros k x ->. f_equal. simpl. lia. }
  apply Forall_cons in HF as [Hc HF]. destruct (lookup_lt_is_Some_2 first c) as [x Hx]; [lia|].
  rewrite (u32_at_Some _ _ _ Hx). destruct (Hb c x Hx) as [Hx0 Hx1].
  rewrite zlen_cons in Hx1. pose proof (zlen_nonneg ks).
  rewrite u32_set_nat by (unfold is_u32; lia).
  destruct (IH (<[c := x + 1]> first)) as [IH1 IH2]; [done|by rewrite length_insert| |].
  { intros k y Hy. apply list_lookup_insert_Some in Hy as [(-> & <- & _)|[_ Hy]]; [lia|].
    apply Hb in Hy. rewrite zlen_cons in Hy. lia. }
  split; [done|]. intros k y Hy. rewrite filter_cons. case_decide as Hd.
  - subst k. rewrite (IH2 c (x + 1)); [simplify_eq; f_equal; rewrite length_cons; lia|].
    apply list_lookup_insert_eq. lia.
  - rewrite (IH2 k y); [done|]. by rewrite list_lookup_insert_ne.
Qed.

(** Nodes other than the root, each with its dominator as key. *)
Definition dominated_item (tree : list nat) (i : nat) : nat * (Z * Z) := (default O (tree !! i), (Z.of_nat i, 0)).

Definition dominated_items (tree : list nat) : list (nat * (Z * Z)) :=
  dominated_item tree <$> seq 1 (length tree - 1).

Lemma dominated_keys tree : fst <$> dominated_items tree = drop 1 tree.
Proof.
  unfold dominated_items. rewrite <- list_fmap_compose. apply list_eq. intros i.
  rewrite list_lookup_fmap, lookup_drop. destruct (decide (i < length tree - 1)%nat) as [Hlt|Hge].
  - rewrite lookup_seq_lt by done. simpl. destruct (lookup_lt_is_Some_2 tree (S i)) as [d ->]; [lia|done].
  - rewrite lookup_seq_ge by lia. symmetry. apply lookup_ge_None. lia.
Qed.

Lemma dominated_members tree v :
  fst <$> members v (dominated_items tree)
  = Z.of_nat <$> filter (fun i => tree !! i = Some v) (seq 1 (length tree - 1)).
Proof.
  unfold members, dominated_items, dominated_item.
  assert (Hin : forall i, i ∈ seq 1 (length tree - 1) -> (i < length tree)%nat) by (intros i Hi%elem_of_seq; lia).
  induction (seq 1 (length tree - 1)) as [|i l IH]; [done|].
  rewrite fmap_cons, !filter_cons. cbn [fst].
  destruct (lookup_lt_is_Some_2 tree i) as [d Hd]; [apply Hin; set_solver|]. rewrite Hd. cbn [default from_option id].
  specialize (IH ltac:(set_solver)).
  destruct (decide (d = v)) as [->|Hne].
  - rewrite decide_True by done. rewrite !fmap_cons. simpl. f_equal. exact IH.
  - rewrite decide_False by congruence. exact IH.
Qed.

Lemma dominated_fill c n first (tree : list nat) (todo : list nat) : forall its arr arr2,
  filling c n its arr arr2 -> Z.of_nat (start c n) < 2 ^ 32 -> Z.of_nat (length tree) < 2 ^ 32 ->
  (forall k, (k < n)%nat -> first !! k = Some (Z.of_nat (start c k))) ->
  Forall (fun i => (i < length tree)%nat /\ exists d, tree !! i = Some d /\ (d < n)%nat) todo ->
  (forall k, (length (members k (its ++ (dominated_item tree <$> todo))) <= c k)%nat) ->
  exists arr2', filling c n (its ++ (dominated_item tree <$> todo))
    (fold_left (fun dominated nodeIdx =>
        let '(slot, dominated) := take_slot first dominated (u32_at (Z.of_nat <$> tree) nodeIdx) in
        u32_set dominated slot nodeIdx) (Z.of_nat <$> todo) arr) arr2'.
Proof.
  induction todo as [|i todo IH]; intros its arr arr2 Hf Hs Ht Hfirst HF Hroom; cbn [fold_left fmap list_fmap].
  { rewrite app_nil_r. eauto. }
  apply Forall_cons in HF as [(Hi & d & Hd & Hdn) HF].
  rewrite (u32_at_Some _ _ (Z.of_nat d)) by (by rewrite list_lookup_fmap, Hd). 
  assert (Hit : dominated_item tree i = (d, (Z.of_nat i, 0))) by (unfold dominated_item; by rewrite Hd).
  rewrite Hit. rewrite fmap_cons, Hit in Hroom.
  destruct (filling_put c n its arr arr2 first d (Z.of_nat i) 0 Hf Hs Hdn) as (slot & arr' & -> & Hput).
  - specialize (Hroom d). rewrite members_app, members_cons, decide_True, length_app in Hroom by done. simpl in Hroom. lia.
  - by apply Hfirst.
  - unfold is_u32. lia.
  - unfold is_u32. lia.
  - destruct (IH _ _ _ Hput) as (arr2' & H); try done.
    + intros k. rewrite <- app_assoc. apply Hroom.
    + exists arr2'. rewrite <- app_assoc in H. exact H.
Qed.

(** [buildDominatedNode] inverts the dominator tree.  When the root is the
    first node and the tree holds node indices, the slice of [dominatedNodes] that
    [firstDominatedNodesIdx] delimits for a node lists exactly the nodes it
    dominates immediately, each once, the root excepted, in descending order. *)
Theorem dominated_nodes_slices (tree : list nat) :
  tree <> [] -> Z.of_nat (length tree) < 2 ^ 32 -> Forall (fun d => (d < length tree)%nat) tree ->
  exists first dominated,
    buildDominatedNode (zlen tree) 0 (Z.of_nat <$> tree) = Ok (first, dominated) /\
    forall v, (v < length tree)%nat ->
      js_slice dominated (u32_at first (Z.of_nat v)) (u32_at first (Z.of_nat v + 1))
      = reverse (Z.of_nat <$> filter (fun i => tree !! i = Some v) (seq 1 (length tree - 1))).
Proof.
  intros Hne Hsmall HF. set (n := length tree) in *.
  assert (Hn : (1 <= n)%nat) by (destruct tree; simpl in *; [done|lia]).
  set (c := fun k => length (filter (.= k) (drop 1 tree))).
  assert (Hdrop : Forall (fun k => (k < n)%nat) (drop 1 tree)) by (by apply Forall_drop).
  assert (Hst : start c n = (n - 1)%nat) by (unfold c; rewrite start_count, length_drop by done; done).
  unfold buildDominatedNode, dominated_range. cbn [Z.eqb res_bind].
  change (zlen tree) with (Z.of_nat n).
  assert (Hrange : seqZ 1 (Z.of_nat n - 1) = Z.of_nat <$> seq 1 (n - 1)).
  { unfold seqZ. rewrite <- (fmap_S_seq 0), <- list_fmap_compose. replace (Z.to_nat (Z.of_nat n - 1)) with (n - 1)%nat by lia.
    apply list_fmap_ext. intros i x _. simpl. lia. }
  rewrite Hrange, seqZ_of_nat, Nat2Z.id by lia.
  assert (Hkeys : u32_at (Z.of_nat <$> tree) <$> (Z.of_nat <$> seq 1 (n - 1)) = Z.of_nat <$> drop 1 tree).
  { rewrite <- (dominated_keys tree). unfold dominated_items. rewrite <- !list_fmap_compose. apply list_fmap_ext.
    intros i x Hx. apply list_elem_of_lookup_2, elem_of_seq in Hx. simpl.
    destruct (lookup_lt_is_Some_2 tree x) as [d Hd]; [fold n; lia|].
    by rewrite (u32_at_Some _ _ (Z.of_nat d)), Hd by (by rewrite list_lookup_fmap, Hd). }
  rewrite <- (fold_left_fmap (fun first d => u32_set first d (u32_at first d + 1)) (u32_at (Z.of_nat <$> tree))), Hkeys.
  destruct (count_keys n (drop 1 tree) (zeros (Z.of_nat n + 1))) as [Hcl Hck]; [done| | |].
  { unfold zeros. rewrite length_replicate. lia. }
  { intros k x [-> _]%lookup_replicate. unfold zlen. rewrite length_drop. fold n. lia. }
  destruct (assign_slots_spec c n (fold_left (fun first d => u32_set first d (u32_at first d + 1))
     (Z.of_nat <$> drop 1 tree) (zeros (Z.of_nat n + 1))) (zeros (Z.of_nat n - 1)))
    as (first & arr & -> & Hl1 & Hl2 & Hf & Ha); [done| | | |].
  { unfold zeros. rewrite length_replicate. lia. }
  { unfold zeros. rewrite length_replicate. lia. }
  { intros k Hk. rewrite (Hck k 0); [done|]. apply zeros_lookup. lia. }
  unfold zeros in Hl2. rewrite length_replicate in Hl2.
  assert (Hz : zlen arr = Z.of_nat (start c n)) by (unfold zlen; lia).
  rewrite Hz, u32_set_nat by (unfold is_u32; lia).
  set (first1 := <[n := Z.of_nat (start c n)]> first).
  assert (Hf1 : forall k, (k <= n)%nat -> first1 !! k = Some (Z.of_nat (start c k))).
  { intros k Hk. unfold first1. destruct (decide (k = n)) as [->|].
    - apply list_lookup_insert_eq. lia.
    - rewrite list_lookup_insert_ne by done. apply Hf. lia. }
  assert (Hmem : forall k, length (members k (dominated_items tree)) = c k).
  { intros k. by rewrite length_members, dominated_keys. }
  destruct (dominated_fill c n first1 tree (seq 1 (n - 1)) [] arr (replicate (start c n) 0)) as (arr2 & Hfill); try done.
  - apply filling_start; [lia|apply length_replicate|done].
  - lia.
  - intros k Hk. apply Hf1. lia.
  - apply Forall_forall. intros i Hi%elem_of_seq. split; [fold n; lia|].
    destruct (lookup_lt_is_Some_2 tree i) as [d Hd]; [fold n; lia|]. exists d. split; [done|].
    rewrite Forall_lookup in HF. by eapply HF.
  - intros k. rewrite app_nil_l. rewrite <- Hmem. done.
  - eexists _, _. split; [done|]. intros v Hv.
    replace (Z.of_nat v + 1) with (Z.of_nat (S v)) by lia.
    rewrite (u32_at_Some _ _ _ (Hf1 v ltac:(lia))), (u32_at_Some _ _ _ (Hf1 (S v) ltac:(lia))).
    rewrite app_nil_l in Hfill. destruct (filling_slice _ _ _ _ _ v Hfill Hv) as [-> _]; [apply Hmem|].
    f_equal. apply dominated_members.
Qed.

Lemma dominated_nodes_slices_witness :
  exists first dominated,
    buildDominatedNode 5 0 (Z.of_nat <$> [0; 0; 0; 0; 2])%nat = Ok (first, dominated) /\
    first = [0; 3; 3; 4; 4; 4] /\ dominated = [3; 2; 1; 4].
Proof.
  destruct (dominated_nodes_slices [0; 0; 0; 0; 2]%nat) as (first & dominated & E & _).
  - discriminate.
  - vm_compute. reflexivity.
  - repeat constructor.
  - exists first, dominated. split; [exact E|]. vm_compute in E. injection E as <- <-. split; reflexivity.
Defined.

(** ** Retained sizes *)

(** Every node but the last of the order comes before its dominator. *)
Definition dominator_after (ord tree : list nat) : Prop :=
  forall j v, (S j < length ord)%nat -> ord !! j = Some v ->
    exists d k, tree !! v = Some d /\ ord !! k = Some d /\ (j < k)%nat.

(** C8: Retained sizes add up.  When every node precedes its dominator in the
    order, as in a post order, the sizes that [calRetainedSize] propagates satisfy
    the defining equation of the retained size: the size of a node's own plus the
    retained sizes of the nodes it dominates immediately.  The root retains the
    sum of all sizes. *)
Theorem retained_sizes_sum nodes ord tree :
  (forall i nd, nodes !! i = Some nd -> hn_nodeIndex nd = Z.of_nat i) ->
  ord ≡ₚ seq 0 (length nodes) -> last ord = Some 0%nat -> length tree = length nodes ->
  dominator_after ord tree ->
  let nodes' := propagate_sizes (zlen nodes) (Z.of_nat <$> ord) (Z.of_nat <$> tree) nodes in
  (forall v, size_at nodes' v = size_at nodes v +
     zsum (size_at nodes' <$> filter (fun c => tree !! c = Some v) (seq 1 (length nodes - 1)))) /\
  size_at nodes' 0 = zsum (size_at nodes <$> seq 0 (length nodes)).
Proof.
  intros Hidx Hord Hlast Htree Hafter nodes'. set (n := length nodes) in *.
  assert (Hlen : length ord = n) by (rewrite Hord; apply length_seq).
  assert (Hlater : forall j v, (S j < n)%nat -> ord !! j = Some v ->
    exists d k, tree !! v = Some d /\ ord !! k = Some d /\ (j < k)%nat) by (rewrite <- Hlen; exact Hafter).
  destruct (last_Some ord 0%nat) as [Hls _]. destruct (Hls Hlast) as [init Hinit].
  assert (Hil : length init = (n - 1)%nat) by (rewrite <- Hlen, Hinit, length_app; simpl; lia).
  assert (Hpos : (0 < n)%nat) by (rewrite <- Hlen, Hinit, length_app; simpl; lia).
  assert (Hrun : nodes' = sizes_run nodes ord tree (n - 1)).
  { unfold nodes', propagate_sizes, sizes_run. rewrite seqZ_of_nat by (unfold zlen; lia).
    f_equal. f_equal. f_equal. unfold zlen. lia. }
  assert (Hperm : take (n - 1) ord ≡ₚ seq 1 (n - 1)).
  { rewrite Hinit, take_app_length' by done. apply (Permutation_cons_inv (a := 0%nat)).
    replace (0%nat :: seq 1 (n - 1)) with (seq 0 n) by (destruct n; [lia|]; simpl; by rewrite Nat.sub_0_r).
    rewrite <- Hord, Hinit. apply Permutation_cons_append. }
  rewrite Hrun. split.
  - intros v. rewrite (sizes_run_equation nodes ord tree Hidx Hord Htree Hlater (n - 1) ltac:(lia) v) at 1.
    unfold dominated_before. by rewrite Hperm.
  - pose proof (sizes_run_total nodes ord tree Hidx Hord Htree Hlater (n - 1) ltac:(unfold n in *; lia)) as Ht.
    fold n in Ht. rewrite <- Ht.
    assert (drop (n - 1) ord = [0%nat]) as -> by (by rewrite Hinit, drop_app_length'). simpl. lia.
Qed.

Abbreviation sample_retainers := (buildRetainers sample_edges (node_index_map sample_nodes) 5 8 0 sample_nodes).

(** On the sample snapshot, with the order and the tree that the code computes. *)
Lemma retained_sizes_sum_witness :
  exists nodes', calRetainedSize 9 sample_edges (node_index_map sample_nodes) 5 sample_retainers.1
      (rt_retainingNodes sample_retainers.2) (rt_retainingEdges sample_retainers.2) sample_nodes
    = Some (Ok (Z.of_nat <$> [0; 0; 0; 0; 0]%nat, nodes')) /\
    nodes' = propagate_sizes 5 (Z.of_nat <$> [4; 3; 1; 2; 0]%nat) (Z.of_nat <$> [0; 0; 0; 0; 0]%nat) sample_nodes /\
    size_at nodes' 0 = 88.
Proof.
  destruct (retained_sizes_sum sample_nodes [4; 3; 1; 2; 0]%nat [0; 0; 0; 0; 0]%nat) as [_ Htot].
  - intros i nd Hi. do 5 (destruct i as [|i]; [injection Hi as <-; reflexivity|]). vm_compute in Hi. discriminate.
  - apply (bool_decide_unpack _). vm_compute. exact I.
  - reflexivity.
  - reflexivity.
  - intros j v Hj Hv. exists 0%nat, 4%nat.
    do 4 (destruct j as [|j]; [injection Hv as <-; split; [reflexivity|split; [reflexivity|lia]]|]). simpl in Hj. lia.
  - eexists. split; [vm_compute; reflexivity|]. split; [vm_compute; reflexivity|].
    transitivity (zsum (size_at sample_nodes <$> seq 0 (length sample_nodes))); [|vm_compute; reflexivity].
    rewrite <- Htot. vm_compute. reflexivity.
Defined.
