(* ===== verification/HeapOrder.v ===== *)
(** * The post order of a heap snapshot

    The numbering that [HeapLoader.buildOrderIdxAndDominateTree] computes
    (defined in the file on dominators) is shown to be one: the depth-first
    search, its second start at the nodes that only weak references retain and
    the treatment of the remaining orphans end, raise no error and number every
    node once. *)

From S2P Require Import Prelude JsRuntime HeapModel HeapRetainers HeapFlags HeapDom HeapDistance HeapDominators.

(** A pass may need more rounds than it is given ([None]), raise, or return. *)
Definition run_bind {A B} (m : option (res A)) (k : A -> option (res B)) : option (res B) :=
  match m with
  | None => None
  | Some (Throw e) => Some (Throw e)
  | Some (Ok a) => k a
  end.

Notation "'let!' x ':=' c 'in' k" := (run_bind c (fun x => k))
  (at level 200, x name, c at level 100, k at level 200, right associativity).
Notation "'let!' ' p ':=' c 'in' k" := (run_bind c (fun x => match x with p => k end))
  (at level 200, p pattern, c at level 100, k at level 200, right associativity).

(** The first passes of [preprocess], up to the distances: the retainers and the
    nodes on which the order is computed. *)
Definition preprocess_marks (nodeCount edgeCount : Z) (edges : list HeapEdge) (nodes : list HeapNode) :
    option (res (list Z * retainers * list HeapNode)) :=
  let nodeMap := node_index_map nodes in
  let rootIndex := from_option hn_nodeIndex 0 (nodes !! 0%nat) in
  let nodes := buildNodeEdge edges nodes in
  let '(first, rt) := buildRetainers edges nodeMap nodeCount edgeCount rootIndex nodes in
  let! nodes := Ok <$> distributeDOMState edges nodeMap nodeCount (rt_nodes rt) in
  let! nodes := Ok <$> calFlags edges nodeMap nodes in
  let! nodes := calDistances edges nodeMap nodeCount nodes in
  Some (Ok (first, rt, nodes)).

(** ** The post order is a numbering of the nodes *)

Lemma sum_list_with_perm {A} (f : A -> nat) l k : l ≡ₚ k -> sum_list_with f l = sum_list_with f k.
Proof. induction 1; simpl; lia. Qed.

(** The array starts with the numbers [L]. *)
Definition starts_with (a : list Z) (L : list nat) : Prop :=
  (length L <= length a)%nat /\ take (length L) a = Z.of_nat <$> L.

Lemma starts_with_lookup a L i v : starts_with a L -> L !! i = Some v -> a !! i = Some (Z.of_nat v).
Proof.
  intros [_ E] Hi. pose proof (lookup_lt_Some _ _ _ Hi). rewrite <- (lookup_take_lt a (length L)) by done.
  by rewrite E, list_lookup_fmap, Hi.
Qed.

Lemma starts_with_push a L v :
  starts_with a L -> (length L < length a)%nat -> Z.of_nat v < 2 ^ 32 ->
  starts_with (u32_set a (Z.of_nat (length L)) (Z.of_nat v)) (L ++ [v]).
Proof.
  intros [_ E] Hlt Hv. rewrite u32_set_nat by (unfold is_u32; lia).
  split; rewrite length_app, ?length_insert; simpl; [lia|].
  replace (length L + 1)%nat with (S (length L)) by lia.
  rewrite (take_S_r _ _ (Z.of_nat v)) by (by apply list_lookup_insert_eq).
  rewrite take_insert_ge by lia. by rewrite E, fmap_app.
Qed.

Lemma starts_with_app a L k : starts_with a (L ++ k) -> starts_with a L.
Proof.
  unfold starts_with. rewrite length_app, fmap_app. intros [Hl E]. split; [lia|].
  apply (f_equal (take (length L))) in E. rewrite take_take, Nat.min_l in E by lia.
  by rewrite E, take_app_length' by (by rewrite length_fmap).
Qed.

Section Order.
Context (edges : list HeapEdge) (nodeMap : gmap Z nat) (nodes : list HeapNode).
Context (firstRetainerIndex retainingEdges : list Z) (rootNode : HeapNode).
Context (WF : snapshot_wf edges nodeMap nodes) (SP : spans_ok edges nodes).
Context (Hroot : nodes !! 0%nat = Some rootNode).
Let n := length nodes.

Definition edge_end (v : nat) : Z :=
  match nodes !! v with Some nd => hn_firstEdgeIndex nd + hn_edgeCount nd | None => 0 end.

(** Rounds that entry [v] of the stack, at edge [cur], still needs. *)
Definition entry_work (v : nat) (cur : Z) : nat := S (Z.to_nat (edge_end v - cur)).

Definition node_work (v : nat) : nat :=
  match nodes !! v with Some nd => S (Z.to_nat (hn_edgeCount nd)) | None => O end.

(** [L]: the nodes numbered so far; [S]: the stack, bottom first, with the next
    edge of every entry. *)
Record order_inv (st : order_state) (L : list nat) (S : list (nat * Z)) : Prop := {
  oi_done : starts_with (os_orderIdx2NodeIdx st) L;
  oi_post : os_postOrderIdx st = Z.of_nat (length L);
  oi_stack : os_stack st = Z.of_nat (length S) - 1;
  oi_nodes : starts_with (os_stackNodes st) (fst <$> S);
  oi_cur : forall i v c, S !! i = Some (v, c) -> os_stackCurrentEdge st !! i = Some c /\ 0 <= c < 2 ^ 32;
  oi_lens : length (os_orderIdx2NodeIdx st) = n /\ length (os_nodeIdx2OrderIdx st) = n /\
            length (os_visited st) = n /\ length (os_stackNodes st) = n /\ length (os_stackCurrentEdge st) = n;
  oi_nodup : NoDup (L ++ (fst <$> S));
  oi_range : forall v, v ∈ L ++ (fst <$> S) -> (v < n)%nat;
  oi_inverse : forall i v, L !! i = Some v -> os_nodeIdx2OrderIdx st !! v = Some (Z.of_nat i);
  oi_visited : forall v, (v < n)%nat -> truthy (u32_at (os_visited st) (Z.of_nat v)) = true <-> v ∈ L ++ (fst <$> S);
}.

Definition unvisited_nodes (st : order_state) : list nat :=
  filter (fun v => truthy (u32_at (os_visited st) (Z.of_nat v)) = false) (seq 0 n).

Definition work (st : order_state) (S : list (nat * Z)) : nat :=
  sum_list_with node_work (unvisited_nodes st) + sum_list_with (fun vc => entry_work vc.1 vc.2) S.

Lemma order_capacity st L S : order_inv st L S -> (length L + length S <= n)%nat.
Proof.
  intros H. pose proof (oi_nodup _ _ _ H) as HN.
  replace (length L + length S)%nat with (length (L ++ (fst <$> S))) by (rewrite length_app, length_fmap; done).
  rewrite <- (length_seq n 0). apply submseteq_length, NoDup_submseteq; [done|].
  intros v Hv. apply elem_of_seq. apply (oi_range _ _ _ H) in Hv. lia.
Qed.

Lemma nodes_small : Z.of_nat n < 2 ^ 32.
Proof. apply (wf_nodes_small _ _ _ WF). Qed.

Lemma truthy_insert V v w :
  (v < length V)%nat -> truthy (u32_at (u32_set V (Z.of_nat v) 1) (Z.of_nat w)) = true <->
  truthy (u32_at V (Z.of_nat w)) = true \/ w = v.
Proof.
  intros Hv. rewrite u32_set_nat by done. rewrite !u32_at_nat. destruct (decide (w = v)) as [->|].
  - rewrite list_lookup_insert_eq by done. split; [by right|done].
  - rewrite list_lookup_insert_ne by done. naive_solver.
Qed.

(** Pushing an unvisited node. *)
Lemma push_child_inv st L S c nd :
  order_inv st L S -> nodes !! c = Some nd -> truthy (u32_at (os_visited st) (Z.of_nat c)) = false ->
  order_inv (push_child nd st) L (S ++ [(c, hn_firstEdgeIndex nd)]) /\
  (work (push_child nd st) (S ++ [(c, hn_firstEdgeIndex nd)]) <= work st S)%nat.
Proof.
  intros H Hc Hv. pose proof (order_capacity _ _ _ H) as Hcap. pose proof nodes_small as Hsm.
  pose proof (lookup_lt_Some _ _ _ Hc) as Hcn. fold n in Hcn.
  destruct (SP _ _ Hc) as (Hf0 & Hc0 & Hfe & _). pose proof (wf_edges_small _ _ _ WF) as Hes.
  pose proof (wf_index _ _ _ WF _ _ Hc) as Hix. destruct H as [Hd Hp Hs Hn Hcur Hl HN Hr Hinv Hvis].
  destruct Hl as (Hl1 & Hl2 & Hl3 & Hl4 & Hl5).
  assert (HcS : c ∉ L ++ (fst <$> S)) by (intros Hin; apply (Hvis c Hcn) in Hin; congruence).
  assert (Hcap' : (length L + length S < n)%nat).
  { assert (HN' : NoDup ((L ++ (fst <$> S)) ++ [c])) by (apply NoDup_app; split_and!; [done|set_solver|apply NoDup_singleton]).
    assert (Hle : (length ((L ++ (fst <$> S)) ++ [c]) <= length (seq 0 n))%nat).
    { apply submseteq_length, NoDup_submseteq; [done|]. intros v Hin. apply elem_of_seq.
      apply elem_of_app in Hin as [Hin|Hin]; [apply Hr in Hin; lia|set_solver by lia]. }
    rewrite !length_app, length_fmap, length_seq in Hle. simpl in Hle. lia. }
  assert (Hst1 : os_stack st + 1 = Z.of_nat (length (fst <$> S))) by (rewrite length_fmap; lia).
  split.
  - split; unfold push_child; cbn [os_orderIdx2NodeIdx os_postOrderIdx os_stack os_stackNodes os_stackCurrentEdge os_nodeIdx2OrderIdx os_visited];
      rewrite ?Hix, ?fmap_app; try done.
    + rewrite length_app. simpl. lia.
    + cbn [fmap list_fmap fst]. rewrite Hst1. apply starts_with_push; [done|rewrite length_fmap; lia|lia].
    + intros i v x Hi. rewrite Hst1, length_fmap, u32_set_nat by (unfold is_u32; lia).
      apply lookup_app_Some in Hi as [Hi|[Hge Hi]].
      * pose proof (lookup_lt_Some _ _ _ Hi). rewrite list_lookup_insert_ne by lia. by apply (Hcur i v x).
      * assert (i = length S) as -> by (apply lookup_lt_Some in Hi; simpl in Hi; lia).
        rewrite Nat.sub_diag in Hi. injection Hi as <- <-. split; [|lia]. apply list_lookup_insert_eq. lia.
    + rewrite !length_u32_set. done.
    + rewrite app_assoc. apply NoDup_app. split_and!; [done|set_solver|apply NoDup_singleton].
    + intros v Hin. rewrite app_assoc in Hin. apply elem_of_app in Hin as [Hin|Hin]; [auto|set_solver].
    + intros v Hvn. rewrite truthy_insert, Hvis by (done || lia). rewrite app_assoc. set_solver.
  - unfold work. rewrite sum_list_with_app. simpl.
    assert (Hun : unvisited_nodes st ≡ₚ c :: unvisited_nodes (push_child nd st)).
    { apply NoDup_Permutation.
      - apply NoDup_filter, NoDup_seq.
      - constructor; [|apply NoDup_filter, NoDup_seq]. unfold unvisited_nodes, push_child. simpl.
        rewrite list_elem_of_filter, Hix. intros [Hf _]. apply eq_true_false_abs in Hf; [done|].
        apply truthy_insert; [lia|by right].
      - intros v. rewrite elem_of_cons. unfold unvisited_nodes, push_child. simpl.
        rewrite !list_elem_of_filter, Hix, <- !not_true_iff_false, truthy_insert by lia. rewrite elem_of_seq.
        destruct (decide (v = c)) as [->|]; [rewrite not_true_iff_false|]; intuition lia. }
    rewrite (sum_list_with_perm node_work _ _ Hun). simpl.
    assert (node_work c = 1 + Z.to_nat (hn_edgeCount nd))%nat as -> by (unfold node_work; by rewrite Hc).
    unfold entry_work, edge_end. rewrite Hc.
    replace (hn_firstEdgeIndex nd + hn_edgeCount nd - hn_firstEdgeIndex nd) with (hn_edgeCount nd) by lia. lia.
Qed.

(** Numbering the node on top of the stack. *)
Lemma number_top_inv st L S v c nd :
  order_inv st L (S ++ [(v, c)]) -> nodes !! v = Some nd ->
  order_inv (with_stack (os_stack st - 1) (number_node (hn_nodeIndex nd) st)) (L ++ [v]) S /\
  (work (with_stack (os_stack st - 1) (number_node (hn_nodeIndex nd) st)) S < work st (S ++ [(v, c)]))%nat.
Proof.
  intros H Hv. pose proof (order_capacity _ _ _ H) as Hcap. pose proof nodes_small as Hsm.
  pose proof (lookup_lt_Some _ _ _ Hv) as Hvn. fold n in Hvn.
  rewrite (wf_index _ _ _ WF _ _ Hv). destruct H as [Hd Hp Hs Hn Hcur Hl HN Hr Hinv Hvis].
  destruct Hl as (Hl1 & Hl2 & Hl3 & Hl4 & Hl5). rewrite length_app in Hcap, Hs. simpl in Hcap, Hs.
  assert (Hperm : (L ++ [v]) ++ (fst <$> S) ≡ₚ L ++ (fst <$> S ++ [(v, c)])).
  { rewrite fmap_app, <- app_assoc. apply Permutation_app_head. simpl. apply Permutation_cons_append. }
  split.
  - split; unfold with_stack, number_node;
      cbn [os_orderIdx2NodeIdx os_postOrderIdx os_stack os_stackNodes os_stackCurrentEdge os_nodeIdx2OrderIdx os_visited].
    + rewrite Hp. apply starts_with_push; [done|lia|lia].
    + rewrite length_app. simpl. lia.
    + lia.
    + rewrite fmap_app in Hn. by apply starts_with_app in Hn.
    + intros i w x Hi. apply (Hcur i w x). rewrite lookup_app_l by (by eapply lookup_lt_Some). done.
    + rewrite !length_u32_set. done.
    + by rewrite Hperm.
    + intros w Hw. rewrite Hperm in Hw. auto.
    + intros i w Hi. rewrite Hp, u32_set_nat by (unfold is_u32; lia).
      apply lookup_app_Some in Hi as [Hi|[Hge Hi]].
      * rewrite list_lookup_insert_ne; [by apply Hinv|]. intros ->.
        apply NoDup_app in HN as (_ & Hdis & _). apply (Hdis w); [by eapply list_elem_of_lookup_2|].
        rewrite fmap_app. set_solver.
      * assert (i = length L) as -> by (apply lookup_lt_Some in Hi; simpl in Hi; lia).
        rewrite Nat.sub_diag in Hi. injection Hi as <-. apply list_lookup_insert_eq. lia.
    + intros w Hw. rewrite Hvis by done. by rewrite Hperm.
  - unfold work, unvisited_nodes, with_stack, number_node. cbn [os_visited]. rewrite sum_list_with_app. simpl.
    unfold entry_work. lia.
Qed.

(** Stepping over an edge of the top entry. *)
Lemma advance_inv st L S v c :
  order_inv st L (S ++ [(v, c)]) -> c < edge_end v ->
  let st' := with_currentEdge (u32_set (os_stackCurrentEdge st) (os_stack st) (c + 1)) st in
  order_inv st' L (S ++ [(v, c + 1)]) /\ (work st' (S ++ [(v, c + 1)%Z]) < work st (S ++ [(v, c)]))%nat.
Proof.
  intros H Hc st'. pose proof (order_capacity _ _ _ H) as Hcap. rewrite length_app in Hcap. simpl in Hcap.
  destruct H as [Hd Hp Hs Hn Hcur Hl HN Hr Hinv Hvis]. destruct Hl as (Hl1 & Hl2 & Hl3 & Hl4 & Hl5).
  rewrite length_app in Hs. simpl in Hs. assert (Hs' : os_stack st = Z.of_nat (length S)) by lia.
  assert (Htop : (S ++ [(v, c)]) !! length S = Some (v, c)) by (by rewrite lookup_app_r, Nat.sub_diag).
  pose proof (proj2 (Hcur _ _ _ Htop)) as Hc0.
  assert (Hend : edge_end v < 2 ^ 32).
  { unfold edge_end. destruct (nodes !! v) as [nd|] eqn:E; [|lia]. destruct (SP _ _ E) as (_ & _ & ? & _).
    pose proof (wf_edges_small _ _ _ WF). lia. }
  assert (Hf : (fst <$> S ++ [(v, c + 1)]) = (fst <$> S ++ [(v, c)])) by (by rewrite !fmap_app).
  split.
  - split; unfold st', with_currentEdge;
      cbn [os_orderIdx2NodeIdx os_postOrderIdx os_stack os_stackNodes os_stackCurrentEdge os_nodeIdx2OrderIdx os_visited];
      rewrite ?Hf; try done.
    + rewrite length_app. simpl. lia.
    + intros i w x Hi. rewrite Hs', u32_set_nat by (unfold is_u32; lia).
      apply lookup_app_Some in Hi as [Hi|[Hge Hi]].
      * pose proof (lookup_lt_Some _ _ _ Hi). rewrite list_lookup_insert_ne by lia. apply (Hcur i w x).
        by rewrite lookup_app_l.
      * assert (i = length S) as -> by (apply lookup_lt_Some in Hi; simpl in Hi; lia).
        rewrite Nat.sub_diag in Hi. injection Hi as <- <-. split; [|lia]. apply list_lookup_insert_eq. lia.
    + rewrite length_u32_set. done.
  - unfold work, unvisited_nodes, st', with_currentEdge. cbn [os_visited]. rewrite !sum_list_with_app. simpl.
    unfold entry_work. lia.
Qed.

Lemma order_round_inv st L S v c :
  order_inv st L (S ++ [(v, c)]) ->
  exists st', order_round edges nodeMap nodes rootNode st = Ok st' /\
    ((exists S', order_inv st' L ((S ++ [(v, c + 1)%Z]) ++ S') /\ (work st' ((S ++ [(v, c + 1)%Z]) ++ S') < work st (S ++ [(v, c)]))%nat) \/
     (order_inv st' (L ++ [v]) S /\ (work st' S < work st (S ++ [(v, c)]))%nat)).
Proof.
  intros H. unfold order_round.
  assert (Hs : os_stack st = Z.of_nat (length S)) by (rewrite (oi_stack _ _ _ H), length_app; simpl; lia).
  assert (Htop : (S ++ [(v, c)]) !! length S = Some (v, c)) by (by rewrite lookup_app_r, Nat.sub_diag).
  assert (Hvn : (v < n)%nat) by (apply (oi_range _ _ _ H); rewrite fmap_app; set_solver).
  destruct (lookup_lt_is_Some_2 nodes v Hvn) as [nd Hv].
  rewrite Hs. rewrite (u32_at_Some (os_stackNodes st) (length S) (Z.of_nat v)).
  2: { eapply starts_with_lookup; [apply (oi_nodes _ _ _ H)|]. by rewrite list_lookup_fmap, Htop. }
  assert (zlookup (Z.of_nat v) nodes = Some nd) as ->.
  { unfold zlookup. destruct (Z.ltb_spec (Z.of_nat v) 0); [lia|]. by rewrite Nat2Z.id. }
  rewrite (u32_at_Some _ _ _ (proj1 (oi_cur _ _ _ H _ _ _ Htop))).
  assert (Hend : hn_firstEdgeIndex nd + hn_edgeCount nd = edge_end v) by (unfold edge_end; by rewrite Hv).
  rewrite Hend. destruct (Z.ltb_spec c (edge_end v)) as [Hlt|Hge].
  - pose proof (advance_inv st L S v c H Hlt) as [Ha Hw]. rewrite Hs in Ha, Hw.
    set (st1 := with_currentEdge _ st) in *.
    destruct (SP _ _ Hv) as (_ & _ & Hfit & _). rewrite Hend in Hfit.
    pose proof (proj2 (oi_cur _ _ _ H _ _ _ Htop)) as Hc0.
    destruct (zlookup_is_Some c edges) as [edge ->]; [lia|].
    assert (Hsame : exists st', Ok st1 = Ok st' /\
      ((exists S', order_inv st' L ((S ++ [(v, c + 1)%Z]) ++ S') /\ (work st' ((S ++ [(v, c + 1)%Z]) ++ S') < work st (S ++ [(v, c)]))%nat) \/
       (order_inv st' (L ++ [v]) S /\ (work st' S < work st (S ++ [(v, c)]))%nat))).
    { exists st1. split; [done|]. left. exists []. by rewrite app_nil_r. }
    destruct (negb (isEssentialEdge rootNode edge (hn_id nd))); [done|].
    destruct (get_node nodeMap nodes (he_toNodeId edge)) as [[ch ndc]|] eqn:G; [|done].
    apply get_node_spec in G as [_ Hch]. rewrite (wf_index _ _ _ WF _ _ Hch).
    destruct (truthy (u32_at (os_visited st1) (Z.of_nat ch))) eqn:Hvis; [done|].
    destruct (negb (hn_id nd =? hn_id rootNode) && _ && _); [done|].
    destruct (push_child_inv st1 L _ ch ndc Ha Hch Hvis) as [Hp Hwp].
    eexists. split; [done|]. left. eexists. split; [exact Hp|]. lia.
  - destruct (number_top_inv st L S v c nd H Hv) as [Hn Hw]. rewrite Hs in Hn, Hw. eexists. split; [done|]. by right.
Qed.

(** The loop empties the stack; the entry at its bottom is numbered last. *)
Lemma order_loop_total : forall fuel st L r c S,
  order_inv st L ((r, c) :: S) -> (work st ((r, c) :: S) <= fuel)%nat ->
  exists st' L', order_loop edges nodeMap nodes (Z.of_nat n) rootNode fuel st = Some (Ok st') /\
    order_inv st' (L' ++ [r]) [] /\ exists k, L' = L ++ k.
Proof.
  induction fuel as [|fuel IH]; intros st L r c S H Hw; cbn [order_loop];
    pose proof (order_capacity _ _ _ H) as Hcap; pose proof (oi_stack _ _ _ H) as Hs; simpl in Hcap, Hs;
    (destruct (Z.leb_spec 0 (os_stack st)); [|lia]); (destruct (Z.ltb_spec (os_stack st) (Z.of_nat n)); [|lia]); cbn [andb].
  - unfold work in Hw. simpl in Hw. unfold entry_work in Hw. lia.
  - destruct S as [|[v cv] S' _] using rev_ind.
    + destruct (order_round_inv st L [] r c H) as (st' & -> & [(S' & H' & Hw')|[H' Hw']]).
      * simpl in H', Hw'. apply (IH st' L r (c + 1) S' H'). lia.
      * exists st', L. split; [|split; [done|by exists []; rewrite app_nil_r]].
        pose proof (oi_stack _ _ _ H') as Hs'. simpl in Hs'.
        destruct fuel; cbn [order_loop]; (destruct (Z.leb_spec 0 (os_stack st')); [lia|done]).
    + change ((r, c) :: S' ++ [(v, cv)]) with (((r, c) :: S') ++ [(v, cv)]) in H, Hw.
      destruct (order_round_inv st L ((r, c) :: S') v cv H) as (st' & -> & [(T & H' & Hw')|[H' Hw']]).
      * apply (IH st' L r c (S' ++ [(v, cv + 1)] ++ T)); [|simpl in *; rewrite <- app_assoc in Hw'; simpl in Hw'; lia].
        simpl in H'. by rewrite <- app_assoc in H'.
      * destruct (IH st' (L ++ [v]) r c S' H') as (st2 & L2 & Hl & H2 & k & ->); [lia|].
        exists st2, ((L ++ [v]) ++ k). split_and!; [done|done|]. exists ([v] ++ k). by rewrite app_assoc.
Qed.

(** The rounds the fuel must allow for. *)
Lemma node_work_total : sum_list_with node_work (seq 0 n) = (length edges + n)%nat.
Proof.
  assert (Hl : length (concat (hn_edges <$> nodes)) = length edges) by (by rewrite (wf_edges _ _ _ WF), length_seq).
  rewrite <- Hl. unfold n, node_work. clear Hl n. revert SP. clear -nodes. intros SP.
  assert (Hg : forall (l : list HeapNode) k, (forall i, l !! i = nodes !! (k + i)%nat) ->
    sum_list_with (fun v => match nodes !! v with Some nd => S (Z.to_nat (hn_edgeCount nd)) | None => O end) (seq k (length l))
    = (length (concat (hn_edges <$> l)) + length l)%nat).
  { induction l as [|nd l IH]; intros k Hk; [done|]. cbn [length seq sum_list_with fmap list_fmap concat].
    rewrite length_app, (IH (S k)).
    - pose proof (Hk O) as H0. rewrite Nat.add_0_r in H0. change (Some nd = nodes !! k) in H0. rewrite <- H0.
      destruct (SP k nd (eq_sym H0)) as (_ & _ & _ & ->). rewrite length_seq. lia.
    - intros i. transitivity ((nd :: l) !! S i); [done|]. rewrite Hk. f_equal. lia. }
  apply (Hg nodes O). done.
Qed.

Lemma sum_list_with_filter {A} (f : A -> nat) (P : A -> Prop) `{!forall x, Decision (P x)} (l : list A) :
  (sum_list_with f (filter P l) <= sum_list_with f l)%nat.
Proof. induction l as [|x l IH]; [done|]. rewrite filter_cons. simpl. case_decide; simpl; lia. Qed.

Lemma work_bound st v c : 0 <= c -> (work st [(v, c)] <= 2 * length edges + n + 1)%nat.
Proof.
  intros Hc. unfold work, unvisited_nodes. pose proof node_work_total as Ht.
  pose proof (sum_list_with_filter node_work (fun v => truthy (u32_at (os_visited st) (Z.of_nat v)) = false) (seq 0 n)).
  assert (Hw : (entry_work v c <= length edges + 1)%nat).
  { unfold entry_work, edge_end. destruct (nodes !! v) as [nd|] eqn:E; [|lia].
    destruct (SP _ _ E) as (_ & _ & ? & _). unfold zlen in *. lia. }
  cbn [sum_list_with fst snd]. lia.
Qed.

Lemma root_index : hn_nodeIndex rootNode = 0.
Proof. apply (wf_index _ _ _ WF _ _ Hroot). Qed.

Lemma n_pos : (0 < n)%nat.
Proof. by apply lookup_lt_Some in Hroot. Qed.

Lemma zeros_at k i : u32_at (zeros k) i = 0.
Proof.
  unfold u32_at, zlookup. case_match; [done|]. unfold zeros.
  destruct (replicate (Z.to_nat k) 0 !! Z.to_nat i) eqn:E; [|done]. by apply lookup_replicate in E as [-> _].
Qed.

Lemma order_init_inv : order_inv (buildOrderIdxInit (Z.of_nat n) rootNode) [] [(0%nat, 0)].
Proof.
  pose proof n_pos as Hn. pose proof nodes_small as Hsm.
  assert (Hz : length (zeros (Z.of_nat n)) = n) by (unfold zeros; rewrite length_replicate; lia).
  split; unfold buildOrderIdxInit;
    cbn [os_orderIdx2NodeIdx os_postOrderIdx os_stack os_stackNodes os_stackCurrentEdge os_nodeIdx2OrderIdx os_visited];
    rewrite ?root_index; try done.
  - split; [cbn [length]; lia|done].
  - apply (starts_with_push _ [] 0%nat); [split; [cbn [length]; lia|done]|cbn [length]; lia|lia].
  - intros [|i] v c Hi; [|done]. injection Hi as <- <-. split; [|lia]. apply zeros_lookup. lia.
  - rewrite !length_u32_set. done.
  - apply NoDup_singleton.
  - intros v. simpl. set_solver by lia.
  - intros v Hv. change 0 with (Z.of_nat 0). rewrite truthy_insert by lia. rewrite zeros_at. simpl. set_solver.
Qed.

Lemma push_orphans_inv (l : list HeapNode) : forall st L r c S,
  (forall nd, nd ∈ l -> nd ∈ nodes) -> order_inv st L ((r, c) :: S) ->
  exists S', order_inv (fold_left (push_orphan edges firstRetainerIndex retainingEdges) l st) L ((r, c) :: S') /\
    (work (fold_left (push_orphan edges firstRetainerIndex retainingEdges) l st) ((r, c) :: S') <= work st ((r, c) :: S))%nat.
Proof.
  induction l as [|nd l IH]; intros st L r c S Hl H; cbn [fold_left]; [eauto|].
  unfold push_orphan at 2 4. assert (Hnd : nd ∈ nodes) by set_solver.
  apply list_elem_of_lookup in Hnd as [i Hi]. rewrite (wf_index _ _ _ WF _ _ Hi).
  destruct (truthy (u32_at (os_visited st) (Z.of_nat i))) eqn:Hv; [apply IH; set_solver|].
  destruct (hasOnlyWeakRetainers _ _ _ nd); cbn [orb negb]; [|apply IH; set_solver].
  destruct (push_child_inv st L _ i nd H Hi Hv) as [H' Hw].
  destruct (IH (push_child nd st) L r c (S ++ [(i, hn_firstEdgeIndex nd)])) as (S' & H2 & Hw2); [set_solver|done|].
  exists S'. split; [done|]. simpl in *. lia.
Qed.

(** The second start. *)
Lemma restart_inv st L :
  order_inv st (L ++ [0%nat]) [] -> os_postOrderIdx st <> Z.of_nat n ->
  exists st' c S', buildOrderIdxRootNode edges nodes rootNode firstRetainerIndex retainingEdges
      (with_postOrderIdx (os_postOrderIdx st - 1) st) = Ok st' /\
    order_inv st' L ((0%nat, c) :: S') /\ (work st' ((0%nat, c) :: S') <= order_fuel edges nodes)%nat.
Proof.
  intros H Hp. pose proof (order_capacity _ _ _ H) as Hcap. pose proof nodes_small as Hsm.
  rewrite (oi_post _ _ _ H) in Hp. rewrite length_app in Hcap, Hp. simpl in Hcap, Hp.
  unfold buildOrderIdxRootNode. rewrite root_index.
  destruct (lookup_lt_is_Some_2 nodes 1%nat) as [next Hnext]; [fold n; lia|].
  change (zlookup (0 + 1) nodes) with (nodes !! 1%nat). rewrite Hnext.
  destruct (SP _ _ Hnext) as (Hf & Hc & Hfe & _). pose proof (wf_edges_small _ _ _ WF) as Hes.
  set (st1 := {| os_stackNodes := _ |}).
  assert (H1 : order_inv st1 L [(0%nat, hn_firstEdgeIndex next)]).
  { destruct H as [Hd Hpo Hs Hn Hcur Hl HN Hr Hinv Hvis]. destruct Hl as (Hl1 & Hl2 & Hl3 & Hl4 & Hl5).
    rewrite app_nil_r in *. split; unfold st1, with_postOrderIdx;
      cbn [os_orderIdx2NodeIdx os_postOrderIdx os_stack os_stackNodes os_stackCurrentEdge os_nodeIdx2OrderIdx os_visited]; try done.
    - by apply starts_with_app in Hd.
    - rewrite Hpo, length_app. simpl. lia.
    - apply (starts_with_push _ [] 0%nat); [split; [simpl; lia|done]|simpl; lia|lia].
    - intros [|i] v x Hi; [|done]. injection Hi as <- <-. change 0 with (Z.of_nat 0).
      rewrite u32_set_nat by (unfold is_u32; lia). split; [|lia]. apply list_lookup_insert_eq. lia.
    - rewrite !length_u32_set. done.
    - intros i v Hi. apply Hinv. rewrite lookup_app_l by (by eapply lookup_lt_Some). done. }
  destruct (push_orphans_inv nodes st1 L _ _ [] ltac:(done) H1) as (S' & H2 & Hw).
  eexists _, _, S'. split; [done|]. split; [exact H2|]. etrans; [exact Hw|].
  pose proof (work_bound st1 0%nat (hn_firstEdgeIndex next) Hf). unfold order_fuel. fold n. lia.
Qed.

(** ** The last orphans *)

Record numbering (st : order_state) (L : list nat) : Prop := {
  nu_done : starts_with (os_orderIdx2NodeIdx st) L;
  nu_post : os_postOrderIdx st = Z.of_nat (length L);
  nu_lens : length (os_orderIdx2NodeIdx st) = n /\ length (os_nodeIdx2OrderIdx st) = n;
  nu_nodup : NoDup L;
  nu_range : forall v, v ∈ L -> (v < n)%nat;
  nu_inverse : forall i v, L !! i = Some v -> os_nodeIdx2OrderIdx st !! v = Some (Z.of_nat i);
}.

Lemma numbering_length st L : numbering st L -> (length L <= n)%nat.
Proof.
  intros H. rewrite <- (length_seq n 0). apply submseteq_length, NoDup_submseteq; [apply H|].
  intros v Hv. apply elem_of_seq. apply (nu_range _ _ H) in Hv. lia.
Qed.

Lemma number_inv st L v :
  numbering st L -> v ∉ L -> (v < n)%nat -> numbering (number_node (Z.of_nat v) st) (L ++ [v]).
Proof.
  intros H Hv Hvn. pose proof nodes_small as Hsm.
  assert (Hlt : (length L < n)%nat).
  { rewrite <- (length_seq n 0). apply Nat.lt_le_trans with (length (L ++ [v])); [rewrite length_app; simpl; lia|].
    apply submseteq_length, NoDup_submseteq.
    - apply NoDup_app. split_and!; [apply H|set_solver|apply NoDup_singleton].
    - intros w [Hw|Hw]%elem_of_app; apply elem_of_seq; [apply (nu_range _ _ H) in Hw; lia|set_solver by lia]. }
  destruct H as [Hd Hp [Hl1 Hl2] HN Hr Hinv].
  split; unfold number_node; cbn [os_orderIdx2NodeIdx os_postOrderIdx os_nodeIdx2OrderIdx]; rewrite ?Hp.
  - apply starts_with_push; [done|lia|lia].
  - rewrite length_app. simpl. lia.
  - rewrite !length_u32_set. done.
  - apply NoDup_app. split_and!; [done|set_solver|apply NoDup_singleton].
  - set_solver.
  - intros i w Hi. rewrite u32_set_nat by (unfold is_u32; lia). apply lookup_app_Some in Hi as [Hi|[Hge Hi]].
    + rewrite list_lookup_insert_ne; [by apply Hinv|]. intros ->. apply Hv. by eapply list_elem_of_lookup_2.
    + assert (i = length L) as -> by (apply lookup_lt_Some in Hi; simpl in Hi; lia).
      rewrite Nat.sub_diag in Hi. injection Hi as <-. apply list_lookup_insert_eq. lia.
Qed.

Lemma number_unvisited (vs : list nat) : forall st L,
  numbering st L -> NoDup vs -> (forall v, v ∈ vs -> (v < n)%nat) ->
  (forall v, v ∈ vs -> truthy (u32_at (os_visited st) (Z.of_nat v)) = false -> v ∉ L) ->
  let st' := fold_left (fun st i => if truthy (u32_at (os_visited st) i) then st else number_node i st)
               (Z.of_nat <$> vs) st in
  numbering st' (L ++ filter (fun v => truthy (u32_at (os_visited st) (Z.of_nat v)) = false) vs).
Proof.
  induction vs as [|v vs IH]; intros st L H HN Hlt Hnew; cbn [fold_left fmap list_fmap]; [by rewrite app_nil_r|].
  apply NoDup_cons in HN as [Hvs HN]. rewrite filter_cons.
  destruct (truthy (u32_at (os_visited st) (Z.of_nat v))) eqn:Hv.
  - rewrite decide_False by done. apply IH; [done|done|set_solver|set_solver].
  - rewrite decide_True by done. rewrite cons_middle, app_assoc.
    apply (IH (number_node (Z.of_nat v) st) (L ++ [v])); cbn [number_node os_visited].
    + apply number_inv; [done| |apply Hlt; set_solver]. apply Hnew; [set_solver|done].
    + done.
    + set_solver.
    + intros w Hw Hf. rewrite not_elem_of_app. split; [apply Hnew; set_solver|]. set_solver.
Qed.

Lemma numbering_of_inv st L : order_inv st L [] -> numbering st L.
Proof.
  intros [Hd Hp Hs Hn Hcur Hl HN Hr Hinv Hvis]. rewrite app_nil_r in *. destruct Hl as (? & ? & _). by split.
Qed.

Lemma numbering_drop st L v : numbering st (L ++ [v]) -> numbering (with_postOrderIdx (os_postOrderIdx st - 1) st) L.
Proof.
  intros [Hd Hp Hl HN Hr Hinv]. split; unfold with_postOrderIdx; cbn [os_orderIdx2NodeIdx os_postOrderIdx os_nodeIdx2OrderIdx].
  - by apply starts_with_app in Hd.
  - rewrite Hp, length_app. simpl. lia.
  - done.
  - by apply NoDup_app in HN as (? & _).
  - set_solver.
  - intros i w Hi. apply Hinv. rewrite lookup_app_l by (by eapply lookup_lt_Some). done.
Qed.

(** The numbering that [buildOrderIdx] returns. *)
Definition is_order (o2n n2o : list Z) (ord : list nat) : Prop :=
  o2n = Z.of_nat <$> ord /\ ord ≡ₚ seq 0 n /\ last ord = Some 0%nat /\
  (forall i v, ord !! i = Some v -> n2o !! v = Some (Z.of_nat i)).

Lemma numbering_full st L :
  numbering st (L ++ [0%nat]) -> (forall v, (v < n)%nat -> v ∈ L ++ [0%nat]) ->
  is_order (os_orderIdx2NodeIdx st) (os_nodeIdx2OrderIdx st) (L ++ [0%nat]).
Proof.
  intros H Hall. assert (Hperm : L ++ [0%nat] ≡ₚ seq 0 n).
  { apply NoDup_Permutation; [apply H|apply NoDup_seq|]. intros v. rewrite elem_of_seq. split.
    - intros Hv%(nu_range _ _ H). lia.
    - intros [_ Hv]. apply Hall. lia. }
  split_and!; [|done|apply last_snoc|apply H].
  destruct (nu_done _ _ H) as [_ E]. rewrite <- E, Hperm, length_seq, take_ge; [done|].
  by rewrite (proj1 (nu_lens _ _ H)).
Qed.

Lemma numbering_complete st L :
  numbering st L -> length L = n -> forall v, (v < n)%nat -> v ∈ L.
Proof.
  intros H Hlen v Hv. assert (Hp : L ≡ₚ seq 0 n).
  { apply submseteq_length_Permutation.
    - apply NoDup_submseteq; [apply H|]. intros w Hw%(nu_range _ _ H). apply elem_of_seq. lia.
    - rewrite length_seq. lia. }
  rewrite Hp. apply elem_of_seq. lia.
Qed.

Lemma buildOrderIdxOrphans_full st L :
  order_inv st (L ++ [0%nat]) [] ->
  exists L', is_order (os_orderIdx2NodeIdx (buildOrderIdxOrphans (Z.of_nat n) rootNode st))
               (os_nodeIdx2OrderIdx (buildOrderIdxOrphans (Z.of_nat n) rootNode st)) (L' ++ [0%nat]).
Proof.
  intros H. pose proof (numbering_of_inv _ _ H) as Hnu. unfold buildOrderIdxOrphans.
  destruct (Z.eqb_spec (os_postOrderIdx st) (Z.of_nat n)) as [E|E].
  - exists L. apply numbering_full; [done|]. eapply numbering_complete; [done|].
    rewrite (nu_post _ _ Hnu) in E. lia.
  - rewrite root_index. rewrite seqZ_of_nat, Nat2Z.id by lia.
    assert (Hvis : forall v, (v < n)%nat -> truthy (u32_at (os_visited st) (Z.of_nat v)) = true <-> v ∈ L ++ [0%nat]).
    { intros v Hv. rewrite (oi_visited _ _ _ H v Hv). by rewrite app_nil_r. }
    pose proof (nu_nodup _ _ Hnu) as (_ & HL0 & _)%NoDup_app.
    pose proof (number_unvisited (seq 0 n) _ L (numbering_drop _ _ _ Hnu)) as H1. cbn [with_postOrderIdx os_visited] in H1.
    specialize (H1 (NoDup_seq _ _)). set (L1 := filter _ (seq 0 n)) in H1.
    eexists (L ++ L1). apply numbering_full.
    + change 0 with (Z.of_nat 0). apply number_inv; [|..|apply n_pos].
      * apply H1; [intros v Hv%elem_of_seq; lia|]. intros v Hv%elem_of_seq Hf HvL.
        assert (truthy (u32_at (os_visited st) (Z.of_nat v)) = true) by (apply Hvis; [lia|set_solver]). congruence.
      * rewrite not_elem_of_app. split; [intros H0; apply (HL0 0%nat); set_solver|].
        unfold L1. rewrite list_elem_of_filter. intros [Hf _].
        assert (truthy (u32_at (os_visited st) (Z.of_nat 0)) = true) by (apply Hvis; [apply n_pos|set_solver]). congruence.
    + intros v Hv. destruct (truthy (u32_at (os_visited st) (Z.of_nat v))) eqn:Hf.
      * apply Hvis in Hf; [|done]. set_solver.
      * apply elem_of_app. left. apply elem_of_app. right. apply list_elem_of_filter. split; [done|].
        apply elem_of_seq. lia.
Qed.

Lemma buildOrderIdx_order :
  exists st ord, buildOrderIdx edges nodeMap nodes (Z.of_nat n) rootNode firstRetainerIndex retainingEdges = Some (Ok st) /\
    is_order (os_orderIdx2NodeIdx st) (os_nodeIdx2OrderIdx st) ord.
Proof.
  unfold buildOrderIdx.
  destruct (order_loop_total (order_fuel edges nodes) _ [] 0%nat 0 [] order_init_inv) as (st1 & L1 & -> & H1 & _).
  { pose proof (work_bound (buildOrderIdxInit (Z.of_nat n) rootNode) 0%nat 0 ltac:(lia)). unfold order_fuel. fold n. lia. }
  cbn [mbind option_bind]. destruct (Z.eqb_spec (os_postOrderIdx st1) (Z.of_nat n)) as [E|E].
  - exists st1, (L1 ++ [0%nat]). split; [done|]. pose proof (numbering_of_inv _ _ H1) as Hnu.
    apply numbering_full; [done|]. eapply numbering_complete; [done|]. rewrite (nu_post _ _ Hnu) in E. lia.
  - destruct (restart_inv st1 L1 H1 E) as (st2 & c & S & -> & H2 & Hw).
    destruct (order_loop_total _ st2 L1 0%nat c S H2 Hw) as (st3 & L3 & -> & H3 & _).
    cbn [mbind option_bind]. destruct (buildOrderIdxOrphans_full st3 L3 H3) as (L' & Hord). eauto.
Qed.
End Order.

(** ** The passes before the order *)

(** What the passes leave of a node. *)
Definition prepared (n n' : HeapNode) : Prop :=
  same_keys n n' /\ hn_firstEdgeIndex n' = hn_firstEdgeIndex n /\ hn_edgeCount n' = hn_edgeCount n.

#[export] Instance prepared_preorder : PreOrder prepared.
Proof.
  split; [by split|]. intros a b c (H1 & H2 & H3) (H4 & H5 & H6).
  split; [by etrans|]. split; congruence.
Qed.

Lemma prepared_keys nodes nodes' : Forall2 prepared nodes nodes' -> Forall2 same_keys nodes nodes'.
Proof. intros H. eapply Forall2_impl; [exact H|]. by intros ? ? []. Qed.

Lemma prepared_spans edges nodes nodes' :
  Forall2 prepared nodes nodes' -> spans_ok edges nodes -> spans_ok edges nodes'.
Proof.
  intros HF SP i n' Hi. destruct (Forall2_lookup_r _ _ _ _ _ HF Hi) as (n & Hn & ((_ & _ & -> & _) & -> & ->)).
  by apply (SP i).
Qed.

(** Nodes without marks and distances, as they are loaded. *)
Definition blank (n : HeapNode) : Prop :=
  has_flag CAN_BE_QUERIED n = false /\ has_flag PAGE_PROJECT n = false /\ hn_distance n = -5.

Lemma buildNodeEdge_blank edges n :
  hn_flag n = 0 -> hn_distance n = -5 -> blank (buildNodeEdge_node edges n) /\ hn_id (buildNodeEdge_node edges n) = hn_id n.
Proof.
  intros Hf Hd. unfold buildNodeEdge_node, blank, has_flag. generalize (seqZ 0 (hn_edgeCount n)). intros l.
  assert (H : forall m, hn_flag m = 0 -> hn_distance m = -5 -> hn_id m = hn_id n ->
    let r := fold_left (fun node i => let edgeIndex := hn_firstEdgeIndex node + i in
      if zlen edges >? edgeIndex then addEdge (Z.to_nat edgeIndex) node else node) l m in
    hn_flag r = 0 /\ hn_distance r = -5 /\ hn_id r = hn_id n).
  { induction l as [|x l IH]; intros m H1 H2 H3; [done|]. cbn [fold_left]. cbv zeta. destruct (_ >? _); [|by apply IH]. apply IH; unfold addEdge; case_bool_decide; destruct m; done. }
  destruct (H n Hf Hd eq_refl) as (E1 & E2 & E3). cbv zeta in E1, E2, E3 |- *. by rewrite E1, E2, E3.
Qed.

Lemma row_nodes_blank fileId strings rows : forall first i n,
  row_nodes fileId strings first rows !! i = Some n ->
  hn_flag n = 0 /\ hn_distance n = -5 /\ exists r, rows !! i = Some r /\ hn_id n = nr_id r.
Proof.
  induction rows as [|r rows IH]; intros first [|i] n; try done; cbn [row_nodes].
  - intros [= <-]. split; [done|]. split; [done|]. by exists r.
  - apply IH.
Qed.

Lemma entered_prepared n n' : entered n n' -> prepared n n' /\ (blank n -> blank n').
Proof.
  induction 1 as [n|a b c [z ->] _ [IH1 IH2]]; [by split|]. split.
  - etrans; [|exact IH1]. split; [apply enter_state_keys|]. unfold enter_state, set_flag. destruct a. by repeat case_match.
  - intros Hb. apply IH2. unfold enter_state. repeat case_match; destruct a; try exact Hb.
    destruct Hb as (B1 & B2 & B3). unfold blank. rewrite !has_set_flag by (apply query_flag || apply page_flag || (right; by left)).
    split_and!; [by rewrite orb_false_r|by rewrite orb_false_r|exact B3].
Qed.

Lemma flags_prepared nodes nodes' : flags_only nodes nodes' -> Forall2 prepared nodes nodes' /\ forall v, dist nodes' v = dist nodes v.
Proof.
  intros H. split.
  - eapply Forall2_impl; [exact H|]. intros n n' E. rewrite E. by destruct n.
  - intros v. unfold dist. destruct (nodes !! v) as [n|] eqn:E.
    + destruct (Forall2_lookup_l _ _ _ _ _ H E) as (n' & -> & E'). rewrite E'. by destruct n.
    + apply lookup_ge_None in E. rewrite (Forall2_length _ _ _ H) in E. by rewrite (lookup_ge_None_2 _ _ E).
Qed.

Lemma calFlags_total edges nodeMap nodes :
  (forall i n, nodes !! i = Some n -> blank n) ->
  exists nodes', calFlags edges nodeMap nodes = Some nodes' /\ flags_only nodes nodes'.
Proof.
  intros Hb. destruct (calFlags_spec edges nodeMap nodes) as (nodes' & H1 & H2 & _); [|by exists nodes'].
  intros v. split; intros (n & Hn & H); destruct (Hb v n Hn) as (? & ? & _); congruence.
Qed.
Lemma row_nodes_map fileId strings rows edges :
  let loaded := row_nodes fileId strings 0 rows in
  node_index_map (buildNodeEdge edges loaded) = node_index_map loaded /\
  forall i n, buildNodeEdge edges loaded !! i = Some n ->
    blank n /\ exists r, rows !! i = Some r /\ hn_id n = nr_id r.
Proof.
  intros loaded.
  assert (H : forall i n0, loaded !! i = Some n0 -> blank (buildNodeEdge_node edges n0) /\
    hn_id (buildNodeEdge_node edges n0) = hn_id n0 /\ exists r, rows !! i = Some r /\ hn_id n0 = nr_id r).
  { intros i n0 Hi. destruct (row_nodes_blank _ _ _ _ _ _ Hi) as (Hf & Hd & Hr).
    destruct (buildNodeEdge_blank edges n0 Hf Hd). done. }
  split.
  - unfold node_index_map. f_equal. apply list_eq. intros i. unfold buildNodeEdge.
    rewrite !list_lookup_imap, list_lookup_fmap. destruct (loaded !! i) as [n0|] eqn:E; [|done]. cbn.
    by destruct (H i n0 E) as (_ & -> & _).
  - intros i n. unfold buildNodeEdge. rewrite list_lookup_fmap. destruct (loaded !! i) as [n0|] eqn:E; [|done].
    intros [= <-]. destruct (H i n0 E) as (? & -> & ?). done.
Qed.

(** The retainers that are added leave the rest of a node alone. *)
Lemma retained_prepared nodes root p :
  Forall2 (fun n n' => prepared n n' /\ (blank n -> blank n')) nodes (retained nodes root p).
Proof.
  apply Forall2_same_length_lookup_2; [unfold retained; by rewrite length_imap|].
  intros i n n' Hn. rewrite retained_lookup, Hn. intros [= <-]. by destruct n.
Qed.

(** The nodes on which the order is computed: those loaded, with marks and distances. *)
Lemma preprocess_marks_run fileId strings rows edges :
  rows_ok rows edges -> rows <> [] -> Forall (fun r => is_u32 (nr_id r)) rows ->
  let loaded := row_nodes fileId strings 0 rows in
  let nodes0 := buildNodeEdge edges loaded in
  let nodeMap := node_index_map nodes0 in
  ~ visits_fit edges nodeMap nodes0 /\
    preprocess_marks (zlen rows) (zlen edges) edges loaded = Some (Throw (JsError "BFS failed")) \/
  visits_fit edges nodeMap nodes0 /\
    exists first rt marked, Forall2 prepared nodes0 marked /\
      preprocess_marks (zlen rows) (zlen edges) edges loaded = Some (Ok (first, rt, marked)).
Proof.
  intros Hok Hne Hu loaded nodes0 nodeMap.
  destruct (load_wf fileId strings rows edges Hok) as (l & Harr & _ & WF & _).
  rewrite (load_array _ _ _ _ Hok) in Harr. injection Harr as <-. fold loaded nodes0 nodeMap in WF.
  destruct (row_nodes_map fileId strings rows edges) as [Emap Hblank]. fold loaded nodes0 in Emap, Hblank.
  assert (Hlen : length nodes0 = length rows) by (unfold nodes0, buildNodeEdge, loaded; by rewrite length_fmap, length_row_nodes).
  unfold preprocess_marks. rewrite <- Emap. fold nodeMap nodes0.
  replace (zlen rows) with (zlen nodes0) by (unfold zlen; lia).
  destruct (buildRetainers_spec _ _ _ WF (from_option hn_nodeIndex 0 (loaded !! 0%nat))) as (first & rt & -> & _ & _ & Hn & _).
  pose proof (retained_prepared nodes0 (from_option hn_nodeIndex 0 (loaded !! 0%nat))
    (edge_items edges nodeMap nodes0)) as R1. rewrite <- Hn in R1.
  assert (P1 : Forall2 prepared nodes0 (rt_nodes rt)) by (eapply Forall2_impl; [exact R1|]; by intros ? ? []).
  destruct (distributeDOMState_run edges nodeMap (rt_nodes rt)) as (nodes2 & E2 & R2 & _).
  { eapply snapshot_wf_keys, WF. by apply prepared_keys. }
  assert (P2 : Forall2 prepared nodes0 nodes2).
  { etrans; [exact P1|]. eapply Forall2_impl; [exact R2|]. intros ? ? []%entered_prepared; done. }
  assert (B2 : forall i n, nodes2 !! i = Some n -> blank n).
  { intros i n Hi. destruct (Forall2_lookup_r _ _ _ _ _ R2 Hi) as (n1 & Hi1 & [_ Hb]%entered_prepared).
    destruct (Forall2_lookup_r _ _ _ _ _ R1 Hi1) as (n0 & Hi0 & _ & Hb1). by apply Hb, Hb1, (Hblank i). }
  destruct (calFlags_total edges nodeMap nodes2 B2) as (nodes3 & E3 & F3).
  destruct (flags_prepared _ _ F3) as [P3 D3].
  assert (P03 : Forall2 prepared nodes0 nodes3) by (by etrans). pose proof (prepared_keys _ _ P03) as K3.
  assert (E : zlen (rt_nodes rt) = zlen nodes0 /\ zlen nodes3 = zlen nodes0)
    by (unfold zlen; by rewrite (Forall2_length _ _ _ P1), <- (Forall2_length _ _ _ P03), (Forall2_length _ _ _ P1)).
  destruct E as [L1 L3]. rewrite <- L1, E2. cbn [fmap option_fmap option_map run_bind]. rewrite E3.
  cbn [fmap option_fmap option_map run_bind]. rewrite L1, <- L3.
  destruct (calDistances_cases edges nodeMap nodes3) as [[Hno ->]|(Hfit & nodes4 & -> & Hd & _)].
  - by eapply snapshot_wf_keys, WF.
  - intros ->. destruct rows; [done|]. unfold zlen in L3. simpl in *. lia.
  - intros i n Hi. destruct (Forall2_lookup_r _ _ _ _ _ K3 Hi) as (n0 & Hi0 & (-> & _)).
    destruct (Hblank i n0 Hi0) as (_ & r & Hr & ->). by apply (Forall_lookup_1 _ _ _ _ Hu Hr).
  - intros v. rewrite D3. unfold dist. destruct (nodes2 !! v) as [n|] eqn:Hv; [|done]. by apply (B2 v).
  - left. split; [|done]. intros H. apply Hno. eapply visits_fit_keys; [|exact H]. by apply same_keys_sym.
  - right. split; [by eapply visits_fit_keys|]. exists first, rt, nodes4. split; [|done].
    etrans; [exact P03|]. eapply Forall2_impl; [exact Hd|]. intros n n' E. rewrite E. by destruct n.
Qed.

(** C9: The post order is a numbering.  On a snapshot loaded from consistent tables
    the passes before the order end: they throw 'BFS failed', when the references of
    the root to user objects and what these reach are more than the nodes, or give the
    nodes with their retainers, DOM states, flags and distances.  On these nodes
    [buildOrderIdx], which passes over references into the page's objects, ends without
    an error, also when parts of the graph are not reachable from the root;
    [orderIdx2NodeIdx] then lists every node exactly once, the root last, and
    [nodeIdx2OrderIdx] is its inverse. *)
Theorem post_order_numbers_nodes fileId strings rows edges :
  rows_ok rows edges -> rows <> [] -> Forall (fun r => is_u32 (nr_id r)) rows ->
  exists loaded, node_array (zlen rows) (loadNode fileId strings rows).1.1 = Some loaded /\
    let nodeMap := node_index_map loaded in
    (~ visits_fit edges nodeMap (buildNodeEdge edges loaded) /\
       preprocess_marks (zlen rows) (zlen edges) edges loaded = Some (Throw (JsError "BFS failed")) \/
     exists first rt nodes rootNode st ord,
       preprocess_marks (zlen rows) (zlen edges) edges loaded = Some (Ok (first, rt, nodes)) /\
       nodes !! 0%nat = Some rootNode /\
       buildOrderIdx edges nodeMap nodes (zlen nodes) rootNode first (rt_retainingEdges rt) = Some (Ok st) /\
       is_order nodes (os_orderIdx2NodeIdx st) (os_nodeIdx2OrderIdx st) ord).
Proof.
  intros Hok Hne Hu. eexists. split; [by eapply load_array|]. cbn zeta.
  destruct (load_wf fileId strings rows edges Hok) as (l & Harr & Hlen & WF & SP).
  rewrite (load_array _ _ _ _ Hok) in Harr. injection Harr as <-.
  rewrite <- (proj1 (row_nodes_map fileId strings rows edges)).
  destruct (preprocess_marks_run fileId strings rows edges Hok Hne Hu) as [?|(_ & first & rt & nodes & HP & E)]; [by left|].
  right. destruct (lookup_lt_is_Some_2 nodes 0%nat) as [rootNode Hroot].
  { rewrite <- (Forall2_length _ _ _ HP). unfold buildNodeEdge. rewrite length_fmap, Hlen. by destruct rows; simpl; [|lia]. }
  pose proof (snapshot_wf_keys _ _ _ _ (prepared_keys _ _ HP) WF) as WF'.
  destruct (buildOrderIdx_order edges _ nodes first (rt_retainingEdges rt) rootNode WF' (prepared_spans _ _ _ HP SP) Hroot)
    as (st & ord & Hb & Ho). by exists first, rt, nodes, rootNode, st, ord.
Qed.

(** The root refers to a synthetic node 1 and, as a shortcut, to the page's object 2;
    node 1, without any flag, refers to the object 2, which is passed over there. *)
Definition page_rows : list node_row :=
  [sample_row 0 9 0 1 0 2; sample_row 1 9 1 3 16 1; sample_row 2 3 2 5 24 0].

Definition page_edges : list HeapEdge := [sample_edge 0 1 3; sample_edge 1 5 5; sample_edge 2 2 5].

Lemma page_rows_ok : rows_ok page_rows page_edges.
Proof. solve_rows_ok. Qed.

Lemma post_order_numbers_nodes_witness :
  exists loaded first rt nodes rootNode st,
    node_array 3 (loadNode 1 sample_strings page_rows).1.1 = Some loaded /\
    preprocess_marks 3 3 page_edges loaded = Some (Ok (first, rt, nodes)) /\ hn_flag <$> nodes = [0; 0; 5] /\
    buildOrderIdx page_edges (node_index_map loaded) nodes 3 rootNode first (rt_retainingEdges rt) = Some (Ok st) /\
    os_orderIdx2NodeIdx st = [1; 2; 0].
Proof.
  destruct (post_order_numbers_nodes 1 sample_strings page_rows page_edges) as (loaded & Hl & [[_ H]|H]).
  - exact page_rows_ok.
  - discriminate.
  - repeat constructor; vm_compute; congruence.
  - vm_compute in Hl. injection Hl as <-. vm_compute in H. discriminate.
  - destruct H as (first & rt & nodes & rootNode & st & ord & Hp & Hroot & Hb & _).
    exists loaded, first, rt, nodes, rootNode, st. split; [exact Hl|]. split; [exact Hp|].
    vm_compute in Hl. injection Hl as <-. vm_compute in Hp. injection Hp as <- <- <-.
    split; [reflexivity|]. split; [exact Hb|].
    vm_compute in Hroot. injection Hroot as <-. vm_compute in Hb. injection Hb as <-. reflexivity.
Defined.
