(* ===== verification/HeapClasses.v ===== *)
(** * Classes of heap objects

    The summary and comparison views: [HeapLoader.combineNodeWithClassName],
    [calClassRetainedSize], [getClassesForSummary], [initDiff], [calClassDiff]
    and [getClassesForComparison] ([js-heap/logic/HeapLoader.ts]).  The [Map] of
    classes is an ordered map of items; updating an item in place is setting its
    entry. *)

From S2P Require Import Prelude JsRuntime HeapModel HeapRetainers HeapFlags HeapDominators.

Abbreviation class_map := (list (option jsstring * ConstructorItem)).

(** ** Assignments to items *)

Definition with_data (d : item_data) (i : ConstructorItem) : ConstructorItem :=
  {| ci := d; ci_parent := ci_parent i; ci_children := ci_children i; ci_retains := ci_retains i;
     ci_classChildren := ci_classChildren i; cc := cc i |}.

Definition with_classChildren (l : list ConstructorItem) (i : ConstructorItem) : ConstructorItem :=
  {| ci := ci i; ci_parent := ci_parent i; ci_children := ci_children i; ci_retains := ci_retains i;
     ci_classChildren := l; cc := cc i |}.

Definition add_retained (size : Z) (i : ConstructorItem) : ConstructorItem :=
  let d := ci i in
  with_data {| ci_fileId := ci_fileId d; ci_nodeName := ci_nodeName d; ci_edgeName := ci_edgeName d;
    ci_childCount := ci_childCount d; ci_distance := ci_distance d; ci_shallowSize := ci_shallowSize d;
    ci_retainedSize := ci_retainedSize d + size; ci_hasNext := ci_hasNext d;
    ci_edgeCount := ci_edgeCount d; ci_edgeType := ci_edgeType d; ci_type := ci_type d;
    ci_nodeType := ci_nodeType d; ci_id := ci_id d; ci_index := ci_index d;
    ci_traceNodeId := ci_traceNodeId d |} i.

(** The class gets one more member: its distance is the least, its count and
    shallow size grow. *)
Definition grow_class (node : HeapNode) (d : item_data) : item_data :=
  {| ci_fileId := ci_fileId d; ci_nodeName := ci_nodeName d; ci_edgeName := ci_edgeName d;
     ci_childCount := ci_childCount d + 1; ci_distance := Z.min (ci_distance d) (hn_distance node);
     ci_shallowSize := ci_shallowSize d + hn_selfSize node; ci_retainedSize := ci_retainedSize d;
     ci_hasNext := ci_hasNext d; ci_edgeCount := ci_edgeCount d; ci_edgeType := ci_edgeType d;
     ci_type := ci_type d; ci_nodeType := ci_nodeType d; ci_id := ci_id d; ci_index := ci_index d;
     ci_traceNodeId := ci_traceNodeId d |}.

(** ** [combineNodeWithClassName] *)

Definition new_class (fileId : Z) (node : HeapNode) : item_data :=
  let d := HeapNodeToConstructorItem node in
  {| ci_fileId := fileId; ci_nodeName := className node; ci_edgeName := ci_edgeName d; ci_childCount := 1;
     ci_distance := ci_distance d; ci_shallowSize := ci_shallowSize d; ci_retainedSize := 0;
     ci_hasNext := true; ci_edgeCount := ci_edgeCount d; ci_edgeType := ci_edgeType d;
     ci_type := Some ClassType; ci_nodeType := ci_nodeType d; ci_id := ci_id d; ci_index := ci_index d;
     ci_traceNodeId := ci_traceNodeId d |}.

(** The first member of a class is cloned from the class item. *)
Definition first_instance (fileId : Z) (node : HeapNode) : item_data :=
  let d := clone (new_class fileId node) in
  {| ci_fileId := ci_fileId d; ci_nodeName := ci_nodeName d; ci_edgeName := ci_edgeName d;
     ci_childCount := hn_edgeCount node; ci_distance := ci_distance d; ci_shallowSize := ci_shallowSize d;
     ci_retainedSize := hn_retainedSize node; ci_hasNext := hn_edgeCount node >? 0;
     ci_edgeCount := ci_edgeCount d; ci_edgeType := ci_edgeType d; ci_type := Some InstanceType;
     ci_nodeType := ci_nodeType d; ci_id := hn_id node; ci_index := hn_nodeIndex node;
     ci_traceNodeId := hn_traceNodeId node |}.

(** The others are made from their nodes. *)
Definition next_instance (fileId : Z) (node : HeapNode) : item_data :=
  let d := HeapNodeToConstructorItem node in
  {| ci_fileId := fileId; ci_nodeName := ci_nodeName d; ci_edgeName := ci_edgeName d;
     ci_childCount := hn_edgeCount node; ci_distance := ci_distance d; ci_shallowSize := ci_shallowSize d;
     ci_retainedSize := ci_retainedSize d; ci_hasNext := hn_edgeCount node >? 0;
     ci_edgeCount := ci_edgeCount d; ci_edgeType := ci_edgeType d; ci_type := Some InstanceType;
     ci_nodeType := ci_nodeType d; ci_id := hn_id node; ci_index := hn_nodeIndex node;
     ci_traceNodeId := ci_traceNodeId d |}.

Definition counts_for_class (filter : Z -> bool) (node : HeapNode) : bool :=
  filter (hn_id node) && negb ((hn_selfSize node =? 0) && negb (hn_type node =? node_type NATIVE)).

Definition combine_node (fileId : Z) (filter : Z -> bool) (classes : class_map) (node : HeapNode) : class_map :=
  if negb (counts_for_class filter node) then classes
  else match map_get classes (className node) with
       | None =>
           map_set classes (className node)
             (with_classChildren [new_item (first_instance fileId node)] (new_item (new_class fileId node)))
       | Some classItem =>
           map_set classes (className node)
             (with_classChildren (ci_classChildren classItem ++ [new_item (next_instance fileId node)])
               (with_data (grow_class node (ci classItem)) classItem))
       end.

Definition combineNodeWithClassName (fileId : Z) (nodes : list HeapNode) (filter : Z -> bool)
    (classes : class_map) : class_map :=
  fold_left (combine_node fileId filter) nodes classes.

(** ** [calClassRetainedSize] *)

(** The stacks have their ends as heads. *)
Record retained_state := {
  rz_list : list nat;
  rz_sizes : list Z;
  rz_classesName : list (option jsstring);
  rz_seen : list (option jsstring * bool);
  rz_classes : class_map;
}.

(** [while (sizes[sizes.length - 1] === list.length)]: leave the classes whose
    subtree is done. *)
Fixpoint leave_classes (len : Z) (sizes : list Z) (names : list (option jsstring))
    (seen : list (option jsstring * bool)) : list Z * list (option jsstring) * list (option jsstring * bool) :=
  match sizes with
  | s :: sizes' =>
      if s =? len then
        leave_classes len sizes' (tail names) (map_set seen (default None (head names)) false)
      else (sizes, names, seen)
  | [] => (sizes, names, seen)
  end.

Section ClassRetained.
Context (nodes : list HeapNode) (firstDominatedNodesIdx dominatedNodes : list Z).
Context (hasFilter : bool) (filter : Z -> bool).

Definition retained_round (node : HeapNode) (st : retained_state) : retained_state :=
  let name := className node in
  let seen := default false (map_get (rz_seen st) name) in
  let from := u32_at firstDominatedNodesIdx (hn_nodeIndex node) in
  let to := u32_at firstDominatedNodesIdx (hn_nodeIndex node + 1) in
  let st :=
    if negb seen && (negb hasFilter || filter (hn_id node))
       && (truthy (hn_selfSize node) || (hn_type node =? node_type NATIVE)) then
      match map_get (rz_classes st) name with
      | Some classItem =>
          let classes := map_set (rz_classes st) name (add_retained (hn_retainedSize node) classItem) in
          if negb (from =? to) then
            {| rz_list := rz_list st; rz_sizes := zlen (rz_list st) :: rz_sizes st;
               rz_classesName := name :: rz_classesName st; rz_seen := map_set (rz_seen st) name true;
               rz_classes := classes |}
          else {| rz_list := rz_list st; rz_sizes := rz_sizes st; rz_classesName := rz_classesName st;
                  rz_seen := rz_seen st; rz_classes := classes |}
      | None => st
      end
    else st in
  let todo := fold_left (fun l idx => Z.to_nat (u32_at dominatedNodes idx) :: l) (seqZ from (to - from)) (rz_list st) in
  let '(sizes, names, seen) := leave_classes (zlen todo) (rz_sizes st) (rz_classesName st) (rz_seen st) in
  {| rz_list := todo; rz_sizes := sizes; rz_classesName := names; rz_seen := seen; rz_classes := rz_classes st |}.

Fixpoint retained_loop (fuel : nat) (st : retained_state) : option retained_state :=
  match rz_list st, fuel with
  | [], _ => Some st
  | _ :: _, O => None
  | i :: rest, S fuel' =>
      let st := {| rz_list := rest; rz_sizes := rz_sizes st; rz_classesName := rz_classesName st;
                   rz_seen := rz_seen st; rz_classes := rz_classes st |} in
      retained_loop fuel' (match nodes !! i with Some node => retained_round node st | None => st end)
  end.

(** The tree of dominators has every node once. *)
Definition calClassRetainedSize (classes : class_map) : option class_map :=
  st ← retained_loop (S (length nodes))
         {| rz_list := [0%nat]; rz_sizes := [-1]; rz_classesName := []; rz_seen := []; rz_classes := classes |};
  Some (rz_classes st).
End ClassRetained.

(** ** The views *)

(** The part of the loader's state the views use. *)
Record class_loader := {
  cl_fileId : Z;
  cl_nodes : list HeapNode;
  cl_firstDominatedNodesIdx : list Z;
  cl_dominatedNodes : list Z;
  cl_allClasses : option class_map;
  cl_diffToOtherFile : list (Z * class_map);
}.

Definition with_classes (a : option class_map) (d : list (Z * class_map)) (l : class_loader) : class_loader :=
  {| cl_fileId := cl_fileId l; cl_nodes := cl_nodes l;
     cl_firstDominatedNodesIdx := cl_firstDominatedNodesIdx l; cl_dominatedNodes := cl_dominatedNodes l;
     cl_allClasses := a; cl_diffToOtherFile := d |}.

Definition id_filter (range : option (Z * Z)) (nodeId : Z) : bool :=
  match range with
  | Some (minNodeId, maxNodeId) => (minNodeId <=? nodeId) && (nodeId <=? maxNodeId)
  | None => true
  end.

(** [range]: the two optional arguments, when both are numbers. *)
Definition getClassesForSummary (range : option (Z * Z)) (l : class_loader) : option (class_map * class_loader) :=
  let hasFilter := match range with Some _ => true | None => false end in
  match hasFilter, cl_allClasses l with
  | false, Some all => Some (all, l)
  | _, _ =>
      let classes := combineNodeWithClassName (cl_fileId l) (cl_nodes l) (id_filter range) [] in
      classes ← calClassRetainedSize (cl_nodes l) (cl_firstDominatedNodesIdx l) (cl_dominatedNodes l)
                  hasFilter (id_filter range) classes;
      Some (classes, if hasFilter then l else with_classes (Some classes) (cl_diffToOtherFile l) l)
  end.

(** ** [calClassDiff] *)

Definition removed (targetNode : ConstructorItem) (d : comparison_data) : comparison_data :=
  {| cc_targetFileId := cc_targetFileId d; cc_addedCount := cc_addedCount d;
     cc_removedCount := cc_removedCount d + 1; cc_deltaCount := cc_deltaCount d;
     cc_addedSize := cc_addedSize d; cc_removedSize := cc_removedSize d + ci_shallowSize (ci targetNode);
     cc_deltaSize := cc_deltaSize d; cc_deletedIdx := cc_deletedIdx d ++ [ci_index (ci targetNode)];
     cc_addedIndx := cc_addedIndx d; cc_isAdd := cc_isAdd d |}.

Definition added (baseNode : ConstructorItem) (d : comparison_data) : comparison_data :=
  {| cc_targetFileId := cc_targetFileId d; cc_addedCount := cc_addedCount d + 1;
     cc_removedCount := cc_removedCount d; cc_deltaCount := cc_deltaCount d;
     cc_addedSize := cc_addedSize d + ci_shallowSize (ci baseNode); cc_removedSize := cc_removedSize d;
     cc_deltaSize := cc_deltaSize d; cc_deletedIdx := cc_deletedIdx d;
     cc_addedIndx := cc_addedIndx d ++ [ci_index (ci baseNode)]; cc_isAdd := cc_isAdd d |}.

(** The three loops over the two sorted lists. *)
Fixpoint merge_diff (ts : list ConstructorItem) :
    list ConstructorItem -> comparison_data -> comparison_data :=
  fix go bs d :=
    match ts, bs with
    | [], _ => fold_left (fun d b => added b d) bs d
    | _, [] => fold_left (fun d t => removed t d) ts d
    | t :: ts', b :: bs' =>
        if ci_id (ci t) <? ci_id (ci b) then merge_diff ts' bs (removed t d)
        else if ci_id (ci b) <? ci_id (ci t) then go bs' (added b d)
        else merge_diff ts' bs' d
    end.

Definition sort_children (i : ConstructorItem) : ConstructorItem :=
  with_classChildren (sort_by (fun c => ci_id (ci c)) (ci_classChildren i)) i.

(** The members the loops look at. *)
Definition class_members (i : ConstructorItem) : list ConstructorItem :=
  take (Z.to_nat (ci_childCount (ci i))) (ci_classChildren i).

Definition initDiff (fileId : Z) (targetClass : ConstructorItem) : item_data :=
  {| ci_fileId := fileId; ci_nodeName := ci_nodeName (ci targetClass); ci_edgeName := []; ci_childCount := 1;
     ci_distance := -1; ci_shallowSize := -1; ci_retainedSize := -1; ci_hasNext := true; ci_edgeCount := 0;
     ci_edgeType := None; ci_type := Some ComparisonType; ci_nodeType := None; ci_id := -1; ci_index := -1;
     ci_traceNodeId := -1 |}.

Definition with_childCount (n : Z) (d : item_data) : item_data :=
  {| ci_fileId := ci_fileId d; ci_nodeName := ci_nodeName d; ci_edgeName := ci_edgeName d; ci_childCount := n;
     ci_distance := ci_distance d; ci_shallowSize := ci_shallowSize d; ci_retainedSize := ci_retainedSize d;
     ci_hasNext := true; ci_edgeCount := ci_edgeCount d; ci_edgeType := ci_edgeType d; ci_type := ci_type d;
     ci_nodeType := ci_nodeType d; ci_id := ci_id d; ci_index := ci_index d; ci_traceNodeId := ci_traceNodeId d |}.

(** The difference ([None] for null), and the two classes with their members
    sorted in place. *)
Definition calClassDiff (fileId : Z) (targetClass : ConstructorItem) (baseClass : option ConstructorItem) :
    option ConstructorItem * ConstructorItem * option ConstructorItem :=
  let targetClass := sort_children targetClass in
  let baseClass := sort_children <$> baseClass in
  let start := {| cc_targetFileId := ci_fileId (ci targetClass); cc_addedCount := 0; cc_removedCount := 0;
                  cc_deltaCount := 0; cc_addedSize := 0; cc_removedSize := 0; cc_deltaSize := 0;
                  cc_deletedIdx := []; cc_addedIndx := []; cc_isAdd := false |} in
  let d := merge_diff (class_members targetClass) (from_option class_members [] baseClass) start in
  let d := {| cc_targetFileId := cc_targetFileId d; cc_addedCount := cc_addedCount d;
              cc_removedCount := cc_removedCount d; cc_deltaCount := cc_addedCount d - cc_removedCount d;
              cc_addedSize := cc_addedSize d; cc_removedSize := cc_removedSize d;
              cc_deltaSize := cc_addedSize d - cc_removedSize d; cc_deletedIdx := cc_deletedIdx d;
              cc_addedIndx := cc_addedIndx d; cc_isAdd := cc_isAdd d |} in
  (if (cc_addedCount d =? 0) && (cc_removedCount d =? 0) then None
   else Some {| ci := with_childCount (cc_addedCount d + cc_removedCount d) (initDiff fileId targetClass);
                ci_parent := None; ci_children := []; ci_retains := []; ci_classChildren := []; cc := d |},
   targetClass, baseClass).

(** ** [getClassesForComparison] *)

(** The loop over the classes of the target file, and the one over the classes of
    the base file that the target does not have.  The state: the differences, the
    target's classes and the base's classes, whose members get sorted. *)
Definition compare_target (fileId : Z) (st : class_map * class_map * class_map) (name : option jsstring) :
    class_map * class_map * class_map :=
  let '(diffMap, targetClasses, allClasses) := st in
  match map_get targetClasses name with
  | None => st
  | Some targetClass =>
      let key := ci_nodeName (ci targetClass) in
      let '(different, targetClass', baseClass') := calClassDiff fileId targetClass (map_get allClasses key) in
      (match different with Some d => map_set diffMap key d | None => diffMap end,
       map_set targetClasses name targetClass',
       match baseClass' with Some b => map_set allClasses key b | None => allClasses end)
  end.

Definition compare_base (fileId : Z) (targetClasses : class_map) (st : class_map * class_map) (name : option jsstring) :
    class_map * class_map :=
  let '(diffMap, allClasses) := st in
  match map_get allClasses name with
  | None => st
  | Some classItem =>
      let key := ci_nodeName (ci classItem) in
      if map_has targetClasses key then st
      else
        let '(different, classItem', _) := calClassDiff fileId classItem None in
        (match different with Some d => map_set diffMap key d | None => diffMap end,
         map_set allClasses name classItem')
  end.

Definition compare_classes (fileId : Z) (targetClasses allClasses : class_map) : class_map * class_map * class_map :=
  let '(diffMap, targetClasses, allClasses) :=
    fold_left (compare_target fileId) targetClasses.*1 ([], targetClasses, allClasses) in
  let '(diffMap, allClasses) := fold_left (compare_base fileId targetClasses) allClasses.*1 (diffMap, allClasses) in
  (diffMap, targetClasses, allClasses).

(** The differences, the target's classes and the loader afterwards. *)
Definition getClassesForComparison (targetFileId : Z) (targetFileClasses : class_map) (l : class_loader) :
    option (class_map * class_map * class_loader) :=
  match map_get (cl_diffToOtherFile l) targetFileId with
  | Some diffMap => Some (diffMap, targetFileClasses, l)
  | None =>
      r ← match cl_allClasses l with Some all => Some (all, l) | None => getClassesForSummary None l end;
      let '(all, l) := (r : class_map * class_loader) in
      let '(diffMap, targetFileClasses, all) := compare_classes (cl_fileId l) targetFileClasses all in
      Some (diffMap, targetFileClasses,
            with_classes (Some all) (map_set (cl_diffToOtherFile l) targetFileId diffMap) l)
  end.

(** ** The summary *)

(** The nodes a class stands for. *)
Definition of_class (flt : Z -> bool) (name : option jsstring) (nodes : list HeapNode) : list HeapNode :=
  filter (fun n => counts_for_class flt n = true /\ className n = name) nodes.

Record class_ok (name : option jsstring) (ns : list HeapNode) (item : ConstructorItem) : Prop := {
  co_name : ci_nodeName (ci item) = name;
  co_count : ci_childCount (ci item) = zlen ns;
  co_size : ci_shallowSize (ci item) = zsum (hn_selfSize <$> ns);
  co_distance : (exists n, n ∈ ns /\ ci_distance (ci item) = hn_distance n) /\
                (forall n, n ∈ ns -> ci_distance (ci item) <= hn_distance n);
  co_ids : (fun c => ci_id (ci c)) <$> ci_classChildren item = hn_id <$> ns;
  co_indices : (fun c => ci_index (ci c)) <$> ci_classChildren item = hn_nodeIndex <$> ns;
  co_sizes : (fun c => ci_shallowSize (ci c)) <$> ci_classChildren item = hn_selfSize <$> ns;
}.

Lemma combine_classes fileId flt nodes name :
  let classes := combineNodeWithClassName fileId nodes flt [] in
  NoDup classes.*1 /\
  match map_get classes name with
  | Some item => of_class flt name nodes <> [] /\ class_ok name (of_class flt name nodes) item
  | None => of_class flt name nodes = []
  end.
Proof.
  unfold combineNodeWithClassName. induction nodes as [|n nodes IH] using rev_ind; [split; [constructor|done]|].
  rewrite fold_left_app. cbn [fold_left]. cbn zeta in *. set (classes := fold_left _ nodes []) in *.
  destruct IH as [HN IH]. unfold of_class in *. rewrite filter_app, filter_cons. unfold combine_node.
  destruct (counts_for_class flt n) eqn:Hc; cbn [negb].
  2: { rewrite decide_False by naive_solver. rewrite app_nil_r. done. }
  destruct (decide (className n = name)) as [Hname|Hname].
  - rewrite decide_True by done. rewrite Hname. set (ns := filter _ nodes) in *.
    destruct (map_get classes name) as [item|] eqn:Hg.
    + destruct IH as [Hne [H1 H2 H3 H4 H5 H6 H7]]. split; [by apply map_set_nodup|].
      rewrite map_get_set, decide_True by done. split; [by destruct ns|].
      destruct item as [d p ch rt cs cmp]. cbn in *. split; cbn.
      * done.
      * rewrite zlen_app, H2. done.
      * rewrite fmap_app, zsum_app, H3. simpl. lia.
      * destruct H4 as [(n0 & Hn0 & E0) Hmin]. split.
        -- destruct (Z.min_spec (ci_distance d) (hn_distance n)) as [[_ ->]|[_ ->]]; [exists n0|exists n]; set_solver.
        -- intros n' [Hn'|Hn']%elem_of_app; [specialize (Hmin n' Hn'); lia|].
           assert (n' = n) as -> by set_solver. lia.
      * rewrite !fmap_app, H5. done.
      * rewrite !fmap_app, H6. done.
      * rewrite !fmap_app, H7. done.
    + rewrite IH. split; [by apply map_set_nodup|]. rewrite map_get_set, decide_True by done.
      split; [done|]. split; cbn.
      * done.
      * done.
      * lia.
      * split; [exists n; set_solver|]. intros n' ->%list_elem_of_singleton. lia.
      * done.
      * done.
      * done.
  - rewrite decide_False by naive_solver. rewrite app_nil_r.
    destruct (map_get classes (className n)) as [item|]; (split; [by apply map_set_nodup|]);
      rewrite map_get_set, decide_False by done; exact IH.
Qed.

(** The summary groups the nodes by class.  For every class name the map has
    an item exactly when a node of that class passes the filter (and has a size
    or is native); the item counts these nodes, sums their sizes, has the least of
    their distances, and its members are these nodes in order.  No class appears
    twice. *)
Theorem summary_groups_nodes fileId flt nodes name :
  let classes := combineNodeWithClassName fileId nodes flt [] in
  let members := of_class flt name nodes in
  NoDup classes.*1 /\
  (map_get classes name = None <-> members = []) /\
  forall item, map_get classes name = Some item ->
    ci_nodeName (ci item) = name /\ ci_childCount (ci item) = zlen members /\
    ci_shallowSize (ci item) = zsum (hn_selfSize <$> members) /\
    (exists n, n ∈ members /\ ci_distance (ci item) = hn_distance n) /\
    (forall n, n ∈ members -> ci_distance (ci item) <= hn_distance n) /\
    (fun c => ci_id (ci c)) <$> ci_classChildren item = hn_id <$> members.
Proof.
  destruct (combine_classes fileId flt nodes name) as [HN H]. cbn zeta. split; [done|].
  destruct (map_get _ name) as [item|].
  - destruct H as [Hne [H1 H2 H3 [H4 H4'] H5 _ _]]. split; [naive_solver|]. intros ? [= <-]. done.
  - split; [done|]. intros ? [=].
Qed.

(** ** Differences of classes *)

Definition item_id (c : ConstructorItem) : Z := ci_id (ci c).
Definition id_lt (a b : ConstructorItem) : Prop := item_id a < item_id b.

(** The members of [l] whose id is not an id of [l']. *)
Definition only_in (l l' : list ConstructorItem) : list ConstructorItem :=
  filter (fun c => item_id c ∉ item_id <$> l') l.

Definition apply_diff (rs bs : list ConstructorItem) (d : comparison_data) : comparison_data :=
  fold_left (fun d b => added b d) bs (fold_left (fun d t => removed t d) rs d).

Lemma removed_added_comm rs b d :
  fold_left (fun d t => removed t d) rs (added b d) = added b (fold_left (fun d t => removed t d) rs d).
Proof. revert d. induction rs as [|r rs IH]; intros d; [done|]. simpl. rewrite <- IH. done. Qed.

Lemma only_in_cons_l c l l' :
  only_in (c :: l) l' = if decide (item_id c ∈ item_id <$> l') then only_in l l' else c :: only_in l l'.
Proof. unfold only_in. rewrite filter_cons. by repeat case_decide. Qed.

Lemma only_in_cons_r l c l' :
  Forall (fun x => item_id x <> item_id c) l -> only_in l (c :: l') = only_in l l'.
Proof.
  intros HF. unfold only_in. induction HF as [|x l Hx _ IH]; [done|]. rewrite !filter_cons, IH.
  rewrite fmap_cons. destruct (decide (item_id x ∉ item_id <$> l')).
  - rewrite decide_True by (rewrite not_elem_of_cons; done). done.
  - rewrite decide_False by (rewrite not_elem_of_cons; tauto). done.
Qed.

Lemma only_in_nil l : only_in l [] = l.
Proof. unfold only_in. induction l as [|x l IH]; [done|]. rewrite filter_cons, decide_True, IH by set_solver. done. Qed.

Lemma below_not_in x l : Forall (fun y => item_id x < item_id y) l -> item_id x ∉ item_id <$> l.
Proof. rewrite Forall_forall. intros HF (y & E & Hy)%list_elem_of_fmap. specialize (HF y Hy). lia. Qed.

Lemma merge_diff_cons t ts b bs d :
  merge_diff (t :: ts) (b :: bs) d =
    if item_id t <? item_id b then merge_diff ts (b :: bs) (removed t d)
    else if item_id b <? item_id t then merge_diff (t :: ts) bs (added b d)
    else merge_diff ts bs d.
Proof. reflexivity. Qed.

Lemma merge_diff_spec ts : forall bs d,
  StronglySorted id_lt ts -> StronglySorted id_lt bs ->
  merge_diff ts bs d = apply_diff (only_in ts bs) (only_in bs ts) d.
Proof.
  induction ts as [|t ts IHt]; intros bs; [intros d _ _; destruct bs; cbn [merge_diff]; by rewrite only_in_nil|].
  induction bs as [|b bs IHb]; intros d Ht Hb; [cbn [merge_diff]; by rewrite only_in_nil|].
  inversion Ht as [|? ? Ht' HFt]. inversion Hb as [|? ? Hb' HFb]. subst. rewrite merge_diff_cons.
  assert (Hup : forall x y l, item_id x < item_id y -> Forall (id_lt y) l -> Forall (fun z => item_id x < item_id z) l).
  { intros x y l Hxy HF. eapply Forall_impl; [exact HF|]. unfold id_lt. intros z Hz. cbn in Hz. lia. }
  assert (Hne : forall x l, Forall (fun z => item_id x < item_id z) l -> Forall (fun z => item_id z <> item_id x) l).
  { intros x l HF. eapply Forall_impl; [exact HF|]. cbn. intros z Hz. lia. }
  destruct (Z.ltb_spec (item_id t) (item_id b)) as [Hlt|Hge].
  - assert (HF : Forall (fun z => item_id t < item_id z) (b :: bs)) by (constructor; [done|by eapply Hup]).
    rewrite (IHt (b :: bs) (removed t d)), (only_in_cons_l t ts) by done.
    rewrite decide_False by (by apply below_not_in). rewrite (only_in_cons_r (b :: bs) t) by (by apply Hne). done.
  - destruct (Z.ltb_spec (item_id b) (item_id t)) as [Hgt|Hle].
    + assert (HF : Forall (fun z => item_id b < item_id z) (t :: ts)) by (constructor; [done|by eapply Hup]).
      rewrite IHb by done. rewrite (only_in_cons_l b bs), decide_False by (by apply below_not_in).
      rewrite (only_in_cons_r (t :: ts) b) by (by apply Hne). unfold apply_diff. by rewrite removed_added_comm.
    + assert (E : item_id t = item_id b) by lia.
      rewrite (IHt bs d), (only_in_cons_l t ts), (only_in_cons_l b bs) by done.
      rewrite decide_True by (rewrite fmap_cons, E; set_solver). rewrite decide_True by (rewrite fmap_cons, E; set_solver).
      rewrite (only_in_cons_r ts b), (only_in_cons_r bs t); [done| |].
      * apply Hne. eapply Forall_impl; [exact HFb|]. unfold id_lt. intros z Hz. cbn in *. lia.
      * apply Hne. eapply Forall_impl; [exact HFt|]. unfold id_lt. intros z Hz. cbn in *. lia.
Qed.

Lemma apply_diff_fields rs bs d :
  let d' := apply_diff rs bs d in
  cc_targetFileId d' = cc_targetFileId d /\
  cc_addedCount d' = cc_addedCount d + zlen bs /\ cc_removedCount d' = cc_removedCount d + zlen rs /\
  cc_addedSize d' = cc_addedSize d + zsum ((fun c => ci_shallowSize (ci c)) <$> bs) /\
  cc_removedSize d' = cc_removedSize d + zsum ((fun c => ci_shallowSize (ci c)) <$> rs) /\
  cc_deletedIdx d' = cc_deletedIdx d ++ ((fun c => ci_index (ci c)) <$> rs) /\
  cc_addedIndx d' = cc_addedIndx d ++ ((fun c => ci_index (ci c)) <$> bs).
Proof.
  unfold apply_diff. revert bs d. induction rs as [|r rs IH]; intros bs d.
  - simpl. revert d. induction bs as [|b bs IHb]; intros d; cbn [fold_left fmap list_fmap zsum foldr].
    + rewrite !app_nil_r, zlen_nil. split_and!; done || lia.
    + destruct (IHb (added b d)) as (-> & -> & -> & -> & -> & -> & ->). cbn. rewrite zlen_cons, <- app_assoc, zlen_nil, app_nil_r.
      unfold zsum. split_and!; done || lia.
  - cbn [fold_left fmap list_fmap zsum foldr].
    destruct (IH bs (removed r d)) as (-> & -> & -> & -> & -> & -> & ->). cbn. rewrite zlen_cons, <- app_assoc.
    unfold zsum. split_and!; done || lia.
Qed.

(** Sorting the members of a class without repeated ids. *)
Lemma sort_children_strict i :
  NoDup (item_id <$> ci_classChildren i) -> ci_childCount (ci i) = zlen (ci_classChildren i) ->
  StronglySorted id_lt (class_members (sort_children i)) /\
  class_members (sort_children i) = sort_by item_id (ci_classChildren i).
Proof.
  intros HN Hc. unfold class_members, sort_children, with_classChildren. cbn [ci ci_classChildren].
  fold item_id. rewrite Hc. pose proof (sort_by_perm item_id (ci_classChildren i)) as Hp.
  rewrite take_ge by (rewrite Hp; unfold zlen; lia). split; [|done].
  assert (HN' : NoDup (item_id <$> sort_by item_id (ci_classChildren i))) by (by rewrite Hp).
  clear Hp. pose proof (sort_by_sorted item_id (ci_classChildren i)) as Hs. revert Hs HN'.
  generalize (sort_by item_id (ci_classChildren i)). intros l0 Hs HN'. induction Hs as [|x l Hs IH HF]; [constructor|].
  rewrite fmap_cons in HN'. apply NoDup_cons in HN' as [Hx HN'].
  constructor; [by apply IH|]. rewrite Forall_forall in *. intros y Hy. specialize (HF y Hy). unfold key_le, id_lt in *.
  assert (item_id x <> item_id y) by (intros E; apply Hx; rewrite E; by apply list_elem_of_fmap_2). lia.
Qed.

(** The comparison of two classes.  With members of distinct ids,
    [calClassDiff] reports as removed exactly the members of the target class
    whose id the base class does not have, as added exactly the members of the
    base class whose id the target class does not have, each in the order of
    their ids, with their numbers and the sums of their shallow sizes, the deltas
    are the differences, and null is returned exactly when the two classes have
    the same ids. *)
Theorem class_diff_exact fileId target base :
  NoDup (item_id <$> ci_classChildren target) -> ci_childCount (ci target) = zlen (ci_classChildren target) ->
  NoDup (item_id <$> ci_classChildren base) -> ci_childCount (ci base) = zlen (ci_classChildren base) ->
  let ts := sort_by item_id (ci_classChildren target) in
  let bs := sort_by item_id (ci_classChildren base) in
  match (calClassDiff fileId target (Some base)).1.1 with
  | None => only_in ts bs = [] /\ only_in bs ts = []
  | Some diff =>
      only_in ts bs ++ only_in bs ts <> [] /\
      cc_deletedIdx (cc diff) = (fun c => ci_index (ci c)) <$> only_in ts bs /\
      cc_addedIndx (cc diff) = (fun c => ci_index (ci c)) <$> only_in bs ts /\
      cc_removedCount (cc diff) = zlen (only_in ts bs) /\ cc_addedCount (cc diff) = zlen (only_in bs ts) /\
      cc_removedSize (cc diff) = zsum ((fun c => ci_shallowSize (ci c)) <$> only_in ts bs) /\
      cc_addedSize (cc diff) = zsum ((fun c => ci_shallowSize (ci c)) <$> only_in bs ts) /\
      cc_deltaCount (cc diff) = zlen (only_in bs ts) - zlen (only_in ts bs) /\
      cc_deltaSize (cc diff) = cc_addedSize (cc diff) - cc_removedSize (cc diff) /\
      ci_childCount (ci diff) = zlen (only_in bs ts) + zlen (only_in ts bs)
  end.
Proof.
  intros HNt Hct HNb Hcb ts bs. unfold calClassDiff. cbn [fmap option_fmap option_map from_option fst].
  destruct (sort_children_strict target HNt Hct) as [St ->]. destruct (sort_children_strict base HNb Hcb) as [Sb ->].
  fold ts bs. destruct (sort_children_strict target HNt Hct) as [St' Et]. destruct (sort_children_strict base HNb Hcb) as [Sb' Eb].
  rewrite Et in St'. rewrite Eb in Sb'. rewrite merge_diff_spec by done.
  match goal with |- context [apply_diff ?r ?b ?d] => destruct (apply_diff_fields r b d) as (_ & E1 & E2 & E3 & E4 & E5 & E6); set (dd := apply_diff r b d) in * end.
  cbn in E1, E2, E3, E4, E5, E6. pose proof (zlen_nonneg (only_in ts bs)). pose proof (zlen_nonneg (only_in bs ts)).
  destruct ((cc_addedCount _ =? 0) && (cc_removedCount _ =? 0)) eqn:E.
  - cbn [cc_addedCount cc_removedCount] in E. apply andb_true_iff in E as [Ea%Z.eqb_eq Er%Z.eqb_eq].
    split; apply nil_length_inv; unfold zlen in *; lia.
  - cbn [cc_addedCount cc_removedCount] in E. cbn. rewrite E1, E2, E3, E4, E5, E6. split_and!; try done; try lia.
    intros [Hn1 Hn2]%app_eq_nil. rewrite E1, E2, Hn1, Hn2 in E. done.
Qed.

(** Two classes that share one of their objects. *)
Definition sample_member (id index size : Z) : ConstructorItem :=
  new_item {| ci_fileId := 1; ci_nodeName := None; ci_edgeName := []; ci_childCount := 0; ci_distance := 1;
    ci_shallowSize := size; ci_retainedSize := size; ci_hasNext := false; ci_edgeCount := 0; ci_edgeType := None;
    ci_type := Some InstanceType; ci_nodeType := None; ci_id := id; ci_index := index; ci_traceNodeId := 0 |}.

Definition sample_class (ms : list ConstructorItem) : ConstructorItem :=
  with_classChildren ms (new_item (with_childCount (zlen ms) default_data)).

Definition sample_target : ConstructorItem := sample_class [sample_member 7 3 10; sample_member 3 1 20].
Definition sample_base : ConstructorItem := sample_class [sample_member 9 5 40; sample_member 3 1 20; sample_member 5 2 30].

Lemma class_diff_exact_witness :
  exists diff, (calClassDiff 1 sample_target (Some sample_base)).1.1 = Some diff /\
    cc_deletedIdx (cc diff) = [3] /\ cc_addedIndx (cc diff) = [2; 5] /\ cc_deltaSize (cc diff) = 60 /\
    cc_removedCount (cc diff) = zlen (only_in (sort_by item_id (ci_classChildren sample_target))
                                        (sort_by item_id (ci_classChildren sample_base))).
Proof.
  assert (H := class_diff_exact 1 sample_target sample_base).
  destruct (calClassDiff 1 sample_target (Some sample_base)).1.1 as [diff|] eqn:E; [|vm_compute in E; discriminate].
  exists diff. split; [reflexivity|]. vm_compute in E.
  destruct H as (_ & _ & _ & Hr & _).
  - apply (bool_decide_unpack _). vm_compute. exact I.
  - reflexivity.
  - apply (bool_decide_unpack _). vm_compute. exact I.
  - reflexivity.
  - injection E as <-. split; [reflexivity|]. split; [reflexivity|]. split; [reflexivity|]. exact Hr.
Defined.

(** Objects of a class that only the base file has are reported as removed,
    although an object of the base file that the target file does not have is an
    addition everywhere else: [getClassesForComparison] passes such a class as the
    target of [calClassDiff]. *)
Theorem base_only_class_removed fileId base :
  NoDup (item_id <$> ci_classChildren base) -> ci_childCount (ci base) = zlen (ci_classChildren base) ->
  ci_classChildren base <> [] -> forall name,
  exists diff all, compare_base fileId [] ([], [(name, base)]) name = ([(ci_nodeName (ci base), diff)], all) /\
    cc_addedCount (cc diff) = 0 /\ cc_addedIndx (cc diff) = [] /\
    cc_removedCount (cc diff) = zlen (ci_classChildren base) /\
    cc_deletedIdx (cc diff) ≡ₚ (fun c => ci_index (ci c)) <$> ci_classChildren base.
Proof.
  intros HN Hc Hne name. unfold compare_base. cbn [map_get]. rewrite decide_True by done. cbn [map_has map_get].
  unfold calClassDiff. cbn [fmap option_fmap option_map from_option].
  destruct (sort_children_strict base HN Hc) as [St E]. rewrite E in *.
  rewrite merge_diff_spec by (done || constructor). rewrite only_in_nil.
  change (only_in [] (sort_by item_id (ci_classChildren base))) with (@nil ConstructorItem).
  match goal with |- context [apply_diff ?r ?b ?d] => destruct (apply_diff_fields r b d) as (_ & E1 & E2 & _ & _ & E5 & E6); set (dd := apply_diff r b d) in * end.
  cbn [cc_addedCount cc_removedCount cc_deletedIdx cc_addedIndx fmap list_fmap] in E1, E2, E5, E6.
  rewrite (@zlen_nil ConstructorItem) in E1. rewrite app_nil_l in E5, E6. cbn [cc_addedCount cc_removedCount].
  pose proof (sort_by_perm item_id (ci_classChildren base)) as Hp.
  assert (Hl : zlen (sort_by item_id (ci_classChildren base)) = zlen (ci_classChildren base)) by (unfold zlen; by rewrite Hp).
  rewrite E1, E2, Hl, !Z.add_0_l. cbn [Z.eqb andb].
  destruct (Z.eqb_spec (zlen (ci_classChildren base)) 0) as [E0|_].
  { exfalso. apply Hne, nil_length_inv. unfold zlen in E0. lia. }
  eexists _, _. split; [done|]. cbn [cc cc_addedCount cc_removedCount cc_deletedIdx cc_addedIndx].
  rewrite E5, E6. split_and!; try done. by rewrite Hp.
Qed.

Lemma base_only_class_removed_witness :
  exists diff all, compare_base 1 [] ([], [(Some [], sample_base)]) (Some []) = ([(Some [], diff)], all) /\
    cc_addedCount (cc diff) = 0 /\ cc_removedCount (cc diff) = 3.
Proof.
  destruct (base_only_class_removed 1 sample_base) with (name := Some (@nil Z)) as (diff & all & E & Ha & _ & Hr & _).
  - apply (bool_decide_unpack _). vm_compute. exact I.
  - reflexivity.
  - discriminate.
  - exists diff, all. split; [exact E|]. split; [exact Ha|exact Hr].
Defined.
