(* ===== verification/HeapSamples.v ===== *)
(** * The timeline of allocations

    [HeapLoader.buildSamples], [binarySearchNodeInSamples] and
    [getMinAndMaxNodeId] ([js-heap/logic/HeapLoader.ts]). *)

From S2P Require Import Prelude JsRuntime HeapModel HeapDominators.

(** The loop of [binarySearchNodeInSamples]; every round shrinks the interval. *)
Fixpoint search_loop (fuel : nat) (nodeId : Z) (samples : list HeapSample) (left right : Z) : option Z :=
  if left <=? right then
    match fuel with
    | O => None
    | S fuel' =>
        let mid := (left + right) / 2 in
        match zlookup mid samples with
        | None => None
        | Some currentSample =>
            if hs_lastAssignedId currentSample =? nodeId then Some left
            else if hs_lastAssignedId currentSample <? nodeId
            then search_loop fuel' nodeId samples (mid + 1) right
            else search_loop fuel' nodeId samples left (mid - 1)
        end
    end
  else Some left.

Definition binarySearchNodeInSamples (nodeId : Z) (samples : list HeapSample) : option Z :=
  search_loop (S (length samples)) nodeId samples 0 (zlen samples - 1).

Definition add_size (size : Z) (s : HeapSample) : HeapSample :=
  {| hs_timestamp := hs_timestamp s; hs_lastAssignedId := hs_lastAssignedId s; hs_size := hs_size s + size |}.

Definition sample_node (samples : option (list HeapSample)) (node : HeapNode) : option (list HeapSample) :=
  samples ← samples;
  if Z.rem (hn_id node) 2 =? 0 then Some samples
  else
    rangeIdx ← binarySearchNodeInSamples (hn_id node) samples;
    if rangeIdx =? zlen samples then Some samples
    else Some (alter (add_size (hn_selfSize node)) (Z.to_nat rangeIdx) samples).

Definition buildSamples (nodes : list HeapNode) (samples : list HeapSample) : option (list HeapSample) :=
  match samples with
  | [] => Some []
  | _ => fold_left sample_node nodes (Some samples)
  end.

Definition getMinAndMaxNodeId (nodes : list HeapNode) (nodeCount : Z) : option (Z * Z) :=
  first ← nodes !! 0%nat; final ← zlookup (nodeCount - 1) nodes; Some (hn_id first, hn_id final).

(** ** The search *)

(** The number of samples taken before the id was assigned. *)
Definition earlier (nodeId : Z) (samples : list HeapSample) : nat :=
  length (filter (fun s => hs_lastAssignedId s < nodeId) samples).

Definition by_id (samples : list HeapSample) : Prop :=
  forall i j a b, (i < j)%nat -> samples !! i = Some a -> samples !! j = Some b ->
    hs_lastAssignedId a < hs_lastAssignedId b.

(** A prefix below the id and a rest above it determine the count. *)
Lemma earlier_split nodeId samples k :
  (k <= length samples)%nat ->
  (forall i s, (i < k)%nat -> samples !! i = Some s -> hs_lastAssignedId s < nodeId) ->
  (forall i s, (k <= i)%nat -> samples !! i = Some s -> nodeId <= hs_lastAssignedId s) ->
  earlier nodeId samples = k.
Proof.
  intros Hk Hlo Hhi. unfold earlier. rewrite <- (take_drop k samples), filter_app, length_app.
  assert (H1 : filter (fun s => hs_lastAssignedId s < nodeId) (take k samples) = take k samples).
  { apply filter_all. apply Forall_forall. intros s [i Hi]%list_elem_of_lookup.
    apply lookup_take_Some in Hi as [Hi Hlt]. by eapply Hlo. }
  assert (H2 : filter (fun s => hs_lastAssignedId s < nodeId) (drop k samples) = []).
  { apply filter_none. apply Forall_forall. intros s [i Hi]%list_elem_of_lookup. rewrite lookup_drop in Hi.
    apply Hhi in Hi; lia. }
  rewrite H1, H2, length_take. simpl. lia.
Qed.

Lemma search_loop_spec nodeId samples : by_id samples -> forall fuel left right,
  0 <= left -> left <= right + 1 -> right < zlen samples -> right - left + 1 < Z.of_nat fuel ->
  (forall i s, Z.of_nat i < left -> samples !! i = Some s -> hs_lastAssignedId s < nodeId) ->
  (forall i s, right < Z.of_nat i -> samples !! i = Some s -> nodeId < hs_lastAssignedId s) ->
  exists r, search_loop fuel nodeId samples left right = Some r /\ 0 <= r <= Z.of_nat (earlier nodeId samples) /\
    (nodeId ∉ hs_lastAssignedId <$> samples -> r = Z.of_nat (earlier nodeId samples)).
Proof.
  intros Hs. induction fuel as [|fuel IH]; intros left right H0 Hlr Hr Hfuel Hlo Hhi; [lia|]. cbn [search_loop].
  destruct (Z.leb_spec left right) as [Hle|Hgt].
  2: { assert (E : earlier nodeId samples = Z.to_nat left).
       { apply earlier_split; [unfold zlen in *; lia| |].
         - intros i s Hi. apply Hlo. lia.
         - intros i s Hi Hsi. apply Z.lt_le_incl. apply (Hhi i s); [lia|done]. }
       exists left. rewrite E. split; [done|]. split; [lia|]. intros _. lia. }
  assert (Hmid : left <= (left + right) / 2 <= right) by (split; [apply Z.div_le_lower_bound|apply Z.div_le_upper_bound]; lia).
  set (mid := (left + right) / 2) in *.
  destruct (zlookup_is_Some mid samples) as [cur Hcur]; [lia|]. rewrite Hcur.
  assert (Hc : samples !! Z.to_nat mid = Some cur) by (unfold zlookup in Hcur; destruct (Z.ltb_spec mid 0); [lia|done]).
  assert (Hbelow : forall i s, Z.of_nat i < mid -> samples !! i = Some s -> hs_lastAssignedId s < hs_lastAssignedId cur).
  { intros i s Hi Hsi. apply (Hs i (Z.to_nat mid)); [lia|done|done]. }
  assert (Habove : forall i s, mid < Z.of_nat i -> samples !! i = Some s -> hs_lastAssignedId cur < hs_lastAssignedId s).
  { intros i s Hi Hsi. apply (Hs (Z.to_nat mid) i); [lia|done|done]. }
  destruct (Z.eqb_spec (hs_lastAssignedId cur) nodeId) as [Heq|Hne].
  { assert (E : earlier nodeId samples = Z.to_nat mid).
    { apply earlier_split; [unfold zlen in *; lia| |].
      - intros i s Hi Hsi. rewrite <- Heq. apply (Hbelow i s); [lia|done].
      - intros i s Hi Hsi. rewrite <- Heq. destruct (decide (i = Z.to_nat mid)) as [->|]; [assert (s = cur) as -> by congruence; lia|].
        apply Z.lt_le_incl. apply (Habove i s); [lia|done]. }
    exists left. rewrite E. split; [done|]. split; [lia|]. intros Hn. exfalso. apply Hn. rewrite <- Heq.
    apply list_elem_of_fmap_2. by eapply list_elem_of_lookup_2. }
  destruct (Z.ltb_spec (hs_lastAssignedId cur) nodeId) as [Hlt|Hge].
  - apply IH; try lia; [|exact Hhi]. intros i s Hi Hsi.
    destruct (decide (Z.of_nat i = mid)) as [E|]; [|specialize (Hbelow i s ltac:(lia) Hsi); lia].
    assert (s = cur) as -> by (rewrite <- E, Nat2Z.id in Hc; congruence). done.
  - apply IH; try lia; [exact Hlo|]. intros i s Hi Hsi.
    destruct (decide (Z.of_nat i = mid)) as [E|]; [|specialize (Habove i s ltac:(lia) Hsi); lia].
    assert (s = cur) as -> by (rewrite <- E, Nat2Z.id in Hc; congruence). lia.
Qed.

Lemma binary_search_spec nodeId samples :
  by_id samples ->
  exists r, binarySearchNodeInSamples nodeId samples = Some r /\ 0 <= r <= Z.of_nat (earlier nodeId samples) /\
    (nodeId ∉ hs_lastAssignedId <$> samples -> r = Z.of_nat (earlier nodeId samples)).
Proof.
  intros Hs. unfold binarySearchNodeInSamples, zlen. apply search_loop_spec; try done; unfold zlen; try lia.
  intros i s Hi Hsi. apply lookup_lt_Some in Hsi. lia.
Qed.

(** ** The sizes of the samples *)

Lemma earlier_ids nodeId samples samples' :
  hs_lastAssignedId <$> samples' = hs_lastAssignedId <$> samples -> earlier nodeId samples' = earlier nodeId samples.
Proof.
  intros E. unfold earlier.
  assert (H : forall l, length (filter (fun s => hs_lastAssignedId s < nodeId) l)
                        = length (filter (fun i => i < nodeId) (hs_lastAssignedId <$> l))).
  { induction l as [|s l IH]; [done|]. rewrite fmap_cons, !filter_cons. case_decide; simpl; by rewrite IH. }
  by rewrite !H, E.
Qed.

Lemma by_id_ids samples samples' :
  hs_lastAssignedId <$> samples' = hs_lastAssignedId <$> samples -> by_id samples -> by_id samples'.
Proof.
  intros E Hs i j a b Hij Ha Hb.
  assert (Hl : forall i a, samples' !! i = Some a -> exists a', samples !! i = Some a' /\ hs_lastAssignedId a' = hs_lastAssignedId a).
  { intros i' a' Ha'. assert (H : (hs_lastAssignedId <$> samples) !! i' = Some (hs_lastAssignedId a')) by (by rewrite <- E, list_lookup_fmap, Ha').
    rewrite list_lookup_fmap in H. destruct (samples !! i') as [x|]; [|done]. simpl in H. injection H as H. eauto. }
  destruct (Hl i a Ha) as (a' & Ha' & <-). destruct (Hl j b Hb) as (b' & Hb' & <-). by eapply Hs.
Qed.

(** Nodes that the timeline counts in sample [k]. *)
Definition in_sample (samples : list HeapSample) (k : nat) (n : HeapNode) : Prop :=
  Z.rem (hn_id n) 2 <> 0 /\ earlier (hn_id n) samples = k.

#[export] Instance in_sample_dec samples k n : Decision (in_sample samples k n).
Proof. unfold in_sample. apply _. Defined.

Lemma sampled_sizes_snoc samples k nodes n :
  zsum (hn_selfSize <$> filter (in_sample samples k) (nodes ++ [n]))
  = zsum (hn_selfSize <$> filter (in_sample samples k) nodes)
    + (if decide (in_sample samples k n) then hn_selfSize n else 0).
Proof.
  rewrite filter_app, fmap_app, zsum_app, filter_cons. case_decide; simpl; lia.
Qed.

Lemma build_samples_prefix (samples : list HeapSample) nodes :
  by_id samples -> Forall (fun n => hn_id n ∉ hs_lastAssignedId <$> samples) nodes ->
  exists samples', fold_left sample_node nodes (Some samples) = Some samples' /\
    hs_lastAssignedId <$> samples' = hs_lastAssignedId <$> samples /\
    forall k, hs_size <$> samples' !! k
              = (fun s => hs_size s + zsum (hn_selfSize <$> filter (in_sample samples k) nodes)) <$> samples !! k.
Proof.
  intros Hs. induction nodes as [|n nodes IH] using rev_ind; intros HF.
  { exists samples. split_and!; try done. intros k. destruct (samples !! k); [|done]. simpl. f_equal. lia. }
  apply Forall_app in HF as [HF Hn]. rewrite Forall_singleton in Hn.
  destruct (IH HF) as (sm & E & Hids & Hsz). rewrite fold_left_app, E. cbn [fold_left sample_node mbind option_bind].
  destruct (Z.eqb_spec (Z.rem (hn_id n) 2) 0) as [Hev|Hodd].
  { exists sm. split_and!; try done. intros k. rewrite Hsz. destruct (samples !! k); [|done]. simpl. f_equal.
    rewrite sampled_sizes_snoc, decide_False by (intros [? _]; done). lia. }
  destruct (binary_search_spec (hn_id n) sm) as (r & Er & _ & Hr); [by eapply by_id_ids|].
  rewrite Hids in Hr. specialize (Hr Hn). rewrite (earlier_ids _ _ _ Hids) in Hr. rewrite Er. cbn [mbind option_bind].
  assert (Hlen : length sm = length samples) by (by rewrite <- (length_fmap hs_lastAssignedId sm), Hids, length_fmap).
  destruct (Z.eqb_spec r (zlen sm)) as [Hend|Hin].
  - exists sm. split_and!; try done. intros k. rewrite Hsz. destruct (samples !! k) as [s|] eqn:Hk; [|done].
    apply lookup_lt_Some in Hk. simpl. f_equal. rewrite sampled_sizes_snoc, decide_False; [lia|].
    intros [_ He]. unfold zlen in *. lia.
  - eexists. split; [done|]. split.
    { rewrite <- Hids. apply list_eq. intros i. rewrite !list_lookup_fmap. destruct (decide (i = Z.to_nat r)) as [->|].
      - rewrite list_lookup_alter_eq. by destruct (sm !! Z.to_nat r).
      - by rewrite list_lookup_alter_ne. }
    intros k. destruct (decide (k = Z.to_nat r)) as [->|Hne].
    + rewrite list_lookup_alter_eq. specialize (Hsz (Z.to_nat r)).
      destruct (sm !! Z.to_nat r) as [s'|], (samples !! Z.to_nat r) as [s|]; try done. simpl in *. injection Hsz as Hsz.
      f_equal. rewrite sampled_sizes_snoc, decide_True by (split; [done|lia]). lia.
    + rewrite list_lookup_alter_ne by done. rewrite Hsz. destruct (samples !! k); [|done]. simpl. f_equal.
      rewrite sampled_sizes_snoc, decide_False; [lia|]. intros [_ He]. lia.
Qed.

(** The timeline attributes every object to the interval in which its id was
    assigned.  For samples with increasing ids and objects whose ids are not
    themselves last ids, the search ends and the size of a sample grows by the
    sizes of the objects with an odd id above the last id of the sample before and
    below its own. *)
Theorem samples_attribute_sizes (samples : list HeapSample) nodes :
  by_id samples -> Forall (fun n => hn_id n ∉ hs_lastAssignedId <$> samples) nodes ->
  exists samples', buildSamples nodes samples = Some samples' /\
    hs_lastAssignedId <$> samples' = hs_lastAssignedId <$> samples /\
    forall k, hs_size <$> samples' !! k
              = (fun s => hs_size s + zsum (hn_selfSize <$> filter (in_sample samples k) nodes)) <$> samples !! k.
Proof.
  intros Hs HF. destruct samples as [|s samples]; [by exists []|]. by apply build_samples_prefix.
Qed.

Definition timeline : list HeapSample :=
  (fun i => {| hs_timestamp := i * 100; hs_lastAssignedId := i; hs_size := 0 |}) <$> [4; 8; 12; 16; 20].

Definition timeline_node (id size : Z) : HeapNode := new_HeapNode 1 0 3 None id size 0 0 0 0.

Lemma timeline_by_id : by_id timeline.
Proof.
  intros i j a b Hij Ha Hb.
  do 5 (destruct i as [|i]; [injection Ha as <-; do 5 (destruct j as [|j]; [injection Hb as <-; simpl; lia|]); done|]). done.
Qed.

Lemma samples_attribute_sizes_witness :
  exists samples', buildSamples [timeline_node 3 10; timeline_node 9 20; timeline_node 11 5; timeline_node 21 7] timeline = Some samples' /\
    hs_size <$> samples' = [10; 0; 25; 0; 0] /\
    hs_lastAssignedId <$> samples' = [4; 8; 12; 16; 20].
Proof.
  destruct (samples_attribute_sizes timeline [timeline_node 3 10; timeline_node 9 20; timeline_node 11 5; timeline_node 21 7])
    as (samples' & E & Hids & _).
  - exact timeline_by_id.
  - apply (bool_decide_unpack _). vm_compute. exact I.
  - exists samples'. split; [exact E|]. split; [|exact Hids]. vm_compute in E. injection E as <-. reflexivity.
Defined.

(** An object whose id is the last id of the middle sample is attributed to
    the first sample: on a hit the search returns the left end of its interval
    instead of the position it found. *)
Theorem sample_search_middle_hit (samples : list HeapSample) s :
  zlookup ((zlen samples - 1) / 2) samples = Some s ->
  binarySearchNodeInSamples (hs_lastAssignedId s) samples = Some 0.
Proof.
  intros Hs. pose proof (zlookup_Some_lt _ _ _ Hs) as Hr. unfold binarySearchNodeInSamples. cbn [search_loop].
  assert (1 <= zlen samples).
  { destruct samples; [vm_compute in Hs; done|]. rewrite zlen_cons. pose proof (zlen_nonneg samples). lia. }
  destruct (Z.leb_spec 0 (zlen samples - 1)); [|lia]. rewrite Z.add_0_l, Hs. by rewrite Z.eqb_refl.
Qed.

Lemma sample_search_middle_hit_witness :
  binarySearchNodeInSamples 12 timeline = Some 0 /\ earlier 12 timeline = 2%nat.
Proof.
  split; [|vm_compute; reflexivity].
  apply (sample_search_middle_hit timeline {| hs_timestamp := 1200; hs_lastAssignedId := 12; hs_size := 0 |}).
  vm_compute. reflexivity.
Defined.
