(* ===== verification/HeapAllocation.v ===== *)
(** * Functions that allocate

    The tree of allocation traces and its bottom-up view: [AllocationFunction]
    ([js-heap/model/UiStruct.ts]), the class [AllocationLogic]
    ([js-heap/logic/Allocation.ts]) and [LoadDatabase.loadTraceTree].  The array
    [traceNodes] is a store of objects; [bottomUpList] and the map of
    [setBottomUpTree] hold references to them, that is positions in the store. *)

From S2P Require Import Prelude JsRuntime HeapModel.

Inductive AllocationFunction := {
  af_fileId : Z;
  af_functionIndex : Z;
  af_parentsId : list Z;
  af_parents : list AllocationFunction;
  af_combineId : list Z;
  af_id : Z;
  af_name : option jsstring;
  af_scriptName : option jsstring;
  af_scriptId : Z;
  af_line : Z;
  af_column : Z;
  af_count : Z;
  af_size : Z;
  af_liveCount : Z;
  af_liveSize : Z;
  af_hasParent : bool;
}.

Definition new_AllocationFunction (nodeId : Z) (functionName scriptName : option jsstring)
    (scriptId line column count size liveCount liveSize : Z) (hasParent : bool) : AllocationFunction :=
  {| af_fileId := -1; af_functionIndex := -1; af_parentsId := []; af_parents := []; af_combineId := [];
     af_id := nodeId; af_name := functionName; af_scriptName := scriptName; af_scriptId := scriptId;
     af_line := line; af_column := column; af_count := count; af_size := size; af_liveCount := liveCount;
     af_liveSize := liveSize; af_hasParent := hasParent |}.

(** The callers of a clone are those of the original; its file and function index
    are the defaults. *)
Definition AllocationFunction_clone (f : AllocationFunction) : AllocationFunction :=
  let c := new_AllocationFunction (af_id f) (af_name f) (af_scriptName f) (af_scriptId f) (af_line f)
             (af_column f) (af_count f) (af_size f) (af_liveCount f) (af_liveSize f) (af_hasParent f) in
  {| af_fileId := af_fileId c; af_functionIndex := af_functionIndex c; af_parentsId := af_parentsId f;
     af_parents := af_parents c; af_combineId := af_combineId c; af_id := af_id c; af_name := af_name c;
     af_scriptName := af_scriptName c; af_scriptId := af_scriptId c; af_line := af_line c;
     af_column := af_column c; af_count := af_count c; af_size := af_size c; af_liveCount := af_liveCount c;
     af_liveSize := af_liveSize c; af_hasParent := af_hasParent c |}.

(** ** [loadTraceTree] *)

(** A row of the query; names are indices into the string table. *)
Record trace_row := {
  tr_id : Z; tr_name : Z; tr_scriptName : Z; tr_scriptId : Z; tr_line : Z; tr_column : Z; tr_count : Z;
  tr_size : Z; tr_liveCount : Z; tr_liveSize : Z; tr_parentId : Z; tr_functionInfoIndex : Z;
}.

Definition loadTraceTree_row (fileId : Z) (strings : list jsstring) (row : trace_row) : AllocationFunction :=
  let traceNode := new_AllocationFunction (tr_id row) (zlookup (tr_name row) strings)
                     (zlookup (tr_scriptName row) strings) (tr_scriptId row) (tr_line row) (tr_column row)
                     (tr_count row) (tr_size row) (tr_liveCount row) (tr_liveSize row) false in
  {| af_fileId := fileId; af_functionIndex := tr_functionInfoIndex row; af_parentsId := [tr_parentId row];
     af_parents := af_parents traceNode; af_combineId := af_combineId traceNode; af_id := af_id traceNode;
     af_name := af_name traceNode; af_scriptName := af_scriptName traceNode;
     af_scriptId := af_scriptId traceNode; af_line := af_line traceNode; af_column := af_column traceNode;
     af_count := af_count traceNode; af_size := af_size traceNode; af_liveCount := af_liveCount traceNode;
     af_liveSize := af_liveSize traceNode; af_hasParent := af_hasParent traceNode |}.

Definition loadTraceTree (fileId : Z) (strings : list jsstring) (rows : list trace_row) : list AllocationFunction :=
  loadTraceTree_row fileId strings <$> rows.

(** ** [setBottomUpTree] *)

Definition has_parent (parentsId : list Z) : bool :=
  match parentsId with [] => false | [p] => negb (p =? -1) | _ => true end.

Definition with_hasParent (f : AllocationFunction) : AllocationFunction :=
  {| af_fileId := af_fileId f; af_functionIndex := af_functionIndex f; af_parentsId := af_parentsId f;
     af_parents := af_parents f; af_combineId := af_combineId f; af_id := af_id f; af_name := af_name f;
     af_scriptName := af_scriptName f; af_scriptId := af_scriptId f; af_line := af_line f;
     af_column := af_column f; af_count := af_count f; af_size := af_size f; af_liveCount := af_liveCount f;
     af_liveSize := af_liveSize f; af_hasParent := has_parent (af_parentsId f) |}.

(** [combineId.add]: a set in insertion order. *)
Definition set_add (x : Z) (s : list Z) : list Z := if bool_decide (x ∈ s) then s else s ++ [x].

Definition with_combineId (s : list Z) (f : AllocationFunction) : AllocationFunction :=
  {| af_fileId := af_fileId f; af_functionIndex := af_functionIndex f; af_parentsId := af_parentsId f;
     af_parents := af_parents f; af_combineId := s; af_id := af_id f; af_name := af_name f;
     af_scriptName := af_scriptName f; af_scriptId := af_scriptId f; af_line := af_line f;
     af_column := af_column f; af_count := af_count f; af_size := af_size f; af_liveCount := af_liveCount f;
     af_liveSize := af_liveSize f; af_hasParent := af_hasParent f |}.

Definition combine_into (uniqueNode node : AllocationFunction) : AllocationFunction :=
  let f := uniqueNode in
  {| af_fileId := af_fileId f; af_functionIndex := af_functionIndex f;
     af_parentsId := af_parentsId f ++ af_parentsId node; af_parents := af_parents f;
     af_combineId := set_add (af_id node) (set_add (af_id f) (af_combineId f)); af_id := af_id f;
     af_name := af_name f; af_scriptName := af_scriptName f; af_scriptId := af_scriptId f;
     af_line := af_line f; af_column := af_column f; af_count := af_count f + af_count node;
     af_size := af_size f + af_size node; af_liveCount := af_liveCount f + af_liveCount node;
     af_liveSize := af_liveSize f + af_liveSize node; af_hasParent := af_hasParent f |}.

(** [node.name + node.functionIndex] *)
Definition function_key (f : AllocationFunction) : jsstring :=
  default (js "undefined") (af_name f) ++ js_toString 10 (af_functionIndex f).

Record bottom_up := {
  bu_traceNodes : list AllocationFunction;
  bu_keyMap : list (jsstring * nat);
  bu_bottomUpList : list nat;
}.

Definition bottom_up_step (st : bottom_up) (i : nat) : bottom_up :=
  match bu_traceNodes st !! i with
  | None => st
  | Some node =>
      let node := with_hasParent node in
      let traceNodes := <[i := node]> (bu_traceNodes st) in
      match map_get (bu_keyMap st) (function_key node) with
      | Some u =>
          {| bu_traceNodes := match traceNodes !! u with
                              | Some uniqueNode => <[u := combine_into uniqueNode node]> traceNodes
                              | None => traceNodes
                              end;
             bu_keyMap := bu_keyMap st; bu_bottomUpList := bu_bottomUpList st |}
      | None =>
          {| bu_traceNodes := <[i := with_combineId (set_add (af_id node) (af_combineId node)) node]> traceNodes;
             bu_keyMap := map_set (bu_keyMap st) (function_key node) i;
             bu_bottomUpList := bu_bottomUpList st ++ [i] |}
      end
  end.

Record AllocationLogic := { al_traceNodes : list AllocationFunction; al_bottomUpList : list nat }.

Definition size_of (traceNodes : list AllocationFunction) (i : nat) : Z :=
  from_option af_size 0 (traceNodes !! i).

Definition setBottomUpTree (traceNodes : list AllocationFunction) : AllocationLogic :=
  let st := fold_left bottom_up_step (seq 0 (length traceNodes))
              {| bu_traceNodes := traceNodes; bu_keyMap := []; bu_bottomUpList := [] |} in
  {| al_traceNodes := bu_traceNodes st;
     al_bottomUpList := sort_by (fun i => - size_of (bu_traceNodes st) i) (bu_bottomUpList st) |}.

(** ** Queries *)

Section Queries.
Context (functionInfos : list HeapTraceFunctionInfo) (logic : AllocationLogic).

Definition getFunctionList : list AllocationFunction :=
  omap (fun i => al_traceNodes logic !! i) (al_bottomUpList logic).

Definition getNodeById (id : Z) : option AllocationFunction :=
  List.find (fun func => af_id func =? id) getFunctionList.

(** One entry per visited function; [None] entries are [undefined]. *)
Fixpoint getFunctionStack (fuel : nat) (node : AllocationFunction)
    (functionList : list (option HeapTraceFunctionInfo)) : option (list (option HeapTraceFunctionInfo)) :=
  match fuel with
  | O => None
  | S fuel' =>
      fold_left (fun functionList parentId =>
          functionList ← functionList;
          match getNodeById parentId with
          | Some parentNode => getFunctionStack fuel' parentNode functionList
          | None => Some functionList
          end)
        (af_parentsId node) (Some (functionList ++ [zlookup (af_functionIndex node) functionInfos]))
  end.

Definition getNodeStack (fuel : nat) (allocationNodeId : Z) : option (list (option HeapTraceFunctionInfo)) :=
  match getNodeById allocationNodeId with
  | Some currentNode => getFunctionStack fuel currentNode []
  | None => Some []
  end.

Definition getFunctionNodeIds (allocationNodeId : Z) : list Z :=
  match getNodeById allocationNodeId with Some node => af_combineId node | None => [] end.

(** A caller as it is listed under [node]: a clone with the sizes of [node]. *)
Definition caller_of (node caller : AllocationFunction) : AllocationFunction :=
  let f := AllocationFunction_clone caller in
  {| af_fileId := af_fileId f; af_functionIndex := af_functionIndex f; af_parentsId := af_parentsId f;
     af_parents := af_parents f; af_combineId := af_combineId f; af_id := af_id f; af_name := af_name f;
     af_scriptName := af_scriptName f; af_scriptId := af_scriptId f; af_line := af_line f;
     af_column := af_column f; af_count := af_count node; af_size := af_size node;
     af_liveCount := af_liveCount node; af_liveSize := af_liveSize node; af_hasParent := af_hasParent f |}.

Definition with_parents (ps : list AllocationFunction) (f : AllocationFunction) : AllocationFunction :=
  {| af_fileId := af_fileId f; af_functionIndex := af_functionIndex f; af_parentsId := af_parentsId f;
     af_parents := ps; af_combineId := af_combineId f; af_id := af_id f; af_name := af_name f;
     af_scriptName := af_scriptName f; af_scriptId := af_scriptId f; af_line := af_line f;
     af_column := af_column f; af_count := af_count f; af_size := af_size f; af_liveCount := af_liveCount f;
     af_liveSize := af_liveSize f; af_hasParent := af_hasParent f |}.

(** [traceNodes[childrenId - 1].clone()] raises a TypeError when there is no such
    node.  [node.parentsId.length = 1] changes nothing for one caller; for none the
    caller's id is [undefined], and so is the node. *)
Fixpoint getParent (fuel : nat) (node : AllocationFunction) : option (res AllocationFunction) :=
  match fuel with
  | O => None
  | S fuel' =>
      if negb (af_hasParent node) then Some (Ok node)
      else
        match af_parentsId node with
        | [] => Some (Throw TypeError)
        | [childrenId] =>
            match zlookup (childrenId - 1) (al_traceNodes logic) with
            | None => Some (Throw TypeError)
            | Some caller =>
                r ← getParent fuel' (caller_of node caller);
                Some (let* children := r in Ok (with_parents (af_parents node ++ [children]) node))
            end
        | ids =>
            Some (let* callers := fold_left (fun acc childrenId =>
                      let* acc := acc in
                      let* caller := of_option TypeError (zlookup (childrenId - 1) (al_traceNodes logic)) in
                      Ok (acc ++ [caller_of node caller])) ids (Ok []) in
                  Ok (with_parents (af_parents node ++ callers) node))
        end
  end.
End Queries.

(** ** The groups of the bottom-up view *)

Definition group (k : jsstring) (l : list AllocationFunction) : list AllocationFunction :=
  filter (fun f => function_key f = k) l.

Definition started (f : AllocationFunction) : AllocationFunction :=
  with_combineId (set_add (af_id f) (af_combineId f)) (with_hasParent f).

(** The entry that stands for a group. *)
Definition merged (g : list AllocationFunction) : option AllocationFunction :=
  match g with
  | [] => None
  | f :: fs => Some (fold_left combine_into (with_hasParent <$> fs) (started f))
  end.

Lemma merged_snoc g x :
  merged (g ++ [x]) = Some match merged g with
                           | Some u => combine_into u (with_hasParent x)
                           | None => started x
                           end.
Proof. destruct g as [|f fs]; [done|]. simpl. by rewrite fmap_app, fold_left_app. Qed.

Lemma merged_None g : merged g = None <-> g = [].
Proof. by destruct g. Qed.

Lemma set_add_elem x y s : y ∈ set_add x s <-> y ∈ s \/ y = x.
Proof. unfold set_add. case_bool_decide; set_solver. Qed.

Lemma group_snoc k l x : group k (l ++ [x]) = group k l ++ (if decide (function_key x = k) then [x] else []).
Proof. unfold group. by rewrite filter_app, filter_cons, filter_nil. Qed.

Record merged_ok (g : list AllocationFunction) (f : AllocationFunction) : Prop := {
  mo_key : forall k, Forall (fun x => function_key x = k) g -> function_key f = k;
  mo_id : head (af_id <$> g) = Some (af_id f);
  mo_size : af_size f = zsum (af_size <$> g);
  mo_count : af_count f = zsum (af_count <$> g);
  mo_liveSize : af_liveSize f = zsum (af_liveSize <$> g);
  mo_liveCount : af_liveCount f = zsum (af_liveCount <$> g);
  mo_parents : af_parentsId f = concat (af_parentsId <$> g);
  mo_combine : forall x, x ∈ af_combineId f <-> x ∈ af_id <$> g;
  mo_index : forall i, Forall (fun x => af_functionIndex x = i) g -> af_functionIndex f = i;
}.

Lemma merged_fields g f :
  Forall (fun x => af_combineId x = []) g -> merged g = Some f -> merged_ok g f.
Proof.
  revert f. induction g as [|x g IH] using rev_ind; intros f HF Hm; [done|].
  apply Forall_app in HF as [HF Hx]. rewrite Forall_singleton in Hx.
  rewrite merged_snoc in Hm. injection Hm as <-. destruct (merged g) as [u|] eqn:Hu.
  - destruct (IH u HF eq_refl) as [H1 H2 H3 H4 H5 H6 H7 H8 H9].
    split; intros; rewrite ?fmap_app, ?concat_app, ?zsum_app; cbn [af_id af_size af_count af_liveSize
      af_liveCount af_parentsId combine_into with_hasParent fmap list_fmap zsum foldr concat]; rewrite ?app_nil_r; try lia.
    + apply Forall_app in H as [H _]. by rewrite <- (H1 k H).
    + destruct g; [done|]. exact H2.
    + by rewrite H7.
    + cbn [af_combineId combine_into with_hasParent af_id]. rewrite !set_add_elem, H8. rewrite elem_of_app.
      assert (af_id u ∈ af_id <$> g) by (apply list_elem_of_lookup; exists 0%nat; by rewrite <- head_lookup).
      set_solver.
    + apply Forall_app in H as [H _]. by rewrite <- (H9 i H).
  - apply merged_None in Hu as ->. split; simpl; intros; rewrite ?app_nil_r; try lia; try done.
    + by rewrite Forall_singleton in H.
    + rewrite Hx, set_add_elem. set_solver.
    + by rewrite Forall_singleton in H.
Qed.

(** ** [setBottomUpTree] *)

Section BottomUp.
Context (T : list AllocationFunction).

(** After the first [m] nodes. *)
Record bottom_up_inv (m : nat) (st : bottom_up) : Prop := {
  bi_ids : af_id <$> bu_traceNodes st = af_id <$> T;
  bi_rest : forall i, (m <= i)%nat -> bu_traceNodes st !! i = T !! i;
  bi_nodup : NoDup (bu_keyMap st).*1;
  bi_list : bu_bottomUpList st = (bu_keyMap st).*2;
  bi_none : forall k, map_get (bu_keyMap st) k = None -> group k (take m T) = [];
  bi_some : forall k u, map_get (bu_keyMap st) k = Some u ->
    (u < m)%nat /\ (exists f, T !! u = Some f /\ function_key f = k) /\
    group k (take m T) <> [] /\ bu_traceNodes st !! u = merged (group k (take m T));
}.

Lemma bottom_up_init :
  bottom_up_inv 0 {| bu_traceNodes := T; bu_keyMap := []; bu_bottomUpList := [] |}.
Proof. split; try done. constructor. Qed.

Lemma keys_apart m st k k' u :
  bottom_up_inv m st -> map_get (bu_keyMap st) k = Some u -> map_get (bu_keyMap st) k' = Some u -> k = k'.
Proof.
  intros HI Hk Hk'. destruct (bi_some _ _ HI _ _ Hk) as (_ & (f & Hf & <-) & _).
  destruct (bi_some _ _ HI _ _ Hk') as (_ & (f' & Hf' & <-) & _). congruence.
Qed.

Lemma ids_insert (l : list AllocationFunction) i f g :
  l !! i = Some f -> af_id g = af_id f -> af_id <$> <[i := g]> l = af_id <$> l.
Proof. intros Hi E. rewrite list_fmap_insert, E. apply list_insert_id. by rewrite list_lookup_fmap, Hi. Qed.

Lemma bottom_up_step_inv m st f :
  T !! m = Some f -> bottom_up_inv m st -> bottom_up_inv (S m) (bottom_up_step st m).
Proof.
  intros Hf HI. pose proof (bi_rest _ _ HI m ltac:(lia)) as Hm. rewrite Hf in Hm.
  pose proof (lookup_lt_Some _ _ _ Hm) as Hlt.
  unfold bottom_up_step. rewrite Hm. cbn zeta.
  assert (Ek : function_key (with_hasParent f) = function_key f) by done. rewrite Ek.
  assert (Eg : forall k, group k (take (S m) T) = group k (take m T) ++ if decide (function_key f = k) then [f] else []).
  { intros k. by rewrite (take_S_r _ _ _ Hf), group_snoc. }
  destruct (map_get (bu_keyMap st) (function_key f)) as [u|] eqn:Hu.
  - destruct (bi_some _ _ HI _ _ Hu) as (Hum & Hkey & Hne & Hst).
    destruct (merged (group (function_key f) (take m T))) as [un|] eqn:Hun; [|by apply merged_None in Hun].
    rewrite list_lookup_insert_ne by lia. rewrite Hst. split; cbn [bu_traceNodes bu_keyMap bu_bottomUpList].
    + rewrite (ids_insert _ _ un); [|by rewrite list_lookup_insert_ne by lia|done].
      rewrite (ids_insert _ _ f) by done. apply HI.
    + intros i Hi. rewrite !list_lookup_insert_ne by lia. apply HI. lia.
    + apply HI.
    + apply HI.
    + intros k Hk. rewrite Eg, (bi_none _ _ HI k Hk). rewrite decide_False; [done|]. intros <-. congruence.
    + intros k v Hk. destruct (bi_some _ _ HI _ _ Hk) as (Hv & Hkv & Hnev & Hsv). rewrite Eg. split_and!.
      * lia.
      * done.
      * by destruct (group k (take m T)).
      * case_decide as E.
        -- subst k. assert (v = u) as -> by congruence. rewrite list_lookup_insert_eq by (rewrite length_insert; apply lookup_lt_Some in Hst; done).
           by rewrite merged_snoc, Hun.
        -- rewrite app_nil_r, <- Hsv. rewrite !list_lookup_insert_ne; [done|lia|].
           intros ->. apply E. by eapply (keys_apart m st).
  - pose proof (bi_none _ _ HI _ Hu) as Hnil. split; cbn [bu_traceNodes bu_keyMap bu_bottomUpList].
    + rewrite list_insert_insert_eq. rewrite (ids_insert _ _ f) by done. apply HI.
    + intros i Hi. rewrite !list_lookup_insert_ne by lia. apply HI. lia.
    + apply map_set_nodup, HI.
    + rewrite (bi_list _ _ HI). by rewrite map_set_values_new.
    + intros k. rewrite map_get_set. case_decide as E; [done|]. intros Hk.
      rewrite Eg, (bi_none _ _ HI k Hk), decide_False by done. done.
    + intros k v. rewrite map_get_set, Eg. case_decide as E.
      * intros [= <-]. subst k. rewrite Hnil. cbn [app]. split_and!; [lia|eauto|done|].
        rewrite list_insert_insert_eq, list_lookup_insert_eq by done. done.
      * intros Hk. destruct (bi_some _ _ HI _ _ Hk) as (Hv & Hkv & Hnev & Hsv). rewrite app_nil_r.
        split_and!; [lia|done|done|]. by rewrite !list_lookup_insert_ne by lia.
Qed.

Lemma bottom_up_run m :
  (m <= length T)%nat ->
  bottom_up_inv m (fold_left bottom_up_step (seq 0 m) {| bu_traceNodes := T; bu_keyMap := []; bu_bottomUpList := [] |}).
Proof.
  induction m as [|m IH]; intros Hm; [exact bottom_up_init|].
  rewrite seq_S, fold_left_app. cbn [fold_left]. destruct (lookup_lt_is_Some_2 T m) as [f Hf]; [lia|].
  eapply bottom_up_step_inv; [done|]. apply IH. lia.
Qed.
End BottomUp.

Lemma entries_perm (l : list AllocationFunction) us us' :
  us ≡ₚ us' -> omap (fun i => l !! i) us ≡ₚ omap (fun i => l !! i) us'.
Proof.
  induction 1; cbn [omap list_omap].
  - done.
  - case_match; by rewrite IHPermutation.
  - repeat case_match; try done. apply Permutation_swap.
  - by etrans.
Qed.

Lemma entries_keys (l : list AllocationFunction) (km : list (jsstring * nat)) :
  Forall (fun ku => function_key <$> l !! ku.2 = Some ku.1) km ->
  function_key <$> omap (fun i => l !! i) km.*2 = km.*1.
Proof.
  induction 1 as [|[k u] km Hk _ IH]; [done|]. rewrite !fmap_cons. cbn [omap list_omap fst snd] in *.
  destruct (l !! u); [|done]. injection Hk as <-. by rewrite fmap_cons, IH.
Qed.

Lemma entries_sorted (l : list AllocationFunction) us :
  StronglySorted (key_le (fun i => - size_of l i)) us ->
  StronglySorted (fun a b => af_size b <= af_size a) (omap (fun i => l !! i) us).
Proof.
  induction 1 as [|u us Hs IH HF]; [constructor|]. cbn [omap list_omap].
  destruct (l !! u) as [f|] eqn:Hu; [|done]. constructor; [done|]. apply Forall_forall.
  intros g (v & Hv & Hg)%list_elem_of_omap. rewrite Forall_forall in HF. specialize (HF v Hv).
  unfold key_le, size_of in HF. rewrite Hu, Hg in HF. simpl in HF. lia.
Qed.

(** The entries are the merged groups, one per key, by decreasing size. *)
Lemma bottom_up_functions T :
  Forall (fun x => af_combineId x = []) T ->
  let fs := getFunctionList (setBottomUpTree T) in
  (exists ks, function_key <$> fs ≡ₚ ks /\ NoDup ks /\ forall k, k ∈ ks <-> k ∈ function_key <$> T) /\
  StronglySorted (fun a b => af_size b <= af_size a) fs /\
  Forall (fun f => merged_ok (group (function_key f) T) f) fs.
Proof.
  intros HC fs. subst fs. unfold getFunctionList, setBottomUpTree. cbn [al_traceNodes al_bottomUpList].
  pose proof (bottom_up_run T (length T) ltac:(lia)) as HI. set (st := fold_left _ _ _) in *.
  assert (Hentry : forall k u, (k, u) ∈ bu_keyMap st ->
            exists f, bu_traceNodes st !! u = Some f /\ function_key f = k /\ merged_ok (group k T) f).
  { intros k u Hk%map_get_nodup; [|apply HI].
    destruct (bi_some _ _ _ HI _ _ Hk) as (_ & _ & Hne & Hs). rewrite take_ge in Hs, Hne by lia.
    destruct (merged (group k T)) as [f|] eqn:Hm; [|by apply merged_None in Hm].
    assert (merged_ok (group k T) f).
    { apply merged_fields; [|done]. apply Forall_forall. intros x [_ Hx]%list_elem_of_filter.
      rewrite Forall_forall in HC. by apply HC. }
    exists f. split_and!; [done| |done]. eapply mo_key; [done|]. apply Forall_forall.
    by intros x [Hx _]%list_elem_of_filter. }
  assert (Hperm : omap (fun i => bu_traceNodes st !! i)
             (sort_by (fun i => - size_of (bu_traceNodes st) i) (bu_bottomUpList st))
           ≡ₚ omap (fun i => bu_traceNodes st !! i) (bu_keyMap st).*2).
  { rewrite <- (bi_list _ _ _ HI). apply entries_perm, sort_by_perm. }
  split_and!.
  - exists (bu_keyMap st).*1. split_and!; [|apply HI|].
    + rewrite Hperm, entries_keys; [done|]. apply Forall_forall. intros [k u] Hku.
      destruct (Hentry k u Hku) as (f & Hf & <- & _). cbn [fst snd]. by rewrite Hf.
    + intros k. rewrite map_get_elem. split.
      * intros [u Hu]. destruct (bi_some _ _ _ HI _ _ Hu) as (_ & (f & Hf & <-) & _).
        apply list_elem_of_fmap_2. by eapply list_elem_of_lookup_2.
      * intros (f & -> & Hf)%list_elem_of_fmap. destruct (map_get _ _) eqn:Hk; [eauto|].
        apply (bi_none _ _ _ HI) in Hk. rewrite take_ge in Hk by lia. exfalso.
        assert (Hin : f ∈ group (function_key f) T) by (by apply list_elem_of_filter).
        rewrite Hk in Hin. set_solver.
  - apply entries_sorted, sort_by_sorted.
  - rewrite Hperm. apply Forall_forall. intros f (u & ([k u'] & -> & Hku)%list_elem_of_fmap & Hf)%list_elem_of_omap.
    destruct (Hentry k u' Hku) as (f' & Hf' & <- & Hok). cbn in Hf. congruence.
Qed.

(** The bottom-up view lists every function once.  The listed functions have
    distinct keys, the keys of the trace nodes, and are ordered by decreasing
    size; each carries the summed sizes and counts of the trace nodes with its
    key, the callers of all of them, their ids, and the id of the first. *)
Theorem bottom_up_groups fileId strings rows :
  let T := loadTraceTree fileId strings rows in
  let fs := getFunctionList (setBottomUpTree T) in
  NoDup (function_key <$> fs) /\ (forall k, k ∈ function_key <$> fs <-> k ∈ function_key <$> T) /\
  StronglySorted (fun a b => af_size b <= af_size a) fs /\
  forall f, f ∈ fs -> let g := filter (fun x => function_key x = function_key f) T in
    head (af_id <$> g) = Some (af_id f) /\
    af_size f = zsum (af_size <$> g) /\ af_count f = zsum (af_count <$> g) /\
    af_liveSize f = zsum (af_liveSize <$> g) /\ af_liveCount f = zsum (af_liveCount <$> g) /\
    af_parentsId f = concat (af_parentsId <$> g) /\
    (forall x, x ∈ af_combineId f <-> x ∈ af_id <$> g).
Proof.
  cbn zeta. destruct (bottom_up_functions (loadTraceTree fileId strings rows)) as ((ks & Hp & HN & Hks) & Hs & HF).
  { apply Forall_fmap. by apply Forall_forall. }
  split_and!; [by rewrite Hp|intros k; by rewrite Hp|done|]. intros f Hf.
  rewrite Forall_forall in HF. destruct (HF f Hf). by split_and!.
Qed.

(** ** Stacks *)

Lemma find_unique fs id f :
  NoDup (af_id <$> fs) -> f ∈ fs -> af_id f = id -> List.find (fun func => af_id func =? id) fs = Some f.
Proof.
  induction fs as [|g fs IH]; [set_solver|]. rewrite fmap_cons, NoDup_cons. intros [Hg HN] Hf Hid. simpl.
  destruct (Z.eqb_spec (af_id g) id) as [E|E].
  - apply elem_of_cons in Hf as [->|Hf]; [done|]. exfalso. apply Hg. rewrite E, <- Hid. by apply list_elem_of_fmap_2.
  - apply elem_of_cons in Hf as [->|Hf]; [done|]. by apply IH.
Qed.

Lemma find_fold_None {A} (step : A -> Z -> option A) ids id acc :
  id ∈ ids -> (forall a, step a id = None) ->
  fold_left (fun acc p => acc ≫= fun a => step a p) ids acc = None.
Proof.
  revert acc. induction ids as [|i ids IH]; intros acc Hin Hs; [set_solver|]. cbn [fold_left].
  apply elem_of_cons in Hin as [->|Hin]; [|by apply IH].
  assert (E : acc ≫= (fun a => step a i) = None) by (destruct acc; [apply Hs|done]). rewrite E. clear.
  induction ids as [|j ids IH]; [done|]. exact IH.
Qed.

(** A function that is listed among its own callers. *)
Lemma self_caller_stack infos logic f :
  getNodeById logic (af_id f) = Some f -> af_id f ∈ af_parentsId f ->
  forall fuel l, getFunctionStack infos logic fuel f l = None.
Proof.
  intros Hget Hself. induction fuel as [|fuel IH]; intros l; [done|]. cbn [getFunctionStack].
  apply (find_fold_None (fun l p => match getNodeById logic p with
                                    | Some parentNode => getFunctionStack infos logic fuel parentNode l
                                    | None => Some l end) _ (af_id f)); [done|].
  intros a. rewrite Hget. apply IH.
Qed.

Section Stacks.
Context (fileId : Z) (strings : list jsstring) (rows : list trace_row).
Let T := loadTraceTree fileId strings rows.
Let logic := setBottomUpTree T.
Hypothesis distinct_ids : NoDup (af_id <$> T).

Lemma entry_of f :
  f ∈ getFunctionList logic -> merged_ok (group (function_key f) T) f.
Proof.
  intros Hf. destruct (bottom_up_functions T) as (_ & _ & HF); [apply Forall_fmap; by apply Forall_forall|].
  rewrite Forall_forall in HF. by apply HF.
Qed.

Lemma entry_first f :
  f ∈ getFunctionList logic -> exists x, x ∈ T /\ af_id x = af_id f /\ function_key x = function_key f.
Proof.
  intros Hf. pose proof (mo_id _ _ (entry_of f Hf)) as Hid.
  destruct (group (function_key f) T) as [|x g] eqn:Hg; [done|]. injection Hid as Hid.
  assert (Hx : x ∈ group (function_key f) T) by (rewrite Hg; set_solver).
  apply list_elem_of_filter in Hx as [Hk Hx]. eauto.
Qed.

Lemma id_inj x y : x ∈ T -> y ∈ T -> af_id x = af_id y -> x = y.
Proof.
  intros [i Hi]%list_elem_of_lookup [j Hj]%list_elem_of_lookup E.
  assert (i = j) as ->; [|congruence].
  eapply NoDup_lookup; [exact distinct_ids| |]; rewrite list_lookup_fmap, ?Hi, ?Hj; simpl; by rewrite ?E.
Qed.

Lemma entry_ids : NoDup (af_id <$> getFunctionList logic).
Proof.
  destruct (bottom_up_functions T) as ((ks & Hp & HN & _) & _ & _); [apply Forall_fmap; by apply Forall_forall|].
  fold logic in Hp. rewrite <- Hp in HN. apply NoDup_fmap_2_strong; [|by eapply NoDup_fmap_1].
  intros f g Hf Hg E. destruct (entry_first f Hf) as (x & Hx & Ex & Kx), (entry_first g Hg) as (y & Hy & Ey & Ky).
  assert (x = y) as <- by (apply id_inj; congruence).
  apply list_elem_of_lookup in Hf as [i Hi], Hg as [j Hj].
  assert (i = j) as ->; [|congruence].
  apply (NoDup_lookup (function_key <$> getFunctionList logic) i j (function_key f) HN);
    rewrite list_lookup_fmap, ?Hi, ?Hj; simpl; congruence.
Qed.

(** The first node of a key is found by its id. *)
Lemma entry_by_id x g :
  group (function_key x) T = x :: g -> exists f, getNodeById logic (af_id x) = Some f /\ merged_ok (x :: g) f /\
    af_id f = af_id x.
Proof.
  intros Hg. destruct (bottom_up_functions T) as ((ks & Hp & _ & Hks) & _ & _); [apply Forall_fmap; by apply Forall_forall|].
  fold logic in Hp.
  assert (Hx : x ∈ group (function_key x) T) by (rewrite Hg; set_solver).
  apply list_elem_of_filter in Hx as [_ Hx].
  assert (Hk : function_key x ∈ function_key <$> getFunctionList logic).
  { rewrite Hp. apply Hks. by apply list_elem_of_fmap_2. }
  apply list_elem_of_fmap in Hk as (f & Hk & Hf). pose proof (entry_of f Hf) as Hok. rewrite <- Hk, Hg in Hok.
  pose proof (mo_id _ _ Hok) as Hid. injection Hid as Hid. exists f.
  split_and!; [apply find_unique; [apply entry_ids|done|done]|done|done].
Qed.

Lemma no_entry id : id ∉ af_id <$> T -> getNodeById logic id = None.
Proof.
  intros Hid. unfold getNodeById. destruct (List.find _ _) as [f|] eqn:E; [|done]. exfalso.
  apply find_some in E as [Hf%list_elem_of_In E%Z.eqb_eq]. destruct (entry_first f Hf) as (x & Hx & Ex & _).
  apply Hid. rewrite <- E, <- Ex. by apply list_elem_of_fmap_2.
Qed.
End Stacks.

(** The stack of a function that calls itself is never found.  When a trace
    node [g] was called from a node [f] of the same function, the first of that
    function, the bottom-up entry of [f] is among its own callers, and
    [getNodeStack] does not return for any recursion depth. *)
Theorem recursive_stack_diverges fileId strings rows infos f g before rest :
  let T := loadTraceTree fileId strings rows in
  NoDup (af_id <$> T) -> T = before ++ f :: rest -> g ∈ rest -> function_key g = function_key f ->
  (forall x, x ∈ before -> function_key x <> function_key f) -> af_parentsId g = [af_id f] ->
  forall fuel, getNodeStack infos (setBottomUpTree T) fuel (af_id f) = None.
Proof.
  intros T HN ET Hg Hk Hfirst Hp fuel.
  assert (Eg : group (function_key f) T = f :: group (function_key f) rest).
  { rewrite ET. unfold group. rewrite filter_app, filter_cons, decide_True by done.
    rewrite filter_none; [done|]. apply Forall_forall. exact Hfirst. }
  destruct (entry_by_id _ _ _ HN f _ Eg) as (e & He & Hok & Hid).
  unfold getNodeStack. fold T in He. rewrite He. apply self_caller_stack; rewrite Hid; [done|].
  rewrite (mo_parents _ _ Hok). apply list_elem_of_In, in_concat. exists [af_id f]. split; [|by left].
  apply list_elem_of_In. rewrite <- Hp. apply list_elem_of_fmap_2. right. by apply list_elem_of_filter.
Qed.

Definition call_row (id name parent : Z) (size : Z) : trace_row :=
  {| tr_id := id; tr_name := name; tr_scriptName := 0; tr_scriptId := 1; tr_line := 1; tr_column := 1;
     tr_count := 1; tr_size := size; tr_liveCount := 1; tr_liveSize := size; tr_parentId := parent;
     tr_functionInfoIndex := name |}.

Definition call_strings : list jsstring := js <$> ["(root)"; "main"; "walk"; "make"]%string.

(** main calls walk, walk calls itself. *)
Definition recursive_rows : list trace_row :=
  [call_row 1 0 (-1) 0; call_row 2 1 1 16; call_row 3 2 2 32; call_row 4 2 3 64].

Lemma recursive_stack_diverges_witness :
  exists f, af_id f = 3 /\
  forall fuel, getNodeStack [] (setBottomUpTree (loadTraceTree 1 call_strings recursive_rows)) fuel (af_id f) = None.
Proof.
  exists (loadTraceTree_row 1 call_strings (call_row 3 2 2 32)). split; [reflexivity|].
  apply (recursive_stack_diverges 1 call_strings recursive_rows [] _
           (loadTraceTree_row 1 call_strings (call_row 4 2 3 64))
           (take 2 (loadTraceTree 1 call_strings recursive_rows))
           (drop 3 (loadTraceTree 1 call_strings recursive_rows))).
  - apply (bool_decide_unpack _). vm_compute. exact I.
  - reflexivity.
  - left.
  - reflexivity.
  - intros x Hx. vm_compute in Hx. apply list_elem_of_In in Hx. cbn [In] in Hx.
    destruct Hx as [<-|[<-|[]]]; discriminate.
  - reflexivity.
Defined.

(** The calls that lead to a node, innermost first. *)
Inductive call_path (T : list AllocationFunction) : Z -> list AllocationFunction -> Prop :=
  | call_root x : x ∈ T -> (forall y, y ∈ T -> af_parentsId x <> [af_id y]) -> call_path T (af_id x) [x]
  | call_step x y p : x ∈ T -> y ∈ T -> af_parentsId x = [af_id y] -> call_path T (af_id y) p ->
      call_path T (af_id x) (x :: p).

Section Unmerged.
Context (fileId : Z) (strings : list jsstring) (rows : list trace_row) (infos : list HeapTraceFunctionInfo).
Let T := loadTraceTree fileId strings rows.
Let logic := setBottomUpTree T.
Hypothesis distinct_ids : NoDup (af_id <$> T).
Hypothesis distinct_keys : NoDup (function_key <$> T).

Lemma single_group x : x ∈ T -> group (function_key x) T = [x].
Proof.
  clear distinct_ids. subst logic. induction T as [|y l IH]; [set_solver|].
  rewrite fmap_cons, NoDup_cons in distinct_keys. destruct distinct_keys as [Hy HN].
  intros [->|Hx]%elem_of_cons; unfold group; rewrite filter_cons.
  - rewrite decide_True by done. f_equal. apply filter_none, Forall_forall. intros z Hz E. apply Hy.
    rewrite <- E. by apply list_elem_of_fmap_2.
  - rewrite decide_False; [by apply IH|]. intros E. apply Hy. rewrite E. by apply list_elem_of_fmap_2.
Qed.

Lemma unmerged_entry x : x ∈ T ->
  exists f, getNodeById logic (af_id x) = Some f /\ af_parentsId f = af_parentsId x /\
    af_functionIndex f = af_functionIndex x.
Proof.
  intros Hx. destruct (entry_by_id fileId strings rows distinct_ids x [] (single_group x Hx)) as (f & Hf & Hok & _).
  exists f. split_and!; [exact Hf| |].
  - rewrite (mo_parents _ _ Hok). simpl. apply app_nil_r.
  - eapply mo_index; [exact Hok|]. by constructor.
Qed.

Definition up_to (id : Z) : nat := length (filter (fun y => af_id y <= id) T).

Lemma up_to_lt x y : x ∈ T -> af_id y < af_id x -> (up_to (af_id y) < up_to (af_id x))%nat.
Proof.
  unfold up_to. intros Hx Hlt. clear distinct_ids distinct_keys. subst logic. revert Hx.
  assert (Hle : forall l, (length (filter (fun z => (af_id z <= af_id y)%Z) l) <= length (filter (fun z => (af_id z <= af_id x)%Z) l))%nat).
  { induction l as [|z l IH]; [done|]. rewrite !filter_cons. repeat case_decide; simpl; lia. }
  induction T as [|z l IH]; intros Hx; [set_solver|]. rewrite !filter_cons. apply elem_of_cons in Hx as [<-|Hx].
  - rewrite decide_False by lia. rewrite decide_True by lia. simpl. specialize (Hle l). lia.
  - specialize (IH Hx). repeat case_decide; simpl; lia.
Qed.

Hypothesis callers_first : forall x p, x ∈ T -> af_parentsId x = [p] -> p < af_id x.

Lemma stack_of_path fuel x f l :
  x ∈ T -> (up_to (af_id x) <= fuel)%nat -> getNodeById logic (af_id x) = Some f ->
  exists p, call_path T (af_id x) p /\
    getFunctionStack infos logic fuel f l = Some (l ++ ((fun y => zlookup (af_functionIndex y) infos) <$> p)).
Proof.
  revert x f l. induction fuel as [|fuel IH]; intros x f l Hx Hfuel Hget.
  { exfalso. assert (Hin : x ∈ filter (fun y => af_id y <= af_id x) T) by (apply list_elem_of_filter; split; [lia|done]).
    unfold up_to in Hfuel. destruct (filter _ T); [set_solver|simpl in Hfuel; lia]. }
  destruct (unmerged_entry x Hx) as (f' & Hf' & Hp & Hi). assert (f' = f) as -> by congruence.
  assert (Hpar : exists p0, af_parentsId x = [p0]).
  { unfold T, loadTraceTree in Hx. apply list_elem_of_fmap in Hx as (r & -> & _). by eexists. }
  destruct Hpar as [p0 Hp0]. cbn [getFunctionStack]. rewrite Hp, Hp0, Hi. cbn [fold_left mbind option_bind].
  destruct (decide (p0 ∈ af_id <$> T)) as [(y & -> & Hy)%list_elem_of_fmap|Hno].
  - destruct (unmerged_entry y Hy) as (fy & Hfy & _). rewrite Hfy.
    pose proof (callers_first x (af_id y) Hx Hp0) as Hlt. pose proof (up_to_lt x y Hx Hlt).
    destruct (IH y fy (l ++ [zlookup (af_functionIndex x) infos]) Hy ltac:(lia) Hfy) as (p & Hpath & Es).
    exists (x :: p). split; [by eapply call_step|]. rewrite Es, fmap_cons, <- app_assoc. done.
  - rewrite (no_entry fileId strings rows) by (exact Hno || exact distinct_ids). exists [x]. split; [|done]. apply call_root; [done|].
    intros y Hy E. apply Hno. rewrite Hp0 in E. injection E as ->. by apply list_elem_of_fmap_2.
Qed.
End Unmerged.

(** The stack of an allocation is the path of its calls.  When callers have
    smaller ids and no two trace nodes are of the same function, [getNodeStack]
    returns, after at most one call per trace node, the functions on the path from
    the node to its root. *)
Theorem node_stack_is_path fileId strings rows infos x :
  let T := loadTraceTree fileId strings rows in
  NoDup (af_id <$> T) -> NoDup (function_key <$> T) ->
  (forall x p, x ∈ T -> af_parentsId x = [p] -> p < af_id x) -> x ∈ T ->
  exists p, call_path T (af_id x) p /\
    getNodeStack infos (setBottomUpTree T) (length T) (af_id x)
    = Some ((fun y => zlookup (af_functionIndex y) infos) <$> p).
Proof.
  intros T HN HK Hlt Hx. destruct (unmerged_entry fileId strings rows HN HK x Hx) as (f & Hf & _).
  destruct (stack_of_path fileId strings rows infos HN HK Hlt (length T) x f [] Hx) as (p & Hp & E);
    [apply length_filter|exact Hf|].
  exists p. split; [exact Hp|]. unfold getNodeStack. subst T. by rewrite Hf.
Qed.

Definition call_rows : list trace_row :=
  [call_row 1 0 (-1) 0; call_row 2 1 1 16; call_row 3 2 2 32; call_row 4 3 3 64].

Lemma node_stack_is_path_witness :
  let T := loadTraceTree 1 call_strings call_rows in
  exists p, call_path T 4 p /\
    getNodeStack [] (setBottomUpTree T) 4 4 = Some ((fun y => zlookup (af_functionIndex y) []) <$> p).
Proof.
  refine (node_stack_is_path 1 call_strings call_rows [] (loadTraceTree_row 1 call_strings (call_row 4 3 3 64)) _ _ _ _).
  - apply (bool_decide_unpack _). vm_compute. exact I.
  - apply (bool_decide_unpack _). vm_compute. exact I.
  - intros x p Hx. apply list_elem_of_In in Hx. cbn [loadTraceTree call_rows fmap list_fmap In] in Hx.
    destruct Hx as [<-|[<-|[<-|[<-|[]]]]]; intros [= <-]; simpl; lia.
  - right; right; right; left.
Defined.
