(* ===== verification/HeapItems.v ===== *)
(** * Expanding an item of the heap views

    [HeapLoader.getNextNode], [findParentsFunc], [combineRetains] and
    [getRetains] ([js-heap/logic/HeapLoader.ts]).  The reference from an item to
    the item it was expanded from is a copy of that item: of the ancestors only
    ids and parents are read, which do not change. *)

From S2P Require Import Prelude JsRuntime HeapModel HeapRetainers HeapFlags HeapClasses.

(** ** Assignments to items *)

Definition set_hasNext (b : bool) (i : ConstructorItem) : ConstructorItem :=
  let d := ci i in
  with_data {| ci_fileId := ci_fileId d; ci_nodeName := ci_nodeName d; ci_edgeName := ci_edgeName d;
    ci_childCount := ci_childCount d; ci_distance := ci_distance d; ci_shallowSize := ci_shallowSize d;
    ci_retainedSize := ci_retainedSize d; ci_hasNext := b; ci_edgeCount := ci_edgeCount d;
    ci_edgeType := ci_edgeType d; ci_type := ci_type d; ci_nodeType := ci_nodeType d; ci_id := ci_id d;
    ci_index := ci_index d; ci_traceNodeId := ci_traceNodeId d |} i.

Definition with_children (l : list ConstructorItem) (i : ConstructorItem) : ConstructorItem :=
  {| ci := ci i; ci_parent := ci_parent i; ci_children := l; ci_retains := ci_retains i;
     ci_classChildren := ci_classChildren i; cc := cc i |}.

Definition with_parent (p : option ConstructorItem) (i : ConstructorItem) : ConstructorItem :=
  {| ci := ci i; ci_parent := p; ci_children := ci_children i; ci_retains := ci_retains i;
     ci_classChildren := ci_classChildren i; cc := cc i |}.

(** ** [findParentsFunc] *)

(** An item whose id is among the ids is not expanded again. *)
Definition close_repeated (ids : list Z) (childNode : ConstructorItem) : ConstructorItem :=
  if bool_decide (ci_id (ci childNode) ∈ ids) then set_hasNext false childNode else childNode.

Fixpoint findParents (clickNode : ConstructorItem) (parents : list Z) (childNodes : list ConstructorItem) :
    list ConstructorItem :=
  match ci_parent clickNode with
  | None => childNodes
  | Some parent =>
      let parents := parents ++ [ci_id (ci clickNode)] in
      findParents parent parents (close_repeated parents <$> childNodes)
  end.

Definition findParentsFunc (childNodes : list ConstructorItem) (clickNode : ConstructorItem) :
    list ConstructorItem := findParents clickNode [] childNodes.

Section Items.
Context (edges : list HeapEdge) (nodeMap : gmap Z nat) (nodes : list HeapNode) (rootId : Z).

(** ** [getNextNode] *)

Definition field_item (item : ConstructorItem) (edge : HeapEdge) (childNode : HeapNode) : ConstructorItem :=
  let d := HeapNodeToConstructorItem childNode in
  with_parent (Some item) (new_item
    {| ci_fileId := ci_fileId d; ci_nodeName := ci_nodeName d; ci_edgeName := he_nameOrIndex edge;
       ci_childCount := hn_edgeCount childNode; ci_distance := ci_distance d;
       ci_shallowSize := ci_shallowSize d; ci_retainedSize := ci_retainedSize d;
       ci_hasNext := hn_edgeCount childNode >? 0; ci_edgeCount := hn_edgeCount childNode;
       ci_edgeType := ci_edgeType d; ci_type := Some FiledType; ci_nodeType := ci_nodeType d;
       ci_id := ci_id d; ci_index := ci_index d; ci_traceNodeId := hn_traceNodeId childNode |}).

Definition next_items (item : ConstructorItem) (node : HeapNode) : list ConstructorItem :=
  omap (fun e => edge ← edges !! e;
                 c ← get_node nodeMap nodes (he_toNodeId edge);
                 Some (field_item item edge c.2)) (hn_edges node).

Definition not_root (i : ConstructorItem) : bool := negb (ci_id (ci i) =? rootId).

(** The children and the item that remembers them.  An index that is no node and a
    node without children raise a TypeError. *)
Definition getNextNode (item : ConstructorItem) : res (list ConstructorItem * ConstructorItem) :=
  match ci_children item with
  | _ :: _ => Ok (ci_children item, item)
  | [] =>
      let* node := of_option TypeError (zlookup (ci_index (ci item)) nodes) in
      let childNodes := next_items item node in
      match childNodes with
      | [] => Throw TypeError
      | _ =>
          let childNodes := if bool_decide (ci_type (ci item) = Some FiledType)
                            then findParentsFunc childNodes item else childNodes in
          let filterChildNodes := List.filter not_root childNodes in
          Ok (filterChildNodes, with_children filterChildNodes item)
      end
  end.

(** ** [getRetains] *)

Definition retains_item (item : ConstructorItem) (retainEdge : HeapEdge) (retainsNode : HeapNode) :
    ConstructorItem :=
  let d := HeapNodeToConstructorItem retainsNode in
  with_parent (if bool_decide (ci_type (ci item) = Some RetainersType) then Some item else None) (new_item
    {| ci_fileId := ci_fileId d; ci_nodeName := ci_nodeName d; ci_edgeName := he_nameOrIndex retainEdge;
       ci_childCount := zlen (hn_retainsNodeIdx retainsNode); ci_distance := ci_distance d;
       ci_shallowSize := ci_shallowSize d; ci_retainedSize := ci_retainedSize d;
       ci_hasNext := zlen (hn_retainsNodeIdx retainsNode) >? 0; ci_edgeCount := ci_edgeCount d;
       ci_edgeType := Some (he_type retainEdge); ci_type := Some RetainersType;
       ci_nodeType := ci_nodeType d; ci_id := ci_id d; ci_index := ci_index d;
       ci_traceNodeId := ci_traceNodeId d |}).

(** One round of [combineRetains]: the [i]-th retainer. *)
Definition combine_retain (item : ConstructorItem) (retains : res (list ConstructorItem)) (r : Z * Z) :
    res (list ConstructorItem) :=
  let* retains := retains in
  let retainsNode := zlookup r.1 nodes in
  let* retainEdge := of_option TypeError (zlookup r.2 edges) in
  if edge_is EDGE_WEAK retainEdge then Ok retains
  else
    let* retainsNode := of_option TypeError retainsNode in
    Ok (retains ++ [retains_item item retainEdge retainsNode]).

Definition combineRetains (node : HeapNode) (item : ConstructorItem) : res (list ConstructorItem) :=
  fold_left (combine_retain item) (zip (hn_retainsNodeIdx node) (hn_retainsEdgeIdx node)) (Ok []).

(** An item whose only retainer is the root is not expanded. *)
Definition close_root_retained (childNode : ConstructorItem) : res ConstructorItem :=
  match zlookup (ci_index (ci childNode)) nodes with
  | None => Ok childNode
  | Some node =>
      if negb (zlen (hn_retainsEdgeIdx node) =? zlen (hn_retainsNodeIdx node)) then Ok childNode
      else match hn_retainsNodeIdx node with
           | [r] => let* retainsNode := of_option TypeError (zlookup r nodes) in
                    Ok (if hn_id retainsNode =? rootId then set_hasNext false childNode else childNode)
           | _ => Ok childNode
           end
  end.

Definition map_res {A B} (f : A -> res B) (l : list A) : res (list B) :=
  fold_left (fun acc x => let* acc := acc in let* y := f x in Ok (acc ++ [y])) l (Ok []).

Definition getRetains (item : ConstructorItem) : res (list ConstructorItem) :=
  match ci_retains item with
  | _ :: _ => Ok (ci_retains item)
  | [] =>
      if bool_decide (ci_type (ci item) = Some ClassType) then Ok []
      else
        let* retains :=
          match zlookup (ci_index (ci item)) nodes with
          | Some node => if zlen (hn_retainsEdgeIdx node) =? zlen (hn_retainsNodeIdx node)
                         then combineRetains node item else Ok []
          | None => Ok []
          end in
        let* retains := map_res close_root_retained retains in
        let retains :=
          match retains with
          | first :: _ =>
              match ci_parent first with
              | Some clickNode => if bool_decide (ci_type (ci clickNode) = Some RetainersType)
                                  then findParentsFunc retains clickNode else retains
              | None => retains
              end
          | [] => retains
          end in
        Ok (List.filter not_root (sort_by (fun i => ci_distance (ci i)) retains))
  end.
End Items.

(** ** Which items stay closed *)

(** The ids on the way from an item up to, and without, the item that was
    expanded first. *)
Fixpoint expanded_ids (i : ConstructorItem) : list Z :=
  match ci_parent i with
  | None => []
  | Some parent => ci_id (ci i) :: expanded_ids parent
  end.

Lemma close_repeated_fields ids c :
  ci_id (ci (close_repeated ids c)) = ci_id (ci c) /\ ci_parent (close_repeated ids c) = ci_parent c /\
  ci_children (close_repeated ids c) = ci_children c /\ ci_type (ci (close_repeated ids c)) = ci_type (ci c) /\
  ci_index (ci (close_repeated ids c)) = ci_index (ci c) /\
  ci_distance (ci (close_repeated ids c)) = ci_distance (ci c) /\
  (ci_hasNext (ci (close_repeated ids c)) = true <-> ci_hasNext (ci c) = true /\ ci_id (ci c) ∉ ids).
Proof. unfold close_repeated. case_bool_decide; destruct c as [[] ? ? ? ? ?]; simpl; naive_solver. Qed.

Lemma close_repeated_app ids ids' c :
  close_repeated (ids ++ ids') (close_repeated ids c) = close_repeated (ids ++ ids') c.
Proof.
  unfold close_repeated. repeat case_bool_decide; try done; destruct c as [[] ? ? ? ? ?]; simpl in *; set_solver.
Qed.

Lemma findParents_close clickNode ids l :
  findParents clickNode ids (close_repeated ids <$> l) = close_repeated (ids ++ expanded_ids clickNode) <$> l.
Proof.
  revert clickNode ids l. fix IH 1. intros clickNode ids l. destruct clickNode as [d [p|] ch rt cs cmp]; cbn [findParents expanded_ids ci_parent ci].
  - rewrite <- list_fmap_compose.
    rewrite (list_fmap_ext _ (close_repeated (ids ++ [ci_id d])) l) by (intros; simpl; apply close_repeated_app).
    rewrite IH. by rewrite <- app_assoc.
  - by rewrite app_nil_r.
Qed.

Lemma close_repeated_nil (l : list ConstructorItem) : close_repeated [] <$> l = l.
Proof.
  rewrite <- (list_fmap_id l) at 2. apply list_fmap_ext. intros i c _. unfold close_repeated.
  rewrite bool_decide_false; [done|apply not_elem_of_nil].
Qed.

Lemma findParentsFunc_spec l clickNode :
  findParentsFunc l clickNode = close_repeated (expanded_ids clickNode) <$> l.
Proof.
  unfold findParentsFunc. pose proof (findParents_close clickNode [] l) as E. rewrite app_nil_l in E. rewrite <- E. f_equal.
  symmetry. apply close_repeated_nil.
Qed.

(** ** Expanding fields *)

Section Expansion.
Context (edges : list HeapEdge) (nodeMap : gmap Z nat) (nodes : list HeapNode) (rootId : Z).

Lemma next_items_elem item node c :
  c ∈ next_items edges nodeMap nodes item node ->
  exists edge j n, edge ∈ edges /\ nodes !! j = Some n /\ nodeMap !! he_toNodeId edge = Some j /\
    c = field_item item edge n.
Proof.
  intros (e & He & Hc)%list_elem_of_omap. destruct (edges !! e) as [edge|] eqn:Hedge; [|done]. simpl in Hc.
  unfold get_node in Hc. destruct (nodeMap !! he_toNodeId edge) as [j|] eqn:Hj; [|done]. simpl in Hc.
  destruct (nodes !! j) as [n|] eqn:Hn; [|done]. injection Hc as <-.
  exists edge, j, n. split_and!; try done. by eapply list_elem_of_lookup_2.
Qed.

(** A listed child: it was made from a node, knows the item it came from, and may
    be expanded only if it is not on the way to it. *)
Lemma getNextNode_child item cs item' c :
  ci_children item = [] -> getNextNode edges nodeMap nodes rootId item = Ok (cs, item') -> c ∈ cs ->
  (exists j n, nodes !! j = Some n /\ ci_id (ci c) = hn_id n /\
     (ci_hasNext (ci c) = true -> 0 < hn_edgeCount n)) /\
  ci_id (ci c) <> rootId /\ ci_parent c = Some item /\ ci_children c = [] /\ ci_type (ci c) = Some FiledType /\
  (ci_type (ci item) = Some FiledType -> ci_hasNext (ci c) = true -> ci_id (ci c) ∉ expanded_ids item).
Proof.
  intros Hch Hget Hc. unfold getNextNode in Hget. rewrite Hch in Hget.
  destruct (zlookup (ci_index (ci item)) nodes) as [node|]; [|done]. cbn [of_option res_bind] in Hget.
  destruct (next_items edges nodeMap nodes item node) as [|c0 l] eqn:Hl; [done|]. rewrite <- Hl in Hget.
  injection Hget as <- _. apply list_elem_of_In, filter_In in Hc as [Hc Hr].
  apply list_elem_of_In in Hc. unfold not_root in Hr. apply negb_true_iff, Z.eqb_neq in Hr.
  assert (Hplain : forall x, x ∈ next_items edges nodeMap nodes item node ->
            (exists j n, nodes !! j = Some n /\ ci_id (ci x) = hn_id n /\ (ci_hasNext (ci x) = true -> 0 < hn_edgeCount n)) /\
            ci_parent x = Some item /\ ci_children x = [] /\ ci_type (ci x) = Some FiledType).
  { intros x (edge & j & n & _ & Hn & _ & ->)%next_items_elem. split_and!; try done.
    exists j, n. split_and!; [done|done|]. cbn. intros H%Z.gtb_lt. lia. }
  case_bool_decide as Ht.
  - rewrite findParentsFunc_spec in Hc. apply list_elem_of_fmap in Hc as (x & -> & Hx).
    destruct (Hplain x Hx) as ((j & n & Hn & Hid & Hcnt) & Hp & Hcs & Hty).
    destruct (close_repeated_fields (expanded_ids item) x) as (E1 & E2 & E3 & E4 & _ & _ & E7).
    rewrite E1, E2, E3, E4. rewrite E1 in Hr. split_and!; try done.
    + exists j, n. split_and!; [done|done|]. intros H%E7. apply Hcnt, H.
    + intros _ H%E7. apply H.
  - destruct (Hplain c Hc) as (H1 & H2 & H3 & H4). split_and!; try done.
Qed.

(** A way of expanding items, last one first: it starts with an item of the
    summary, and every further item is a child, listed as expandable, of the one
    before. *)
Inductive expansion : list ConstructorItem -> Prop :=
  | expansion_start item : ci_parent item = None -> ci_children item = [] -> expansion [item]
  | expansion_next c item l cs item' :
      expansion (item :: l) -> getNextNode edges nodeMap nodes rootId item = Ok (cs, item') -> c ∈ cs ->
      ci_hasNext (ci c) = true -> expansion (c :: item :: l).

Lemma expansion_inv l : expansion l ->
  exists item rest, l = item :: rest /\ ci_children item = [] /\ length (expanded_ids item) = length rest /\
    NoDup (expanded_ids item) /\ expanded_ids item ⊆ hn_id <$> nodes /\
    (rest <> [] -> ci_type (ci item) = Some FiledType).
Proof.
  induction 1 as [item Hp Hc|c item l cs item' _ IH Hget Hin Hnext].
  - exists item, []. destruct item as [d p ch rt cs0 cmp]. simpl in *. subst p.
    split_and!; try done; [constructor|set_solver].
  - destruct IH as (item0 & rest & [= <- <-] & Hch & Hlen & HN & Hsub & Hty).
    destruct (getNextNode_child item cs item' c Hch Hget Hin) as ((j & n & Hn & Hid & _) & _ & Hp & Hcc & Htc & Hrep).
    exists c, (item :: l).
    assert (E : expanded_ids c = ci_id (ci c) :: expanded_ids item) by (destruct c; simpl in *; by subst).
    rewrite E. split_and!; [done|done|simpl; lia| | |done].
    + constructor; [|done]. destruct l as [|i0 l]; [destruct (expanded_ids item); [set_solver|done]|].
      apply Hrep; [by apply Hty|done].
    + intros x [->|Hx]%elem_of_cons; [|by apply Hsub]. rewrite Hid. apply list_elem_of_fmap_2. by eapply list_elem_of_lookup_2.
Qed.
End Expansion.

(** The tree of fields is finite.  However items are expanded, a chain of
    items that are each an expandable child of the one before has at most one
    item per node of the snapshot after the item of the summary it starts with,
    although the objects may refer to each other in cycles. *)
Theorem expansion_bounded edges nodeMap nodes rootId l :
  expansion edges nodeMap nodes rootId l -> (length l <= S (length nodes))%nat.
Proof.
  intros H. destruct (expansion_inv _ _ _ _ _ H) as (item & rest & -> & _ & Hlen & HN & Hsub & _).
  pose proof (submseteq_length _ _ (NoDup_submseteq _ _ HN Hsub)) as Hle. rewrite length_fmap in Hle. simpl. lia.
Qed.

(** Two objects that refer to each other, and the root. *)
Definition cycle_node (index id : Z) (es : list nat) : HeapNode :=
  with_edges es (new_HeapNode 1 index 3 (Some (js "Node")) id 16 (zlen es) 0 0 0).

Definition cycle_nodes : list HeapNode := [cycle_node 0 1 [0%nat]; cycle_node 1 3 [1%nat]; cycle_node 2 5 [2%nat]].

Definition cycle_edge (index from to : Z) : HeapEdge :=
  {| he_edgeIndex := index; he_type := 2; he_nameOrIndex := js "next"; he_nodeId := 0; he_fromNodeId := from; he_toNodeId := to |}.

Definition cycle_edges : list HeapEdge := [cycle_edge 0 1 3; cycle_edge 1 3 5; cycle_edge 2 5 3].

Definition cycle_item : ConstructorItem := new_item (next_instance 1 (cycle_node 1 3 [1%nat])).

Abbreviation cycle_next := (getNextNode cycle_edges (node_index_map cycle_nodes) cycle_nodes 1).

Lemma expansion_bounded_witness :
  exists c1 c2, expansion cycle_edges (node_index_map cycle_nodes) cycle_nodes 1 [c2; c1; cycle_item] /\
    ci_id (ci c1) = 5 /\ ci_id (ci c2) = 3 /\ (length [c2; c1; cycle_item] <= 4)%nat.
Proof.
  destruct (cycle_next cycle_item) as [[l1 i1]|] eqn:E1; [|vm_compute in E1; discriminate].
  destruct l1 as [|c1 [|? ?]]; [vm_compute in E1; discriminate| |vm_compute in E1; discriminate].
  destruct (cycle_next c1) as [[l2 i2]|] eqn:E2; [|vm_compute in E1; injection E1 as <- <-; vm_compute in E2; discriminate].
  destruct l2 as [|c2 [|? ?]]; [vm_compute in E1; injection E1 as <- <-; vm_compute in E2; discriminate| |vm_compute in E1; injection E1 as <- <-; vm_compute in E2; discriminate].
  exists c1, c2.
  assert (H : ci_hasNext (ci c1) = true /\ ci_hasNext (ci c2) = true /\ ci_id (ci c1) = 5 /\ ci_id (ci c2) = 3).
  { vm_compute in E1. injection E1 as <- <-. vm_compute in E2. injection E2 as <- <-. repeat split. }
  destruct H as (H1 & H2 & H3 & H4).
  assert (Hexp : expansion cycle_edges (node_index_map cycle_nodes) cycle_nodes 1 [c2; c1; cycle_item]).
  { eapply expansion_next; [|exact E2|left|exact H2]. eapply expansion_next; [|exact E1|left|exact H1].
    apply expansion_start; reflexivity. }
  split; [exact Hexp|]. split; [exact H3|]. split; [exact H4|].
  exact (expansion_bounded _ _ cycle_nodes _ _ Hexp).
Defined.

(** ** The retainers of an item *)

Definition refs_of (n : HeapNode) : list (Z * Z) := zip (hn_retainsNodeIdx n) (hn_retainsEdgeIdx n).

Section RetainsView.
Context (edges : list HeapEdge) (nodes : list HeapNode) (rootId : Z).

(** Nodes are at their indices and their references exist and are not from the root. *)
Record refs_ok : Prop := {
  ro_index : forall i n, nodes !! i = Some n -> hn_nodeIndex n = Z.of_nat i;
  ro_length : forall i n, nodes !! i = Some n -> length (hn_retainsEdgeIdx n) = length (hn_retainsNodeIdx n);
  ro_refs : forall i n r, nodes !! i = Some n -> r ∈ refs_of n ->
    exists u e, zlookup r.1 nodes = Some u /\ zlookup r.2 edges = Some e /\ hn_id u <> rootId;
}.

Definition strong_ref (r : Z * Z) : Prop := from_option (fun e => edge_is EDGE_WEAK e = false) False (zlookup r.2 edges).
#[export] Instance strong_ref_dec r : Decision (strong_ref r).
Proof. unfold strong_ref. destruct (zlookup r.2 edges); simpl; apply _. Defined.

Definition listed (item : ConstructorItem) (refs : list (Z * Z)) : list ConstructorItem :=
  omap (fun r => e ← zlookup r.2 edges; n ← zlookup r.1 nodes;
                 if edge_is EDGE_WEAK e then None else Some (retains_item item e n)) refs.

Hypothesis OK : refs_ok.

Lemma zlookup_nat {A} (l : list A) z x : zlookup z l = Some x -> exists i, z = Z.of_nat i /\ l !! i = Some x.
Proof. unfold zlookup. zcase; [done|]. intros Hx. exists (Z.to_nat z). split; [lia|done]. Qed.

Lemma combineRetains_listed item i n :
  nodes !! i = Some n -> combineRetains edges nodes n item = Ok (listed item (refs_of n)).
Proof.
  intros Hn. unfold combineRetains, listed. fold (refs_of n). pose proof (fun r => ro_refs OK i n r Hn) as Hr.
  induction (refs_of n) as [|r refs IH] using rev_ind; [done|]. rewrite fold_left_app, omap_app, IH by set_solver.
  destruct (Hr r ltac:(set_solver)) as (u & e & Hu & He & _).
  cbn [fold_left combine_retain res_bind omap list_omap]. rewrite Hu, He. cbn [of_option res_bind mbind option_bind].
  destruct (edge_is EDGE_WEAK e); [by rewrite app_nil_r|done].
Qed.

Lemma listed_elem item i n c :
  nodes !! i = Some n -> c ∈ listed item (refs_of n) ->
  exists u nu e, nodes !! u = Some nu /\ c = retains_item item e nu /\ hn_id nu <> rootId.
Proof.
  intros Hn (r & Hr & Hc)%list_elem_of_omap. destruct (ro_refs OK _ _ _ Hn Hr) as (nu & e & Hu & He & Hroot).
  rewrite Hu, He in Hc. cbn [mbind option_bind] in Hc. destruct (edge_is EDGE_WEAK e); [done|]. injection Hc as <-.
  destruct (zlookup_nat _ _ _ Hu) as (u & _ & Hu'). by exists u, nu, e.
Qed.

Lemma listed_indices item i n :
  nodes !! i = Some n -> (fun c => ci_index (ci c)) <$> listed item (refs_of n) = fst <$> filter strong_ref (refs_of n).
Proof.
  intros Hn. unfold listed. pose proof (fun r => ro_refs OK i n r Hn) as Hr.
  induction (refs_of n) as [|r refs IH]; [done|]. cbn [omap list_omap]. rewrite filter_cons.
  destruct (Hr r ltac:(set_solver)) as (u & e & Hu & He & _). rewrite Hu, He. cbn [mbind option_bind].
  destruct (edge_is EDGE_WEAK e) eqn:Ew.
  - rewrite decide_False by (unfold strong_ref; rewrite He; simpl; congruence). apply IH. set_solver.
  - rewrite decide_True by (unfold strong_ref; by rewrite He). rewrite !fmap_cons, IH by set_solver. f_equal. cbn.
    destruct (zlookup_nat _ _ _ Hu) as (j & -> & Hj). by apply (ro_index OK).
Qed.

(** No listed item is retained by the root alone. *)
Lemma close_root_retained_id item u nu e :
  nodes !! u = Some nu -> close_root_retained nodes rootId (retains_item item e nu) = Ok (retains_item item e nu).
Proof.
  intros Hu. unfold close_root_retained. cbn [ci ci_index retains_item with_parent new_item HeapNodeToConstructorItem].
  rewrite (ro_index OK _ _ Hu). unfold zlookup at 1. zcase; [lia|]. rewrite Nat2Z.id, Hu.
  pose proof (ro_length OK _ _ Hu) as Hlen. unfold zlen. rewrite Hlen, Z.eqb_refl. cbn [negb].
  destruct (hn_retainsNodeIdx nu) as [|r [|? ?]] eqn:Er; try done.
  destruct (hn_retainsEdgeIdx nu) as [|re [|? ?]] eqn:Ee; try done.
  destruct (ro_refs OK u nu (r, re) Hu) as (w & e' & Hw & _ & Hroot).
  { unfold refs_of. rewrite Er, Ee. set_solver. }
  cbn [fst] in Hw. rewrite Hw. cbn [of_option res_bind]. destruct (Z.eqb_spec (hn_id w) rootId); [done|done].
Qed.
End RetainsView.

Lemma map_res_id {A} (f : A -> res A) l : (forall x, x ∈ l -> f x = Ok x) -> map_res f l = Ok l.
Proof.
  intros H. unfold map_res. induction l as [|x l IH] using rev_ind; [done|].
  rewrite fold_left_app, IH by set_solver. cbn [fold_left res_bind]. by rewrite H by set_solver.
Qed.
Lemma list_filter_true {A} (p : A -> bool) l : (forall x, x ∈ l -> p x = true) -> List.filter p l = l.
Proof. induction l as [|x l IH]; intros H; simpl; [done|]. rewrite H by set_solver. f_equal. apply IH. set_solver. Qed.

Lemma close_ancestors item (refs : list ConstructorItem) :
  (forall c, c ∈ refs -> ci_parent c = if bool_decide (ci_type (ci item) = Some RetainersType) then Some item else None) ->
  match refs with
  | first :: _ =>
      match ci_parent first with
      | Some clickNode => if bool_decide (ci_type (ci clickNode) = Some RetainersType)
                          then findParentsFunc refs clickNode else refs
      | None => refs
      end
  | [] => refs
  end = close_repeated (if bool_decide (ci_type (ci item) = Some RetainersType) then expanded_ids item else []) <$> refs.
Proof.
  intros Hp. destruct refs as [|c refs]; [done|]. rewrite (Hp c) by set_solver. case_bool_decide as Ht.
  - by rewrite bool_decide_true, findParentsFunc_spec.
  - by rewrite close_repeated_nil.
Qed.

(** The retainers view lists the references to an object.  For an item of a
    node whose recorded references are consistent, [getRetains] returns one item
    for every reference that is not weak, by increasing distance; each is a node
    of the snapshot and may be expanded when that node has references of its own
    and is not already on the way to the item. *)
Theorem retains_view edges nodes rootId item v nd :
  refs_ok edges nodes rootId -> nodes !! v = Some nd -> ci_index (ci item) = Z.of_nat v ->
  ci_type (ci item) <> Some ClassType -> ci_retains item = [] ->
  exists l, getRetains edges nodes rootId item = Ok l /\
    (fun i => ci_index (ci i)) <$> l ≡ₚ fst <$> filter (strong_ref edges) (refs_of nd) /\
    StronglySorted (fun a b => ci_distance (ci a) <= ci_distance (ci b)) l /\
    forall i, i ∈ l -> ci_type (ci i) = Some RetainersType /\
      exists u n, nodes !! u = Some n /\ ci_index (ci i) = Z.of_nat u /\ ci_id (ci i) = hn_id n /\
        ci_distance (ci i) = hn_distance n /\
        (ci_hasNext (ci i) = true <->
         hn_retainsNodeIdx n <> [] /\ (ci_type (ci item) = Some RetainersType -> hn_id n ∉ expanded_ids item)).
Proof.
  intros OK Hv Hidx Hty Hret. unfold getRetains. rewrite Hret, bool_decide_false by done.
  rewrite Hidx. unfold zlookup. zcase; [lia|]. rewrite Nat2Z.id, Hv.
  unfold zlen at 1 2. rewrite (ro_length _ _ _ OK _ _ Hv), Z.eqb_refl.
  rewrite (combineRetains_listed _ _ _ OK item v nd Hv). cbn [res_bind].
  set (refs := listed edges nodes item (refs_of nd)).
  assert (Hmem : forall c, c ∈ refs -> exists u nu e, nodes !! u = Some nu /\ c = retains_item item e nu /\ hn_id nu <> rootId)
    by (intros c; by apply (listed_elem edges nodes rootId OK item v nd)).
  rewrite map_res_id by (intros c (u & nu & e & Hu & -> & _)%Hmem; by apply (close_root_retained_id edges nodes rootId OK item u)).
  cbn [res_bind]. rewrite (close_ancestors item refs) by (intros c (u & nu & e & _ & -> & _)%Hmem; done).
  set (ids := if bool_decide (ci_type (ci item) = Some RetainersType) then expanded_ids item else []).
  rewrite list_filter_true.
  2: { intros c Hc. rewrite sort_by_perm in Hc. apply list_elem_of_fmap in Hc as (c' & -> & Hc').
       destruct (Hmem c' Hc') as (u & nu & e & Hu & -> & Hroot). unfold not_root.
       destruct (close_repeated_fields ids (retains_item item e nu)) as (-> & _).
       apply negb_true_iff. by apply Z.eqb_neq. }
  eexists. split; [reflexivity|]. split_and!; [|apply sort_by_sorted|].
  - etrans; [apply fmap_Permutation, sort_by_perm|]. rewrite <- list_fmap_compose.
    rewrite <- (listed_indices edges nodes rootId OK item v nd Hv). fold refs. rewrite (list_fmap_ext _ (fun c => ci_index (ci c)) refs); [done|].
    intros i c _. simpl. apply close_repeated_fields.
  - intros c Hc. rewrite sort_by_perm in Hc. apply list_elem_of_fmap in Hc as (c' & -> & Hc').
    destruct (Hmem c' Hc') as (u & nu & e & Hu & -> & Hroot).
    destruct (close_repeated_fields ids (retains_item item e nu)) as (E1 & _ & _ & E4 & E5 & E6 & E7).
    rewrite E4. split; [done|]. exists u, nu. rewrite E1, E5, E6, E7. cbn [ci ci_index ci_id ci_distance ci_hasNext retains_item with_parent new_item HeapNodeToConstructorItem].
    split_and!; [done|by eapply ro_index|done|done|]. rewrite Z.gtb_lt. subst ids.
    assert (Hne : 0 < zlen (hn_retainsNodeIdx nu) <-> hn_retainsNodeIdx nu <> [])
      by (destruct (hn_retainsNodeIdx nu); [done|rewrite zlen_cons; pose proof (zlen_nonneg l); split; [done|lia]]).
    rewrite Hne. case_bool_decide as Ht; [tauto|]. split; [intros [? _]; split; [done|tauto]|].
    intros [? _]. split; [done|apply not_elem_of_nil].
Qed.

Definition cycle_retained : list HeapNode :=
  [cycle_node 0 1 [0%nat]; with_retains [2] [2] (cycle_node 1 3 [1%nat]); with_retains [1] [1] (cycle_node 2 5 [2%nat])].

Lemma cycle_refs_ok : refs_ok cycle_edges cycle_retained 1.
Proof.
  split.
  - intros i n H. do 3 (destruct i as [|i]; [by injection H as <-|]). done.
  - intros i n H. do 3 (destruct i as [|i]; [by injection H as <-|]). done.
  - intros i n r H Hr. destruct i as [|i]; [injection H as <-; vm_compute in Hr; by apply not_elem_of_nil in Hr|].
    do 2 (destruct i as [|i]; [injection H as <-; vm_compute in Hr; apply list_elem_of_singleton in Hr as ->;
      eexists _, _; split_and!; [reflexivity|reflexivity|simpl; lia]|]). done.
Qed.

Lemma retains_view_witness :
  exists l, getRetains cycle_edges cycle_retained 1 cycle_item = Ok l /\ (fun i => ci_index (ci i)) <$> l ≡ₚ [2].
Proof.
  destruct (retains_view cycle_edges cycle_retained 1 cycle_item 1 (with_retains [2] [2] (cycle_node 1 3 [1%nat])))
    as (l & E & Hp & _).
  - exact cycle_refs_ok.
  - reflexivity.
  - reflexivity.
  - vm_compute. discriminate.
  - reflexivity.
  - exists l. split; [exact E|exact Hp].
Defined.
