(* ===== verification/HeapDatabase.v ===== *)
(** * Reading heap snapshots from the database

    [HeapSnapshotStruct], [FileStruct] ([js-heap/model/DatabaseStruct.ts]),
    [FileInfo] ([js-heap/model/UiStruct.ts]) and the class [LoadDatabase]
    ([js-heap/LoadDatabase.ts]).  The queries run outside the program: a
    database is what they return. *)

From S2P Require Import Prelude JsRuntime HeapModel HeapRetainers HeapAllocation.

Inductive FileType := SNAPSHOT | TIMELINE.

Record FileInfo := {
  fi_id : Z;
  fi_name : jsstring;
  fi_type : FileType;
  fi_startTs : Z;
  fi_endTs : Z;
  fi_pid : Z;
  fi_size : Z;
}.

(** Counts are [None] until a row of the information table sets them. *)
Record HeapSnapshotStruct := {
  ss_nodeCount : option Z;
  ss_edgeCount : option Z;
  ss_functionCount : option Z;
  ss_nodeMap : list (Z * HeapNode);
  ss_edges : list HeapEdge;
  ss_functionInfos : list HeapTraceFunctionInfo;
  ss_traceNodes : list AllocationFunction;
  ss_samples : list HeapSample;
  ss_strings : list jsstring;
  ss_rootNodeId : Z;
}.

Definition new_HeapSnapshotStruct : HeapSnapshotStruct :=
  {| ss_nodeCount := None; ss_edgeCount := None; ss_functionCount := None; ss_nodeMap := []; ss_edges := [];
     ss_functionInfos := []; ss_traceNodes := []; ss_samples := []; ss_strings := []; ss_rootNodeId := -1 |}.

(** [clear] empties the collections and keeps the numbers. *)
Definition HeapSnapshotStruct_clear (s : HeapSnapshotStruct) : HeapSnapshotStruct :=
  {| ss_nodeCount := ss_nodeCount s; ss_edgeCount := ss_edgeCount s; ss_functionCount := ss_functionCount s;
     ss_nodeMap := []; ss_edges := []; ss_functionInfos := []; ss_traceNodes := []; ss_samples := [];
     ss_strings := []; ss_rootNodeId := ss_rootNodeId s |}.

Record FileStruct := { fs_info : FileInfo; fs_snapshotStruct : HeapSnapshotStruct }.

(** ** The results of the queries *)

Record info_row := { ir_key : jsstring; ir_intValue : Z }.
Record file_row := { fr_id : Z; fr_name : jsstring; fr_startTs : Z; fr_endTs : Z; fr_pid : Z; fr_size : Z }.

Record database := {
  queryHeapFile : list file_row;
  queryHeapInfo : Z -> list info_row;
  queryHeapString : Z -> list jsstring;
  queryHeapNode : Z -> list node_row;
  queryHeapEdge : Z -> list HeapEdge;
  queryHeapFunction : Z -> list HeapTraceFunctionInfo;
  queryHeapTraceNode : Z -> list trace_row;
  queryHeapSample : Z -> list HeapSample;
}.

(** ** [loadInfo] *)

Definition info_step (s : HeapSnapshotStruct) (row : info_row) : HeapSnapshotStruct :=
  let set nodeCount edgeCount functionCount :=
    {| ss_nodeCount := nodeCount; ss_edgeCount := edgeCount; ss_functionCount := functionCount;
       ss_nodeMap := ss_nodeMap s; ss_edges := ss_edges s; ss_functionInfos := ss_functionInfos s;
       ss_traceNodes := ss_traceNodes s; ss_samples := ss_samples s; ss_strings := ss_strings s;
       ss_rootNodeId := ss_rootNodeId s |} in
  if includes (ir_key row) (js "types") then s
  else if bool_decide (ir_key row = js "node_count") then
    set (Some (ir_intValue row)) (ss_edgeCount s) (ss_functionCount s)
  else if bool_decide (ir_key row = js "edge_count") then
    set (ss_nodeCount s) (Some (ir_intValue row)) (ss_functionCount s)
  else if bool_decide (ir_key row = js "trace_function_count") then
    set (ss_nodeCount s) (ss_edgeCount s) (Some (ir_intValue row))
  else s.

Definition loadInfo (rows : list info_row) (s : HeapSnapshotStruct) : HeapSnapshotStruct :=
  fold_left info_step rows s.

(** [file.snapshotStruct.strings.push(data.string)] *)
Definition loadStrings (rows : list jsstring) (s : HeapSnapshotStruct) : HeapSnapshotStruct :=
  {| ss_nodeCount := ss_nodeCount s; ss_edgeCount := ss_edgeCount s; ss_functionCount := ss_functionCount s;
     ss_nodeMap := ss_nodeMap s; ss_edges := ss_edges s; ss_functionInfos := ss_functionInfos s;
     ss_traceNodes := ss_traceNodes s; ss_samples := ss_samples s; ss_strings := ss_strings s ++ rows;
     ss_rootNodeId := ss_rootNodeId s |}.

(** ** [loadFile], for one file *)

Definition load_struct (db : database) (id : Z) : HeapSnapshotStruct :=
  let s := loadStrings (queryHeapString db id) (loadInfo (queryHeapInfo db id) new_HeapSnapshotStruct) in
  let '(nodeMap, rootNodeId, _) := loadNode id (ss_strings s) (queryHeapNode db id) in
  {| ss_nodeCount := ss_nodeCount s; ss_edgeCount := ss_edgeCount s; ss_functionCount := ss_functionCount s;
     ss_nodeMap := nodeMap; ss_edges := queryHeapEdge db id; ss_functionInfos := queryHeapFunction db id;
     ss_traceNodes := loadTraceTree id (ss_strings s) (queryHeapTraceNode db id);
     ss_samples := queryHeapSample db id; ss_strings := ss_strings s; ss_rootNodeId := rootNodeId |}.

Definition load_one (db : database) (row : file_row) : FileStruct :=
  {| fs_info := {| fi_id := fr_id row; fi_name := fr_name row;
                   fi_type := if startsWith (fr_name row) (js "Snapshot") then SNAPSHOT else TIMELINE;
                   fi_startTs := fr_startTs row; fi_endTs := fr_endTs row; fi_pid := fr_pid row;
                   fi_size := fr_size row |};
     fs_snapshotStruct := load_struct db (fr_id row) |}.

Definition loadFile (db : database) : list FileStruct := load_one db <$> queryHeapFile db.

(** ** What is read *)

Definition info_value (key : jsstring) (rows : list info_row) : option Z :=
  ir_intValue <$> last (filter (fun r => ir_key r = key) rows).

(** The counts are those of the last rows with their keys. *)
Lemma loadInfo_counts rows s :
  let s' := loadInfo rows s in
  ss_nodeCount s' = match info_value (js "node_count") rows with Some v => Some v | None => ss_nodeCount s end /\
  ss_edgeCount s' = match info_value (js "edge_count") rows with Some v => Some v | None => ss_edgeCount s end /\
  ss_nodeMap s' = ss_nodeMap s /\ ss_strings s' = ss_strings s.
Proof.
  cbn zeta. unfold loadInfo, info_value. induction rows as [|r rows IH] using rev_ind; [done|].
  rewrite fold_left_app, !filter_app, !filter_cons, !filter_nil. cbn [fold_left].
  destruct IH as (H1 & H2 & H3 & H4). set (s1 := fold_left info_step rows s) in *. unfold info_step.
  destruct (includes (ir_key r) (js "types")) eqn:Hinc.
  - rewrite !decide_False by (intros E; rewrite E in Hinc; vm_compute in Hinc; discriminate). by rewrite !app_nil_r.
  - repeat case_bool_decide; repeat case_decide; try done;
      try (exfalso; match goal with H1 : ir_key r = ?a, H2 : ir_key r = ?b |- _ =>
             rewrite H1 in H2; vm_compute in H2; discriminate end);
      rewrite ?app_nil_r, ?last_snoc; split_and!; done.
Qed.
