(* ===== verification/HeapLoader.v ===== *)
(** * Building a heap loader

    The constructor of [HeapLoader], its [preprocess] and [clear]
    ([js-heap/logic/HeapLoader.ts]): the passes of the other files in the order
    the code runs them. *)

From S2P Require Import Prelude JsRuntime HeapModel HeapRetainers HeapFlags HeapDom HeapDistance.
From S2P Require Import HeapDominators HeapOrder HeapClasses HeapSamples HeapAllocation HeapItems HeapDatabase.

Record HeapLoader := {
  hl_view : class_loader;
  hl_nodeMap : gmap Z nat;
  hl_edges : list HeapEdge;
  hl_nodeCount : Z;
  hl_edgeCount : Z;
  hl_firstRetainerIndex : list Z;
  hl_retainingNodes : list Z;
  hl_retainingEdges : list Z;
  hl_dominatorTree : list Z;
  hl_allocationLogic : AllocationLogic;
  hl_functionInfos : list HeapTraceFunctionInfo;
  hl_samples : list HeapSample;
}.

Definition hl_nodes (l : HeapLoader) : list HeapNode := cl_nodes (hl_view l).

(** What [preprocess] computes from the array of nodes. *)
Record processed := {
  pr_nodes : list HeapNode;
  pr_firstRetainerIndex : list Z;
  pr_retainingNodes : list Z;
  pr_retainingEdges : list Z;
  pr_dominatorTree : list Z;
  pr_firstDominatedNodesIdx : list Z;
  pr_dominatedNodes : list Z;
  pr_samples : list HeapSample;
}.

Definition preprocess (fuel : nat) (nodeCount edgeCount : Z) (edges : list HeapEdge) (samples : list HeapSample)
    (nodes : list HeapNode) : option (res processed) :=
  let nodeMap := node_index_map nodes in
  let rootIndex := from_option hn_nodeIndex 0 (nodes !! 0%nat) in
  let! ' (first, rt, nodes) := preprocess_marks nodeCount edgeCount edges nodes in
  let! ' (tree, nodes) := calRetainedSize fuel edges nodeMap nodeCount first (rt_retainingNodes rt)
                           (rt_retainingEdges rt) nodes in
  let! ' (firstDominated, dominated) := Some (buildDominatedNode nodeCount rootIndex tree) in
  let! samples := Ok <$> buildSamples nodes samples in
  Some (Ok {| pr_nodes := nodes; pr_firstRetainerIndex := first; pr_retainingNodes := rt_retainingNodes rt;
              pr_retainingEdges := rt_retainingEdges rt; pr_dominatorTree := tree;
              pr_firstDominatedNodesIdx := firstDominated; pr_dominatedNodes := dominated;
              pr_samples := samples |}).

(** The constructor, for a file whose counts are known.  [new Uint32Array(-1)] is
    a RangeError, a hole in the array of nodes a TypeError of the first pass; the
    result for a file without any node, or without its counts, is left open. *)
Definition new_HeapLoader (fuel : nat) (file : FileStruct) : option (res HeapLoader) :=
  let s := fs_snapshotStruct file in
  match ss_nodeCount s, ss_edgeCount s with
  | Some nodeCount, Some edgeCount =>
      if nodeCount <? 1 then Some (Throw RangeError)
      else match ss_nodeMap s, node_array nodeCount (ss_nodeMap s) with
           | [], _ => None
           | _, None => Some (Throw TypeError)
           | _, Some nodes =>
               let! p := preprocess fuel nodeCount edgeCount (ss_edges s) (ss_samples s) nodes in
               Some (Ok {|
                 hl_view := {| cl_fileId := fi_id (fs_info file); cl_nodes := pr_nodes p;
                               cl_firstDominatedNodesIdx := pr_firstDominatedNodesIdx p;
                               cl_dominatedNodes := pr_dominatedNodes p; cl_allClasses := None;
                               cl_diffToOtherFile := [] |};
                 hl_nodeMap := node_index_map nodes; hl_edges := ss_edges s; hl_nodeCount := nodeCount;
                 hl_edgeCount := edgeCount; hl_firstRetainerIndex := pr_firstRetainerIndex p;
                 hl_retainingNodes := pr_retainingNodes p; hl_retainingEdges := pr_retainingEdges p;
                 hl_dominatorTree := pr_dominatorTree p;
                 hl_allocationLogic := setBottomUpTree (ss_traceNodes s);
                 hl_functionInfos := ss_functionInfos s; hl_samples := pr_samples p |})
           end
  | _, _ => None
  end.

(** [clear]: the class maps that exist are emptied. *)
Definition HeapLoader_clear (l : HeapLoader) : HeapLoader :=
  let v := hl_view l in
  {| hl_view := {| cl_fileId := cl_fileId v; cl_nodes := [];
                   cl_firstDominatedNodesIdx := cl_firstDominatedNodesIdx v;
                   cl_dominatedNodes := cl_dominatedNodes v;
                   cl_allClasses := (fun _ => []) <$> cl_allClasses v; cl_diffToOtherFile := [] |};
     hl_nodeMap := ∅; hl_edges := []; hl_nodeCount := hl_nodeCount l; hl_edgeCount := hl_edgeCount l;
     hl_firstRetainerIndex := hl_firstRetainerIndex l; hl_retainingNodes := hl_retainingNodes l;
     hl_retainingEdges := hl_retainingEdges l; hl_dominatorTree := hl_dominatorTree l;
     hl_allocationLogic := hl_allocationLogic l; hl_functionInfos := hl_functionInfos l;
     hl_samples := hl_samples l |}.

(** ** Dominators are not propagated

    The root refers to [x] and [t]; [x] to [q] and [p'], [q] to [p], [p] to [i]
    and [s], [p'] to [i], [t] to [s] and [s] to [q]. *)

Definition stale_rows : list node_row :=
  [sample_row 0 9 0 1 0 2; sample_row 1 3 1 3 10 2; sample_row 2 3 1 5 10 1; sample_row 3 3 1 7 10 1;
   sample_row 4 3 1 9 10 2; sample_row 5 3 1 11 10 0; sample_row 6 3 1 13 10 1; sample_row 7 3 1 15 10 1].

Definition stale_edges : list HeapEdge :=
  [sample_edge 0 2 3; sample_edge 1 2 5; sample_edge 2 2 7; sample_edge 3 2 15; sample_edge 4 2 13;
   sample_edge 5 2 9; sample_edge 6 2 11; sample_edge 7 2 13; sample_edge 8 2 7; sample_edge 9 2 11].

Definition stale_nodes : list HeapNode := default [] (node_array 8 (loadNode 1 sample_strings stale_rows).1.1).

(** A reference that keeps its target alive. *)
Definition strong (edge : HeapEdge) : bool := negb (edge_is EDGE_WEAK edge).

(** The reference along edge [e], by evaluation. *)
Lemma refers_along edges nodeMap ok nodes u v e :
  (n ← nodes !! u; edge ← edges !! e;
   Some (bool_decide (e ∈ hn_edges n) && bool_decide (nodeMap !! he_toNodeId edge = Some v)
         && Nat.ltb v (length nodes) && ok edge)) = Some true ->
  refers edges nodeMap ok nodes u v.
Proof.
  destruct (nodes !! u) as [n|] eqn:Hn; [|done]. destruct (edges !! e) as [edge|] eqn:He; [|done].
  intros [= [[[H1 H2]%andb_true_iff H3]%andb_true_iff H4]%andb_true_iff].
  exists n, e, edge. apply bool_decide_eq_true in H1, H2. apply Nat.ltb_lt in H3. by split_and!.
Qed.

(** A dominator that moves up does not move the nodes below it.  On a small
    snapshot with a cycle the loader ends without an error and reports that node 1
    dominates node 5 and retains it (30 bytes), although the root reaches node 5
    without node 1: when the dominator of a node changes, only the nodes it refers
    to are looked at again, not those whose dominator was found through it. *)
Theorem dominator_change_not_propagated :
  exists p, preprocess 100 8 10 stale_edges [] stale_nodes = Some (Ok p) /\
    pr_dominatorTree p !! 5%nat = Some 1 /\ hn_retainedSize <$> pr_nodes p !! 1%nat = Some 30 /\
    rtc (fun u v => refers stale_edges (node_index_map stale_nodes) strong (pr_nodes p) u v /\ v <> 1%nat) 0%nat 5%nat.
Proof.
  destruct (preprocess 100 8 10 stale_edges [] stale_nodes) as [[p|]|] eqn:E; try (vm_compute in E; discriminate).
  exists p. vm_compute in E. injection E as <-.
  split; [reflexivity|]. split; [reflexivity|]. split; [reflexivity|].
  apply (rtc_l _ _ 2%nat); [split; [apply (refers_along _ _ _ _ _ _ 1%nat); vm_compute; reflexivity|lia]|].
  apply (rtc_l _ _ 6%nat); [split; [apply (refers_along _ _ _ _ _ _ 4%nat); vm_compute; reflexivity|lia]|].
  apply (rtc_l _ _ 3%nat); [split; [apply (refers_along _ _ _ _ _ _ 8%nat); vm_compute; reflexivity|lia]|].
  apply (rtc_l _ _ 4%nat); [split; [apply (refers_along _ _ _ _ _ _ 5%nat); vm_compute; reflexivity|lia]|].
  apply (rtc_l _ _ 5%nat); [split; [apply (refers_along _ _ _ _ _ _ 6%nat); vm_compute; reflexivity|lia]|].
  apply rtc_refl.
Qed.
