(* ===== verification/HeapDataInterface.v ===== *)
(** * The interface to the heap views

    The class [HeapDataInterface] ([js-heap/HeapDataInterface.ts]) and the methods
    [getChildren] of the items and functions it serves
    ([js-heap/model/UiStruct.ts]).  File structures are objects of a store;
    [fileStructs] and [baseFileStruct] refer to them by position.  A method is a
    computation over the interface that returns or raises. *)

From S2P Require Import Prelude JsRuntime Effects HeapModel HeapRetainers HeapDominators.
From S2P Require Import HeapClasses HeapSamples HeapAllocation HeapItems HeapDatabase HeapLoader HeapDistance.

(** [if_loader]: the property [heapLoader], set by [parseData].  [if_reported]:
    the modules passed to [parseDone] of the listener, in order. *)
Record file_object := { if_file : FileStruct; if_loader : option HeapLoader }.

Record HeapDataInterface := {
  hd_isParseDone : bool;
  hd_hasListener : bool;
  hd_store : list file_object;
  hd_fileStructs : option (list nat);
  hd_baseFileStruct : option nat;
  hd_reported : list (list nat);
}.

Definition new_HeapDataInterface : HeapDataInterface :=
  {| hd_isParseDone := false; hd_hasListener := false; hd_store := []; hd_fileStructs := None;
     hd_baseFileStruct := None; hd_reported := [] |}.

Definition with_store (st : list file_object) (h : HeapDataInterface) : HeapDataInterface :=
  {| hd_isParseDone := hd_isParseDone h; hd_hasListener := hd_hasListener h; hd_store := st;
     hd_fileStructs := hd_fileStructs h; hd_baseFileStruct := hd_baseFileStruct h; hd_reported := hd_reported h |}.

Definition with_base (b : option nat) (h : HeapDataInterface) : HeapDataInterface :=
  {| hd_isParseDone := hd_isParseDone h; hd_hasListener := hd_hasListener h; hd_store := hd_store h;
     hd_fileStructs := hd_fileStructs h; hd_baseFileStruct := b; hd_reported := hd_reported h |}.

Abbreviation Heap := (Eff HeapDataInterface).

(** A pass that needs more rounds than it is given has no result. *)
Definition lift_run {S A} (m : option (res A)) : Eff S A :=
  fun s => match m with None => NoFuel s | Some (Ok a) => Done a s | Some (Throw e) => Raised e s end.

(** ** Files *)

Definition file_id (h : HeapDataInterface) (a : nat) : option Z := fi_id ∘ fs_info ∘ if_file <$> hd_store h !! a.

(** The first file with the id; iterating over [undefined] is a TypeError. *)
Definition getFileStructById (id : Z) : Heap (option nat) := fun h =>
  match hd_fileStructs h with
  | None => Raised TypeError h
  | Some files => Done (List.find (fun a => bool_decide (file_id h a = Some id)) files) h
  end.

Definition setFileId (fileId : Z) : Heap unit :=
  f ← getFileStructById fileId; modify_state (with_base f).

Definition setPraseListener : Heap unit :=
  modify_state (fun h => {| hd_isParseDone := hd_isParseDone h; hd_hasListener := true; hd_store := hd_store h;
                            hd_fileStructs := hd_fileStructs h; hd_baseFileStruct := hd_baseFileStruct h;
                            hd_reported := hd_reported h |}).

(** [this.baseFileStruct ? this.baseFileStruct : this.getFileStructById(id)] *)
Definition select_file (id : Z) : Heap (option nat) :=
  h ← get_state;
  match hd_baseFileStruct h with Some a => mret (Some a) | None => getFileStructById id end.

(** [fileStruct.heapLoader]; a use of it that is [undefined] is a TypeError. *)
Definition loader_of (a : nat) : Heap HeapLoader := fun h =>
  match hd_store h !! a ≫= if_loader with Some l => Done l h | None => Raised TypeError h end.

Definition put_loader (a : nat) (l : HeapLoader) : Heap unit :=
  modify_state (fun h => with_store (alter (fun o => {| if_file := if_file o; if_loader := Some l |}) a (hd_store h)) h).

Definition with_view (v : class_loader) (l : HeapLoader) : HeapLoader :=
  {| hl_view := v; hl_nodeMap := hl_nodeMap l; hl_edges := hl_edges l; hl_nodeCount := hl_nodeCount l;
     hl_edgeCount := hl_edgeCount l; hl_firstRetainerIndex := hl_firstRetainerIndex l;
     hl_retainingNodes := hl_retainingNodes l; hl_retainingEdges := hl_retainingEdges l;
     hl_dominatorTree := hl_dominatorTree l; hl_allocationLogic := hl_allocationLogic l;
     hl_functionInfos := hl_functionInfos l; hl_samples := hl_samples l |}.

(** [some null object].heapLoader *)
Definition required_loader (f : option nat) : Heap HeapLoader :=
  match f with Some a => loader_of a | None => raise TypeError end.

Definition rootId (l : HeapLoader) : Z := from_option hn_id 0 (hl_nodes l !! 0%nat).

(** ** Class lists *)

Definition summary_of (a : nat) (range : option (Z * Z)) : Heap class_map :=
  l ← loader_of a;
  r ← lift_run (Ok <$> getClassesForSummary range (hl_view l));
  put_loader a (with_view r.2 l);; mret r.1.

Definition getClassesListForSummary (fileId : Z) (range : option (Z * Z)) : Heap (list ConstructorItem) :=
  f ← select_file fileId;
  h ← get_state;
  match f with
  | Some a => if hd_isParseDone h then
                classes ← summary_of a range;
                mret (sort_by (fun c => - ci_retainedSize (ci c)) classes.*2)
              else mret []
  | None => mret []
  end.

(** The classes of the target are sorted in place by the comparison: they are the
    map its loader keeps. *)
Definition getClassListForComparison (baseFileId targetFileId : Z) : Heap (list ConstructorItem) :=
  base ← select_file baseFileId;
  target ← getFileStructById targetFileId;
  match base, target with
  | Some b, Some t =>
      targetClasses ← summary_of t None;
      l ← loader_of b;
      r ← lift_run (Ok <$> getClassesForComparison targetFileId targetClasses (hl_view l));
      let '(diffMap, targetClasses, view) := (r : class_map * class_map * class_loader) in
      put_loader b (with_view view l);;
      (if decide (b = t) then mret tt
       else tl ← loader_of t;
            put_loader t (with_view (with_classes (Some targetClasses) (cl_diffToOtherFile (hl_view tl)) (hl_view tl)) tl));;
      mret (sort_by (fun c => - cc_addedSize (cc c)) diffMap.*2)
  | _, _ => mret []
  end.

(** ** Samples and ids *)

Definition getSamples (fileId : Z) : Heap (list HeapSample) :=
  f ← select_file fileId;
  h ← get_state;
  mret match f with
       | Some a => from_option (ss_samples ∘ fs_snapshotStruct ∘ if_file) [] (hd_store h !! a)
       | None => []
       end.

Definition node_ids (fileId : Z) : Heap (option (Z * Z)) :=
  f ← select_file fileId;
  match f with
  | None => mret None
  | Some a => l ← loader_of a;
              ids ← lift_res (of_option TypeError (getMinAndMaxNodeId (hl_nodes l) (hl_nodeCount l)));
              mret (Some ids)
  end.

Definition getMinNodeId (fileId : Z) : Heap (option Z) := r ← node_ids fileId; mret (fst <$> (r : option (Z * Z))).
Definition getMaxNodeId (fileId : Z) : Heap (option Z) := r ← node_ids fileId; mret (snd <$> (r : option (Z * Z))).

(** ** Allocation functions *)

(** The function with its callers. *)
Definition getParentFunction (fuel : nat) (node : AllocationFunction) : Heap AllocationFunction :=
  f ← select_file (af_fileId node);
  match f with
  | None => mret node
  | Some a => l ← loader_of a; lift_run (getParent (hl_allocationLogic l) fuel node)
  end.

Definition AllocationFunction_getChildren (fuel : nat) (node : AllocationFunction) :
    Heap (list AllocationFunction * AllocationFunction) :=
  if negb (af_hasParent node) then mret ([], node)
  else node ← getParentFunction fuel node; mret (af_parents node, node).

Definition getAllocationStackData (fuel : nat) (node : ConstructorItem) : Heap (list (option HeapTraceFunctionInfo)) :=
  f ← select_file (ci_fileId (ci node));
  match f with
  | None => if bool_decide (ci_type (ci node) = Some ClassType) || bool_decide (ci_type (ci node) = Some RetainersType)
            then mret [] else raise TypeError
  | Some a => l ← loader_of a;
              lift_run (Ok <$> getNodeStack (hl_functionInfos l) (hl_allocationLogic l) fuel (ci_traceNodeId (ci node)))
  end.

(** ** Items *)

(** The children, and the item that may now remember them. *)
Definition getNextForConstructor (node : ConstructorItem) : Heap (list ConstructorItem * ConstructorItem) :=
  f ← select_file (ci_fileId (ci node));
  match ci_type (ci node) with
  | Some ClassType => mret (ci_classChildren node, node)
  | Some InstanceType | Some FiledType =>
      l ← required_loader f;
      lift_res (getNextNode (hl_edges l) (hl_nodeMap l) (hl_nodes l) (rootId l) node)
  | _ => mret ([], node)
  end.

Definition compare_node (add : bool) (node : HeapNode) : ConstructorItem :=
  let d := HeapNodeToConstructorItem node in
  {| ci := {| ci_fileId := ci_fileId d; ci_nodeName := ci_nodeName d; ci_edgeName := ci_edgeName d;
              ci_childCount := ci_childCount d; ci_distance := ci_distance d; ci_shallowSize := ci_shallowSize d;
              ci_retainedSize := ci_retainedSize d; ci_hasNext := hn_edgeCount node >? 0;
              ci_edgeCount := ci_edgeCount d; ci_edgeType := ci_edgeType d; ci_type := Some InstanceType;
              ci_nodeType := ci_nodeType d; ci_id := ci_id d; ci_index := ci_index d;
              ci_traceNodeId := ci_traceNodeId d |};
     ci_parent := None; ci_children := []; ci_retains := []; ci_classChildren := [];
     cc := {| cc_targetFileId := -1; cc_addedCount := 0; cc_removedCount := 0; cc_deltaCount := 0;
              cc_addedSize := if add then ci_shallowSize d else 0;
              cc_removedSize := if add then 0 else ci_shallowSize d; cc_deltaSize := 0;
              cc_deletedIdx := []; cc_addedIndx := []; cc_isAdd := add |} |}.

Definition compare_nodes (add : bool) (nodes : list HeapNode) (idxs : list Z) : res (list ConstructorItem) :=
  map_res (fun idx => let* node := of_option TypeError (zlookup idx nodes) in Ok (compare_node add node)) idxs.

Definition getNextForComparison (n : ConstructorItem) : Heap (list ConstructorItem * ConstructorItem) :=
  base ← select_file (ci_fileId (ci n));
  target ← getFileStructById (cc_targetFileId (cc n));
  match base, target with
  | Some b, Some t =>
      if bool_decide (ci_type (ci n) = Some ComparisonType) then
        bl ← loader_of b;
        added ← lift_res (compare_nodes true (hl_nodes bl) (cc_addedIndx (cc n)));
        tl ← loader_of t;
        deleted ← lift_res (compare_nodes false (hl_nodes tl) (cc_deletedIdx (cc n)));
        mret (added ++ deleted, n)
      else getNextForConstructor n
  | _, _ => mret ([], n)
  end.

Definition interface_getRetains (n : ConstructorItem) : Heap (list ConstructorItem) :=
  f ← select_file (ci_fileId (ci n));
  match f with
  | None => mret []
  | Some a => l ← loader_of a; lift_res (getRetains (hl_edges l) (hl_nodes l) (rootId l) n)
  end.

(** [getChildren] of an item: the result also becomes its [children]. *)
Definition getChildren (n : ConstructorItem) : Heap (list ConstructorItem * ConstructorItem) :=
  if negb (ci_hasNext (ci n)) then mret ([], n)
  else
    match ci_type (ci n) with
    | Some ClassType | Some InstanceType | Some FiledType =>
        r ← getNextForConstructor n; mret (r.1, with_children r.1 r.2)
    | Some RetainersType => c ← interface_getRetains n; mret (c, with_children c n)
    | Some ComparisonType => r ← getNextForComparison n; mret (r.1, with_children r.1 r.2)
    | None => mret (ci_children n, n)
    end.

(** ** Parsing and clearing *)

Definition with_samples (samples : list HeapSample) (f : FileStruct) : FileStruct :=
  let s := fs_snapshotStruct f in
  {| fs_info := fs_info f;
     fs_snapshotStruct :=
       {| ss_nodeCount := ss_nodeCount s; ss_edgeCount := ss_edgeCount s; ss_functionCount := ss_functionCount s;
          ss_nodeMap := ss_nodeMap s; ss_edges := ss_edges s; ss_functionInfos := ss_functionInfos s;
          ss_traceNodes := ss_traceNodes s; ss_samples := samples; ss_strings := ss_strings s;
          ss_rootNodeId := ss_rootNodeId s |} |}.

(** One file of the loop; the loader counts the samples of the file in place. *)
Definition parse_file (fuel : nat) (a : nat) : Heap unit :=
  h ← get_state;
  match hd_store h !! a with
  | None => mret tt
  | Some o =>
      l ← lift_run (new_HeapLoader fuel (if_file o));
      modify_state (fun h => with_store
        (<[a := {| if_file := with_samples (hl_samples l) (if_file o); if_loader := Some l |}]> (hd_store h)) h)
  end.

Fixpoint parse_files (fuel : nat) (files : list nat) : Heap unit :=
  match files with
  | [] => mret tt
  | a :: files' => parse_file fuel a;; parse_files fuel files'
  end.

(** [parseData]: the files are new objects. *)
Definition parseData (fuel : nat) (fileModule : list FileStruct) : Heap unit := fun h =>
  let files := seq (length (hd_store h)) (length fileModule) in
  let h := {| hd_isParseDone := false; hd_hasListener := hd_hasListener h;
              hd_store := hd_store h ++ ((fun f => {| if_file := f; if_loader := None |}) <$> fileModule);
              hd_fileStructs := Some files; hd_baseFileStruct := hd_baseFileStruct h; hd_reported := hd_reported h |} in
  (parse_files fuel files;;
   modify_state (fun h => {| hd_isParseDone := true; hd_hasListener := hd_hasListener h; hd_store := hd_store h;
                             hd_fileStructs := hd_fileStructs h; hd_baseFileStruct := hd_baseFileStruct h;
                             hd_reported := if hd_hasListener h then hd_reported h ++ [files] else hd_reported h |})) h.

Definition getFileStructs : Heap (option (list nat)) := h ← get_state; mret (hd_fileStructs h).

(** A file without a loader raises after its tables were emptied. *)
Definition clear_file (a : nat) : Heap unit := fun h =>
  match hd_store h !! a with
  | None => Done tt h
  | Some o =>
      let file := {| fs_info := fs_info (if_file o);
                     fs_snapshotStruct := HeapSnapshotStruct_clear (fs_snapshotStruct (if_file o)) |} in
      let put l := with_store (<[a := {| if_file := file; if_loader := l |}]> (hd_store h)) h in
      match if_loader o with
      | Some l => Done tt (put (Some (HeapLoader_clear l)))
      | None => Raised TypeError (put None)
      end
  end.

Fixpoint clear_files (files : list nat) : Heap unit :=
  match files with [] => mret tt | a :: files' => clear_file a;; clear_files files' end.

Definition clearData : Heap unit :=
  h ← get_state;
  match hd_fileStructs h with
  | None => mret tt
  | Some files =>
      clear_files files;;
      modify_state (fun h => {| hd_isParseDone := hd_isParseDone h; hd_hasListener := hd_hasListener h;
                                hd_store := hd_store h; hd_fileStructs := Some [];
                                hd_baseFileStruct := hd_baseFileStruct h; hd_reported := hd_reported h |})
  end.

(** [LoadDatabase.loadFile]: read every file, then hand them over. *)
Definition loadDatabase (fuel : nat) (db : database) : Heap unit :=
  setPraseListener;; parseData fuel (loadFile db).

(** ** Parsing is all or nothing *)

Definition fresh_objects (fileModule : list FileStruct) : list file_object :=
  (fun f => {| if_file := f; if_loader := None |}) <$> fileModule.

Definition loaded_object (f : FileStruct) (l : HeapLoader) : file_object :=
  {| if_file := with_samples (hl_samples l) f; if_loader := Some l |}.

(** Files that load, in front of others. *)
Lemma parse_files_loaded fuel h done fs ls rest :
  Forall2 (fun f l => new_HeapLoader fuel f = Some (Ok l)) fs ls ->
  hd_store h = done ++ fresh_objects fs ++ rest ->
  forall k, parse_files fuel (seq (length done) (length fs) ++ k) h
            = parse_files fuel k (with_store (done ++ zip_with loaded_object fs ls ++ rest) h).
Proof.
  intros HF. revert h done. induction HF as [|f l fs ls Hl HF IH]; intros h done Hs k.
  { simpl in *. rewrite <- Hs. by destruct h. }
  cbn [length seq app parse_files]. unfold parse_file.
  unfold mbind at 1, eff_mbind at 1, eff_bind at 1. cbn [get_state].
  unfold mbind at 1, eff_mbind at 1, eff_bind at 1. cbn [get_state].
  assert (Hlk : hd_store h !! length done = Some {| if_file := f; if_loader := None |})
    by (rewrite Hs, lookup_app_r, Nat.sub_diag by lia; done).
  rewrite Hlk. cbn [if_file]. unfold mbind at 1, eff_mbind at 1, eff_bind at 1, lift_run. rewrite Hl. cbn [modify_state].
  set (h1 := with_store _ h).
  assert (Hs1 : hd_store h1 = (done ++ [loaded_object f l]) ++ fresh_objects fs ++ rest).
  { unfold h1. cbn [with_store hd_store]. rewrite Hs, insert_app_r_alt, Nat.sub_diag by lia.
    rewrite <- app_assoc. done. }
  specialize (IH h1 (done ++ [loaded_object f l]) Hs1 k). rewrite length_app in IH. cbn [length] in IH.
  rewrite Nat.add_1_r in IH. rewrite IH. f_equal. unfold h1, with_store. cbn. by rewrite <- app_assoc.
Qed.

(** C40: [parseData] loads all files or none.  If the loader of every file can be
    built, the files are listed in order, each with its loader, and the listener
    is told once; if the loader of some file raises, the error is passed on, the
    listener is not told, and the class lists of all files, also of those that
    were loaded before, are empty. *)
Theorem parse_all_or_nothing fuel h pre ls post :
  Forall2 (fun f l => new_HeapLoader fuel f = Some (Ok l)) pre ls ->
  let files n := seq (length (hd_store h)) n in
  (exists h', parseData fuel pre h = Done tt h' /\ hd_isParseDone h' = true /\
     hd_fileStructs h' = Some (files (length pre)) /\
     hd_store h' = hd_store h ++ zip_with loaded_object pre ls /\
     hd_reported h' = if hd_hasListener h then hd_reported h ++ [files (length pre)] else hd_reported h) /\
  (forall f e, new_HeapLoader fuel f = Some (Throw e) ->
     exists h', parseData fuel (pre ++ f :: post) h = Raised e h' /\ hd_isParseDone h' = false /\
       hd_reported h' = hd_reported h /\
       forall id range, getClassesListForSummary id range h' = Done [] h').
Proof.
  intros HF files. split.
  - unfold parseData. set (h0 := Build_HeapDataInterface _ _ _ _ _ _).
    pose proof (parse_files_loaded fuel h0 (hd_store h) pre ls [] HF) as E. rewrite !app_nil_r in E.
    specialize (E eq_refl []). rewrite app_nil_r in E.
    unfold mbind, eff_mbind, eff_bind. rewrite E. cbn.
    eexists. split; [reflexivity|]. by cbn.
  - intros f e He. unfold parseData. set (h0 := Build_HeapDataInterface _ _ _ _ _ _).
    pose proof (parse_files_loaded fuel h0 (hd_store h) pre ls (fresh_objects (f :: post)) HF) as E.
    rewrite length_app. cbn [length]. rewrite seq_app. cbn [seq].
    unfold mbind at 1, eff_mbind at 1, eff_bind at 1. rewrite E.
    2: { cbn. unfold fresh_objects. by rewrite fmap_app. }
    set (h1 := with_store _ h0). cbn [parse_files]. unfold parse_file.
    assert (Hlk : hd_store h1 !! (length (hd_store h) + length pre)%nat = Some {| if_file := f; if_loader := None |}).
    { unfold h1. cbn [with_store hd_store]. rewrite app_assoc, lookup_app_r;
        rewrite length_app, length_zip_with, (Forall2_length _ _ _ HF), Nat.min_id; [|lia].
      rewrite Nat.sub_diag. done. }
    unfold mbind, eff_mbind, eff_bind. cbn [get_state]. rewrite Hlk. cbn [if_file]. unfold lift_run. rewrite He.
    eexists. split; [reflexivity|]. split; [done|]. split; [done|].
    intros id range. unfold getClassesListForSummary, select_file, getFileStructById, mbind, eff_mbind, eff_bind.
    cbn [get_state]. unfold h1. cbn. destruct (hd_baseFileStruct h); [done|]. cbn. by case_match.
Qed.

(** A database with the sample snapshot as file 1 and, as file 2, one whose root
    refers three times to its only object. *)
Definition count_row (key : string) (n : Z) : info_row := {| ir_key := js key; ir_intValue := n |}.

Definition sample_database : database := {|
  queryHeapFile := (fun i => {| fr_id := i; fr_name := js "Snapshot-1"; fr_startTs := 0; fr_endTs := 0; fr_pid := 7;
                                fr_size := 0 |}) <$> [1; 2];
  queryHeapInfo := fun i => if i =? 1 then [count_row "node_count" 5; count_row "edge_count" 8]
                            else [count_row "node_count" 2; count_row "edge_count" 3];
  queryHeapString := fun _ => sample_strings;
  queryHeapNode := fun i => if i =? 1 then sample_rows else repeated_rows;
  queryHeapEdge := fun i => if i =? 1 then sample_edges else repeated_edges;
  queryHeapFunction := fun _ => [];
  queryHeapTraceNode := fun _ => call_rows;
  queryHeapSample := fun _ => [] |}.

Lemma parse_all_or_nothing_witness :
  exists h', parseData 50 (loadFile sample_database) new_HeapDataInterface = Raised (JsError "BFS failed") h' /\
    forall id range, getClassesListForSummary id range h' = Done [] h'.
Proof.
  destruct (loadFile sample_database) as [|f1 [|f2 [|? ?]]] eqn:Ef; try (vm_compute in Ef; discriminate).
  destruct (new_HeapLoader 50 f1) as [[l1|]|] eqn:E1;
    [|vm_compute in Ef; injection Ef as <- <-; vm_compute in E1; discriminate..].
  destruct (parse_all_or_nothing 50 new_HeapDataInterface [f1] [l1] []) as [_ H].
  - constructor; [exact E1|constructor].
  - destruct (H f2 (JsError "BFS failed")) as (h' & Hp & _ & _ & Hl).
    + vm_compute in Ef. injection Ef as <- <-. vm_compute. reflexivity.
    + exists h'. split; [exact Hp|exact Hl].
Defined.
