(* ===== verification/WebSocket.v ===== *)
(** * The session with the local service

    The message codec of [webSocket/Util.ts], the constants of
    [webSocket/Constants.ts] and the class [WebSocketManager]
    ([webSocket/WebSocketManager.ts]).  The manager is a state machine over the
    events of the socket, of the two timers and of the modules that use it. *)

From S2P Require Import Prelude JsRuntime HeapModel.

(** ** Messages *)

Definition MSG_HEAD_LENGTH : Z := 20.

Record MessageParam := {
  mp_type : Z;
  mp_cmd : option Z;
  mp_session_id : option Z;
  mp_session : option Z;
  mp_data_lenght : option Z;
  mp_data : option (list Z);
}.

(** [x ? x : 0] for an optional number. *)
Definition or_zero (o : option Z) : Z := default 0 o.

Definition splitUint64ToUint32s (bigInt : Z) : Z * Z :=
  (Z.land (Z.shiftr bigInt 32) 0xFFFFFFFF, Z.land bigInt 0xFFFFFFFF).

Definition encode (message : MessageParam) : res (list Z) :=
  let '(high32, low32) := splitUint64ToUint32s (or_zero (mp_session message)) in
  let totalByteLength := MSG_HEAD_LENGTH + or_zero (mp_data_lenght message) in
  let dataView := zeros MSG_HEAD_LENGTH in
  let* dataView := setUint8 dataView 0 (mp_type message) in
  let* dataView := setUint16 dataView 1 (or_zero (mp_cmd message)) in
  let* dataView := setUint8 dataView 3 (or_zero (mp_session_id message)) in
  let* dataView := setUint32 dataView 4 high32 in
  let* dataView := setUint32 dataView 8 low32 in
  let* dataView := setUint32 dataView 12 (or_zero (mp_data_lenght message)) in
  let* combinedArray := typed_set (zeros totalByteLength) dataView 0 in
  typed_set combinedArray (default [] (mp_data message)) MSG_HEAD_LENGTH.

(** A buffer shorter than the head is a RangeError. *)
Definition decode (message : list Z) : res MessageParam :=
  let* sessionHigh := getUint32 message 4 in
  let* sessionLow := getUint32 message 8 in
  let session := Z.lor (Z.shiftl sessionHigh 32) sessionLow in
  if zlen message <? MSG_HEAD_LENGTH then Throw RangeError
  else
    let dataBytes := drop (Z.to_nat MSG_HEAD_LENGTH) message in
    let* type := getUint8 message 0 in
    let* cmd := getUint16 message 1 in
    let* session_id := getUint8 message 3 in
    let* data_lenght := getUint32 message 12 in
    Ok {| mp_type := type; mp_cmd := Some cmd; mp_session_id := Some session_id; mp_session := Some session;
          mp_data_lenght := Some data_lenght; mp_data := Some dataBytes |}.

(** ** The manager *)

Definition LOGIN_TYPE : Z := 0.
Definition HEARTBEAT_TYPE : Z := 1.
Definition LOGIN_CMD : Z := 2.

Definition LOGIN_PARAM : MessageParam :=
  {| mp_type := 0; mp_cmd := Some 1; mp_session_id := None; mp_session := None; mp_data_lenght := None;
     mp_data := None |}.

(** What the browser says about the current socket. *)
Inductive socket_phase := Connecting | Opened | Closed.

#[export] Instance socket_phase_eq_dec : EqDecision socket_phase.
Proof. solve_decision. Defined.

(** The fields of the manager, and below them what it has done to the world: the
    phase of its socket, the intervals that run, the reconnections that wait, the
    buffers sent and the listeners called. *)
Record WebSocketManager := {
  wm_ready : bool;
  wm_distributeMap : list (Z * nat);
  wm_sessionId : option Z;
  wm_session : option Z;
  wm_heartbeatInterval : option nat;
  wm_phase : socket_phase;
  wm_intervals : list nat;
  wm_nextInterval : nat;
  wm_timeouts : nat;
  wm_sent : list (list Z);
  wm_called : list (nat * option Z * option (list Z));
}.

(** [connectWebSocket]: a new socket. *)
Definition connectWebSocket (m : WebSocketManager) : WebSocketManager :=
  {| wm_ready := wm_ready m; wm_distributeMap := wm_distributeMap m; wm_sessionId := wm_sessionId m;
     wm_session := wm_session m; wm_heartbeatInterval := wm_heartbeatInterval m; wm_phase := Connecting;
     wm_intervals := wm_intervals m; wm_nextInterval := wm_nextInterval m; wm_timeouts := wm_timeouts m;
     wm_sent := wm_sent m; wm_called := wm_called m |}.

(** The constructor; interval ids start at 1. *)
Definition new_WebSocketManager : WebSocketManager :=
  connectWebSocket {| wm_ready := false; wm_distributeMap := []; wm_sessionId := None; wm_session := None;
    wm_heartbeatInterval := None; wm_phase := Closed; wm_intervals := []; wm_nextInterval := 1; wm_timeouts := 0;
    wm_sent := []; wm_called := [] |}.

Definition ws_send (bytes : list Z) (m : WebSocketManager) : WebSocketManager :=
  {| wm_ready := wm_ready m; wm_distributeMap := wm_distributeMap m; wm_sessionId := wm_sessionId m;
     wm_session := wm_session m; wm_heartbeatInterval := wm_heartbeatInterval m; wm_phase := wm_phase m;
     wm_intervals := wm_intervals m; wm_nextInterval := wm_nextInterval m; wm_timeouts := wm_timeouts m;
     wm_sent := wm_sent m ++ [bytes]; wm_called := wm_called m |}.

Definition login (m : WebSocketManager) : res WebSocketManager :=
  let* bytes := encode LOGIN_PARAM in Ok (ws_send bytes m).

Definition sendHeartbeat (m : WebSocketManager) : WebSocketManager :=
  {| wm_ready := wm_ready m; wm_distributeMap := wm_distributeMap m; wm_sessionId := wm_sessionId m;
     wm_session := wm_session m; wm_heartbeatInterval := Some (wm_nextInterval m); wm_phase := wm_phase m;
     wm_intervals := wm_intervals m ++ [wm_nextInterval m]; wm_nextInterval := S (wm_nextInterval m);
     wm_timeouts := wm_timeouts m; wm_sent := wm_sent m; wm_called := wm_called m |}.

Definition clearHeartbeat (m : WebSocketManager) : WebSocketManager :=
  match wm_heartbeatInterval m with
  | None => m
  | Some id =>
      {| wm_ready := wm_ready m; wm_distributeMap := wm_distributeMap m; wm_sessionId := wm_sessionId m;
         wm_session := wm_session m; wm_heartbeatInterval := None; wm_phase := wm_phase m;
         wm_intervals := filter (.≠ id) (wm_intervals m); wm_nextInterval := wm_nextInterval m;
         wm_timeouts := wm_timeouts m; wm_sent := wm_sent m; wm_called := wm_called m |}
  end.

Definition initLoginInfor (m : WebSocketManager) : WebSocketManager :=
  {| wm_ready := false; wm_distributeMap := wm_distributeMap m; wm_sessionId := None; wm_session := None;
     wm_heartbeatInterval := wm_heartbeatInterval m; wm_phase := wm_phase m; wm_intervals := wm_intervals m;
     wm_nextInterval := wm_nextInterval m; wm_timeouts := wm_timeouts m; wm_sent := wm_sent m;
     wm_called := wm_called m |}.

Definition reconnect (wasClean : bool) (m : WebSocketManager) : WebSocketManager :=
  if wasClean then m
  else {| wm_ready := wm_ready m; wm_distributeMap := wm_distributeMap m; wm_sessionId := wm_sessionId m;
          wm_session := wm_session m; wm_heartbeatInterval := wm_heartbeatInterval m; wm_phase := wm_phase m;
          wm_intervals := wm_intervals m; wm_nextInterval := wm_nextInterval m; wm_timeouts := S (wm_timeouts m);
          wm_sent := wm_sent m; wm_called := wm_called m |}.

Definition set_phase (p : socket_phase) (m : WebSocketManager) : WebSocketManager :=
  {| wm_ready := wm_ready m; wm_distributeMap := wm_distributeMap m; wm_sessionId := wm_sessionId m;
     wm_session := wm_session m; wm_heartbeatInterval := wm_heartbeatInterval m; wm_phase := p;
     wm_intervals := wm_intervals m; wm_nextInterval := wm_nextInterval m; wm_timeouts := wm_timeouts m;
     wm_sent := wm_sent m; wm_called := wm_called m |}.

Definition set_login (decode : MessageParam) (m : WebSocketManager) : WebSocketManager :=
  {| wm_ready := true; wm_distributeMap := wm_distributeMap m; wm_sessionId := mp_session_id decode;
     wm_session := mp_session decode; wm_heartbeatInterval := wm_heartbeatInterval m; wm_phase := wm_phase m;
     wm_intervals := wm_intervals m; wm_nextInterval := wm_nextInterval m; wm_timeouts := wm_timeouts m;
     wm_sent := wm_sent m; wm_called := wm_called m |}.

Definition call_listeners (decode : MessageParam) (m : WebSocketManager) : WebSocketManager :=
  {| wm_ready := wm_ready m; wm_distributeMap := wm_distributeMap m; wm_sessionId := wm_sessionId m;
     wm_session := wm_session m; wm_heartbeatInterval := wm_heartbeatInterval m; wm_phase := wm_phase m;
     wm_intervals := wm_intervals m; wm_nextInterval := wm_nextInterval m; wm_timeouts := wm_timeouts m;
     wm_sent := wm_sent m;
     wm_called := wm_called m ++
       ((fun kc => (kc.2, mp_cmd decode, mp_data decode)) <$> filter (fun kc => kc.1 = mp_type decode) (wm_distributeMap m)) |}.

Definition onmessage (decode : MessageParam) (m : WebSocketManager) : WebSocketManager :=
  if mp_type decode =? LOGIN_TYPE then
    if bool_decide (mp_cmd decode = Some LOGIN_CMD) then set_login decode m else m
  else call_listeners decode m.

Definition registerMessageListener (type : Z) (callback : nat) (m : WebSocketManager) : WebSocketManager :=
  if map_has (wm_distributeMap m) type then m
  else {| wm_ready := wm_ready m; wm_distributeMap := map_set (wm_distributeMap m) type callback;
          wm_sessionId := wm_sessionId m; wm_session := wm_session m;
          wm_heartbeatInterval := wm_heartbeatInterval m; wm_phase := wm_phase m; wm_intervals := wm_intervals m;
          wm_nextInterval := wm_nextInterval m; wm_timeouts := wm_timeouts m; wm_sent := wm_sent m;
          wm_called := wm_called m |}.

Definition message_of (type : Z) (cmd : option Z) (data : option (list Z)) (sessionId session : option Z) :
    MessageParam :=
  {| mp_type := type; mp_cmd := cmd; mp_session_id := sessionId; mp_session := session;
     mp_data_lenght := zlen <$> data; mp_data := data |}.

Definition sendMessage (type : Z) (cmd : option Z) (data : option (list Z)) (m : WebSocketManager) :
    res WebSocketManager :=
  if negb (wm_ready m) then Ok m
  else let* bytes := encode (message_of type cmd data (wm_sessionId m) (wm_session m)) in Ok (ws_send bytes m).

(** ** Events *)

Inductive ws_event :=
  | SocketOpen
  | SocketMessage (data : list Z)
  | SocketError
  | SocketClose (wasClean : bool)
  | IntervalFires (id : nat)
  | TimeoutFires
  | Register (type : Z) (callback : nat)
  | Send (type : Z) (cmd : option Z) (data : option (list Z)).

(** The events that can happen. *)
Definition enabled (m : WebSocketManager) (ev : ws_event) : Prop :=
  match ev with
  | SocketOpen => wm_phase m = Connecting
  | SocketMessage _ => wm_phase m = Opened
  | SocketError => wm_phase m <> Closed
  | SocketClose _ => wm_phase m <> Closed
  | IntervalFires id => id ∈ wm_intervals m
  | TimeoutFires => (0 < wm_timeouts m)%nat
  | Register _ _ | Send _ _ _ => True
  end.

(** The handlers that [connectWebSocket] installs, the timer callbacks and the two
    methods for other modules. *)
Definition handle (ev : ws_event) (m : WebSocketManager) : res WebSocketManager :=
  match ev with
  | SocketOpen => login (sendHeartbeat (set_phase Opened m))
  | SocketMessage data =>
      let* d := decode data in
      Ok (if mp_type d =? HEARTBEAT_TYPE then m else onmessage d m)
  | SocketError => Ok m
  | SocketClose wasClean => Ok (reconnect wasClean (clearHeartbeat (initLoginInfor (set_phase Closed m))))
  | IntervalFires _ => sendMessage HEARTBEAT_TYPE None None m
  | TimeoutFires =>
      Ok (connectWebSocket {| wm_ready := wm_ready m; wm_distributeMap := wm_distributeMap m;
            wm_sessionId := wm_sessionId m; wm_session := wm_session m;
            wm_heartbeatInterval := wm_heartbeatInterval m; wm_phase := wm_phase m;
            wm_intervals := wm_intervals m; wm_nextInterval := wm_nextInterval m;
            wm_timeouts := pred (wm_timeouts m); wm_sent := wm_sent m; wm_called := wm_called m |})
  | Register type callback => Ok (registerMessageListener type callback m)
  | Send type cmd data => sendMessage type cmd data m
  end.

(** A handler that raises leaves the manager as it was: the only ones that do
    raise before they change it. *)
Inductive ws_step : WebSocketManager -> ws_event -> WebSocketManager -> Prop :=
  | ws_handled m ev m' : enabled m ev -> handle ev m = Ok m' -> ws_step m ev m'
  | ws_raised m ev e : enabled m ev -> handle ev m = Throw e -> ws_step m ev m.

Inductive ws_run : WebSocketManager -> list ws_event -> WebSocketManager -> Prop :=
  | ws_start m : ws_run m [] m
  | ws_next m evs m1 ev m2 : ws_run m evs m1 -> ws_step m1 ev m2 -> ws_run m (evs ++ [ev]) m2.

(** ** The codec *)

(** A message as the receiver gets it. *)
Definition wire (type cmd session_id session : Z) (data : list Z) : MessageParam :=
  {| mp_type := type; mp_cmd := Some cmd; mp_session_id := Some session_id; mp_session := Some session;
     mp_data_lenght := Some (zlen data); mp_data := Some data |}.

Record message_ok (m : MessageParam) : Prop := {
  mk_type : is_byte (mp_type m);
  mk_cmd : 0 <= or_zero (mp_cmd m) < 2 ^ 16;
  mk_session_id : is_byte (or_zero (mp_session_id m));
  mk_session : 0 <= or_zero (mp_session m) < 2 ^ 64;
  mk_length : or_zero (mp_data_lenght m) = zlen (default [] (mp_data m));
  mk_small : zlen (default [] (mp_data m)) < 2 ^ 32;
}.

Lemma split_words s : 0 <= s < 2 ^ 64 ->
  splitUint64ToUint32s s = (s / 2 ^ 32, s mod 2 ^ 32) /\ 0 <= s / 2 ^ 32 < 2 ^ 32.
Proof.
  intros Hs. assert (Hq : 0 <= s / 2 ^ 32 < 2 ^ 32) by (Z.div_mod_to_equations; lia). split; [|done].
  unfold splitUint64ToUint32s. change 0xFFFFFFFF with (Z.ones 32).
  rewrite !Z.land_ones, Z.shiftr_div_pow2 by lia. by rewrite (Z.mod_small (s / 2 ^ 32)).
Qed.

Lemma join_words hi lo : 0 <= lo < 2 ^ 32 -> Z.lor (Z.shiftl hi 32) lo = hi * 2 ^ 32 + lo.
Proof. intros Hlo. rewrite Z.shiftl_mul_pow2, Z.lor_comm, lor_low_high by lia. lia. Qed.

(** The bytes of a message. *)
Lemma encode_layout m :
  message_ok m ->
  encode m = Ok ((uint8 (mp_type m) :: be16 (or_zero (mp_cmd m)) ++ uint8 (or_zero (mp_session_id m)) ::
                  be32 (or_zero (mp_session m) / 2 ^ 32) ++ be32 (or_zero (mp_session m) mod 2 ^ 32) ++
                  be32 (zlen (default [] (mp_data m))) ++ [0; 0; 0; 0]) ++ default [] (mp_data m)).
Proof.
  intros [Ht Hc Hi Hs Hl Hsm]. unfold encode. destruct (split_words _ Hs) as [-> _]. rewrite Hl.
  set (d := default [] (mp_data m)) in *. cbn zeta.
  set (head := uint8 (mp_type m) :: _).
  transitivity (let* combinedArray := typed_set (zeros (20 + zlen d)) head 0 in typed_set combinedArray d 20); [reflexivity|].
  pose proof (zlen_nonneg d). rewrite zeros_app by lia. rewrite typed_set_start by reflexivity. cbn [res_bind].
  rewrite <- (app_nil_r (zeros (zlen d))). rewrite (typed_set_at head (zeros (zlen d)) [] d 20);
    [by rewrite app_nil_r|reflexivity|symmetry; by apply zlen_zeros].
Qed.

Lemma decode_layout t c1 c0 i h3 h2 h1 h0 l3 l2 l1 l0 n3 n2 n1 n0 rest (d : list Z) :
  zlen rest = 4 ->
  decode ((t :: [c1; c0] ++ i :: [h3; h2; h1; h0] ++ [l3; l2; l1; l0] ++ [n3; n2; n1; n0] ++ rest) ++ d) =
  Ok {| mp_type := t; mp_cmd := Some (c1 * 2 ^ 8 + c0); mp_session_id := Some i;
        mp_session := Some (Z.lor (Z.shiftl (h3 * 2 ^ 24 + h2 * 2 ^ 16 + h1 * 2 ^ 8 + h0) 32)
                              (l3 * 2 ^ 24 + l2 * 2 ^ 16 + l1 * 2 ^ 8 + l0));
        mp_data_lenght := Some (n3 * 2 ^ 24 + n2 * 2 ^ 16 + n1 * 2 ^ 8 + n0); mp_data := Some d |}.
Proof.
  intros Hr. destruct rest as [|r0 [|r1 [|r2 [|r3 [|? ?]]]]]; try (unfold zlen in Hr; simpl in Hr; lia).
  unfold decode. cbn [app]. set (view := t :: _).
  assert (Hlen : zlen view <? MSG_HEAD_LENGTH = false).
  { apply Z.ltb_ge. unfold view, MSG_HEAD_LENGTH. rewrite !zlen_cons. pose proof (zlen_nonneg d). lia. }
  rewrite Hlen. unfold getUint32, getUint16, getUint8.
  cbn. reflexivity.
Qed.

(** What a message that was encoded decodes to. *)
Lemma decode_encode m bytes :
  message_ok m -> encode m = Ok bytes ->
  decode bytes = Ok (wire (mp_type m) (or_zero (mp_cmd m)) (or_zero (mp_session_id m)) (or_zero (mp_session m))
                       (default [] (mp_data m))).
Proof.
  intros OK Henc. pose proof (encode_layout m OK) as Hlay. rewrite Henc in Hlay. apply Ok_inj in Hlay. subst bytes.
  clear Henc. destruct OK as [Ht Hc Hi Hs Hl Hsm].
  set (d := default [] (mp_data m)) in *. pose proof (zlen_nonneg d).
  unfold be16, be32. rewrite decode_layout by done. unfold wire.
  destruct (split_words _ Hs) as [_ Hq]. pose proof (Z.mod_pos_bound (or_zero (mp_session m)) (2 ^ 32) ltac:(lia)).
  rewrite be16_value, !be32_value, !uint8_id, join_words by (done || lia).
  do 3 f_equal. rewrite (Z.mul_comm _ (2 ^ 32)). symmetry. apply Z.div_mod. lia.
Qed.

(** C11: A message goes through the codec unchanged.  A message with a type and a
    session number of a byte each, a 16-bit command, a 64-bit session and data of
    the announced length is encoded without an error, and decoding the bytes gives
    its fields back; missing fields arrive as 0 and no data as empty data. *)
Theorem message_roundtrip m :
  message_ok m ->
  exists bytes, encode m = Ok bytes /\ zlen bytes = MSG_HEAD_LENGTH + zlen (default [] (mp_data m)) /\
    decode bytes = Ok (wire (mp_type m) (or_zero (mp_cmd m)) (or_zero (mp_session_id m)) (or_zero (mp_session m))
                         (default [] (mp_data m))).
Proof.
  intros OK. pose proof (encode_layout m OK) as E. eexists. split; [exact E|]. split.
  - rewrite zlen_app. reflexivity.
  - by apply decode_encode.
Qed.

Lemma message_roundtrip_witness :
  exists bytes, encode (message_of 8 (Some 3) (Some [1; 2; 255]) (Some 7) (Some 0x123456789ABCDEF0)) = Ok bytes /\
    zlen bytes = 23 /\ decode bytes = Ok (wire 8 3 7 0x123456789ABCDEF0 [1; 2; 255]).
Proof.
  apply (message_roundtrip (message_of 8 (Some 3) (Some [1; 2; 255]) (Some 7) (Some 0x123456789ABCDEF0))).
  split; vm_compute; (split; congruence) || reflexivity.
Defined.

(** ** Timers *)

(** While the socket is open exactly one heartbeat interval runs, and it is the one
    the manager will clear; otherwise none does.  A reconnection waits only while
    the socket is closed, never two.  Being logged in implies an open socket. *)
Record ws_inv (m : WebSocketManager) : Prop := {
  wi_interval : wm_intervals m = option_list (wm_heartbeatInterval m);
  wi_open : is_Some (wm_heartbeatInterval m) <-> wm_phase m = Opened;
  wi_timeouts : (wm_timeouts m <= if decide (wm_phase m = Closed) then 1 else 0)%nat;
  wi_ready : wm_ready m = true -> wm_phase m = Opened;
  wi_logged_out : wm_ready m = false -> wm_sessionId m = None /\ wm_session m = None;
  wi_listeners : NoDup (wm_distributeMap m).*1;
}.

Lemma ws_inv_new : ws_inv new_WebSocketManager.
Proof. split; cbn; try done; try constructor; done. Qed.

Lemma login_ok m : exists bytes, login m = Ok (ws_send bytes m) /\ decode bytes = Ok (wire 0 1 0 0 []).
Proof. eexists. split; [reflexivity|]. vm_compute. reflexivity. Qed.

Lemma ws_inv_send bytes m : ws_inv m -> ws_inv (ws_send bytes m).
Proof. intros [? ? ? ? ? ?]. by split. Qed.

Lemma sendMessage_cases type cmd data m m' :
  sendMessage type cmd data m = Ok m' -> m' = m \/ exists bytes, m' = ws_send bytes m.
Proof.
  unfold sendMessage. destruct (negb (wm_ready m)); [intros [= ->]; by left|].
  destruct (encode _) as [bytes|]; [|done]. intros [= <-]. right. by eexists.
Qed.

Lemma ws_inv_close wasClean m :
  ws_inv m -> wm_phase m <> Closed -> ws_inv (reconnect wasClean (clearHeartbeat (initLoginInfor (set_phase Closed m)))).
Proof.
  intros [Hi Ho Ht Hr Hl Hn] Hp. rewrite decide_False in Ht by done. unfold clearHeartbeat, initLoginInfor, set_phase. cbn.
  destruct (wm_heartbeatInterval m) as [id|] eqn:Hid; cbn in Hi; rewrite Hi;
    destruct wasClean; split; cbn; rewrite ?decide_True, ?Hi, ?Hid by done; try done; try lia;
    try (split; [by intros [? ?]|done]); by case_decide.
Qed.

Lemma ws_inv_step m ev m' : ws_step m ev m' -> ws_inv m -> ws_inv m'.
Proof.
  intros [m0 ev0 m1 En H|m0 ev0 e En H] I; [|done]. destruct ev0; cbn in H, En.
  - injection H as <-. apply ws_inv_send. destruct I as [Hi Ho Ht Hr Hl Hn]. rewrite En in *.
    split; cbn; try done.
    destruct (wm_heartbeatInterval m0) eqn:Hid; [destruct Ho as [Ho _]; discriminate (Ho ltac:(by eexists))|].
    rewrite Hi. done.
  - destruct (decode data) as [d|]; [|done]. injection H as <-. destruct I as [Hi Ho Ht Hr Hl Hn].
    unfold onmessage. destruct (_ =? HEARTBEAT_TYPE); [by split|]. destruct (_ =? LOGIN_TYPE); [|by split].
    destruct (bool_decide _); by split.
  - by injection H as <-.
  - injection H as <-. by apply ws_inv_close.
  - destruct (sendMessage_cases _ _ _ _ _ H) as [->|[bytes ->]]; [done|by apply ws_inv_send].
  - injection H as <-. destruct I as [Hi Ho Ht Hr Hl Hn]. case_decide as Hc; [|lia]. rewrite Hc in *.
    split; cbn; try done; [|lia|intros E; by specialize (Hr E)].
    split; [intros E; by apply Ho in E|done].
  - injection H as <-. destruct I as [Hi Ho Ht Hr Hl Hn]. unfold registerMessageListener.
    destruct (map_has _ _); [by split|]. split; cbn; try done. by apply map_set_nodup.
  - destruct (sendMessage_cases _ _ _ _ _ H) as [->|[bytes ->]]; [done|by apply ws_inv_send].
Qed.

Lemma ws_inv_run m evs m' : ws_run m evs m' -> ws_inv m -> ws_inv m'.
Proof. induction 1; eauto using ws_inv_step. Qed.

(** C12: The timers of the session.  Whatever happens to the socket and the timers,
    exactly one heartbeat interval runs while the socket is open, the one the
    manager will clear when it closes, and none runs otherwise; at most one
    reconnection waits, and only while the socket is closed; the manager is logged
    in only while the socket is open. *)
Theorem one_heartbeat evs m :
  ws_run new_WebSocketManager evs m ->
  length (wm_intervals m) = (if decide (wm_phase m = Opened) then 1 else 0)%nat /\
  wm_intervals m = option_list (wm_heartbeatInterval m) /\
  (wm_timeouts m <= if decide (wm_phase m = Closed) then 1 else 0)%nat /\
  (wm_ready m = true -> wm_phase m = Opened).
Proof.
  intros R. destruct (ws_inv_run _ _ _ R ws_inv_new) as [Hi Ho Ht Hr Hl Hn]. split; [|done]. rewrite Hi.
  destruct (wm_heartbeatInterval m) as [id|]; cbn; destruct (decide (wm_phase m = Opened)) as [Hp|Hp]; try done.
  - destruct Hp. apply Ho. by eexists.
  - apply Ho in Hp as [? [=]].
Qed.

(** The events of a first session: connect, register a listener, log in, beat, ask,
    get an answer, lose the connection and connect again. *)
Definition login_reply : list Z := [0; 0; 2; 7; 0; 0; 0; 1; 0; 0; 0; 5; 0; 0; 0; 0; 0; 0; 0; 0].
Definition answer : list Z := [8; 0; 3; 7; 0; 0; 0; 1; 0; 0; 0; 5; 0; 0; 0; 2; 0; 0; 0; 0; 65; 66].

Definition sample_events : list ws_event :=
  [Register 8 1; SocketOpen; SocketMessage login_reply; IntervalFires 1; Register 8 2; Send 8 (Some 1) (Some [9]);
   SocketMessage answer; SocketClose false; TimeoutFires; SocketOpen].

(** Run a list of events with their handlers. *)
Fixpoint handle_all (evs : list ws_event) (m : WebSocketManager) : res WebSocketManager :=
  match evs with
  | [] => Ok m
  | ev :: evs => let* m' := handle ev m in handle_all evs m'
  end.

#[export] Instance enabled_dec m ev : Decision (enabled m ev).
Proof. destruct ev; cbn; apply _. Defined.

Fixpoint all_enabled (evs : list ws_event) (m : WebSocketManager) : bool :=
  match evs with
  | [] => true
  | ev :: evs =>
      bool_decide (enabled m ev) && match handle ev m with Ok m' => all_enabled evs m' | Throw _ => false end
  end.

Lemma ws_run_app m evs m' evs' m'' : ws_run m evs m' -> ws_run m' evs' m'' -> ws_run m (evs ++ evs') m''.
Proof.
  intros R. induction 1 as [|m1 evs' m2 ev m3 R' IH St]; [by rewrite app_nil_r|]. rewrite app_assoc.
  eapply ws_next; eauto.
Qed.

Lemma ws_run_cons m ev m1 evs m2 : enabled m ev -> handle ev m = Ok m1 -> ws_run m1 evs m2 -> ws_run m (ev :: evs) m2.
Proof.
  intros En H. apply (ws_run_app m [ev]). apply (ws_next m [] m ev m1); [constructor|]. by apply ws_handled.
Qed.

Lemma handle_all_run evs m m' : all_enabled evs m = true -> handle_all evs m = Ok m' -> ws_run m evs m'.
Proof.
  revert m. induction evs as [|ev evs IH]; intros m; cbn; [intros _ [= ->]; constructor|].
  destruct (handle ev m) as [m1|] eqn:H; [|by rewrite andb_false_r]. intros [En Hen]%andb_true_iff Hall.
  eapply ws_run_cons; [by apply bool_decide_eq_true in En|done|by apply IH].
Qed.

Lemma one_heartbeat_witness :
  exists m, ws_run new_WebSocketManager sample_events m /\ wm_intervals m = [2%nat] /\ length (wm_intervals m) = 1%nat.
Proof.
  eexists. split; [apply handle_all_run; [vm_compute; reflexivity|vm_compute; reflexivity]|].
  split; [reflexivity|]. apply (one_heartbeat sample_events). apply handle_all_run; vm_compute; reflexivity.
Defined.

(** ** The session, abstractly *)

(** The login in force, the frames the service receives, the listener of each
    message type and the calls the listeners get. *)
Record session_spec := {
  sp_login : option (Z * Z);
  sp_frames : list MessageParam;
  sp_listeners : gmap Z nat;
  sp_calls : list (nat * option Z * option (list Z));
}.

Definition spec_init : session_spec :=
  {| sp_login := None; sp_frames := []; sp_listeners := ∅; sp_calls := [] |}.

(** A frame that carries the session leaves only while a login is in force. *)
Definition spec_send (type cmd : Z) (data : list Z) (s : session_spec) : session_spec :=
  match sp_login s with
  | None => s
  | Some (session_id, session) =>
      {| sp_login := sp_login s; sp_frames := sp_frames s ++ [wire type cmd session_id session data];
         sp_listeners := sp_listeners s; sp_calls := sp_calls s |}
  end.

Definition spec_message (d : MessageParam) (s : session_spec) : session_spec :=
  if mp_type d =? HEARTBEAT_TYPE then s
  else if mp_type d =? LOGIN_TYPE then
    match mp_cmd d, mp_session_id d, mp_session d with
    | Some cmd, Some i, Some w =>
        if cmd =? LOGIN_CMD then
          {| sp_login := Some (i, w); sp_frames := sp_frames s; sp_listeners := sp_listeners s; sp_calls := sp_calls s |}
        else s
    | _, _, _ => s
    end
  else
    match sp_listeners s !! mp_type d with
    | Some callback =>
        {| sp_login := sp_login s; sp_frames := sp_frames s; sp_listeners := sp_listeners s;
           sp_calls := sp_calls s ++ [(callback, mp_cmd d, mp_data d)] |}
    | None => s
    end.

Definition spec_event (s : session_spec) (ev : ws_event) : session_spec :=
  match ev with
  | SocketOpen =>
      {| sp_login := sp_login s; sp_frames := sp_frames s ++ [wire 0 1 0 0 []]; sp_listeners := sp_listeners s;
         sp_calls := sp_calls s |}
  | SocketMessage data => match decode data with Ok d => spec_message d s | Throw _ => s end
  | SocketError | TimeoutFires => s
  | SocketClose _ =>
      {| sp_login := None; sp_frames := sp_frames s; sp_listeners := sp_listeners s; sp_calls := sp_calls s |}
  | IntervalFires _ => spec_send HEARTBEAT_TYPE 0 [] s
  | Register type callback =>
      {| sp_login := sp_login s; sp_frames := sp_frames s;
         sp_listeners := if sp_listeners s !! type then sp_listeners s else <[type := callback]> (sp_listeners s);
         sp_calls := sp_calls s |}
  | Send type cmd data => spec_send type (or_zero cmd) (default [] data) s
  end.

Definition spec_of (evs : list ws_event) : session_spec := foldl spec_event spec_init evs.

(** What the modules send fits the head, and what the socket delivers is bytes. *)
Definition event_ok (ev : ws_event) : Prop :=
  match ev with
  | SocketMessage data => Forall is_byte data
  | Send type cmd data =>
      is_byte type /\ 0 <= or_zero cmd < 2 ^ 16 /\ zlen (default [] data) < 2 ^ 32
  | _ => True
  end.

#[export] Instance event_ok_dec ev : Decision (event_ok ev).
Proof. destruct ev; cbn; apply _. Defined.

Definition login_range (l : Z * Z) : Prop := is_byte l.1 /\ 0 <= l.2 < 2 ^ 64.

Record refines (m : WebSocketManager) (s : session_spec) : Prop := {
  rf_ready : wm_ready m = bool_decide (is_Some (sp_login s));
  rf_id : wm_sessionId m = fst <$> sp_login s;
  rf_session : wm_session m = snd <$> sp_login s;
  rf_range : forall l, sp_login s = Some l -> login_range l;
  rf_frames : decode <$> wm_sent m = Ok <$> sp_frames s;
  rf_listeners : forall t, map_get (wm_distributeMap m) t = sp_listeners s !! t;
  rf_nodup : NoDup (wm_distributeMap m).*1;
  rf_calls : wm_called m = sp_calls s;
}.

(** ** Refinement *)

Lemma getUint8_range view i v : Forall is_byte view -> getUint8 view i = Ok v -> is_byte v.
Proof.
  unfold getUint8, zlookup. intros Hb. destruct (i <? 0); [done|]. destruct (view !! Z.to_nat i) eqn:E; [|done].
  intros [= <-]. by eapply Forall_lookup_1.
Qed.

Lemma getUint32_range view i v : Forall is_byte view -> getUint32 view i = Ok v -> 0 <= v < 2 ^ 32.
Proof.
  intros Hb. unfold getUint32.
  destruct (getUint8 view i) as [b3|] eqn:E3; [|done]. destruct (getUint8 view (i + 1)) as [b2|] eqn:E2; [|done].
  destruct (getUint8 view (i + 2)) as [b1|] eqn:E1; [|done]. destruct (getUint8 view (i + 3)) as [b0|] eqn:E0; [|done].
  apply getUint8_range in E3, E2, E1, E0; [|done..]. intros H. apply Ok_inj in H. unfold is_byte in *. lia.
Qed.

(** A decoded message has all its fields, in their ranges. *)
Lemma decode_range data d :
  Forall is_byte data -> decode data = Ok d ->
  exists c i w, mp_cmd d = Some c /\ mp_session_id d = Some i /\ mp_session d = Some w /\ login_range (i, w).
Proof.
  intros Hb. unfold decode.
  destruct (getUint32 data 4) as [hi|] eqn:Ehi; [|done]. destruct (getUint32 data 8) as [lo|] eqn:Elo; [|done].
  apply getUint32_range in Ehi, Elo; [|done..]. cbn [res_bind]. destruct (zlen data <? MSG_HEAD_LENGTH); [done|].
  destruct (getUint8 data 0); [|done]. destruct (getUint16 data 1) as [c|]; [|done].
  destruct (getUint8 data 3) as [i|] eqn:Ei; [|done]. apply getUint8_range in Ei; [|done].
  destruct (getUint32 data 12); [|done]. cbn [res_bind]. intros H. apply Ok_inj in H. subst d.
  eexists _, _, _. do 3 (split; [reflexivity|]). split; [done|]. cbn [snd]. rewrite join_words by done. lia.
Qed.

Lemma filter_key (l : list (Z * nat)) t :
  NoDup l.*1 -> filter (fun kc => kc.1 = t) l = option_list (pair t <$> map_get l t).
Proof.
  induction l as [|[k c] l IH]; [done|]. rewrite fmap_cons, NoDup_cons. cbn [fst map_get]. intros [Hk HN].
  destruct (decide (k = t)) as [->|Hne].
  - rewrite filter_cons_True, IH by done. destruct (map_get l t) eqn:E; [|done].
    destruct Hk. apply map_get_elem. by rewrite E.
  - by rewrite filter_cons_False, IH.
Qed.

(** Sending in a session that refines the specification sends the frame. *)
Lemma sendMessage_refines type cmd data m s :
  event_ok (Send type cmd data) -> refines m s ->
  exists m', sendMessage type cmd data m = Ok m' /\ refines m' (spec_send type (or_zero cmd) (default [] data) s).
Proof.
  intros (Ht & Hc & Hd) R. destruct R as [Hr Hi Hs Hg Hf Hl Hn Hk]. unfold sendMessage, spec_send. rewrite Hr.
  destruct (sp_login s) as [[i w]|] eqn:Hlog; cbn [bool_decide negb].
  2:{ exists m. split; [done|]. by split; rewrite ?Hlog. }
  rewrite bool_decide_true by done. cbn [negb]. rewrite Hi, Hs. cbn [fmap option_fmap option_map fst snd].
  destruct (Hg _ eq_refl) as [Hgi Hgw]. cbn [fst snd] in *.
  assert (OK : message_ok (message_of type cmd data (Some i) (Some w)))
    by (split; cbn [mp_type mp_cmd mp_session_id mp_session mp_data_lenght mp_data message_of]; try done; by destruct data).
  rewrite (encode_layout _ OK). eexists. split; [reflexivity|].
  split; cbn [ws_send wm_ready wm_sessionId wm_session wm_sent wm_distributeMap wm_called sp_login sp_frames sp_listeners sp_calls];
    rewrite ?Hlog; try done.
  rewrite !fmap_app, Hf. f_equal. cbn [fmap list_fmap]. f_equal.
  by apply (decode_encode _ _ OK), encode_layout.
Qed.

Lemma onmessage_refines data d m s :
  Forall is_byte data -> decode data = Ok d -> refines m s ->
  refines (if mp_type d =? HEARTBEAT_TYPE then m else onmessage d m) (spec_message d s).
Proof.
  intros Hb Hd R. destruct (decode_range _ _ Hb Hd) as (c & i & w & Ec & Ei & Ew & Hg). unfold spec_message, onmessage.
  destruct (_ =? HEARTBEAT_TYPE); [done|]. destruct R as [Hr Hi Hs Hgs Hf Hl Hn Hk]. destruct (_ =? LOGIN_TYPE).
  - rewrite Ec, Ei, Ew. destruct (Z.eqb_spec c LOGIN_CMD) as [->|Hne].
    + rewrite bool_decide_true by done. split; cbn; try done. by intros l [= <-].
    + rewrite bool_decide_false by congruence. done.
  - rewrite <- Hl. unfold call_listeners. rewrite (filter_key _ _ Hn).
    destruct (map_get _ _); split; cbn; rewrite ?app_nil_r, ?Hk; done.
Qed.

Lemma register_refines t c m s :
  refines m s -> refines (registerMessageListener t c m) (spec_event s (Register t c)).
Proof.
  intros [Hr Hi Hs Hg Hf Hl Hn Hk]. unfold registerMessageListener, map_has. cbn [spec_event]. rewrite <- (Hl t).
  destruct (map_get _ t) eqn:E; split; cbn; try done.
  - intros t'. rewrite map_get_set. case_decide as Ht; [subst; by rewrite lookup_insert_eq|].
    by rewrite lookup_insert_ne, Hl.
  - by apply map_set_nodup.
Qed.

Lemma refines_step m ev m' s : ws_step m ev m' -> event_ok ev -> refines m s -> refines m' (spec_event s ev).
Proof.
  intros St OK R.
  assert (Hsend : forall t c d, event_ok (Send t c d) -> forall r, sendMessage t c d m = r ->
    exists m1, r = Ok m1 /\ refines m1 (spec_send t (or_zero c) (default [] d) s)).
  { intros t c d Hev r <-. by apply sendMessage_refines. }
  destruct St as [m0 ev0 m1 En H|m0 ev0 e En H]; destruct ev0 as [|data| | | | | |]; cbn [handle] in H.
  - destruct (login_ok (sendHeartbeat (set_phase Opened m0))) as (bytes & E & D). rewrite E in H. apply Ok_inj in H.
    subst m1. destruct R as [Hr Hi Hs Hg Hf Hl Hn Hk]. split; cbn [spec_event sp_login sp_frames sp_listeners sp_calls ws_send
      sendHeartbeat set_phase wm_ready wm_sessionId wm_session wm_sent wm_distributeMap wm_called]; try done.
    rewrite !fmap_app, Hf. cbn [fmap list_fmap]. by rewrite D.
  - cbn [spec_event]. destruct (decode data) as [d|] eqn:D; [|done]. apply Ok_inj in H. subst m1.
    by apply (onmessage_refines data).
  - apply Ok_inj in H. by subst m1.
  - apply Ok_inj in H. subst m1. destruct R as [Hr Hi Hs Hg Hf Hl Hn Hk]. unfold clearHeartbeat, reconnect.
    cbn. destruct (wm_heartbeatInterval m0), wasClean; by split.
  - destruct (Hsend HEARTBEAT_TYPE None None ltac:(vm_compute; intuition congruence) _ H) as (m2 & E & R2).
    apply Ok_inj in E. by subst m2.
  - apply Ok_inj in H. subst m1. destruct R as [Hr Hi Hs Hg Hf Hl Hn Hk]. by split.
  - apply Ok_inj in H. subst m1. by apply register_refines.
  - destruct (Hsend _ _ _ OK _ H) as (m2 & E & R2). apply Ok_inj in E. by subst m2.
  - done.
  - cbn [spec_event]. by destruct (decode data).
  - done.
  - done.
  - destruct (Hsend HEARTBEAT_TYPE None None ltac:(vm_compute; intuition congruence) _ H) as (m2 & E & R2). done.
  - done.
  - done.
  - destruct (Hsend _ _ _ OK _ H) as (m2 & E & R2). done.
Qed.

Lemma refines_init : refines new_WebSocketManager spec_init.
Proof. split; cbn; try done. constructor. Qed.

(** C10: The session manager implements the abstract session.  After any sequence
    of socket, timer and module events: the manager says it is ready, and keeps a
    session, exactly when a login was accepted since the last close, with the
    numbers of that login; the service decodes the buffers it was sent to one login
    frame per connection and, for each heartbeat and each message sent while logged
    in, one frame with the session's numbers (none while logged out); and each
    incoming message calls once the listener registered first for its type. *)
Theorem session_refines evs m :
  ws_run new_WebSocketManager evs m -> Forall event_ok evs ->
  wm_ready m = bool_decide (is_Some (sp_login (spec_of evs))) /\
  wm_sessionId m = fst <$> sp_login (spec_of evs) /\ wm_session m = snd <$> sp_login (spec_of evs) /\
  decode <$> wm_sent m = Ok <$> sp_frames (spec_of evs) /\
  (forall t, map_get (wm_distributeMap m) t = sp_listeners (spec_of evs) !! t) /\
  wm_called m = sp_calls (spec_of evs).
Proof.
  intros Run Hok. enough (refines m (spec_of evs)) as [? ? ? ? ? ? ? ?] by done.
  remember new_WebSocketManager as m0 eqn:E0. induction Run as [|m0 evs m1 ev m2 Run IH St]; subst.
  - apply refines_init.
  - apply Forall_app in Hok as [Hevs Hev]. rewrite Forall_singleton in Hev. unfold spec_of. rewrite foldl_app.
    eapply refines_step; [done..|]. by apply IH.
Qed.

Lemma session_refines_witness :
  exists m, ws_run new_WebSocketManager sample_events m /\
    decode <$> wm_sent m =
      Ok <$> [wire 0 1 0 0 []; wire 1 0 7 0x100000005 []; wire 8 1 7 0x100000005 [9]; wire 0 1 0 0 []] /\
    wm_called m = [(1%nat, Some 3, Some [65; 66])].
Proof.
  assert (Hrun : exists m, ws_run new_WebSocketManager sample_events m)
    by (eexists; apply handle_all_run; vm_compute; reflexivity).
  destruct Hrun as [m Hrun]. exists m. split; [exact Hrun|].
  assert (Hok : Forall event_ok sample_events)
    by (apply (bool_decide_unpack (Forall event_ok sample_events)); vm_compute; exact I).
  destruct (session_refines sample_events m Hrun Hok) as (_ & _ & _ & H1 & _ & H2).
  rewrite H1, H2. split; vm_compute; reflexivity.
Defined.

(** C13: A dropped connection recovers.  In any reachable state with a connecting or
    open socket, an unclean close, the reconnection timer, the opening of the new
    socket and the service's acceptance of the login can happen in this order, and
    lead to a manager that is logged in with the new session's numbers, has sent
    exactly one more frame, the login, and runs exactly one heartbeat. *)
Theorem recovers_after_drop evs m reply d :
  ws_run new_WebSocketManager evs m -> wm_phase m <> Closed ->
  decode reply = Ok d -> mp_type d = LOGIN_TYPE -> mp_cmd d = Some LOGIN_CMD ->
  exists m' bytes,
    ws_run m [SocketClose false; TimeoutFires; SocketOpen; SocketMessage reply] m' /\
    wm_ready m' = true /\ wm_sessionId m' = mp_session_id d /\ wm_session m' = mp_session d /\
    wm_sent m' = wm_sent m ++ [bytes] /\ decode bytes = Ok (wire 0 1 0 0 []) /\
    length (wm_intervals m') = 1%nat /\ wm_timeouts m' = 0%nat.
Proof.
  intros Run Hp Hd Ht Hc. pose proof (ws_inv_run _ _ _ Run ws_inv_new) as I.
  pose proof (wi_timeouts _ I) as Hto. rewrite decide_False in Hto by done.
  pose proof (ws_inv_close false m I Hp) as I1.
  set (m1 := reconnect false _) in I1.
  assert (Hm1 : wm_timeouts m1 = 1%nat /\ wm_sent m1 = wm_sent m /\ wm_intervals m1 = [] /\ wm_heartbeatInterval m1 = None).
  { destruct I1 as [Hi1 Ho1 _ _ _ _]. unfold m1 in *. revert Hi1 Ho1. unfold clearHeartbeat. cbn.
    destruct (wm_heartbeatInterval m) eqn:E; cbn; rewrite ?E; intros -> Ho1; split_and!; try done; lia. }
  assert (Hclose : handle (SocketClose false) m = Ok m1) by done.
  clearbody m1. destruct Hm1 as (Hm1t & Hm1s & Hm1i & Hm1h). eexists _, _. split; [|split_and!].
  - eapply ws_run_cons; [exact Hp|exact Hclose|].
    eapply ws_run_cons; [cbn; lia|reflexivity|]. eapply ws_run_cons; [reflexivity|reflexivity|].
    eapply ws_run_cons; [reflexivity|cbn [handle]; rewrite Hd; reflexivity|constructor].
  - unfold onmessage. rewrite Ht, Hc. reflexivity.
  - unfold onmessage. rewrite Ht, Hc. reflexivity.
  - unfold onmessage. rewrite Ht, Hc. reflexivity.
  - unfold onmessage. rewrite Ht, Hc, <- Hm1s. reflexivity.
  - vm_compute. reflexivity.
  - unfold onmessage. rewrite Ht, Hc. cbn. by rewrite Hm1i.
  - unfold onmessage. rewrite Ht, Hc. cbn. by rewrite Hm1t.
Qed.

Lemma recovers_after_drop_witness :
  exists m m', ws_run new_WebSocketManager [SocketOpen] m /\
    ws_run m [SocketClose false; TimeoutFires; SocketOpen; SocketMessage login_reply] m' /\
    wm_ready m' = true /\ wm_sessionId m' = Some 7.
Proof.
  assert (Hrun : exists m, ws_run new_WebSocketManager [SocketOpen] m /\ wm_phase m <> Closed)
    by (eexists; split; [apply handle_all_run; vm_compute; reflexivity|done]).
  destruct Hrun as (m & Hrun & Hp). exists m.
  destruct (recovers_after_drop [SocketOpen] m login_reply (wire 0 2 7 0x100000005 []) Hrun Hp
              ltac:(vm_compute; reflexivity) ltac:(reflexivity) ltac:(reflexivity))
    as (m' & bytes & Hr & Hready & Hid & _).
  exists m'. split_and!; [exact Hrun|exact Hr|exact Hready|exact Hid].
Defined.
