(* ===== verification/CallTree.v ===== *)
(** * Filtering a call tree

    [MerageBean] and the class [MerageBeanDataSplit]
    ([trace/database/logic-worker/ProcedureLogicWorkerCommon.ts]).  The beans of a
    tree refer to each other, to their parents and to their children, and are
    changed in place: they are the cells of a store, and a reference is a position
    there.  [initChildren] and [parentNode] are the tree as it was built,
    [children] the tree as it is shown.  A bean is hidden when its counter
    [isStore] is not 0: each filter that hides it counts once, and
    [splitMapData] remembers per filter which beans it counted, so that the filter
    can be taken back.

    The recursive functions take the number of levels they may descend and return
    [None] when it is too small; the theorems take any number above the height of
    the tree. *)

From S2P Require Import Prelude JsRuntime HeapModel.

(** ** Beans *)

(** [mb_rest]: the fields of a subclass and those that the filters do not use. *)
Record MerageBean (X : Type) := {
  mb_symbol : jsstring;
  mb_lib : jsstring;
  mb_path : jsstring;
  mb_count : Z;
  mb_parent : option nat;
  mb_parentNode : option nat;
  mb_initChildren : list nat;
  mb_children : list nat;
  mb_isStore : Z;
  mb_searchShow : bool;
  mb_isSearch : bool;
  mb_currentTreeParentNode : option nat;
  mb_rest : X;
}.
Arguments mb_symbol {X} _.
Arguments mb_lib {X} _.
Arguments mb_path {X} _.
Arguments mb_count {X} _.
Arguments mb_parent {X} _.
Arguments mb_parentNode {X} _.
Arguments mb_initChildren {X} _.
Arguments mb_children {X} _.
Arguments mb_isStore {X} _.
Arguments mb_searchShow {X} _.
Arguments mb_isSearch {X} _.
Arguments mb_currentTreeParentNode {X} _.
Arguments mb_rest {X} _.

(** Run [f] over a list, as [forEach] with a callback that may not return. *)
Definition foldM {S A} (f : S -> A -> option S) : list A -> S -> option S :=
  fix go l s := match l with [] => Some s | a :: l => s' ← f s a; go l s' end.

Abbreviation beans X := (list (MerageBean X)).

(** [splitMapData]: the beans counted by each filter.  The code keeps them in a plain
    object; symbols that are names of properties which every object inherits
    ([constructor], [toString], ...), on which its [push] throws, are left out. *)
Abbreviation split_map := (@gmap (list Z) list_eq_dec list_countable (list nat)).

Abbreviation split_state X := (beans X * split_map)%type.

Section Beans.
Context {X : Type}.

Definition with_children (l : list nat) (n : MerageBean X) : MerageBean X :=
  {| mb_symbol := mb_symbol n; mb_lib := mb_lib n; mb_path := mb_path n; mb_count := mb_count n;
     mb_parent := mb_parent n; mb_parentNode := mb_parentNode n; mb_initChildren := mb_initChildren n;
     mb_children := l; mb_isStore := mb_isStore n; mb_searchShow := mb_searchShow n; mb_isSearch := mb_isSearch n;
     mb_currentTreeParentNode := mb_currentTreeParentNode n; mb_rest := mb_rest n |}.

Definition with_isStore (k : Z) (n : MerageBean X) : MerageBean X :=
  {| mb_symbol := mb_symbol n; mb_lib := mb_lib n; mb_path := mb_path n; mb_count := mb_count n;
     mb_parent := mb_parent n; mb_parentNode := mb_parentNode n; mb_initChildren := mb_initChildren n;
     mb_children := mb_children n; mb_isStore := k; mb_searchShow := mb_searchShow n; mb_isSearch := mb_isSearch n;
     mb_currentTreeParentNode := mb_currentTreeParentNode n; mb_rest := mb_rest n |}.

Definition with_search (show search : bool) (n : MerageBean X) : MerageBean X :=
  {| mb_symbol := mb_symbol n; mb_lib := mb_lib n; mb_path := mb_path n; mb_count := mb_count n;
     mb_parent := mb_parent n; mb_parentNode := mb_parentNode n; mb_initChildren := mb_initChildren n;
     mb_children := mb_children n; mb_isStore := mb_isStore n; mb_searchShow := show; mb_isSearch := search;
     mb_currentTreeParentNode := mb_currentTreeParentNode n; mb_rest := mb_rest n |}.

Definition with_treeParent (p : nat) (n : MerageBean X) : MerageBean X :=
  {| mb_symbol := mb_symbol n; mb_lib := mb_lib n; mb_path := mb_path n; mb_count := mb_count n;
     mb_parent := mb_parent n; mb_parentNode := mb_parentNode n; mb_initChildren := mb_initChildren n;
     mb_children := mb_children n; mb_isStore := mb_isStore n; mb_searchShow := mb_searchShow n;
     mb_isSearch := mb_isSearch n; mb_currentTreeParentNode := Some p; mb_rest := mb_rest n |}.

(** ** Counting beans *)

(** [(splitMapData[name] = splitMapData[name] || []).push(node); node.isStore++]. *)
Definition store_node (name : jsstring) (st : split_state X) (i : nat) : split_state X :=
  (alter (fun n => with_isStore (mb_isStore n + 1) n) i st.1, <[name := default [] (st.2 !! name) ++ [i]]> st.2).

(** The test for a symbol or a library of that name. *)
Definition named (name : jsstring) (isSymbol : bool) (n : MerageBean X) : bool :=
  (isSymbol && bool_decide (mb_symbol n = name)) || (negb isSymbol && bool_decide (mb_lib n = name)).

Fixpoint recursionChargeInitTree (levels : nat) (name : jsstring) (isSymbol : bool) (st : split_state X) (i : nat) :
    option (split_state X) :=
  match levels with
  | O => None
  | S levels' =>
      match st.1 !! i with
      | None => Some st
      | Some node =>
          let st := if named name isSymbol node then store_node name st i else st in
          foldM (recursionChargeInitTree levels' name isSymbol) (mb_initChildren node) st
      end
  end.

Fixpoint pruneChildren (levels : nat) (name : jsstring) (st : split_state X) (i : nat) : option (split_state X) :=
  match levels with
  | O => None
  | S levels' =>
      match st.1 !! i with
      | None => Some st
      | Some node => foldM (fun st c => pruneChildren levels' name (store_node name st c) c) (mb_initChildren node) st
      end
  end.

Fixpoint recursionPruneInitTree (levels : nat) (name : jsstring) (isSymbol : bool) (st : split_state X) (i : nat) :
    option (split_state X) :=
  match levels with
  | O => None
  | S levels' =>
      match st.1 !! i with
      | None => Some st
      | Some node =>
          if named name isSymbol node then pruneChildren (S levels') name (store_node name st i) i
          else foldM (recursionPruneInitTree levels' name isSymbol) (mb_initChildren node) st
      end
  end.

(** [array.splice(array.indexOf(x), 1)]: without [x] the position is -1, and the
    last element is removed. *)
Definition splice_out (x : nat) (l : list nat) : list nat :=
  match list_find (.= x) l with Some (k, _) => delete k l | None => removelast l end.

(** [forEach] walks the array while the callback removes entries from it. *)
Fixpoint recursionPruneTree (levels : nat) (name : jsstring) (isSymbol : bool) (s : beans X) (i : nat) : option (beans X) :=
  match levels with
  | O => None
  | S levels' =>
      match s !! i with
      | None => Some s
      | Some node =>
          if named name isSymbol node then
            Some match mb_parent node with
                 | Some p => alter (fun n => with_children (splice_out i (mb_children n)) n) p s
                 | None => s
                 end
          else
            foldM (fun s k =>
                match s !! i ≫= fun n => mb_children n !! k with
                | Some child => recursionPruneTree levels' name isSymbol s child
                | None => Some s
                end) (seq 0 (length (mb_children node))) s
      end
  end.

Fixpoint recursionChargeByRule (levels : nat) (ruleName : jsstring) (rule : MerageBean X -> bool) (st : split_state X)
    (i : nat) : option (split_state X) :=
  match levels with
  | O => None
  | S levels' =>
      match st.1 !! i with
      | None => Some st
      | Some node =>
          foldM (fun st c =>
              let st := match st.1 !! c with
                        | Some child => if rule child then store_node ruleName st c else st
                        | None => st
                        end in
              recursionChargeByRule levels' ruleName rule st c) (mb_initChildren node) st
      end
  end.

Definition systmeRuleName : jsstring := js "/system/".
Definition numRuleName : jsstring := js "/max/min/".

(** [item.children = []] *)
Definition clear_children (s : beans X) (i : nat) : beans X := alter (with_children []) i s.

Definition hideSystemLibrary (levels : nat) (allProcess : list nat) (st : split_state X) : option (split_state X) :=
  foldM (fun st item =>
      recursionChargeByRule levels systmeRuleName (fun node => startsWith (mb_path node) systmeRuleName)
        (clear_children st.1 item, st.2) item) allProcess st.

(** [endNum] is the text of a number or the sign of infinity; no number is above
    infinity or NaN, which is [None]. *)
Definition num_max (endNum : jsstring) : option Z :=
  if bool_decide (endNum = [0x221E]) then None else parseInt endNum.

Definition out_of_range (startNum : Z) (max : option Z) (node : MerageBean X) : bool :=
  (mb_count node <? startNum) || match max with Some m => m <? mb_count node | None => false end.

Definition hideNumMaxAndMin (levels : nat) (allProcess : list nat) (startNum : Z) (endNum : jsstring)
    (st : split_state X) : option (split_state X) :=
  foldM (fun st item =>
      recursionChargeByRule levels numRuleName (out_of_range startNum (num_max endNum))
        (clear_children st.1 item, st.2) item) allProcess st.

Definition unstore_node (s : beans X) (i : nat) : beans X := alter (fun n => with_isStore (mb_isStore n - 1) n) i s.

Definition resotreAllNode (symbols : list jsstring) (st : split_state X) : split_state X :=
  (foldl (fun s symbol => foldl unstore_node s (default [] (st.2 !! symbol))) st.1 symbols, st.2).

(** An entry of the list of filters: [select === '0'] is charging, otherwise
    pruning; [type === 'symbol'] is a symbol, otherwise a library. *)
Record split_item := { si_name : jsstring; si_charge : bool; si_symbol : bool; si_checked : bool }.

Definition splitAllProcess (levels : nat) (allProcess : list nat) (items : list split_item) (st : split_state X) :
    option (split_state X) :=
  foldM (fun st item =>
      st ← foldM (fun st process =>
             if si_charge item then recursionChargeInitTree levels (si_name item) (si_symbol item) st process
             else recursionPruneInitTree levels (si_name item) (si_symbol item) st process) allProcess st;
      Some (if si_checked item then st else resotreAllNode [si_name item] st)) items st.

(** ** The shown tree *)

Definition visible (n : MerageBean X) : bool := (mb_isStore n =? 0) && mb_searchShow n.

(** The nearest visible bean from [p] upwards along [parentNode]. *)
Fixpoint visible_from (levels : nat) (s : beans X) (p : option nat) : option (option nat) :=
  match levels, p with
  | _, None => Some None
  | O, Some _ => None
  | S levels', Some i =>
      match s !! i with
      | None => Some None
      | Some n => if visible n then Some (Some i) else visible_from levels' s (mb_parentNode n)
      end
  end.

Definition attach_item (levels : nat) (s : beans X) (i : nat) : option (beans X) :=
  match s !! i with
  | None => Some s
  | Some item =>
      if bool_decide (is_Some (mb_parentNode item)) && visible item then
        p ← visible_from levels s (mb_parentNode item);
        Some match p with
             | Some p => alter (fun n => with_children (mb_children n ++ [i]) n) p (alter (with_treeParent p) i s)
             | None => s
             end
      else Some s
  end.

Definition resetNewAllNode (levels : nat) (data currentTreeList : list nat) (s : beans X) : option (beans X) :=
  let s := foldl clear_children s data in
  let s := foldl clear_children s currentTreeList in
  foldM (attach_item levels) currentTreeList s.

(** [node.searchShow = true; node.isSearch = false] *)
Definition clear_search (s : beans X) (i : nat) : beans X := alter (with_search true false) i s.

Definition clearSearchNode (currentTreeList : list nat) (s : beans X) : beans X := foldl clear_search s currentTreeList.

(** ** Searching *)

Section Search.
Context (toLocaleLowerCase : jsstring -> jsstring).

(** [search] is in lower case. *)
Definition matches (search : jsstring) (n : MerageBean X) : bool :=
  negb (bool_decide (mb_symbol n = [])) && includes (toLocaleLowerCase (mb_symbol n)) search.

(** Show the hidden beans from [p] upwards along [parent], up to a shown one. *)
Fixpoint show_from (levels : nat) (s : beans X) (p : option nat) : option (beans X) :=
  match levels, p with
  | _, None => Some s
  | O, Some _ => None
  | S levels', Some i =>
      match s !! i with
      | None => Some s
      | Some n =>
          if mb_searchShow n then Some s
          else show_from levels' (<[i := with_search true (mb_isSearch n) n]> s) (mb_parent n)
      end
  end.

(** A path upwards has at most as many beans as there are. *)
Definition search_item (search : jsstring) (parentSearch : bool) (s : beans X) (i : nat) : option (beans X) :=
  match s !! i with
  | None => Some s
  | Some item =>
      if matches search item || parentSearch then
        show_from (length s) (<[i := with_search true (includes (toLocaleLowerCase (mb_symbol item)) search) item]> s)
          (mb_parent item)
      else Some (<[i := with_search false false item]> s)
  end.

Fixpoint findSearchNode (levels : nat) (data : list nat) (search : jsstring) (parentSearch : bool) (s : beans X) :
    option (beans X) :=
  match levels with
  | O => None
  | S levels' =>
      let search := toLocaleLowerCase search in
      foldM (fun s i =>
          s ← search_item search parentSearch s i;
          match s !! i with
          | Some item => findSearchNode levels' (mb_children item) search (mb_searchShow item) s
          | None => Some s
          end) data s
  end.

Definition resetAllNode (levels : nat) (data currentTreeList : list nat) (searchValue : jsstring) (s : beans X) :
    option (beans X) :=
  let s := clearSearchNode currentTreeList s in
  let s := foldl clear_search s data in
  s ← resetNewAllNode levels data currentTreeList s;
  if bool_decide (searchValue = []) then Some s
  else
    s ← findSearchNode levels data searchValue false s;
    resetNewAllNode levels data currentTreeList s.

Definition splitTree (levels : nat) (data : list nat) (name : jsstring) (isCharge isSymbol : bool)
    (currentTreeList : list nat) (searchValue : jsstring) (st : split_state X) : option (split_state X) :=
  st ← foldM (fun st process =>
         let st := (clear_children st.1 process, st.2) in
         if isCharge then recursionChargeInitTree levels name isSymbol st process
         else recursionPruneInitTree levels name isSymbol st process) data st;
  s ← resetAllNode levels data currentTreeList searchValue st.1;
  Some (s, st.2).
End Search.
End Beans.

(** ** Trees *)

Section Trees.
Context {X : Type}.
Implicit Types (s : beans X) (st : split_state X) (name : jsstring).

(** [c] is a child of [i] in the tree as it was built. *)
Definition child s (i c : nat) : Prop := exists n, s !! i = Some n /\ c ∈ mb_initChildren n.

(** A forest of height [h]: children are beans, no bean is twice a child. *)
Record forest (h : nat -> nat) s : Prop := {
  fo_height : forall i c, child s i c -> (h c < h i)%nat;
  fo_bean : forall i c, child s i c -> is_Some (s !! c);
  fo_nodup : forall i n, s !! i = Some n -> NoDup (mb_initChildren n);
  fo_parent : forall i j c, child s i c -> child s j c -> i = j;
}.

(** The beans of the tree of [i] in the order in which they are met. *)
Fixpoint preorder (levels : nat) s (i : nat) : list nat :=
  match levels with
  | O => []
  | S levels' =>
      match s !! i with None => [] | Some n => i :: flat_map (preorder levels' s) (mb_initChildren n) end
  end.

(** Those of them for which [p] holds, and those at or below one for which it does. *)
Fixpoint charged (levels : nat) s (p : MerageBean X -> bool) (i : nat) : list nat :=
  match levels with
  | O => []
  | S levels' =>
      match s !! i with
      | None => []
      | Some n => (if p n then [i] else []) ++ flat_map (charged levels' s p) (mb_initChildren n)
      end
  end.

Fixpoint pruned (levels : nat) s (p : MerageBean X -> bool) (i : nat) : list nat :=
  match levels with
  | O => []
  | S levels' =>
      match s !! i with
      | None => []
      | Some n => if p n then preorder (S levels') s i else flat_map (pruned levels' s p) (mb_initChildren n)
      end
  end.

Definition mark_all (name : jsstring) (l : list nat) st : split_state X := foldl (store_node name) st l.

(** ** Counting keeps the tree *)

(** What of a bean the filters leave alone. *)
Definition built (n : MerageBean X) : MerageBean X := with_children [] (with_isStore 0 n).
Definition same_tree s s' : Prop := built <$> s = built <$> s'.

#[local] Instance same_tree_equiv : Equivalence same_tree.
Proof. unfold same_tree. split; red; [done|by symmetry|congruence]. Qed.

Lemma same_lookup s s' i n :
  same_tree s s' -> s !! i = Some n -> exists k l, s' !! i = Some (with_children l (with_isStore k n)).
Proof.
  intros H Hi. apply (f_equal (.!! i)) in H. rewrite !list_lookup_fmap, Hi in H.
  destruct (s' !! i) as [n'|] eqn:E; [|done]. apply (inj Some) in H. exists (mb_isStore n'), (mb_children n').
  f_equal. injection H. intros. destruct n, n'; cbn in *. unfold with_children, with_isStore. cbn. congruence.
Qed.

Lemma same_lookup_None s s' i : same_tree s s' -> s !! i = None -> s' !! i = None.
Proof.
  intros H Hi. apply (f_equal (.!! i)) in H. rewrite !list_lookup_fmap, Hi in H. by destruct (s' !! i).
Qed.

Lemma alter_same f i s : (forall n, built (f n) = built n) -> same_tree s (alter f i s).
Proof.
  intros Hf.   unfold same_tree. apply list_eq. intros j. rewrite !list_lookup_fmap.
  destruct (decide (i = j)) as [->|Hne]; [|by rewrite list_lookup_alter_ne].
  rewrite list_lookup_alter_eq. destruct (s !! j); [|done]. cbn [fmap option_fmap option_map]. by rewrite Hf.
Qed.

Lemma mark_all_same name l st : same_tree st.1 (mark_all name l st).1.
Proof.
  revert st. induction l as [|i l IH]; intros st; [done|]. cbn [mark_all foldl]. etrans; [|apply IH]. by apply alter_same.
Qed.

Lemma mark_all_app name l k st : mark_all name (l ++ k) st = mark_all name k (mark_all name l st).
Proof. apply foldl_app. Qed.

Lemma foldM_mark name s (f : split_state X -> nat -> option (split_state X)) g l st :
  same_tree s st.1 ->
  (forall st a, a ∈ l -> same_tree s st.1 -> f st a = Some (mark_all name (g a) st)) ->
  foldM f l st = Some (mark_all name (flat_map g l) st).
Proof.
  revert st. induction l as [|a l IH]; intros st Hs Hf; [done|]. cbn [foldM flat_map].
  rewrite Hf by (done || set_solver). cbn [mbind option_bind]. rewrite mark_all_app. apply IH.
  - etrans; [done|apply mark_all_same].
  - intros st' a' Ha'. apply Hf. set_solver.
Qed.

Lemma named_same name isSymbol k l (n : MerageBean X) :
  named name isSymbol (with_children l (with_isStore k n)) = named name isSymbol n.
Proof. done. Qed.

Lemma initChildren_same k l (n : MerageBean X) :
  mb_initChildren (with_children l (with_isStore k n)) = mb_initChildren n.
Proof. done. Qed.

Lemma charge_marks levels h s name isSymbol i st :
  forest h s -> (h i < levels)%nat -> same_tree s st.1 ->
  recursionChargeInitTree levels name isSymbol st i =
    Some (mark_all name (charged levels s (named name isSymbol) i) st).
Proof.
  intros F. revert i st. induction levels as [|levels IH]; intros i st Hh Hs; [lia|]. cbn [recursionChargeInitTree charged].
  destruct (s !! i) as [n|] eqn:Hi; [|by rewrite (same_lookup_None _ _ _ Hs Hi)].
  destruct (same_lookup _ _ _ _ Hs Hi) as (k & l & ->). rewrite named_same, initChildren_same, mark_all_app.
  replace (if named name isSymbol n then store_node name st i else st)
    with (mark_all name (if named name isSymbol n then [i] else []) st) by (by destruct (named name isSymbol n)).
  apply (foldM_mark name s).
  - etrans; [done|apply mark_all_same].
  - intros st' c Hc Hs'. apply IH; [|done]. pose proof (fo_height _ _ F i c ltac:(by exists n)). lia.
Qed.

Lemma pruneChildren_marks levels h s name i st :
  forest h s -> (h i < levels)%nat -> same_tree s st.1 ->
  forall n, s !! i = Some n ->
  pruneChildren levels name st i =
    Some (mark_all name (flat_map (preorder (pred levels) s) (mb_initChildren n)) st).
Proof.
  intros F. revert i st. induction levels as [|levels IH]; intros i st Hh Hs n Hi; [lia|]. cbn [pruneChildren pred].
  destruct (same_lookup _ _ _ _ Hs Hi) as (k & l & ->). rewrite initChildren_same.
  apply (foldM_mark name s); [done|]. intros st' c Hc Hs'.
  assert (Hch : child s i c) by (by exists n). pose proof (fo_height _ _ F i c Hch).
  destruct (fo_bean _ _ F i c Hch) as [m Hm].
  assert (Hs'' : same_tree s (store_node name st' c).1) by (etrans; [exact Hs'|by apply alter_same]).
  rewrite (IH c _ ltac:(lia) Hs'' m Hm). destruct levels as [|levels]; [lia|]. cbn [preorder pred]. rewrite Hm. done.
Qed.

Lemma prune_marks levels h s name isSymbol i st :
  forest h s -> (h i < levels)%nat -> same_tree s st.1 ->
  recursionPruneInitTree levels name isSymbol st i =
    Some (mark_all name (pruned levels s (named name isSymbol) i) st).
Proof.
  intros F. revert i st. induction levels as [|levels IH]; intros i st Hh Hs; [lia|]. cbn [recursionPruneInitTree pruned].
  destruct (s !! i) as [n|] eqn:Hi; [|by rewrite (same_lookup_None _ _ _ Hs Hi)].
  destruct (same_lookup _ _ _ _ Hs Hi) as (k & l & ->). rewrite named_same, initChildren_same.
  destruct (named name isSymbol n).
  - assert (Hs' : same_tree s (store_node name st i).1) by (etrans; [exact Hs|by apply alter_same]).
    rewrite (pruneChildren_marks (S levels) h s name i _ F Hh Hs' n Hi). cbn [preorder pred]. by rewrite Hi.
  - apply (foldM_mark name s); [done|].
    intros st' c Hc Hs'. apply IH; [|done]. pose proof (fo_height _ _ F i c ltac:(by exists n)). lia.
Qed.

(** A rule is about the built tree, not about what the filters count. *)
Definition store_blind (rule : MerageBean X -> bool) : Prop := forall k l n, rule (with_children l (with_isStore k n)) = rule n.

Lemma rule_marks levels h s name rule i st :
  forest h s -> store_blind rule -> (h i < levels)%nat -> same_tree s st.1 ->
  forall n, s !! i = Some n ->
  recursionChargeByRule levels name rule st i =
    Some (mark_all name (flat_map (charged (pred levels) s rule) (mb_initChildren n)) st).
Proof.
  intros F Hb. revert i st. induction levels as [|levels IH]; intros i st Hh Hs n Hi; [lia|].
  cbn [recursionChargeByRule pred]. destruct (same_lookup _ _ _ _ Hs Hi) as (k & l & ->).
  rewrite initChildren_same. apply (foldM_mark name s); [done|].
  intros st' c Hc Hs'. assert (Hch : child s i c) by (by exists n). pose proof (fo_height _ _ F i c Hch).
  destruct (fo_bean _ _ F i c Hch) as [m Hm]. destruct (same_lookup _ _ _ _ Hs' Hm) as (k' & l' & ->). rewrite Hb.
  destruct levels as [|levels]; [lia|]. cbn [charged]. rewrite Hm, mark_all_app.
  replace (if rule m then store_node name st' c else st') with (mark_all name (if rule m then [c] else []) st')
    by (by destruct (rule m)).
  apply (IH c); [lia| |done]. etrans; [done|apply mark_all_same].
Qed.

(** *** What is counted *)

Lemma child_same s s' i c : same_tree s s' -> child s i c -> child s' i c.
Proof. intros Hs (n & Hn & Hc). destruct (same_lookup _ _ _ _ Hs Hn) as (k & l & Hk). by eexists. Qed.

Lemma charged_spec levels h s p i x :
  forest h s -> (h i < levels)%nat -> is_Some (s !! i) ->
  x ∈ charged levels s p i <-> rtc (child s) i x /\ exists n, s !! x = Some n /\ p n = true.
Proof.
  intros F. revert i. induction levels as [|levels IH]; intros i Hh [n Hn]; [lia|]. cbn [charged]. rewrite Hn.
  rewrite elem_of_app, elem_of_flat_map.
  assert (Hrec : forall c, c ∈ mb_initChildren n ->
    x ∈ charged levels s p c <-> rtc (child s) c x /\ exists n, s !! x = Some n /\ p n = true).
  { intros c Hc. assert (Hch : child s i c) by (by exists n). apply IH; [|by apply (fo_bean _ _ F i)].
    pose proof (fo_height _ _ F i c Hch). lia. }
  split.
  - intros [Hin|(c & Hc & Hin)].
    + destruct (p n) eqn:Hp; [|set_solver]. apply list_elem_of_singleton in Hin as ->. split; [done|by exists n].
    + apply Hrec in Hin as [Hr Hp]; [|done]. split; [|done].
      eapply rtc_l; [by exists n|done].
  - intros [Hr (m & Hm & Hp)]. inversion Hr as [|? c ? (n' & Hn' & Hc) Hr']; subst.
    + left. rewrite Hn in Hm. injection Hm as <-. rewrite Hp. set_solver.
    + right. rewrite Hn in Hn'. injection Hn' as <-. exists c. split; [done|].
      apply Hrec; [done|]. eauto.
Qed.

Lemma preorder_charged levels s i : preorder levels s i = charged levels s (fun _ => true) i.
Proof.
  revert i. induction levels as [|levels IH]; intros i; [done|]. cbn [preorder charged].
  destruct (s !! i); [|done]. cbn [app]. f_equal. apply flat_map_ext. intros. apply IH.
Qed.

Lemma preorder_spec levels h s i x :
  forest h s -> (h i < levels)%nat -> is_Some (s !! i) ->
  x ∈ preorder levels s i <-> rtc (child s) i x /\ is_Some (s !! x).
Proof.
  intros F Hh Hi. rewrite preorder_charged, (charged_spec _ h) by done. split; intros [Hr [n Hn]]; split; try done;
    exists n; naive_solver.
Qed.

Lemma pruned_spec levels h s p i x :
  forest h s -> (h i < levels)%nat -> is_Some (s !! i) ->
  x ∈ pruned levels s p i <->
  exists a n, rtc (child s) i a /\ s !! a = Some n /\ p n = true /\ rtc (child s) a x /\ is_Some (s !! x).
Proof.
  intros F. revert i. induction levels as [|levels IH]; intros i Hh [n Hn]; [lia|]. cbn [pruned]. rewrite Hn.
  destruct (p n) eqn:Hp.
  - rewrite (preorder_spec (S levels) h) by (done || by eexists). split.
    + intros [Hr Hx]. by exists i, n.
    + intros (a & m & Hia & _ & _ & Hax & Hx). split; [by etrans|done].
  - rewrite elem_of_flat_map. split.
    + intros (c & Hc & Hin). assert (Hch : child s i c) by (by exists n).
      pose proof (fo_height _ _ F i c Hch). apply IH in Hin as (a & m & Hr & Hrest); [|lia|by apply (fo_bean _ _ F i)].
      exists a, m. split; [by eapply rtc_l|done].
    + intros (a & m & Hr & Hm & Hpm & Hrest). inversion Hr as [|? c ? (n' & Hn' & Hc) Hr']; subst; [congruence|].
      rewrite Hn in Hn'. injection Hn' as <-. exists c. split; [done|].
      assert (Hch : child s i c) by (by exists n). pose proof (fo_height _ _ F i c Hch).
      apply IH; [lia|by apply (fo_bean _ _ F i)|]. eauto 10.
Qed.

(** *** A bean is counted once *)

Lemma ancestors_linear h s a b x :
  forest h s -> rtc (child s) a x -> rtc (child s) b x -> rtc (child s) a b \/ rtc (child s) b a.
Proof.
  intros F Ha. revert b. revert x Ha. apply (rtc_ind_r (fun x => forall b, rtc (child s) b x -> _)); [by right|].
  intros y z Ha Hyz IH b Hb.
  apply rtc_inv_r in Hb as [->|(y' & Hb & Hy')]; [left; by eapply rtc_r|].
  rewrite (fo_parent _ _ F y' y z) in Hb by done. by apply IH.
Qed.

Lemma descend_height h s a b : forest h s -> rtc (child s) a b -> (h b <= h a)%nat.
Proof. intros F. induction 1 as [|a c b Hac _ IH]; [done|]. pose proof (fo_height _ _ F a c Hac). lia. Qed.

(** Trees whose roots have the same parent, or none, share no bean. *)
Definition siblings s (a b : nat) : Prop :=
  (exists i, child s i a /\ child s i b) \/ ((forall i, ~ child s i a) /\ (forall i, ~ child s i b)).

Lemma siblings_disjoint h s a b x :
  forest h s -> siblings s a b -> rtc (child s) a x -> rtc (child s) b x -> a = b.
Proof.
  intros F Hsib Ha Hb.
  assert (Hone : forall a b, siblings s a b -> rtc (child s) a b -> a = b).
  { clear a b Hsib Ha Hb. intros a b Hsib Hab. apply rtc_inv_r in Hab as [|(y & Hay & Hyb)]; [done|].
    destruct Hsib as [(i & Hia & Hib)|[_ Hb]]; [|by destruct (Hb y)].
    rewrite (fo_parent _ _ F y i b Hyb Hib) in Hay. pose proof (descend_height _ _ _ _ F Hay).
    pose proof (fo_height _ _ F _ _ Hia). lia. }
  destruct (ancestors_linear _ _ _ _ _ F Ha Hb); [by apply Hone|symmetry; apply Hone; [|done]].
  destruct Hsib as [(i & ? & ?)|[? ?]]; [left; eauto|by right].
Qed.

Lemma charged_NoDup levels h s p i :
  forest h s -> (h i < levels)%nat -> NoDup (charged levels s p i).
Proof.
  intros F. revert i. induction levels as [|levels IH]; intros i Hh; [lia|]. cbn [charged].
  destruct (s !! i) as [n|] eqn:Hn; [|constructor].
  assert (Hch : forall c, c ∈ mb_initChildren n -> child s i c) by (intros c Hc; by exists n).
  assert (Hlt : forall c, c ∈ mb_initChildren n -> (h c < levels)%nat)
    by (intros c Hc; pose proof (fo_height _ _ F i c (Hch c Hc)); lia).
  assert (Hrtc : forall c x, c ∈ mb_initChildren n -> x ∈ charged levels s p c -> rtc (child s) c x).
  { intros c x Hc Hx. apply (charged_spec _ h) in Hx as [Hr _]; [done..|by apply Hlt|by apply (fo_bean _ _ F i), Hch]. }
  apply NoDup_app. split_and!.
  - destruct (p n); [apply NoDup_singleton|constructor].
  - intros x Hx Hin. destruct (p n); [|set_solver]. apply list_elem_of_singleton in Hx as ->.
    apply elem_of_flat_map in Hin as (c & Hc & Hin).
    pose proof (descend_height _ _ _ _ F (Hrtc c i Hc Hin)). pose proof (fo_height _ _ F i c (Hch c Hc)). lia.
  - apply NoDup_flat_map; [by apply (fo_nodup _ _ F i)|intros c Hc; by apply IH, Hlt|].
    intros a b x Ha Hb Hxa Hxb. apply (siblings_disjoint h s a b x F); eauto. left. eauto.
Qed.

Lemma pruned_NoDup levels h s p i :
  forest h s -> (h i < levels)%nat -> NoDup (pruned levels s p i).
Proof.
  intros F. revert i. induction levels as [|levels IH]; intros i Hh; [lia|]. cbn [pruned].
  destruct (s !! i) as [n|] eqn:Hn; [|constructor]. destruct (p n).
  - rewrite preorder_charged. by apply (charged_NoDup _ h).
  - assert (Hch : forall c, c ∈ mb_initChildren n -> child s i c) by (intros c Hc; by exists n).
    assert (Hlt : forall c, c ∈ mb_initChildren n -> (h c < levels)%nat)
      by (intros c Hc; pose proof (fo_height _ _ F i c (Hch c Hc)); lia).
    apply NoDup_flat_map; [by apply (fo_nodup _ _ F i)|intros c Hc; by apply IH, Hlt|].
    intros a b x Ha Hb Hxa Hxb.
    apply (pruned_spec _ h) in Hxa as (ra & ? & ? & _ & _ & ? & _); [|done|by apply Hlt|by apply (fo_bean _ _ F i), Hch].
    apply (pruned_spec _ h) in Hxb as (rb & ? & ? & _ & _ & ? & _); [|done|by apply Hlt|by apply (fo_bean _ _ F i), Hch].
    apply (siblings_disjoint h s a b x F); [left; eauto|by etrans|by etrans].
Qed.

(** *** Counters as sums *)

Definition zcount (i : nat) (l : list nat) : Z := zlen (filter (.= i) l).

Lemma zcount_cons i a l : zcount i (a :: l) = (if decide (a = i) then 1 else 0) + zcount i l.
Proof. unfold zcount. rewrite filter_cons. case_decide; [apply zlen_cons|lia]. Qed.

Lemma zcount_NoDup i l : NoDup l -> zcount i l = if decide (i ∈ l) then 1 else 0.
Proof.
  induction 1 as [|a l Ha HN IH]; [by rewrite decide_False by set_solver|]. rewrite zcount_cons, IH.
  repeat case_decide; subst; set_solver.
Qed.

Definition adjust (d : nat -> Z) s : beans X := imap (fun i n => with_isStore (mb_isStore n + d i) n) s.

Lemma adjust_lookup d s i : adjust d s !! i = (fun n => with_isStore (mb_isStore n + d i) n) <$> s !! i.
Proof. apply list_lookup_imap. Qed.

Lemma adjust_ext d d' s : (forall i, d i = d' i) -> adjust d s = adjust d' s.
Proof. intros H. apply list_eq. intros i. rewrite !adjust_lookup. by rewrite H. Qed.

Lemma adjust_adjust d d' s : adjust d (adjust d' s) = adjust (fun i => d' i + d i) s.
Proof.
  apply list_eq. intros i. rewrite !adjust_lookup. destruct (s !! i); [|done]. cbn. unfold with_isStore. cbn.
  by rewrite Z.add_assoc.
Qed.

Lemma adjust_0 s : adjust (fun _ => 0) s = s.
Proof.
  apply list_eq. intros i. rewrite adjust_lookup. destruct (s !! i) as [[]|]; [|done]. cbn. unfold with_isStore. cbn.
  by rewrite Z.add_0_r.
Qed.

Lemma adjust_same d s : same_tree s (adjust d s).
Proof.
  unfold same_tree. apply list_eq. intros i. rewrite !list_lookup_fmap, adjust_lookup. by destruct (s !! i).
Qed.

Lemma alter_adjust z i s :
  alter (fun n => with_isStore (mb_isStore n + z) n) i s = adjust (fun j => if decide (i = j) then z else 0) s.
Proof.
  rewrite <- (adjust_0 s) at 1. apply list_eq. intros j. rewrite adjust_0, adjust_lookup.
  destruct (decide (i = j)) as [->|Hne]; [by rewrite list_lookup_alter_eq|].
  rewrite list_lookup_alter_ne by done. destruct (s !! j) as [[]|]; [|done]. cbn. unfold with_isStore. cbn.
  by rewrite Z.add_0_r.
Qed.

Lemma mark_all_adjust name l st : (mark_all name l st).1 = adjust (fun i => zcount i l) st.1.
Proof.
  revert st. induction l as [|a l IH]; intros st; [symmetry; apply adjust_0|]. cbn. unfold mark_all in IH. rewrite IH.
  cbn [store_node fst]. rewrite alter_adjust, adjust_adjust. apply adjust_ext. intros i. by rewrite zcount_cons.
Qed.

Lemma unstore_adjust l s : foldl unstore_node s l = adjust (fun i => - zcount i l) s.
Proof.
  revert s. induction l as [|a l IH]; intros s; [symmetry; apply adjust_0|]. cbn [foldl]. rewrite IH.
  unfold unstore_node. change (fun n : MerageBean X => with_isStore (mb_isStore n - 1) n)
    with (fun n : MerageBean X => with_isStore (mb_isStore n + -1) n).
  rewrite alter_adjust, adjust_adjust. apply adjust_ext. intros i. rewrite zcount_cons. case_decide; lia.
Qed.

Lemma mark_all_entry name l st k :
  default [] ((mark_all name l st).2 !! k) = if decide (k = name) then default [] (st.2 !! k) ++ l else default [] (st.2 !! k).
Proof.
  revert st. induction l as [|a l IH]; intros st; [cbn; case_decide; [by rewrite app_nil_r|done]|].
  cbn. unfold mark_all in IH. rewrite IH. cbn [store_node snd]. case_decide; subst.
  - rewrite lookup_insert_eq. cbn. by rewrite <- app_assoc.
  - by rewrite lookup_insert_ne.
Qed.

(** *** The list of filters *)

(** The beans a filter counts. *)
Definition hits (levels : nat) s (allProcess : list nat) (item : split_item) : list nat :=
  flat_map ((if si_charge item then charged else pruned) levels s (named (si_name item) (si_symbol item))) allProcess.

(** The same, by what the filter means: charging hides the beans of that name,
    pruning also everything below them. *)
Definition hides s (allProcess : list nat) (item : split_item) (x : nat) : Prop :=
  exists p, p ∈ allProcess /\
    if si_charge item then rtc (child s) p x /\ exists n, s !! x = Some n /\ named (si_name item) (si_symbol item) n = true
    else exists a n, rtc (child s) p a /\ s !! a = Some n /\ named (si_name item) (si_symbol item) n = true /\
           rtc (child s) a x /\ is_Some (s !! x).

(** The trees of the processes. *)
Record processes (levels : nat) (h : nat -> nat) s (allProcess : list nat) : Prop := {
  pr_bean : forall p, p ∈ allProcess -> is_Some (s !! p);
  pr_height : forall p, p ∈ allProcess -> (h p < levels)%nat;
  pr_root : forall p i, p ∈ allProcess -> ~ child s i p;
  pr_nodup : NoDup allProcess;
}.

Lemma hits_spec levels h s allProcess item x :
  forest h s -> processes levels h s allProcess ->
  x ∈ hits levels s allProcess item <-> hides s allProcess item x.
Proof.
  intros F P. unfold hits, hides. rewrite elem_of_flat_map. split; intros (p & Hp & H); exists p; (split; [done|]); revert H;
    destruct (si_charge item); [rewrite (charged_spec _ h)|rewrite (pruned_spec _ h)
      |rewrite (charged_spec _ h)|rewrite (pruned_spec _ h)];
    try done; try (by apply (pr_height _ _ _ _ P)); by apply (pr_bean _ _ _ _ P).
Qed.

Lemma hits_NoDup levels h s allProcess item :
  forest h s -> processes levels h s allProcess -> NoDup (hits levels s allProcess item).
Proof.
  intros F P. apply NoDup_flat_map; [apply P| |].
  - intros p Hp. pose proof (pr_height _ _ _ _ P p Hp).
    destruct (si_charge item); [by apply (charged_NoDup _ h)|by apply (pruned_NoDup _ h)].
  - intros a b x Ha Hb Hxa Hxb.
    assert (Hr : forall p, p ∈ allProcess -> x ∈ (if si_charge item then charged else pruned) levels s
                   (named (si_name item) (si_symbol item)) p -> rtc (child s) p x).
    { intros p Hp Hx. pose proof (pr_height _ _ _ _ P p Hp). pose proof (pr_bean _ _ _ _ P p Hp).
      destruct (si_charge item); [by apply (charged_spec _ h) in Hx as [? _]|].
      apply (pruned_spec _ h) in Hx as (r & ? & ? & _ & _ & ? & _); [by etrans|done..]. }
    apply (siblings_disjoint h s a b x F); [|by apply Hr..]. right. split; intros i; by apply (pr_root _ _ _ _ P).
Qed.

(** How often the checked filters count a bean. *)
Definition counted (levels : nat) s (allProcess : list nat) (items : list split_item) (i : nat) : Z :=
  zlen (filter (fun item => si_checked item = true /\ i ∈ hits levels s allProcess item) items).

Lemma counted_cons levels h s allProcess item items i :
  forest h s -> processes levels h s allProcess ->
  counted levels s allProcess (item :: items) i =
    (if si_checked item then zcount i (hits levels s allProcess item) else 0) + counted levels s allProcess items i.
Proof.
  intros F P. unfold counted. rewrite filter_cons, zcount_NoDup by (by apply (hits_NoDup _ h)).
  destruct (si_checked item); case_decide as H1; try case_decide as H2; rewrite ?zlen_cons; naive_solver lia.
Qed.

Lemma split_item_marks levels h s allProcess item st :
  forest h s -> processes levels h s allProcess -> same_tree s st.1 ->
  foldM (fun st process =>
      if si_charge item then recursionChargeInitTree levels (si_name item) (si_symbol item) st process
      else recursionPruneInitTree levels (si_name item) (si_symbol item) st process) allProcess st =
    Some (mark_all (si_name item) (hits levels s allProcess item) st).
Proof.
  intros F P Hs. apply (foldM_mark (si_name item) s); [done|]. intros st' p Hp Hs'.
  pose proof (pr_height _ _ _ _ P p Hp).
  destruct (si_charge item); [by apply (charge_marks _ h)|by apply (prune_marks _ h)].
Qed.

Lemma splitAllProcess_adjust levels h s allProcess items s1 m :
  forest h s -> processes levels h s allProcess -> same_tree s s1 -> NoDup (si_name <$> items) ->
  (forall item, item ∈ items -> m !! si_name item = None) ->
  exists m', splitAllProcess levels allProcess items (s1, m) = Some (adjust (counted levels s allProcess items) s1, m') /\
    (forall item, item ∈ items -> default [] (m' !! si_name item) = hits levels s allProcess item) /\
    (forall k, k ∉ si_name <$> items -> default [] (m' !! k) = default [] (m !! k)).
Proof.
  intros F P. revert s1 m. induction items as [|item items IH]; intros s1 m Hs HN Hm.
  { exists m. split; [cbn; f_equal; f_equal; symmetry; apply adjust_0|]. split; [set_solver|done]. }
  rewrite fmap_cons, NoDup_cons in HN. destruct HN as [Hnew HN].
  set (st := mark_all (si_name item) (hits levels s allProcess item) (s1, m)).
  set (st' := if si_checked item then st else resotreAllNode [si_name item] st).
  assert (Hst2 : st'.2 = st.2) by (unfold st'; by destruct (si_checked item)).
  assert (Hentry : forall k, default [] (st.2 !! k) =
    if decide (k = si_name item) then hits levels s allProcess item else default [] (m !! k)).
  { intros k. unfold st. rewrite mark_all_entry. cbn [snd]. case_decide; [|done]. subst. by rewrite Hm by set_solver. }
  assert (Hst1 : st'.1 = adjust (fun i => if si_checked item then zcount i (hits levels s allProcess item) else 0) s1).
  { unfold st'. destruct (si_checked item); [apply mark_all_adjust|]. cbn [resotreAllNode fst foldl].
    rewrite Hentry, decide_True, unstore_adjust by done. unfold st. rewrite mark_all_adjust, adjust_adjust.
    apply adjust_ext. intros. lia. }
  destruct (IH st'.1 st'.2) as (m' & E & Hin & Hout); [|done| |].
  - rewrite Hst1. etrans; [exact Hs|apply adjust_same].
  - intros it Hit. rewrite Hst2. pose proof (Hentry (si_name it)) as He.
    assert (Hne : si_name it <> si_name item) by (intros Heq; apply Hnew; rewrite <- Heq; by apply list_elem_of_fmap_2).
    unfold st. clear -Hne Hm Hit. assert (Hmk : forall l st, (mark_all (si_name item) l st).2 !! si_name it = st.2 !! si_name it).
    { intros l. induction l as [|a l IHl]; intros st0; [done|]. cbn. unfold mark_all in IHl. rewrite IHl. cbn [store_node snd].
      by rewrite lookup_insert_ne. }
    rewrite Hmk. apply Hm. set_solver.
  - exists m'. split_and!.
    + cbn [splitAllProcess]. unfold splitAllProcess. cbn [foldM]. rewrite (split_item_marks levels h s) by done.
      cbn [mbind option_bind]. fold st. fold st'. unfold splitAllProcess in E. destruct st' as [s2 m2]. cbn [fst snd] in *. rewrite E.
      do 2 f_equal. rewrite Hst1, adjust_adjust. apply adjust_ext. intros i. by rewrite (counted_cons levels h).
    + intros it [->|Hit]%elem_of_cons; [|by apply Hin]. rewrite (Hout _ Hnew), Hst2, Hentry. by rewrite decide_True.
    + intros k Hk. rewrite fmap_cons, not_elem_of_cons in Hk. destruct Hk as [Hk1 Hk2].
      rewrite (Hout _ Hk2), Hst2, Hentry. by rewrite decide_False.
Qed.

Lemma restore_adjust names s (m : split_map) :
  (resotreAllNode names (s, m)).1 = adjust (fun i => - zsum ((fun k => zcount i (default [] (m !! k))) <$> names)) s.
Proof.
  cbn. revert s. induction names as [|k names IH]; intros s; [symmetry; apply adjust_0|]. cbn [foldl].
  rewrite IH, unstore_adjust, adjust_adjust. apply adjust_ext. intros i. rewrite fmap_cons. cbn [zsum foldr].
  fold (zsum ((fun k => zcount i (default [] (m !! k))) <$> names)). lia.
Qed.
End Trees.

(** C15: Filters hide what they name and can be taken back.  On a forest of beans
    with the given filters, of different names that were not used before,
    [splitAllProcess] ends; it changes nothing but the counters [isStore]; the
    counter of a bean grows by the number of checked filters that hide it, where a
    charging filter hides the beans of the processes' trees with its symbol or
    library name, and a pruning filter also everything below such a bean; and
    [resotreAllNode] with the names of the checked filters restores the beans. *)
Theorem split_and_restore {X} levels h (s : beans X) m allProcess items :
  forest h s -> processes levels h s allProcess -> NoDup (si_name <$> items) ->
  (forall item, item ∈ items -> m !! si_name item = None) ->
  exists s' m', splitAllProcess levels allProcess items (s, m) = Some (s', m') /\
    s' = adjust (counted levels s allProcess items) s /\
    (forall item x, x ∈ hits levels s allProcess item <-> hides s allProcess item x) /\
    (resotreAllNode (si_name <$> filter (fun item => si_checked item = true) items) (s', m')).1 = s.
Proof.
  intros F P HN Hm. destruct (splitAllProcess_adjust levels h s allProcess items s m F P) as (m' & E & Hin & _); [done..|].
  eexists _, m'. split; [exact E|]. split; [done|]. split; [intros; by apply (hits_spec levels h)|].
  rewrite restore_adjust, adjust_adjust. etrans; [|apply adjust_0]. apply adjust_ext. intros i.
  enough (H : zsum ((fun k => zcount i (default [] (m' !! k))) <$> (si_name <$> filter (fun item => si_checked item = true) items))
            = counted levels s allProcess items i) by lia.
  clear E HN Hm. induction items as [|item items IH]; [done|]. rewrite (counted_cons levels h) by done.
  rewrite <- IH by set_solver. rewrite filter_cons. destruct (si_checked item); [|done].
  rewrite decide_True by done. rewrite !fmap_cons. cbn [zsum foldr]. by rewrite (Hin item) by set_solver.
Qed.

(** ** The shown tree *)

Section Shown.
Context {X : Type}.
Implicit Types (s : beans X) (n : MerageBean X).

(** What of a bean [resetNewAllNode] leaves alone. *)
Definition shape n : MerageBean X := with_treeParent 0 (with_children [] n).
Definition same_shape s s' : Prop := shape <$> s = shape <$> s'.

#[local] Instance same_shape_equiv : Equivalence same_shape.
Proof. unfold same_shape. split; red; [done|by symmetry|congruence]. Qed.

Lemma shape_lookup s s' i : same_shape s s' -> shape <$> s !! i = shape <$> s' !! i.
Proof. intros H. by rewrite <- !list_lookup_fmap, H. Qed.

Lemma shape_visible n n' : shape n = shape n' -> visible n = visible n'.
Proof. intros H. unfold visible. injection H. congruence. Qed.

Lemma shape_parentNode n n' : shape n = shape n' -> mb_parentNode n = mb_parentNode n'.
Proof. intros H. injection H. congruence. Qed.

Lemma alter_shape f i s : (forall n, shape (f n) = shape n) -> same_shape s (alter f i s).
Proof.
  intros Hf. unfold same_shape. apply list_eq. intros j. rewrite !list_lookup_fmap.
  destruct (decide (i = j)) as [->|Hne]; [|by rewrite list_lookup_alter_ne].
  rewrite list_lookup_alter_eq. destruct (s !! j); [|done]. cbn. by rewrite Hf.
Qed.

Lemma visible_from_shape levels s s' p : same_shape s s' -> visible_from levels s p = visible_from levels s' p.
Proof.
  intros Hs. revert p. induction levels as [|levels IH]; intros [i|]; try done. cbn.
  pose proof (shape_lookup _ _ i Hs) as H. destruct (s !! i) as [n|], (s' !! i) as [n'|]; try done.
  apply (inj Some) in H. rewrite (shape_visible _ _ H), (shape_parentNode _ _ H). by destruct (visible n').
Qed.

(** The bean under which a bean is shown. *)
Definition shown_parent (levels : nat) s (c : nat) : option nat :=
  match s !! c with
  | Some n => if visible n then default None (visible_from levels s (mb_parentNode n)) else None
  | None => None
  end.

(** [u i] is the depth of bean [i]: it decreases along [parentNode]. *)
Definition rooted (levels : nat) (u : nat -> nat) s : Prop :=
  forall i n p, s !! i = Some n -> mb_parentNode n = Some p -> (u p < u i <= levels)%nat.

Lemma visible_from_total levels u s i :
  (forall j n p, s !! j = Some n -> mb_parentNode n = Some p -> (u p < u j)%nat) ->
  (u i < levels)%nat -> exists o, visible_from levels s (Some i) = Some o.
Proof.
  intros Hu. revert i. induction levels as [|levels IH]; intros i Hi; [lia|]. cbn.
  destruct (s !! i) as [n|] eqn:E; [|eauto]. destruct (visible n); [eauto|].
  destruct (mb_parentNode n) as [p|] eqn:Hp; [|destruct levels; eauto]. apply IH. specialize (Hu _ _ _ E Hp). lia.
Qed.

Lemma attach_item_spec levels u s s1 i n1 :
  rooted levels u s -> same_shape s s1 -> s1 !! i = Some n1 ->
  attach_item levels s1 i =
    Some match shown_parent levels s i with
         | Some p => alter (fun n => with_children (mb_children n ++ [i]) n) p (alter (with_treeParent p) i s1)
         | None => s1
         end.
Proof.
  intros Hr Hs Hi. unfold attach_item, shown_parent. rewrite Hi. pose proof (shape_lookup _ _ i Hs) as H. rewrite Hi in H.
  destruct (s !! i) as [n|] eqn:E; [|done]. apply (inj Some) in H.
  rewrite (shape_visible _ _ H), (shape_parentNode _ _ H). destruct (visible n1); [|by rewrite andb_false_r].
  rewrite andb_true_r. destruct (mb_parentNode n1) as [p|] eqn:Hp; cbn [bool_decide].
  - rewrite bool_decide_true by done. rewrite <- (visible_from_shape _ _ _ _ Hs).
    pose proof (Hr i n p E ltac:(by rewrite (shape_parentNode _ _ H))) as Hu.
    destruct (visible_from_total levels u s p) as [o Ho]; [intros; by eapply Hr|lia|]. by rewrite Ho.
  - rewrite bool_decide_false by (by intros [? ?]). by destruct levels.
Qed.

Definition with_links (l : list nat) (o : option nat) n : MerageBean X :=
  {| mb_symbol := mb_symbol n; mb_lib := mb_lib n; mb_path := mb_path n; mb_count := mb_count n;
     mb_parent := mb_parent n; mb_parentNode := mb_parentNode n; mb_initChildren := mb_initChildren n;
     mb_children := l; mb_isStore := mb_isStore n; mb_searchShow := mb_searchShow n;
     mb_isSearch := mb_isSearch n; mb_currentTreeParentNode := o; mb_rest := mb_rest n |}.

Lemma with_links_id n : with_links (mb_children n) (mb_currentTreeParentNode n) n = n.
Proof. by destruct n. Qed.

Lemma with_links_with l o l' o' n : with_links l o (with_links l' o' n) = with_links l o n.
Proof. done. Qed.

(** What attaching the beans of [l], in this order, does to a bean. *)
Definition attached (levels : nat) s (l : list nat) (i : nat) n : MerageBean X :=
  with_links (mb_children n ++ filter (fun c => shown_parent levels s c = Some i) l)
    (if decide (i ∈ l) then union (shown_parent levels s i) (mb_currentTreeParentNode n) else mb_currentTreeParentNode n) n.

Lemma attached_nil levels s i n : attached levels s [] i n = n.
Proof. unfold attached. rewrite filter_nil, app_nil_r, decide_False by set_solver. apply with_links_id. Qed.

Lemma attached_cons levels s a l i n :
  attached levels s l i (attached levels s [a] i n) = attached levels s (a :: l) i n.
Proof.
  unfold attached. rewrite with_links_with. cbn [mb_children mb_currentTreeParentNode with_links]. apply f_equal3; [..|done].
  - rewrite <- app_assoc. f_equal. rewrite !filter_cons, filter_nil. by case_decide.
  - destruct (decide (i ∈ l)), (decide (i = a)) as [->|].
    + rewrite !(decide_True (P := a ∈ _)) by set_solver. by destruct (shown_parent levels s a), (mb_currentTreeParentNode n).
    + rewrite (decide_False (P := i ∈ [a])), (decide_True (P := i ∈ _)) by set_solver. done.
    + rewrite !(decide_True (P := a ∈ _)) by set_solver. done.
    + rewrite !(decide_False (P := i ∈ _)) by set_solver. done.
Qed.

Lemma some_union (q : nat) o : Some q ∪ o = Some q.
Proof. by destruct o. Qed.

Lemma attached_one levels s s1 i j :
  match shown_parent levels s i with
  | Some p => alter (fun n => with_children (mb_children n ++ [i]) n) p (alter (with_treeParent p) i s1)
  | None => s1
  end !! j = attached levels s [i] j <$> s1 !! j.
Proof.
  assert (Hid : forall n, ~ shown_parent levels s i = Some j -> i <> j \/ shown_parent levels s i = None ->
    attached levels s [i] j n = n).
  { intros n Hne Hor. unfold attached. rewrite filter_cons_False, filter_nil, app_nil_r by done. etrans; [|apply with_links_id].
    f_equal. case_decide as Hin; [|done]. apply list_elem_of_singleton in Hin as ->. destruct Hor as [?| ->]; [done|].
    by rewrite (left_id None union). }
  destruct (shown_parent levels s i) as [p|] eqn:Hp.
  2:{ destruct (s1 !! j); [|done]. cbn. by rewrite Hid by (done || by right). }
  destruct (decide (p = j)) as [->|Hpj]; [rewrite list_lookup_alter_eq|rewrite list_lookup_alter_ne by done];
    (destruct (decide (i = j)) as [->|Hij]; [rewrite list_lookup_alter_eq|rewrite list_lookup_alter_ne by done]);
    (destruct (s1 !! j) as [m|]; [|done]); cbn [fmap option_fmap option_map]; f_equal.
  - unfold attached. rewrite filter_cons_True, filter_nil, decide_True, Hp, some_union by (done || set_solver). done.
  - unfold attached. rewrite filter_cons_True, filter_nil, decide_False by (done || set_solver). done.
  - unfold attached. rewrite filter_cons_False, filter_nil, app_nil_r, decide_True, Hp, some_union by (congruence || set_solver). done.
  - symmetry. apply Hid; [congruence|by left].
Qed.

Lemma shape_attached levels s l i n : shape (attached levels s l i n) = shape n.
Proof. done. Qed.

Lemma attach_all levels u s s1 l :
  rooted levels u s -> same_shape s s1 -> (forall i, i ∈ l -> is_Some (s !! i)) ->
  foldM (attach_item levels) l s1 = Some (imap (attached levels s l) s1).
Proof.
  intros Hr. revert s1. induction l as [|i l IH]; intros s1 Hs Hl.
  { cbn [foldM]. f_equal. apply list_eq. intros j. rewrite list_lookup_imap. destruct (s1 !! j); [|done].
    cbn [fmap option_fmap option_map]. by rewrite attached_nil. }
  assert (Hi : is_Some (s1 !! i)).
  { pose proof (shape_lookup _ _ i Hs) as H. destruct (Hl i ltac:(set_solver)) as [n Hn]. rewrite Hn in H.
    destruct (s1 !! i); [by eexists|done]. }
  destruct Hi as [n1 Hi]. cbn [foldM]. rewrite (attach_item_spec levels u s s1 i n1) by done. cbn [mbind option_bind].
  pose proof (attached_one levels s s1 i) as Hs2.
  set (s2 := match shown_parent levels s i with Some p => _ | None => s1 end) in *. clearbody s2.
  assert (Hsh : same_shape s s2).
  { etrans; [exact Hs|]. unfold same_shape. apply list_eq. intros j. rewrite !list_lookup_fmap, Hs2. by destruct (s1 !! j). }
  rewrite IH by (done || set_solver). f_equal. apply list_eq. intros j. rewrite !list_lookup_imap, Hs2.
  destruct (s1 !! j) as [m|]; [|done]. cbn [fmap option_fmap option_map]. by rewrite attached_cons.
Qed.

(** *** The nearest visible ancestor *)

Inductive nearest s : nat -> nat -> Prop :=
  | nearest_parent i n p np :
      s !! i = Some n -> mb_parentNode n = Some p -> s !! p = Some np -> visible np = true -> nearest s i p
  | nearest_above i n q nq p :
      s !! i = Some n -> mb_parentNode n = Some q -> s !! q = Some nq -> visible nq = false -> nearest s q p ->
      nearest s i p.

Lemma visible_from_nearest levels u s i n p :
  (forall j n q, s !! j = Some n -> mb_parentNode n = Some q -> (u q < u j)%nat) ->
  (u i <= levels)%nat -> s !! i = Some n ->
  visible_from levels s (mb_parentNode n) = Some (Some p) <-> nearest s i p.
Proof.
  intros Hu. revert i n. induction levels as [|levels IH]; intros i n Hi Hn.
  - destruct (mb_parentNode n) as [q|] eqn:Hq; [specialize (Hu _ _ _ Hn Hq); lia|]. cbn. split; [done|].
    inversion 1; simplify_eq.
  - destruct (mb_parentNode n) as [q|] eqn:Hq; [|cbn; split; [done|inversion 1; simplify_eq]].
    pose proof (Hu _ _ _ Hn Hq). cbn. destruct (s !! q) as [nq|] eqn:Hnq; [|split; [done|inversion 1; simplify_eq]].
    destruct (visible nq) eqn:Hv.
    + split; [intros [= ->]; by eapply nearest_parent|]. inversion 1; simplify_eq; congruence.
    + rewrite (IH q nq) by (done || lia). split; [intros; by eapply nearest_above|]. inversion 1; simplify_eq; congruence.
Qed.

Lemma shown_parent_spec levels u s c p :
  rooted levels u s ->
  shown_parent levels s c = Some p <-> (exists n, s !! c = Some n /\ visible n = true) /\ nearest s c p.
Proof.
  intros Hr. unfold shown_parent. destruct (s !! c) as [n|] eqn:Hn; [|split; [done|by intros [[? [? _]] _]]].
  destruct (visible n) eqn:Hv; [|split; [done|intros [(? & ? & ?) _]; congruence]].
  destruct (mb_parentNode n) as [q|] eqn:Hq.
  - pose proof (Hr _ _ _ Hn Hq). rewrite <- (visible_from_nearest levels u s c n p) by (done || lia || intros; by eapply Hr).
    rewrite Hq. destruct (visible_from_total levels u s q) as [o ->]; [intros; by eapply Hr|lia|]. cbn. naive_solver.
  - split; [by destruct levels|]. intros [_ H]. inversion H; simplify_eq.
Qed.

Lemma shown_parent_shape levels s s' c : same_shape s s' -> shown_parent levels s c = shown_parent levels s' c.
Proof.
  intros Hs. unfold shown_parent. pose proof (shape_lookup _ _ c Hs) as H.
  destruct (s !! c) as [n|], (s' !! c) as [n'|]; try done. apply (inj Some) in H.
  rewrite (shape_visible _ _ H), (shape_parentNode _ _ H), (visible_from_shape _ _ _ _ Hs). done.
Qed.

Lemma clear_all_lookup l s i :
  foldl clear_children s l !! i = (fun n => if decide (i ∈ l) then with_children [] n else n) <$> s !! i.
Proof.
  revert s. induction l as [|a l IH]; intros s.
  { destruct (s !! i) eqn:E; [|done]. cbn [foldl]. rewrite E. cbn. by rewrite decide_False by set_solver. }
  cbn [foldl]. rewrite IH. unfold clear_children.
  destruct (decide (a = i)) as [->|Hne].
  - rewrite list_lookup_alter_eq. destruct (s !! i); [|done]. cbn. rewrite (decide_True (P := i ∈ i :: l)) by set_solver.
    by case_decide.
  - rewrite list_lookup_alter_ne by done. destruct (s !! i); [|done]. cbn. f_equal.
    destruct (decide (i ∈ l)); [by rewrite decide_True by set_solver|by rewrite decide_False by set_solver].
Qed.

Definition children_of s (i : nat) : list nat := default [] (mb_children <$> s !! i).

(** Every visible bean of the list is shown under its nearest visible ancestor. *)
Definition shows_visible (levels : nat) s (data currentTreeList : list nat) : Prop :=
  forall i, i ∈ data \/ i ∈ currentTreeList ->
    children_of s i = filter (fun c => shown_parent levels s c = Some i) currentTreeList.

Lemma shown_parent_bean levels s c p : shown_parent levels s c = Some p -> is_Some (s !! p).
Proof.
  unfold shown_parent. destruct (s !! c) as [n|]; [|done]. destruct (visible n); [|done].
  generalize (mb_parentNode n). induction levels as [|levels IH]; intros [i|]; try done. cbn.
  destruct (s !! i) as [m|] eqn:E; [|done]. destruct (visible m); [intros [= ->]; by eexists|apply IH].
Qed.

Lemma rooted_shape levels u s s' : same_shape s s' -> rooted levels u s -> rooted levels u s'.
Proof.
  intros Hs Hr i n p Hn Hp. pose proof (shape_lookup _ _ i Hs) as H. rewrite Hn in H.
  destruct (s !! i) as [m|] eqn:E; [|done]. apply (inj Some) in H. eapply Hr; [done|].
  by rewrite (shape_parentNode _ _ H).
Qed.

Lemma resetNewAllNode_shows levels u s data currentTreeList :
  rooted levels u s -> (forall i, i ∈ currentTreeList -> is_Some (s !! i)) ->
  exists s', resetNewAllNode levels data currentTreeList s = Some s' /\ same_shape s s' /\
    shows_visible levels s' data currentTreeList.
Proof.
  intros Hr Hc. unfold resetNewAllNode. set (s1 := foldl clear_children s data).
  set (s2 := foldl clear_children s1 currentTreeList).
  assert (Hs2 : forall i, s2 !! i = (fun n => if decide (i ∈ data \/ i ∈ currentTreeList) then with_children [] n else n) <$> s !! i).
  { intros i. unfold s2, s1. rewrite !clear_all_lookup. destruct (s !! i); [|done]. cbn. f_equal.
    repeat case_decide; try done; naive_solver. }
  assert (Hsh : same_shape s s2).
  { unfold same_shape. apply list_eq. intros i. rewrite !list_lookup_fmap, Hs2. destruct (s !! i); [|done]. cbn.
    by case_decide. }
  rewrite (attach_all levels u s s2) by done. eexists. split; [done|].
  set (s3 := imap _ s2). assert (Hs3 : same_shape s s3).
  { etrans; [exact Hsh|]. unfold same_shape. apply list_eq. intros i. unfold s3. rewrite !list_lookup_fmap, list_lookup_imap.
    by destruct (s2 !! i). }
  split; [done|]. intros i Hi.
  assert (Hf : filter (fun c => shown_parent levels s3 c = Some i) currentTreeList =
               filter (fun c => shown_parent levels s c = Some i) currentTreeList)
    by (apply list_filter_iff; intros c; by rewrite (shown_parent_shape _ _ _ c Hs3)).
  rewrite Hf. unfold children_of, s3. rewrite list_lookup_imap, Hs2. destruct (s !! i) as [n|] eqn:E.
  - cbn. by rewrite decide_True by done.
  - cbn. symmetry. apply filter_none, Forall_forall. intros c _ Hp. apply shown_parent_bean in Hp as [? ?]. congruence.
Qed.
End Shown.

(** ** One filter, and the tree it leaves *)

Section SplitTree.
Context {X : Type}.
Implicit Types (s : beans X) (st : split_state X) (name : jsstring).

Lemma zcount_app i l k : zcount i (l ++ k) = zcount i l + zcount i k.
Proof. unfold zcount. by rewrite filter_app, zlen_app. Qed.

Lemma clear_adjust d s i : clear_children (adjust d s) i = adjust d (clear_children s i).
Proof.
  unfold clear_children. apply list_eq. intros j. rewrite adjust_lookup. destruct (decide (i = j)) as [->|Hne].
  - rewrite !list_lookup_alter_eq, adjust_lookup. by destruct (s !! j).
  - by rewrite !list_lookup_alter_ne, adjust_lookup.
Qed.

Lemma clear_all_adjust d l s : foldl clear_children (adjust d s) l = adjust d (foldl clear_children s l).
Proof. revert s. induction l as [|i l IH]; intros s; [done|]. cbn [foldl]. by rewrite clear_adjust, IH. Qed.

Lemma foldM_clear_mark name s (f : split_state X -> nat -> option (split_state X)) g l st :
  same_tree s st.1 ->
  (forall st a, a ∈ l -> same_tree s st.1 -> f st a = Some (mark_all name (g a) st)) ->
  exists st', foldM (fun st p => f (clear_children st.1 p, st.2) p) l st = Some st' /\
    st'.1 = adjust (fun i => zcount i (flat_map g l)) (foldl clear_children st.1 l).
Proof.
  revert st. induction l as [|a l IH]; intros st Hs Hf; [exists st; split; [done|symmetry; apply adjust_0]|].
  cbn [foldM foldl flat_map].
  assert (Hs1 : same_tree s (clear_children st.1 a)) by (etrans; [exact Hs|by apply alter_same]).
  rewrite Hf by (done || set_solver). cbn [mbind option_bind].
  destruct (IH (mark_all name (g a) (clear_children st.1 a, st.2))) as (st' & -> & Hst').
  - etrans; [exact Hs1|]. apply (mark_all_same name (g a) (clear_children st.1 a, st.2)).
  - intros st' b Hb. apply Hf. set_solver.
  - eexists. split; [done|]. rewrite Hst', mark_all_adjust, clear_all_adjust, adjust_adjust. apply adjust_ext. intros i.
    by rewrite zcount_app.
Qed.

Lemma clear_search_lookup l s i :
  foldl clear_search s l !! i = (fun n => if decide (i ∈ l) then with_search true false n else n) <$> s !! i.
Proof.
  revert s. induction l as [|a l IH]; intros s.
  { destruct (s !! i) eqn:E; [|done]. cbn [foldl]. rewrite E. cbn. by rewrite decide_False by set_solver. }
  cbn [foldl]. rewrite IH. unfold clear_search. destruct (decide (a = i)) as [->|Hne].
  - rewrite list_lookup_alter_eq. destruct (s !! i); [|done]. cbn. rewrite (decide_True (P := i ∈ i :: l)) by set_solver.
    by case_decide.
  - rewrite list_lookup_alter_ne by done. destruct (s !! i); [|done]. cbn. f_equal.
    destruct (decide (i ∈ l)); [by rewrite decide_True by set_solver|by rewrite decide_False by set_solver].
Qed.

(** The beans with the marks of the last search removed. *)
Definition unsearched (data currentTreeList : list nat) s : beans X :=
  foldl clear_search (clearSearchNode currentTreeList s) data.

Lemma unsearched_lookup data currentTreeList s i :
  unsearched data currentTreeList s !! i =
    (fun n => if decide (i ∈ data \/ i ∈ currentTreeList) then with_search true false n else n) <$> s !! i.
Proof.
  unfold unsearched, clearSearchNode. rewrite !clear_search_lookup. destruct (s !! i); [|done]. cbn. f_equal.
  repeat case_decide; try done; naive_solver.
Qed.

Lemma rooted_parents levels u s s' :
  (forall i n', s' !! i = Some n' -> exists n, s !! i = Some n /\ mb_parentNode n = mb_parentNode n') ->
  rooted levels u s -> rooted levels u s'.
Proof. intros H Hr i n' p Hn' Hp. destruct (H _ _ Hn') as (n & Hn & E). eapply Hr; [done|congruence]. Qed.

End SplitTree.

(** ** Searching *)

Section SearchProofs.
Context {X : Type} (lower : jsstring -> jsstring).
Implicit Types (s : beans X) (n : MerageBean X).

(** What of a bean a search leaves alone. *)
Definition searched n : MerageBean X := with_search false false n.
Definition same_search s s' : Prop := searched <$> s = searched <$> s'.

#[local] Instance same_search_equiv : Equivalence same_search.
Proof. unfold same_search. split; red; [done|by symmetry|congruence]. Qed.

Lemma search_lookup s s' i n :
  same_search s s' -> s !! i = Some n -> exists b b', s' !! i = Some (with_search b b' n).
Proof.
  intros H Hi. apply (f_equal (.!! i)) in H. rewrite !list_lookup_fmap, Hi in H.
  destruct (s' !! i) as [n'|] eqn:E; [|done]. apply (inj Some) in H. exists (mb_searchShow n'), (mb_isSearch n').
  f_equal. injection H. intros. destruct n, n'; cbn in *. unfold with_search. cbn. congruence.
Qed.

Lemma insert_search b b' i n s : s !! i = Some n -> same_search s (<[i := with_search b b' n]> s).
Proof.
  intros Hi. unfold same_search. apply list_eq. intros j. rewrite !list_lookup_fmap.
  destruct (decide (i = j)) as [->|Hne]; [|by rewrite list_lookup_insert_ne].
  rewrite list_lookup_insert_eq by (by eapply lookup_lt_Some). by rewrite Hi.
Qed.

Definition shows s (j : nat) : bool := match s !! j with Some n => mb_searchShow n | None => false end.

Lemma shows_insert b b' i n s j :
  s !! i = Some n -> shows (<[i := with_search b b' n]> s) j = if decide (i = j) then b else shows s j.
Proof.
  intros Hi. unfold shows. case_decide; subst; [|by rewrite list_lookup_insert_ne].
  by rewrite list_lookup_insert_eq by (by eapply lookup_lt_Some).
Qed.

(** Shown beans are below shown beans. *)
Fixpoint upward s (path : list nat) : Prop :=
  match path with
  | [] => True
  | i :: path => (shows s i = true -> Forall (fun j => shows s j = true) path) /\ upward s path
  end.

Lemma upward_or s s' (P : Prop) path :
  (forall j, j ∈ path -> shows s' j = true <-> shows s j = true \/ P) -> upward s path -> upward s' path.
Proof.
  induction path as [|i path IH]; [done|]. cbn. intros H [Hi Hu]. split; [|apply IH; [set_solver|done]].
  intros Hs. apply Forall_forall. intros j Hj. apply H; [set_solver|]. apply H in Hs as [Hs|HP]; [|by right|set_solver].
  left. specialize (Hi Hs). rewrite Forall_forall in Hi. by apply Hi.
Qed.

Lemma same_search_length s s' : same_search s s' -> length s = length s'.
Proof. intros H. apply (f_equal length) in H. by rewrite !length_fmap in H. Qed.

(** [c] is shown under [i]. *)
Definition kid s (i c : nat) : Prop := c ∈ children_of s i.

Lemma children_search s s' i : same_search s s' -> children_of s' i = children_of s i.
Proof.
  intros Hs. unfold children_of. destruct (s !! i) as [n|] eqn:Hn.
  - by destruct (search_lookup _ _ _ _ Hs Hn) as (b & b' & ->).
  - destruct (s' !! i) as [n'|] eqn:Hn'; [|done].
    destruct (search_lookup _ _ _ _ (symmetry Hs) Hn') as (b & b' & E). congruence.
Qed.

(** *** The shown tree

    The beans that satisfy [dom] form the shown tree.  The [parent] of a bean is the
    bean it is shown under, or a bean that [blocked] says: one that is hidden, so that
    it is not in the tree and marked as shown. *)

Context (dom blocked : nat -> Prop) (h : nat -> nat) (s0 : beans X).

Definition tkid (i c : nat) : Prop := dom i /\ kid s0 i c.

(** The bean that [c] is shown under is its parent in the code. *)
Definition direct (i c : nat) : Prop := tkid i c /\ mb_parent <$> s0 !! c = Some (Some i).

Record shown_tree : Prop := {
  st_dom : forall i c, tkid i c -> dom c;
  st_bean : forall i, dom i -> is_Some (s0 !! i);
  st_one : forall i j c, tkid i c -> tkid j c -> i = j;
  st_height : forall i c, tkid i c -> (h c < h i)%nat;
  st_nodup : forall i, dom i -> NoDup (children_of s0 i);
  st_free : forall i c, tkid i c -> ~ blocked c;
  st_parent : forall i c, tkid i c ->
    mb_parent <$> s0 !! c = Some (Some i) \/ exists b, mb_parent <$> s0 !! c = Some (Some b) /\ blocked b;
}.

Context (q : jsstring).
Hypothesis (F : shown_tree) (Hq : lower q = q).
Local Notation sub := (rtc tkid).
Local Notation dsub := (rtc direct).

Definition hit (j : nat) : Prop := exists n, s0 !! j = Some n /\ matches lower q n = true.

Lemma kid_descend a b : sub a b -> (h b <= h a)%nat.
Proof. induction 1 as [|a c b Hac _ IH]; [done|]. pose proof (st_height F a c Hac). lia. Qed.

Lemma sub_kid a i c : sub a i -> tkid i c -> a <> c.
Proof. intros Ha Hc ->. pose proof (kid_descend _ _ Ha). pose proof (st_height F _ _ Hc). lia. Qed.

Lemma sub_blocked r b : ~ blocked r -> sub r b -> ~ blocked b.
Proof. intros Hr Hs. apply rtc_inv_r in Hs as [<-|(y & _ & Hy)]; [done|by eapply st_free]. Qed.

(** Two trees that share a bean are nested. *)
Lemma kid_linear a b x : sub a x -> sub b x -> sub a b \/ sub b a.
Proof.
  intros Ha. revert b. revert x Ha. apply (rtc_ind_r (fun x => forall b, sub b x -> _)); [by right|].
  intros y z Ha Hyz IH b Hb. apply rtc_inv_r in Hb as [->|(y' & Hb & Hy')]; [left; by eapply rtc_r|].
  rewrite (st_one F y' y z) in Hb by done. by apply IH.
Qed.

(** Beans under the same bean, or under none, share nothing below them. *)
Definition placed (o : option nat) (i : nat) : Prop :=
  match o with Some p => tkid p i | None => forall k, ~ tkid k i end.

Lemma placed_disjoint o a b x : placed o a -> placed o b -> sub a x -> sub b x -> a = b.
Proof.
  intros Ha Hb Hax Hbx.
  assert (Hone : forall a b, placed o a -> placed o b -> sub a b -> a = b).
  { clear a b Ha Hb Hax Hbx. intros a b Ha Hb Hab. apply rtc_inv_r in Hab as [|(y & Hay & Hyb)]; [done|].
    destruct o as [p|]; [|by destruct (Hb y)]. cbn in Ha, Hb. rewrite (st_one F y p b Hyb Hb) in Hay.
    pose proof (kid_descend _ _ Hay). pose proof (st_height F _ _ Ha). lia. }
  destruct (kid_linear _ _ _ Hax Hbx); [|symmetry]; by apply Hone.
Qed.

(** The beans that climbing from a parent visits: up to the root, or to a blocked bean. *)
Fixpoint linked (p : option nat) (path : list nat) : Prop :=
  match p, path with
  | None, [] => True
  | Some b, [] => blocked b
  | Some i, j :: path => i = j /\ exists n, s0 !! i = Some n /\ linked (mb_parent n) path
  | None, _ :: _ => False
  end.

(** Climbing shows the whole path. *)
Lemma show_from_path levels s p path :
  same_search s0 s -> linked p path -> NoDup path -> upward s path -> (forall b, blocked b -> shows s b = true) ->
  (length path < levels)%nat ->
  exists s', show_from levels s p = Some s' /\ same_search s s' /\
    forall j, shows s' j = true <-> shows s j = true \/ j ∈ path.
Proof.
  revert levels s p. induction path as [|i path IH]; intros levels s [r|] H0 Hl HN Hu Hb Hlen; try done;
    (destruct levels as [|levels]; [cbn in Hlen; lia|]).
  - exists s. split; [|split; [done|set_solver]]. specialize (Hb r Hl). unfold shows in Hb. cbn [show_from].
    destruct (s !! r) as [n|]; [|done]. by rewrite Hb.
  - exists s. split; [done|]. split; [done|]. set_solver.
  - destruct Hl as (-> & n0 & Hn0 & Hl). cbn [show_from].
    destruct (search_lookup _ _ _ _ H0 Hn0) as (b1 & b2 & Hn). rewrite Hn. set (n := with_search b1 b2 n0) in *.
    destruct Hu as [Hi Hu]. apply NoDup_cons in HN as [Hnew HN]. destruct (mb_searchShow n) eqn:Hshow.
    + exists s. split; [done|]. split; [done|]. intros j. split; [by left|]. intros [?|Hj]; [done|].
      assert (Hsi : shows s i = true) by (unfold shows; by rewrite Hn). apply elem_of_cons in Hj as [->|Hj]; [done|].
      specialize (Hi Hsi). rewrite Forall_forall in Hi. by apply Hi.
    + assert (Hs1 := insert_search true (mb_isSearch n) i n s Hn).
      destruct (IH levels (<[i := with_search true (mb_isSearch n) n]> s) (mb_parent n)) as (s' & E & Hs' & Hsh).
      * by etrans.
      * done.
      * done.
      * eapply (upward_or _ _ False); [|exact Hu]. intros j Hj. rewrite shows_insert by done.
        rewrite decide_False by (intros ->; done). naive_solver.
      * intros b Hbl. rewrite shows_insert by done. case_decide; [done|auto].
      * cbn in Hlen. lia.
      * exists s'. split; [done|]. split; [by etrans|]. intros j. rewrite Hsh, shows_insert by done. case_decide; set_solver.
Qed.

(** The path above a bean, when the bean under which it is shown is its parent. *)
Definition over (path : list nat) (i : nat) : list nat :=
  if bool_decide (mb_parent <$> s0 !! i = Some (head path)) then path else [].

(** Before the search of the beans [l] below the path [path]. *)
Record search_ready (levels : nat) (path l : list nat) (ps : bool) s : Prop := {
  sr_same : same_search s0 s;
  sr_dom : forall i, i ∈ l -> dom i /\ ~ blocked i;
  sr_parent : forall i, i ∈ l -> mb_parent <$> s0 !! i = Some (head path) \/
    exists b, mb_parent <$> s0 !! i = Some (Some b) /\ blocked b;
  sr_placed : forall i, i ∈ l -> placed (head path) i;
  sr_height : forall i, i ∈ l -> (S (h i) < levels)%nat;
  sr_nodup : NoDup l;
  sr_linked : linked (head path) path;
  sr_path : NoDup path;
  sr_above : forall a i, a ∈ path -> i ∈ l -> (h i < h a)%nat;
  sr_upward : upward s path;
  sr_blocked : forall b, blocked b -> shows s b = true;
  sr_shown : ps = true -> Forall (fun j => shows s j = true) path;
}.

(** After it. *)
Record search_done (path l : list nat) (ps : bool) s s' : Prop := {
  sd_same : same_search s s';
  sd_in : forall r j, r ∈ l -> sub r j ->
    shows s' j = true <-> ps = true \/ (exists a, sub r a /\ sub a j /\ hit a) \/ (exists a, dsub j a /\ hit a);
  sd_out : forall j, (forall r, r ∈ l -> ~ sub r j) ->
    shows s' j = true <-> shows s j = true \/ (exists r a, r ∈ l /\ j ∈ over path r /\ dsub r a /\ hit a);
}.

Lemma over_path path i j : j ∈ over path i -> j ∈ path.
Proof. unfold over. case_bool_decide; set_solver. Qed.

Lemma sub_path levels path l ps s a i : search_ready levels path l ps s -> a ∈ path -> i ∈ l -> ~ sub i a.
Proof. intros R Ha Hi Hsub. pose proof (kid_descend _ _ Hsub). pose proof (sr_above _ _ _ _ _ R a i Ha Hi). lia. Qed.

Lemma linked_bean p path a : linked p path -> a ∈ path -> (a < length s0)%nat.
Proof.
  revert p. induction path as [|j path IH]; intros [i|]; cbn; try done; try set_solver. intros (-> & n & Hn & Hl).
  intros [->|Ha]%elem_of_cons; [by eapply lookup_lt_Some|by eapply IH].
Qed.

(** The path above a bean of the list is what climbing from it visits. *)
Lemma over_linked levels path l ps s i n :
  search_ready levels path l ps s -> i ∈ l -> s0 !! i = Some n ->
  linked (mb_parent n) (over path i) /\ NoDup (i :: over path i) /\ upward s (over path i) /\
  (length (over path i) < length s0)%nat.
Proof.
  intros R Hi Hn.
  assert (Hni : i ∉ path) by (intros Hin; pose proof (sr_above _ _ _ _ _ R i i Hin Hi); lia).
  assert (Hl : linked (mb_parent n) (over path i)).
  { unfold over. rewrite Hn. cbn. case_bool_decide as E; [injection E as ->; apply R|].
    destruct (sr_parent _ _ _ _ _ R i Hi) as [H|(b & H & Hb)]; rewrite Hn in H; [done|]. cbn in H. by injection H as ->. }
  assert (HN : NoDup (i :: over path i)).
  { apply NoDup_cons. split; [intros H%over_path; done|]. unfold over. case_bool_decide; [apply R|constructor]. }
  split; [done|]. split; [done|]. split; [unfold over; case_bool_decide; [apply R|done]|].
  change (length (i :: over path i) <= length s0)%nat. rewrite <- (length_seq (length s0) 0).
  apply submseteq_length, NoDup_submseteq; [done|]. intros a Ha. apply elem_of_seq.
  apply elem_of_cons in Ha as [->|Ha]; [apply lookup_lt_Some in Hn; lia|]. pose proof (linked_bean _ _ _ Hl Ha). lia.
Qed.

(** Visiting one bean. *)
Lemma search_item_done levels path i l ps s :
  search_ready levels path (i :: l) ps s ->
  exists s1, search_item lower q ps s i = Some s1 /\ same_search s s1 /\
    (shows s1 i = true <-> ps = true \/ hit i) /\
    (forall j, j <> i -> shows s1 j = true <-> shows s j = true \/ (j ∈ over path i /\ hit i)).
Proof.
  intros R. assert (Hil : i ∈ i :: l) by set_solver. destruct (sr_dom _ _ _ _ _ R i Hil) as [Hd Hfree].
  destruct (st_bean F i Hd) as [n Hn]. destruct (over_linked _ _ _ _ _ _ _ R Hil Hn) as (Hl & HN & Hu & Hlen).
  destruct (search_lookup _ _ _ _ (sr_same _ _ _ _ _ R) Hn) as (b & b' & Hi). unfold search_item. rewrite Hi.
  change (matches lower q (with_search b b' n)) with (matches lower q n).
  change (mb_parent (with_search b b' n)) with (mb_parent n).
  assert (Hhit : hit i <-> matches lower q n = true) by (split; [intros (? & ? & ?); congruence|by exists n]).
  apply NoDup_cons in HN as [Hni HN].
  destruct (matches lower q n || ps) eqn:Hc.
  - rewrite (same_search_length _ _ (sr_same _ _ _ _ _ R)) in Hlen.
    set (n1 := with_search true _ _). pose proof (insert_search true (includes (lower (mb_symbol n)) q) i _ s Hi) as Hs1.
    assert (Hsh : forall j, shows (<[i := n1]> s) j = if decide (i = j) then true else shows s j)
      by (intros j; by apply shows_insert).
    destruct (show_from_path (length s) (<[i := n1]> s) (mb_parent n) (over path i)) as (s' & E & Hs' & Hshow); try done.
    + etrans; [apply (sr_same _ _ _ _ _ R)|exact Hs1].
    + eapply (upward_or _ _ False); [|exact Hu]. intros j Hj. rewrite Hsh, decide_False by (intros ->; done). naive_solver.
    + intros c Hbc. rewrite Hsh. case_decide; [done|]. by apply (sr_blocked _ _ _ _ _ R).
    + exists s'. split; [exact E|]. split; [by etrans|]. apply orb_true_iff in Hc. rewrite <- Hhit in Hc. split.
      * rewrite Hshow, Hsh, decide_True by done. naive_solver.
      * intros j Hj. rewrite Hshow, Hsh, decide_False by done. split; [|naive_solver].
        intros [?|Hj']; [by left|]. destruct Hc as [Hc|Hc]; [by right|]. left.
        pose proof (sr_shown _ _ _ _ _ R Hc) as Hall. rewrite Forall_forall in Hall. by eapply Hall, over_path.
  - apply orb_false_iff in Hc as [Hm ->]. eexists. split; [done|]. split; [by apply insert_search|].
    rewrite Hhit, Hm. split; [rewrite shows_insert, decide_True by done; naive_solver|].
    intros j Hj. rewrite shows_insert, decide_False by done. split; [by left|].
    intros [?|[_ Hh]]; [done|]. apply Hhit in Hh. congruence.
Qed.

Lemma over_cons i P c j : tkid i c -> j ∈ over (i :: P) c <-> direct i c /\ (j = i \/ j ∈ P).
Proof.
  intros Hc. unfold over, direct. cbn [head]. case_bool_decide as E; rewrite ?elem_of_cons; [tauto|]. set_solver.
Qed.

(** A bean and what is shown below it. *)
Lemma search_tree_done levels path i l ps s (rec : list nat -> bool -> beans X -> option (beans X)) :
  search_ready (S levels) path (i :: l) ps s ->
  (forall path' l' ps' s', search_ready levels path' l' ps' s' ->
     exists s'', rec l' ps' s' = Some s'' /\ search_done path' l' ps' s' s'') ->
  exists s', (s1 ← search_item lower q ps s i;
              match s1 !! i with Some item => rec (mb_children item) (mb_searchShow item) s1 | None => Some s1 end) = Some s' /\
    search_done path [i] ps s s'.
Proof.
  intros R Hrec. destruct (search_item_done _ _ _ _ _ _ R) as (s1 & -> & Hs1 & Hi1 & Hj1). cbn [mbind option_bind].
  assert (Hil : i ∈ i :: l) by set_solver. destruct (sr_dom _ _ _ _ _ R i Hil) as [Hd Hfree].
  destruct (st_bean F i Hd) as [n Hn]. destruct (over_linked _ _ _ _ _ _ _ R Hil Hn) as (Hl & HN & Hu & _).
  assert (Hs01 : same_search s0 s1) by (etrans; [apply R|done]).
  destruct (search_lookup _ _ _ _ Hs01 Hn) as (b & b' & Hi). rewrite Hi. cbn [mb_children mb_searchShow with_search].
  assert (Hb : shows s1 i = b) by (unfold shows; by rewrite Hi). assert (Hch : mb_children n = children_of s0 i)
    by (unfold children_of; by rewrite Hn). rewrite Hch.
  assert (Hkid : forall c, c ∈ children_of s0 i -> tkid i c) by done.
  apply NoDup_cons in HN as [Hni HN]. pose proof (sr_height _ _ _ _ _ R i Hil) as Hhi.
  assert (Hup : upward s1 (over path i)).
  { eapply (upward_or _ _ (hit i)); [|exact Hu]. intros j Hj. rewrite Hj1 by (intros ->; done). naive_solver. }
  assert (Hall : b = true -> Forall (fun j => shows s1 j = true) (over path i)).
  { intros Eb. apply Forall_forall. intros j Hj. apply Hj1; [intros ->; done|]. rewrite Eb in Hb. apply Hi1 in Hb as [Hps|Hhit];
      [left|right; done]. pose proof (sr_shown _ _ _ _ _ R Hps) as Hsh. rewrite Forall_forall in Hsh. by eapply Hsh, over_path. }
  destruct (Hrec (i :: over path i) (children_of s0 i) b s1) as (s2 & -> & [Hs2 Hin Hout]).
  { split; try done.
    - intros c Hc%Hkid. split; [by eapply st_dom|by eapply st_free].
    - intros c Hc%Hkid. by apply (st_parent F).
    - intros c Hc%Hkid. pose proof (st_height F i c Hc). lia.
    - by apply (st_nodup F).
    - cbn. split; [done|]. by exists n.
    - by apply NoDup_cons.
    - intros a c [->|Ha%over_path]%elem_of_cons Hc%Hkid; pose proof (st_height F i c Hc); [done|].
      pose proof (sr_above _ _ _ _ _ R a i Ha Hil). lia.
    - cbn. split; [|done]. intros Hi'. apply Hall. congruence.
    - intros c Hc. apply Hj1; [by intros ->|]. left. by apply (sr_blocked _ _ _ _ _ R).
    - intros Eb. apply Forall_cons. split; [congruence|by apply Hall]. }
  assert (Hib : b = true <-> ps = true \/ hit i) by (by rewrite <- Hi1, Hb).
  exists s2. split; [done|]. split; [by etrans| |].
  - intros r j ->%list_elem_of_singleton Hsub. inversion Hsub as [|? c ? Hc Hcj]; subst.
    + rewrite Hout; [|intros c Hc%Hkid Hsub'; pose proof (kid_descend _ _ Hsub'); pose proof (st_height F _ _ Hc); lia].
      rewrite Hi1. split.
      * intros [[?|?]|(c & a & Hc%Hkid & Hjc & Hca & Ha)]; [by left|right; left; by exists j|right; right].
        apply (over_cons _ _ _ _ Hc) in Hjc as [? _]. exists a. split; [by eapply rtc_l|done].
      * intros [?|[(a & Hja & Haj & Ha)|(a & Hja & Ha)]]; [by left; left| |].
        -- assert (a = j) as ->; [|by left; right]. inversion Hja as [|? c ? Hc Hca]; subst; [done|].
           pose proof (kid_descend _ _ Haj). pose proof (kid_descend _ _ Hca). pose proof (st_height F _ _ Hc). lia.
        -- inversion Hja as [|? c ? Hc Hca]; subst; [by left; right|]. right. exists c, a. split; [apply Hc|].
           split; [|done]. apply over_cons; [apply Hc|]. by split; [|left].
    + rewrite (Hin c j (proj2 Hc) Hcj), Hib. split.
      * intros [[?|?]|[(a & Hca & Haj & Ha)|?]]; [by left|right; left; exists i; by split_and!| |by right; right].
        right; left. exists a. split_and!; [by eapply rtc_l|done..].
      * intros [?|[(a & Hia & Haj & Ha)|?]]; [by left; left| |by right; right].
        inversion Hia as [|? c' ? Hc' Hca]; subst; [by left; right|]. right; left. exists a. split_and!; [|done..].
        assert (c' = c) as <-; [|done]. by apply (placed_disjoint (Some i) c' c j); [done|done|etrans|].
  - intros j Hj. assert (Hji : j <> i) by (intros ->; by apply (Hj i); [set_solver|]).
    rewrite Hout; [|intros c Hc%Hkid Hsub; apply (Hj i); [set_solver|by eapply rtc_l]]. rewrite Hj1 by done. split.
    + intros [[?|[? ?]]|(c & a & Hc%Hkid & Hjc & Hca & Ha)]; [by left|right; exists i, i; set_solver|].
      apply (over_cons _ _ _ _ Hc) in Hjc as [Hdc [->|Hjo]]; [done|]. right. exists i, a.
      split; [set_solver|]. split; [done|]. split; [by eapply rtc_l|done].
    + intros [?|(r & a & ->%list_elem_of_singleton & Hjo & Hia & Ha)]; [by left; left|].
      inversion Hia as [|? c ? Hc Hca]; subst; [left; by right|]. right. exists c, a. split; [apply Hc|].
      split; [|done]. apply over_cons; [apply Hc|]. by split; [|right].
Qed.

Lemma search_ready_tail levels path i l ps s s2 :
  search_ready levels path (i :: l) ps s -> search_done path [i] ps s s2 -> search_ready levels path l ps s2.
Proof.
  intros R [Hs2 _ Hout]. pose proof R as [Hsame Hdom Hpar Hpl Hheight HN Hl Hp Ha Hu Hbl Hs].
  assert (Hin : forall x, x ∈ l -> x ∈ i :: l) by (intros; by apply elem_of_cons; right).
  assert (Hil : i ∈ i :: l) by set_solver.
  assert (Hpath : forall j, j ∈ path -> shows s2 j = true <-> shows s j = true \/
    (mb_parent <$> s0 !! i = Some (head path) /\ exists a, dsub i a /\ hit a)).
  { intros j Hj. rewrite Hout; [|intros r ->%list_elem_of_singleton; by apply (sub_path _ _ _ _ _ _ _ R Hj)].
    unfold over. split.
    - intros [?|(r & a & ->%list_elem_of_singleton & Hjo & ?)]; [by left|right]. case_bool_decide; [eauto|set_solver].
    - intros [?|(E & a & ?)]; [by left|right]. exists i, a. rewrite bool_decide_true by done. set_solver. }
  apply NoDup_cons in HN as [_ HN]. split; eauto.
  - by etrans.
  - by eapply upward_or.
  - intros b Hb. apply Hout; [|left; by apply Hbl]. intros r ->%list_elem_of_singleton Hsub.
    by apply (sub_blocked i b); [apply Hdom| |].
  - intros Hps. specialize (Hs Hps). rewrite Forall_forall in *. intros j Hj. apply Hpath; [done|]. left. by apply Hs.
Qed.

Lemma findSearchNode_done levels path l ps s :
  (0 < levels)%nat -> search_ready levels path l ps s ->
  exists s', findSearchNode lower levels l q ps s = Some s' /\ search_done path l ps s s'.
Proof.
  revert path l ps s. induction levels as [|levels IH]; intros path l ps s Hpos R; [lia|]. cbn [findSearchNode]. rewrite Hq.
  clear Hpos. revert s R. induction l as [|i l IHl]; intros s R.
  { exists s. split; [done|]. split; [done|set_solver|]. intros j _. set_solver. }
  cbn [foldM]. assert (Hil : i ∈ i :: l) by set_solver.
  destruct (search_tree_done levels path i l ps s (fun l' ps' s' => findSearchNode lower levels l' q ps' s') R)
    as (s2 & -> & Hdone).
  { intros path' l' ps' s' R'. apply IH; [|done]. pose proof (sr_height _ _ _ _ _ R i Hil). lia. }
  cbn [mbind option_bind]. pose proof Hdone as [Hs2 Hin Hout].
  destruct (IHl s2) as (s3 & -> & [Hs3 Hin3 Hout3]); [by eapply search_ready_tail|].
  assert (Hnew : i ∉ l) by (pose proof (sr_nodup _ _ _ _ _ R) as HN; by apply NoDup_cons in HN as [? _]).
  exists s3. split; [done|]. split; [by etrans| |].
  - intros r j [->|Hr]%elem_of_cons Hsub; [|by apply Hin3]. rewrite Hout3.
    + rewrite (Hin i j ltac:(set_solver) Hsub). split; [|by left]. intros [?|(r & a & _ & Hj%over_path & _)]; [done|].
      exfalso. by apply (sub_path _ _ _ _ _ _ i R Hj).
    + intros r Hr Hrj. apply Hnew. assert (r = i) as <-; [|done].
      eapply (placed_disjoint (head path) r i j); [apply (sr_placed _ _ _ _ _ R); set_solver..|done|done].
  - intros j Hj. rewrite Hout3 by (intros r Hr; apply Hj; set_solver). rewrite Hout by (intros r ->%list_elem_of_singleton; apply Hj; set_solver).
    split.
    + intros [[?|(r & a & ->%list_elem_of_singleton & ?)]|(r & a & ? & ?)]; [by left|right..].
      * exists i, a. by split.
      * exists r, a. by split; [right|].
    + intros [?|(r & a & [->|?]%elem_of_cons & ?)]; [by left; left|left; right|right].
      * exists i, a. by split; [left|].
      * by exists r, a.
Qed.
End SearchProofs.

(** What a search shows.  On a shown tree [findSearchNode] ends; it changes nothing
    but the marks of the search; and a bean of the trees of [data] is shown exactly
    when its symbol contains the text in lower case, or that of a bean above it in its
    tree does, or that of a bean below it from which the references [parent] lead to it
    without passing a hidden bean. *)
Theorem search_shows {X} lower dom blocked h (s : beans X) levels data search :
  shown_tree dom blocked h s -> lower (lower search) = lower search -> NoDup data -> (0 < levels)%nat ->
  (forall b, blocked b -> shows s b = true) ->
  (forall i, i ∈ data -> (S (h i) < levels)%nat /\ dom i /\ ~ blocked i /\ (forall k, ~ tkid dom s k i) /\
     mb_parent <$> s !! i = Some None) ->
  exists s', findSearchNode lower levels data search false s = Some s' /\ same_search s s' /\
    (forall r j, r ∈ data -> rtc (tkid dom s) r j ->
       shows s' j = true <->
       exists a, hit lower s (lower search) a /\
         (rtc (tkid dom s) r a /\ rtc (tkid dom s) a j \/ rtc (direct dom s) j a)) /\
    (forall j, (forall r, r ∈ data -> ~ rtc (tkid dom s) r j) -> shows s' j = shows s j).
Proof.
  intros F Hlow HN Hpos Hb Hdata.
  assert (Hfind : findSearchNode lower levels data search false s = findSearchNode lower levels data (lower search) false s)
    by (destruct levels; [done|]; cbn [findSearchNode]; by rewrite Hlow).
  rewrite Hfind. destruct (findSearchNode_done lower dom blocked h s (lower search) F Hlow levels [] data false s Hpos)
    as (s' & -> & [Hs Hin Hout]).
  { split; try done; try set_solver; try constructor; intros i Hi; destruct (Hdata i Hi) as (? & ? & ? & ? & ?); first [done|by left]. }
  exists s'. split; [done|]. split; [done|]. split.
  - intros r j Hr Hrj. rewrite (Hin r j Hr Hrj). split.
    + intros [?|[(a & Hra & Haj & Ha)|(a & Hja & Ha)]]; [done|exists a; split; [done|by left]|exists a; split; [done|by right]].
    + intros (a & Ha & [[Hra Haj]|Hja]); right; [left|right]; by exists a.
  - intros j Hj. apply eq_iff_eq_true. rewrite (Hout j Hj). split; [|by left].
    intros [?|(r & a & _ & Hjo & _)]; [done|]. unfold over in Hjo. case_bool_decide; set_solver.
Qed.

(** ** A filter with a search *)

(** The beans of the processes [data] and of the list are a whole tree: the parents of
    the beans are among them, and the references [parent] and [parentNode] agree. *)
Record listed {X} (levels : nat) (u : nat -> nat) (s : beans X) (data currentTreeList : list nat) : Prop := {
  ls_bean : forall i, i ∈ data \/ i ∈ currentTreeList -> is_Some (s !! i);
  ls_parent : forall i n, s !! i = Some n -> mb_parent n = mb_parentNode n;
  ls_up : forall i n p, i ∈ currentTreeList -> s !! i = Some n -> mb_parentNode n = Some p ->
    p ∈ data \/ p ∈ currentTreeList;
  ls_root : forall i, i ∈ data -> mb_parentNode <$> s !! i = Some None;
  ls_data : NoDup data;
  ls_nodup : NoDup currentTreeList;
  ls_rooted : rooted levels u s;
  ls_depth : forall i, is_Some (s !! i) -> (u i + 2 <= levels)%nat;
  ls_levels : (0 < levels)%nat;
}.

(** The tree in which a search looks: what the filters leave, every bean of the list
    under the nearest of its ancestors that no filter hides. *)
Definition shown_under {X} levels (s : beans X) data currentTreeList (i c : nat) : Prop :=
  (i ∈ data \/ i ∈ currentTreeList) /\ c ∈ currentTreeList /\
  shown_parent levels (unsearched data currentTreeList s) c = Some i.

(** The same without a hidden bean in between. *)
Definition shown_directly {X} levels (s : beans X) data currentTreeList (i c : nat) : Prop :=
  shown_under levels s data currentTreeList i c /\ mb_parentNode <$> s !! c = Some (Some i).

Section Reset.
Context {X : Type} (lower : jsstring -> jsstring) (levels : nat) (u : nat -> nat) (data cur : list nat).
Implicit Types (s : beans X) (n : MerageBean X).

Lemma shown_parent_ext s s' c :
  (forall i, (fun n => (visible n, mb_parentNode n)) <$> s !! i = (fun n => (visible n, mb_parentNode n)) <$> s' !! i) ->
  shown_parent levels s c = shown_parent levels s' c.
Proof.
  intros H.
  assert (Hv : forall l p, visible_from l s p = visible_from l s' p).
  { induction l as [|l IH]; intros [i|]; try done. cbn. specialize (H i).
    destruct (s !! i), (s' !! i); try done. apply (inj Some) in H. pose proof (f_equal fst H) as E1.
    pose proof (f_equal snd H) as E2. cbn [fst snd] in E1, E2. rewrite E1, E2. by case_match. }
  unfold shown_parent. specialize (H c). destruct (s !! c), (s' !! c); try done. apply (inj Some) in H.
  pose proof (f_equal fst H) as E1. pose proof (f_equal snd H) as E2. cbn [fst snd] in E1, E2. by rewrite E1, E2, Hv.
Qed.

Lemma listed_links s s' :
  (forall i, (fun n => (mb_parent n, mb_parentNode n)) <$> s !! i = (fun n => (mb_parent n, mb_parentNode n)) <$> s' !! i) ->
  listed levels u s data cur -> listed levels u s' data cur.
Proof.
  intros H [H1 H2 H3 H4 H5 H6 H7 H8 H9].
  assert (Hback : forall i n', s' !! i = Some n' -> exists n, s !! i = Some n /\ mb_parent n = mb_parent n' /\ mb_parentNode n = mb_parentNode n').
  { intros i n' Hn'. specialize (H i). rewrite Hn' in H. destruct (s !! i) as [n|]; [|done]. apply (inj Some) in H.
    injection H as ? ?. by exists n. }
  split; try done.
  - intros i Hi. specialize (H i). destruct (H1 i Hi) as [n Hn]. rewrite Hn in H. destruct (s' !! i); [by eexists|done].
  - intros i n' Hn'. destruct (Hback _ _ Hn') as (n & Hn & <- & <-). by eapply H2.
  - intros i n' p Hi Hn'. destruct (Hback _ _ Hn') as (n & Hn & _ & <-). by eapply H3.
  - intros i Hi. specialize (H i). specialize (H4 i Hi). destruct (s !! i), (s' !! i); try done.
    apply (inj Some) in H. injection H as _ E. cbn in H4 |- *. congruence.
  - eapply rooted_parents; [|exact H7]. intros i n' Hn'. destruct (Hback _ _ Hn') as (n & ? & _ & ?). eauto.
  - intros i [n' Hn']. destruct (Hback _ _ Hn') as (n & Hn & _). apply H8. by eexists.
Qed.

(** The tree that the first pass of [resetAllNode] leaves is one to search. *)
Lemma reset_shown_tree s1 :
  listed levels u s1 data cur -> shows_visible levels s1 data cur ->
  (forall i n, i ∈ data \/ i ∈ cur -> s1 !! i = Some n -> mb_searchShow n = true) ->
  let dom i := i ∈ data \/ i ∈ cur in
  let blocked b := dom b /\ b ∉ data /\ exists n, s1 !! b = Some n /\ visible n = false in
  shown_tree dom blocked (fun i => levels - 2 - u i)%nat s1.
Proof.
  intros L Sv Hsh dom blocked. pose proof (ls_rooted _ _ _ _ _ L) as Hr.
  assert (Hk : forall i c, tkid dom s1 i c -> c ∈ cur /\ (exists n, s1 !! c = Some n /\ visible n = true) /\ nearest s1 c i /\
    shown_parent levels s1 c = Some i).
  { intros i c [Hi Hc]. unfold kid in Hc. rewrite (Sv i Hi) in Hc. apply list_elem_of_filter in Hc as [Hp Hc].
    pose proof Hp as Hp'. apply (shown_parent_spec levels u) in Hp as [? ?]; done. }
  assert (Hdepth : forall c i, nearest s1 c i -> (u i < u c)%nat).
  { induction 1 as [c n i ni Hn Hp _ _|c n r nr i Hn Hp _ _ _ IH]; [by eapply Hr|]. destruct (Hr c n r Hn Hp). lia. }
  split.
  - intros i c H%Hk. right. apply H.
  - intros i Hi. by apply (ls_bean _ _ _ _ _ L).
  - intros i j c Hi%Hk Hj%Hk. destruct Hi as (_ & _ & _ & Hi), Hj as (_ & _ & _ & Hj). congruence.
  - intros i c H%Hk. destruct H as (_ & (n & Hn & _) & Hni & _). pose proof (Hdepth _ _ Hni).
    pose proof (ls_depth _ _ _ _ _ L c ltac:(by eexists)). lia.
  - intros i Hi. rewrite (Sv i Hi). by apply NoDup_filter, (ls_nodup _ _ _ _ _ L).
  - intros i c H%Hk (_ & _ & n & Hn & Hv). destruct H as (_ & (n' & Hn' & Hv') & _). congruence.
  - intros i c H%Hk. destruct H as (Hc & (n & Hn & Hv) & Hni & _). rewrite Hn. cbn. rewrite (ls_parent _ _ _ _ _ L c n Hn).
    inversion Hni as [? n1 ? np Hn1 Hp|? n1 r nr ? Hn1 Hp Hnr Hvr Hri]; assert (n1 = n) as -> by congruence.
    + left. by rewrite Hp.
    + right. exists r. rewrite Hp. split; [done|]. split; [by apply (ls_up _ _ _ _ _ L c n)|]. split; [|eauto].
      intros Hd. pose proof (ls_root _ _ _ _ _ L r Hd) as Hnone. inversion Hri as [? m ? ? Hm Hmp|? m ? ? ? Hm Hmp];
        rewrite Hm in Hnone; cbn in Hnone; congruence.
Qed.

(** What [resetAllNode] leaves of the beans: everything but the links of the shown tree
    and the marks of the search. *)
Definition filed n : MerageBean X := shape (searched n).

Lemma same_filed (f : MerageBean X -> MerageBean X) s s' :
  (forall n, filed (f n) = filed n) -> f <$> s = f <$> s' -> filed <$> s = filed <$> s'.
Proof.
  intros Hf H. apply (f_equal (fmap filed)) in H. rewrite <- !list_fmap_compose in H.
  etrans; [|etrans; [exact H|]]; apply list_fmap_ext; intros i n _; cbn; by rewrite Hf.
Qed.

Lemma filed_lookup s s' i : filed <$> s = filed <$> s' -> filed <$> s !! i = filed <$> s' !! i.
Proof. intros H. apply (f_equal (.!! i)) in H. by rewrite !list_lookup_fmap in H. Qed.

Lemma unsearched_filed s : filed <$> unsearched data cur s = filed <$> s.
Proof.
  apply list_eq. intros i. rewrite !list_lookup_fmap, unsearched_lookup. destruct (s !! i); [|done]. cbn. by case_decide.
Qed.

Lemma filed_links s s' :
  filed <$> s = filed <$> s' ->
  forall i, (fun n => (mb_parent n, mb_parentNode n)) <$> s !! i = (fun n => (mb_parent n, mb_parentNode n)) <$> s' !! i.
Proof.
  intros H i. apply (filed_lookup _ _ i) in H. destruct (s !! i), (s' !! i); try done.
  apply (inj Some) in H. injection H. intros. cbn. congruence.
Qed.

Lemma filed_unsearched s s' :
  filed <$> s = filed <$> s' -> (forall i, ~ (i ∈ data \/ i ∈ cur) -> shows s i = shows s' i) ->
  forall i, (fun n => (visible n, mb_parentNode n)) <$> unsearched data cur s !! i =
            (fun n => (visible n, mb_parentNode n)) <$> unsearched data cur s' !! i.
Proof.
  intros H Hsh i. apply (filed_lookup _ _ i) in H. specialize (Hsh i). unfold shows in Hsh. rewrite !unsearched_lookup.
  destruct (s !! i), (s' !! i); try done. apply (inj Some) in H. injection H. intros. cbn.
  case_decide as Hd; unfold visible; cbn; [congruence|]. rewrite (Hsh Hd). congruence.
Qed.

Lemma unsearched_shown s i n :
  i ∈ data \/ i ∈ cur -> unsearched data cur s !! i = Some n -> mb_searchShow n = true /\ mb_isSearch n = false.
Proof.
  intros Hi. rewrite unsearched_lookup. destruct (s !! i) as [m|]; [|done]. cbn. rewrite decide_True by done. by intros [= <-].
Qed.

Lemma shape_filed s s' : same_shape s s' -> filed <$> s = filed <$> s'.
Proof. by apply (same_filed shape). Qed.

Lemma search_filed s s' : same_search s s' -> filed <$> s = filed <$> s'.
Proof. by apply (same_filed searched). Qed.

(** [resetAllNode], for every search value. *)
Lemma resetAllNode_shows s search :
  listed levels u s data cur -> lower (lower search) = lower search ->
  exists s', resetAllNode lower levels data cur search s = Some s' /\ filed <$> s = filed <$> s' /\
    rooted levels u s' /\ shows_visible levels s' data cur /\
    (search = [] -> forall i n, i ∈ data \/ i ∈ cur -> s' !! i = Some n -> mb_searchShow n = true /\ mb_isSearch n = false) /\
    (search <> [] ->
      (forall r j, r ∈ data -> rtc (shown_under levels s' data cur) r j ->
         shows s' j = true <->
         exists a, hit lower s' (lower search) a /\
           (rtc (shown_under levels s' data cur) r a /\ rtc (shown_under levels s' data cur) a j \/
            rtc (shown_directly levels s' data cur) j a)) /\
      (forall j, j ∈ data \/ j ∈ cur -> (forall r, r ∈ data -> ~ rtc (shown_under levels s' data cur) r j) ->
         shows s' j = true)).
Proof.
  intros L Hlow. set (t := unsearched data cur s).
  assert (Lt : listed levels u t data cur) by (eapply listed_links, L; apply filed_links; symmetry; apply unsearched_filed).
  unfold resetAllNode. fold (unsearched data cur s). fold t.
  destruct (resetNewAllNode_shows levels u t data cur) as (s1 & -> & Hsh1 & Sv1); [apply Lt|intros; apply Lt; by right|].
  cbn [mbind option_bind].
  assert (F1 : filed <$> s = filed <$> s1) by (etrans; [symmetry; apply unsearched_filed|by apply shape_filed]).
  assert (L1 : listed levels u s1 data cur) by (eapply listed_links, L; by apply filed_links).
  assert (M1 : forall i n, i ∈ data \/ i ∈ cur -> s1 !! i = Some n -> mb_searchShow n = true /\ mb_isSearch n = false).
  { intros i n Hi Hn. pose proof (shape_lookup _ _ i Hsh1) as H. rewrite Hn in H. destruct (t !! i) as [m|] eqn:Hm; [|done].
    destruct (unsearched_shown s i m Hi Hm) as [E1 E2]. apply (inj Some) in H. injection H. intros. by rewrite <- E1, <- E2. }
  destruct (decide (search = [])) as [->|Hne].
  { rewrite bool_decide_true by done. exists s1. split_and!; try done. apply L1. }
  rewrite bool_decide_false by done. set (dom i := i ∈ data \/ i ∈ cur).
  pose proof (reset_shown_tree s1 L1 Sv1 ltac:(intros; by eapply M1)) as T. cbn zeta in T. fold dom in T.
  set (blocked b := dom b /\ b ∉ data /\ exists n, s1 !! b = Some n /\ visible n = false) in T.
  assert (Hunder0 : forall i c, tkid dom s1 i c <-> dom i /\ c ∈ cur /\ shown_parent levels s1 c = Some i).
  { intros i c. unfold tkid, kid. split; intros [Hi Hc]; (split; [done|]); rewrite (Sv1 i Hi) in *;
      rewrite list_elem_of_filter in *; tauto. }
  destruct (search_shows lower dom blocked (fun i => levels - 2 - u i)%nat s1 levels data search) as (s2 & -> & Hs2 & Hin & Hout);
    [done|done|apply L|..].
  { apply L. }
  { intros b (Hb & _ & n & Hn & _). unfold shows. rewrite Hn. by eapply M1. }
  { intros i Hi. assert (Hd : dom i) by (by left). destruct (ls_bean _ _ _ _ _ L1 i Hd) as [n Hn].
    pose proof (ls_depth _ _ _ _ _ L1 i ltac:(by eexists)). pose proof (ls_root _ _ _ _ _ L1 i Hi) as Hp.
    rewrite Hn in Hp |- *. injection Hp as Hp. split_and!; [lia|done|intros (_ & ? & _); done| |].
    - intros k (_ & _ & Hk)%Hunder0. unfold shown_parent in Hk. rewrite Hn, Hp in Hk. destruct (visible n), levels; done.
    - cbn. by rewrite (ls_parent _ _ _ _ _ L1 i n Hn), Hp. }
  cbn [mbind option_bind].
  assert (F2 : filed <$> s = filed <$> s2) by (etrans; [exact F1|by apply search_filed]).
  assert (L2 : listed levels u s2 data cur) by (eapply listed_links, L; by apply filed_links).
  destruct (resetNewAllNode_shows levels u s2 data cur) as (s3 & -> & Hsh3 & Sv3); [apply L2|intros; apply L2; by right|].
  assert (F3 : filed <$> s = filed <$> s3) by (etrans; [exact F2|by apply shape_filed]).
  assert (L3 : listed levels u s3 data cur) by (eapply listed_links, L; by apply filed_links).
  assert (Hsh23 : forall j, shows s3 j = shows s2 j).
  { intros j. pose proof (shape_lookup _ _ j Hsh3) as H. unfold shows. destruct (s2 !! j), (s3 !! j); try done.
    apply (inj Some) in H. injection H. intros. congruence. }
  assert (Hdomr : forall r j, r ∈ data -> rtc (tkid dom s1) r j -> dom j).
  { intros r j Hr Hj. apply rtc_inv_r in Hj as [<-|(y & _ & Hy)]; [by left|by apply (st_dom _ _ _ _ T) in Hy]. }
  assert (Hunder : forall i c, tkid dom s1 i c <-> shown_under levels s3 data cur i c).
  { intros i c. rewrite Hunder0. unfold shown_under. fold (dom i). do 2 (apply and_iff_compat_l).
    rewrite (shown_parent_ext (unsearched data cur s3) (unsearched data cur s1)), (shown_parent_ext (unsearched data cur s1) s1); [done| |].
    - intros k. rewrite unsearched_lookup. destruct (s1 !! k) as [m|] eqn:Hm; [|done]. cbn. case_decide as Hd; [|done].
      destruct (M1 k m Hd Hm) as [E _]. unfold visible. cbn. by rewrite E.
    - apply filed_unsearched; [congruence|]. intros k Hk. rewrite Hsh23. apply Hout. intros r Hr Hrk. by apply Hk, (Hdomr r). }
  assert (Hdirect : forall i c, direct dom s1 i c <-> shown_directly levels s3 data cur i c).
  { intros i c. unfold direct, shown_directly. rewrite <- Hunder. apply and_iff_compat_l.
    pose proof (filed_links s1 s3 ltac:(congruence) c) as E. destruct (s1 !! c) as [n|] eqn:Hn, (s3 !! c) as [n3|]; try done.
    apply (inj Some) in E. injection E as _ E. cbn. by rewrite (ls_parent _ _ _ _ _ L1 c n Hn), E. }
  assert (Hhit : forall a, hit lower s1 (lower search) a <-> hit lower s3 (lower search) a).
  { intros a. pose proof (filed_lookup s1 s3 a ltac:(congruence)) as E.
    assert (Hsym : mb_symbol <$> s1 !! a = mb_symbol <$> s3 !! a).
    { destruct (s1 !! a), (s3 !! a); try done. apply (inj Some) in E. injection E. intros. cbn. congruence. }
    unfold hit, matches. split; intros (n & Hn & Hm); rewrite Hn in Hsym.
    - destruct (s3 !! a) as [n3|]; [|done]. injection Hsym as Hs. exists n3. by rewrite <- Hs.
    - destruct (s1 !! a) as [n1|]; [|done]. injection Hsym as Hs. exists n1. by rewrite Hs. }
  assert (Hrtc : forall i c, rtc (tkid dom s1) i c <-> rtc (shown_under levels s3 data cur) i c)
    by (intros; split; apply rtc_subrel; intros x y; apply Hunder).
  assert (Hdrtc : forall i c, rtc (direct dom s1) i c <-> rtc (shown_directly levels s3 data cur) i c)
    by (intros; split; apply rtc_subrel; intros x y; apply Hdirect).
  exists s3. split_and!; [done|done|apply L3|done|done|]. intros _. split.
  - intros r j Hr Hj. rewrite Hsh23, (Hin r j Hr) by (by apply Hrtc). setoid_rewrite Hhit. setoid_rewrite Hrtc.
    setoid_rewrite Hdrtc. done.
  - intros j Hd Hj. rewrite Hsh23, Hout by (intros r Hr Hrj; apply (Hj r Hr); by apply Hrtc).
    destruct (ls_bean _ _ _ _ _ L1 j Hd) as [n Hn]. unfold shows. rewrite Hn. by eapply M1.
Qed.
End Reset.


(** ** Samples *)

(** A bean of the tree: its symbol, library, parent and children. *)
Definition sample_bean (symbol lib : string) (parent : option nat) (initChildren : list nat) (isStore : Z) : MerageBean unit :=
  {| mb_symbol := js symbol; mb_lib := js lib; mb_path := js lib; mb_count := 1; mb_parent := parent;
     mb_parentNode := parent; mb_initChildren := initChildren; mb_children := initChildren; mb_isStore := isStore;
     mb_searchShow := true; mb_isSearch := false; mb_currentTreeParentNode := None; mb_rest := tt |}.

Definition sample_beans : beans unit :=
  [sample_bean "proc" "" None [1; 4]%nat 0; sample_bean "main" "a.so" (Some 0%nat) [2]%nat 0;
   sample_bean "lock" "libc.so" (Some 1%nat) [3]%nat 0; sample_bean "work" "a.so" (Some 2%nat) [] 0;
   sample_bean "lock" "libc.so" (Some 0%nat) [5]%nat 0; sample_bean "idle" "a.so" (Some 4%nat) [] 0].

Definition sample_height (i : nat) : nat := 6 - i.

Lemma sample_forest : forest sample_height sample_beans.
Proof.
  assert (Hc : forall i c, child sample_beans i c -> (i, c) ∈ [(0, 1); (0, 4); (1, 2); (2, 3); (4, 5)]%nat).
  { intros i c (n & Hn & Hin). do 6 (destruct i as [|i]; [injection Hn as <-; cbn in Hin; set_solver|]). done. }
  split.
  - intros i c H%Hc. unfold sample_height. set_unfold in H. intuition (simplify_eq; lia).
  - intros i c H%Hc. set_unfold in H. intuition (simplify_eq; by eexists).
  - intros i n Hn. do 6 (destruct i as [|i]; [injection Hn as <-; cbn; apply (bool_decide_unpack _); vm_compute; exact I|]). done.
  - intros i j c H1%Hc H2%Hc. set_unfold in H1. set_unfold in H2. intuition (simplify_eq; done).
Qed.

Lemma sample_processes : processes 8 sample_height sample_beans [0%nat].
Proof.
  split.
  - intros p ->%list_elem_of_singleton. by eexists.
  - intros p ->%list_elem_of_singleton. cbn. lia.
  - intros p i ->%list_elem_of_singleton (n & Hn & Hin).
    do 6 (destruct i as [|i]; [injection Hn as <-; cbn in Hin; set_solver|]). done.
  - apply NoDup_singleton.
Qed.

Lemma sample_rooted : rooted 8 id sample_beans.
Proof.
  intros i n p Hn Hp. do 6 (destruct i as [|i]; [injection Hn as <-; cbn in Hp; simplify_eq; cbn; lia|]). done.
Qed.

Lemma split_and_restore_witness :
  let items := [{| si_name := js "lock"; si_charge := true; si_symbol := true; si_checked := true |};
                {| si_name := js "libc.so"; si_charge := false; si_symbol := false; si_checked := true |}] in
  exists s' m', splitAllProcess 8 [0%nat] items (sample_beans, ∅) = Some (s', m') /\
    mb_isStore <$> s' = [0; 0; 2; 1; 2; 1] /\ (resotreAllNode [js "lock"; js "libc.so"] (s', m')).1 = sample_beans.
Proof.
  intros items.
  destruct (split_and_restore 8 sample_height sample_beans ∅ [0%nat] items sample_forest sample_processes) as (s' & m' & E & Hs & _ & Hr).
  - apply (bool_decide_unpack _). vm_compute. exact I.
  - intros item _. apply lookup_empty.
  - assert (Hv : (fun st : split_state unit => mb_isStore <$> st.1) <$> splitAllProcess 8 [0%nat] items (sample_beans, ∅) = Some [0; 0; 2; 1; 2; 1])
      by (vm_compute; reflexivity).
    exists s', m'. rewrite E in Hv. split; [exact E|]. split; [|exact Hr]. by injection Hv.
Defined.

Lemma sample_listed : listed 8 id sample_beans [0%nat] [1; 2; 3; 4; 5]%nat.
Proof.
  assert (Hin : forall i n, sample_beans !! i = Some n -> (i < 6)%nat) by (intros i n Hn; by apply lookup_lt_Some in Hn).
  split.
  - intros i Hi. set_unfold in Hi. intuition (subst; by eexists).
  - intros i n Hn. do 6 (destruct i as [|i]; [by injection Hn as <-|]). done.
  - intros i n p Hi Hn Hp. set_unfold in Hi. intuition (subst; injection Hn as <-; injection Hp as <-; set_solver).
  - intros i ->%list_elem_of_singleton. done.
  - apply NoDup_singleton.
  - apply (bool_decide_unpack _). vm_compute. exact I.
  - exact sample_rooted.
  - intros i [n Hn]. specialize (Hin i n Hn). unfold id. lia.
  - lia.
Qed.


(** A search loses what is below a hidden bean.  In a tree of four beans, each
    under the one before, of which the third is hidden by a filter, the search for
    the symbol of the last one shows nothing: [findSearchNode] stops to mark the
    ancestors at the hidden bean, whose mark it never cleared, so that
    [resetNewAllNode] finds no ancestor to show the match under. *)
Theorem search_below_hidden_lost :
  let s := [sample_bean "proc" "" None [1]%nat 0; sample_bean "main" "a.so" (Some 0%nat) [2]%nat 0;
            sample_bean "lock" "libc.so" (Some 1%nat) [3]%nat 1; sample_bean "work" "a.so" (Some 2%nat) [] 0] in
  exists s1 s2,
    resetAllNode (fun t => t) 9 [0%nat] [1; 2; 3]%nat [] s = Some s1 /\
    mb_children <$> s1 = [[1]; [3]; []; []]%nat /\
    resetAllNode (fun t => t) 9 [0%nat] [1; 2; 3]%nat (js "work") s = Some s2 /\
    mb_children <$> s2 = [[]; []; []; []]%nat /\ mb_isSearch <$> s2 = [false; false; false; true].
Proof. eexists _, _. split_and!; vm_compute; reflexivity. Qed.
