(* ===== verification/FileCallTree.v ===== *)
(** * The call tree of file system samples

    [FileMerageBean] and the class [FileSystemCallTreeHandler]
    ([trace/database/logic-worker/ProcedureLogicWorkerFileSystem.ts]): samples with
    their call chains are merged into one tree per process, which the filters of
    [CallTree] then work on.  Beans are cells of a store.  The texts derived from
    the numbers of a bean ([self], [weight], [weightPercent]) are left out. *)

From S2P Require Import Prelude JsRuntime HeapModel CallTree.

(** ** Data *)

(** A frame of a call chain; [fc_symbolsId] is [None] for null. *)
Record FileCallChain := {
  fc_callChainId : Z;
  fc_symbolsId : option Z;
  fc_pathId : Z;
  fc_ip : jsstring;
  fc_isThread : bool;
}.

#[export] Instance FileCallChain_eq_dec : EqDecision FileCallChain.
Proof. solve_decision. Defined.

Record FileSample := {
  fs_type : Z;
  fs_callChainId : Z;
  fs_dur : Z;
  fs_pid : Z;
  fs_tid : Z;
  fs_threadName : jsstring;
  fs_processName : jsstring;
  fs_ts : Z;
}.

(** The fields of a [FileMerageBean] that the filters do not use. *)
Record file_data := {
  fd_ip : jsstring;
  fd_symbolsId : option Z;
  fd_pathId : Z;
  fd_processName : jsstring;
  fd_pid : Z;
  fd_canCharge : bool;
  fd_isThread : bool;
  fd_isProcess : bool;
  fd_selfDur : Z;
  fd_dur : Z;
  fd_total : Z;
  fd_tsArray : list Z;
  fd_durArray : list Z;
  fd_id : jsstring;
  fd_parentId : jsstring;
  fd_addr : jsstring;
}.

Abbreviation FileMerageBean := (MerageBean file_data).

Definition new_FileMerageBean : FileMerageBean :=
  {| mb_symbol := []; mb_lib := []; mb_path := []; mb_count := 0; mb_parent := None; mb_parentNode := None;
     mb_initChildren := []; mb_children := []; mb_isStore := 0; mb_searchShow := true; mb_isSearch := false;
     mb_currentTreeParentNode := None;
     mb_rest := {| fd_ip := []; fd_symbolsId := Some 0; fd_pathId := 0; fd_processName := []; fd_pid := 0;
                   fd_canCharge := true; fd_isThread := false; fd_isProcess := false; fd_selfDur := 0; fd_dur := 0;
                   fd_total := 0; fd_tsArray := []; fd_durArray := []; fd_id := []; fd_parentId := []; fd_addr := [] |} |}.

Definition with_rest (count : Z) (d : file_data) (n : FileMerageBean) : FileMerageBean :=
  {| mb_symbol := mb_symbol n; mb_lib := mb_lib n; mb_path := mb_path n; mb_count := count;
     mb_parent := mb_parent n; mb_parentNode := mb_parentNode n; mb_initChildren := mb_initChildren n;
     mb_children := mb_children n; mb_isStore := mb_isStore n; mb_searchShow := mb_searchShow n;
     mb_isSearch := mb_isSearch n; mb_currentTreeParentNode := mb_currentTreeParentNode n; mb_rest := d |}.

Definition with_names (symbol lib path : jsstring) (n : FileMerageBean) : FileMerageBean :=
  {| mb_symbol := symbol; mb_lib := lib; mb_path := path; mb_count := mb_count n;
     mb_parent := mb_parent n; mb_parentNode := mb_parentNode n; mb_initChildren := mb_initChildren n;
     mb_children := mb_children n; mb_isStore := mb_isStore n; mb_searchShow := mb_searchShow n;
     mb_isSearch := mb_isSearch n; mb_currentTreeParentNode := mb_currentTreeParentNode n; mb_rest := mb_rest n |}.

(** The setter [parentNode]. *)
Definition set_parentNode (p : nat) (n : FileMerageBean) : FileMerageBean :=
  {| mb_symbol := mb_symbol n; mb_lib := mb_lib n; mb_path := mb_path n; mb_count := mb_count n;
     mb_parent := Some p; mb_parentNode := Some p; mb_initChildren := mb_initChildren n;
     mb_children := mb_children n; mb_isStore := mb_isStore n; mb_searchShow := mb_searchShow n;
     mb_isSearch := mb_isSearch n; mb_currentTreeParentNode := mb_currentTreeParentNode n; mb_rest := mb_rest n |}.

(** [children.push(c); initChildren.push(c)] *)
Definition push_child (c : nat) (n : FileMerageBean) : FileMerageBean :=
  {| mb_symbol := mb_symbol n; mb_lib := mb_lib n; mb_path := mb_path n; mb_count := mb_count n;
     mb_parent := mb_parent n; mb_parentNode := mb_parentNode n; mb_initChildren := mb_initChildren n ++ [c];
     mb_children := mb_children n ++ [c]; mb_isStore := mb_isStore n; mb_searchShow := mb_searchShow n;
     mb_isSearch := mb_isSearch n; mb_currentTreeParentNode := mb_currentTreeParentNode n; mb_rest := mb_rest n |}.

(** [text || other] *)
Definition or_text (a b : jsstring) : jsstring := if bool_decide (a = []) then b else a.

(** ** Merging a sample into a bean *)

Definition merageCallChainSample (callChain : FileCallChain) (sample : FileSample) (isEnd : bool) (n : FileMerageBean) :
    FileMerageBean :=
  let d := mb_rest n in
  let fresh := bool_decide (fd_processName d = []) in
  with_rest (mb_count n + 1)
    {| fd_ip := if fresh then fc_ip callChain else fd_ip d;
       fd_symbolsId := if fresh then fc_symbolsId callChain else fd_symbolsId d;
       fd_pathId := if fresh then fc_pathId callChain else fd_pathId d;
       fd_processName :=
         if fresh then or_text (fs_processName sample) (js "Process") ++ js " (" ++ js_toString 10 (fs_pid sample) ++ js ")"
         else fd_processName d;
       fd_pid := if fresh then fs_pid sample else fd_pid d;
       fd_canCharge := if fresh then true else fd_canCharge d;
       fd_isThread := fc_isThread callChain || fd_isThread d;
       fd_isProcess := fd_isProcess d;
       fd_selfDur := if isEnd then fd_selfDur d + fs_dur sample else fd_selfDur d;
       fd_dur := fd_dur d + fs_dur sample;
       fd_total := fd_total d;
       fd_tsArray := fd_tsArray d ++ [fs_ts sample];
       fd_durArray := fd_durArray d ++ [fs_dur sample];
       fd_id := fd_id d; fd_parentId := fd_parentId d; fd_addr := fd_addr d |} n.

(** ** The handler *)

Record FileSystemCallTreeHandler := {
  ft_beans : list FileMerageBean;
  ft_currentTreeMapData : list (jsstring * nat);
  ft_allProcess : list nat;
  ft_dataSource : list nat;
  ft_currentDataType : jsstring;
  ft_currentTreeList : list nat;
  ft_samplesList : list FileSample;
  ft_splitMapData : split_map;
  ft_searchValue : jsstring;
  ft_isHideThread : bool;
  ft_isHideEvent : bool;
}.

(** The part of it that merging changes: the beans, the roots by their keys, and
    [currentTreeList]. *)
Record tree_state := { ts_beans : list FileMerageBean; ts_map : list (jsstring * nat); ts_list : list nat }.

Definition FILE_TYPE_MAP : list (Z * string) := [(0, "OPEN"); (1, "CLOSE"); (2, "READ"); (3, "WRITE")]%string.
Definition DISKIO_TYPE_MAP : list (Z * string) :=
  [(1, "DATA_READ"); (2, "DATA_WRITE"); (3, "METADATA_READ"); (4, "METADATA_WRITE"); (5, "PAGE_IN"); (6, "PAGE_OUT")]%string.
Definition VM_TYPE_MAP : list (Z * string) :=
  [(1, "File Backed In"); (2, "Page Cache Hit"); (3, "Swap From Zram"); (4, "Swap From Disk"); (5, "Zero Fill Page");
   (6, "Zero FAKE Page"); (7, "Copy On Write")]%string.

Section Handler.
(** [DataCache]: the texts and the call chains of the trace. *)
Context (dataDict : gmap Z jsstring) (eBpfCallChainsMap : gmap Z (list FileCallChain)).

Definition type_map (currentDataType : jsstring) : list (Z * string) :=
  if bool_decide (currentDataType = js "fileSystem") then FILE_TYPE_MAP
  else if bool_decide (currentDataType = js "io") then DISKIO_TYPE_MAP
  else if bool_decide (currentDataType = js "virtualMemory") then VM_TYPE_MAP
  else [].

Definition createThreadAndType (currentDataType : jsstring) (isHideEvent isHideThread : bool) (sample : FileSample) :
    list FileCallChain :=
  let typeCallChain :=
    {| fc_callChainId := fs_callChainId sample; fc_symbolsId := Some (fs_type sample); fc_pathId := -1;
       fc_ip := js (default "UNKNOWN"%string (map_get (type_map currentDataType) (fs_type sample))); fc_isThread := false |} in
  let threadCallChain :=
    {| fc_callChainId := fs_callChainId sample; fc_symbolsId := Some (fs_tid sample); fc_pathId := -1;
       fc_ip := or_text (fs_threadName sample) (js "Thread") ++ js "-" ++ js_toString 10 (fs_tid sample);
       fc_isThread := true |} in
  (if isHideEvent then [] else [typeCallChain]) ++ (if isHideThread then [] else [threadCallChain]) ++
  default [] (eBpfCallChainsMap !! fs_callChainId sample).

(** The test for the child of a frame. *)
Definition same_frame (f : FileCallChain) (child : FileMerageBean) : bool :=
  bool_decide (fd_ip (mb_rest child) = fc_ip f) ||
  (bool_decide (is_Some (fd_symbolsId (mb_rest child))) && bool_decide (fd_symbolsId (mb_rest child) = fc_symbolsId f) &&
   (fd_pathId (mb_rest child) =? fc_pathId f)).

Definition frame_children (s : list FileMerageBean) (f : FileCallChain) (children : list nat) : list nat :=
  filter (fun c => default false (same_frame f <$> s !! c) = true) children.

(** One level of [merageChildrenByIndex]: the sample is merged into every child of
    [currentNode] that fits the frame, or into a new one.  The result is the child
    the next frame goes to. *)
Definition merge_frame (f : FileCallChain) (sample : FileSample) (isEnd : bool) (currentNode : nat) (st : tree_state) :
    nat * tree_state :=
  let s := ts_beans st in
  let children := match s !! currentNode with Some n => mb_initChildren n | None => [] end in
  match last (frame_children s f children) with
  | Some node =>
      (node, {| ts_beans := foldl (fun s c => alter (merageCallChainSample f sample isEnd) c s) s (frame_children s f children);
                ts_map := ts_map st; ts_list := ts_list st |})
  | None =>
      let node := length s in
      (node, {| ts_beans := alter (push_child node) currentNode s ++
                            [set_parentNode currentNode (merageCallChainSample f sample isEnd new_FileMerageBean)];
                ts_map := ts_map st; ts_list := ts_list st ++ [node] |})
  end.

(** The frames after the first one, in the direction of the tree; the last of them
    is the end. *)
Fixpoint merageChildrenByIndex (frames : list FileCallChain) (sample : FileSample) (currentNode : nat) (st : tree_state) :
    tree_state :=
  match frames with
  | [] => st
  | f :: frames =>
      let '(node, st) := merge_frame f sample (bool_decide (frames = [])) currentNode st in
      merageChildrenByIndex frames sample node st
  end.

Definition null_text (o : option Z) : jsstring := match o with Some n => js_toString 10 n | None => js "null" end.

(** [symbolsId + '' + pathId + pid] *)
Definition root_key (f : FileCallChain) (pid : Z) : jsstring :=
  null_text (fc_symbolsId f) ++ js_toString 10 (fc_pathId f) ++ js_toString 10 pid.

Definition merge_root (f : FileCallChain) (sample : FileSample) (st : tree_state) : nat * tree_state :=
  let key := root_key f (fs_pid sample) in
  match map_get (ts_map st) key with
  | Some root =>
      (root, {| ts_beans := alter (merageCallChainSample f sample false) root (ts_beans st); ts_map := ts_map st;
                ts_list := ts_list st |})
  | None =>
      let root := length (ts_beans st) in
      (root, {| ts_beans := ts_beans st ++ [merageCallChainSample f sample false new_FileMerageBean];
                ts_map := map_set (ts_map st) key root; ts_list := ts_list st ++ [root] |})
  end.

(** The depth of a chain without frames of its own. *)
Definition minDepth (isHideEvent isHideThread : bool) : nat :=
  2 - (if isHideEvent then 1 else 0) - (if isHideThread then 1 else 0).

(** The chain of a sample in the direction of the tree, unless it is skipped. *)
Definition sample_frames (currentDataType : jsstring) (isHideEvent isHideThread isTopDown : bool) (sample : FileSample) :
    list FileCallChain :=
  let callChains := createThreadAndType currentDataType isHideEvent isHideThread sample in
  if bool_decide (length callChains = minDepth isHideEvent isHideThread) then []
  else if isTopDown then callChains else reverse callChains.

Definition merge_sample (frames : list FileCallChain) (sample : FileSample) (st : tree_state) : tree_state :=
  match frames with
  | [] => st
  | f :: rest => let '(root, st) := merge_root f sample st in merageChildrenByIndex rest sample root st
  end.

(** ** Processes *)

(** The bean of the process of a root: new, or one more root added to it. *)
Definition new_process (root : nat) (totalCount : Z) (n : FileMerageBean) : FileMerageBean :=
  let d := mb_rest n in
  let e := mb_rest new_FileMerageBean in
  push_child root (with_names (fd_processName d) [] [] (with_rest (mb_count n)
    {| fd_ip := fd_ip e; fd_symbolsId := fd_symbolsId e; fd_pathId := fd_pathId e; fd_processName := fd_processName e;
       fd_pid := fd_pid e; fd_canCharge := false; fd_isThread := false; fd_isProcess := true; fd_selfDur := 0;
       fd_dur := fd_dur d; fd_total := totalCount; fd_tsArray := fd_tsArray d; fd_durArray := fd_durArray d;
       fd_id := fd_id e; fd_parentId := fd_parentId e; fd_addr := fd_addr e |} new_FileMerageBean)).

Definition add_to_process (root : nat) (totalCount : Z) (n p : FileMerageBean) : FileMerageBean :=
  let d := mb_rest n in
  let e := mb_rest p in
  push_child root (with_rest (mb_count p + mb_count n)
    {| fd_ip := fd_ip e; fd_symbolsId := fd_symbolsId e; fd_pathId := fd_pathId e; fd_processName := fd_processName e;
       fd_pid := fd_pid e; fd_canCharge := fd_canCharge e; fd_isThread := fd_isThread e; fd_isProcess := fd_isProcess e;
       fd_selfDur := fd_selfDur e; fd_dur := fd_dur e + fd_dur d; fd_total := totalCount;
       fd_tsArray := fd_tsArray e ++ fd_tsArray d; fd_durArray := fd_durArray e ++ fd_durArray d; fd_id := fd_id e;
       fd_parentId := fd_parentId e; fd_addr := fd_addr e |} p).

(** One root of [mergeNodeData]; the map is [rootMerageMap]. *)
Definition merge_process (totalCount : Z) (st : list FileMerageBean * list (jsstring * nat)) (root : nat) :
    list FileMerageBean * list (jsstring * nat) :=
  let '(s, m) := st in
  match s !! root with
  | None => st
  | Some n =>
      let key := js_toString 10 (fd_pid (mb_rest n)) in
      match map_get m key with
      | None =>
          let p := length s in
          (alter (set_parentNode p) root (s ++ [new_process root totalCount n]), map_set m key p)
      | Some p => (alter (set_parentNode p) root (alter (add_to_process root totalCount n) p s), m)
      end
  end.

Definition mergeNodeData (totalCount : Z) (st : tree_state) : list FileMerageBean * list (jsstring * nat) :=
  foldl (merge_process totalCount) (ts_beans st, []) (Object_values (ts_map st)).

(** ** Names and ids *)

Definition setFileName (path : jsstring) : jsstring :=
  match list_find (.= 47) (reverse path) with
  | Some (k, _) => if (length path - 1 - k =? 0)%nat then path else drop (length path - k) path
  | None => path
  end.

Definition setMerageName (n : FileMerageBean) : FileMerageBean :=
  let d := mb_rest n in
  if fd_pathId d =? -1 then
    with_names (fd_ip d) [] [] (with_rest (mb_count n)
      {| fd_ip := fd_ip d; fd_symbolsId := fd_symbolsId d; fd_pathId := fd_pathId d; fd_processName := fd_processName d;
         fd_pid := fd_pid d; fd_canCharge := false; fd_isThread := fd_isThread d; fd_isProcess := fd_isProcess d;
         fd_selfDur := fd_selfDur d; fd_dur := fd_dur d; fd_total := fd_total d; fd_tsArray := fd_tsArray d;
         fd_durArray := fd_durArray d; fd_id := fd_id d; fd_parentId := fd_parentId d; fd_addr := fd_addr d |} n)
  else
    let symbol := or_text (default [] (fd_symbolsId d ≫= fun k => dataDict !! k)) (or_text (fd_ip d) (js "unknown")) in
    let path := or_text (default [] (dataDict !! fd_pathId d)) (js "unknown") in
    let lib := setFileName path in
    with_names (symbol ++ js " (" ++ lib ++ js ")") lib path (with_rest (mb_count n)
      {| fd_ip := fd_ip d; fd_symbolsId := fd_symbolsId d; fd_pathId := fd_pathId d; fd_processName := fd_processName d;
         fd_pid := fd_pid d; fd_canCharge := fd_canCharge d; fd_isThread := fd_isThread d; fd_isProcess := fd_isProcess d;
         fd_selfDur := fd_selfDur d; fd_dur := fd_dur d; fd_total := fd_total d; fd_tsArray := fd_tsArray d;
         fd_durArray := fd_durArray d; fd_id := fd_id d; fd_parentId := fd_parentId d; fd_addr := fd_ip d |} n).

Definition set_ids (total : Z) (id parentId : jsstring) (n : FileMerageBean) : FileMerageBean :=
  let d := mb_rest n in
  with_rest (mb_count n)
    {| fd_ip := fd_ip d; fd_symbolsId := fd_symbolsId d; fd_pathId := fd_pathId d; fd_processName := fd_processName d;
       fd_pid := fd_pid d; fd_canCharge := fd_canCharge d; fd_isThread := fd_isThread d; fd_isProcess := fd_isProcess d;
       fd_selfDur := fd_selfDur d; fd_dur := fd_dur d; fd_total := total; fd_tsArray := fd_tsArray d;
       fd_durArray := fd_durArray d; fd_id := id; fd_parentId := parentId; fd_addr := fd_addr d |} n.

(** Give the next number to a bean without an id. *)
Definition give_id (i : nat) (st : list FileMerageBean * Z) : list FileMerageBean * Z :=
  let '(s, id) := st in
  match s !! i with
  | Some n =>
      if bool_decide (fd_id (mb_rest n) = []) then
        (<[i := set_ids (fd_total (mb_rest n)) (js_toString 10 id) (fd_parentId (mb_rest n)) n]> s, id + 1)
      else st
  | None => st
  end.

Definition handle_current (totalCount : Z) (st : list FileMerageBean * Z) (i : nat) : list FileMerageBean * Z :=
  let '(s, id) := st in
  let s := alter (fun n => setMerageName (set_ids totalCount (fd_id (mb_rest n)) (fd_parentId (mb_rest n)) n)) i s in
  let '(s, id) := give_id i (s, id) in
  match s !! i ≫= mb_parentNode with
  | Some p =>
      let '(s, id) := give_id p (s, id) in
      let parentId := default [] ((fun n => fd_id (mb_rest n)) <$> s !! p) in
      (alter (fun n => set_ids (fd_total (mb_rest n)) (fd_id (mb_rest n)) parentId n) i s, id)
  | None => (s, id)
  end.

Definition handleCurrentTreeList (totalCount : Z) (currentTreeList : list nat) (s : list FileMerageBean) :
    list FileMerageBean :=
  (foldl (handle_current totalCount) (s, 0) currentTreeList).1.

(** ** Building the tree *)

Definition merge_samples (currentDataType : jsstring) (isHideEvent isHideThread isTopDown : bool) (samples : list FileSample)
    (st : tree_state) : tree_state :=
  foldl (fun st sample => merge_sample (sample_frames currentDataType isHideEvent isHideThread isTopDown sample) sample st)
    st samples.

(** The beans of an earlier tree stay in the store: [splitMapData] may refer to
    them. *)
Definition freshCurrentCallChains (samples : list FileSample) (isTopDown : bool) (t : FileSystemCallTreeHandler) :
    FileSystemCallTreeHandler :=
  let totalCount := zsum (fs_dur <$> samples) in
  let st := merge_samples (ft_currentDataType t) (ft_isHideEvent t) (ft_isHideThread t) isTopDown samples
              {| ts_beans := ft_beans t; ts_map := []; ts_list := [] |} in
  let '(s, rootMerageMap) := mergeNodeData totalCount st in
  {| ft_beans := handleCurrentTreeList totalCount (ts_list st) s; ft_currentTreeMapData := ts_map st;
     ft_allProcess := Object_values rootMerageMap; ft_dataSource := []; ft_currentDataType := ft_currentDataType t;
     ft_currentTreeList := ts_list st; ft_samplesList := ft_samplesList t; ft_splitMapData := ft_splitMapData t;
     ft_searchValue := ft_searchValue t; ft_isHideThread := ft_isHideThread t; ft_isHideEvent := ft_isHideEvent t |}.

(** ** Actions *)

Inductive tree_action :=
  | GetCallChainsBySampleIds (isTopDown : bool)
  | HideSystemLibrary
  | HideNumMaxAndMin (startNum : Z) (endNum : jsstring)
  | HideThread (b : bool)
  | HideEvent (b : bool)
  | SplitAllProcess (items : list split_item)
  | ResetAllNode
  | ResotreAllNode (symbols : list jsstring)
  | ClearSplitMapData (symbolName : jsstring)
  | SplitTree (name : jsstring) (isCharge isSymbol : bool)
  | SetSearchValue (value : jsstring)
  | GetCurrentDataFromDb.

Context (toLocaleLowerCase : jsstring -> jsstring).

Definition set_split (st : split_state file_data) (t : FileSystemCallTreeHandler) : FileSystemCallTreeHandler :=
  {| ft_beans := st.1; ft_currentTreeMapData := ft_currentTreeMapData t; ft_allProcess := ft_allProcess t;
     ft_dataSource := ft_dataSource t; ft_currentDataType := ft_currentDataType t;
     ft_currentTreeList := ft_currentTreeList t; ft_samplesList := ft_samplesList t; ft_splitMapData := st.2;
     ft_searchValue := ft_searchValue t; ft_isHideThread := ft_isHideThread t; ft_isHideEvent := ft_isHideEvent t |}.

Definition set_flags (hideThread hideEvent : bool) (searchValue : jsstring) (dataSource : list nat)
    (t : FileSystemCallTreeHandler) : FileSystemCallTreeHandler :=
  {| ft_beans := ft_beans t; ft_currentTreeMapData := ft_currentTreeMapData t; ft_allProcess := ft_allProcess t;
     ft_dataSource := dataSource; ft_currentDataType := ft_currentDataType t;
     ft_currentTreeList := ft_currentTreeList t; ft_samplesList := ft_samplesList t;
     ft_splitMapData := ft_splitMapData t; ft_searchValue := searchValue; ft_isHideThread := hideThread;
     ft_isHideEvent := hideEvent |}.

(** The trees of the handler are no higher than this. *)
Definition tree_levels (t : FileSystemCallTreeHandler) : nat := length (ft_beans t) + 3.

(** A query only sends a message. *)
Definition handleDataByFuncName (action : tree_action) (t : FileSystemCallTreeHandler) : option FileSystemCallTreeHandler :=
  let levels := tree_levels t in
  let st := (ft_beans t, ft_splitMapData t) in
  match action with
  | GetCallChainsBySampleIds isTopDown => Some (freshCurrentCallChains (ft_samplesList t) isTopDown t)
  | HideSystemLibrary => st ← hideSystemLibrary levels (ft_allProcess t) st; Some (set_split st t)
  | HideNumMaxAndMin startNum endNum =>
      st ← hideNumMaxAndMin levels (ft_allProcess t) startNum endNum st; Some (set_split st t)
  | HideThread b => Some (set_flags b (ft_isHideEvent t) (ft_searchValue t) (ft_dataSource t) t)
  | HideEvent b => Some (set_flags (ft_isHideThread t) b (ft_searchValue t) (ft_dataSource t) t)
  | SplitAllProcess items => st ← splitAllProcess levels (ft_allProcess t) items st; Some (set_split st t)
  | ResetAllNode =>
      s ← resetAllNode toLocaleLowerCase levels (ft_allProcess t) (ft_currentTreeList t) (ft_searchValue t) (ft_beans t);
      Some (set_split (s, ft_splitMapData t) t)
  | ResotreAllNode symbols => Some (set_split (resotreAllNode symbols st) t)
  | ClearSplitMapData symbolName => Some (set_split (ft_beans t, delete symbolName (ft_splitMapData t)) t)
  | SplitTree name isCharge isSymbol =>
      st ← splitTree toLocaleLowerCase levels (ft_allProcess t) name isCharge isSymbol (ft_currentTreeList t)
             (ft_searchValue t) st;
      Some (set_split st t)
  | SetSearchValue value => Some (set_flags (ft_isHideThread t) (ft_isHideEvent t) value (ft_dataSource t) t)
  | GetCurrentDataFromDb => Some t
  end.

Definition resolvingAction (params : list tree_action) (t : FileSystemCallTreeHandler) : option FileSystemCallTreeHandler :=
  if bool_decide (params = []) then Some t
  else
    t ← foldM (fun t action => handleDataByFuncName action t) params t;
    Some (set_flags (ft_isHideThread t) (ft_isHideEvent t) (ft_searchValue t)
            (filter (fun p => children_of (ft_beans t) p <> []) (ft_allProcess t)) t).

Definition FileSystemCallTreeHandler_clear (t : FileSystemCallTreeHandler) : FileSystemCallTreeHandler :=
  {| ft_beans := ft_beans t; ft_currentTreeMapData := ft_currentTreeMapData t; ft_allProcess := []; ft_dataSource := [];
     ft_currentDataType := ft_currentDataType t; ft_currentTreeList := []; ft_samplesList := []; ft_splitMapData := ∅;
     ft_searchValue := ft_searchValue t; ft_isHideThread := ft_isHideThread t; ft_isHideEvent := ft_isHideEvent t |}.

Definition FileSystemCallTreeHandler_clearAll (t : FileSystemCallTreeHandler) : FileSystemCallTreeHandler :=
  {| ft_beans := ft_beans t; ft_currentTreeMapData := []; ft_allProcess := []; ft_dataSource := [];
     ft_currentDataType := []; ft_currentTreeList := []; ft_samplesList := []; ft_splitMapData := ∅;
     ft_searchValue := []; ft_isHideThread := ft_isHideThread t; ft_isHideEvent := ft_isHideEvent t |}.
End Handler.

Definition new_FileSystemCallTreeHandler (type : jsstring) : FileSystemCallTreeHandler :=
  {| ft_beans := []; ft_currentTreeMapData := []; ft_allProcess := []; ft_dataSource := []; ft_currentDataType := type;
     ft_currentTreeList := []; ft_samplesList := []; ft_splitMapData := ∅; ft_searchValue := [];
     ft_isHideThread := false; ft_isHideEvent := false |}.

(** ** The shape of the tree *)

(** What of a bean makes the built tree. *)
Definition links {X} (n : MerageBean X) : option nat * option nat * list nat :=
  (mb_parent n, mb_parentNode n, mb_initChildren n).

Definition same_links {X} (s s' : beans X) : Prop := links <$> s = links <$> s'.

#[export] Instance same_links_equiv {X} : Equivalence (@same_links X).
Proof. unfold same_links. split; red; [done|by symmetry|congruence]. Qed.

Lemma links_lookup {X} (s s' : beans X) i n :
  same_links s s' -> s !! i = Some n -> exists n', s' !! i = Some n' /\ links n = links n'.
Proof.
  intros H Hi. apply (f_equal (.!! i)) in H. rewrite !list_lookup_fmap, Hi in H.
  destruct (s' !! i) as [n'|]; [|done]. apply (inj Some) in H. eauto.
Qed.

Lemma alter_links {X} f i (s : beans X) : (forall n, links (f n) = links n) -> same_links s (alter f i s).
Proof.
  intros Hf. unfold same_links. apply list_eq. intros j. rewrite !list_lookup_fmap.
  destruct (decide (i = j)) as [->|Hne]; [|by rewrite list_lookup_alter_ne].
  rewrite list_lookup_alter_eq. destruct (s !! j); [|done]. cbn [fmap option_fmap option_map]. by rewrite Hf.
Qed.

Lemma foldl_links {X A} (f : beans X -> A -> beans X) l s :
  (forall s a, same_links s (f s a)) -> same_links s (foldl f s l).
Proof. intros Hf. revert s. induction l as [|a l IH]; intros s; [done|]. cbn. etrans; [apply Hf|apply IH]. Qed.

Lemma same_links_length {X} (s s' : beans X) : same_links s s' -> length s = length s'.
Proof. intros H. apply (f_equal length) in H. by rewrite !length_fmap in H. Qed.

(** While samples are merged: beans are numbered in the order of their creation, a
    child after its parent, and the roots are the values of the map. *)
Record merging (N0 : nat) (st : tree_state) : Prop := {
  mg_len : (N0 <= length (ts_beans st))%nat;
  mg_list : ts_list st = seq N0 (length (ts_beans st) - N0);
  mg_down : forall i n c, (N0 <= i)%nat -> ts_beans st !! i = Some n -> c ∈ mb_initChildren n ->
    (i < c)%nat /\ exists m, ts_beans st !! c = Some m /\ mb_parentNode m = Some i;
  mg_up : forall c m p, (N0 <= c)%nat -> ts_beans st !! c = Some m -> mb_parentNode m = Some p ->
    (N0 <= p < c)%nat /\ exists n, ts_beans st !! p = Some n /\ c ∈ mb_initChildren n;
  mg_nodup : forall i n, (N0 <= i)%nat -> ts_beans st !! i = Some n ->
    NoDup (mb_initChildren n) /\ mb_parent n = mb_parentNode n;
  mg_root : forall r, r ∈ (ts_map st).*2 <-> (N0 <= r)%nat /\ exists n, ts_beans st !! r = Some n /\ mb_parentNode n = None;
  mg_keys : NoDup (ts_map st).*1;
  mg_vals : NoDup (ts_map st).*2;
}.

Lemma merging_links N0 st s' :
  merging N0 st -> same_links (ts_beans st) s' ->
  merging N0 {| ts_beans := s'; ts_map := ts_map st; ts_list := ts_list st |}.
Proof.
  intros M Hs. pose proof (same_links_length _ _ Hs) as Hlen.
  assert (Hback : forall i n', s' !! i = Some n' -> exists n, ts_beans st !! i = Some n /\ links n = links n').
  { intros i n' Hi. destruct (links_lookup _ _ _ _ (symmetry Hs) Hi) as (n & Hn & E). by exists n. }
  assert (Hfwd := fun i n => links_lookup _ _ i n Hs). unfold links in *.
  destruct M as [Hl Hli Hd Hu Hn Hr Hk Hv]. split; cbn; try done; try congruence.
  - intros i n' c Hi Hi' Hc. destruct (Hback _ _ Hi') as (n & E & [= _ _ Ec]). rewrite <- Ec in Hc.
    destruct (Hd i n c Hi E Hc) as (? & m & Hm & Hp). destruct (Hfwd _ _ Hm) as (m' & Hm' & [= _ Ep _]).
    split; [done|]. exists m'. split; [done|congruence].
  - intros c m' p Hc Hc' Hp. destruct (Hback _ _ Hc') as (m & E & [= _ Ep _]). rewrite <- Ep in Hp.
    destruct (Hu c m p Hc E Hp) as (? & n & Hn' & Hin). destruct (Hfwd _ _ Hn') as (n' & Hn'' & [= _ _ Ec]).
    split; [done|]. exists n'. split; [done|congruence].
  - intros i n' Hi Hi'. destruct (Hback _ _ Hi') as (n & E & [= E1 E2 E3]). destruct (Hn i n Hi E) as [? ?].
    rewrite <- E3. split; [done|congruence].
  - intros r. rewrite Hr. split; intros (? & n & E & Hp); (split; [done|]).
    + destruct (Hfwd _ _ E) as (n' & Hn' & [= _ Ep _]). exists n'. split; [done|congruence].
    + destruct (Hback _ _ E) as (n' & Hn' & [= _ Ep _]). exists n'. split; [done|congruence].
Qed.

Lemma links_merage f sample isEnd n : links (merageCallChainSample f sample isEnd n) = links n.
Proof. done. Qed.

(** A child of the current bean is one of the new beans. *)
Lemma merge_frame_merging N0 st f sample isEnd cur :
  merging N0 st -> (N0 <= cur < length (ts_beans st))%nat ->
  let '(node, st') := merge_frame f sample isEnd cur st in
  merging N0 st' /\ (N0 <= node < length (ts_beans st'))%nat.
Proof.
  intros M Hcur. destruct (lookup_lt_is_Some_2 (ts_beans st) cur) as [n Hn]; [lia|]. unfold merge_frame. rewrite Hn.
  destruct (last (frame_children (ts_beans st) f (mb_initChildren n))) as [node|] eqn:Hlast.
  - assert (Hs : same_links (ts_beans st) (foldl (fun s c => alter (merageCallChainSample f sample isEnd) c s) (ts_beans st)
                 (frame_children (ts_beans st) f (mb_initChildren n)))).
    { apply foldl_links. intros s a. by apply alter_links. }
    split; [by apply merging_links|]. cbn [ts_beans]. rewrite <- (same_links_length _ _ Hs).
    apply last_Some_elem_of, list_elem_of_filter in Hlast as [_ Hin].
    destruct (mg_down _ _ M cur n node ltac:(lia) Hn Hin) as (? & m & Hm & _). apply lookup_lt_Some in Hm. lia.
  - cbn. set (s := ts_beans st) in *. set (node := length s). set (x := set_parentNode cur _).
    assert (Hnode : length s = node) by done. clearbody node.
    assert (Hlook : forall i, (alter (push_child node) cur s ++ [x]) !! i =
      if decide (i = node) then Some x else if decide (i = cur) then push_child node <$> s !! i else s !! i).
    { intros i. case_decide as Hi; [subst i; rewrite lookup_app_r by (rewrite length_alter; lia); by rewrite length_alter, Hnode, Nat.sub_diag|].
      destruct (decide (i < node)%nat) as [Hlt|Hge].
      - rewrite lookup_app_l by (rewrite length_alter; lia). case_decide; [subst; by rewrite list_lookup_alter_eq|by rewrite list_lookup_alter_ne].
      - rewrite (lookup_ge_None_2 _ i) by (rewrite length_app, length_alter; cbn; lia).
        rewrite (lookup_ge_None_2 s i) by lia. by case_decide. }
    assert (Hlen : length (alter (push_child node) cur s ++ [x]) = S node) by (rewrite length_app, length_alter; cbn; lia).
    destruct M as [Hl Hli Hd Hu Hnd Hr Hk Hv]. fold s in Hl, Hli, Hd, Hu, Hnd, Hr. clearbody s.
    split; [|rewrite Hlen; lia]. split; cbn [ts_beans ts_map ts_list]; try done.
    + rewrite Hlen. lia.
    + rewrite Hlen, Hli, Hnode. replace (S node - N0)%nat with ((node - N0) + 1)%nat by lia.
      rewrite seq_app. f_equal. cbn. f_equal. lia.
    + intros i m c Hi. rewrite Hlook. repeat case_decide; [intros [= <-]; set_solver| |].
      * subst i. rewrite Hn. intros [= <-] Hc. cbn in Hc. apply elem_of_app in Hc as [Hc| ->%list_elem_of_singleton].
        -- destruct (Hd cur n c Hi Hn Hc) as (? & m & Hm & Hp). split; [done|].
           pose proof (lookup_lt_Some _ _ _ Hm). rewrite Hlook. rewrite decide_False by lia. case_decide; [lia|by exists m].
        -- split; [lia|]. rewrite Hlook, decide_True by done. by exists x.
      * intros Hm Hc. destruct (Hd i m c Hi Hm Hc) as (? & m' & Hm' & Hp). split; [done|].
        pose proof (lookup_lt_Some _ _ _ Hm'). rewrite Hlook. rewrite decide_False by lia. case_decide; [|by exists m'].
        subst c. rewrite Hm'. eexists. split; [done|]. done.
    + intros c m p Hc. rewrite Hlook. repeat case_decide.
      * subst c. intros [= <-] [= <-]. split; [lia|]. rewrite Hlook. rewrite decide_False by lia. rewrite decide_True by done.
        rewrite Hn. eexists. split; [done|]. cbn. set_solver.
      * subst c. rewrite Hn. intros [= <-] Hp. destruct (Hu cur n p Hc Hn Hp) as (? & m' & Hm' & Hin). split; [done|].
        rewrite Hlook. rewrite !decide_False by lia. by exists m'.
      * intros Hm Hp. destruct (Hu c m p Hc Hm Hp) as (? & m' & Hm' & Hin). split; [done|]. pose proof (lookup_lt_Some _ _ _ Hm').
        rewrite Hlook. rewrite decide_False by lia. case_decide; [|by exists m']. subst p. rewrite Hm'. eexists.
        split; [done|]. cbn. set_solver.
    + intros i m Hi. rewrite Hlook. repeat case_decide.
      * intros [= <-]. split; [constructor|done].
      * subst i. rewrite Hn. intros [= <-]. destruct (Hnd cur n Hi Hn) as [HN ?]. split; [|done]. cbn. apply NoDup_app.
        split_and!; [done| |apply NoDup_singleton]. intros c Hc ->%list_elem_of_singleton.
        destruct (Hd cur n node Hi Hn Hc) as (_ & m & Hm & _). apply lookup_lt_Some in Hm. lia.
      * apply Hnd. done.
    + intros r. rewrite Hr. split; intros (? & m & Hm & Hp); (split; [done|]).
      * pose proof (lookup_lt_Some _ _ _ Hm). rewrite Hlook. rewrite decide_False by (lia).
        case_decide; [|by exists m]. rewrite Hm. eexists. split; [done|]. done.
      * rewrite Hlook in Hm. repeat case_decide; [by simplify_eq| |by exists m]. subst r. rewrite Hn in Hm.
        injection Hm as <-. by exists n.
Qed.

Lemma merge_root_merging N0 st f sample :
  merging N0 st ->
  let '(root, st') := merge_root f sample st in
  merging N0 st' /\ (N0 <= root < length (ts_beans st'))%nat.
Proof.
  intros M. unfold merge_root. destruct (map_get (ts_map st) (root_key f (fs_pid sample))) as [root|] eqn:Hg.
  - assert (Hs : same_links (ts_beans st) (alter (merageCallChainSample f sample false) root (ts_beans st)))
      by (by apply alter_links).
    split; [by apply merging_links|]. cbn. rewrite length_alter.
    assert (Hin : root ∈ (ts_map st).*2).
    { clear -Hg. induction (ts_map st) as [|[k v] m IH]; [done|]. cbn in Hg. rewrite fmap_cons. case_decide; set_solver. }
    apply (mg_root _ _ M) in Hin as (? & n & Hn & _). apply lookup_lt_Some in Hn. lia.
  - cbn. set (x := merageCallChainSample f sample false new_FileMerageBean).
    destruct M as [Hl Hli Hd Hu Hnd Hr Hk Hv]. split; [|rewrite length_app; cbn; lia].
    assert (Hlook : forall i m, (ts_beans st ++ [x]) !! i = Some m -> ts_beans st !! i = Some m \/ (i = length (ts_beans st) /\ m = x)).
    { intros i m Hi. apply lookup_app_Some in Hi as [?|[? Hi]]; [by left|]. right.
      destruct (i - length (ts_beans st))%nat as [|k] eqn:E; [injection Hi as <-; split; [lia|done]|done]. }
    assert (Hold : forall i m, ts_beans st !! i = Some m -> (ts_beans st ++ [x]) !! i = Some m)
      by (intros; by apply lookup_app_l_Some).
    split; cbn [ts_beans ts_map ts_list].
    + rewrite length_app. cbn. lia.
    + rewrite Hli, length_app. cbn [length]. replace (length (ts_beans st) + 1 - N0)%nat with ((length (ts_beans st) - N0) + 1)%nat by lia.
      rewrite seq_app. f_equal. cbn. f_equal. lia.
    + intros i m c Hi [Hm|[-> ->]]%Hlook Hc; [|set_solver]. destruct (Hd i m c Hi Hm Hc) as (? & m' & ? & ?).
      split; [done|]. exists m'. auto.
    + intros c m p Hc [Hm|[-> ->]]%Hlook Hp; [|done]. destruct (Hu c m p Hc Hm Hp) as (? & m' & ? & ?).
      split; [done|]. exists m'. auto.
    + intros i m Hi [Hm|[-> ->]]%Hlook; [by apply (Hnd i)|]. split; [constructor|done].
    + intros r. rewrite map_set_values_new by done. rewrite elem_of_app, Hr, list_elem_of_singleton. split.
      * intros [(? & m & ? & ?)| ->]; [split; [done|]; exists m; auto|]. split; [lia|]. exists x.
        split; [by rewrite lookup_app_r, Nat.sub_diag|done].
      * intros (? & m & [Hm|[-> ->]]%Hlook & Hp); [left; split; [done|]; by exists m|by right].
    + by apply map_set_nodup.
    + rewrite map_set_values_new by done. apply NoDup_app. split_and!; [done| |apply NoDup_singleton].
      intros r Hin ->%list_elem_of_singleton. apply Hr in Hin as (_ & m & Hm & _). apply lookup_lt_Some in Hm. lia.
Qed.

Lemma merageChildren_merging N0 frames sample cur st :
  merging N0 st -> (N0 <= cur < length (ts_beans st))%nat -> merging N0 (merageChildrenByIndex frames sample cur st).
Proof.
  revert cur st. induction frames as [|f frames IH]; intros cur st M Hcur; [done|]. cbn [merageChildrenByIndex].
  pose proof (merge_frame_merging N0 st f sample (bool_decide (frames = [])) cur M Hcur) as H.
  destruct (merge_frame _ _ _ _ _) as [node st']. destruct H. by apply IH.
Qed.

Lemma merge_sample_merging N0 frames sample st : merging N0 st -> merging N0 (merge_sample frames sample st).
Proof.
  intros M. destruct frames as [|f frames]; [done|]. cbn. pose proof (merge_root_merging N0 st f sample M) as H.
  destruct (merge_root f sample st) as [root st']. destruct H. by apply merageChildren_merging.
Qed.

Lemma merging_start s : merging (length s) {| ts_beans := s; ts_map := []; ts_list := [] |}.
Proof.
  assert (Hno : forall i n, (length s <= i)%nat -> s !! i = Some n -> False)
    by (intros i n Hi Hn; apply lookup_lt_Some in Hn; lia).
  split; cbn.
  - done.
  - by rewrite Nat.sub_diag.
  - intros i n c Hi Hn. by destruct (Hno i n).
  - intros c m p Hi Hn. by destruct (Hno c m).
  - intros i n Hi Hn. by destruct (Hno i n).
  - intros r. split; [set_solver|]. intros (? & n & Hn & _). by destruct (Hno r n).
  - constructor.
  - constructor.
Qed.

Lemma merge_samples_merging ebpf type hideEvent hideThread topDown samples N0 st :
  merging N0 st -> merging N0 (merge_samples ebpf type hideEvent hideThread topDown samples st).
Proof.
  unfold merge_samples. revert st. induction samples as [|x samples IH]; intros st M; [done|]. cbn.
  by apply IH, merge_sample_merging.
Qed.

(** The beans of earlier trees are left alone. *)
Lemma alter_all_lookup {X} (f : MerageBean X -> MerageBean X) l (s : beans X) i :
  i ∉ l -> foldl (fun s c => alter f c s) s l !! i = s !! i.
Proof.
  revert s. induction l as [|a l IH]; intros s Hi; [done|]. cbn. rewrite IH by set_solver.
  apply list_lookup_alter_ne. set_solver.
Qed.

Lemma merge_frame_old N0 st f sample isEnd cur i :
  merging N0 st -> (N0 <= cur < length (ts_beans st))%nat -> (i < N0)%nat ->
  ts_beans (merge_frame f sample isEnd cur st).2 !! i = ts_beans st !! i.
Proof.
  intros M Hcur Hi. destruct (lookup_lt_is_Some_2 (ts_beans st) cur) as [n Hn]; [lia|]. unfold merge_frame. rewrite Hn.
  destruct (last _) as [node|]; cbn.
  - apply alter_all_lookup. intros [_ Hin]%list_elem_of_filter. destruct (mg_down _ _ M cur n i ltac:(lia) Hn Hin). lia.
  - rewrite lookup_app_l by (rewrite length_alter; lia). apply list_lookup_alter_ne. lia.
Qed.

Lemma merge_root_old N0 st f sample i :
  merging N0 st -> (i < N0)%nat -> ts_beans (merge_root f sample st).2 !! i = ts_beans st !! i.
Proof.
  intros M Hi. pose proof (merge_root_merging N0 st f sample M) as H. pose proof (mg_len _ _ M). unfold merge_root in *.
  destruct (map_get _ _) as [root|]; cbn in *.
  - apply list_lookup_alter_ne. lia.
  - apply lookup_app_l. lia.
Qed.

Lemma merge_sample_old N0 frames sample st i :
  merging N0 st -> (i < N0)%nat -> ts_beans (merge_sample frames sample st) !! i = ts_beans st !! i.
Proof.
  intros M Hi. destruct frames as [|f frames]; [done|]. cbn.
  pose proof (merge_root_merging N0 st f sample M) as H. pose proof (merge_root_old N0 st f sample i M Hi) as Ho.
  destruct (merge_root f sample st) as [cur st']. destruct H as [M' Hcur]. cbn in Ho. rewrite <- Ho. clear M Ho st f.
  revert cur st' M' Hcur. induction frames as [|f frames IH]; intros cur st M Hcur; [done|]. cbn [merageChildrenByIndex].
  pose proof (merge_frame_merging N0 st f sample (bool_decide (frames = [])) cur M Hcur) as H.
  pose proof (merge_frame_old N0 st f sample (bool_decide (frames = [])) cur i M Hcur Hi) as Ho.
  destruct (merge_frame _ _ _ _ _) as [node st']. destruct H. cbn in Ho. rewrite <- Ho. by apply IH.
Qed.

Lemma merge_samples_old ebpf type hideEvent hideThread topDown samples N0 st i :
  merging N0 st -> (i < N0)%nat ->
  ts_beans (merge_samples ebpf type hideEvent hideThread topDown samples st) !! i = ts_beans st !! i.
Proof.
  unfold merge_samples. revert st. induction samples as [|x samples IH]; intros st M Hi; [done|]. cbn.
  rewrite IH by (done || by apply merge_sample_merging). by apply (merge_sample_old N0).
Qed.

(** ** Processes *)

(** While roots are given to processes: the processes are the beans after [N1], the
    roots that were seen are their children. *)
Record processing (N0 N1 : nat) (s1 s : list FileMerageBean) (m : list (jsstring * nat)) (seen : list nat) : Prop := {
  po_len : (N0 <= N1 <= length s)%nat;
  po_rest : forall i, (i < N1)%nat -> i ∉ seen -> s !! i = s1 !! i;
  po_seen : forall r, r ∈ seen -> exists n p q, s1 !! r = Some n /\ s !! r = Some (set_parentNode p n) /\
              (N1 <= p)%nat /\ s !! p = Some q /\ r ∈ mb_initChildren q;
  po_down : forall p q, (N1 <= p)%nat -> s !! p = Some q ->
    NoDup (mb_initChildren q) /\ mb_parent q = None /\ mb_parentNode q = None /\
    forall r, r ∈ mb_initChildren q -> r ∈ seen /\ exists n, s !! r = Some n /\ mb_parentNode n = Some p;
  po_vals : m.*2 = seq N1 (length s - N1);
  po_keys : NoDup m.*1;
}.

Lemma map_get_value {K V} `{EqDecision K} (m : list (K * V)) k v : map_get m k = Some v -> v ∈ m.*2.
Proof. induction m as [|[k' v'] m IH]; [done|]. cbn [map_get]. rewrite fmap_cons. case_decide; set_solver. Qed.

(** What giving a root to its process [p] changes. *)
Lemma merge_process_lookup total s m r n :
  s !! r = Some n -> r ∉ m.*2 -> (forall p, p ∈ m.*2 -> (p < length s)%nat) ->
  let '(s', m') := merge_process total (s, m) r in
  exists p q', p <> r /\
    (forall i, s' !! i = if decide (i = r) then Some (set_parentNode p n) else if decide (i = p) then Some q' else s !! i) /\
    ((p = length s /\ m'.*2 = m.*2 ++ [p] /\ (NoDup m.*1 -> NoDup m'.*1) /\ q' = new_process r total n /\ length s' = S (length s)) \/
     (exists q, s !! p = Some q /\ p ∈ m.*2 /\ m' = m /\ q' = add_to_process r total n q /\ length s' = length s)).
Proof.
  intros Hr Hnew Hm. unfold merge_process. rewrite Hr.
  destruct (map_get m (js_toString 10 (fd_pid (mb_rest n)))) as [p|] eqn:Hg.
  - apply map_get_value in Hg. destruct (lookup_lt_is_Some_2 s p (Hm p Hg)) as [q Hq].
    assert (Hne : p <> r) by (intros ->; done).
    exists p, (add_to_process r total n q). split_and!; [done| |right; exists q; by rewrite !length_alter].
    intros i. destruct (decide (i = r)) as [->|Hir].
    + by rewrite list_lookup_alter_eq, list_lookup_alter_ne, Hr.
    + rewrite list_lookup_alter_ne by done. destruct (decide (i = p)) as [->|]; [by rewrite list_lookup_alter_eq, Hq|].
      by rewrite list_lookup_alter_ne.
  - pose proof (lookup_lt_Some _ _ _ Hr). exists (length s), (new_process r total n). split_and!; [lia| |left; split_and!].
    + intros i. destruct (decide (i = r)) as [->|Hir]; [by rewrite list_lookup_alter_eq, lookup_app_l, Hr by lia|].
      rewrite list_lookup_alter_ne by done. destruct (decide (i = length s)) as [->|Hip]; [by rewrite lookup_app_r, Nat.sub_diag|].
      destruct (decide (i < length s)%nat); [by rewrite lookup_app_l|].
      rewrite !lookup_ge_None_2; [done| |]; rewrite ?length_app; cbn; lia.
    + done.
    + by apply map_set_values_new.
    + apply map_set_nodup.
    + done.
    + rewrite length_alter, length_app. cbn. lia.
Qed.

Lemma merge_process_processing N0 N1 s1 s m seen total r :
  processing N0 N1 s1 s m seen -> length s1 = N1 -> (r < N1)%nat -> r ∉ seen ->
  let '(s', m') := merge_process total (s, m) r in processing N0 N1 s1 s' m' (seen ++ [r]).
Proof.
  intros P Hlen Hr Hnew. pose proof (po_len _ _ _ _ _ _ P) as Hl.
  destruct (lookup_lt_is_Some_2 s1 r ltac:(lia)) as [n Hn]. pose proof (po_rest _ _ _ _ _ _ P r Hr Hnew) as Hsr.
  assert (Hm : forall p, p ∈ m.*2 <-> (N1 <= p < length s)%nat) by (intros p; rewrite (po_vals _ _ _ _ _ _ P), elem_of_seq; lia).
  pose proof (merge_process_lookup total s m r n ltac:(congruence) ltac:(rewrite Hm; lia) ltac:(intros p Hp; apply Hm in Hp; lia)) as H.
  destruct (merge_process total (s, m) r) as [s' m']. destruct H as (p & q' & Hpr & Hlook & Hcase).
  assert (Hp : (N1 <= p)%nat) by (destruct Hcase as [(-> & _)|(q & _ & Hp%Hm & _)]; lia).
  assert (Hkids : forall x, x ∈ mb_initChildren q' <-> x = r \/ (exists q, s !! p = Some q /\ x ∈ mb_initChildren q)).
  { intros x. destruct Hcase as [(-> & _ & _ & -> & _)|(q & Hq & _ & _ & -> & _)]; cbn.
    - rewrite (lookup_ge_None_2 s) by lia. set_solver.
    - rewrite Hq, elem_of_app, list_elem_of_singleton. naive_solver. }
  assert (Hsmall : forall x, x ∈ seen -> (x < N1)%nat /\ x <> r).
  { intros x Hx. destruct (po_seen _ _ _ _ _ _ P x Hx) as (? & ? & ? & Hx1 & _). apply lookup_lt_Some in Hx1.
    split; [lia|congruence]. }
  split.
  - destruct Hcase as [(_ & _ & _ & _ & ->)|(q & _ & _ & _ & _ & ->)]; lia.
  - intros i Hi Hin. rewrite not_elem_of_app, list_elem_of_singleton in Hin. destruct Hin as [Hin Hir].
    rewrite Hlook, !decide_False by lia. by apply P.
  - intros x [Hx| ->%list_elem_of_singleton]%elem_of_app.
    + destruct (Hsmall x Hx). destruct (po_seen _ _ _ _ _ _ P x Hx) as (nx & px & qx & H1 & H2 & H3 & H4 & H5). exists nx, px.
      rewrite !Hlook. rewrite (decide_False (P := x = r)), (decide_False (P := x = p)), (decide_False (P := px = r)) by lia.
      destruct (decide (px = p)) as [->|]; [|by exists qx]. exists q'. split_and!; try done. apply Hkids. eauto.
    + exists n, p, q'. rewrite !Hlook, decide_True by done. rewrite (decide_False (P := p = r)) by lia.
      rewrite decide_True by done. split_and!; try done. apply Hkids. by left.
  - intros x y Hx. rewrite Hlook. rewrite decide_False by lia.
    assert (Hold : forall z y', (N1 <= x)%nat -> s !! x = Some y' -> z ∈ mb_initChildren y' ->
      z ∈ seen ++ [r] /\ exists nz, s' !! z = Some nz /\ mb_parentNode nz = Some x).
    { intros z y' _ Hy' Hz. destruct (po_down _ _ _ _ _ _ P x y' Hx Hy') as (_ & _ & _ & Hcy).
      destruct (Hcy z Hz) as (Hzs & nz & Hz1 & Hz2). destruct (Hsmall z Hzs). split; [by apply elem_of_app; left|]. exists nz.
      by rewrite Hlook, !decide_False by lia. }
    destruct (decide (x = p)) as [->|Hxp].
    + intros [= <-]. split.
      { destruct Hcase as [(-> & _ & _ & -> & _)|(q & Hq & _ & _ & -> & _)]; cbn; [apply NoDup_singleton|].
        destruct (po_down _ _ _ _ _ _ P p q Hp Hq) as (HN & _ & _ & Hc). apply NoDup_app.
        split_and!; [done| |apply NoDup_singleton]. intros z Hz ->%list_elem_of_singleton. by destruct (Hc r Hz). }
      split; [|split].
      1-2: destruct Hcase as [(-> & _ & _ & -> & _)|(q & Hq & _ & _ & -> & _)]; [done|];
           by destruct (po_down _ _ _ _ _ _ P p q Hp Hq) as (_ & ? & ? & _).
      intros z [->|(q & Hq & Hz)]%Hkids; [|by eapply Hold].
      split; [apply elem_of_app; right; by apply list_elem_of_singleton|]. eexists. by rewrite Hlook, decide_True.
    + intros Hy. destruct (po_down _ _ _ _ _ _ P x y Hx Hy) as (? & ? & ? & _). split_and!; try done.
      intros z Hz. by eapply Hold.
  - destruct Hcase as [(-> & -> & _ & _ & ->)|(q & _ & _ & -> & _ & ->)]; [|apply P]. rewrite (po_vals _ _ _ _ _ _ P).
    replace (S (length s) - N1)%nat with ((length s - N1) + 1)%nat by lia. rewrite seq_app. f_equal. cbn. f_equal. lia.
  - destruct Hcase as [(_ & _ & HN & _)|(q & _ & _ & -> & _)]; [apply HN|]; apply P.
Qed.

(** ** The invariant of the handler *)

(** All beans, of this and of earlier trees, form forests: [h] is the height of a
    bean, [u] its depth. *)
Record tree_ok {X} (h u : nat -> nat) (s : beans X) (allProcess currentTreeList : list nat) : Prop := {
  to_forest : forest h s;
  to_rooted : rooted (length s) u s;
  to_parent : forall i n, s !! i = Some n -> mb_parent n = mb_parentNode n;
  to_up : forall i n p, s !! i = Some n -> mb_parentNode n = Some p -> is_Some (s !! p);
  to_process : processes (length s + 2) h s allProcess;
  to_list : forall i, i ∈ currentTreeList -> is_Some (s !! i);
}.

Definition handler_ok (t : FileSystemCallTreeHandler) : Prop :=
  exists h u, tree_ok h u (ft_beans t) (ft_allProcess t) (ft_currentTreeList t).

Lemma child_links {X} (s s' : beans X) i c : same_links s s' -> child s i c -> child s' i c.
Proof.
  intros Hs (n & Hn & Hc). destruct (links_lookup _ _ _ _ Hs Hn) as (n' & Hn' & [= _ _ E]). exists n'. split; [done|congruence].
Qed.

Lemma bean_links {X} (s s' : beans X) i : same_links s s' -> is_Some (s !! i) -> is_Some (s' !! i).
Proof. intros Hs [n Hn]. destruct (links_lookup _ _ _ _ Hs Hn) as (n' & ? & _). by exists n'. Qed.

Lemma tree_ok_links {X} h u (s s' : beans X) allProcess currentTreeList :
  same_links s s' -> tree_ok h u s allProcess currentTreeList -> tree_ok h u s' allProcess currentTreeList.
Proof.
  intros Hs [F R P U Pr L]. pose proof (symmetry Hs) as Hs'. pose proof (same_links_length _ _ Hs) as Hlen.
  assert (Hch : forall i c, child s' i c -> child s i c) by (intros; by eapply child_links).
  split; [split|..].
  - intros i c H. by apply (fo_height _ _ F), Hch.
  - intros i c H. eapply bean_links; [done|]. by eapply (fo_bean _ _ F), Hch.
  - intros i n' Hn'. destruct (links_lookup _ _ _ _ Hs' Hn') as (n & Hn & [= _ _ E]). rewrite E. by eapply (fo_nodup _ _ F).
  - intros i j c Hi Hj. apply (fo_parent _ _ F i j c); by apply Hch.
  - rewrite <- Hlen. intros i n' p Hn' Hp. destruct (links_lookup _ _ _ _ Hs' Hn') as (n & Hn & [= _ E _]).
    eapply R; [done|congruence].
  - intros i n' Hn'. destruct (links_lookup _ _ _ _ Hs' Hn') as (n & Hn & [= E1 E2 _]). rewrite E1, E2. by eapply P.
  - intros i n' p Hn' Hp. destruct (links_lookup _ _ _ _ Hs' Hn') as (n & Hn & [= _ E _]). eapply bean_links; [done|].
    eapply U; [done|congruence].
  - rewrite <- Hlen. destruct Pr as [P1 P2 P3 P4]. split; try done.
    + intros p Hp. eapply bean_links; [done|]. by apply P1.
    + intros p i Hp H. by apply (P3 p i Hp), Hch.
  - intros i Hi. eapply bean_links; [done|]. by apply L.
Qed.

Lemma handle_current_links dict total st i : same_links st.1 (handle_current dict total st i).1.
Proof.
  assert (Hgive : forall j st, same_links st.1 (give_id j st).1).
  { clear. intros j [s id]. cbn. destruct (s !! j) as [n|] eqn:E; [|done]. destruct (bool_decide _); [|done]. cbn.
    rewrite <- (list_insert_id s j n E) at 1. unfold same_links. by rewrite !list_fmap_insert. }
  destruct st as [s id]. unfold handle_current. set (s1 := alter _ i s).
  assert (H1 : same_links s s1).
  { apply alter_links. intros n. unfold setMerageName. by destruct (fd_pathId _ =? -1). }
  pose proof (Hgive i (s1, id)) as H2. destruct (give_id i (s1, id)) as [s2 id2]. cbn [fst] in *.
  destruct (s2 !! i ≫= mb_parentNode) as [p|]; [|by etrans].
  pose proof (Hgive p (s2, id2)) as H3. destruct (give_id p (s2, id2)) as [s3 id3]. cbn [fst] in *.
  do 2 (etrans; [done|]). etrans; [exact H3|]. by apply alter_links.
Qed.

Lemma handleCurrentTreeList_links dict total l s : same_links s (handleCurrentTreeList dict total l s).
Proof.
  unfold handleCurrentTreeList. change s with (s, 0).1 at 1. generalize (s, 0). induction l as [|i l IH]; intros st; [done|].
  cbn. etrans; [apply handle_current_links|apply IH].
Qed.

Lemma processing_start N0 st : merging N0 st -> processing N0 (length (ts_beans st)) (ts_beans st) (ts_beans st) [] [].
Proof.
  intros M. split; try set_solver.
  - split; [apply M|done].
  - intros p q Hp Hq. apply lookup_lt_Some in Hq. lia.
  - by rewrite Nat.sub_diag.
  - constructor.
Qed.

Lemma mergeNodeData_processing N0 total st :
  merging N0 st ->
  let '(s, m) := mergeNodeData total st in
  processing N0 (length (ts_beans st)) (ts_beans st) s m (Object_values (ts_map st)).
Proof.
  intros M. unfold mergeNodeData. set (s1 := ts_beans st).
  assert (Hrs : forall r, r ∈ Object_values (ts_map st) -> (r < length s1)%nat).
  { intros r. rewrite Object_values_perm. intros (_ & n & Hn & _)%(mg_root _ _ M). by apply lookup_lt_Some in Hn. }
  assert (HN : NoDup (Object_values (ts_map st))) by (rewrite Object_values_perm; apply M).
  pose proof (processing_start N0 st M) as Hstart. fold s1 in Hstart.
  revert Hrs HN. rewrite <- (app_nil_l (Object_values (ts_map st))). revert Hstart.
  cut (forall rs seen s m, processing N0 (length s1) s1 s m seen ->
    (forall r, r ∈ seen ++ rs -> (r < length s1)%nat) -> NoDup (seen ++ rs) ->
    let '(s', m') := foldl (merge_process total) (s, m) rs in processing N0 (length s1) s1 s' m' (seen ++ rs)).
  { intros H Hs Hrs HN. rewrite app_nil_l. apply (H _ [] s1 []); done. }
  induction rs as [|r rs IH]; intros seen s m P Hrs HN; [by rewrite app_nil_r|]. cbn [foldl].
  pose proof (merge_process_processing N0 (length s1) s1 s m seen total r P eq_refl) as H.
  destruct (merge_process total (s, m) r) as [s' m']. rewrite cons_middle, app_assoc in Hrs, HN |- *. apply IH; [|done..].
  apply H; [apply Hrs; set_solver|]. apply NoDup_app in HN as (HN & _ & _). apply NoDup_app in HN as (_ & HN & _).
  intros Hin. apply (HN r Hin). set_solver.
Qed.

Section Fresh.
Context (N0 N1 : nat) (old s1 s : list FileMerageBean) (map1 m : list (jsstring * nat)) (tlist seen : list nat).
Context (h u : nat -> nat).
Context (Hold_len : length old = N0) (Hs1 : length s1 = N1).
Context (F : forest h old) (Ro : rooted N0 u old) (Pa : forall i n, old !! i = Some n -> mb_parent n = mb_parentNode n).
Context (Up : forall i n p, old !! i = Some n -> mb_parentNode n = Some p -> is_Some (old !! p)).
Context (M : merging N0 {| ts_beans := s1; ts_map := map1; ts_list := tlist |}).
Context (Hold : forall i, (i < N0)%nat -> s1 !! i = old !! i).
Context (P : processing N0 N1 s1 s m seen) (Hseen : forall r, r ∈ seen <-> r ∈ map1.*2).

Definition new_height (i : nat) : nat :=
  if decide (i < N0)%nat then h i else if decide (i < N1)%nat then N1 - i else S N1.
Definition new_depth (i : nat) : nat :=
  if decide (i < N0)%nat then u i else if decide (i < N1)%nat then S (i - N0) else 0.

Lemma fresh_order : (N0 <= N1 <= length s)%nat.
Proof. apply P. Qed.

Lemma seen_root r : r ∈ seen -> (N0 <= r < N1)%nat /\ exists n, s1 !! r = Some n /\ mb_parentNode n = None.
Proof.
  rewrite Hseen. intros (? & n & Hn & Hp)%(mg_root _ _ M). cbn in Hn. split; [|by exists n].
  apply lookup_lt_Some in Hn. lia.
Qed.

(** A bean of the trees below the processes: its links are those it was merged with,
    unless it is a root. *)
Lemma fresh_bean i n :
  (i < N1)%nat -> s !! i = Some n ->
  exists n1, s1 !! i = Some n1 /\ mb_initChildren n = mb_initChildren n1 /\
    (i ∉ seen /\ n = n1 \/ i ∈ seen /\ exists p, n = set_parentNode p n1 /\ (N1 <= p)%nat).
Proof.
  intros Hi Hn. destruct (decide (i ∈ seen)) as [Hin|Hin].
  - destruct (po_seen _ _ _ _ _ _ P i Hin) as (n1 & p & q & H1 & H2 & Hp & _). rewrite Hn in H2. injection H2 as ->.
    exists n1. split_and!; [done|done|]. right. eauto.
  - rewrite (po_rest _ _ _ _ _ _ P i Hi Hin) in Hn. exists n. auto.
Qed.

(** The three kinds of children. *)
Lemma fresh_child i c :
  child s i c ->
  ((i < N0)%nat /\ child old i c) \/
  ((N0 <= i)%nat /\ (N0 <= c < N1)%nat /\ (new_height c < new_height i)%nat /\
   exists n, s !! c = Some n /\ mb_parentNode n = Some i).
Proof.
  intros (n & Hn & Hc). pose proof fresh_order as Ho. destruct (decide (i < N1)%nat) as [Hi|Hi].
  - destruct (fresh_bean i n Hi Hn) as (n1 & Hn1 & E & _). rewrite E in Hc. destruct (decide (i < N0)%nat) as [H0|H0].
    + left. split; [done|]. rewrite Hold in Hn1 by done. by exists n1.
    + right. destruct (mg_down _ _ M i n1 c ltac:(lia) Hn1 Hc) as (Hic & m1 & Hm1 & Hp). cbn in Hm1.
      pose proof (lookup_lt_Some _ _ _ Hm1) as Hc1. rewrite Hs1 in Hc1. split; [lia|]. split; [lia|]. split.
      * unfold new_height. rewrite !(decide_False (P := (_ < N0)%nat)), !(decide_True (P := (_ < N1)%nat)) by lia. lia.
      * assert (Hns : c ∉ seen) by (intros (_ & n' & Hn' & ?)%seen_root; congruence).
        exists m1. split; [|done]. by rewrite (po_rest _ _ _ _ _ _ P).
  - right. destruct (po_down _ _ _ _ _ _ P i n ltac:(lia) Hn) as (_ & _ & _ & Hd). destruct (Hd c Hc) as (Hin & nc & ? & ?).
    apply seen_root in Hin as [? _]. split; [lia|]. split; [done|]. split; [|by exists nc]. unfold new_height.
    rewrite !(decide_False (P := (c < N0)%nat)), (decide_True (P := (c < N1)%nat)), !(decide_False (P := (i < _)%nat)) by lia. lia.
Qed.

Lemma fresh_forest : forest new_height s.
Proof.
  pose proof fresh_order as Ho.
  assert (Hold_c : forall i c, child old i c -> (c < N0)%nat).
  { intros i c H. destruct (fo_bean _ _ F i c H) as [n Hn]. apply lookup_lt_Some in Hn. lia. }
  split.
  - intros i c [[Hi H]|(_ & _ & ? & _)]%fresh_child; [|done]. unfold new_height.
    rewrite !decide_True by (done || by eapply Hold_c). by apply (fo_height _ _ F).
  - intros i c [[Hi H]|(_ & _ & _ & n & ? & _)]%fresh_child; [|by exists n].
    pose proof (Hold_c _ _ H). apply lookup_lt_is_Some_2. lia.
  - intros i n Hn. destruct (decide (i < N1)%nat) as [Hi|Hi].
    + destruct (fresh_bean i n Hi Hn) as (n1 & Hn1 & -> & _). destruct (decide (i < N0)%nat) as [H0|H0].
      * rewrite Hold in Hn1 by done. by eapply (fo_nodup _ _ F).
      * by apply (mg_nodup _ _ M i n1); [lia|].
    + by apply (po_down _ _ _ _ _ _ P i n); [lia|].
  - intros i j c Hi Hj. apply fresh_child in Hi as [[Hi0 Hi]|(Hi0 & Hic & _ & n & Hn & Hp)];
      apply fresh_child in Hj as [[Hj0 Hj]|(Hj0 & Hjc & _ & n' & Hn' & Hp')].
    + by apply (fo_parent _ _ F i j c).
    + pose proof (Hold_c _ _ Hi). lia.
    + pose proof (Hold_c _ _ Hj). lia.
    + congruence.
Qed.

Lemma fresh_rooted : rooted (length s) new_depth s.
Proof.
  pose proof fresh_order as Ho. intros i n p Hn Hp. destruct (decide (i < N1)%nat) as [Hi|Hi].
  2:{ destruct (po_down _ _ _ _ _ _ P i n ltac:(lia) Hn) as (_ & _ & ? & _). congruence. }
  destruct (fresh_bean i n Hi Hn) as (n1 & Hn1 & _ & [[_ ->]|(Hin & q & -> & Hq)]).
  - destruct (decide (i < N0)%nat) as [H0|H0].
    + rewrite Hold in Hn1 by done. destruct (Ro i n1 p Hn1 Hp). destruct (Up i n1 p Hn1 Hp) as [np Hnp].
      apply lookup_lt_Some in Hnp. unfold new_depth. rewrite !decide_True by lia. lia.
    + destruct (mg_up _ _ M i n1 p ltac:(lia) Hn1 Hp) as [? _]. unfold new_depth.
      rewrite !(decide_False (P := (_ < N0)%nat)), !(decide_True (P := (_ < N1)%nat)) by lia. lia.
  - cbn in Hp. injection Hp as <-. apply seen_root in Hin as [? _]. unfold new_depth.
    rewrite !(decide_False (P := (q < _)%nat)), (decide_False (P := (i < N0)%nat)), decide_True by lia. lia.
Qed.

Lemma fresh_tree_ok total_list :
  (forall i, i ∈ total_list -> (i < length s)%nat) -> tree_ok new_height new_depth s (Object_values m) total_list.
Proof.
  intros Hlist. pose proof fresh_order as Ho.
  assert (Hpr : forall p, p ∈ Object_values m -> (N1 <= p < length s)%nat).
  { intros p. rewrite Object_values_perm, (po_vals _ _ _ _ _ _ P), elem_of_seq. lia. }
  split; [apply fresh_forest|apply fresh_rooted| | | |].
  - intros i n Hn. destruct (decide (i < N1)%nat) as [Hi|Hi].
    + destruct (fresh_bean i n Hi Hn) as (n1 & Hn1 & _ & [[_ ->]|(_ & q & -> & _)]); [|done].
      destruct (decide (i < N0)%nat) as [H0|H0]; [rewrite Hold in Hn1 by done; by eapply Pa|].
      by apply (mg_nodup _ _ M i n1); [lia|].
    + destruct (po_down _ _ _ _ _ _ P i n ltac:(lia) Hn) as (_ & ? & ? & _). congruence.
  - intros i n p Hn Hp. apply lookup_lt_is_Some_2. destruct (decide (i < N1)%nat) as [Hi|Hi].
    + destruct (fresh_bean i n Hi Hn) as (n1 & Hn1 & _ & [[_ ->]|(Hin & q & -> & _)]).
      * destruct (decide (i < N0)%nat) as [H0|H0].
        -- rewrite Hold in Hn1 by done. destruct (Up i n1 p Hn1 Hp) as [np Hnp]. apply lookup_lt_Some in Hnp. lia.
        -- destruct (mg_up _ _ M i n1 p ltac:(lia) Hn1 Hp) as [? _]. lia.
      * cbn in Hp. injection Hp as <-. destruct (po_seen _ _ _ _ _ _ P i Hin) as (n2 & p2 & q2 & ? & H2 & _ & H3 & _).
        rewrite Hn in H2. injection H2 as E. assert (q = p2) as -> by congruence. by apply lookup_lt_Some in H3.
    + destruct (po_down _ _ _ _ _ _ P i n ltac:(lia) Hn) as (_ & ? & ? & _). congruence.
  - split.
    + intros p Hp. apply lookup_lt_is_Some_2. by apply Hpr.
    + intros p Hp. specialize (Hpr p Hp). unfold new_height. rewrite !decide_False by lia. lia.
    + intros p i Hp Hc. specialize (Hpr p Hp). apply fresh_child in Hc as [[_ Hc]|(_ & ? & _)]; [|lia].
      destruct (fo_bean _ _ F i p Hc) as [n Hn]. apply lookup_lt_Some in Hn. lia.
    + rewrite Object_values_perm, (po_vals _ _ _ _ _ _ P). apply NoDup_seq.
  - intros i Hi. apply lookup_lt_is_Some_2. by apply Hlist.
Qed.
End Fresh.

Lemma freshCurrentCallChains_ok dict ebpf samples isTopDown t :
  handler_ok t -> handler_ok (freshCurrentCallChains dict ebpf samples isTopDown t).
Proof.
  intros (h & u & [F R Pa U _ _]). unfold freshCurrentCallChains.
  set (start := {| ts_beans := ft_beans t; ts_map := []; ts_list := [] |}).
  pose proof (merging_start (ft_beans t)) as M0. fold start in M0.
  set (st := merge_samples _ _ _ _ _ _ _).
  assert (M : merging (length (ft_beans t)) st) by (by apply merge_samples_merging).
  assert (Hold : forall i, (i < length (ft_beans t))%nat -> ts_beans st !! i = ft_beans t !! i)
    by (intros i Hi; by apply (merge_samples_old _ _ _ _ _ _ (length (ft_beans t)) start)).
  pose proof (mergeNodeData_processing _ (zsum (fs_dur <$> samples)) st M) as P.
  destruct (mergeNodeData _ st) as [s m]. unfold handler_ok. cbn [ft_beans ft_allProcess ft_currentTreeList].
  exists (new_height (length (ft_beans t)) (length (ts_beans st)) h), (new_depth (length (ft_beans t)) (length (ts_beans st)) u).
  eapply tree_ok_links; [apply handleCurrentTreeList_links|].
  eapply (fresh_tree_ok _ _ (ft_beans t) (ts_beans st) s (ts_map st) m (ts_list st) (Object_values (ts_map st)));
    try done.
  - by destruct st.
  - intros r. by rewrite Object_values_perm.
  - intros i. rewrite (mg_list _ _ M), elem_of_seq. pose proof (po_len _ _ _ _ _ _ P). lia.
Qed.

(** ** The filters end and keep the invariant *)

Section Total.
Context {X : Type}.
Implicit Types (s : beans X) (st : split_state X).

Lemma fmap_links (f : MerageBean X -> MerageBean X) s s' :
  (forall n, links (f n) = links n) -> f <$> s = f <$> s' -> same_links s s'.
Proof.
  intros Hf H. apply (f_equal (fmap links)) in H. rewrite <- !list_fmap_compose in H. unfold same_links.
  etrans; [|etrans; [exact H|]]; apply list_fmap_ext; intros i n _; cbn; by rewrite Hf.
Qed.

Lemma same_tree_links s s' : same_tree s s' -> same_links s s'.
Proof. by apply fmap_links. Qed.

Lemma same_shape_links s s' : same_shape s s' -> same_links s s'.
Proof. by apply fmap_links. Qed.

Lemma same_search_links s s' : same_search s s' -> same_links s s'.
Proof. by apply fmap_links. Qed.

Lemma foldM_inv {B A} (I : B -> Prop) (f : B -> A -> option B) l b :
  I b -> (forall b a, a ∈ l -> I b -> exists b', f b a = Some b' /\ I b') -> exists b', foldM f l b = Some b' /\ I b'.
Proof.
  revert b. induction l as [|a l IH]; intros b HI Hf; [by exists b|]. cbn [foldM].
  destruct (Hf b a ltac:(set_solver) HI) as (b' & -> & HI'). cbn. apply IH; [done|]. intros; apply Hf; set_solver.
Qed.

Lemma rooted_mono l l' u s : (l <= l')%nat -> rooted l u s -> rooted l' u s.
Proof. intros Hl R i n p Hn Hp. destruct (R i n p Hn Hp). lia. Qed.

Lemma processes_mono l l' h s ps : (l <= l')%nat -> processes l h s ps -> processes l' h s ps.
Proof. intros Hl [P1 P2 P3 P4]. split; try done. intros p Hp. specialize (P2 p Hp). lia. Qed.

Lemma unstore_same_tree l s : same_tree s (foldl unstore_node s l).
Proof. rewrite unstore_adjust. apply adjust_same. Qed.

Lemma resotre_same_tree symbols st : same_tree st.1 (resotreAllNode symbols st).1.
Proof.
  destruct st as [s m]. cbn. revert s. induction symbols as [|k symbols IH]; intros s; [done|]. cbn.
  etrans; [apply unstore_same_tree|apply IH].
Qed.

Lemma clear_all_same_tree l s : same_tree s (foldl clear_children s l).
Proof. revert s. induction l as [|i l IH]; intros s; [done|]. cbn. etrans; [|apply IH]. by apply alter_same. Qed.

Lemma hide_total levels h s m name rule ps :
  forest h s -> store_blind rule -> processes levels h s ps ->
  exists st, foldM (fun st item => recursionChargeByRule levels name rule (clear_children st.1 item, st.2) item) ps (s, m) = Some st /\
    same_tree s st.1.
Proof.
  intros F Hb P.
  destruct (foldM_clear_mark name s (recursionChargeByRule levels name rule)
    (fun p => flat_map (charged (pred levels) s rule) (match s !! p with Some n => mb_initChildren n | None => [] end)) ps (s, m))
    as (st & E & Hst).
  - done.
  - intros st p Hp Hs. destruct (pr_bean _ _ _ _ P p Hp) as [n Hn]. rewrite Hn.
    apply (rule_marks levels h); try done. by apply (pr_height _ _ _ _ P).
  - exists st. split; [exact E|]. rewrite Hst. cbn [fst]. etrans; [apply clear_all_same_tree|apply adjust_same].
Qed.

Lemma splitAllProcess_total levels h s m ps items :
  forest h s -> processes levels h s ps ->
  exists st, splitAllProcess levels ps items (s, m) = Some st /\ same_tree s st.1.
Proof.
  intros F P. apply (foldM_inv (fun st : split_state X => same_tree s st.1)); [done|]. intros st item _ Hs.
  rewrite (split_item_marks levels h s) by done. cbn [mbind option_bind]. eexists. split; [done|].
  pose proof (mark_all_same (si_name item) (hits levels s ps item) st).
  destruct (si_checked item); [by etrans|]. etrans; [exact Hs|]. etrans; [done|apply resotre_same_tree].
Qed.

(** Searching ends, whatever is hidden. *)

Lemma nearest_depth levels u s c p : rooted levels u s -> nearest s c p -> (u p < u c <= levels)%nat.
Proof.
  intros R. induction 1 as [i n p np Hn Hp _ _|i n q nq p Hn Hq _ _ _ IH]; [by eapply R|].
  destruct (R i n q Hn Hq). lia.
Qed.

Lemma show_from_total levels u s p :
  (forall i n q, s !! i = Some n -> mb_parent n = Some q -> (u q < u i)%nat) ->
  (forall i, p = Some i -> (u i < levels)%nat) -> exists s', show_from levels s p = Some s' /\ same_search s s'.
Proof.
  revert s p. induction levels as [|levels IH]; intros s [i|] Hu Hp; try (by exists s).
  { specialize (Hp i eq_refl). lia. }
  cbn. destruct (s !! i) as [n|] eqn:Hn; [|by exists s]. destruct (mb_searchShow n); [by exists s|].
  pose proof (insert_search true (mb_isSearch n) i n s Hn) as Hs.
  destruct (IH (<[i := with_search true (mb_isSearch n) n]> s) (mb_parent n)) as (s' & -> & Hs').
  - intros j m q Hj Hq. destruct (decide (i = j)) as [<-|Hne].
    + rewrite list_lookup_insert_eq in Hj by (by eapply lookup_lt_Some). injection Hj as <-. by apply (Hu i n).
    + rewrite list_lookup_insert_ne in Hj by done. by apply (Hu j m).
  - intros j Hj. specialize (Hp i eq_refl). specialize (Hu i n j Hn Hj). lia.
  - exists s'. split; [done|]. by etrans.
Qed.

Section SearchTotal.
Context (lower : jsstring -> jsstring) (u : nat -> nat) (s0 : beans X) (L : nat) (data cur : list nat).
Context (Sv : shows_visible L s0 data cur) (R : rooted (length s0) u s0) (HL : (length s0 <= L)%nat).
Context (Pa : forall i n, s0 !! i = Some n -> mb_parent n = mb_parentNode n).

Lemma kid_depth i c : i ∈ data \/ i ∈ cur -> kid s0 i c -> c ∈ cur /\ (u i < u c <= length s0)%nat.
Proof.
  intros Hi Hk. unfold kid in Hk. rewrite (Sv i Hi) in Hk. apply list_elem_of_filter in Hk as [Hp Hc]. split; [done|].
  apply (shown_parent_spec L u) in Hp as [_ Hn]; [|by eapply rooted_mono]. by apply (nearest_depth _ _ s0).
Qed.

Lemma search_item_total q ps s i :
  same_search s0 s -> exists s', search_item lower q ps s i = Some s' /\ same_search s s'.
Proof.
  intros Hs. unfold search_item. destruct (s !! i) as [n|] eqn:Hn; [|by exists s].
  destruct (matches lower q n || ps); [|eexists; split; [done|by apply insert_search]].
  set (b := includes _ q). pose proof (insert_search true b i n s Hn) as Hi.
  assert (Hback : forall j m k, <[i := with_search true b n]> s !! j = Some m -> mb_parent m = Some k ->
    (u k < u j <= length s0)%nat).
  { intros j m k Hj Hk. assert (Hsym : same_search (<[i := with_search true b n]> s) s0) by (symmetry; by etrans).
    destruct (search_lookup _ _ _ _ Hsym Hj) as (b1 & b2 & H0). apply (R j _ k H0).
    rewrite <- (Pa _ _ H0). exact Hk. }
  destruct (show_from_total (length s) u (<[i := with_search true b n]> s) (mb_parent n)) as (s' & -> & Hs').
  - intros j m k Hj Hk. by apply (Hback j m k).
  - intros j Hj. rewrite <- (same_search_length s0 s) by done.
    destruct (Hback i (with_search true b n) j) as [? ?]; [by apply list_lookup_insert_eq; eapply lookup_lt_Some|done|]. lia.
  - exists s'. split; [done|]. by etrans.
Qed.

Lemma findSearchNode_total levels l q ps s :
  same_search s0 s -> (0 < levels)%nat ->
  (forall i, i ∈ l -> (i ∈ data \/ i ∈ cur) /\ (S (S (length s0) - u i) < levels)%nat) ->
  exists s', findSearchNode lower levels l q ps s = Some s' /\ same_search s s'.
Proof.
  revert l q ps s. induction levels as [|levels IH]; intros l q ps s Hs Hpos Hl; [lia|]. cbn [findSearchNode].
  destruct (foldM_inv (fun s' => same_search s0 s') (fun s i => s1 ← search_item lower (lower q) ps s i;
     match s1 !! i with Some item => findSearchNode lower levels (mb_children item) (lower q) (mb_searchShow item) s1 | None => Some s1 end)
     l s) as (s' & E & Hs').
  - done.
  - intros s2 i Hi Hs2. destruct (search_item_total (lower q) ps s2 i Hs2) as (s3 & -> & Hs3). cbn [mbind option_bind].
    assert (Hs03 : same_search s0 s3) by (by etrans). destruct (s3 !! i) as [item|] eqn:Hit; [|by exists s3].
    destruct (Hl i Hi) as [Hin Hlt].
    assert (Hch : mb_children item = children_of s0 i)
      by (rewrite <- (children_search s0 s3 i) by done; unfold children_of; by rewrite Hit).
    destruct (IH (mb_children item) (lower q) (mb_searchShow item) s3 Hs03) as (s4 & -> & Hs4); [lia| |].
    + intros c Hc. rewrite Hch in Hc. destruct (kid_depth i c Hin Hc). split; [by right|]. lia.
    + exists s4. split; [done|]. by etrans.
  - exists s'. split; [exact E|]. etrans; [symmetry; exact Hs|done].
Qed.
End SearchTotal.
End Total.

Lemma resetAllNode_total {X} lower h u (s : beans X) data cur search :
  tree_ok h u s data cur ->
  exists s', resetAllNode lower (length s + 3) data cur search s = Some s' /\ same_links s s'.
Proof.
  intros T.
  assert (Hreset : forall s2, same_links s s2 -> exists s', resetNewAllNode (length s + 3) data cur s2 = Some s' /\
    same_links s s' /\ shows_visible (length s + 3) s' data cur).
  { intros s2 Hs2. pose proof (tree_ok_links _ _ _ _ _ _ Hs2 T) as [_ R _ _ _ Hl].
    rewrite <- (same_links_length _ _ Hs2) in R.
    destruct (resetNewAllNode_shows (length s + 3) u s2 data cur) as (s' & E & Hsh & Hv); [eapply rooted_mono; [|exact R]; lia|done|].
    exists s'. split; [done|]. split; [|done]. etrans; [exact Hs2|by apply same_shape_links]. }
  unfold resetAllNode. fold (unsearched data cur s).
  assert (Hun : same_links s (unsearched data cur s)).
  { unfold same_links. apply list_eq. intros i. rewrite !list_lookup_fmap, unsearched_lookup. destruct (s !! i); [|done]. cbn.
    by case_decide. }
  destruct (Hreset _ Hun) as (s1 & -> & Hs1 & Hv). cbn [mbind option_bind]. destruct (bool_decide (search = [])); [by exists s1|].
  pose proof (tree_ok_links _ _ _ _ _ _ Hs1 T) as [_ R Pa _ _ _]. pose proof (same_links_length _ _ Hs1) as Hlen.
  destruct (findSearchNode_total lower u s1 (length s + 3) data cur Hv R ltac:(lia) Pa (length s + 3) data search false s1)
    as (s2 & -> & Hs2); [done|lia|intros i Hi; split; [by left|lia]|]. cbn [mbind option_bind].
  destruct (Hreset s2) as (s3 & -> & Hs3 & _); [etrans; [exact Hs1|by apply same_search_links]|]. by exists s3.
Qed.

Lemma splitTree_total {X} lower h u (s : beans X) m data cur name isCharge isSymbol search :
  tree_ok h u s data cur ->
  exists st, splitTree lower (length s + 3) data name isCharge isSymbol cur search (s, m) = Some st /\ same_links s st.1.
Proof.
  intros T. pose proof T as [F _ _ _ P _]. unfold splitTree. apply (processes_mono _ (length s + 3)) in P; [|lia].
  destruct (foldM_clear_mark name s (fun st process =>
      if isCharge then recursionChargeInitTree (length s + 3) name isSymbol st process
      else recursionPruneInitTree (length s + 3) name isSymbol st process)
    ((if isCharge then charged else pruned) (length s + 3)%nat s (named name isSymbol)) data (s, m)) as (st & E & Hst); [done| |].
  { intros st p Hp Hs. pose proof (pr_height _ _ _ _ P p Hp). destruct isCharge; [by apply (charge_marks _ h)|by apply (prune_marks _ h)]. }
  cbn [fst snd] in E, Hst. rewrite E. cbn [mbind option_bind].
  assert (Hs : same_links s st.1).
  { rewrite Hst. apply same_tree_links. etrans; [apply clear_all_same_tree|apply adjust_same]. }
  rewrite (same_links_length _ _ Hs).
  destruct (resetAllNode_total lower h u st.1 data cur search) as (s' & -> & Hs'); [by eapply tree_ok_links|].
  eexists. split; [done|]. by etrans.
Qed.

Lemma set_split_ok t st h u :
  tree_ok h u (ft_beans t) (ft_allProcess t) (ft_currentTreeList t) -> same_links (ft_beans t) st.1 -> handler_ok (set_split st t).
Proof. intros T Hs. exists h, u. by eapply tree_ok_links. Qed.

Lemma handleDataByFuncName_ok dict ebpf lower action t :
  handler_ok t -> exists t', handleDataByFuncName dict ebpf lower action t = Some t' /\ handler_ok t'.
Proof.
  intros H. pose proof H as (h & u & T). pose proof T as [F _ _ _ P0 _]. unfold handleDataByFuncName, tree_levels.
  assert (P : processes (length (ft_beans t) + 3) h (ft_beans t) (ft_allProcess t))
    by (eapply processes_mono; [|exact P0]; lia).
  assert (Hblind : store_blind (fun node : FileMerageBean => startsWith (mb_path node) systmeRuleName)) by done.
  destruct action.
  - eexists. split; [done|]. by apply freshCurrentCallChains_ok.
  - destruct (hide_total _ h (ft_beans t) (ft_splitMapData t) systmeRuleName _ _ F Hblind P) as (st & E & Hs).
    unfold hideSystemLibrary. rewrite E. eexists. split; [done|]. by eapply set_split_ok, same_tree_links.
  - destruct (hide_total _ h (ft_beans t) (ft_splitMapData t) numRuleName (out_of_range startNum (num_max endNum)) _ F ltac:(done) P)
      as (st & E & Hs).
    unfold hideNumMaxAndMin. rewrite E. eexists. split; [done|]. by eapply set_split_ok, same_tree_links.
  - eexists. split; [done|]. by exists h, u.
  - eexists. split; [done|]. by exists h, u.
  - destruct (splitAllProcess_total _ h (ft_beans t) (ft_splitMapData t) _ items F P) as (st & E & Hs). rewrite E.
    eexists. split; [done|]. by eapply set_split_ok, same_tree_links.
  - destruct (resetAllNode_total lower h u _ _ _ (ft_searchValue t) T) as (s & E & Hs). rewrite E. eexists. split; [done|].
    by eapply set_split_ok.
  - eexists. split; [done|]. eapply set_split_ok; [done|]. apply same_tree_links. apply (resotre_same_tree symbols (_, _)).
  - eexists. split; [done|]. by eapply set_split_ok.
  - destruct (splitTree_total lower h u _ (ft_splitMapData t) _ _ name isCharge isSymbol (ft_searchValue t) T) as (st & E & Hs).
    rewrite E. eexists. split; [done|]. by eapply set_split_ok.
  - eexists. split; [done|]. by exists h, u.
  - by exists t.
Qed.

Lemma resolvingAction_ok dict ebpf lower params t :
  handler_ok t -> exists t', resolvingAction dict ebpf lower params t = Some t' /\ handler_ok t'.
Proof.
  intros H. unfold resolvingAction. case_bool_decide; [by exists t|].
  destruct (foldM_inv handler_ok (fun t action => handleDataByFuncName dict ebpf lower action t) params t) as (t' & -> & H').
  - done.
  - intros t' action _ H'. by apply handleDataByFuncName_ok.
  - eexists. split; [done|]. destruct H' as (h & u & T). by exists h, u.
Qed.

(** ** Sessions of a handler *)

Definition set_samples (samples : list FileSample) (t : FileSystemCallTreeHandler) : FileSystemCallTreeHandler :=
  {| ft_beans := ft_beans t; ft_currentTreeMapData := ft_currentTreeMapData t; ft_allProcess := ft_allProcess t;
     ft_dataSource := ft_dataSource t; ft_currentDataType := ft_currentDataType t;
     ft_currentTreeList := ft_currentTreeList t; ft_samplesList := samples; ft_splitMapData := ft_splitMapData t;
     ft_searchValue := ft_searchValue t; ft_isHideThread := ft_isHideThread t; ft_isHideEvent := ft_isHideEvent t |}.

(** The answer to a query arrives, a list of actions is resolved, or the handler is
    cleared; the cache may have changed in between. *)
Inductive handler_step (lower : jsstring -> jsstring) : FileSystemCallTreeHandler -> FileSystemCallTreeHandler -> Prop :=
  | step_samples samples t : handler_step lower t (set_samples samples t)
  | step_resolve dict ebpf params t t' :
      resolvingAction dict ebpf lower params t = Some t' -> handler_step lower t t'
  | step_clear t : handler_step lower t (FileSystemCallTreeHandler_clear t)
  | step_clearAll t : handler_step lower t (FileSystemCallTreeHandler_clearAll t).

Lemma handler_ok_new type : handler_ok (new_FileSystemCallTreeHandler type).
Proof.
  exists (fun _ => 0%nat), (fun _ => 0%nat). unfold new_FileSystemCallTreeHandler. cbn.
  assert (Hno : forall i c, ~ child ([] : beans file_data) i c) by (intros i c (n & Hn & _); done).
  split; [split|..]; try done; try (intros; by exfalso; eapply Hno); try set_solver. split; try set_solver. constructor.
Qed.

Lemma handler_step_ok lower t t' : handler_step lower t t' -> handler_ok t -> handler_ok t'.
Proof.
  intros [samples t0|dict ebpf params t0 t1 E|t0|t0] H.
  - done.
  - destruct (resolvingAction_ok dict ebpf lower params t0 H) as (t2 & E2 & H2). congruence.
  - destruct H as (h & u & [F R Pa U _ _]). exists h, u. split; try done; [split|]; set_solver by constructor.
  - destruct H as (h & u & [F R Pa U _ _]). exists h, u. split; try done; [split|]; set_solver by constructor.
Qed.

(** C17: No action hangs.  Whatever answers, actions and clearings a handler has
    seen, resolving a further list of actions ends, with any search value and any
    filters in force, and leaves the beans of all its trees as forests whose
    processes are roots. *)
Theorem handler_total lower type t dict ebpf params :
  rtc (handler_step lower) (new_FileSystemCallTreeHandler type) t ->
  exists t', resolvingAction dict ebpf lower params t = Some t' /\ handler_ok t'.
Proof.
  intros Hr. apply resolvingAction_ok. generalize (handler_ok_new type).
  induction Hr as [t0|t0 t1 t2 Hst _ IH]; [done|]. intros H. by apply IH, (handler_step_ok lower t0).
Qed.

(** A handler that got two samples, in the middle of whose tree a symbol is pruned. *)
Lemma handler_total_witness :
  exists t', resolvingAction ∅ (<[7 := [{| fc_callChainId := 7; fc_symbolsId := Some 1; fc_pathId := 2; fc_ip := js "0x1"; fc_isThread := false |}]]> ∅)
    id [GetCallChainsBySampleIds true; SplitTree (js "READ") false true; SetSearchValue (js "x"); ResetAllNode]
    (set_samples [{| fs_type := 2; fs_callChainId := 7; fs_dur := 5; fs_pid := 10; fs_tid := 11; fs_threadName := [];
                     fs_processName := js "app"; fs_ts := 3 |}] (new_FileSystemCallTreeHandler (js "fileSystem"))) = Some t' /\ handler_ok t'.
Proof. apply (handler_total id (js "fileSystem")). apply rtc_once, step_samples. Defined.
