(* ===== verification/FileCallTimes.v ===== *)
(** * Times of the file system call tree

    The durations of the samples in the tree that [freshCurrentCallChains] of
    [FileCallTree] builds: a bean's time is its own and that of its children, and
    the processes account for the samples. *)

From S2P Require Import Prelude JsRuntime HeapModel CallTree FileCallTree.

(** ** Times add up *)

Definition dur_of (s : list FileMerageBean) (i : nat) : Z :=
  match s !! i with Some n => fd_dur (mb_rest n) | None => 0 end.

(** The time of a bean is its own and that of its children, up to [e]. *)
Definition balanced (N0 : nat) (s : list FileMerageBean) (e : nat -> Z) : Prop :=
  forall i n, (N0 <= i)%nat -> s !! i = Some n ->
    fd_dur (mb_rest n) = fd_selfDur (mb_rest n) + zsum (dur_of s <$> mb_initChildren n) + e i.

(** Frames with the same address are of the same symbol and file. *)
Definition frames_ok (K : list FileCallChain) : Prop :=
  forall f g, f ∈ K -> g ∈ K -> fc_ip f = fc_ip g -> fc_symbolsId f = fc_symbolsId g /\ fc_pathId f = fc_pathId g.

(** What then tells frames apart: the symbol and the file, or the address where there is
    no symbol. *)
Definition frame_class (ip : jsstring) (symbolsId : option Z) (pathId : Z) : (Z * Z) + jsstring :=
  match symbolsId with Some s => inl (s, pathId) | None => inr ip end.
Definition chain_class (f : FileCallChain) := frame_class (fc_ip f) (fc_symbolsId f) (fc_pathId f).
Definition bean_class (n : FileMerageBean) :=
  frame_class (fd_ip (mb_rest n)) (fd_symbolsId (mb_rest n)) (fd_pathId (mb_rest n)).

(** A bean was made for a frame of [K], and its siblings for others. *)
Record framed (N0 : nat) (K : list FileCallChain) (s : list FileMerageBean) : Prop := {
  fr_frame : forall i n, (N0 <= i)%nat -> s !! i = Some n -> fd_processName (mb_rest n) <> [] /\
    exists g, g ∈ K /\ fd_ip (mb_rest n) = fc_ip g /\ fd_symbolsId (mb_rest n) = fc_symbolsId g /\
      fd_pathId (mb_rest n) = fc_pathId g;
  fr_apart : forall i n c c' m m', (N0 <= i)%nat -> s !! i = Some n -> c ∈ mb_initChildren n -> c' ∈ mb_initChildren n ->
    (N0 <= c)%nat -> (N0 <= c')%nat -> s !! c = Some m -> s !! c' = Some m' -> bean_class m = bean_class m' -> c = c';
}.

Lemma same_frame_class K f (n : FileMerageBean) g :
  frames_ok K -> f ∈ K -> g ∈ K -> fd_ip (mb_rest n) = fc_ip g -> fd_symbolsId (mb_rest n) = fc_symbolsId g ->
  fd_pathId (mb_rest n) = fc_pathId g -> same_frame f n = true <-> bean_class n = chain_class f.
Proof.
  intros HK Hf Hg H1 H2 H3. unfold same_frame, bean_class, chain_class, frame_class.
  rewrite orb_true_iff, !andb_true_iff, !bool_decide_eq_true, Z.eqb_eq, H1, H2, H3.
  pose proof (HK g f Hg Hf) as HK'. destruct (fc_symbolsId g) as [sg|] eqn:Eg, (fc_symbolsId f) as [sf|] eqn:Ef.
  - split; [intros [E|[[_ E] E']]; [destruct (HK' E)|]; congruence|]. intros [= <- <-]. right. by split_and!; [eexists| |].
  - split; [intros [E|[[_ E] _]]; [destruct (HK' E)|]; congruence|done].
  - split; [intros [E|[[[? ?] _] _]]; [destruct (HK' E)|]; congruence|done].
  - split; [intros [->|[[[? ?] _] _]]; done|]. intros [= ->]. by left.
Qed.

(** At most one child fits a frame. *)
Lemma frame_children_one N0 K st cur n f :
  merging N0 st -> framed N0 K (ts_beans st) -> frames_ok K -> f ∈ K -> (N0 <= cur)%nat -> ts_beans st !! cur = Some n ->
  frame_children (ts_beans st) f (mb_initChildren n) = [] \/
  exists node m, frame_children (ts_beans st) f (mb_initChildren n) = [node] /\ ts_beans st !! node = Some m /\
    bean_class m = chain_class f.
Proof.
  intros M Fr HK Hf Hcur Hn. unfold frame_children.
  assert (Hfit : forall c, c ∈ mb_initChildren n -> default false (same_frame f <$> ts_beans st !! c) = true ->
    exists m, ts_beans st !! c = Some m /\ bean_class m = chain_class f).
  { intros c Hc. destruct (mg_down _ _ M cur n c Hcur Hn Hc) as (? & m & Hm & _). rewrite Hm. cbn. intros Hs. exists m.
    split; [done|]. destruct (fr_frame _ _ _ Fr c m ltac:(lia) Hm) as (_ & g & Hg & E1 & E2 & E3).
    by apply (same_frame_class K f m g). }
  destruct (filter _ (mb_initChildren n)) as [|node [|node' rest]] eqn:E; [by left| |].
  - right. assert (Hin : node ∈ filter (fun c => default false (same_frame f <$> ts_beans st !! c) = true) (mb_initChildren n))
      by (rewrite E; set_solver).
    apply list_elem_of_filter in Hin as [Hs Hc]. destruct (Hfit node Hc Hs) as (m & ? & ?). by exists node, m.
  - exfalso. destruct (mg_nodup _ _ M cur n Hcur Hn) as [HN _].
    pose proof (NoDup_filter (fun c => default false (same_frame f <$> ts_beans st !! c) = true) _ HN) as HN'. rewrite E in HN'.
    assert (H1 : node ∈ node :: node' :: rest) by set_solver. assert (H2 : node' ∈ node :: node' :: rest) by set_solver.
    rewrite <- E in H1, H2. apply list_elem_of_filter in H1 as [Hs1 Hc1], H2 as [Hs2 Hc2].
    destruct (Hfit _ Hc1 Hs1) as (m1 & Hm1 & E1), (Hfit _ Hc2 Hs2) as (m2 & Hm2 & E2).
    apply NoDup_cons in HN' as [Hne _]. apply Hne.
    destruct (mg_down _ _ M cur n node Hcur Hn Hc1) as [? _], (mg_down _ _ M cur n node' Hcur Hn Hc2) as [? _].
    rewrite (fr_apart _ _ _ Fr cur n node node' m1 m2) by (done || lia || congruence). set_solver.
Qed.

(** One bean's time grows by [d], its own by [d']. *)
Lemma dur_alter_sum s f i n d l :
  s !! i = Some n -> fd_dur (mb_rest (f n)) = fd_dur (mb_rest n) + d ->
  zsum (dur_of (alter f i s) <$> l) = zsum (dur_of s <$> l) + zsum ((fun c => if decide (c = i) then d else 0) <$> l).
Proof.
  intros Hi Hd.
  assert (Hdur : forall c, dur_of (alter f i s) c = dur_of s c + (if decide (c = i) then d else 0)).
  { intros c. unfold dur_of. destruct (decide (c = i)) as [->|Hne]; [by rewrite list_lookup_alter_eq, Hi|].
    rewrite list_lookup_alter_ne by done. lia. }
  induction l as [|c l IH]; [done|]. rewrite !fmap_cons. cbn [zsum foldr]. unfold zsum in IH. rewrite IH, Hdur. lia.
Qed.

Lemma balanced_alter N0 s e f i n d d' :
  s !! i = Some n -> mb_initChildren (f n) = mb_initChildren n ->
  fd_dur (mb_rest (f n)) = fd_dur (mb_rest n) + d -> fd_selfDur (mb_rest (f n)) = fd_selfDur (mb_rest n) + d' ->
  balanced N0 s e ->
  balanced N0 (alter f i s) (fun j => e j + (if decide (j = i) then d - d' else 0) -
    match s !! j with Some m => zsum ((fun c => if decide (c = i) then d else 0) <$> mb_initChildren m) | None => 0 end).
Proof.
  intros Hi Hc Hd Hs B j m Hj Hm. rewrite (dur_alter_sum _ _ _ n d) by done. destruct (decide (j = i)) as [->|Hne].
  - rewrite list_lookup_alter_eq, Hi in Hm. injection Hm as <-. rewrite Hi, Hc, Hd, Hs. specialize (B i n Hj Hi). lia.
  - rewrite list_lookup_alter_ne in Hm by done. rewrite Hm. specialize (B j m Hj Hm). lia.
Qed.

Lemma zsum_one i d l : NoDup l -> zsum ((fun c : nat => if decide (c = i) then d else 0) <$> l) = if decide (i ∈ l) then d else 0.
Proof.
  induction 1 as [|c l Hc HN IH]; [by rewrite decide_False by set_solver|]. rewrite fmap_cons. cbn [zsum foldr]. unfold zsum in IH.
  rewrite IH. repeat case_decide; subst; set_solver by lia.
Qed.

Lemma balanced_ext N0 s e e' : (forall i, is_Some (s !! i) -> (N0 <= i)%nat -> e i = e' i) -> balanced N0 s e -> balanced N0 s e'.
Proof. intros He B i n Hi Hn. rewrite <- He by (done || by eexists). by apply B. Qed.

Lemma processName_merage f sample isEnd n : fd_processName (mb_rest (merageCallChainSample f sample isEnd n)) <> [].
Proof.
  unfold merageCallChainSample. cbn. case_bool_decide as H; [|done]. intros E. apply app_eq_nil in E as [_ E]. done.
Qed.

(** Merging a frame keeps what is known of it once it is there. *)
Lemma merage_frame_data f sample isEnd n :
  fd_processName (mb_rest n) <> [] ->
  let d := mb_rest (merageCallChainSample f sample isEnd n) in
  fd_ip d = fd_ip (mb_rest n) /\ fd_symbolsId d = fd_symbolsId (mb_rest n) /\ fd_pathId d = fd_pathId (mb_rest n).
Proof. intros H. cbn. by rewrite !bool_decide_false. Qed.

Lemma framed_alter N0 K s f sample isEnd i :
  framed N0 K s -> framed N0 K (alter (merageCallChainSample f sample isEnd) i s).
Proof.
  intros [H1 H2].
  assert (Hback : forall j m, (N0 <= j)%nat -> alter (merageCallChainSample f sample isEnd) i s !! j = Some m ->
    exists n, s !! j = Some n /\ mb_initChildren m = mb_initChildren n /\ fd_processName (mb_rest m) <> [] /\
      fd_ip (mb_rest m) = fd_ip (mb_rest n) /\ fd_symbolsId (mb_rest m) = fd_symbolsId (mb_rest n) /\
      fd_pathId (mb_rest m) = fd_pathId (mb_rest n)).
  { intros j m Hj. destruct (decide (i = j)) as [->|Hne].
    - rewrite list_lookup_alter_eq. destruct (s !! j) as [n|] eqn:Hn; [|done]. intros [= <-]. exists n. split; [done|].
      destruct (H1 j n Hj Hn) as [Hp _]. destruct (merage_frame_data f sample isEnd n Hp) as (? & ? & ?).
      split_and!; try done. apply processName_merage.
    - rewrite list_lookup_alter_ne by done. intros Hm. exists m. split_and!; try done. by apply (H1 j m). }
  split.
  - intros j m Hj Hm. destruct (Hback j m Hj Hm) as (n & Hn & _ & Hp & -> & -> & ->). split; [done|]. by apply (H1 j n).
  - intros j n c c' m m' Hj Hn Hc Hc' Hlt Hlt' Hm Hm' Hip. destruct (Hback j n Hj Hn) as (n0 & Hn0 & E & _).
    destruct (Hback c m Hlt Hm) as (m0 & Hm0 & _ & _ & E1 & E2 & E3), (Hback c' m' Hlt' Hm') as (m0' & Hm0' & _ & _ & E1' & E2' & E3').
    rewrite E in Hc. rewrite E in Hc'. apply (H2 j n0 c c' m0 m0'); try done.
    unfold bean_class in *. congruence.
Qed.

(** A new bean, below [p] if there is one. *)
Definition grow (o : option nat) (x : FileMerageBean) (s : list FileMerageBean) : list FileMerageBean :=
  match o with Some p => alter (push_child (length s)) p s | None => s end ++ [x].

Lemma grow_lookup o x s i m :
  grow o x s !! i = Some m ->
  (i = length s /\ m = x) \/
  ((i < length s)%nat /\ exists n, s !! i = Some n /\ mb_rest m = mb_rest n /\ mb_parentNode m = mb_parentNode n /\
     mb_initChildren m = mb_initChildren n ++ (if decide (o = Some i) then [length s] else [])).
Proof.
  intros Hm. unfold grow in Hm. apply lookup_app_Some in Hm as [Hm|[Hge Hm]].
  - right. destruct o as [p|].
    + destruct (decide (p = i)) as [->|Hne].
      * rewrite list_lookup_alter_eq in Hm. destruct (s !! i) as [n|] eqn:Hn; [|done]. injection Hm as <-.
        split; [by eapply lookup_lt_Some|]. exists n. by rewrite decide_True.
      * rewrite list_lookup_alter_ne in Hm by done. split; [by eapply lookup_lt_Some|]. exists m.
        rewrite decide_False by congruence. by rewrite app_nil_r.
    + split; [by eapply lookup_lt_Some|]. exists m. rewrite decide_False by done. by rewrite app_nil_r.
  - left. assert (Hl : length (match o with Some p => alter (push_child (length s)) p s | None => s end) = length s)
      by (destruct o; [apply length_alter|done]). rewrite Hl in Hge, Hm.
    destruct (i - length s)%nat as [|k] eqn:E; [injection Hm as <-; split; [lia|done]|done].
Qed.

Lemma grow_dur o x s i :
  dur_of (grow o x s) i = if decide (i = length s) then fd_dur (mb_rest x) else dur_of s i.
Proof.
  assert (Hl : length (match o with Some p => alter (push_child (length s)) p s | None => s end) = length s)
    by (destruct o; [apply length_alter|done]).
  unfold dur_of, grow. case_decide as Hi.
  - subst. rewrite lookup_app_r by lia. by rewrite Hl, Nat.sub_diag.
  - destruct (decide (i < length s)%nat) as [Hlt|Hge].
    + rewrite lookup_app_l by lia. destruct o as [p|]; [|done]. destruct (decide (p = i)) as [->|].
      * rewrite list_lookup_alter_eq. by destruct (s !! i).
      * by rewrite list_lookup_alter_ne.
    + rewrite !lookup_ge_None_2; [done| |]; rewrite ?length_app, ?Hl; cbn; lia.
Qed.

Lemma grow_balanced N0 o x s e :
  (forall i n c, (N0 <= i)%nat -> s !! i = Some n -> c ∈ mb_initChildren n -> (c < length s)%nat) ->
  mb_initChildren x = [] -> balanced N0 s e ->
  balanced N0 (grow o x s) (fun i => (if decide (i = length s) then fd_dur (mb_rest x) - fd_selfDur (mb_rest x) else e i) -
    (if decide (o = Some i) then fd_dur (mb_rest x) else 0) + (if decide (o = Some (length s) /\ i = length s) then fd_dur (mb_rest x) else 0)).
Proof.
  intros Hc Hx B i m Hi [[-> ->]|(Hlt & n & Hn & Er & _ & Ec)]%grow_lookup.
  - rewrite Hx. cbn [fmap list_fmap zsum foldr]. rewrite decide_True by done. case_decide as H1.
    + rewrite decide_True by done. lia.
    + rewrite decide_False by naive_solver. lia.
  - rewrite Er, Ec. rewrite (decide_False (P := i = length s)) by lia. rewrite (decide_False (P := o = Some (length s) /\ _)) by lia.
    rewrite fmap_app, zsum_app.
    assert (Hsame : dur_of (grow o x s) <$> mb_initChildren n = dur_of s <$> mb_initChildren n).
    { apply list_fmap_ext. intros k c Hk. rewrite grow_dur, decide_False; [done|].
      pose proof (Hc i n c Hi Hn ltac:(by eapply list_elem_of_lookup_2)). lia. }
    rewrite Hsame. specialize (B i n Hi Hn). case_decide; cbn [fmap list_fmap zsum foldr]; [rewrite grow_dur, decide_True by done|]; lia.
Qed.

Lemma grow_framed N0 K o x s g :
  (forall i n c, (N0 <= i)%nat -> s !! i = Some n -> c ∈ mb_initChildren n -> (c < length s)%nat) ->
  framed N0 K s -> g ∈ K -> mb_initChildren x = [] -> fd_processName (mb_rest x) <> [] -> fd_ip (mb_rest x) = fc_ip g ->
  fd_symbolsId (mb_rest x) = fc_symbolsId g -> fd_pathId (mb_rest x) = fc_pathId g ->
  (forall p n c m, o = Some p -> s !! p = Some n -> c ∈ mb_initChildren n -> s !! c = Some m -> bean_class m <> chain_class g) ->
  framed N0 K (grow o x s).
Proof.
  intros Hc [H1 H2] Hg Hx Hp E1 E2 E3 Hapart. split.
  - intros i m Hi [[-> ->]|(_ & n & Hn & -> & _)]%grow_lookup; [split; [done|]; by exists g|by apply (H1 i n)].
  - intros i m c c' mc mc' Hi [[-> ->]|(_ & n & Hn & _ & _ & E)]%grow_lookup; [rewrite Hx; set_solver|].
    rewrite E. intros Hin Hin' Hlt Hlt' Hmc Hmc' Hip.
    assert (Hsplit : forall a ma, a ∈ mb_initChildren n ++ (if decide (o = Some i) then [length s] else []) -> grow o x s !! a = Some ma ->
      (a ∈ mb_initChildren n /\ exists ma0, s !! a = Some ma0 /\ bean_class ma = bean_class ma0) \/
      (a = length s /\ o = Some i /\ bean_class ma = chain_class g)).
    { intros a ma [Ha|Ha]%elem_of_app Hma.
      - left. split; [done|]. pose proof (Hc i n a Hi Hn Ha). apply grow_lookup in Hma as [[-> _]|(_ & ma0 & ? & E' & _)]; [lia|].
        exists ma0. split; [done|]. unfold bean_class. by rewrite E'.
      - right. case_decide as Ho; [|set_solver]. apply list_elem_of_singleton in Ha as ->.
        apply grow_lookup in Hma as [[_ ->]|[? _]]; [|lia]. split_and!; [done..|].
        unfold bean_class, chain_class. by rewrite E1, E2, E3. }
    destruct (Hsplit c mc Hin Hmc) as [(Hc1 & m1 & Hm1 & Ei)|(-> & Ho & Ei)], (Hsplit c' mc' Hin' Hmc') as [(Hc2 & m2 & Hm2 & Ei')|(-> & Ho' & Ei')];
      [|exfalso; eapply (Hapart i n c m1); [done..|congruence]|exfalso; eapply (Hapart i n c' m2); [done..|congruence]|done].
    apply (H2 i n c c' m1 m2); congruence.
Qed.

(** Times while a sample is on its way down: [cur] has its time already, its
    children do not. *)
Definition pending (cur : nat) (d : Z) : nat -> Z := fun i => if decide (i = cur) then d else 0.

Lemma merge_frame_grow f sample isEnd cur st n :
  ts_beans st !! cur = Some n -> frame_children (ts_beans st) f (mb_initChildren n) = [] ->
  merge_frame f sample isEnd cur st =
    (length (ts_beans st),
     {| ts_beans := grow (Some cur) (set_parentNode cur (merageCallChainSample f sample isEnd new_FileMerageBean)) (ts_beans st);
        ts_map := ts_map st; ts_list := ts_list st ++ [length (ts_beans st)] |}).
Proof. intros Hn Hc. unfold merge_frame. rewrite Hn, Hc. done. Qed.

Lemma merge_frame_alter f sample isEnd cur st n node :
  ts_beans st !! cur = Some n -> frame_children (ts_beans st) f (mb_initChildren n) = [node] ->
  merge_frame f sample isEnd cur st =
    (node, {| ts_beans := alter (merageCallChainSample f sample isEnd) node (ts_beans st); ts_map := ts_map st; ts_list := ts_list st |}).
Proof. intros Hn Hc. unfold merge_frame. rewrite Hn, Hc. done. Qed.

Lemma merging_small N0 st : merging N0 st ->
  forall i n c, (N0 <= i)%nat -> ts_beans st !! i = Some n -> c ∈ mb_initChildren n -> (c < length (ts_beans st))%nat.
Proof. intros M i n c Hi Hn Hc. destruct (mg_down _ _ M i n c Hi Hn Hc) as (_ & m & Hm & _). by apply lookup_lt_Some in Hm. Qed.

Lemma merge_frame_length f sample isEnd cur st :
  (length (ts_beans st) <= length (ts_beans (merge_frame f sample isEnd cur st).2))%nat.
Proof.
  unfold merge_frame. case_match; cbn [ts_beans snd].
  - generalize (frame_children (ts_beans st) f (match ts_beans st !! cur with Some n => mb_initChildren n | None => [] end)).
    intros l. generalize (ts_beans st). induction l as [|c l IH]; intros b; [done|]. cbn. etrans; [|apply IH]. by rewrite length_alter.
  - rewrite length_app, length_alter. cbn. lia.
Qed.

Lemma merge_frame_times N0 K st f sample isEnd cur e :
  (forall i, (length (ts_beans st) <= i)%nat -> e i = 0) -> merging N0 st -> framed N0 K (ts_beans st) -> frames_ok K -> f ∈ K -> (N0 <= cur < length (ts_beans st))%nat ->
  balanced N0 (ts_beans st) (fun i => e i + pending cur (fs_dur sample) i) ->
  let '(node, st') := merge_frame f sample isEnd cur st in
  framed N0 K (ts_beans st') /\ balanced N0 (ts_beans st') (fun i => e i + pending node (if isEnd then 0 else fs_dur sample) i) /\
  ts_map st' = ts_map st /\ (forall r, r ∈ (ts_map st).*2 -> dur_of (ts_beans st') r = dur_of (ts_beans st) r).
Proof.
  intros He M Fr HK Hf Hcur B. destruct (lookup_lt_is_Some_2 (ts_beans st) cur) as [n Hn]; [lia|].
  destruct (frame_children_one N0 K st cur n f M Fr HK Hf ltac:(lia) Hn) as [Hc|(node & m & Hc & Hm & Hip)].
  - rewrite (merge_frame_grow _ _ _ _ _ _ Hn Hc). set (x := set_parentNode cur _). cbn [ts_beans ts_map].
    pose proof (merging_small _ _ M) as Hsm. split_and!; [..|done|].
    + eapply (grow_framed N0 K (Some cur) x _ f); try done.
      * apply (processName_merage f sample isEnd new_FileMerageBean).
      * intros p n' c m [= <-] Hn' Hin Hm Hip. rewrite Hn in Hn'. injection Hn' as <-.
        assert (Hcf : c ∈ frame_children (ts_beans st) f (mb_initChildren n)); [|rewrite Hc in Hcf; set_solver].
        apply list_elem_of_filter. split; [|done]. rewrite Hm. cbn.
        destruct (mg_down _ _ M cur n c ltac:(lia) Hn Hin) as (Hlt & _).
        destruct (fr_frame _ _ _ Fr c m ltac:(lia) Hm) as (_ & g & Hg & E1 & E2 & E3).
        by apply (same_frame_class K f m g).
    + eapply balanced_ext; [|by eapply (grow_balanced N0 (Some cur) x)]. intros i _ Hi. unfold pending, x.
      cbn [set_parentNode merageCallChainSample with_rest mb_rest fd_dur fd_selfDur new_FileMerageBean].
      pose proof (He i). repeat case_decide; simplify_eq; destruct isEnd; try lia; naive_solver lia.
    + intros r Hr. rewrite grow_dur, decide_False; [done|]. apply (mg_root _ _ M) in Hr as (_ & nr & Hnr & _).
      apply lookup_lt_Some in Hnr. lia.
  - rewrite (merge_frame_alter _ _ _ _ _ _ _ Hn Hc). cbn [ts_beans ts_map].
    assert (Hin : node ∈ mb_initChildren n).
    { assert (H : node ∈ frame_children (ts_beans st) f (mb_initChildren n)) by (rewrite Hc; set_solver).
      by apply list_elem_of_filter in H as [_ ?]. }
    destruct (mg_down _ _ M cur n node ltac:(lia) Hn Hin) as (Hlt & m' & Hm' & Hp). rewrite Hm in Hm'. injection Hm' as <-.
    split_and!; [by apply framed_alter| |done|].
    + eapply balanced_ext; [|by eapply (balanced_alter N0 _ _ (merageCallChainSample f sample isEnd) node m (fs_dur sample)
        (if isEnd then fs_dur sample else 0)); [done|done|done|destruct isEnd; cbn; lia|]].
      intros i Hi Hge. rewrite lookup_alter_is_Some in Hi || idtac. unfold pending. cbn beta.
      destruct (ts_beans st !! i) as [ni|] eqn:Hni.
      2:{ exfalso. destruct Hi as [? Hi]. apply lookup_lt_Some in Hi. rewrite length_alter in Hi. apply lookup_ge_None in Hni. lia. }
      rewrite (zsum_one node) by (by apply (mg_nodup _ _ M i ni)).
      assert (Hpar : node ∈ mb_initChildren ni <-> i = cur).
      { split; [|intros ->; congruence]. intros Hin'. destruct (mg_down _ _ M i ni node Hge Hni Hin') as (_ & m' & Hm' & Hp'). congruence. }
      destruct (decide (node ∈ mb_initChildren ni)) as [H1|H1], (decide (i = cur)) as [H2|H2]; try (exfalso; tauto);
        destruct (decide (i = node)), isEnd; lia.
    + intros r Hr. unfold dur_of. destruct (decide (node = r)) as [->|Hne]; [|by rewrite list_lookup_alter_ne].
      apply (mg_root _ _ M) in Hr as (_ & nr & Hnr & Hpr). congruence.
Qed.

Lemma children_times N0 K frames sample cur st e :
  (forall i, (length (ts_beans st) <= i)%nat -> e i = 0) -> merging N0 st -> framed N0 K (ts_beans st) -> frames_ok K -> (forall f, f ∈ frames -> f ∈ K) -> frames <> [] ->
  (N0 <= cur < length (ts_beans st))%nat -> balanced N0 (ts_beans st) (fun i => e i + pending cur (fs_dur sample) i) ->
  let st' := merageChildrenByIndex frames sample cur st in
  framed N0 K (ts_beans st') /\ balanced N0 (ts_beans st') e /\ ts_map st' = ts_map st /\
  (forall r, r ∈ (ts_map st).*2 -> dur_of (ts_beans st') r = dur_of (ts_beans st) r).
Proof.
  revert cur st. induction frames as [|f frames IH]; intros cur st He M Fr HK Hfr Hne Hcur B; [done|]. cbn [merageChildrenByIndex].
  pose proof (merge_frame_merging N0 st f sample (bool_decide (frames = [])) cur M Hcur) as Hm.
  pose proof (merge_frame_times N0 K st f sample (bool_decide (frames = [])) cur e He M Fr HK ltac:(apply Hfr; set_solver) Hcur B) as Ht.
  pose proof (merge_frame_length f sample (bool_decide (frames = [])) cur st) as Hl.
  destruct (merge_frame _ _ _ _ _) as [node st1]. destruct Hm as [M1 Hnode], Ht as (Fr1 & B1 & Emap & Hdur).
  case_bool_decide as Hend.
  - subst frames. cbn. split_and!; try done. eapply balanced_ext; [|exact B1]. intros i _ _. unfold pending. case_decide; lia.
  - destruct (IH node st1 ltac:(intros i Hi; apply He; cbn in Hl; lia) M1 Fr1 HK ltac:(intros; apply Hfr; set_solver) Hend Hnode B1) as (Fr2 & B2 & Emap2 & Hdur2).
    split_and!; try done; [congruence|]. intros r Hr. rewrite Hdur2 by (by rewrite Emap). by apply Hdur.
Qed.

(** The time of the roots grows by the sample's. *)
Lemma merge_root_times N0 K st f sample e :
  (forall i, (length (ts_beans st) <= i)%nat -> e i = 0) -> merging N0 st -> framed N0 K (ts_beans st) -> f ∈ K -> balanced N0 (ts_beans st) e ->
  let '(root, st') := merge_root f sample st in
  framed N0 K (ts_beans st') /\ balanced N0 (ts_beans st') (fun i => e i + pending root (fs_dur sample) i) /\
  zsum (dur_of (ts_beans st') <$> (ts_map st').*2) = zsum (dur_of (ts_beans st) <$> (ts_map st).*2) + fs_dur sample.
Proof.
  intros He M Fr Hf B. unfold merge_root. destruct (map_get _ _) as [root|] eqn:Hg; cbn [ts_beans ts_map].
  - pose proof (map_get_value _ _ _ Hg) as Hin. pose proof Hin as (Hge & n & Hn & Hp)%(mg_root _ _ M).
    split_and!; [by apply framed_alter| |].
    + eapply balanced_ext; [|by eapply (balanced_alter N0 _ _ (merageCallChainSample f sample false) root n (fs_dur sample) 0);
        [done|done|done|cbn; lia|]].
      intros i _ Hi. unfold pending. cbn beta. destruct (ts_beans st !! i) as [ni|] eqn:Hni; [|destruct (decide _); lia].
      rewrite (zsum_one root) by (by apply (mg_nodup _ _ M i ni)). rewrite (decide_False (P := root ∈ _)); [destruct (decide _); lia|].
      intros Hc. destruct (mg_down _ _ M i ni root Hi Hni Hc) as (_ & m & Hm & Hpm). congruence.
    + rewrite (dur_alter_sum _ _ _ n (fs_dur sample)) by done. rewrite zsum_one by apply M. by rewrite decide_True.
  - set (x := merageCallChainSample f sample false new_FileMerageBean). change (ts_beans st ++ [x]) with (grow None x (ts_beans st)).
    pose proof (merging_small _ _ M) as Hsm. split_and!.
    + eapply (grow_framed N0 K None x _ f); try done. apply processName_merage.
    + eapply balanced_ext; [|by eapply (grow_balanced N0 None x)]. intros i _ Hi. unfold pending, x. cbn. pose proof (He i).
      repeat destruct (decide _); simplify_eq; try lia; naive_solver lia.
    + rewrite map_set_values_new by done. rewrite fmap_app, zsum_app. cbn [fmap list_fmap zsum foldr].
      rewrite grow_dur, decide_True by done. unfold x. cbn [merageCallChainSample with_rest mb_rest fd_dur new_FileMerageBean].
      replace (dur_of (grow None _ (ts_beans st)) <$> (ts_map st).*2) with (dur_of (ts_beans st) <$> (ts_map st).*2); [lia|].
      apply list_fmap_ext. intros k r Hk. rewrite grow_dur, decide_False; [done|].
      apply list_elem_of_lookup_2, (mg_root _ _ M) in Hk as (_ & m & Hm & _). apply lookup_lt_Some in Hm. lia.
Qed.

Definition counted (frames : list FileCallChain) (sample : FileSample) : Z := if bool_decide (frames = []) then 0 else fs_dur sample.

(** A chain of one frame is merged into its root, which gets the time but not as its
    own: what bean [i] has this way. *)
Definition single_of (m : list (jsstring * nat)) (frames : list FileCallChain) (sample : FileSample) (i : nat) : Z :=
  match frames with
  | [f] => if decide (map_get m (root_key f (fs_pid sample)) = Some i) then fs_dur sample else 0
  | _ => 0
  end.

Definition single_time (frames : FileSample -> list FileCallChain) (m : list (jsstring * nat)) (samples : list FileSample)
    (i : nat) : Z :=
  zsum ((fun x => single_of m (frames x) x i) <$> samples).

Lemma single_time_app frames m l k i : single_time frames m (l ++ k) i = single_time frames m l i + single_time frames m k i.
Proof. unfold single_time. by rewrite fmap_app, zsum_app. Qed.

Lemma zsum_all_zero {A} (f : A -> Z) l : (forall x, x ∈ l -> f x = 0) -> zsum (f <$> l) = 0.
Proof.
  induction l as [|x l IH]; intros H; [done|]. rewrite fmap_cons. cbn [zsum foldr]. unfold zsum in IH.
  rewrite IH by (intros; apply H; by right). rewrite (H x) by (by left). done.
Qed.

(** The roots keep their keys. *)
Lemma merge_root_get f sample st :
  let '(root, st') := merge_root f sample st in
  map_get (ts_map st') (root_key f (fs_pid sample)) = Some root /\
  (forall k r, map_get (ts_map st) k = Some r -> map_get (ts_map st') k = Some r) /\
  (length (ts_beans st) <= length (ts_beans st'))%nat.
Proof.
  unfold merge_root. destruct (map_get (ts_map st) _) as [root|] eqn:E; cbn [ts_map ts_beans].
  - split_and!; [done|done|by rewrite length_alter].
  - split_and!; [by rewrite map_get_set, decide_True| |rewrite length_app; lia].
    intros k r Hk. rewrite map_get_set. case_decide; [congruence|done].
Qed.

Lemma merge_sample_times N0 K st frames sample e :
  (forall i, (length (ts_beans st) <= i)%nat -> e i = 0) ->
  merging N0 st -> framed N0 K (ts_beans st) -> frames_ok K -> (forall f, f ∈ frames -> f ∈ K) ->
  balanced N0 (ts_beans st) e ->
  let st' := merge_sample frames sample st in
  framed N0 K (ts_beans st') /\ balanced N0 (ts_beans st') (fun i => e i + single_of (ts_map st') frames sample i) /\
  zsum (dur_of (ts_beans st') <$> (ts_map st').*2) = zsum (dur_of (ts_beans st) <$> (ts_map st).*2) + counted frames sample /\
  (forall k r, map_get (ts_map st) k = Some r -> map_get (ts_map st') k = Some r) /\
  (forall f, frames = [f] -> is_Some (map_get (ts_map st') (root_key f (fs_pid sample)))).
Proof.
  intros He M Fr HK Hfr B. unfold counted. destruct frames as [|f frames].
  { cbn. split_and!; [done| |lia|done|done]. eapply balanced_ext; [|exact B]. intros. lia. }
  rewrite bool_decide_false by done. cbn [merge_sample].
  pose proof (merge_root_merging N0 st f sample M) as Hm. pose proof (merge_root_get f sample st) as Hget.
  pose proof (merge_root_times N0 K st f sample e He M Fr (Hfr f ltac:(by left)) B) as Ht.
  destruct (merge_root f sample st) as [root st1]. destruct Hm as [M1 Hroot], Ht as (Fr1 & B1 & Hsum), Hget as (Hg & Hold & Hl).
  destruct frames as [|f' frames].
  { cbn. split_and!; [done| |done|done|intros f0 [= <-]; by rewrite Hg]. eapply balanced_ext; [|exact B1]. intros i _ _. cbn beta.
    unfold pending. rewrite Hg. f_equal. destruct (decide (i = root)) as [->|]; [by rewrite decide_True|by rewrite decide_False by congruence]. }
  destruct (children_times N0 K (f' :: frames) sample root st1 e ltac:(intros i Hi; apply He; lia) M1 Fr1 HK
    ltac:(intros; apply Hfr; by right) ltac:(done) Hroot B1) as (Fr2 & B2 & Emap & Hdur).
  cbn zeta. rewrite Emap. split_and!; [done| | |done|done].
  - eapply balanced_ext; [|exact B2]. intros. cbn. lia.
  - rewrite <- Hsum. f_equal. apply list_fmap_ext. intros k r Hk. by apply Hdur, list_elem_of_lookup_2 with k.
Qed.

Section Samples.
Context (ebpf : gmap Z (list FileCallChain)) (type : jsstring) (hideEvent hideThread topDown : bool).

Abbreviation frames_of := (sample_frames ebpf type hideEvent hideThread topDown).

(** Beans that are no roots have no such time. *)
Lemma single_time_none N0 st samples i :
  merging N0 st -> (length (ts_beans st) <= i)%nat -> single_time frames_of (ts_map st) samples i = 0.
Proof.
  intros M Hi. apply zsum_all_zero. intros x _. unfold single_of. destruct (frames_of x) as [|f [|]]; try done.
  case_decide as H; [|done]. apply map_get_value, (mg_root _ _ M) in H as (_ & n & Hn & _). apply lookup_lt_Some in Hn. lia.
Qed.

Lemma merge_samples_times N0 K seen samples st :
  merging N0 st -> framed N0 K (ts_beans st) -> frames_ok K ->
  (forall x, x ∈ samples -> forall f, f ∈ frames_of x -> f ∈ K) ->
  balanced N0 (ts_beans st) (single_time frames_of (ts_map st) seen) ->
  (forall x f, x ∈ seen -> frames_of x = [f] -> is_Some (map_get (ts_map st) (root_key f (fs_pid x)))) ->
  let st' := merge_samples ebpf type hideEvent hideThread topDown samples st in
  balanced N0 (ts_beans st') (single_time frames_of (ts_map st') (seen ++ samples)) /\
  zsum (dur_of (ts_beans st') <$> (ts_map st').*2) =
    zsum (dur_of (ts_beans st) <$> (ts_map st).*2) + zsum ((fun x => counted (frames_of x) x) <$> samples).
Proof.
  unfold merge_samples. revert seen st. induction samples as [|x samples IH]; intros seen st M Fr HK Hx B Hseen.
  { rewrite app_nil_r. split; [done|cbn; lia]. }
  cbn [foldl].
  destruct (merge_sample_times N0 K st (frames_of x) x (single_time frames_of (ts_map st) seen)) as (Fr1 & B1 & E1 & Hold & Hnew);
    [intros; by eapply single_time_none|done..|apply Hx; by left|done|].
  set (st1 := merge_sample (frames_of x) x st) in *.
  assert (Hsame : forall i, single_time frames_of (ts_map st1) seen i = single_time frames_of (ts_map st) seen i).
  { intros i. unfold single_time. f_equal. apply list_fmap_ext. intros k y Hy. apply list_elem_of_lookup_2 in Hy.
    unfold single_of. destruct (frames_of y) as [|f [|]] eqn:Ef; try done. destruct (Hseen y f Hy Ef) as [r Hr].
    by rewrite Hr, (Hold _ _ Hr). }
  destruct (IH (seen ++ [x]) st1 (merge_sample_merging N0 (frames_of x) x st M) Fr1 HK ltac:(intros; by eapply Hx; [right|])) as [B2 E2].
  - eapply balanced_ext; [|exact B1]. intros i _ _. cbn beta. rewrite single_time_app, Hsame. f_equal.
    unfold single_time. cbn. lia.
  - intros y f [Hy| ->%list_elem_of_singleton]%elem_of_app Ef; [|by apply Hnew].
    destruct (Hseen y f Hy Ef) as [r Hr]. rewrite (Hold _ _ Hr). by eexists.
  - rewrite <- app_assoc in B2. split; [done|]. rewrite E2, E1, fmap_cons. cbn [zsum foldr]. unfold zsum. lia.
Qed.
End Samples.

(** ** The processes *)

Lemma merge_process_times N0 N1 s1 s m seen total r e :
  (forall i, (N1 <= i)%nat -> e i = 0) ->
  (forall i n c, (N0 <= i)%nat -> s1 !! i = Some n -> c ∈ mb_initChildren n -> (c < N1)%nat) ->
  processing N0 N1 s1 s m seen -> length s1 = N1 -> (r < N1)%nat -> r ∉ seen ->
  balanced N0 s e ->
  let '(s', m') := merge_process total (s, m) r in
  balanced N0 s' e /\
  zsum (dur_of s' <$> m'.*2) = zsum (dur_of s <$> m.*2) + dur_of s r /\ (forall i, (i < N1)%nat -> dur_of s' i = dur_of s i).
Proof.
  intros He Hsm P Hlen Hr Hnew B. pose proof (po_len _ _ _ _ _ _ P) as Hl.
  destruct (lookup_lt_is_Some_2 s1 r ltac:(lia)) as [n Hn]. pose proof (po_rest _ _ _ _ _ _ P r Hr Hnew) as Hsr. rewrite Hn in Hsr.
  assert (Hm : forall p, p ∈ m.*2 <-> (N1 <= p < length s)%nat) by (intros p; rewrite (po_vals _ _ _ _ _ _ P), elem_of_seq; lia).
  pose proof (merge_process_lookup total s m r n Hsr ltac:(rewrite Hm; lia) ltac:(intros p Hp; apply Hm in Hp; lia)) as H.
  destruct (merge_process total (s, m) r) as [s' m']. destruct H as (p & q' & Hpr & Hlook & Hcase).
  assert (Hp : (N1 <= p)%nat) by (destruct Hcase as [(-> & _)|(q & _ & Hp%Hm & _)]; lia).
  assert (Hdur : forall i, i <> p -> dur_of s' i = dur_of s i).
  { intros i Hi. unfold dur_of. rewrite Hlook. destruct (decide (i = r)) as [->|]; [by rewrite Hsr|]. by rewrite decide_False. }
  assert (Hdp : dur_of s' p = dur_of s p + dur_of s r).
  { unfold dur_of. rewrite Hlook, decide_False, decide_True, Hsr by done.
    destruct Hcase as [(-> & _ & _ & -> & _)|(q & -> & _ & _ & -> & _)]; [|done]. by rewrite (lookup_ge_None_2 s) by lia. }
  assert (Hkids : forall i y c, (N0 <= i)%nat -> s !! i = Some y -> c ∈ mb_initChildren y -> c <> p).
  { intros i y c Hi Hy Hc. destruct (decide (i < N1)%nat) as [Hlt|Hge].
    - destruct (decide (i ∈ seen)) as [Hs|Hs].
      + destruct (po_seen _ _ _ _ _ _ P i Hs) as (ni & pi & _ & H1 & H2 & _). rewrite Hy in H2. injection H2 as ->.
        pose proof (Hsm i ni c Hi H1 Hc). lia.
      + rewrite (po_rest _ _ _ _ _ _ P i Hlt Hs) in Hy. pose proof (Hsm i y c Hi Hy Hc). lia.
    - destruct (po_down _ _ _ _ _ _ P i y ltac:(lia) Hy) as (_ & _ & _ & Hd). destruct (Hd c Hc) as [Hs _].
      destruct (po_seen _ _ _ _ _ _ P c Hs) as (nc & _ & _ & H1 & _). apply lookup_lt_Some in H1. lia. }
  assert (Hsums : forall i y, (N0 <= i)%nat -> s !! i = Some y -> dur_of s' <$> mb_initChildren y = dur_of s <$> mb_initChildren y).
  { intros i y Hi Hy. apply list_fmap_ext. intros k c Hk. apply Hdur, (Hkids i y c Hi Hy). by eapply list_elem_of_lookup_2. }
  split_and!; [|destruct Hcase as [(-> & -> & _)|(q & Hq & Hin & -> & _)]|intros i Hi; apply Hdur; lia].
  - intros i y Hi. rewrite Hlook. destruct (decide (i = r)) as [->|Hir].
    { intros [= <-]. cbn [set_parentNode mb_rest mb_initChildren]. rewrite (Hsums r n Hi Hsr). exact (B r n Hi Hsr). }
    destruct (decide (i = p)) as [->|Hip]; [|intros Hy; rewrite (Hsums i y Hi Hy); exact (B i y Hi Hy)]. intros [= <-].
    assert (Hr' : dur_of s' r = fd_dur (mb_rest n)) by (rewrite Hdur by done; unfold dur_of; by rewrite Hsr).
    destruct Hcase as [(_ & _ & _ & -> & _)|(q & Hq & _ & _ & -> & _)]; cbn -[zsum].
    + cbn. rewrite Hr', He by lia. lia.
    + rewrite fmap_app, zsum_app, (Hsums p q Hi Hq). cbn [fmap list_fmap]. unfold zsum at 2. cbn [foldr]. rewrite Hr'.
      pose proof (B p q Hi Hq) as E. cbn beta in E. lia.
  - rewrite fmap_app, zsum_app. unfold zsum at 2. cbn [fmap list_fmap foldr]. rewrite Hdp.
    replace (dur_of s (length s)) with 0 by (unfold dur_of; by rewrite lookup_ge_None_2).
    replace (dur_of s' <$> m.*2) with (dur_of s <$> m.*2); [lia|]. apply list_fmap_ext. intros k c Hk. symmetry.
    apply Hdur. apply list_elem_of_lookup_2, Hm in Hk. lia.
  - assert (HN : NoDup m.*2) by (rewrite (po_vals _ _ _ _ _ _ P); apply NoDup_seq).
    apply (zsum_update _ _ p); [done..|]. intros w. destruct (decide (w = p)) as [->|]; auto.
Qed.

Lemma mergeNodeData_times N0 total st e :
  (forall i, (length (ts_beans st) <= i)%nat -> e i = 0) ->
  merging N0 st -> balanced N0 (ts_beans st) e ->
  let '(s, m) := mergeNodeData total st in
  balanced N0 s e /\ zsum (dur_of s <$> m.*2) = zsum (dur_of (ts_beans st) <$> (ts_map st).*2).
Proof.
  intros He M B. unfold mergeNodeData. set (s1 := ts_beans st).
  assert (Hperm : zsum (dur_of s1 <$> (ts_map st).*2) = zsum (dur_of s1 <$> Object_values (ts_map st)))
    by (by rewrite Object_values_perm). rewrite Hperm.
  pose proof (processing_start N0 st M) as Hstart.
  assert (Hrs : forall r, r ∈ Object_values (ts_map st) -> (r < length s1)%nat).
  { intros r. rewrite Object_values_perm. intros (_ & n & Hn & _)%(mg_root _ _ M). by apply lookup_lt_Some in Hn. }
  assert (HN : NoDup (Object_values (ts_map st))) by (rewrite Object_values_perm; apply M).
  assert (Hsm : forall i n c, (N0 <= i)%nat -> s1 !! i = Some n -> c ∈ mb_initChildren n -> (c < length s1)%nat)
    by apply (merging_small _ _ M).
  revert HN Hrs. cut (forall rs seen s m, processing N0 (length s1) s1 s m seen -> balanced N0 s e ->
    NoDup (seen ++ rs) -> (forall r, r ∈ rs -> (r < length s1)%nat) -> (forall i, (i < length s1)%nat -> dur_of s i = dur_of s1 i) ->
    let '(s', m') := foldl (merge_process total) (s, m) rs in
    balanced N0 s' e /\ zsum (dur_of s' <$> m'.*2) = zsum (dur_of s <$> m.*2) + zsum (dur_of s1 <$> rs)).
  { intros H HN Hrs. specialize (H (Object_values (ts_map st)) [] s1 [] Hstart B HN Hrs ltac:(done)).
    destruct (foldl _ _ _) as [s' m']. destruct H as [? ->]. split; [done|]. cbn. lia. }
  induction rs as [|r rs IH]; intros seen s m P Bs HN Hrs Hd; [cbn; split; [done|lia]|]. cbn [foldl].
  assert (Hr : (r < length s1)%nat) by (apply Hrs; by left).
  assert (Hnew : r ∉ seen).
  { apply NoDup_app in HN as (_ & HN & _). intros Hin. apply (HN r Hin). by left. }
  pose proof (merge_process_processing _ _ _ _ _ _ total r P eq_refl Hr Hnew) as P'.
  pose proof (merge_process_times _ _ _ _ _ _ total r e He Hsm P eq_refl Hr Hnew Bs) as T.
  destruct (merge_process total (s, m) r) as [s2 m2]. destruct T as (B2 & E2 & D2).
  specialize (IH (seen ++ [r]) s2 m2 P' B2 ltac:(by rewrite <- app_assoc) ltac:(intros; apply Hrs; by right)
    ltac:(intros i Hi; rewrite D2 by done; by apply Hd)).
  destruct (foldl _ _ _) as [s' m']. destruct IH as [? ->]. split; [done|]. rewrite E2, fmap_cons, Hd by done. cbn [zsum foldr].
  unfold zsum. lia.
Qed.

(** ** Names and ids leave times alone *)

Definition times (n : FileMerageBean) : Z * Z * list nat := (fd_dur (mb_rest n), fd_selfDur (mb_rest n), mb_initChildren n).

Definition same_times (s s' : list FileMerageBean) : Prop := times <$> s = times <$> s'.

#[export] Instance same_times_equiv : Equivalence same_times.
Proof. unfold same_times. split; red; [done|by symmetry|congruence]. Qed.

Lemma times_lookup s s' i n :
  same_times s s' -> s !! i = Some n -> exists n', s' !! i = Some n' /\ times n = times n'.
Proof.
  intros H Hi. apply (f_equal (.!! i)) in H. rewrite !list_lookup_fmap, Hi in H.
  destruct (s' !! i) as [n'|]; [|done]. apply (inj Some) in H. eauto.
Qed.

#[export] Instance dur_of_times : Proper (same_times ==> eq ==> eq) dur_of.
Proof.
  intros s s' Hs i _ <-. unfold dur_of. destruct (s !! i) as [n|] eqn:Hn.
  - destruct (times_lookup _ _ _ _ Hs Hn) as (n' & -> & [= E _ _]). done.
  - destruct (s' !! i) as [n'|] eqn:Hn'; [|done]. destruct (times_lookup _ _ _ _ (symmetry Hs) Hn') as (? & ? & _). congruence.
Qed.

Lemma balanced_times N0 s s' e : same_times s s' -> balanced N0 s e -> balanced N0 s' e.
Proof.
  intros Hs B i n Hi Hn. destruct (times_lookup _ _ _ _ (symmetry Hs) Hn) as (n' & Hn' & [= E1 E2 E3]).
  rewrite E1, E2, E3, (B i n' Hi Hn'). do 3 f_equal. apply list_fmap_ext. intros. by rewrite Hs.
Qed.

Lemma alter_times f i s : (forall n, times (f n) = times n) -> same_times s (alter f i s).
Proof.
  intros Hf. unfold same_times. apply list_eq. intros j. rewrite !list_lookup_fmap.
  destruct (decide (i = j)) as [->|Hne]; [|by rewrite list_lookup_alter_ne].
  rewrite list_lookup_alter_eq. destruct (s !! j); [|done]. cbn [fmap option_fmap option_map]. by rewrite Hf.
Qed.

Lemma handle_current_times dict total st i : same_times st.1 (handle_current dict total st i).1.
Proof.
  assert (Hgive : forall j st, same_times st.1 (give_id j st).1).
  { clear. intros j [s id]. cbn. destruct (s !! j) as [n|] eqn:E; [|done]. destruct (bool_decide _); [|done]. cbn.
    rewrite <- (list_insert_id s j n E) at 1. unfold same_times. by rewrite !list_fmap_insert. }
  destruct st as [s id]. unfold handle_current. set (s1 := alter _ i s).
  assert (H1 : same_times s s1).
  { apply alter_times. intros n. unfold setMerageName. by destruct (fd_pathId _ =? -1). }
  pose proof (Hgive i (s1, id)) as H2. destruct (give_id i (s1, id)) as [s2 id2]. cbn [fst] in *.
  destruct (s2 !! i ≫= mb_parentNode) as [p|]; [|by etrans].
  pose proof (Hgive p (s2, id2)) as H3. destruct (give_id p (s2, id2)) as [s3 id3]. cbn [fst] in *.
  do 2 (etrans; [done|]). etrans; [exact H3|]. by apply alter_times.
Qed.

Lemma handleCurrentTreeList_times dict total l s : same_times s (handleCurrentTreeList dict total l s).
Proof.
  unfold handleCurrentTreeList. change s with (s, 0).1 at 1. generalize (s, 0). induction l as [|i l IH]; intros st; [done|].
  cbn. etrans; [apply handle_current_times|apply IH].
Qed.

(** ** The theorem *)

(** C16: Times add up.  When frames with the same address are of the same symbol and
    file, the tree built from any samples, in either direction and on top of whatever
    the handler had before, accounts for them exactly: the time of every bean below the
    processes, and of every process, is its own time, that of its children and that of
    the samples whose chain is the single frame of this bean (the code counts such a
    sample as nobody's own time); and the times of the processes are the durations of
    the samples that have frames. *)
Theorem times_add_up dict ebpf topDown samples t K :
  frames_ok K ->
  let frames := sample_frames ebpf (ft_currentDataType t) (ft_isHideEvent t) (ft_isHideThread t) topDown in
  (forall x, x ∈ samples -> forall f, f ∈ frames x -> f ∈ K) ->
  let t' := freshCurrentCallChains dict ebpf samples topDown t in
  (forall i n, i ∈ ft_currentTreeList t' ++ ft_allProcess t' -> ft_beans t' !! i = Some n ->
     fd_dur (mb_rest n) = fd_selfDur (mb_rest n) + zsum (dur_of (ft_beans t') <$> mb_initChildren n)
       + single_time frames (ft_currentTreeMapData t') samples i) /\
  zsum (dur_of (ft_beans t') <$> ft_allProcess t') = zsum (fs_dur <$> filter (fun x => frames x <> []) samples).
Proof.
  intros HK frames Hx t'. set (N0 := length (ft_beans t)).
  pose proof (merging_start (ft_beans t)) as M0. fold N0 in M0.
  set (st0 := {| ts_beans := ft_beans t; ts_map := []; ts_list := [] |}) in *.
  assert (Hno : forall i (n : FileMerageBean), (N0 <= i)%nat -> ft_beans t !! i = Some n -> False)
    by (intros i n Hi Hn; apply lookup_lt_Some in Hn; lia).
  assert (Fr0 : framed N0 K (ts_beans st0)) by (split; intros; by exfalso; eapply Hno).
  pose proof (merge_samples_merging ebpf (ft_currentDataType t) (ft_isHideEvent t) (ft_isHideThread t) topDown samples N0 st0 M0) as M1.
  destruct (merge_samples_times ebpf (ft_currentDataType t) (ft_isHideEvent t) (ft_isHideThread t) topDown N0 K [] samples st0 M0 Fr0 HK Hx)
    as [B1 E1]; [intros i n Hi Hn; by exfalso; eapply Hno|set_solver|]. rewrite app_nil_l in B1.
  unfold t', freshCurrentCallChains. fold st0. set (st := merge_samples _ _ _ _ _ _ st0) in *.
  pose proof (mergeNodeData_processing N0 (zsum (fs_dur <$> samples)) st M1) as P.
  pose proof (mergeNodeData_times N0 (zsum (fs_dur <$> samples)) st _ ltac:(intros; by eapply single_time_none) M1 B1) as T.
  destruct (mergeNodeData _ st) as [s m]. cbn [ft_beans ft_currentTreeList ft_allProcess ft_currentTreeMapData]. destruct T as [B2 E2].
  pose proof (handleCurrentTreeList_times dict (zsum (fs_dur <$> samples)) (ts_list st) s) as Hs.
  pose proof (balanced_times _ _ _ _ Hs B2) as B3. set (s' := handleCurrentTreeList _ _ _ _) in *. split.
  - intros i n Hi Hn. apply (B3 i n); [|done].
    pose proof (po_len _ _ _ _ _ _ P). rewrite elem_of_app, (mg_list _ _ M1), Object_values_perm, (po_vals _ _ _ _ _ _ P), !elem_of_seq in Hi. lia.
  - rewrite (Object_values_perm m). transitivity (zsum (dur_of s <$> m.*2)).
    { f_equal. apply list_fmap_ext. intros. by rewrite Hs. }
    rewrite E2, E1. cbn [st0 ts_map fmap list_fmap]. rewrite Z.add_0_l. clear. induction samples as [|x l IH]; [done|].
    rewrite fmap_cons, filter_cons. cbn [zsum foldr]. fold frames. unfold zsum in IH. fold frames in IH. rewrite IH. unfold counted.
    destruct (decide (frames x <> [])) as [H|H].
    + by rewrite bool_decide_false.
    + rewrite bool_decide_true; [done|]. by apply dec_stable.
Qed.

(** With the event and the thread hidden: a chain of two frames, one of the first frame
    alone, and one without frames. *)
Definition ex_frame (symbol path : Z) (ip : jsstring) : FileCallChain :=
  {| fc_callChainId := 7; fc_symbolsId := Some symbol; fc_pathId := path; fc_ip := ip; fc_isThread := false |}.

Definition ex_sample (chain dur : Z) : FileSample :=
  {| fs_type := 2; fs_callChainId := chain; fs_dur := dur; fs_pid := 10; fs_tid := 11; fs_threadName := [];
     fs_processName := js "app"; fs_ts := 3 |}.

Definition ex_chains : gmap Z (list FileCallChain) :=
  <[7 := [ex_frame 1 2 (js "0x1"); ex_frame 3 2 (js "0x2")]]> (<[8 := [ex_frame 1 2 (js "0x9")]]> ∅).

Definition ex_samples : list FileSample := [ex_sample 7 5; ex_sample 8 20; ex_sample 9 300].

Abbreviation ex_handler := (set_flags true true [] [] (new_FileSystemCallTreeHandler (js "fileSystem"))).
Abbreviation ex_frames_of := (sample_frames ex_chains (js "fileSystem") true true true).

Definition ex_known : list FileCallChain := concat (ex_frames_of <$> ex_samples).

Lemma times_add_up_witness :
  let t' := freshCurrentCallChains ∅ ex_chains ex_samples true ex_handler in
  ((fun n => (fd_dur (mb_rest n), fd_selfDur (mb_rest n), mb_initChildren n)) <$> ft_beans t' =
     [(25, 0, [1%nat]); (5, 5, []); (25, 0, [0%nat])] /\
   single_time ex_frames_of (ft_currentTreeMapData t') ex_samples 0 = 20) /\
  (forall i n, i ∈ ft_currentTreeList t' ++ ft_allProcess t' -> ft_beans t' !! i = Some n ->
     fd_dur (mb_rest n) = fd_selfDur (mb_rest n) + zsum (dur_of (ft_beans t') <$> mb_initChildren n)
       + single_time ex_frames_of (ft_currentTreeMapData t') ex_samples i) /\
   zsum (dur_of (ft_beans t') <$> ft_allProcess t') =
     zsum (fs_dur <$> filter (fun x => ex_frames_of x <> []) ex_samples).
Proof.
  split; [split; vm_compute; reflexivity|].
  apply (times_add_up ∅ ex_chains true ex_samples ex_handler ex_known).
  - assert (H : Forall (fun f => Forall (fun g => bool_decide (fc_ip f = fc_ip g) = true ->
      fc_symbolsId f = fc_symbolsId g /\ fc_pathId f = fc_pathId g) ex_known) ex_known)
      by (apply (bool_decide_unpack _); vm_compute; exact I).
    intros f g Hf Hg E. rewrite Forall_forall in H. specialize (H f Hf). rewrite Forall_forall in H.
    apply (H g Hg). by apply bool_decide_eq_true.
  - assert (H : Forall (fun x => Forall (fun f => f ∈ ex_known) (ex_frames_of x)) ex_samples)
      by (apply (bool_decide_unpack _); vm_compute; exact I).
    intros x Hx. rewrite Forall_forall in H. specialize (H x Hx). rewrite Forall_forall in H. exact H.
Defined.

(** A chain of one frame is merged as a root, never as an end: with the event and
    the thread hidden its time is nobody's own. *)
Example single_frame_time_lost :
  let t := set_flags true true [] [] (new_FileSystemCallTreeHandler (js "fileSystem")) in
  let t' := freshCurrentCallChains ∅ ex_chains [ex_sample 8 20] true t in
  (fun n => (fd_dur (mb_rest n), fd_selfDur (mb_rest n), mb_initChildren n)) <$> ft_beans t' = [(20, 0, []); (20, 0, [0%nat])].
Proof. vm_compute. reflexivity. Qed.

(** The key of a root is its ids side by side, so symbol 1 of file 23 and symbol 12
    of file 3 share a root. *)
Example root_keys_collide :
  let chains := <[7 := [ex_frame 1 23 (js "0x1"); ex_frame 4 5 (js "0x2")]]>
                (<[8 := [ex_frame 12 3 (js "0x3"); ex_frame 4 5 (js "0x2")]]> ∅) in
  let t := set_flags true true [] [] (new_FileSystemCallTreeHandler (js "fileSystem")) in
  let t' := freshCurrentCallChains ∅ chains [ex_sample 7 5; ex_sample 8 20] true t in
  (fun n => (fd_symbolsId (mb_rest n), fd_dur (mb_rest n))) <$> ft_beans t' = [(Some 1, 25); (Some 4, 25); (Some 0, 25)].
Proof. vm_compute. reflexivity. Qed.
