(* ===== verification/JsChart.v ===== *)
(** * The flame chart of the JavaScript CPU profiler

    [trace/database/data-trafic/ArkTsReceiver.ts] turns the samples of the profiler
    and the nodes of its call chain into a forest of chart frames, sends it as
    arrays to the page ([ArkTsSender.ts]), where [component/chart/SpArkTsChart.ts]
    links the frames again.  A frame that was merged into is always the last child
    of the last child ... of the last tree, so the objects the code changes in place
    are positions on the last spine of a tree.  Functions return [None] when the
    code throws or does not return. *)

From S2P Require Import Prelude JsRuntime HeapModel CallTree.

(** ** Data *)

(** A node of the call chain; [jp_depth] is [None] for [undefined] and [NaN], and a
    missing [childrenString] is the empty text. *)
Record JsProfilerSymbol := {
  jp_id : Z;
  jp_nameId : Z;
  jp_urlId : Z;
  jp_line : Z;
  jp_column : Z;
  jp_parentId : Z;
  jp_depth : option Z;
  jp_children : option (list Z);
  jp_childrenIds : list Z;
  jp_childrenString : jsstring;
}.

Record JsCpuProfilerSample := {
  cs_id : Z;
  cs_functionId : Z;
  cs_startTime : Z;
  cs_endTime : Z;
  cs_dur : Z;
}.

Definition new_JsCpuProfilerSample : JsCpuProfilerSample :=
  {| cs_id := 0; cs_functionId := 0; cs_startTime := 0; cs_endTime := 0; cs_dur := 0 |}.

(** A row of a query: the object itself, or wrapped in a message of the binary
    format. *)
Record row (A : Type) := { row_own : A; row_cpuProfilerData : option A }.
Arguments row_own {A} _.
Arguments row_cpuProfilerData {A} _.

(** The fields of a frame of the chart apart from its children. *)
Record frame_data := {
  cf_id : Z;
  cf_nameId : Z;
  cf_urlId : Z;
  cf_line : Z;
  cf_column : Z;
  cf_depth : option Z;
  cf_startTime : Z;
  cf_endTime : Z;
  cf_selfTime : Z;
  cf_totalTime : Z;
  cf_parentId : Z;
  cf_childrenIds : list Z;
  cf_samplesIds : list Z;
  cf_isSelect : bool;
  cf_scriptName : jsstring;
}.

Inductive JsCpuProfilerChartFrame := Frame (d : frame_data) (children : list JsCpuProfilerChartFrame).

Definition data_of (f : JsCpuProfilerChartFrame) : frame_data := let 'Frame d _ := f in d.
Definition children_of (f : JsCpuProfilerChartFrame) : list JsCpuProfilerChartFrame := let 'Frame _ cs := f in cs.

Definition with_data (g : frame_data -> frame_data) (f : JsCpuProfilerChartFrame) : JsCpuProfilerChartFrame :=
  let 'Frame d cs := f in Frame (g d) cs.

Definition with_times (endTime selfTime totalTime : Z) (samplesIds : list Z) (d : frame_data) : frame_data :=
  {| cf_id := cf_id d; cf_nameId := cf_nameId d; cf_urlId := cf_urlId d; cf_line := cf_line d; cf_column := cf_column d;
     cf_depth := cf_depth d; cf_startTime := cf_startTime d; cf_endTime := endTime; cf_selfTime := selfTime;
     cf_totalTime := totalTime; cf_parentId := cf_parentId d; cf_childrenIds := cf_childrenIds d;
     cf_samplesIds := samplesIds; cf_isSelect := cf_isSelect d; cf_scriptName := cf_scriptName d |}.

Definition with_links (parentId : Z) (childrenIds : list Z) (d : frame_data) : frame_data :=
  {| cf_id := cf_id d; cf_nameId := cf_nameId d; cf_urlId := cf_urlId d; cf_line := cf_line d; cf_column := cf_column d;
     cf_depth := cf_depth d; cf_startTime := cf_startTime d; cf_endTime := cf_endTime d; cf_selfTime := cf_selfTime d;
     cf_totalTime := cf_totalTime d; cf_parentId := parentId; cf_childrenIds := childrenIds;
     cf_samplesIds := cf_samplesIds d; cf_isSelect := cf_isSelect d; cf_scriptName := cf_scriptName d |}.

(** ** The call chain *)

Definition ROOT_ID : Z := 1.

Definition set_depth (depth : option Z) (s : JsProfilerSymbol) : JsProfilerSymbol :=
  {| jp_id := jp_id s; jp_nameId := jp_nameId s; jp_urlId := jp_urlId s; jp_line := jp_line s; jp_column := jp_column s;
     jp_parentId := jp_parentId s; jp_depth := depth; jp_children := jp_children s; jp_childrenIds := jp_childrenIds s;
     jp_childrenString := jp_childrenString s |}.

Definition add_symbol_child (item : Z) (p : JsProfilerSymbol) : JsProfilerSymbol :=
  let first := bool_decide (jp_children p = None) in
  {| jp_id := jp_id p; jp_nameId := jp_nameId p; jp_urlId := jp_urlId p; jp_line := jp_line p; jp_column := jp_column p;
     jp_parentId := jp_parentId p; jp_depth := jp_depth p; jp_children := Some (default [] (jp_children p) ++ [item]);
     jp_childrenIds := (if first then [] else jp_childrenIds p) ++ [item];
     jp_childrenString := (if first then [] else jp_childrenString p) ++ js_toString 10 item ++ js "," |}.

(** One node: it is entered into the map, and linked to its parent if that is known
    already. *)
Definition link_symbol (jsSymbolMap : gmap Z JsProfilerSymbol) (data : row JsProfilerSymbol) : gmap Z JsProfilerSymbol :=
  let item := default (row_own data) (row_cpuProfilerData data) in
  let item := if jp_id item =? ROOT_ID then set_depth (Some (-1)) item else item in
  let m := <[jp_id item := item]> jsSymbolMap in
  if 0 <? jp_parentId item then
    match m !! jp_parentId item with
    | Some parentSymbol =>
        alter (set_depth (Z.add 1 <$> jp_depth parentSymbol)) (jp_id item)
          (alter (add_symbol_child (jp_id item)) (jp_parentId item) m)
    | None => m
    end
  else m.

Definition createCallChain (jsCallChain : list (row JsProfilerSymbol)) (jsSymbolMap : gmap Z JsProfilerSymbol) :
    gmap Z JsProfilerSymbol :=
  foldl link_symbol jsSymbolMap jsCallChain.

(** The callers of a node, outermost first, in front of [callChain]. *)
Fixpoint call_chain_from (fuel : nat) (jsSymbolMap : gmap Z JsProfilerSymbol) (node : JsProfilerSymbol)
    (callChain : list JsProfilerSymbol) : option (list JsProfilerSymbol) :=
  if jp_parentId node =? 0 then Some callChain
  else
    match jsSymbolMap !! jp_parentId node with
    | None => Some callChain
    | Some parent =>
        if jp_id parent <=? ROOT_ID then Some callChain
        else match fuel with 0%nat => None | S fuel => call_chain_from fuel jsSymbolMap parent (parent :: callChain) end
    end.

Definition getFullCallChainOfNode (jsSymbolMap : gmap Z JsProfilerSymbol) (node : JsProfilerSymbol) :
    option (list JsProfilerSymbol) :=
  call_chain_from (size jsSymbolMap) jsSymbolMap node [node].

(** ** Frames *)

Definition symbolToChartFrame (sample : JsCpuProfilerSample) (symbol : JsProfilerSymbol) (chartId : Z) :
    JsCpuProfilerChartFrame :=
  Frame {| cf_id := chartId; cf_nameId := jp_nameId symbol; cf_urlId := jp_urlId symbol; cf_line := jp_line symbol;
           cf_column := jp_column symbol; cf_depth := jp_depth symbol; cf_startTime := cs_startTime sample;
           cf_endTime := cs_endTime sample; cf_selfTime := 0; cf_totalTime := cs_dur sample; cf_parentId := -1;
           cf_childrenIds := []; cf_samplesIds := [cs_id sample]; cf_isSelect := false; cf_scriptName := js "unknown" |} [].

(** [parent.children.push(child); parent.childrenIds.push(child.id); child.parentId = parent.id] *)
Definition push_frame (child parent : JsCpuProfilerChartFrame) : JsCpuProfilerChartFrame :=
  let 'Frame d cs := parent in
  Frame (with_links (cf_parentId d) (cf_childrenIds d ++ [cf_id (data_of child)]) d)
    (cs ++ [with_data (fun e => with_links (cf_id d) (cf_childrenIds e) e) child]).

Definition add_self (dur : Z) : JsCpuProfilerChartFrame -> JsCpuProfilerChartFrame :=
  with_data (fun d => with_times (cf_endTime d) (cf_selfTime d + dur) (cf_totalTime d) (cf_samplesIds d) d).

(** The frames of a stack, each the only child of the one before; the numbers go
    from [chartId] down the stack. *)
Fixpoint createNewChartFrame (sample : JsCpuProfilerSample) (stack : list JsProfilerSymbol) (chartId : Z) :
    list JsCpuProfilerChartFrame :=
  match stack with
  | [] => []
  | symbol :: stack =>
      let frame := symbolToChartFrame sample symbol chartId in
      [match createNewChartFrame sample stack (chartId + 1) with
       | [] => add_self (cs_dur sample) frame
       | below => foldl (fun f c => push_frame c f) frame below
       end]
  end.

Definition isSymbolEqual (symbol : JsProfilerSymbol) (d : frame_data) : bool :=
  (jp_nameId symbol =? cf_nameId d) && (jp_urlId symbol =? cf_urlId d).

(** The frame on the last spine of a tree, and changing it. *)
Fixpoint spine (k : nat) (f : JsCpuProfilerChartFrame) : option JsCpuProfilerChartFrame :=
  match k with 0%nat => Some f | S k => last (children_of f) ≫= spine k end.

Definition on_last (g : JsCpuProfilerChartFrame -> JsCpuProfilerChartFrame) (f : JsCpuProfilerChartFrame) :
    JsCpuProfilerChartFrame :=
  let 'Frame d cs := f in Frame d (alter g (pred (length cs)) cs).

Fixpoint at_spine (k : nat) (g : JsCpuProfilerChartFrame -> JsCpuProfilerChartFrame) : JsCpuProfilerChartFrame -> JsCpuProfilerChartFrame :=
  match k with 0%nat => g | S k => on_last (at_spine k g) end.

(** A sample goes on in a frame. *)
Definition touch (sample : JsCpuProfilerSample) : JsCpuProfilerChartFrame -> JsCpuProfilerChartFrame :=
  with_data (fun d => with_times (cs_endTime sample) (cf_selfTime d) (cs_endTime sample - cf_startTime d)
                        (cf_samplesIds d ++ [cs_id sample]) d).

(** The variables of the loop of [combineCallChain]: [lastCallTreeSymbol] and
    [parentCallFrame] as positions on the last spine of the tree. *)
Record combine_state := {
  lp_tree : JsCpuProfilerChartFrame;
  lp_last : nat;
  lp_parent : option nat;
  lp_isEqual : bool;
  lp_chartId : Z;
}.

(** The test of the loop. *)
Definition goes_on (sample : JsCpuProfilerSample) (symbol : JsProfilerSymbol) (idx : Z) (d : frame_data) : bool :=
  isSymbolEqual symbol d && bool_decide (cf_depth d = Some idx) && (cf_endTime d =? cs_startTime sample).

Definition combine_symbol (sample : JsCpuProfilerSample) (idx : Z) (symbol : JsProfilerSymbol) (st : combine_state) :
    option combine_state :=
  match spine (lp_last st) (lp_tree st) with
  | Some l =>
      if lp_isEqual st && goes_on sample symbol idx (data_of l) then
        Some {| lp_tree := at_spine (lp_last st) (touch sample) (lp_tree st);
                lp_last := if bool_decide (children_of l = []) then lp_last st else S (lp_last st);
                lp_parent := Some (lp_last st); lp_isEqual := true; lp_chartId := lp_chartId st |}
      else
        p ← lp_parent st;
        Some {| lp_tree := at_spine p (push_frame (symbolToChartFrame sample symbol (lp_chartId st))) (lp_tree st);
                lp_last := lp_last st; lp_parent := Some (S p); lp_isEqual := false; lp_chartId := lp_chartId st + 1 |}
  | None => None
  end.

Fixpoint combine_loop (sample : JsCpuProfilerSample) (idx : Z) (stack : list JsProfilerSymbol) (st : combine_state) :
    option combine_state :=
  match stack with
  | [] => Some st
  | symbol :: stack =>
      st ← combine_symbol sample idx symbol st;
      if bool_decide (stack = []) then
        p ← lp_parent st;
        Some {| lp_tree := at_spine p (add_self (cs_dur sample)) (lp_tree st); lp_last := lp_last st;
                lp_parent := lp_parent st; lp_isEqual := lp_isEqual st; lp_chartId := lp_chartId st |}
      else combine_loop sample (idx + 1) stack st
  end.

(** The tree with the sample, and the next number. *)
Definition combineCallChain (lastCallTree : JsCpuProfilerChartFrame) (sample : JsCpuProfilerSample)
    (stack : list JsProfilerSymbol) (chartId : Z) : option (JsCpuProfilerChartFrame * Z) :=
  st ← combine_loop sample 0 stack
         {| lp_tree := lastCallTree; lp_last := 0; lp_parent := None; lp_isEqual := true; lp_chartId := chartId |};
  Some (lp_tree st, lp_chartId st).

(** ** The chart *)

Definition sample_of (memory : bool) (data : row JsCpuProfilerSample) : JsCpuProfilerSample :=
  default new_JsCpuProfilerSample (if memory then Some (row_own data) else row_cpuProfilerData data).

(** A sample whose stack is known. *)
Definition combine_stack (sample : JsCpuProfilerSample) (stack : list JsProfilerSymbol)
    (st : list JsCpuProfilerChartFrame * Z) : option (list JsCpuProfilerChartFrame * Z) :=
  let '(combineSample, chartId) := st in
  let new := Some (combineSample ++ createNewChartFrame sample stack chartId, chartId + zlen stack) in
  match last combineSample, stack with
  | Some lastCallChart, symbol :: _ =>
      if isSymbolEqual symbol (data_of lastCallChart) && (cf_endTime (data_of lastCallChart) =? cs_startTime sample) then
        '(tree, chartId) ← combineCallChain lastCallChart sample stack chartId;
        Some (<[pred (length combineSample) := tree]> combineSample, chartId)
      else new
  | _, _ => new
  end.

Definition combine_row (jsSymbolMap : gmap Z JsProfilerSymbol) (memory : bool) (st : list JsCpuProfilerChartFrame * Z)
    (data : row JsCpuProfilerSample) : option (list JsCpuProfilerChartFrame * Z) :=
  let sample := sample_of memory data in
  match jsSymbolMap !! cs_functionId sample with
  | None => Some st
  | Some stackTopSymbol =>
      if jp_id stackTopSymbol =? ROOT_ID then Some st
      else stack ← getFullCallChainOfNode jsSymbolMap stackTopSymbol; combine_stack sample stack st
  end.

(** [chartId] is 0 again after every chart. *)
Definition combineChartData (jsSymbolMap : gmap Z JsProfilerSymbol) (memory : bool) (res : list (row JsCpuProfilerSample)) :
    option (list JsCpuProfilerChartFrame) :=
  fst <$> foldM (combine_row jsSymbolMap memory) res ([], 0).

(** ** Trees *)

Lemma frame_ind' (P : JsCpuProfilerChartFrame -> Prop) :
  (forall d cs, Forall P cs -> P (Frame d cs)) -> forall f, P f.
Proof.
  intros H. fix IH 1. intros [d cs]. apply H. induction cs as [|c cs IHcs]; constructor; [apply IH|exact IHcs].
Qed.

Lemma at_spine_comp k g h f : at_spine k g (at_spine k h f) = at_spine k (fun x => g (h x)) f.
Proof.
  revert f. induction k as [|k IH]; intros [d cs]; [done|]. cbn. f_equal. rewrite length_alter, list_alter_alter_eq.
  apply list_alter_ext; [|done]. intros x _. apply IH.
Qed.

Lemma at_spine_S k g f : at_spine (S k) g f = at_spine k (on_last g) f.
Proof.
  revert f. induction k as [|k IH]; intros [d cs]; [done|]. change (at_spine (S (S k)) g) with (on_last (at_spine (S k) g)).
  cbn [on_last]. cbn [at_spine on_last]. f_equal. apply list_alter_ext; [|done]. intros x _. apply IH.
Qed.

Lemma at_spine_ext k g h f x : spine k f = Some x -> g x = h x -> at_spine k g f = at_spine k h f.
Proof.
  revert f. induction k as [|k IH]; intros [d cs] Hx E; cbn in *; [by injection Hx as ->|]. f_equal.
  apply list_alter_ext; [|done]. intros c Hc. rewrite last_lookup, Hc in Hx. cbn in Hx. by apply IH.
Qed.

Lemma spine_at k g f : spine k (at_spine k g f) = g <$> spine k f.
Proof.
  revert f. induction k as [|k IH]; intros [d cs]; [done|]. cbn. rewrite !last_lookup, length_alter, list_lookup_alter_eq.
  destruct (cs !! _) as [c|]; [|done]. cbn. apply IH.
Qed.

Lemma spine_S k f x : spine k f = Some x -> spine (S k) f = last (children_of x).
Proof.
  revert f. induction k as [|k IH]; intros f Hx; cbn in *.
  - injection Hx as ->. by destruct (last (children_of x)).
  - destruct (last (children_of f)) as [c|]; [|done]. cbn in *. by apply IH.
Qed.

(** ** Merging a stack, recursively *)

(** Putting the frames of a stack below a frame. *)
Definition attach (sample : JsCpuProfilerSample) (stack : list JsProfilerSymbol) (chartId : Z) (f : JsCpuProfilerChartFrame) :
    JsCpuProfilerChartFrame :=
  match createNewChartFrame sample stack chartId with
  | [] => add_self (cs_dur sample) f
  | below => foldl (fun f c => push_frame c f) f below
  end.

(** The stack below a frame that the sample goes on in. *)
Fixpoint graft (sample : JsCpuProfilerSample) (idx : Z) (stack : list JsProfilerSymbol) (chartId : Z)
    (f : JsCpuProfilerChartFrame) : JsCpuProfilerChartFrame * Z :=
  match stack with
  | [] => (add_self (cs_dur sample) f, chartId)
  | symbol :: rest =>
      match last (children_of f) with
      | Some c =>
          if goes_on sample symbol idx (data_of c) then
            let '(c', chartId') := graft sample (idx + 1) rest chartId (touch sample c) in
            (on_last (fun _ => c') f, chartId')
          else (attach sample stack chartId f, chartId + zlen stack)
      | None => (attach sample stack chartId f, chartId + zlen stack)
      end
  end.

Lemma createNew_cons sample symbol stack chartId :
  createNewChartFrame sample (symbol :: stack) chartId = [attach sample stack (chartId + 1) (symbolToChartFrame sample symbol chartId)].
Proof. done. Qed.

Lemma attach_cons sample symbol stack chartId f :
  attach sample (symbol :: stack) chartId f =
    push_frame (attach sample stack (chartId + 1) (symbolToChartFrame sample symbol chartId)) f.
Proof. done. Qed.

Lemma on_last_push g c f :
  (forall e, cf_id (data_of (g c)) = cf_id (data_of c) /\ g (with_data (fun d => with_links e (cf_childrenIds d) d) c) =
     with_data (fun d => with_links e (cf_childrenIds d) d) (g c)) ->
  on_last g (push_frame c f) = push_frame (g c) f.
Proof.
  intros H. destruct f as [d cs]. cbn. rewrite length_app. cbn [length]. rewrite Nat.add_1_r. cbn [pred].
  rewrite alter_app_r_alt by done. rewrite Nat.sub_diag. cbn. destruct (H (cf_id d)) as [-> E].
  by rewrite E.
Qed.

Lemma attach_data sample stack chartId f e :
  cf_id (data_of (attach sample stack chartId f)) = cf_id (data_of f) /\
  attach sample stack chartId (with_data (fun d => with_links e (cf_childrenIds d) d) f) =
    with_data (fun d => with_links e (cf_childrenIds d) d) (attach sample stack chartId f).
Proof. destruct stack as [|symbol stack]; destruct f as [d cs]; [done|]. rewrite !attach_cons. done. Qed.

(** The loop, once it is off the tree, appends the rest of the stack. *)
Lemma combine_loop_new sample idx stack st p :
  stack <> [] -> lp_parent st = Some p -> is_Some (spine p (lp_tree st)) ->
  is_Some (spine (lp_last st) (lp_tree st)) -> (lp_last st <= S p)%nat ->
  (forall symbol rest l, stack = symbol :: rest -> spine (lp_last st) (lp_tree st) = Some l ->
     lp_isEqual st && goes_on sample symbol idx (data_of l) = false) ->
  exists st', combine_loop sample idx stack st = Some st' /\
    lp_tree st' = at_spine p (attach sample stack (lp_chartId st)) (lp_tree st) /\ lp_chartId st' = lp_chartId st + zlen stack.
Proof.
  revert idx st p. induction stack as [|symbol stack IH]; intros idx st p Hne Hp [x Hx] [l Hl] Hle Hoff; [done|].
  cbn [combine_loop]. unfold combine_symbol. rewrite Hl, (Hoff _ _ _ eq_refl Hl), Hp. cbn [mbind option_bind].
  set (new := symbolToChartFrame sample symbol (lp_chartId st)).
  assert (Hdo : forall g, (forall e, cf_id (data_of (g new)) = cf_id (data_of new) /\
      g (with_data (fun d => with_links e (cf_childrenIds d) d) new) = with_data (fun d => with_links e (cf_childrenIds d) d) (g new)) ->
      at_spine (S p) g (at_spine p (push_frame new) (lp_tree st)) = at_spine p (push_frame (g new)) (lp_tree st)).
  { intros g Hg. rewrite at_spine_S, at_spine_comp. eapply at_spine_ext; [exact Hx|]. by apply on_last_push. }
  case_bool_decide as Hend.
  - subst stack. cbn [lp_parent mbind option_bind]. eexists. split; [done|]. cbn [lp_tree lp_chartId]. split; [|done].
    rewrite Hdo; [done|]. intros e. done.
  - edestruct (IH (idx + 1) {| lp_tree := at_spine p (push_frame new) (lp_tree st); lp_last := lp_last st; lp_parent := Some (S p);
        lp_isEqual := false; lp_chartId := lp_chartId st + 1 |} (S p)) as (st' & -> & Ht & Hid); try done; cbn [lp_tree lp_last] in *.
    + rewrite (spine_S p _ (push_frame new x)) by (by rewrite spine_at, Hx).
      destruct x as [d cs]. cbn. by rewrite last_snoc.
    + destruct (decide (lp_last st <= p)%nat) as [Hlp|Hlp].
      * assert (Hsome : forall a b t, (a <= b)%nat -> is_Some (spine b t) -> is_Some (spine a t)).
        { clear. induction a as [|a IHa]; intros b t Hab Hb; [done|]. destruct b as [|b]; [lia|]. cbn in *.
          destruct (last _); [|by destruct Hb]. cbn in *. apply (IHa b); [lia|done]. }
        apply (Hsome _ p); [done|]. by rewrite spine_at, Hx.
      * replace (lp_last st) with (S p) by lia. rewrite (spine_S p _ (push_frame new x)) by (by rewrite spine_at, Hx).
        destruct x as [d cs]. cbn. by rewrite last_snoc.
    + lia.
    + exists st'. split; [done|]. cbn [lp_chartId] in *. rewrite Ht, Hid. split.
      * rewrite Hdo; [done|]. intros e. apply attach_data.
      * rewrite zlen_cons. lia.
Qed.

(** The loop on the tree is [graft]: a frame without children is compared with
    itself once more, which its depth rules out. *)
Lemma combine_loop_graft sample stack : forall idx st k x,
  stack <> [] -> lp_isEqual st = true -> lp_parent st = Some k -> spine k (lp_tree st) = Some x ->
  lp_last st = (if bool_decide (children_of x = []) then k else S k) -> cf_depth (data_of x) = Some (idx - 1) ->
  exists st', combine_loop sample idx stack st = Some st' /\
    lp_tree st' = at_spine k (fun _ => (graft sample idx stack (lp_chartId st) x).1) (lp_tree st) /\
    lp_chartId st' = (graft sample idx stack (lp_chartId st) x).2.
Proof.
  induction stack as [|symbol stack IH]; intros idx st k x Hne He Hp Hx Hl Hd; [done|]. cbn [graft].
  assert (Hoff : forall l, spine (lp_last st) (lp_tree st) = Some l -> goes_on sample symbol idx (data_of l) = false ->
    exists st', combine_loop sample idx (symbol :: stack) st = Some st' /\
      lp_tree st' = at_spine k (fun _ => attach sample (symbol :: stack) (lp_chartId st) x) (lp_tree st) /\
      lp_chartId st' = lp_chartId st + zlen (symbol :: stack)).
  { intros l Hsl Hg. destruct (combine_loop_new sample idx (symbol :: stack) st k) as (st' & E & Ht & Hid); try done.
    - rewrite Hl. case_bool_decide; lia.
    - intros symbol' rest l' [= <- <-] Hl'. rewrite Hsl in Hl'. injection Hl' as <-. by rewrite Hg, andb_false_r.
    - exists st'. split_and!; try done. rewrite Ht. by eapply at_spine_ext. }
  destruct (last (children_of x)) as [c|] eqn:Hlast.
  2:{ apply last_None in Hlast. rewrite bool_decide_true in Hl by done. apply (Hoff x); [by rewrite Hl|].
      unfold goes_on. rewrite Hd, bool_decide_false by (intros [=]; lia). by rewrite andb_false_r. }
  rewrite bool_decide_false in Hl by (by intros E; rewrite E in Hlast).
  assert (Hc : spine (lp_last st) (lp_tree st) = Some c) by (rewrite Hl; by rewrite (spine_S k _ x)).
  destruct (goes_on sample symbol idx (data_of c)) eqn:Hg; [|by apply (Hoff c)].
  cbn [combine_loop]. unfold combine_symbol. rewrite Hc, He, Hg. cbn [andb mbind option_bind lp_parent]. clear Hoff.
  assert (Hdo : forall g, at_spine (S k) (fun _ => g) (at_spine (lp_last st) (touch sample) (lp_tree st)) =
    at_spine k (fun _ => on_last (fun _ => g) x) (lp_tree st)).
  { intros g. rewrite Hl, at_spine_comp, at_spine_S. by eapply at_spine_ext. }
  assert (Hc' : spine (S k) (at_spine (lp_last st) (touch sample) (lp_tree st)) = Some (touch sample c)).
  { rewrite <- Hl, spine_at, Hc. done. }
  case_bool_decide as Hend.
  - subst stack. eexists. split; [done|]. cbn [lp_tree lp_chartId graft fst snd]. split; [|done]. rewrite <- Hdo. rewrite Hl.
    rewrite !at_spine_comp. eapply at_spine_ext; [by rewrite <- Hl|done].
  - edestruct (IH (idx + 1) {| lp_tree := at_spine (lp_last st) (touch sample) (lp_tree st);
      lp_last := if bool_decide (children_of c = []) then lp_last st else S (lp_last st); lp_parent := Some (lp_last st);
      lp_isEqual := true; lp_chartId := lp_chartId st |} (S k) (touch sample c)) as (st' & -> & Ht & Hid); try done.
    + cbn. by rewrite Hl.
    + cbn. rewrite Hl. by destruct c.
    + unfold goes_on in Hg. apply andb_prop in Hg as [[_ Hg]%andb_prop _]. apply bool_decide_eq_true in Hg.
      destruct c as [d cs]. cbn in *. rewrite Hg. f_equal. lia.
    + exists st'. split; [done|]. cbn [lp_tree lp_chartId] in *. rewrite Ht, Hid.
      destruct (graft sample (idx + 1) stack (lp_chartId st) (touch sample c)) as [c' id']. cbn [fst snd]. by rewrite Hdo.
Qed.

Lemma combineCallChain_graft sample symbol rest chartId f :
  goes_on sample symbol 0 (data_of f) = true ->
  combineCallChain f sample (symbol :: rest) chartId = Some (graft sample 1 rest chartId (touch sample f)).
Proof.
  intros Hg. unfold combineCallChain. cbn [combine_loop]. unfold combine_symbol. cbn [spine lp_last lp_tree lp_isEqual lp_chartId at_spine].
  rewrite Hg. cbn [andb mbind option_bind lp_parent]. case_bool_decide as Hend; [by subst rest|].
  edestruct (combine_loop_graft sample rest (0 + 1) {| lp_tree := touch sample f;
      lp_last := if bool_decide (children_of f = []) then 0%nat else 1%nat; lp_parent := Some 0%nat;
      lp_isEqual := true; lp_chartId := chartId |} 0 (touch sample f)) as (st' & -> & Ht & Hid); try done.
  - cbn. by destruct f.
  - unfold goes_on in Hg. apply andb_prop in Hg as [[_ Hg]%andb_prop _]. apply bool_decide_eq_true in Hg.
    destruct f as [d cs]. cbn in *. by rewrite Hg.
  - cbn [mbind option_bind]. rewrite Ht, Hid. cbn [at_spine lp_chartId lp_tree]. by destruct (graft _ _ _ _ _).
Qed.

(** ** Stacks *)

Definition item_of (data : row JsProfilerSymbol) : JsProfilerSymbol := default (row_own data) (row_cpuProfilerData data).

(** The nodes of a profile: different numbers, the root first of all ancestors, and
    every other node after its parent. *)
Definition chain_ok (rows : list (row JsProfilerSymbol)) : Prop :=
  NoDup (jp_id ∘ item_of <$> rows) /\
  forall k data, rows !! k = Some data ->
    (jp_id (item_of data) = ROOT_ID /\ jp_parentId (item_of data) = 0) \/
    (ROOT_ID < jp_id (item_of data) /\ exists j p, (j < k)%nat /\ rows !! j = Some p /\ jp_parentId (item_of data) = jp_id (item_of p)).

(** The map that [createCallChain] makes of them: depths count from the root. *)
Record map_ok (m : gmap Z JsProfilerSymbol) : Prop := {
  mo_id : forall id s, m !! id = Some s -> jp_id s = id;
  mo_depth : forall id s, m !! id = Some s ->
    (id = ROOT_ID /\ jp_parentId s = 0 /\ jp_depth s = Some (-1)) \/
    (ROOT_ID < id /\ exists p d, m !! jp_parentId s = Some p /\ jp_depth p = Some d /\ jp_depth s = Some (d + 1));
  mo_size : forall id s, m !! id = Some s -> exists d, jp_depth s = Some d /\ -1 <= d /\ d + 2 <= Z.of_nat (size m);
}.

Lemma map_ok_empty : map_ok ∅.
Proof. split; intros id s; by rewrite lookup_empty. Qed.

Lemma link_symbol_ok m data :
  map_ok m -> m !! jp_id (item_of data) = None ->
  (jp_id (item_of data) = ROOT_ID /\ jp_parentId (item_of data) = 0) \/
  (ROOT_ID < jp_id (item_of data) /\ is_Some (m !! jp_parentId (item_of data))) ->
  map_ok (link_symbol m data) /\ (forall id, is_Some (link_symbol m data !! id) <-> is_Some (m !! id) \/ id = jp_id (item_of data)).
Proof.
  intros M Hnew Hcase. unfold link_symbol. fold (item_of data). set (item := item_of data) in *. destruct Hcase as [[Hid Hp]|[Hid [p Hp]]].
  - rewrite Hid, Z.eqb_refl. cbn [set_depth jp_id jp_parentId]. rewrite Hp. cbn [Z.ltb Z.compare]. set (it := set_depth _ item).
    rewrite Hid in *. split.
    + split.
      * intros id s [[<- <-]|[? ?]]%lookup_insert_Some; [done|by apply M].
      * intros id s [[<- <-]|[Hne Hs]]%lookup_insert_Some; [by left|]. destruct (mo_depth _ M id s Hs) as [?|(? & q & d & Hq & ?)]; [by left|].
        right. split; [done|]. exists q, d. rewrite lookup_insert_ne; [done|]. intros E. rewrite E in Hnew. congruence.
      * intros id s Hs. rewrite map_size_insert_None by done. apply lookup_insert_Some in Hs as [[<- <-]|[Hne Hs]].
        -- exists (-1). cbn. split_and!; [done|lia|lia].
        -- destruct (mo_size _ M id s Hs) as (d & ? & ? & ?). exists d. split_and!; [done|done|lia].
    + intros id. rewrite lookup_insert_is_Some. split; [intros [->|[_ ?]]; [by right|by left]|].
      intros [Hs| ->]; [|by left]. destruct (decide (ROOT_ID = id)); [by left|by right].
  - assert (Hne : jp_id item <> jp_parentId item) by (intros E; rewrite <- E in Hp; congruence).
    destruct (Z.eqb_spec (jp_id item) ROOT_ID) as [|_]; [lia|].
    assert (Hpid : jp_id p = jp_parentId item) by (by apply M).
    assert (Hpos : 0 <? jp_parentId item = true).
    { apply Z.ltb_lt. destruct (mo_depth _ M _ _ Hp) as [[-> _]|[? _]]; unfold ROOT_ID in *; lia. }
    rewrite Hpos, lookup_insert_ne, Hp by done. destruct (mo_size _ M _ _ Hp) as (dp & Hdp & Hge & Hsz). rewrite Hdp.
    set (it := set_depth (Z.add 1 <$> Some dp) item). set (p' := add_symbol_child (jp_id item) p).
    assert (E : alter (set_depth (Z.add 1 <$> Some dp)) (jp_id item) (alter (add_symbol_child (jp_id item)) (jp_parentId item) (<[jp_id item := item]> m)) =
      <[jp_id item := it]> (<[jp_parentId item := p']> m)).
    { apply map_eq. intros id. destruct (decide (id = jp_id item)) as [->|H1].
      - by rewrite lookup_alter_eq, lookup_alter_ne, !lookup_insert_eq by done.
      - rewrite lookup_alter_ne, (lookup_insert_ne _ (jp_id item)) by done. destruct (decide (id = jp_parentId item)) as [->|H2].
        + by rewrite lookup_alter_eq, lookup_insert_ne, Hp, lookup_insert_eq by done.
        + by rewrite lookup_alter_ne, !lookup_insert_ne by done. }
    rewrite E. assert (Hlook : forall id s, <[jp_id item := it]> (<[jp_parentId item := p']> m) !! id = Some s ->
      (id = jp_id item /\ s = it) \/ (exists s0, m !! id = Some s0 /\ jp_id s = jp_id s0 /\ jp_parentId s = jp_parentId s0 /\ jp_depth s = jp_depth s0)).
    { intros id s [[<- <-]|[_ [[<- <-]|[_ Hs]]%lookup_insert_Some]]%lookup_insert_Some; [by left|right; by exists p|right; by exists s]. }
    assert (Hfwd : forall id s, m !! id = Some s -> exists s', <[jp_id item := it]> (<[jp_parentId item := p']> m) !! id = Some s' /\ jp_depth s' = jp_depth s).
    { intros id s Hs. rewrite lookup_insert_ne by congruence. destruct (decide (jp_parentId item = id)) as [<-|].
      - rewrite lookup_insert_eq. exists p'. split; [done|]. rewrite Hp in Hs. by injection Hs as <-.
      - rewrite lookup_insert_ne by done. by exists s. }
    split; [split|].
    + intros id s [[-> ->]|(s0 & Hs0 & -> & _)]%Hlook; [done|by apply M].
    + intros id s [[-> ->]|(s0 & Hs0 & _ & -> & ->)]%Hlook.
      * right. split; [done|]. destruct (Hfwd _ _ Hp) as (p2 & Hp2 & Hd2). exists p2, dp. cbn.
        split_and!; [done|congruence|f_equal; lia].
      * destruct (mo_depth _ M id s0 Hs0) as [?|(? & q & d & Hq & Hqd & ?)]; [by left|]. right. split; [done|].
        destruct (Hfwd _ _ Hq) as (q2 & Hq2 & Hd2). exists q2, d. split_and!; [done|congruence|done].
    + intros id s Hs. rewrite map_size_insert_None by (rewrite lookup_insert_ne by done; done).
      rewrite map_size_insert_Some by done. apply Hlook in Hs as [[-> ->]|(s0 & Hs0 & _ & _ & ->)].
      * exists (1 + dp). cbn. split_and!; [done|lia|lia].
      * destruct (mo_size _ M id s0 Hs0) as (d & ? & ? & ?). exists d. split_and!; [done|done|lia].
    + intros id. rewrite !lookup_insert_is_Some. split.
      { intros [->|[_ [<-|[_ ?]]]]; [by right|left; by rewrite Hp|by left]. }
      intros [Hs| ->]; [|by left].
      destruct (decide (jp_id item = id)); [by left|]. right. split; [done|].
      destruct (decide (jp_parentId item = id)); [by left|by right].
Qed.

Lemma createCallChain_ok rows : chain_ok rows -> map_ok (createCallChain rows ∅).
Proof.
  intros [HN Hr]. unfold createCallChain.
  cut (map_ok (foldl link_symbol ∅ rows) /\ forall id, is_Some (foldl link_symbol ∅ rows !! id) <-> id ∈ (jp_id ∘ item_of <$> rows)).
  { by intros [? _]. }
  induction rows as [|data rows IH] using rev_ind.
  - split; [apply map_ok_empty|]. intros id. cbn [foldl]. rewrite lookup_empty. split; [by intros []|set_solver].
  - rewrite fmap_app in HN. apply NoDup_app in HN as (HN & Hdis & _). rewrite foldl_snoc.
    destruct IH as [M Hdom]; [done| |].
    { intros k data' Hk. destruct (Hr k data' (lookup_app_l_Some _ _ _ _ Hk)) as [?|(? & j & p & Hj & Hp & ?)]; [by left|].
      right. split; [done|]. exists j, p. split_and!; try done. apply lookup_lt_Some in Hk. rewrite lookup_app_l in Hp by lia. done. }
    destruct (link_symbol_ok (foldl link_symbol ∅ rows) data M) as [M' Hdom'].
    + destruct (_ !! _) eqn:E; [|done]. exfalso. apply (Hdis (jp_id (item_of data))); [|by apply list_elem_of_singleton].
      apply Hdom. by rewrite E.
    + destruct (Hr (length rows) data) as [?|(? & j & p & Hj & Hp & E)]; [by rewrite lookup_app_r, Nat.sub_diag|by left|].
      right. split; [done|]. apply Hdom. rewrite E. rewrite lookup_app_l in Hp by done.
      apply list_elem_of_fmap. exists p. split; [done|]. by eapply list_elem_of_lookup_2.
    + split; [done|]. intros id. rewrite Hdom', Hdom, fmap_app, elem_of_app. cbn. rewrite list_elem_of_singleton. done.
Qed.

(** A stack: the outermost function first, called by the root, each later one
    called by the one before. *)
Definition is_stack (m : gmap Z JsProfilerSymbol) (stack : list JsProfilerSymbol) : Prop :=
  forall k s, stack !! k = Some s -> m !! jp_id s = Some s /\
    match k with
    | 0%nat => jp_parentId s = ROOT_ID
    | S j => exists p, stack !! j = Some p /\ jp_parentId s = jp_id p
    end.

(** The depth of a function is its place in the stack. *)
Definition deep (stack : list JsProfilerSymbol) : Prop :=
  forall k s, stack !! k = Some s -> jp_depth s = Some (Z.of_nat k).

Lemma call_chain_stack m fuel node acc (d : nat) :
  map_ok m -> m !! jp_id node = Some node -> jp_depth node = Some (Z.of_nat d) -> (d <= fuel)%nat ->
  exists above, call_chain_from fuel m node acc = Some (above ++ acc) /\ is_stack m (above ++ [node]) /\ deep (above ++ [node]) /\
    length above = d.
Proof.
  intros M. revert node acc d. induction fuel as [|fuel IH]; intros node acc d Hn Hd Hf.
  all: destruct (mo_depth _ M _ _ Hn) as [(_ & _ & E)|(Hid & p & dp & Hp & Hdp & E)]; [rewrite Hd in E; injection E; lia|].
  all: assert (Hpos : jp_parentId node =? 0 = false)
         by (apply Z.eqb_neq; destruct (mo_depth _ M _ _ Hp) as [[-> _]|[? _]]; unfold ROOT_ID in *; lia).
  all: cbn [call_chain_from]; rewrite Hpos, Hp; rewrite Hd in E; injection E as E; pose proof (mo_id _ M _ _ Hp) as Hpid.
  all: destruct (Z.leb_spec (jp_id p) ROOT_ID) as [Hle|Hgt].
  1,3: exists [];
       destruct (mo_depth _ M _ _ Hp) as [(Hroot & _ & Hd1)|[? _]]; [|lia]; rewrite Hdp in Hd1; injection Hd1 as ->;
       split_and!; [done| | |cbn; lia];
       [intros [|k] s Hk; [injection Hk as <-; by split|done]
       |intros [|k] s Hk; [injection Hk as <-; rewrite Hd; f_equal; lia|done]].
  - exfalso. destruct (mo_depth _ M _ _ Hp) as [(Hroot & _)|(_ & q & dq & Hq & Hdq & Hd1)]; [lia|].
    destruct (mo_size _ M _ _ Hq) as (dq' & Hdq' & ? & _). rewrite Hdp in Hd1. injection Hd1 as ->. rewrite Hdq in Hdq'. injection Hdq' as <-. lia.
  - destruct (mo_depth _ M _ _ Hp) as [(Hroot & _)|(_ & q & dq & Hq & Hdq & Hd1)]; [lia|].
    destruct (mo_size _ M _ _ Hq) as (dq' & Hdq' & Hge & _). rewrite Hdq in Hdq'. injection Hdq' as <-. rewrite Hdp in Hd1. injection Hd1 as ->.
    destruct d as [|d]; [lia|].
    destruct (IH p (p :: acc) d) as (above & Ec & Hst & Hdeep & Hlen); [by rewrite Hpid|rewrite Hdp; f_equal; lia|lia|].
    exists (above ++ [p]). rewrite Ec, <- app_assoc. split_and!; [done| | |rewrite length_app; cbn; lia].
    + intros k s Hk. apply lookup_app_Some in Hk as [Hk|[Hge' Hk]].
      * destruct (Hst k s Hk) as [? H]. split; [done|]. destruct k as [|j]; [done|]. destruct H as (q' & Hq' & ?). exists q'.
        split; [by apply lookup_app_l_Some|done].
      * rewrite length_app in Hge', Hk. cbn [length] in Hge', Hk. destruct (k - (length above + 1))%nat eqn:Ek; [|done].
        injection Hk as <-. split; [done|]. destruct k as [|j]; [lia|]. exists p. split; [|congruence].
        rewrite lookup_app_l by (rewrite length_app; cbn; lia). replace j with (length above) by lia. by rewrite lookup_app_r, Nat.sub_diag.
    + intros k s Hk. apply lookup_app_Some in Hk as [Hk|[Hge' Hk]]; [by apply Hdeep|].
      rewrite length_app in Hge', Hk. cbn [length] in Hge', Hk. destruct (k - (length above + 1))%nat eqn:Ek; [|done].
      injection Hk as <-. rewrite Hd. do 2 f_equal. lia.
Qed.

Lemma full_chain_stack m node :
  map_ok m -> m !! jp_id node = Some node -> jp_id node <> ROOT_ID ->
  exists above, getFullCallChainOfNode m node = Some (above ++ [node]) /\ is_stack m (above ++ [node]) /\ deep (above ++ [node]).
Proof.
  intros M Hn Hr. destruct (mo_size _ M _ _ Hn) as (d & Hd & Hge & Hsz).
  assert (Hd0 : 0 <= d).
  { destruct (mo_depth _ M _ _ Hn) as [[? _]|(_ & p & dp & Hp & Hdp & E)]; [done|].
    destruct (mo_size _ M _ _ Hp) as (dp' & Hdp' & ? & _). rewrite Hdp in Hdp'. injection Hdp' as <-. rewrite Hd in E. injection E. lia. }
  destruct (call_chain_stack m (size m) node [node] (Z.to_nat d) M Hn) as (above & E & ? & ? & _).
  - rewrite Hd. f_equal. lia.
  - lia.
  - by exists above.
Qed.

(** ** What a chart says *)

Definition frame_key (d : frame_data) : Z * Z := (cf_nameId d, cf_urlId d).
Definition symbol_key (s : JsProfilerSymbol) : Z * Z := (jp_nameId s, jp_urlId s).

(** The functions of the frames that list a sample, from the outside in. *)
Fixpoint path_of (x : Z) (f : JsCpuProfilerChartFrame) : list (Z * Z) :=
  let 'Frame d cs := f in if bool_decide (x ∈ cf_samplesIds d) then frame_key d :: flat_map (path_of x) cs else [].

(** All samples that a tree lists, and all numbers of its frames. *)
Fixpoint samples_of (f : JsCpuProfilerChartFrame) : list Z := let 'Frame d cs := f in cf_samplesIds d ++ flat_map samples_of cs.
Fixpoint ids_of (f : JsCpuProfilerChartFrame) : list Z := let 'Frame d cs := f in cf_id d :: flat_map ids_of cs.

(** Frames side by side are not parts of one call: they are of different functions
    or there is a gap between them. *)
Definition separated (cs : list JsCpuProfilerChartFrame) : Prop :=
  forall k a b, cs !! k = Some a -> cs !! S k = Some b ->
    ~ (frame_key (data_of a) = frame_key (data_of b) /\ cf_endTime (data_of a) = cf_startTime (data_of b)).

Section Chart.
(** The durations of the samples by their numbers. *)
Context (durs : Z -> Z).

(** A frame at depth [n] whose children lack the time [e]. *)
Record node_ok (n e : Z) (d : frame_data) (cs : list JsCpuProfilerChartFrame) : Prop := {
  no_depth : cf_depth d = Some n;
  no_span : cf_totalTime d = cf_endTime d - cf_startTime d;
  no_samples : cf_totalTime d = zsum (durs <$> cf_samplesIds d);
  no_times : cf_totalTime d = cf_selfTime d + zsum ((fun c => cf_totalTime (data_of c)) <$> cs) + e;
  no_separated : separated cs;
  no_children : cf_childrenIds d = (fun c => cf_id (data_of c)) <$> cs;
  no_parent : Forall (fun c => cf_parentId (data_of c) = cf_id d) cs;
}.

Inductive chart_tree : Z -> JsCpuProfilerChartFrame -> Prop :=
  | chart_tree_intro n d cs : node_ok n 0 d cs -> Forall (chart_tree (n + 1)) cs -> chart_tree n (Frame d cs).

(** The same, but for the time [e]. *)
Definition open_tree (n e : Z) (f : JsCpuProfilerChartFrame) : Prop :=
  node_ok n e (data_of f) (children_of f) /\ Forall (chart_tree (n + 1)) (children_of f).

Lemma open_tree_close n f : open_tree n 0 f <-> chart_tree n f.
Proof.
  split; [intros [? ?]; destruct f; by constructor|]. intros H. by inversion H.
Qed.

(** What of a frame the others can see. *)
Definition head (f : JsCpuProfilerChartFrame) :=
  let d := data_of f in (cf_id d, cf_parentId d, frame_key d, cf_startTime d, cf_endTime d, cf_totalTime d, cf_samplesIds d).

Lemma open_links n e p f :
  open_tree n e f -> open_tree n e (with_data (fun d => with_links p (cf_childrenIds d) d) f).
Proof. destruct f as [d cs]. intros [[] ?]. split; [by split|done]. Qed.

Lemma add_self_ok n e f : open_tree n e f -> open_tree n 0 (add_self e f).
Proof. destruct f as [d cs]. intros [[] ?]. split; [|done]. split; cbn in *; try done. lia. Qed.

Lemma separated_snoc cs b :
  separated cs ->
  (forall a, last cs = Some a -> ~ (frame_key (data_of a) = frame_key (data_of b) /\ cf_endTime (data_of a) = cf_startTime (data_of b))) ->
  separated (cs ++ [b]).
Proof.
  intros Hs Hb k x y Hx Hy. apply lookup_app_Some in Hy as [Hy|[Hge Hy]].
  - apply lookup_lt_Some in Hy as Hlt. rewrite lookup_app_l in Hx by lia. by eapply Hs.
  - destruct (S k - length cs)%nat eqn:E; [|done]. injection Hy as <-. apply Hb. rewrite lookup_app_l in Hx by lia.
    rewrite last_lookup. by replace (pred (length cs)) with k by lia.
Qed.

(** One more child, with the missing time. *)
Lemma push_ok n e c f :
  open_tree n e f -> chart_tree (n + 1) c -> cf_totalTime (data_of c) = e ->
  (forall a, last (children_of f) = Some a ->
     ~ (frame_key (data_of a) = frame_key (data_of c) /\ cf_endTime (data_of a) = cf_startTime (data_of c))) ->
  open_tree n 0 (push_frame c f).
Proof.
  destruct f as [d cs]. intros [N Hc] Hn He Hl. pose proof (proj2 (open_tree_close _ _) Hn) as Ho.
  apply (open_links _ _ (cf_id d)), open_tree_close in Ho. destruct N. cbn -[zsum] in *. split; cbn -[zsum].
  - split; cbn -[zsum]; try done.
    + rewrite no_times0, fmap_app, zsum_app, fmap_cons, zsum_one_elem. destruct c. cbn [with_data data_of with_links cf_totalTime] in *. lia.
    + apply separated_snoc; [done|]. destruct c. cbn in *. by apply Hl.
    + rewrite fmap_app, no_children0. cbn. by destruct c.
    + apply Forall_app. split; [done|]. apply Forall_singleton. by destruct c.
  - apply Forall_app. split; [done|by apply Forall_singleton].
Qed.

Section Sample.
(** A sample whose times fit. *)
Context (sample : JsCpuProfilerSample).
Context (Hdur : durs (cs_id sample) = cs_dur sample) (Htime : cs_endTime sample = cs_startTime sample + cs_dur sample).

Definition deep_from (n : Z) (stack : list JsProfilerSymbol) : Prop :=
  forall k s, stack !! k = Some s -> jp_depth s = Some (n + Z.of_nat k).

Lemma deep_from_cons n s stack : deep_from n (s :: stack) -> jp_depth s = Some n /\ deep_from (n + 1) stack.
Proof.
  intros H. split; [rewrite (H 0%nat s) by done; f_equal; lia|]. intros k s' Hk. rewrite (H (S k) s') by done. f_equal. lia.
Qed.

Lemma symbol_open n s chartId : jp_depth s = Some n -> open_tree n (cs_dur sample) (symbolToChartFrame sample s chartId).
Proof. intros Hd. split; [|constructor]. split; cbn; try done; try lia; try constructor. Qed.

Lemma head_attach stack chartId f : head (attach sample stack chartId f) = head f.
Proof. destruct stack; destruct f; done. Qed.

Lemma attach_ok stack : forall n chartId f,
  open_tree n (cs_dur sample) f -> deep_from (n + 1) stack ->
  (forall a s, last (children_of f) = Some a -> List.head stack = Some s ->
     ~ (frame_key (data_of a) = symbol_key s /\ cf_endTime (data_of a) = cs_startTime sample)) ->
  open_tree n 0 (attach sample stack chartId f).
Proof.
  induction stack as [|s stack IH]; intros n chartId f Ho Hd Hl.
  - by apply add_self_ok.
  - apply deep_from_cons in Hd as [Hs Hd]. rewrite attach_cons.
    assert (Hnew : open_tree (n + 1) 0 (attach sample stack (chartId + 1) (symbolToChartFrame sample s chartId)))
      by (apply IH; [by apply symbol_open|done|done]).
    pose proof (head_attach stack (chartId + 1) (symbolToChartFrame sample s chartId)) as Hh. unfold head in Hh. cbn in Hh.
    injection Hh as _ _ Hn Hu Hst _ Ht _. apply (push_ok _ (cs_dur sample)); [done|by apply open_tree_close|done|].
    intros a Ha. unfold frame_key at 2. rewrite Hn, Hu, Hst. by apply Hl.
Qed.

Lemma touch_ok n f : cf_endTime (data_of f) = cs_startTime sample -> open_tree n 0 f -> open_tree n (cs_dur sample) (touch sample f).
Proof.
  destruct f as [d cs]. intros He [[] ?]. split; [|done]. cbn -[zsum] in *. split; cbn -[zsum] in *; try done.
  - rewrite fmap_app, zsum_app, fmap_cons, zsum_one_elem. lia.
  - lia.
Qed.

Lemma on_last_snoc c' d cs c : on_last (fun _ => c') (Frame d (cs ++ [c])) = Frame d (cs ++ [c']).
Proof. cbn. f_equal. rewrite length_app. cbn. rewrite Nat.add_1_r. cbn [pred]. by rewrite alter_app_r_alt, Nat.sub_diag. Qed.

Lemma head_graft stack : forall idx chartId f, head (graft sample idx stack chartId f).1 = head f.
Proof.
  destruct stack as [|s stack]; intros idx chartId f; cbn [graft]; [by destruct f|].
  destruct (last (children_of f)) as [c|]; [|apply head_attach]. destruct (goes_on _ _ _ _); [|apply head_attach].
  destruct (graft _ _ _ _ _). by destruct f.
Qed.

(** A goes-on test that fails for a frame of the right depth. *)
Lemma not_goes_on s idx a :
  cf_depth (data_of a) = Some idx -> goes_on sample s idx (data_of a) = false ->
  ~ (frame_key (data_of a) = symbol_key s /\ cf_endTime (data_of a) = cs_startTime sample).
Proof.
  unfold goes_on, isSymbolEqual, frame_key, symbol_key. intros Hd Hg [[= E1 E2] E3].
  by rewrite Hd, E1, E2, E3, !Z.eqb_refl, bool_decide_true in Hg.
Qed.

Lemma goes_on_true s idx d :
  goes_on sample s idx d = true -> frame_key d = symbol_key s /\ cf_depth d = Some idx /\ cf_endTime d = cs_startTime sample.
Proof.
  unfold goes_on, isSymbolEqual, frame_key, symbol_key. rewrite !andb_true_iff, !Z.eqb_eq, bool_decide_eq_true.
  intros [[[-> ->] ?] ?]. done.
Qed.

Lemma graft_ok stack : forall n chartId f,
  open_tree n (cs_dur sample) f -> deep_from (n + 1) stack -> chart_tree n (graft sample (n + 1) stack chartId f).1.
Proof.
  induction stack as [|s stack IH]; intros n chartId f Ho Hd; cbn [graft].
  { by apply open_tree_close, add_self_ok. }
  assert (Hat : (forall a, last (children_of f) = Some a -> goes_on sample s (n + 1) (data_of a) = false) ->
    chart_tree n (attach sample (s :: stack) chartId f)).
  { intros Hno. apply open_tree_close. apply attach_ok; [done|done|]. intros a s' Ha [= <-].
    apply (not_goes_on s (n + 1)); [|by apply Hno]. destruct Ho as [_ Hc]. rewrite Forall_forall in Hc.
    destruct (Hc a ltac:(by apply last_Some_elem_of)) as [n' d' cs' N _]. apply N. }
  destruct (last (children_of f)) as [c|] eqn:Hlast; [|by apply Hat].
  destruct (goes_on sample s (n + 1) (data_of c)) eqn:Hg; [|by apply Hat; intros a [= <-]]. clear Hat.
  apply deep_from_cons in Hd as [_ Hd]. apply goes_on_true in Hg as (_ & _ & He). destruct f as [d cs]. cbn in Hlast.
  apply last_Some in Hlast as [cs' ->]. destruct Ho as [[] Hc]. cbn -[zsum on_last graft] in *. apply Forall_app in Hc as [Hc' [Hc1 _]%Forall_cons].
  pose proof (IH (n + 1) chartId (touch sample c)) as Hn. pose proof (head_graft stack (n + 1 + 1) chartId (touch sample c)) as Hh.
  destruct (graft sample (n + 1 + 1) stack chartId (touch sample c)) as [c' id']. cbn [fst] in *.
  specialize (Hn ltac:(apply touch_ok; [done|exact (proj2 (open_tree_close _ _) Hc1)]) Hd). unfold head in Hh. destruct c as [dc csc]. cbn in Hh.
  injection Hh as Hid Hpa Hna Hu Hst Hen Ht Hsa. rewrite on_last_snoc. constructor.
  - split; try done.
    + rewrite no_times0, !fmap_app, !zsum_app, !fmap_cons, !zsum_one_elem, Ht.
      apply open_tree_close in Hc1 as [[] _]. cbn -[zsum] in *. lia.
    + intros k a b Ha Hb. destruct (decide (S k < length cs')%nat) as [Hlt|Hge].
      * rewrite lookup_app_l in Ha, Hb by lia. apply (no_separated0 k); by apply lookup_app_l_Some.
      * rewrite lookup_app_r in Hb by lia. destruct (S k - length cs')%nat eqn:Ek; [|done]. injection Hb as <-.
        rewrite lookup_app_l in Ha by lia. unfold frame_key at 2. rewrite Hna, Hu, Hst.
        apply (no_separated0 k a (Frame dc csc)); [by apply lookup_app_l_Some|]. rewrite lookup_app_r by lia. by rewrite Ek.
    + rewrite no_children0, !fmap_app. cbn. by rewrite Hid.
    + apply Forall_app in no_parent0 as [? [Hp _]%Forall_cons]. apply Forall_app. split; [done|]. apply Forall_singleton. cbn in Hp. congruence.
  - apply Forall_app. split; [done|by apply Forall_singleton].
Qed.
End Sample.
End Chart.

(** ** Paths, samples and numbers *)

Lemma path_fresh x f : x ∉ samples_of f -> path_of x f = [].
Proof. destruct f as [d cs]. cbn. rewrite elem_of_app. intros H. rewrite bool_decide_false; [done|tauto]. Qed.

Lemma paths_fresh x cs : Forall (fun c => x ∉ samples_of c) cs -> flat_map (path_of x) cs = [].
Proof. induction 1 as [|c cs Hc _ IH]; [done|]. cbn. by rewrite path_fresh, IH. Qed.

Lemma path_links x p f : path_of x (with_data (fun d => with_links p (cf_childrenIds d) d) f) = path_of x f.
Proof. by destruct f. Qed.

Lemma path_push x c f :
  path_of x (push_frame c f) = if bool_decide (x ∈ cf_samplesIds (data_of f)) then path_of x f ++ path_of x c else [].
Proof.
  destruct f as [d cs]. cbn. case_bool_decide as H; [|done]. cbn. f_equal. rewrite flat_map_app. cbn.
  by rewrite path_links, app_nil_r.
Qed.

Lemma path_outside x f : x ∉ cf_samplesIds (data_of f) -> path_of x f = [].
Proof. destruct f as [d cs]. cbn. intros H. by rewrite bool_decide_false. Qed.

Section Paths.
Context (sample : JsCpuProfilerSample).

Lemma path_attach x stack : forall chartId f,
  path_of x (attach sample stack chartId f) =
    if bool_decide (x = cs_id sample /\ x ∈ cf_samplesIds (data_of f)) then path_of x f ++ (symbol_key <$> stack) else path_of x f.
Proof.
  induction stack as [|s stack IH]; intros chartId f.
  { cbn [attach createNewChartFrame fmap list_fmap]. rewrite app_nil_r. destruct f as [d cs]. by destruct (bool_decide (x = _ /\ _)). }
  rewrite attach_cons, path_push, IH. cbn [symbolToChartFrame data_of cf_samplesIds path_of flat_map].
  destruct (decide (x = cs_id sample)) as [->|Hne].
  - rewrite (bool_decide_true (cs_id sample = _ /\ _)) by (split; [done|by apply list_elem_of_singleton]).
    rewrite (bool_decide_true (_ ∈ [_])) by (by apply list_elem_of_singleton). case_bool_decide as H.
    + by rewrite bool_decide_true.
    + rewrite bool_decide_false by tauto. by rewrite path_outside.
  - rewrite !(bool_decide_false (x = _ /\ _)) by tauto. rewrite (bool_decide_false (x ∈ [_])) by (by rewrite list_elem_of_singleton).
    rewrite app_nil_r. case_bool_decide; [done|]. by rewrite path_outside.
Qed.

Lemma path_touch x f :
  x <> cs_id sample -> path_of x (touch sample f) = path_of x f.
Proof.
  intros Hx. destruct f as [d cs]. cbn. rewrite (bool_decide_ext (x ∈ cf_samplesIds d ++ [_]) (x ∈ cf_samplesIds d)); [done|].
  rewrite elem_of_app, list_elem_of_singleton. tauto.
Qed.

Lemma path_graft_other x stack : forall idx chartId f,
  x <> cs_id sample -> path_of x (graft sample idx stack chartId f).1 = path_of x f.
Proof.
  induction stack as [|s stack IH]; intros idx chartId f Hx; cbn [graft]; [by destruct f|].
  assert (Ha : path_of x (attach sample (s :: stack) chartId f) = path_of x f).
  { rewrite path_attach, bool_decide_false by tauto. done. }
  destruct (last (children_of f)) as [c|] eqn:Hlast; [|done]. destruct (goes_on _ _ _ _); [|done]. clear Ha.
  pose proof (IH (idx + 1) chartId (touch sample c) Hx) as E. destruct (graft _ _ _ _ _) as [c' id']. cbn [fst] in *.
  destruct f as [d cs]. cbn in Hlast. apply last_Some in Hlast as [cs' ->]. rewrite on_last_snoc. cbn.
  rewrite !flat_map_app. cbn. by rewrite E, path_touch.
Qed.

Lemma path_graft_own stack : forall idx chartId f,
  cs_id sample ∈ cf_samplesIds (data_of f) -> Forall (fun c => cs_id sample ∉ samples_of c) (children_of f) ->
  path_of (cs_id sample) (graft sample idx stack chartId f).1 = frame_key (data_of f) :: (symbol_key <$> stack).
Proof.
  induction stack as [|s stack IH]; intros idx chartId f Hin Hfr; cbn [graft].
  { destruct f as [d cs]. cbn in *. by rewrite bool_decide_true, paths_fresh. }
  assert (Ha : path_of (cs_id sample) (attach sample (s :: stack) chartId f) = frame_key (data_of f) :: (symbol_key <$> s :: stack)).
  { rewrite path_attach, bool_decide_true by done. destruct f as [d cs]. cbn in *. by rewrite bool_decide_true, paths_fresh. }
  destruct (last (children_of f)) as [c|] eqn:Hlast; [|done]. destruct (goes_on _ _ _ _) eqn:Hg; [|done]. clear Ha.
  apply goes_on_true in Hg as (Hkey & _). destruct f as [d cs]. cbn in Hlast. apply last_Some in Hlast as [cs' ->]. cbn in Hfr, Hin.
  apply Forall_app in Hfr as [Hf1 [Hf2 _]%Forall_cons]. destruct c as [dc csc]. cbn in Hkey, Hf2.
  pose proof (IH (idx + 1) chartId (touch sample (Frame dc csc))) as E. destruct (graft _ _ _ _ _) as [c' id']. cbn [fst] in *.
  rewrite on_last_snoc. cbn. rewrite bool_decide_true, flat_map_app, paths_fresh by done. cbn [app flat_map]. rewrite app_nil_r, E.
  - cbn. by rewrite <- Hkey.
  - cbn. apply elem_of_app. right. by apply list_elem_of_singleton.
  - cbn. rewrite Forall_forall. intros c Hc Hx. apply Hf2, elem_of_app. right. apply elem_of_flat_map. by exists c.
Qed.

(** The samples and the numbers of a tree with the sample. *)
Lemma samples_push c f x : x ∈ samples_of (push_frame c f) <-> x ∈ samples_of f \/ x ∈ samples_of c.
Proof.
  destruct f as [d cs]. cbn. rewrite flat_map_app, !elem_of_app. cbn. rewrite app_nil_r.
  assert (E : samples_of (with_data (fun e => with_links (cf_id d) (cf_childrenIds e) e) c) = samples_of c) by (by destruct c).
  rewrite E. tauto.
Qed.

Lemma samples_attach stack : forall chartId f x,
  x ∈ samples_of (attach sample stack chartId f) -> x ∈ samples_of f \/ x = cs_id sample.
Proof.
  induction stack as [|s stack IH]; intros chartId f x; [destruct f; by left|].
  rewrite attach_cons, samples_push. intros [?|[Hx|?]%IH]; [by left| |by right]. right. cbn in Hx. by apply list_elem_of_singleton in Hx.
Qed.

Lemma samples_touch f x : x ∈ samples_of (touch sample f) -> x ∈ samples_of f \/ x = cs_id sample.
Proof. destruct f as [d cs]. cbn. rewrite !elem_of_app, list_elem_of_singleton. tauto. Qed.

Lemma samples_graft stack : forall idx chartId f x,
  x ∈ samples_of (graft sample idx stack chartId f).1 -> x ∈ samples_of f \/ x = cs_id sample.
Proof.
  induction stack as [|s stack IH]; intros idx chartId f x; cbn [graft]; [destruct f; by left|].
  destruct (last (children_of f)) as [c|] eqn:Hlast; [|apply samples_attach]. destruct (goes_on _ _ _ _); [|apply samples_attach].
  pose proof (IH (idx + 1) chartId (touch sample c) x) as E. destruct (graft _ _ _ _ _) as [c' id']. cbn [fst] in *.
  destruct f as [d cs]. cbn in Hlast. apply last_Some in Hlast as [cs' ->]. rewrite on_last_snoc. cbn.
  rewrite !flat_map_app, !elem_of_app. cbn. rewrite !app_nil_r. intros [?|[?|[[?|?]%samples_touch|?]%E]]; tauto.
Qed.

Lemma ids_push c f : ids_of (push_frame c f) = ids_of f ++ ids_of c.
Proof. destruct f as [d cs]. cbn. rewrite flat_map_app. cbn. rewrite app_nil_r. by destruct c. Qed.

Lemma seqZ_step a n : 0 <= n -> seqZ a (1 + n) = a :: seqZ (a + 1) n.
Proof. intros Hn. rewrite seqZ_cons by lia. f_equal. unfold Z.succ. f_equal. lia. Qed.

Lemma ids_attach stack : forall chartId f, ids_of (attach sample stack chartId f) = ids_of f ++ seqZ chartId (zlen stack).
Proof.
  induction stack as [|s stack IH]; intros chartId f; [destruct f; cbn; by rewrite app_nil_r|].
  rewrite attach_cons, ids_push, IH, zlen_cons, seqZ_step by apply zlen_nonneg. done.
Qed.

Lemma ids_graft stack : forall idx chartId f,
  let '(f', chartId') := graft sample idx stack chartId f in
  chartId <= chartId' /\ ids_of f' = ids_of f ++ seqZ chartId (chartId' - chartId).
Proof.
  induction stack as [|s stack IH]; intros idx chartId f; cbn [graft].
  { split; [lia|]. rewrite Z.sub_diag. destruct f. cbn. by rewrite app_nil_r. }
  assert (Ha : chartId <= chartId + zlen (s :: stack) /\
    ids_of (attach sample (s :: stack) chartId f) = ids_of f ++ seqZ chartId (chartId + zlen (s :: stack) - chartId)).
  { pose proof (zlen_nonneg (s :: stack)). split; [lia|]. rewrite ids_attach. do 2 f_equal. lia. }
  destruct (last (children_of f)) as [c|] eqn:Hlast; [|exact Ha]. destruct (goes_on _ _ _ _); [|exact Ha]. clear Ha.
  pose proof (IH (idx + 1) chartId (touch sample c)) as E. destruct (graft _ _ _ _ _) as [c' id']. destruct E as [? E].
  split; [done|]. destruct f as [d cs]. cbn in Hlast. apply last_Some in Hlast as [cs' ->]. rewrite on_last_snoc. cbn.
  rewrite !flat_map_app. cbn. rewrite !app_nil_r, E, app_assoc. by destruct c.
Qed.
End Paths.

(** ** The chart of a list of samples *)

Section Samples.
Context (durs : Z -> Z).

(** A chart of the samples [xs] with their stacks. *)
Record chart_ok (xs : list (JsCpuProfilerSample * list JsProfilerSymbol)) (cs : list JsCpuProfilerChartFrame) (chartId : Z) : Prop := {
  ck_trees : Forall (chart_tree durs 0) cs;
  ck_roots : Forall (fun f => cf_parentId (data_of f) = -1) cs;
  ck_separated : separated cs;
  ck_paths : forall x stack, (x, stack) ∈ xs -> flat_map (path_of (cs_id x)) cs = symbol_key <$> stack;
  ck_samples : forall i, i ∈ flat_map samples_of cs -> i ∈ (cs_id ∘ fst <$> xs);
  ck_ids : 0 <= chartId /\ flat_map ids_of cs = seqZ 0 chartId;
}.

Lemma chart_ok_nil : chart_ok [] [] 0.
Proof.
  split; try constructor; try done; try (intros; by apply not_elem_of_nil in H || set_solver).
Qed.

Context (sample : JsCpuProfilerSample) (stack : list JsProfilerSymbol) (xs : list (JsCpuProfilerSample * list JsProfilerSymbol)).
Context (Hdur : durs (cs_id sample) = cs_dur sample) (Htime : cs_endTime sample = cs_startTime sample + cs_dur sample).
Context (Hdeep : deep stack) (Hnew : cs_id sample ∉ (cs_id ∘ fst <$> xs)).

Lemma deep_deep_from : deep_from 0 stack.
Proof using Hdeep. intros k s Hk. rewrite (Hdeep k s Hk). done. Qed.

(** A new tree. *)
Lemma combine_new_ok s rest cs chartId :
  stack = s :: rest -> chart_ok xs cs chartId ->
  (forall a, last cs = Some a -> ~ (frame_key (data_of a) = symbol_key s /\ cf_endTime (data_of a) = cs_startTime sample)) ->
  chart_ok (xs ++ [(sample, stack)]) (cs ++ createNewChartFrame sample stack chartId) (chartId + zlen stack).
Proof using Hdur Htime Hdeep Hnew.
  intros Hst C Hl. pose proof deep_deep_from as Hd. rewrite Hst in *. apply deep_from_cons in Hd as [Hs Hd].
  rewrite createNew_cons. set (new := symbolToChartFrame sample s chartId). set (f := attach sample rest (chartId + 1) new).
  assert (Hf : chart_tree durs 0 f).
  { apply open_tree_close, attach_ok; [done|done|by apply symbol_open|done|done]. }
  assert (Hh : head f = head new) by apply head_attach. unfold head in Hh. cbn in Hh. injection Hh as Hid Hpa Hna Hu Hstt _ _ Hsa.
  assert (Hfresh : Forall (fun c => cs_id sample ∉ samples_of c) cs).
  { rewrite Forall_forall. intros c Hc Hx. apply Hnew, (ck_samples _ _ _ C), elem_of_flat_map. by exists c. }
  split.
  - apply Forall_app. split; [apply C|by apply Forall_singleton].
  - apply Forall_app. split; [apply C|]. by apply Forall_singleton.
  - apply separated_snoc; [apply C|]. intros a Ha. unfold frame_key at 2. rewrite Hna, Hu, Hstt. by apply Hl.
  - intros x st [Hx|Hx]%elem_of_app; rewrite flat_map_app; cbn [flat_map]; rewrite app_nil_r.
    + rewrite (ck_paths _ _ _ C x st Hx). rewrite path_outside; [by rewrite app_nil_r|]. rewrite Hsa, list_elem_of_singleton.
      intros E. apply Hnew. rewrite <- E. apply list_elem_of_fmap. by exists (x, st).
    + apply list_elem_of_singleton in Hx as [= -> ->]. rewrite (paths_fresh _ _ Hfresh). cbn [app]. unfold f. rewrite path_attach, bool_decide_true.
      * unfold new. cbn. by rewrite bool_decide_true by (by apply list_elem_of_singleton).
      * split; [done|]. cbn. by apply list_elem_of_singleton.
  - intros i. rewrite flat_map_app, elem_of_app, fmap_app, elem_of_app. cbn [flat_map]. rewrite app_nil_r.
    intros [?%(ck_samples _ _ _ C)|[Hi|Hi]%samples_attach]; [by left|right..]; cbn in *.
    + done.
    + by apply list_elem_of_singleton.
  - destruct (ck_ids _ _ _ C) as [Hge E]. rewrite zlen_cons. pose proof (zlen_nonneg rest). split; [lia|].
    rewrite flat_map_app, E. cbn [flat_map]. rewrite app_nil_r. unfold f. rewrite ids_attach. cbn [new symbolToChartFrame ids_of flat_map app].
    rewrite (seqZ_app 0 chartId) by lia. by rewrite Z.add_0_l, seqZ_step by lia.
Qed.

(** The last tree goes on. *)
Lemma combine_last_ok s rest cs f chartId :
  stack = s :: rest -> chart_ok xs (cs ++ [f]) chartId -> goes_on sample s 0 (data_of f) = true ->
  let '(f', chartId') := graft sample 1 rest chartId (touch sample f) in
  chart_ok (xs ++ [(sample, stack)]) (cs ++ [f']) chartId'.
Proof using Hdur Htime Hdeep Hnew.
  intros Hst C Hg. pose proof deep_deep_from as Hd. rewrite Hst in *. apply deep_from_cons in Hd as [Hs Hd].
  apply goes_on_true in Hg as (Hkey & _ & He). destruct C as [Ht Hr Hsep Hpath Hsam [Hge Hids]].
  apply Forall_app in Ht as [Ht [Htf _]%Forall_cons]. apply Forall_app in Hr as [Hr [Hrf _]%Forall_cons].
  pose proof (graft_ok durs sample Hdur Htime rest 0 chartId (touch sample f)) as Hf. change (0 + 1) with 1 in *.
  pose proof (head_graft sample rest 1 chartId (touch sample f)) as Hh. pose proof (ids_graft sample rest 1 chartId (touch sample f)) as Hi.
  pose proof (fun x => path_graft_other sample x rest 1 chartId (touch sample f)) as Hpo.
  pose proof (path_graft_own sample rest 1 chartId (touch sample f)) as Hpn.
  pose proof (samples_graft sample rest 1 chartId (touch sample f)) as Hsg.
  destruct (graft sample 1 rest chartId (touch sample f)) as [f' chartId']. cbn [fst] in *.
  specialize (Hf ltac:(apply touch_ok; [done|done|done|by apply open_tree_close]) Hd).
  unfold head in Hh. destruct f as [d csf]. cbn in Hh, Hkey, He, Hrf. injection Hh as Hid Hpa Hna Hu Hstt Hen Htt Hsa.
  assert (Hfresh : forall c, c ∈ cs ++ [Frame d csf] -> cs_id sample ∉ samples_of c).
  { intros c Hc Hx. apply Hnew, Hsam, elem_of_flat_map. by exists c. }
  split.
  - apply Forall_app. split; [done|]. by apply Forall_singleton.
  - apply Forall_app. split; [done|]. apply Forall_singleton. congruence.
  - intros k a b Ha Hb. destruct (decide (S k < length cs)%nat) as [Hlt|Hnl].
    + rewrite lookup_app_l in Ha, Hb by lia. apply (Hsep k); by apply lookup_app_l_Some.
    + rewrite lookup_app_r in Hb by lia. destruct (S k - length cs)%nat eqn:Ek; [|done]. injection Hb as <-.
      rewrite lookup_app_l in Ha by lia. unfold frame_key at 2. rewrite Hna, Hu, Hstt.
      apply (Hsep k a (Frame d csf)); [by apply lookup_app_l_Some|]. rewrite lookup_app_r by lia. by rewrite Ek.
  - intros x st [Hx|Hx]%elem_of_app; rewrite flat_map_app; cbn [flat_map]; rewrite app_nil_r.
    + assert (Hne : cs_id x <> cs_id sample).
      { intros E. apply Hnew. rewrite <- E. apply list_elem_of_fmap. by exists (x, st). }
      rewrite Hpo, path_touch by done. rewrite <- (Hpath x st Hx), flat_map_app. cbn [flat_map]. by rewrite app_nil_r.
    + apply list_elem_of_singleton in Hx as [= -> ->]. rewrite paths_fresh.
      2:{ rewrite Forall_forall. intros c Hc. apply Hfresh. apply elem_of_app. by left. }
      cbn [app]. rewrite Hpn; [cbn; by rewrite <- Hkey| |].
      * cbn. apply elem_of_app. right. by apply list_elem_of_singleton.
      * cbn. rewrite Forall_forall. intros c Hc Hx. apply (Hfresh (Frame d csf)); [apply elem_of_app; right; by left|].
        cbn. apply elem_of_app. right. apply elem_of_flat_map. by exists c.
  - intros i. rewrite flat_map_app, elem_of_app, fmap_app, elem_of_app. cbn [flat_map]. rewrite app_nil_r.
    intros [Hin|[[Hin| ->]%samples_touch| ->]%Hsg].
    + left. apply Hsam. rewrite flat_map_app, elem_of_app. by left.
    + left. apply Hsam. rewrite flat_map_app, elem_of_app. right. cbn. by rewrite app_nil_r.
    + right. by apply list_elem_of_singleton.
    + right. by apply list_elem_of_singleton.
  - destruct Hi as [Hle Hi]. split; [lia|]. rewrite flat_map_app in *. cbn [flat_map] in *. rewrite app_nil_r in *.
    assert (E : ids_of (touch sample (Frame d csf)) = ids_of (Frame d csf)) by done. rewrite Hi, E, app_assoc, Hids.
    replace chartId' with (chartId + (chartId' - chartId)) at 2 by lia. by rewrite seqZ_app by lia.
Qed.

Lemma combine_stack_ok cs chartId :
  stack <> [] -> chart_ok xs cs chartId ->
  exists cs' chartId', combine_stack sample stack (cs, chartId) = Some (cs', chartId') /\ chart_ok (xs ++ [(sample, stack)]) cs' chartId'.
Proof using Hdur Htime Hdeep Hnew.
  intros Hne C. assert (exists s rest, stack = s :: rest) as (s & rest & Hst) by (destruct stack; [done|eauto]).
  pose proof (fun cs => combine_new_ok s rest cs chartId Hst) as Hnewt. pose proof (fun cs f => combine_last_ok s rest cs f chartId Hst) as Hold.
  unfold combine_stack. rewrite Hst in *. destruct (last cs) as [a|] eqn:Hlast.
  - pose proof Hlast as [cs' ->]%last_Some.
    assert (Hda : cf_depth (data_of a) = Some 0).
    { pose proof (ck_trees _ _ _ C) as [_ [Ha _]%Forall_cons]%Forall_app. by destruct Ha as [n d csa []]. }
    destruct (isSymbolEqual s (data_of a) && (cf_endTime (data_of a) =? cs_startTime sample)) eqn:Hg.
    + assert (Hgo : goes_on sample s 0 (data_of a) = true).
      { unfold goes_on. apply andb_prop in Hg as [-> ->]. by rewrite bool_decide_true. }
      rewrite combineCallChain_graft by done. cbn [mbind option_bind]. specialize (Hold cs' a C Hgo).
      destruct (graft _ _ _ _ _) as [f' chartId']. eexists _, _. split; [done|].
      rewrite length_app. cbn [length]. rewrite Nat.add_1_r. cbn [pred]. by rewrite insert_app_r_alt, Nat.sub_diag by done.
    + eexists _, _. split; [done|]. apply Hnewt; [done|]. intros b Hb. rewrite last_snoc in Hb. injection Hb as <-.
      apply (not_goes_on sample s 0); [done|]. unfold goes_on. by rewrite (bool_decide_true _ Hda), andb_true_r.
  - eexists _, _. split; [done|]. apply Hnewt; [done|]. intros a Ha. congruence.
Qed.
End Samples.

(** The samples that the chart shows, with their stacks: those whose function is
    known and not the root. *)
Definition shown (m : gmap Z JsProfilerSymbol) (memory : bool) (data : row JsCpuProfilerSample) :
    option (JsCpuProfilerSample * list JsProfilerSymbol) :=
  let sample := sample_of memory data in
  node ← m !! cs_functionId sample;
  if jp_id node =? ROOT_ID then None else pair sample <$> getFullCallChainOfNode m node.

Lemma shown_spec m memory data :
  map_ok m ->
  match shown m memory data with
  | Some (x, stack) =>
      x = sample_of memory data /\ (is_Some (m !! cs_functionId x) /\ cs_functionId x <> ROOT_ID) /\ deep stack /\
      (exists above node, stack = above ++ [node] /\ is_stack m stack /\ jp_id node = cs_functionId x) /\
      (forall st, combine_row m memory st data = combine_stack x stack st)
  | None =>
      ~ (is_Some (m !! cs_functionId (sample_of memory data)) /\ cs_functionId (sample_of memory data) <> ROOT_ID) /\
      (forall st, combine_row m memory st data = Some st)
  end.
Proof.
  intros M. unfold shown, combine_row. destruct (m !! cs_functionId (sample_of memory data)) as [node|] eqn:Hn; cbn [mbind option_bind].
  2:{ split; [|done]. intros [[? ?] _]. done. }
  pose proof (mo_id _ M _ _ Hn) as Hid. destruct (Z.eqb_spec (jp_id node) ROOT_ID) as [Hr|Hr]; [split; [intros [_ ?]; congruence|done]|].
  destruct (full_chain_stack m node M) as (above & -> & ? & ?); [congruence|done|]. cbn.
  split_and!; [done|by rewrite Hn|congruence|done| |done]. exists above, node. split_and!; [done..|congruence].
Qed.

Lemma combine_rows_ok durs m memory rows :
  map_ok m -> NoDup (cs_id ∘ fst <$> omap (shown m memory) rows) ->
  (forall x stack, (x, stack) ∈ omap (shown m memory) rows -> durs (cs_id x) = cs_dur x /\ cs_endTime x = cs_startTime x + cs_dur x) ->
  exists cs chartId, foldM (combine_row m memory) rows ([], 0) = Some (cs, chartId) /\
    chart_ok durs (omap (shown m memory) rows) cs chartId.
Proof.
  intros M HN Hx.
  cut (forall done rest cs chartId, NoDup (cs_id ∘ fst <$> done ++ omap (shown m memory) rest) ->
    (forall x stack, (x, stack) ∈ omap (shown m memory) rest -> durs (cs_id x) = cs_dur x /\ cs_endTime x = cs_startTime x + cs_dur x) ->
    chart_ok durs done cs chartId ->
    exists cs' chartId', foldM (combine_row m memory) rest (cs, chartId) = Some (cs', chartId') /\
      chart_ok durs (done ++ omap (shown m memory) rest) cs' chartId').
  { intros H. by apply (H [] rows [] 0), chart_ok_nil. }
  clear HN Hx rows. intros done rest. revert done. induction rest as [|data rest IH]; intros done cs chartId HN Hx C.
  { exists cs, chartId. by rewrite app_nil_r. }
  cbn [foldM omap list_omap] in *. pose proof (shown_spec m memory data M) as Hsh. destruct (shown m memory data) as [[x stack]|].
  2:{ destruct Hsh as [_ ->]. cbn [mbind option_bind]. by apply IH. }
  destruct Hsh as (_ & _ & Hdeep & (above & node & Hst & _) & ->). destruct (Hx x stack ltac:(by left)) as [Hd Ht].
  rewrite fmap_app, fmap_cons in HN. apply NoDup_app in HN as (HN1 & Hdis & HN2). apply NoDup_cons in HN2 as [Hn2 HN2].
  destruct (combine_stack_ok durs x stack done Hd Ht Hdeep) with (cs := cs) (chartId := chartId) as (cs1 & id1 & -> & C1).
  - intros Hin. apply (Hdis _ Hin). by left.
  - subst stack. by destruct above.
  - exact C.
  - cbn [mbind option_bind]. destruct (IH (done ++ [(x, stack)]) cs1 id1) as (cs2 & id2 & -> & C2).
    + rewrite <- app_assoc. cbn [app]. rewrite fmap_app, fmap_cons. apply NoDup_app. split_and!; [exact HN1|exact Hdis|]. by constructor.
    + intros x' stack' Hin. apply (Hx x' stack'). by right.
    + exact C1.
    + exists cs2, id2. split; [reflexivity|]. by rewrite <- app_assoc in C2.
Qed.

Lemma chart_trees nodes memory rows (durs : Z -> Z) :
  let m := createCallChain nodes ∅ in
  let xs := filter (fun x => is_Some (m !! cs_functionId x) /\ cs_functionId x <> ROOT_ID) (sample_of memory <$> rows) in
  chain_ok nodes -> NoDup (cs_id <$> xs) ->
  Forall (fun x => durs (cs_id x) = cs_dur x /\ cs_endTime x = cs_startTime x + cs_dur x) xs ->
  exists chart, combineChartData m memory rows = Some chart /\
    Forall (chart_tree durs 0) chart /\ flat_map ids_of chart = seqZ 0 (zlen (flat_map ids_of chart)) /\
    Forall (fun f => cf_parentId (data_of f) = -1) chart /\ separated chart /\
    (forall x, x ∈ xs -> exists stack node, is_stack m (stack ++ [node]) /\ jp_id node = cs_functionId x /\
       flat_map (path_of (cs_id x)) chart = symbol_key <$> stack ++ [node]).
Proof.
  intros m xs Hc HN Hx. pose proof (createCallChain_ok nodes Hc) as M. fold m in M.
  pose proof (fun data => shown_spec m memory data M) as Hsh.
  assert (Exs : (omap (shown m memory) rows).*1 = xs).
  { unfold xs. clear HN Hx xs. induction rows as [|data rest IH]; [done|]. cbn [omap list_omap]. rewrite (fmap_cons (sample_of memory)), filter_cons.
    specialize (Hsh data). destruct (shown m memory data) as [[x stack]|].
    - destruct Hsh as (-> & H & _). rewrite decide_True by done. rewrite fmap_cons. cbn [fst]. by rewrite IH.
    - destruct Hsh as [? _]. by rewrite decide_False. }
  destruct (combine_rows_ok durs m memory rows M) as (cs & id & E & C).
  - rewrite list_fmap_compose, Exs. done.
  - intros x stack Hin. rewrite Forall_forall in Hx. apply (Hx x). rewrite <- Exs. apply list_elem_of_fmap. by exists (x, stack).
  - exists cs. unfold combineChartData. rewrite E. destruct C as [Ct Cr Cs Cp _ [Hge Ci]]. split_and!; try done.
    2:{ intros x Hin. rewrite <- Exs in Hin. apply list_elem_of_fmap in Hin as ([x' stack] & -> & Hin). cbn [fst].
      pose proof (Cp x' stack Hin) as Hp. apply list_elem_of_omap in Hin as (data & _ & Hd). specialize (Hsh data). rewrite Hd in Hsh.
      destruct Hsh as (_ & _ & _ & (above & node & -> & ? & ?) & _). by exists above, node. }
    rewrite Ci. unfold zlen. rewrite length_seqZ. by rewrite Z2Nat.id by lia.
Qed.

(** C18: The flame chart is faithful.  For a profile whose nodes come after their
    callers and samples with different numbers and fitting times, the chart is
    built without an error, and: the frames that list a sample are, from the
    outside in, the functions of its call stack; every frame lasts from its start to
    its end, for the time of its samples, which is its own time and that of its
    children; frames side by side are never parts of one call; the frames are
    numbered from 0 on, and their links agree with the tree. *)
Theorem chart_faithful nodes memory rows (durs : Z -> Z) :
  let m := createCallChain nodes ∅ in
  let xs := filter (fun x => is_Some (m !! cs_functionId x) /\ cs_functionId x <> ROOT_ID) (sample_of memory <$> rows) in
  chain_ok nodes -> NoDup (cs_id <$> xs) ->
  Forall (fun x => durs (cs_id x) = cs_dur x /\ cs_endTime x = cs_startTime x + cs_dur x) xs ->
  exists chart, combineChartData m memory rows = Some chart /\
    (forall x, x ∈ xs -> exists stack node, is_stack m (stack ++ [node]) /\ jp_id node = cs_functionId x /\
       flat_map (path_of (cs_id x)) chart = symbol_key <$> stack ++ [node]) /\
    Forall (chart_tree durs 0) chart /\ separated chart /\ flat_map ids_of chart = seqZ 0 (zlen (flat_map ids_of chart)) /\
    Forall (fun f => cf_parentId (data_of f) = -1) chart.
Proof.
  intros m xs Hc HN Hx. destruct (chart_trees nodes memory rows durs Hc HN Hx) as (chart & ? & ? & ? & ? & ? & ?).
  exists chart. by split_and!.
Qed.

(** A function calls two others; the third sample goes on where the second ended,
    the last one starts anew after a gap. *)
Definition jx_node (id parentId nameId : Z) : row JsProfilerSymbol :=
  {| row_own := {| jp_id := id; jp_nameId := nameId; jp_urlId := 20; jp_line := 1; jp_column := 2; jp_parentId := parentId;
                   jp_depth := None; jp_children := None; jp_childrenIds := []; jp_childrenString := [] |};
     row_cpuProfilerData := None |}.

Definition jx_sample (id functionId startTime endTime : Z) : row JsCpuProfilerSample :=
  {| row_own := {| cs_id := id; cs_functionId := functionId; cs_startTime := startTime; cs_endTime := endTime;
                   cs_dur := endTime - startTime |}; row_cpuProfilerData := None |}.

Definition jx_nodes : list (row JsProfilerSymbol) := [jx_node 1 0 9; jx_node 2 1 10; jx_node 3 2 11; jx_node 4 2 12].

Definition jx_rows : list (row JsCpuProfilerSample) :=
  [jx_sample 0 3 0 10; jx_sample 1 4 10 15; jx_sample 2 4 15 20; jx_sample 3 2 20 25; jx_sample 4 1 25 30; jx_sample 5 3 30 40].

Definition jx_durs (id : Z) : Z := default 0 ((fun x => cs_dur (row_own x)) <$> zlookup id jx_rows).

Definition jx_shown : list JsCpuProfilerSample :=
  filter (fun x => is_Some (createCallChain jx_nodes ∅ !! cs_functionId x) /\ cs_functionId x <> ROOT_ID) (sample_of true <$> jx_rows).

Lemma jx_chain_ok : chain_ok jx_nodes.
Proof.
  split; [apply (bool_decide_unpack _); vm_compute; exact I|]. intros k data Hk.
  destruct k as [|[|[|[|k]]]]; try done; injection Hk as <-; [by left|right..]; (split; [done|]).
  - exists 0%nat, (jx_node 1 0 9). split_and!; [lia|done|done].
  - exists 1%nat, (jx_node 2 1 10). split_and!; [lia|done|done].
  - exists 1%nat, (jx_node 2 1 10). split_and!; [lia|done|done].
Qed.

Lemma jx_shown_ok : NoDup (cs_id <$> jx_shown) /\
  Forall (fun x => jx_durs (cs_id x) = cs_dur x /\ cs_endTime x = cs_startTime x + cs_dur x) jx_shown.
Proof. split; apply (bool_decide_unpack _); vm_compute; exact I. Qed.

Lemma chart_faithful_witness :
  zlen jx_shown = 5 /\
  exists chart, combineChartData (createCallChain jx_nodes ∅) true jx_rows = Some chart /\
    (forall x, x ∈ jx_shown -> exists stack node, is_stack (createCallChain jx_nodes ∅) (stack ++ [node]) /\
       jp_id node = cs_functionId x /\ flat_map (path_of (cs_id x)) chart = symbol_key <$> stack ++ [node]) /\
    Forall (chart_tree jx_durs 0) chart /\ separated chart /\ flat_map ids_of chart = seqZ 0 (zlen (flat_map ids_of chart)) /\
    Forall (fun f => cf_parentId (data_of f) = -1) chart.
Proof.
  split; [vm_compute; reflexivity|].
  exact (chart_faithful jx_nodes true jx_rows jx_durs jx_chain_ok (proj1 jx_shown_ok) (proj2 jx_shown_ok)).
Defined.
