(* ===== verification/JsChartPage.v ===== *)
(** * The flame chart on the page

    The chart of [JsChart] is flattened into arrays by [ArkTsReceiver.ts], which are
    posted to the page, read by [ArkTsSender.ts] and linked into frames again by
    [component/chart/SpArkTsChart.ts].  A click on a frame selects a part of a tree
    ([database/ui-worker/ProcedureWorkerCpuProfiler.ts]).  Objects of the page refer
    to each other by the numbers of the frames, under which [jsProfilerMap] holds
    them. *)

From S2P Require Import Prelude JsRuntime HeapModel CallTree JsChart.

(** ** Flattening *)

Record JsDataCache := {
  jd_samplesIds : list (list Z);
  jd_childrenIds : list (list Z);
  jd_column : list Z;
  jd_depth : list Z;
  jd_endTime : list Z;
  jd_id : list Z;
  jd_line : list Z;
  jd_nameId : list Z;
  jd_parentId : list Z;
  jd_selfTime : list Z;
  jd_startTime : list Z;
  jd_totalTime : list Z;
  jd_urlId : list Z;
  jd_maxDepth : Z;
}.

Definition clearJsCacheData : JsDataCache :=
  {| jd_samplesIds := []; jd_childrenIds := []; jd_column := []; jd_depth := []; jd_endTime := []; jd_id := []; jd_line := [];
     jd_nameId := []; jd_parentId := []; jd_selfTime := []; jd_startTime := []; jd_totalTime := []; jd_urlId := [];
     jd_maxDepth := 1 |}.

Definition push_item (item : frame_data) (depth : Z) (c : JsDataCache) : JsDataCache :=
  {| jd_samplesIds := jd_samplesIds c ++ [cf_samplesIds item]; jd_childrenIds := jd_childrenIds c ++ [cf_childrenIds item];
     jd_column := jd_column c ++ [cf_column item]; jd_depth := jd_depth c ++ [depth];
     jd_endTime := jd_endTime c ++ [cf_endTime item]; jd_id := jd_id c ++ [cf_id item]; jd_line := jd_line c ++ [cf_line item];
     jd_nameId := jd_nameId c ++ [cf_nameId item]; jd_parentId := jd_parentId c ++ [cf_parentId item];
     jd_selfTime := jd_selfTime c ++ [cf_selfTime item]; jd_startTime := jd_startTime c ++ [cf_startTime item];
     jd_totalTime := jd_totalTime c ++ [cf_totalTime item]; jd_urlId := jd_urlId c ++ [cf_urlId item];
     jd_maxDepth := if jd_maxDepth c <? depth + 1 then depth + 1 else jd_maxDepth c |}.

(** A frame without a depth, or above the first level, is left out with all below. *)
Fixpoint array_data (f : JsCpuProfilerChartFrame) (c : JsDataCache) : JsDataCache :=
  let 'Frame item children := f in
  match cf_depth item with
  | Some depth => if -1 <? depth then foldl (fun c f => array_data f c) (push_item item depth c) children else c
  | None => c
  end.

Definition getArrayData (combineData : list JsCpuProfilerChartFrame) (c : JsDataCache) : JsDataCache :=
  foldl (fun c f => array_data f c) c combineData.

(** ** The message *)

(** The typed arrays of the message: 32-bit integers, and doubles for the times,
    which are integers below 2^53. *)
Definition ArkTS (c : JsDataCache) : JsDataCache :=
  {| jd_samplesIds := jd_samplesIds c; jd_childrenIds := jd_childrenIds c; jd_column := toInt32 <$> jd_column c;
     jd_depth := toInt32 <$> jd_depth c; jd_endTime := jd_endTime c; jd_id := toInt32 <$> jd_id c;
     jd_line := toInt32 <$> jd_line c; jd_nameId := toInt32 <$> jd_nameId c; jd_parentId := toInt32 <$> jd_parentId c;
     jd_selfTime := jd_selfTime c; jd_startTime := jd_startTime c; jd_totalTime := jd_totalTime c;
     jd_urlId := toInt32 <$> jd_urlId c; jd_maxDepth := jd_maxDepth c |}.

Definition arrayBufferCallback (c : JsDataCache) : JsDataCache * nat := (ArkTS c, length (jd_startTime c)).

(** The object of index [i]; every array has one entry per frame. *)
Definition out_item (res : JsDataCache) (i : nat) : option frame_data :=
  column ← jd_column res !! i; depth ← jd_depth res !! i; endTime ← jd_endTime res !! i; id ← jd_id res !! i;
  line ← jd_line res !! i; nameId ← jd_nameId res !! i; parentId ← jd_parentId res !! i;
  samplesIds ← jd_samplesIds res !! i; selfTime ← jd_selfTime res !! i; startTime ← jd_startTime res !! i;
  totalTime ← jd_totalTime res !! i; urlId ← jd_urlId res !! i; childrenIds ← jd_childrenIds res !! i;
  Some {| cf_id := id; cf_nameId := nameId; cf_urlId := urlId; cf_line := line; cf_column := column; cf_depth := Some depth;
          cf_startTime := startTime; cf_endTime := endTime; cf_selfTime := selfTime; cf_totalTime := totalTime;
          cf_parentId := parentId; cf_childrenIds := childrenIds; cf_samplesIds := samplesIds; cf_isSelect := false;
          cf_scriptName := [] |}.

Definition arrayBufferHandler (res : JsDataCache) (len : nat) : option (list frame_data) := mapM (out_item res) (seq 0 len).

(** ** Linking *)

(** A frame of the page; a child is a reference, or [undefined]. *)
Record page_frame := { pf_data : frame_data; pf_children : list (option Z) }.

Section Page.
(** [SpSystemTrace.DATA_DICT]: the texts of the trace. *)
Context (DATA_DICT : gmap Z jsstring).

Definition with_script (scriptName : jsstring) (isSelect : bool) (d : frame_data) : frame_data :=
  {| cf_id := cf_id d; cf_nameId := cf_nameId d; cf_urlId := cf_urlId d; cf_line := cf_line d; cf_column := cf_column d;
     cf_depth := cf_depth d; cf_startTime := cf_startTime d; cf_endTime := cf_endTime d; cf_selfTime := cf_selfTime d;
     cf_totalTime := cf_totalTime d; cf_parentId := cf_parentId d; cf_childrenIds := cf_childrenIds d;
     cf_samplesIds := cf_samplesIds d; cf_isSelect := isSelect; cf_scriptName := scriptName |}.

(** The part of the url after its last slash, if there is a url. *)
Definition script_of (urlId : Z) (scriptName : jsstring) : jsstring :=
  let url := match DATA_DICT !! urlId with Some (c :: url) => c :: url | _ => js "unknown" end in
  if bool_decide (url = js "unknown") then scriptName else default [] (last (js_split url (js "/"))).

(** [jsProfilerMap] with the frames of the list, whose children are linked. *)
Definition cpuProfilerSupplierFrame (dataList : list frame_data) (jsProfilerMap : gmap Z page_frame) : gmap Z page_frame :=
  let m := foldl (fun m d => <[cf_id d := {| pf_data := d; pf_children := [] |}]> m) jsProfilerMap dataList in
  foldl (fun m d =>
      <[cf_id d := {| pf_data := with_script (script_of (cf_urlId d) (cf_scriptName d)) (cf_isSelect d) d;
                      pf_children := (fun id => if bool_decide (is_Some (m !! id)) then Some id else None) <$> cf_childrenIds d |}]> m)
    m dataList.

(** [JSON.parse(JSON.stringify(data))]: a copy of a frame and all below it. *)
Fixpoint copy_frame (fuel : nat) (m : gmap Z page_frame) (id : Z) : option JsCpuProfilerChartFrame :=
  match fuel with
  | 0%nat => None
  | S fuel =>
      p ← m !! id;
      children ← mapM (fun c => c ≫= copy_frame fuel m) (pf_children p);
      Some (Frame (pf_data p) children)
  end.
End Page.

(** ** The worker's request *)

(** The part of [DataCache] that the receiver keeps between requests, and its
    arrays. *)
Record js_cache := {
  jc_jsCallChain : list (row JsProfilerSymbol);
  jc_jsSymbolMap : gmap Z JsProfilerSymbol;
  jc_data : JsDataCache;
}.

(** A request with the answers to its two queries, and the timer that posts the
    arrays afterwards; [memory] tells whether the rows are plain objects. *)
Definition cpuProfilerDataReceiver (memory : bool) (res : list (row JsProfilerSymbol)) (chartData : list (row JsCpuProfilerSample))
    (c : js_cache) : option js_cache :=
  if bool_decide (res = []) then Some c
  else
    let c := if bool_decide (jc_jsCallChain c = [])
             then {| jc_jsCallChain := res; jc_jsSymbolMap := createCallChain res (jc_jsSymbolMap c); jc_data := jc_data c |} else c in
    if bool_decide (chartData = []) then Some c
    else
      result ← combineChartData (jc_jsSymbolMap c) memory chartData;
      Some {| jc_jsCallChain := jc_jsCallChain c; jc_jsSymbolMap := jc_jsSymbolMap c; jc_data := getArrayData result clearJsCacheData |}.

Definition post_arrays (c : js_cache) : (JsDataCache * nat) * js_cache :=
  (arrayBufferCallback (jc_data c), {| jc_jsCallChain := []; jc_jsSymbolMap := ∅; jc_data := jc_data c |}).

(** ** Round trip *)

(** All frames of a tree, in the order of the arrays. *)
Fixpoint frames_data (f : JsCpuProfilerChartFrame) : list frame_data := let 'Frame d cs := f in d :: flat_map frames_data cs.

(** The numbers that go through arrays of 32-bit integers. *)
Definition fits (d : frame_data) : Prop :=
  Forall (fun z => - 2 ^ 31 <= z < 2 ^ 31)
    [cf_id d; cf_nameId d; cf_urlId d; cf_line d; cf_column d; cf_parentId d; default 0 (cf_depth d)].

Definition depth_of (d : frame_data) : Z := default 0 (cf_depth d).

(** The arrays of a list of frames. *)
Definition cache_of (l : list frame_data) : JsDataCache :=
  {| jd_samplesIds := cf_samplesIds <$> l; jd_childrenIds := cf_childrenIds <$> l; jd_column := cf_column <$> l;
     jd_depth := depth_of <$> l; jd_endTime := cf_endTime <$> l; jd_id := cf_id <$> l; jd_line := cf_line <$> l;
     jd_nameId := cf_nameId <$> l; jd_parentId := cf_parentId <$> l; jd_selfTime := cf_selfTime <$> l;
     jd_startTime := cf_startTime <$> l; jd_totalTime := cf_totalTime <$> l; jd_urlId := cf_urlId <$> l;
     jd_maxDepth := foldl (fun m d => if m <? depth_of d + 1 then depth_of d + 1 else m) 1 l |}.

Lemma push_item_cache l d n : cf_depth d = Some n -> push_item d n (cache_of l) = cache_of (l ++ [d]).
Proof.
  intros Hd. unfold push_item, cache_of. assert (E : depth_of d = n) by (unfold depth_of; by rewrite Hd).
  cbn. by rewrite !fmap_app, foldl_snoc, <- E.
Qed.

Lemma array_data_cache durs f n l :
  0 <= n -> chart_tree durs n f -> array_data f (cache_of l) = cache_of (l ++ frames_data f).
Proof.
  revert n l. induction f as [d cs IH] using frame_ind'. intros n l Hn Ht. inversion Ht as [n' d' cs' N Hcs]. subst. cbn.
  rewrite (no_depth _ _ _ _ _ N). destruct (Z.ltb_spec (-1) n); [|lia].
  rewrite push_item_cache by (by apply N).
  assert (E : l ++ d :: flat_map frames_data cs = (l ++ [d]) ++ flat_map frames_data cs) by (by rewrite <- app_assoc).
  rewrite E. generalize (l ++ [d]). clear N Ht E.
  induction cs as [|c cs IHcs]; intros l'; cbn [foldl flat_map]; [by rewrite app_nil_r|]. apply Forall_cons in IH as [IHc IH], Hcs as [Hc Hcs].
  rewrite (IHc (n + 1)) by (lia || done). rewrite app_assoc. by apply IHcs.
Qed.

Lemma getArrayData_cache durs chart :
  Forall (chart_tree durs 0) chart -> getArrayData chart clearJsCacheData = cache_of (flat_map frames_data chart).
Proof.
  change clearJsCacheData with (cache_of []). rewrite <- (app_nil_l (flat_map _ _)). generalize (@nil frame_data).
  unfold getArrayData. induction chart as [|f chart IH]; intros l Hc; cbn [foldl flat_map]; [by rewrite app_nil_r|].
  apply Forall_cons in Hc as [Hf Hc]. rewrite (array_data_cache durs f 0) by done. by rewrite IH, app_assoc.
Qed.

Lemma arrays_roundtrip l :
  Forall (fun d => fits d /\ is_Some (cf_depth d)) l ->
  arrayBufferHandler (ArkTS (cache_of l)) (length l) = Some (with_script [] false <$> l).
Proof.
  intros Hl. unfold arrayBufferHandler. apply mapM_Some.
  apply Forall2_same_length_lookup. rewrite length_seq, length_fmap. split; [done|]. intros k i d Hi Hd.
  apply lookup_seq in Hi as [-> Hlt]. cbn [Nat.add]. apply list_lookup_fmap_Some in Hd as (d0 & -> & Hd). rewrite Forall_forall in Hl.
  destruct (Hl d0 ltac:(by eapply list_elem_of_lookup_2)) as [Hf [n Hn]]. unfold fits in Hf. rewrite !Forall_cons in Hf.
  unfold out_item, ArkTS, cache_of. cbn [jd_column jd_depth jd_endTime jd_id jd_line jd_nameId jd_parentId jd_samplesIds jd_selfTime
    jd_startTime jd_totalTime jd_urlId jd_childrenIds]. rewrite !list_lookup_fmap, Hd. cbn [fmap option_fmap option_map mbind option_bind].
  unfold depth_of. rewrite !toInt32_id by tauto. unfold with_script. by rewrite Hn.
Qed.

(** ** The linked frames *)

(** The frames as the page shows them. *)
Fixpoint page_tree (DATA_DICT : gmap Z jsstring) (f : JsCpuProfilerChartFrame) : JsCpuProfilerChartFrame :=
  let 'Frame d cs := f in Frame (with_script (script_of DATA_DICT (cf_urlId d) []) false d) (map (page_tree DATA_DICT) cs).

Fixpoint height (f : JsCpuProfilerChartFrame) : nat := let 'Frame _ cs := f in S (max_list (map height cs)).

Section Link.
Context (DATA_DICT : gmap Z jsstring).

Lemma insert_all_lookup (h : gmap Z page_frame -> frame_data -> page_frame) l m d :
  NoDup (cf_id <$> l) -> d ∈ l -> (forall m m' d, (forall id, is_Some (m !! id) <-> is_Some (m' !! id)) -> h m d = h m' d) ->
  (forall d, d ∈ l -> is_Some (m !! cf_id d)) ->
  foldl (fun m d => <[cf_id d := h m d]> m) m l !! cf_id d = Some (h m d).
Proof.
  intros HN Hd Hh. revert m. induction l as [|a l IH]; intros m Hm; [by apply not_elem_of_nil in Hd|]. cbn [foldl].
  rewrite fmap_cons, NoDup_cons in HN. destruct HN as [Ha HN].
  assert (Hdom : forall id, is_Some (<[cf_id a := h m a]> m !! id) <-> is_Some (m !! id)).
  { intros id. rewrite lookup_insert_is_Some. destruct (decide (cf_id a = id)) as [<-|]; [|tauto]. split; [intros _; apply Hm; by left|by left]. }
  apply elem_of_cons in Hd as [->|Hd].
  - clear IH Hm HN. rewrite <- (lookup_insert_eq m (cf_id a) (h m a)). generalize (<[cf_id a := h m a]> m).
    induction l as [|b l IH]; intros m'; [done|]. cbn [foldl]. rewrite fmap_cons, not_elem_of_cons in Ha. destruct Ha as [Hab Ha].
    rewrite IH by done. by apply lookup_insert_ne.
  - rewrite IH; [|done|done|]. 
    + f_equal. apply Hh. apply Hdom.
    + intros b Hb. apply Hdom, Hm. by right.
Qed.

(** Every frame of the list is in the map, with links to its children. *)
Lemma supplier_lookup l m0 d :
  NoDup (cf_id <$> l) -> d ∈ l -> (forall c, c ∈ cf_childrenIds d -> c ∈ (cf_id <$> l)) ->
  cpuProfilerSupplierFrame DATA_DICT l m0 !! cf_id d =
    Some {| pf_data := with_script (script_of DATA_DICT (cf_urlId d) (cf_scriptName d)) (cf_isSelect d) d; pf_children := Some <$> cf_childrenIds d |}.
Proof.
  intros HN Hd Hc. unfold cpuProfilerSupplierFrame.
  set (m1 := foldl (fun m d => <[cf_id d := {| pf_data := d; pf_children := [] |}]> m) m0 l).
  assert (Hdom : forall id, id ∈ (cf_id <$> l) -> is_Some (m1 !! id)).
  { unfold m1. clear. revert m0. induction l as [|a l IH] using rev_ind; intros m0 id Hid; [by apply not_elem_of_nil in Hid|].
    rewrite foldl_snoc, lookup_insert_is_Some. rewrite fmap_app, elem_of_app in Hid. destruct (decide (cf_id a = id)); [by left|right].
    split; [done|]. destruct Hid as [Hid|Hid]; [by apply IH|]. apply list_elem_of_singleton in Hid. congruence. }
  rewrite (insert_all_lookup (fun m d => {| pf_data := _; pf_children :=
      (fun id => if bool_decide (is_Some (m !! id)) then Some id else None) <$> cf_childrenIds d |})); [|done|done| |].
  - do 2 f_equal. apply list_fmap_ext. intros k c Hk. rewrite bool_decide_true; [done|]. apply Hdom, Hc. by eapply list_elem_of_lookup_2.
  - intros m m' b Hm. f_equal. apply list_fmap_ext. intros k c _. by rewrite (bool_decide_ext _ _ (Hm c)).
  - intros b Hb. apply Hdom. apply list_elem_of_fmap. by exists b.
Qed.

End Link.

(** The map holds a tree: every frame of it, with links to its children. *)
Definition holds (m : gmap Z page_frame) (f : JsCpuProfilerChartFrame) : Prop :=
  forall d, d ∈ frames_data f -> m !! cf_id d = Some {| pf_data := d; pf_children := Some <$> cf_childrenIds d |}.

Lemma holds_child m d cs c : holds m (Frame d cs) -> c ∈ cs -> holds m c.
Proof. intros H Hc e He. apply H. cbn. right. apply elem_of_flat_map. by exists c. Qed.

Lemma height_child d cs c : c ∈ cs -> (height c < height (Frame d cs))%nat.
Proof.
  intros Hc. cbn. apply le_n_S. induction cs as [|b cs IHcs]; [by apply not_elem_of_nil in Hc|]. cbn.
  apply elem_of_cons in Hc as [->|Hc]; [lia|]. specialize (IHcs Hc). lia.
Qed.

Lemma copy_held durs m f n fuel :
  chart_tree durs n f -> (height f <= fuel)%nat -> holds m f -> copy_frame fuel m (cf_id (data_of f)) = Some f.
Proof.
  revert n fuel. induction f as [d cs IH] using frame_ind'. intros n fuel Ht Hf Hm. inversion Ht as [n' d' cs' N Hcs]. subst.
  destruct fuel as [|fuel]; [cbn in Hf; lia|]. cbn [copy_frame data_of]. rewrite (Hm d) by (by left). cbn [mbind option_bind pf_children pf_data].
  rewrite (no_children _ _ _ _ _ N), <- list_fmap_compose.
  assert (E : mapM (fun c => c ≫= copy_frame fuel m) ((Some ∘ (fun c => cf_id (data_of c))) <$> cs) = Some cs); [|by rewrite E].
  apply mapM_Some, Forall2_fmap_l. rewrite Forall_forall in IH. rewrite Forall_forall in Hcs. clear N Ht.
  apply Forall_Forall2_diag, Forall_forall. intros c Hc. cbn. pose proof (height_child d cs c Hc).
  by apply (IH c Hc (n + 1)); [apply Hcs|lia|eapply holds_child].
Qed.

Section PageTree.
Context (DATA_DICT : gmap Z jsstring).

Definition page_data (d : frame_data) : frame_data := with_script (script_of DATA_DICT (cf_urlId d) []) false d.

Lemma frames_page f : frames_data (page_tree DATA_DICT f) = page_data <$> frames_data f.
Proof.
  induction f as [d cs IH] using frame_ind'. cbn. f_equal. induction IH as [|c cs Hc _ IHcs]; [done|]. cbn. by rewrite Hc, IHcs, fmap_app.
Qed.

Lemma data_page f : data_of (page_tree DATA_DICT f) = page_data (data_of f).
Proof. by destruct f. Qed.

Lemma height_page f : height (page_tree DATA_DICT f) = height f.
Proof.
  induction f as [d cs IH] using frame_ind'. cbn. do 2 f_equal. rewrite map_map. induction IH as [|c cs Hc _ IHcs]; [done|]. cbn. by rewrite Hc, IHcs.
Qed.

Lemma chart_tree_page durs f n : chart_tree durs n f -> chart_tree durs n (page_tree DATA_DICT f).
Proof.
  revert n. induction f as [d cs IH] using frame_ind'. intros n Ht. inversion Ht as [n' d' cs' N Hcs]. subst. cbn [page_tree].
  change (map (page_tree DATA_DICT) cs) with (page_tree DATA_DICT <$> cs). constructor.
  - destruct N as [N1 N2 N3 N4 N5 N6 N7].
    assert (E : forall (h : frame_data -> Z), (forall d, h (page_data d) = h d) ->
      (fun c => h (data_of c)) <$> (page_tree DATA_DICT <$> cs) = (fun c => h (data_of c)) <$> cs).
    { intros h Hh. rewrite <- list_fmap_compose. apply list_fmap_ext. intros k c _. cbn. by rewrite data_page. }
    split; cbn -[zsum]; try done.
    + by rewrite (E cf_totalTime).
    + intros k a b Ha Hb. apply list_lookup_fmap_Some in Ha as (a0 & -> & Ha), Hb as (b0 & -> & Hb). rewrite !data_page. by apply (N5 k).
    + by rewrite (E cf_id).
    + apply Forall_fmap. eapply Forall_impl; [exact N7|]. intros c Hc. cbn. by rewrite data_page.
  - apply Forall_fmap. rewrite Forall_forall in IH. rewrite Forall_forall in Hcs. apply Forall_forall. intros c Hc. cbn. by apply IH, Hcs.
Qed.
End PageTree.

Fixpoint subframes (f : JsCpuProfilerChartFrame) : list JsCpuProfilerChartFrame := f :: (let 'Frame _ cs := f in flat_map subframes cs).

Lemma subframes_tree durs f n g :
  chart_tree durs n f -> g ∈ subframes f -> (exists n', chart_tree durs n' g) /\ (forall d, d ∈ frames_data g -> d ∈ frames_data f).
Proof.
  revert n. induction f as [d cs IH] using frame_ind'. intros n Ht. cbn [subframes]. rewrite elem_of_cons, elem_of_flat_map.
  intros [->|(c & Hc & Hg)]; [by split; [exists n|]|]. inversion Ht as [n' d' cs' _ Hcs]. subst. rewrite Forall_forall in IH. rewrite Forall_forall in Hcs.
  destruct (IH c Hc (n + 1) (Hcs c Hc) Hg) as [? H]. split; [done|]. intros e He. cbn. right. apply elem_of_flat_map. exists c. auto.
Qed.

Lemma ids_of_frames f : ids_of f = cf_id <$> frames_data f.
Proof.
  induction f as [d cs IH] using frame_ind'. cbn. f_equal. induction IH as [|c cs Hc _ IHcs]; [done|]. cbn.
  by rewrite Hc, IHcs, fmap_app.
Qed.

Lemma ids_of_forest cs : flat_map ids_of cs = cf_id <$> flat_map frames_data cs.
Proof. induction cs as [|c cs IH]; [done|]. cbn. by rewrite ids_of_frames, IH, fmap_app. Qed.

Lemma height_frames f : (height f <= length (frames_data f))%nat.
Proof.
  induction f as [d cs IH] using frame_ind'. cbn. apply le_n_S. induction IH as [|c cs Hc _ IHcs]; [done|]. cbn.
  rewrite length_app. lia.
Qed.

Lemma subframes_height f g : g ∈ subframes f -> (height g <= height f)%nat.
Proof.
  induction f as [d cs IH] using frame_ind'. cbn [subframes]. rewrite elem_of_cons, elem_of_flat_map.
  intros [->|(c & Hc & Hg)]; [done|]. rewrite Forall_forall in IH. specialize (IH c Hc Hg). cbn. clear -Hc IH.
  induction cs as [|b cs IHcs]; [by apply not_elem_of_nil in Hc|]. cbn. apply elem_of_cons in Hc as [->|Hc]; [lia|].
  specialize (IHcs Hc). lia.
Qed.

Lemma length_flat_map_elem {A B} (h : A -> list B) l a : a ∈ l -> (length (h a) <= length (flat_map h l))%nat.
Proof.
  induction l as [|b l IH]; [by intros ?%not_elem_of_nil|]. intros [->|Ha]%elem_of_cons; cbn; rewrite length_app; [lia|].
  specialize (IH Ha). lia.
Qed.

(** Every frame of a tree lists frames of the tree as its children. *)
Lemma children_known durs f n d c :
  chart_tree durs n f -> d ∈ frames_data f -> c ∈ cf_childrenIds d -> c ∈ ids_of f.
Proof.
  revert n. induction f as [e cs IH] using frame_ind'. intros n Ht Hd Hc. inversion Ht as [n' d' cs' N Hcs]. subst. cbn in *.
  apply elem_of_cons in Hd as [->|Hd]; right; apply elem_of_flat_map.
  - rewrite (no_children _ _ _ _ _ N) in Hc. apply list_elem_of_fmap in Hc as ([dg csg] & -> & Hg). exists (Frame dg csg). split; [done|]. by left.
  - apply elem_of_flat_map in Hd as (g & Hg & Hd). rewrite Forall_forall in IH. rewrite Forall_forall in Hcs. exists g. split; [done|]. by eapply (IH g Hg (n + 1)); [apply Hcs|..].
Qed.

Lemma frames_depth durs f n d : chart_tree durs n f -> d ∈ frames_data f -> is_Some (cf_depth d).
Proof.
  revert n. induction f as [e cs IH] using frame_ind'. intros n Ht Hd. inversion Ht as [n' d' cs' N Hcs]. subst. cbn in Hd.
  apply elem_of_cons in Hd as [->|Hd]; [by rewrite (no_depth _ _ _ _ _ N)|].
  apply elem_of_flat_map in Hd as (g & Hg & Hd). rewrite Forall_forall in IH. rewrite Forall_forall in Hcs. by eapply (IH g Hg (n + 1)); [apply Hcs|].
Qed.

(** The arrays of a chart, read on the page, are the chart. *)
Lemma page_holds_chart DATA_DICT durs chart m0 :
  Forall (chart_tree durs 0) chart -> NoDup (flat_map ids_of chart) -> Forall fits (flat_map frames_data chart) ->
  let '(res, len) := arrayBufferCallback (getArrayData chart clearJsCacheData) in
  exists dataList, arrayBufferHandler res len = Some dataList /\
    forall f, f ∈ flat_map subframes chart ->
      copy_frame (length dataList) (cpuProfilerSupplierFrame DATA_DICT dataList m0) (cf_id (data_of f)) = Some (page_tree DATA_DICT f).
Proof.
  intros Ht HN Hf. rewrite (getArrayData_cache durs) by done. set (l := flat_map frames_data chart) in *. cbn [arrayBufferCallback].
  assert (Hlen : length (jd_startTime (cache_of l)) = length l) by (cbn; apply length_fmap). rewrite Hlen.
  exists (with_script [] false <$> l). rewrite Forall_forall in Ht. rewrite Forall_forall in Hf.
  assert (Hin : forall d, d ∈ l -> exists f, f ∈ chart /\ chart_tree durs 0 f /\ d ∈ frames_data f).
  { intros d Hd. apply elem_of_flat_map in Hd as (f & ? & ?). eauto. }
  split.
  { apply arrays_roundtrip. rewrite Forall_forall. intros d Hd. split; [by apply Hf|].
    destruct (Hin d Hd) as (f & _ & Hft & ?). by eapply frames_depth. }
  assert (Hids : cf_id <$> (with_script [] false <$> l) = flat_map ids_of chart).
  { rewrite ids_of_forest. fold l. rewrite <- list_fmap_compose. done. }
  intros g Hg. apply elem_of_flat_map in Hg as (f & Hfc & Hg). destruct (subframes_tree durs f 0 g (Ht f Hfc) Hg) as [[n Htg] Hsub].
  assert (Eid : cf_id (data_of g) = cf_id (data_of (page_tree DATA_DICT g))) by (by rewrite data_page). rewrite Eid.
  apply (copy_held durs _ _ n); [by apply chart_tree_page| |].
  { rewrite height_page, length_fmap. etrans; [by apply (subframes_height f)|]. etrans; [apply height_frames|]. by apply length_flat_map_elem. }
  intros d' Hd'. rewrite frames_page in Hd'. apply list_elem_of_fmap in Hd' as (d & -> & Hd).
  pose proof (supplier_lookup DATA_DICT (with_script [] false <$> l) m0 (with_script [] false d)) as E. cbn in E.
  apply E.
  - by rewrite Hids.
  - apply list_elem_of_fmap. exists d. split; [done|]. apply elem_of_flat_map. exists f. auto.
  - intros c Hc. rewrite Hids. apply elem_of_flat_map. exists f. split; [done|]. by eapply children_known; [apply Ht|apply Hsub|].
Qed.

(** C19: The chart reaches the page.  For nodes and samples as in the chart's theorem
    whose numbers fit 32 bits, a request to the worker ends with arrays that the page
    reads without an error and links so that following the links from any frame gives
    that frame of the chart, with all below it and with the script of its url; the
    worker's caches are empty again. *)
Theorem chart_reaches_page DATA_DICT nodes memory rows (durs : Z -> Z) chart m0 data0 :
  let m := createCallChain nodes ∅ in
  let xs := filter (fun x => is_Some (m !! cs_functionId x) /\ cs_functionId x <> ROOT_ID) (sample_of memory <$> rows) in
  chain_ok nodes -> NoDup (cs_id <$> xs) ->
  Forall (fun x => durs (cs_id x) = cs_dur x /\ cs_endTime x = cs_startTime x + cs_dur x) xs ->
  nodes <> [] -> rows <> [] -> combineChartData m memory rows = Some chart -> Forall fits (flat_map frames_data chart) ->
  exists c, cpuProfilerDataReceiver memory nodes rows {| jc_jsCallChain := []; jc_jsSymbolMap := ∅; jc_data := data0 |} = Some c /\
    let '((res, len), c') := post_arrays c in
    jc_jsCallChain c' = [] /\ jc_jsSymbolMap c' = ∅ /\
    exists dataList, arrayBufferHandler res len = Some dataList /\
      forall f, f ∈ flat_map subframes chart ->
        copy_frame (length dataList) (cpuProfilerSupplierFrame DATA_DICT dataList m0) (cf_id (data_of f)) = Some (page_tree DATA_DICT f).
Proof.
  intros m xs Hc HN Hx Hn Hr Hchart Hf. destruct (chart_trees nodes memory rows durs Hc HN Hx) as (chart' & E & Ht & Hids & _).
  fold m in E. rewrite Hchart in E. injection E as <-. unfold cpuProfilerDataReceiver.
  rewrite (bool_decide_false (nodes = [])), (bool_decide_false (rows = [])) by done. cbn [jc_jsCallChain jc_jsSymbolMap jc_data].
  rewrite bool_decide_true by done. cbn [jc_jsSymbolMap]. fold m. rewrite Hchart. cbn [mbind option_bind].
  eexists. split; [done|]. unfold post_arrays. cbn [jc_data].
  pose proof (page_holds_chart DATA_DICT durs chart m0 Ht ltac:(rewrite Hids; apply NoDup_seqZ) Hf) as H.
  destruct (arrayBufferCallback _) as [res len]. by split_and!.
Qed.

(** ** Selection *)

Definition with_select (d : frame_data) : frame_data := with_script (cf_scriptName d) true d.

Fixpoint setSelectChildrenState (f : JsCpuProfilerChartFrame) : JsCpuProfilerChartFrame :=
  let 'Frame d cs := f in Frame (with_select d) (map setSelectChildrenState cs).

(** A caller of the selected frame: selected, with its time. *)
Definition with_selected_time (totalTime : Z) (d : frame_data) : frame_data :=
  with_times (cf_endTime d) 0 totalTime (cf_samplesIds d) (with_select d).

Fixpoint getSelectStruct (selectStruct : frame_data) (parentIdArr : list Z) (data : JsCpuProfilerChartFrame) :
    JsCpuProfilerChartFrame :=
  let 'Frame d cs := data in
  Frame d (map (fun child =>
    let child := if cf_id (data_of child) =? cf_id selectStruct then setSelectChildrenState child
                 else getSelectStruct selectStruct parentIdArr child in
    if bool_decide (cf_id (data_of child) ∈ parentIdArr) then with_data (with_selected_time (cf_totalTime selectStruct)) child else child) cs).

(** The results are [dataArr] and [parentIdArr]; a copy of a frame goes down at most
    [levels] levels. *)
Fixpoint getTopJsCpuProfilerStruct (fuel levels : nat) (chartFrameMap : gmap Z page_frame) (parentId : Z) (selectStruct : frame_data)
    (dataArr : list JsCpuProfilerChartFrame) (parentIdArr : list Z) : option (list JsCpuProfilerChartFrame * list Z) :=
  if (parentId =? -1) && (cf_parentId selectStruct =? -1) then
    if bool_decide (is_Some (chartFrameMap !! cf_id selectStruct) /\ dataArr = []) then
      copyData ← copy_frame levels chartFrameMap (cf_id selectStruct);
      Some ([setSelectChildrenState copyData], parentIdArr)
    else Some (dataArr, parentIdArr)
  else
    match chartFrameMap !! parentId with
    | None => Some (dataArr, parentIdArr)
    | Some parent =>
        match fuel with
        | 0%nat => None
        | S fuel =>
            let p := pf_data parent in
            '(dataArr, parentIdArr) ← getTopJsCpuProfilerStruct fuel levels chartFrameMap (cf_parentId p) selectStruct dataArr
                                        (parentIdArr ++ [cf_id p]);
            if (cf_parentId p =? -1) && bool_decide (dataArr = []) then
              copyParent ← copy_frame levels chartFrameMap (cf_id p);
              Some ([getSelectStruct selectStruct parentIdArr
                       (with_data (with_selected_time (cf_totalTime selectStruct)) copyParent)], parentIdArr)
            else Some (dataArr, parentIdArr)
        end
    end.

(** The frames for the sheet when [selectStruct] is clicked. *)
Definition JsCpuProfilerStructOnClick (chartFrameMap : gmap Z page_frame) (selectStruct : frame_data) :
    option (list JsCpuProfilerChartFrame) :=
  fst <$> getTopJsCpuProfilerStruct (size chartFrameMap) (size chartFrameMap) chartFrameMap (cf_parentId selectStruct) selectStruct [] [].

(** ** What a click selects *)

(** The frame at a path of child indices, and the numbers of the frames above it. *)
Fixpoint frame_at (p : list nat) (f : JsCpuProfilerChartFrame) : option JsCpuProfilerChartFrame :=
  match p with [] => Some f | i :: p => children_of f !! i ≫= frame_at p end.

Fixpoint above (p : list nat) (f : JsCpuProfilerChartFrame) : list Z :=
  match p with
  | [] => []
  | i :: p => cf_id (data_of f) :: match children_of f !! i with Some c => above p c | None => [] end
  end.

(** The frame at the path and all below it are selected, the frames above it too,
    with its time. *)
Fixpoint select_at (totalTime : Z) (p : list nat) (f : JsCpuProfilerChartFrame) : JsCpuProfilerChartFrame :=
  match p with
  | [] => setSelectChildrenState f
  | i :: p => let 'Frame d cs := f in Frame (with_selected_time totalTime d) (alter (select_at totalTime p) i cs)
  end.

Lemma ids_child cs i c : cs !! i = Some c -> forall x, x ∈ ids_of c -> x ∈ flat_map ids_of cs.
Proof. intros Hc x Hx. apply elem_of_flat_map. exists c. split; [by eapply list_elem_of_lookup_2|done]. Qed.

Lemma id_in_tree f : cf_id (data_of f) ∈ ids_of f.
Proof. destruct f. by left. Qed.

Lemma frame_at_ids p f g : frame_at p f = Some g -> forall x, x ∈ ids_of g -> x ∈ ids_of f.
Proof.
  revert f. induction p as [|i p IH]; intros f Hg x Hx; [injection Hg as ->; done|]. cbn in Hg.
  destruct (children_of f !! i) as [c|] eqn:Hc; [|done]. destruct f as [d cs]. right. eapply ids_child; [done|]. by apply (IH c).
Qed.

Lemma above_ids p f x : x ∈ above p f -> x ∈ ids_of f.
Proof.
  revert f. induction p as [|i p IH]; intros f Hx; [by apply not_elem_of_nil in Hx|]. cbn in Hx.
  apply elem_of_cons in Hx as [->|Hx]; [apply id_in_tree|]. destruct (children_of f !! i) as [c|] eqn:Hc; [|by apply not_elem_of_nil in Hx].
  destruct f as [d cs]. right. eapply ids_child; [done|]. by apply IH.
Qed.

Lemma NoDup_sibling {A B} (h : A -> list B) l i j a b x :
  NoDup (flat_map h l) -> l !! i = Some a -> l !! j = Some b -> i <> j -> x ∈ h a -> x ∈ h b -> False.
Proof.
  revert i j. induction l as [|c l IH]; intros i j HN Hi Hj Hne Ha Hb; [done|]. cbn in HN. apply NoDup_app in HN as (_ & Hd & HN).
  destruct i as [|i], j as [|j]; cbn in *; [done| | |].
  - injection Hi as ->. apply (Hd x Ha). apply elem_of_flat_map. exists b. split; [by eapply list_elem_of_lookup_2|done].
  - injection Hj as ->. apply (Hd x Hb). apply elem_of_flat_map. exists a. split; [by eapply list_elem_of_lookup_2|done].
  - apply (IH i j HN Hi Hj); [congruence|done|done].
Qed.

Lemma NoDup_child {A B} (h : A -> list B) l i a : NoDup (flat_map h l) -> l !! i = Some a -> NoDup (h a).
Proof.
  revert i. induction l as [|c l IH]; intros i HN Hi; [done|]. cbn in HN. apply NoDup_app in HN as (Hc & _ & HN).
  destruct i as [|i]; [by injection Hi as <-|]. by apply (IH i).
Qed.

Lemma map_id_on {A} (h : A -> A) l : (forall a, a ∈ l -> h a = a) -> map h l = l.
Proof. induction l as [|a l IH]; intros H; [done|]. cbn. rewrite H by (by left). f_equal. apply IH. intros. apply H. by right. Qed.

Section Select.
Context (sel : frame_data) (arr : list Z).

Lemma getSelect_data f : data_of (getSelectStruct sel arr f) = data_of f.
Proof. by destruct f. Qed.

Lemma setSelect_id f : cf_id (data_of (setSelectChildrenState f)) = cf_id (data_of f).
Proof. by destruct f. Qed.

(** Nothing changes where there is nothing of the path. *)
Lemma getSelect_off f :
  (forall x, x ∈ ids_of f -> x <> cf_id sel /\ x ∉ arr) -> getSelectStruct sel arr f = f.
Proof.
  induction f as [d cs IH] using frame_ind'. intros H. cbn. f_equal. apply map_id_on. intros c Hc.
  assert (Hids : forall x, x ∈ ids_of c -> x <> cf_id sel /\ x ∉ arr).
  { intros x Hx. apply H. right. apply elem_of_flat_map. by exists c. }
  destruct (Hids _ (id_in_tree c)) as [Hne Hna]. rewrite (proj2 (Z.eqb_neq _ _) Hne). rewrite Forall_forall in IH.
  rewrite (IH c Hc Hids). by rewrite bool_decide_false.
Qed.

Lemma getSelect_path p : forall f,
  p <> [] -> NoDup (ids_of f) -> (cf_id ∘ data_of <$> frame_at p f = Some (cf_id sel)) ->
  (forall x, x ∈ ids_of f -> x ∈ arr <-> x ∈ above p f) ->
  with_data (with_selected_time (cf_totalTime sel)) (getSelectStruct sel arr f) = select_at (cf_totalTime sel) p f.
Proof.
  induction p as [|i p IH]; intros [d cs] Hne HN Hg Harr; [done|]. cbn [frame_at children_of] in Hg.
  destruct (cs !! i) as [c|] eqn:Hc; [|done]. cbn [mbind option_bind] in Hg. destruct (frame_at p c) as [g|] eqn:Hgc; [|done].
  injection Hg as Hg. cbn in HN. apply NoDup_cons in HN as [Hd HN]. pose proof (NoDup_child _ _ _ _ HN Hc) as HNc.
  assert (Hgin : cf_id sel ∈ ids_of c) by (rewrite <- Hg; apply (frame_at_ids p c g Hgc), id_in_tree).
  assert (Harr' : forall x, x ∈ ids_of c -> x ∈ arr <-> x ∈ above p c).
  { intros x Hx. rewrite (Harr x) by (right; by eapply ids_child). cbn. rewrite Hc, elem_of_cons. split; [|by right].
    intros [->|?]; [|done]. exfalso. apply Hd. by eapply ids_child. }
  cbn [getSelectStruct with_data select_at]. f_equal. apply list_eq. intros j. rewrite list_lookup_fmap.
  destruct (decide (i = j)) as [<-|Hij].
  - rewrite list_lookup_alter_eq, Hc. cbn [fmap option_fmap option_map]. f_equal. destruct p as [|k p].
    + cbn in Hgc. injection Hgc as ->. rewrite Hg, Z.eqb_refl. rewrite setSelect_id, Hg. cbn [select_at].
      rewrite bool_decide_false; [done|]. rewrite (Harr' (cf_id sel) Hgin). apply not_elem_of_nil.
    + assert (Hcs : cf_id (data_of c) <> cf_id sel).
      { intros E. destruct c as [dc csc]. cbn in E, HNc, Hgc. apply NoDup_cons in HNc as [Hdc _]. apply Hdc. rewrite E, <- Hg.
        destruct (csc !! k) as [c'|] eqn:Hc'; [|done]. eapply ids_child; [done|]. apply (frame_at_ids p c' g Hgc), id_in_tree. }
      rewrite (proj2 (Z.eqb_neq _ _) Hcs), getSelect_data. rewrite bool_decide_true.
      * apply IH; [done|done| |done]. by rewrite Hgc, <- Hg.
      * apply Harr'; [apply id_in_tree|]. by left.
  - rewrite list_lookup_alter_ne by done. destruct (cs !! j) as [b|] eqn:Hb; [|done]. cbn [fmap option_fmap option_map]. f_equal.
    assert (Hoff : forall x, x ∈ ids_of b -> x <> cf_id sel /\ x ∉ arr).
    { intros x Hx. split.
      - intros ->. by apply (NoDup_sibling ids_of cs i j c b (cf_id sel)).
      - rewrite (Harr x) by (right; by eapply ids_child). cbn. rewrite Hc, elem_of_cons. intros [->|Ha].
        + apply Hd. by eapply ids_child.
        + apply (NoDup_sibling ids_of cs i j c b x); try done. by apply above_ids in Ha. }
    destruct (Hoff _ (id_in_tree b)) as [Hb1 Hb2]. rewrite (proj2 (Z.eqb_neq _ _) Hb1). rewrite getSelect_off by done. by rewrite bool_decide_false.
Qed.
End Select.

Lemma frame_at_snoc q i f a : frame_at (q ++ [i]) f = Some a <-> exists b, frame_at q f = Some b /\ children_of b !! i = Some a.
Proof.
  revert f. induction q as [|j q IH]; intros f; cbn.
  - split.
    + destruct (children_of f !! i) as [c|] eqn:E; [|done]. cbn. intros [= <-]. by exists f.
    + intros (b & [= <-] & ->). done.
  - destruct (children_of f !! j) as [c|]; cbn; [apply IH|]. split; [done|]. by intros (? & ? & _).
Qed.

Lemma above_snoc q i f b : frame_at q f = Some b -> above (q ++ [i]) f = above q f ++ [cf_id (data_of b)].
Proof.
  revert f. induction q as [|j q IH]; intros f Hb; cbn in *.
  - injection Hb as <-. by destruct (children_of f !! i).
  - destruct (children_of f !! j) as [c|]; [|done]. cbn in Hb. by rewrite (IH c Hb).
Qed.

Section Click.
Context (m : gmap Z page_frame) (root : JsCpuProfilerChartFrame) (durs : Z -> Z).
Context (Ht : chart_tree durs 0 root) (Hroot : cf_parentId (data_of root) = -1) (Hm : holds m root).
Context (Hids : forall x, x ∈ ids_of root -> 0 <= x) (HN : NoDup (ids_of root)) (Hno : m !! (-1) = None).

Lemma at_tree q : forall a, frame_at q root = Some a -> (exists n, chart_tree durs n a) /\ holds m a.
Proof using Ht Hm.
  induction q as [|i q IH] using rev_ind; intros a Ha; [injection Ha as <-; split; [by exists 0|done]|].
  apply frame_at_snoc in Ha as (b & Hb & Ha). destruct (IH b Hb) as [[n Hn] Hh]. inversion Hn as [n' d cs N Hcs]. subst. cbn in Ha. split.
  - exists (n + 1). rewrite Forall_forall in Hcs. apply Hcs. by eapply list_elem_of_lookup_2.
  - eapply holds_child; [done|]. by eapply list_elem_of_lookup_2.
Qed.

Lemma parent_of q i b a : frame_at q root = Some b -> children_of b !! i = Some a -> cf_parentId (data_of a) = cf_id (data_of b).
Proof using Ht Hm.
  intros Hb Ha. destruct (at_tree q b Hb) as [[n Hn] _]. inversion Hn as [n' d cs N _]. subst. pose proof (no_parent _ _ _ _ _ N) as Hp.
  rewrite Forall_forall in Hp. apply Hp. by eapply list_elem_of_lookup_2.
Qed.

Lemma frames_size : (length (frames_data root) <= size m)%nat.
Proof using Hm HN.
  rewrite <- (length_fmap cf_id), <- ids_of_frames. rewrite <- (size_list_to_set (C := gset Z) (ids_of root)) by done.
  rewrite <- size_dom. apply subseteq_size. intros x Hx. apply elem_of_list_to_set in Hx. rewrite ids_of_frames in Hx.
  apply list_elem_of_fmap in Hx as (d & -> & Hd). apply elem_of_dom. by rewrite (Hm d Hd).
Qed.

Lemma path_frames q a : frame_at q root = Some a -> (length q < length (frames_data root))%nat.
Proof using.
  clear. revert root. induction q as [|i q IH]; intros f Ha; [by destruct f; cbn; lia|]. destruct f as [d cs]. cbn in *.
  destruct (cs !! i) as [c|] eqn:Hc; [|done]. specialize (IH c Ha). apply -> Nat.succ_lt_mono. eapply Nat.lt_le_trans; [exact IH|].
  apply length_flat_map_elem. by eapply list_elem_of_lookup_2.
Qed.

Lemma top_walk sel q : forall a arr fuel,
  frame_at q root = Some a -> cf_parentId sel <> -1 -> (length q < fuel)%nat ->
  let arr' := arr ++ reverse (above q root ++ [cf_id (data_of a)]) in
  getTopJsCpuProfilerStruct fuel (size m) m (cf_id (data_of a)) sel [] arr =
    Some ([getSelectStruct sel arr' (with_data (with_selected_time (cf_totalTime sel)) root)], arr').
Proof using Ht Hroot Hm Hids HN Hno.
  induction q as [|i q IH] using rev_ind; intros a arr fuel Ha Hs Hf; (destruct fuel as [|fuel]; [lia|]).
  all: assert (Hge : 0 <= cf_id (data_of a)) by (apply Hids; by eapply frame_at_ids, id_in_tree).
  all: destruct (at_tree _ a Ha) as [_ Hh]; cbn [getTopJsCpuProfilerStruct].
  all: rewrite (proj2 (Z.eqb_neq (cf_id (data_of a)) (-1))) by lia; cbn [andb].
  all: rewrite (Hh (data_of a)) by (destruct a; by left); cbn [pf_data].
  - injection Ha as <-. rewrite Hroot. destruct fuel as [|fuel]; cbn [getTopJsCpuProfilerStruct].
    all: rewrite (proj2 (Z.eqb_neq (cf_parentId sel) (-1)) Hs), andb_false_r, Hno; cbn [mbind option_bind].
    all: rewrite bool_decide_true by done; cbn [andb Z.eqb Pos.eqb].
    all: rewrite (copy_held durs m root 0) by (done || (etrans; [apply height_frames|apply frames_size])).
    all: by cbn.
  - rewrite length_app in Hf. cbn in Hf. apply frame_at_snoc in Ha as (b & Hb & Hc).
    rewrite (parent_of q i b a Hb Hc). rewrite (IH b (arr ++ [cf_id (data_of a)]) fuel Hb Hs) by lia. cbn [mbind option_bind].
    assert (Hgb : 0 <= cf_id (data_of b)) by (apply Hids; by eapply frame_at_ids, id_in_tree).
    rewrite (proj2 (Z.eqb_neq (cf_id (data_of b)) (-1))) by lia. cbn [andb].
    rewrite (above_snoc q i root b Hb), (reverse_app (above q root ++ _) [_]). cbn [reverse rev_append]. by rewrite app_assoc.
Qed.
End Click.

(** A click on a frame of the chart selects, in a copy of its tree, exactly that
    frame with all below it and the frames above it; the frames above get the time of
    the selected frame and no time of their own, and nothing else changes. *)
Theorem click_selects m root durs p g :
  chart_tree durs 0 root -> cf_parentId (data_of root) = -1 -> holds m root -> Forall (Z.le 0) (ids_of root) ->
  NoDup (ids_of root) -> m !! (-1) = None -> frame_at p root = Some g ->
  JsCpuProfilerStructOnClick m (data_of g) = Some [select_at (cf_totalTime (data_of g)) p root].
Proof.
  intros Ht Hroot Hm Hids HN Hno Hg. rewrite Forall_forall in Hids. unfold JsCpuProfilerStructOnClick.
  pose proof (frames_size m root Hm HN) as Hsz.
  destruct p as [|i p] using rev_ind.
  - injection Hg as <-. rewrite Hroot. assert (Hl : is_Some (m !! cf_id (data_of root))) by (rewrite (Hm (data_of root)) by (destruct root; by left); done).
    assert (E : forall fuel, getTopJsCpuProfilerStruct fuel (size m) m (-1) (data_of root) [] [] = Some ([setSelectChildrenState root], [])).
    { intros fuel. destruct fuel; cbn [getTopJsCpuProfilerStruct]; rewrite Hroot; cbn [Z.eqb Pos.eqb andb]; rewrite bool_decide_true by done;
        by rewrite (copy_held durs m root 0) by (done || (etrans; [apply height_frames|exact Hsz])). }
    by rewrite E.
  - clear IHp. pose proof Hg as (b & Hb & Hc)%frame_at_snoc. rewrite (parent_of m root durs Ht Hm p i b g Hb Hc).
    assert (Hgb : 0 <= cf_id (data_of b)) by (apply Hids; by eapply frame_at_ids, id_in_tree).
    rewrite (top_walk m root durs Ht Hroot Hm Hids HN Hno (data_of g) p b []).
    2: done. 2:{ rewrite (parent_of m root durs Ht Hm p i b g Hb Hc). lia. }
    2:{ eapply Nat.lt_le_trans; [by eapply path_frames|exact Hsz]. }
    cbn [fmap option_fmap option_map fst app]. do 2 f_equal.
    rewrite <- (getSelect_path (data_of g) (reverse (above p root ++ [cf_id (data_of b)])) (p ++ [i]) root).
    + destruct root as [d cs]. done.
    + by destruct p.
    + done.
    + by rewrite Hg.
    + intros x _. by rewrite elem_of_reverse, (above_snoc p i root b Hb).
Qed.

#[export] Instance frame_data_eq_dec : EqDecision frame_data.
Proof. solve_decision. Defined.

#[export] Instance page_frame_eq_dec : EqDecision page_frame.
Proof. solve_decision. Defined.

#[export] Instance fits_dec d : Decision (fits d).
Proof. unfold fits. apply _. Defined.

(** The example of [JsChart]. *)
Definition jx_chart : list JsCpuProfilerChartFrame := default [] (combineChartData (createCallChain jx_nodes ∅) true jx_rows).

Definition jx_list : list frame_data :=
  default [] (arrayBufferHandler (ArkTS (getArrayData jx_chart clearJsCacheData)) (length (flat_map frames_data jx_chart))).

Definition jx_dict : gmap Z jsstring := <[20 := js "src/pages/Index.ets"]> ∅.

Definition jx_map : gmap Z page_frame := cpuProfilerSupplierFrame jx_dict jx_list ∅.

Lemma jx_chart_eq : combineChartData (createCallChain jx_nodes ∅) true jx_rows = Some jx_chart.
Proof. vm_compute. reflexivity. Qed.

Lemma jx_trees : Forall (chart_tree jx_durs 0) jx_chart.
Proof.
  destruct (chart_trees jx_nodes true jx_rows jx_durs jx_chain_ok (proj1 jx_shown_ok) (proj2 jx_shown_ok)) as (chart & E & Ht & _).
  rewrite jx_chart_eq in E. apply (inj Some) in E as <-. exact Ht.
Qed.

Lemma chart_reaches_page_witness :
  exists c, cpuProfilerDataReceiver true jx_nodes jx_rows {| jc_jsCallChain := []; jc_jsSymbolMap := ∅; jc_data := clearJsCacheData |} = Some c /\
    let '((res, len), c') := post_arrays c in
    jc_jsCallChain c' = [] /\ jc_jsSymbolMap c' = ∅ /\
    exists dataList, arrayBufferHandler res len = Some dataList /\
      forall f, f ∈ flat_map subframes jx_chart ->
        copy_frame (length dataList) (cpuProfilerSupplierFrame jx_dict dataList ∅) (cf_id (data_of f)) = Some (page_tree jx_dict f).
Proof.
  apply (chart_reaches_page jx_dict jx_nodes true jx_rows jx_durs jx_chart ∅ clearJsCacheData jx_chain_ok (proj1 jx_shown_ok)
    (proj2 jx_shown_ok)); [discriminate|discriminate|exact jx_chart_eq|]. apply (bool_decide_unpack _). vm_compute. exact I.
Defined.

(** A click on the second child of the first tree. *)
Definition jx_root : JsCpuProfilerChartFrame :=
  page_tree jx_dict (nth 0 jx_chart (Frame (data_of (symbolToChartFrame new_JsCpuProfilerSample (row_own (jx_node 0 0 0)) 0)) [])).

Lemma jx_root_tree : chart_tree jx_durs 0 jx_root.
Proof.
  apply chart_tree_page. pose proof jx_trees as H. rewrite Forall_forall in H. apply H.
  destruct jx_chart as [|f fs] eqn:E; [|by left]. apply (f_equal length) in E. vm_compute in E. discriminate.
Qed.

Lemma click_selects_witness :
  exists g, frame_at [1%nat] jx_root = Some g /\ cf_nameId (data_of g) = 12 /\
    JsCpuProfilerStructOnClick jx_map (data_of g) = Some [select_at (cf_totalTime (data_of g)) [1%nat] jx_root].
Proof.
  destruct (frame_at [1%nat] jx_root) as [g|] eqn:Hg; [|vm_compute in Hg; discriminate]. exists g. split; [reflexivity|]. split.
  { assert (H : (fun f => cf_nameId (data_of f)) <$> frame_at [1%nat] jx_root = Some 12) by (vm_compute; reflexivity).
    rewrite Hg in H. apply (inj Some) in H. exact H. }
  apply (click_selects jx_map jx_root jx_durs [1%nat] g jx_root_tree).
  - vm_compute. reflexivity.
  - assert (H : Forall (fun d => jx_map !! cf_id d = Some {| pf_data := d; pf_children := Some <$> cf_childrenIds d |}) (frames_data jx_root))
      by (apply (bool_decide_unpack _); vm_compute; exact I).
    rewrite Forall_forall in H. exact H.
  - apply (bool_decide_unpack _). vm_compute. exact I.
  - apply (bool_decide_unpack _). vm_compute. exact I.
  - vm_compute. reflexivity.
  - exact Hg.
Defined.
