(* ===== verification/JsProfiler.v ===== *)
(** * The sheets of the JavaScript CPU profiler

    [trace/database/logic-worker/ProcedureLogicWorkerJsCpuProfiler.ts]: the selected
    frames of the flame chart ([JsChart], [JsChartPage]) are merged into a call tree,
    from the callers down or from the callees up, and the time of the samples is
    summed by kind.  Frames arrive in the worker as copies, so they are trees here;
    the numbers of the frames stand for their identity.  The functions that go down
    a forest take a number of levels and return [None] when it is too small. *)

From S2P Require Import Prelude JsRuntime HeapModel CallTree JsChart JsChartPage.

(** ** Data *)

Record tab_data := {
  jt_id : Z;
  jt_nameId : Z;
  jt_selfTime : Z;
  jt_totalTime : Z;
  jt_depth : option Z;
  jt_urlId : Z;
  jt_line : Z;
  jt_column : Z;
  jt_scriptName : jsstring;
}.

Inductive JsCpuProfilerTabStruct := Tab (d : tab_data) (children : list JsCpuProfilerTabStruct).

Definition tab_of (t : JsCpuProfilerTabStruct) : tab_data := let 'Tab d _ := t in d.
Definition tab_children (t : JsCpuProfilerTabStruct) : list JsCpuProfilerTabStruct := let 'Tab _ cs := t in cs.

Definition chartFrameToTabStruct (d : frame_data) (tabDataId : Z) : tab_data :=
  {| jt_id := tabDataId; jt_nameId := cf_nameId d; jt_selfTime := cf_selfTime d; jt_totalTime := cf_totalTime d;
     jt_depth := cf_depth d; jt_urlId := cf_urlId d; jt_line := cf_line d; jt_column := cf_column d;
     jt_scriptName := if bool_decide (cf_scriptName d = []) then js "unknown" else cf_scriptName d |}.

Definition add_times (d : frame_data) (t : tab_data) : tab_data :=
  {| jt_id := jt_id t; jt_nameId := jt_nameId t; jt_selfTime := jt_selfTime t + cf_selfTime d;
     jt_totalTime := jt_totalTime t + cf_totalTime d; jt_depth := jt_depth t; jt_urlId := jt_urlId t; jt_line := jt_line t;
     jt_column := jt_column t; jt_scriptName := jt_scriptName t |}.

(** ** From the callers down *)

(** A function by its name and url; one without a name by its place too. *)
Definition symbol_text (nameId urlId line column : Z) : jsstring :=
  js_toString 10 nameId ++ js " " ++ js_toString 10 urlId ++
  (if nameId =? 0 then js " " ++ js_toString 10 line ++ js " " ++ js_toString 10 column else []).

Definition symbolKey (d : frame_data) : jsstring := symbol_text (cf_nameId d) (cf_urlId d) (cf_line d) (cf_column d).

(** A level while it is merged: the frames of the sheet with the chart frames below
    them ([chartFrameChildren]), by place; [sameSymbolMap] has the places. *)
Record level_state := {
  lv_data : list (tab_data * list JsCpuProfilerChartFrame);
  lv_map : list (jsstring * nat);
  lv_id : Z;
}.

Definition level_frame (st : level_state) (chartFrame : JsCpuProfilerChartFrame) : level_state :=
  let 'Frame d children := chartFrame in
  if cf_isSelect d then
    match map_get (lv_map st) (symbolKey d) with
    | Some k =>
        {| lv_data := alter (fun '(t, kids) => (add_times d t, kids ++ children)) k (lv_data st); lv_map := lv_map st;
           lv_id := lv_id st |}
    | None =>
        {| lv_data := lv_data st ++ [(chartFrameToTabStruct d (lv_id st), children)];
           lv_map := map_set (lv_map st) (symbolKey d) (length (lv_data st)); lv_id := lv_id st + 1 |}
    end
  else st.

Definition merge_level (frames : list JsCpuProfilerChartFrame) (tabDataId : Z) : level_state :=
  foldl level_frame {| lv_data := []; lv_map := []; lv_id := tabDataId |} frames.

(** The merged frames and the next number: a level gets its numbers before the
    levels below it. *)
Fixpoint combineTopDownData (levels : nat) (chartArray : list JsCpuProfilerChartFrame) (tabDataId : Z) :
    option (list JsCpuProfilerTabStruct * Z) :=
  match levels with
  | 0%nat => None
  | S levels =>
      let level := merge_level chartArray tabDataId in
      foldM (fun '(tabs, id) '(t, kids) =>
          '(children, id) ← combineTopDownData levels kids id; Some (tabs ++ [Tab t children], id))
        (lv_data level) ([], lv_id level)
  end.

(** ** From the callees up *)

Definition cloneChartFrame (selfTime totalTime : Z) (d : frame_data) : frame_data :=
  {| cf_id := cf_id d; cf_nameId := cf_nameId d; cf_urlId := cf_urlId d; cf_line := cf_line d; cf_column := cf_column d;
     cf_depth := cf_depth d; cf_startTime := cf_startTime d; cf_endTime := cf_endTime d; cf_selfTime := selfTime;
     cf_totalTime := totalTime; cf_parentId := cf_parentId d; cf_childrenIds := []; cf_samplesIds := [];
     cf_isSelect := true; cf_scriptName := cf_scriptName d |}.

(** The callers of a frame, nearest first, as frames below it with its times. *)
Fixpoint copyParent (selfTime totalTime : Z) (parents : list frame_data) : list JsCpuProfilerChartFrame :=
  match parents with
  | [] => []
  | p :: parents => [Frame (cloneChartFrame selfTime totalTime p) (copyParent selfTime totalTime parents)]
  end.

Fixpoint recursionTree (parents : list frame_data) (chartFrame : JsCpuProfilerChartFrame) : list JsCpuProfilerChartFrame :=
  let 'Frame d children := chartFrame in
  if cf_isSelect d then
    (if 0 <? cf_selfTime d
     then [Frame (cloneChartFrame (cf_selfTime d) (cf_totalTime d) d) (copyParent (cf_selfTime d) (cf_totalTime d) parents)]
     else []) ++ flat_map (recursionTree (d :: parents)) children
  else [].

Definition reverseChartFrameTree (chartTreeArray : list JsCpuProfilerChartFrame) : list JsCpuProfilerChartFrame :=
  flat_map (recursionTree []) chartTreeArray.

Definition combineBottomUpData (levels : nat) (chartTreeArray : list JsCpuProfilerChartFrame) (tabDataId : Z) :
    option (list JsCpuProfilerTabStruct * Z) :=
  combineTopDownData levels (reverseChartFrameTree chartTreeArray) tabDataId.

(** ** By kind *)

Inductive SampleType := OTHER | NAPI | ARKUI_ENGINE | BUILTIN | GC | AINT | CINT | AOT | RUNTIME.

#[export] Instance SampleType_eq_dec : EqDecision SampleType.
Proof. solve_decision. Defined.

(** A sample; its kind may be [undefined]. *)
Record typed_sample := { ty_sample : JsCpuProfilerSample; ty_type : option SampleType }.

Definition LAMBDA_FUNCTION_NAME : jsstring := js "(anonymous)".

Definition lastIndexOf (s : jsstring) (c : Z) : Z :=
  match list_find (.= c) (reverse s) with Some (k, _) => zlen s - 1 - Z.of_nat k | None => -1 end.

(** [String.prototype.substring]: indices are clamped and put in order. *)
Definition js_substring (s : jsstring) (a b : Z) : jsstring :=
  let clamp i := Z.min (Z.max i 0) (zlen s) in
  let lo := Z.min (clamp a) (clamp b) in
  let hi := Z.max (clamp a) (clamp b) in
  take (Z.to_nat (hi - lo)) (drop (Z.to_nat lo) s).

Definition type_names : list (jsstring * SampleType) :=
  [(js "NAPI", NAPI); (js "ARKUI_ENGINE", ARKUI_ENGINE); (js "BUILTIN", BUILTIN); (js "GC", GC); (js "AINT", AINT);
   (js "CINT", CINT); (js "AOT", AOT); (js "RUNTIME", RUNTIME)].

Definition type_of_name (name : jsstring) (old : option SampleType) : option SampleType :=
  match map_get type_names (js_substring name (lastIndexOf name 40 + 1) (lastIndexOf name 41)) with
  | Some t => Some t
  | None => if bool_decide (name = js "(program)") then old else Some OTHER
  end.

Definition setChartDataType (jsSymbolMap : gmap Z JsProfilerSymbol) (dataDict : gmap Z jsstring) (sample : typed_sample) : typed_sample :=
  match jsSymbolMap !! cs_functionId (ty_sample sample) with
  | None => sample
  | Some chartData =>
      let name := match dataDict !! jp_nameId chartData with Some (c :: text) => c :: text | _ => LAMBDA_FUNCTION_NAME end in
      {| ty_sample := ty_sample sample;
         ty_type := if jp_id chartData =? ROOT_ID then Some OTHER else type_of_name name (ty_type sample) |}
  end.

(** The results are [samplesIds] and, by their numbers, [lastLayerData]. *)
Fixpoint findSamplesIds (data : JsCpuProfilerChartFrame) (st : list Z * list Z) : list Z * list Z :=
  let 'Frame d children := data in
  let '(samplesIds, lastLayerData) := st in
  if cf_isSelect d && (0 <? cf_selfTime d) && negb (bool_decide (cf_id d ∈ lastLayerData))
  then (samplesIds ++ cf_samplesIds d, lastLayerData ++ [cf_id d])
  else foldl (fun st c => findSamplesIds c st) st children.

(** The time of a sample within the selected range, if it is in it at all; a bound
    of 0 counts as none. *)
Definition sample_time (leftNs rightNs : Z) (sample : JsCpuProfilerSample) : option Z :=
  if truthy leftNs && truthy rightNs then
    if (rightNs <? cs_startTime sample) || (cs_endTime sample <? leftNs) then None
    else
      let startTime := if cs_startTime sample <? leftNs then leftNs else cs_startTime sample in
      let endTime := if rightNs <? cs_endTime sample then rightNs else cs_endTime sample in
      Some (endTime - startTime)
  else Some (cs_dur sample).

Definition add_time (typeMap : list (SampleType * Z)) (type : SampleType) (time : Z) : list (SampleType * Z) :=
  match map_get typeMap type with
  | Some typeDur => if truthy typeDur then map_set typeMap type (typeDur + time) else map_set typeMap type time
  | None => map_set typeMap type time
  end.

(** One number; [samplesIdsArr] has the numbers of the samples that were counted. *)
Definition statistic_id (samples : list typed_sample) (leftNs rightNs : Z) (st : list (SampleType * Z) * list Z) (id : Z) :
    list (SampleType * Z) * list Z :=
  let '(typeMap, samplesIdsArr) := st in
  match zlookup id samples with
  | Some {| ty_sample := sample; ty_type := Some type |} =>
      match sample_time leftNs rightNs sample with
      | Some time => if bool_decide (id ∈ samplesIdsArr) then st else (add_time typeMap type time, samplesIdsArr ++ [id])
      | None => st
      end
  | _ => st
  end.

Definition calStatistic (samples : list typed_sample) (chartData : list JsCpuProfilerChartFrame) (leftNs rightNs : Z) :
    list (SampleType * Z) :=
  let '(samplesIds, _) := foldl (fun st f => findSamplesIds f st) ([], []) chartData in
  fst (foldl (statistic_id samples leftNs rightNs) ([], []) samplesIds).

(** ** Frames and rows by their callers *)

Definition tab_key (t : tab_data) : jsstring := symbol_text (jt_nameId t) (jt_urlId t) (jt_line t) (jt_column t).

(** The selected frames of a function. *)
Definition frames_of (k : jsstring) (fs : list JsCpuProfilerChartFrame) : list JsCpuProfilerChartFrame :=
  filter (fun f => cf_isSelect (data_of f) = true /\ symbolKey (data_of f) = k) fs.

Definition rows_of (k : jsstring) (ts : list JsCpuProfilerTabStruct) : list JsCpuProfilerTabStruct :=
  filter (fun t => tab_key (tab_of t) = k) ts.

Definition frames_below (fs : list JsCpuProfilerChartFrame) (k : jsstring) : list JsCpuProfilerChartFrame :=
  flat_map children_of (frames_of k fs).

Definition rows_below (ts : list JsCpuProfilerTabStruct) (k : jsstring) : list JsCpuProfilerTabStruct :=
  flat_map tab_children (rows_of k ts).

(** Those of function [k] called by [callers], outermost first, all selected. *)
Definition frames_along (callers : list jsstring) (k : jsstring) (fs : list JsCpuProfilerChartFrame) : list JsCpuProfilerChartFrame :=
  frames_of k (foldl frames_below fs callers).

Definition rows_along (callers : list jsstring) (k : jsstring) (ts : list JsCpuProfilerTabStruct) : list JsCpuProfilerTabStruct :=
  rows_of k (foldl rows_below ts callers).

Lemma frames_of_app k fs gs : frames_of k (fs ++ gs) = frames_of k fs ++ frames_of k gs.
Proof. apply filter_app. Qed.

Lemma frames_below_app k fs gs : frames_below (fs ++ gs) k = frames_below fs k ++ frames_below gs k.
Proof. unfold frames_below. by rewrite frames_of_app, flat_map_app. Qed.

Lemma foldl_below_app callers fs gs : foldl frames_below (fs ++ gs) callers = foldl frames_below fs callers ++ foldl frames_below gs callers.
Proof. revert fs gs. induction callers as [|c cs IH]; intros fs gs; [done|]. cbn. by rewrite frames_below_app, IH. Qed.

Lemma frames_along_app callers k fs gs : frames_along callers k (fs ++ gs) = frames_along callers k fs ++ frames_along callers k gs.
Proof. unfold frames_along. by rewrite foldl_below_app, frames_of_app. Qed.

Lemma foldl_below_nil callers : foldl frames_below [] callers = [] /\ foldl rows_below [] callers = [].
Proof. by induction callers. Qed.

(** ** A level *)

(** A row stands for the frames of its function. *)
Definition row_ok (fs : list JsCpuProfilerChartFrame) (t : tab_data) : Prop :=
  fs <> [] /\ jt_totalTime t = zsum ((fun f => cf_totalTime (data_of f)) <$> fs) /\
  jt_selfTime t = zsum ((fun f => cf_selfTime (data_of f)) <$> fs).

Record level_ok (fs : list JsCpuProfilerChartFrame) (id0 : Z) (st : level_state) : Prop := {
  lo_none : forall k, map_get (lv_map st) k = None -> frames_of k fs = [];
  lo_some : forall k j, map_get (lv_map st) k = Some j -> exists t, lv_data st !! j = Some (t, frames_below fs k) /\
    tab_key t = k /\ row_ok (frames_of k fs) t;
  lo_place : forall j t kids, lv_data st !! j = Some (t, kids) -> map_get (lv_map st) (tab_key t) = Some j;
  lo_ids : (jt_id ∘ fst) <$> lv_data st = seqZ id0 (zlen (lv_data st)) /\ lv_id st = id0 + zlen (lv_data st);
}.

Lemma level_frame_ok fs id0 st f : level_ok fs id0 st -> level_ok (fs ++ [f]) id0 (level_frame st f).
Proof.
  intros L. destruct f as [d cs]. unfold level_frame.
  assert (Hof : forall k, frames_of k (fs ++ [Frame d cs]) =
    frames_of k fs ++ (if decide (cf_isSelect d = true /\ symbolKey d = k) then [Frame d cs] else [])).
  { intros k. by rewrite frames_of_app. }
  assert (Hbe : forall k, frames_below (fs ++ [Frame d cs]) k =
    frames_below fs k ++ (if decide (cf_isSelect d = true /\ symbolKey d = k) then cs else [])).
  { intros k. unfold frames_below. rewrite Hof, flat_map_app. f_equal. destruct (decide _); [cbn; by rewrite app_nil_r|done]. }
  destruct (cf_isSelect d) eqn:Hsel.
  2:{ destruct L as [L1 L2 L3 L4]. split; try done.
      - intros k Hk. rewrite Hof, (L1 k Hk). by rewrite decide_False by (by intros [? _]).
      - intros k j Hk. rewrite Hof, Hbe, !decide_False by (by intros [? _]). rewrite !app_nil_r. by apply L2. }
  destruct L as [L1 L2 L3 [L4 L5]]. destruct (map_get (lv_map st) (symbolKey d)) as [j|] eqn:Hg.
  - destruct (L2 _ _ Hg) as (t & Ht & Hkey & Hne & Htot & Hself). split; cbn [lv_data lv_map lv_id].
    + intros k Hk. rewrite Hof, (L1 k Hk). rewrite decide_False; [done|]. intros [_ E]. congruence.
    + intros k i Hk. rewrite Hof, Hbe. destruct (decide (true = true /\ symbolKey d = k)) as [[_ <-]|Hno].
      * rewrite Hg in Hk. injection Hk as <-. exists (add_times d t). rewrite list_lookup_alter_eq, Ht. split_and!; [done|done|].
        unfold row_ok. rewrite !fmap_app, !zsum_app. cbn [fmap list_fmap data_of]. rewrite !zsum_one_elem. cbn. split_and!; [by destruct (frames_of _ _)|lia|lia].
      * rewrite !app_nil_r. destruct (L2 k i Hk) as (t' & Ht' & ?). exists t'. rewrite list_lookup_alter_ne; [done|].
        intros ->. rewrite Ht in Ht'. injection Ht' as <- _. apply Hno. split; [done|]. naive_solver.
    + intros i t' kids Hi. destruct (decide (j = i)) as [<-|Hne'].
      * rewrite list_lookup_alter_eq, Ht in Hi. injection Hi as <- <-. change (tab_key (add_times d t)) with (tab_key t). by rewrite Hkey.
      * rewrite list_lookup_alter_ne in Hi by done. by eapply L3.
    + unfold zlen. rewrite length_alter. fold (zlen (lv_data st)). split; [|done]. rewrite <- L4. apply list_eq. intros i.
      rewrite !list_lookup_fmap. destruct (decide (j = i)) as [<-|]; [|by rewrite list_lookup_alter_ne].
      rewrite list_lookup_alter_eq, Ht. done.
  - pose proof (L1 _ Hg) as Hempty. split; cbn [lv_data lv_map lv_id].
    + intros k. rewrite map_get_set. destruct (decide (symbolKey d = k)) as [E|E]; [done|]. intros Hk. rewrite Hof, (L1 k Hk), decide_False; [done|]. by intros [_ ?].
    + intros k i. rewrite map_get_set, Hof, Hbe. destruct (decide (symbolKey d = k)) as [E|E].
      * subst k. intros [= <-]. exists (chartFrameToTabStruct d (lv_id st)). rewrite !(decide_True (P := true = true /\ symbolKey d = symbolKey d)) by done.
        unfold frames_below. rewrite Hempty. cbn [flat_map app]. split_and!; [by rewrite lookup_app_r, Nat.sub_diag|done|].
        unfold row_ok. cbn [fmap list_fmap data_of]. by rewrite !zsum_one_elem.
      * intros Hk. rewrite !decide_False by (by intros [_ ?]). rewrite !app_nil_r. destruct (L2 k i Hk) as (t' & Ht' & ?). exists t'.
        split; [by apply lookup_app_l_Some|done].
    + intros i t' kids Hi. rewrite map_get_set. apply lookup_app_Some in Hi as [Hi|[Hge Hi]].
      * pose proof (L3 _ _ _ Hi) as Hk. rewrite decide_False; [done|]. intros E. congruence.
      * destruct (i - length (lv_data st))%nat eqn:E; [|done]. injection Hi as <- <-. rewrite decide_True by done. f_equal. lia.
    + rewrite zlen_app, zlen_cons, zlen_nil, fmap_app, L4. pose proof (zlen_nonneg (lv_data st)). split; [|lia].
      rewrite seqZ_app by lia. cbn. by rewrite L5.
Qed.

Lemma merge_level_ok fs id : level_ok fs id (merge_level fs id).
Proof.
  unfold merge_level. induction fs as [|f fs IH] using rev_ind.
  - split; try done. cbn. split; [done|]. unfold zlen. cbn. lia.
  - rewrite foldl_snoc. by apply level_frame_ok.
Qed.

(** ** The call tree *)

(** The rows of a level with what is below them. *)
Definition row_of (levels : nat) (e : tab_data * list JsCpuProfilerChartFrame) (t : JsCpuProfilerTabStruct) : Prop :=
  tab_of t = e.1 /\ exists id id', combineTopDownData levels e.2 id = Some (tab_children t, id').

Lemma rows_of_level levels entries : forall tabs0 id tabs id',
  foldM (fun '(tabs, id) '(t, kids) =>
      '(children, id) ← combineTopDownData levels kids id; Some (tabs ++ [Tab t children], id)) entries (tabs0, id) = Some (tabs, id') ->
  exists rows, tabs = tabs0 ++ rows /\ Forall2 (row_of levels) entries rows.
Proof.
  induction entries as [|[t kids] entries IH]; intros tabs0 id tabs id' H; cbn [foldM] in H.
  - injection H as <- <-. exists []. by rewrite app_nil_r.
  - destruct (combineTopDownData levels kids id) as [[children id1]|] eqn:E; [|done]. cbn [mbind option_bind] in H.
    apply IH in H as (rows & -> & H). exists (Tab t children :: rows). rewrite <- app_assoc. split; [done|]. constructor; [|done].
    split; [done|]. by exists id, id1.
Qed.

Lemma rows_of_one levels fs id st rows k :
  level_ok fs id st -> Forall2 (row_of levels) (lv_data st) rows ->
  (frames_of k fs = [] /\ rows_of k rows = []) \/
  exists t i i', rows_of k rows = [t] /\ row_ok (frames_of k fs) (tab_of t) /\
    combineTopDownData levels (frames_below fs k) i = Some (tab_children t, i').
Proof.
  intros L H. destruct (map_get (lv_map st) k) as [j|] eqn:Hg.
  - right. destruct (lo_some _ _ _ L k j Hg) as (d & Hj & Hk & Hok). pose proof (Forall2_lookup_l _ _ _ _ _ H Hj) as (t & Ht & Hd & i & i' & E).
    exists t, i, i'. cbn in Hd, E. rewrite Hd. split_and!; [|done|done].
    assert (Hone : forall j' t', rows !! j' = Some t' -> tab_key (tab_of t') = k -> j' = j).
    { intros j' t' Ht' Hk'. pose proof (Forall2_lookup_r _ _ _ _ _ H Ht') as ([d' kids'] & Hj' & Hd' & _).
      cbn in Hd'. pose proof (lo_place _ _ _ L _ _ _ Hj') as Hp. rewrite <- Hd', Hk' in Hp. congruence. }
    pose proof (take_drop_middle rows j t Ht) as Esp. set (l1 := take j rows) in *. set (l2 := drop (S j) rows) in *.
    assert (Hlen : j = length l1) by (unfold l1; rewrite length_take; apply lookup_lt_Some in Ht; lia). clearbody l1 l2. subst rows. unfold rows_of. rewrite filter_app, filter_cons.
    rewrite decide_True by (by rewrite Hd). rewrite !filter_none; [done| |]; rewrite Forall_forall.
    + intros x Hx Hkx. apply list_elem_of_lookup in Hx as [m Hm].
      pose proof (Hone (length l1 + S m)%nat x) as Hj2. rewrite lookup_app_r in Hj2 by lia.
      replace (length l1 + S m - length l1)%nat with (S m) in Hj2 by lia. cbn in Hj2. specialize (Hj2 Hm Hkx). lia.
    + intros x Hx Hkx. apply list_elem_of_lookup in Hx as [m Hm]. pose proof (lookup_lt_Some _ _ _ Hm).
      pose proof (Hone m x ltac:(by apply lookup_app_l_Some) Hkx). lia.
  - left. split; [by apply L|]. unfold rows_of. apply filter_none, Forall_forall. intros t Ht Hk.
    apply list_elem_of_lookup in Ht as [j Hj]. pose proof (Forall2_lookup_r _ _ _ _ _ H Hj) as ([d kids] & Hd & Hdt & _). cbn in Hdt.
    pose proof (lo_place _ _ _ L _ _ _ Hd). congruence.
Qed.

Lemma top_down_rows callers k : forall levels fs id tabs id',
  combineTopDownData levels fs id = Some (tabs, id') ->
  (frames_along callers k fs = [] /\ rows_along callers k tabs = []) \/
  exists t, rows_along callers k tabs = [t] /\ row_ok (frames_along callers k fs) (tab_of t).
Proof.
  induction callers as [|c callers IH]; intros levels fs id tabs id' H; (destruct levels as [|levels]; [done|]); cbn [combineTopDownData] in H.
  all: apply rows_of_level in H as (rows & -> & H); rewrite app_nil_l; pose proof (merge_level_ok fs id) as L.
  - destruct (rows_of_one levels fs id _ rows k L H) as [?|(t & _ & _ & ? & ? & _)]; [by left|]. right. by exists t.
  - unfold frames_along, rows_along. cbn [foldl]. destruct (rows_of_one levels fs id _ rows c L H) as [[E1 E2]|(t & i & i' & E & _ & Hc)].
    + left. unfold frames_below at 2, rows_below at 2. rewrite E1, E2. cbn [flat_map]. by destruct (foldl_below_nil callers) as [-> ->].
    + unfold rows_below at 2 4. rewrite E. cbn [flat_map]. rewrite app_nil_r. by apply (IH levels _ i _ i').
Qed.

(** Enough levels. *)
Lemma top_down_total levels : forall fs id,
  Forall (fun f => (height f < levels)%nat) fs -> (0 < levels)%nat -> exists tabs id', combineTopDownData levels fs id = Some (tabs, id').
Proof.
  induction levels as [|levels IH]; intros fs id Hf Hpos; [lia|]. cbn [combineTopDownData]. pose proof (merge_level_ok fs id) as L.
  assert (Hk : forall t kids, (t, kids) ∈ lv_data (merge_level fs id) -> Forall (fun f => (height f < levels)%nat) kids /\ (0 < levels)%nat).
  { intros t kids [j Hj]%list_elem_of_lookup. pose proof (lo_place _ _ _ L _ _ _ Hj) as Hg.
    destruct (lo_some _ _ _ L _ _ Hg) as (t' & Hj' & _ & Hne & _). rewrite Hj in Hj'. injection Hj' as -> ->.
    assert (Hin : forall f, f ∈ frames_of (tab_key t') fs -> (height f < S levels)%nat).
    { intros f [_ Hin]%list_elem_of_filter. rewrite Forall_forall in Hf. by apply Hf. }
    split.
    - apply Forall_forall. intros c Hc. apply elem_of_flat_map in Hc as ([d cs] & Hd & Hc). specialize (Hin _ Hd).
      pose proof (height_child d cs c Hc). lia.
    - destruct (frames_of (tab_key t') fs) as [|f rest]; [done|]. specialize (Hin f ltac:(by left)). destruct f. cbn in Hin. lia. }
  cut (forall l tabs id1, (forall t kids, (t, kids) ∈ l -> Forall (fun f => (height f < levels)%nat) kids /\ (0 < levels)%nat) ->
    exists tabs' id', foldM (fun '(tabs, id) '(t, kids) =>
      '(children, id) ← combineTopDownData levels kids id; Some (tabs ++ [Tab t children], id)) l (tabs, id1) = Some (tabs', id')).
  { intros Hcut. by apply Hcut. }
  clear Hk. induction l as [|[t kids] l IHl]; intros tabs id1 Hk; [by exists tabs, id1|]. cbn [foldM].
  destruct (Hk t kids ltac:(by left)) as [Hk1 Hk2]. destruct (IH kids id1 Hk1 Hk2) as (ch & id2 & ->). cbn [mbind option_bind].
  apply IHl. intros t' kids' Hin. apply (Hk t'). by right.
Qed.

(** The numbers of the rows. *)
Fixpoint tab_ids (t : JsCpuProfilerTabStruct) : list Z := let 'Tab d cs := t in jt_id d :: flat_map tab_ids cs.

Lemma top_down_ids levels : forall fs id tabs id',
  combineTopDownData levels fs id = Some (tabs, id') -> id <= id' /\ flat_map tab_ids tabs ≡ₚ seqZ id (id' - id).
Proof.
  induction levels as [|levels IH]; intros fs id tabs id' H; [done|]. cbn [combineTopDownData] in H.
  destruct (lo_ids _ _ _ (merge_level_ok fs id)) as [Hids Hnext]. rewrite Hnext in H. clear Hnext.
  set (l := lv_data (merge_level fs id)) in *.
  cut (forall tabs0 id1 tabs id', foldM (fun '(tabs, id) '(t, kids) =>
      '(children, id) ← combineTopDownData levels kids id; Some (tabs ++ [Tab t children], id)) l (tabs0, id1) = Some (tabs, id') ->
    id1 <= id' /\ flat_map tab_ids tabs ≡ₚ flat_map tab_ids tabs0 ++ ((jt_id ∘ fst) <$> l) ++ seqZ id1 (id' - id1)).
  { intros Hcut. destruct (Hcut [] _ _ _ H) as [Hle E]. pose proof (zlen_nonneg l). split; [lia|]. rewrite E, Hids. cbn [flat_map app].
    replace (id' - id) with (zlen l + (id' - (id + zlen l))) by lia. rewrite seqZ_app by lia. done. }
  clear Hids H tabs id'. induction l as [|[t kids] l IHl]; intros tabs0 id1 tabs id' H; cbn [foldM] in H.
  { injection H as <- <-. rewrite Z.sub_diag. cbn. split; [lia|]. by rewrite app_nil_r. }
  destruct (combineTopDownData levels kids id1) as [[ch id2]|] eqn:E; [|done]. cbn [mbind option_bind] in H.
  destruct (IH _ _ _ _ E) as [Hle Hch]. destruct (IHl _ _ _ _ H) as [Hle' HP]. split; [lia|]. rewrite HP, flat_map_app, fmap_cons. cbn [flat_map tab_ids].
  rewrite app_nil_r, Hch. replace (id' - id1) with ((id2 - id1) + (id' - id2)) by lia. rewrite seqZ_app by lia.
  replace (id1 + (id2 - id1)) with id2 by lia. cbn. solve_Permutation.
Qed.

(** The call tree is the chart, merged.  With more levels than the chart is
    high, merging ends; for any callers and any function, if there are selected
    frames of that function below selected frames of these callers, the sheet has
    exactly one row for them, whose times are the sums of theirs, and else it has
    none; the rows are numbered without a gap. *)
Theorem call_tree_merges levels fs id :
  (0 < levels)%nat -> Forall (fun f => (height f < levels)%nat) fs ->
  exists tabs id', combineTopDownData levels fs id = Some (tabs, id') /\ flat_map tab_ids tabs ≡ₚ seqZ id (id' - id) /\
    forall callers k,
      (frames_along callers k fs = [] /\ rows_along callers k tabs = []) \/
      exists t, rows_along callers k tabs = [t] /\ frames_along callers k fs <> [] /\
        jt_totalTime (tab_of t) = zsum ((fun f => cf_totalTime (data_of f)) <$> frames_along callers k fs) /\
        jt_selfTime (tab_of t) = zsum ((fun f => cf_selfTime (data_of f)) <$> frames_along callers k fs).
Proof.
  intros Hpos Hf. destruct (top_down_total levels fs id Hf Hpos) as (tabs & id' & E). exists tabs, id'.
  split; [done|]. split; [by eapply top_down_ids|]. intros callers k. by eapply top_down_rows.
Qed.

(** ** From the callees up *)

(** The selected calls with time of their own: the frame, and the frames of its
    callers, nearest first. *)
Fixpoint calls (parents : list frame_data) (f : JsCpuProfilerChartFrame) : list (frame_data * list frame_data) :=
  let 'Frame d cs := f in
  if cf_isSelect d then (if 0 <? cf_selfTime d then [(d, parents)] else []) ++ flat_map (calls (d :: parents)) cs else [].

(** A call as a tree. *)
Definition call_frame (selfTime totalTime : Z) (d : frame_data) (parents : list frame_data) : JsCpuProfilerChartFrame :=
  Frame (cloneChartFrame selfTime totalTime d) (copyParent selfTime totalTime parents).

(** The frames at the end of a path down the tree of a call. *)
Lemma call_along s tt path k : forall parents,
  frames_along path k (copyParent s tt parents) =
    match drop (length path) parents with
    | d :: rest => if decide (path ++ [k] `prefix_of` (symbolKey <$> parents)) then [call_frame s tt d rest] else []
    | [] => []
    end.
Proof.
  induction path as [|c path IH]; intros parents; destruct parents as [|d parents]; cbn [length drop].
  - done.
  - unfold frames_along. cbn [foldl copyParent app fmap list_fmap]. unfold frames_of. rewrite filter_cons, filter_nil. cbn [data_of].
    change (symbolKey (cloneChartFrame s tt d)) with (symbolKey d). destruct (decide (cf_isSelect _ = true /\ symbolKey d = k)) as [[_ <-]|H1], (decide (_ `prefix_of` _)) as [H2|H2]; try done.
    + exfalso. apply H2. by apply prefix_cons, prefix_nil.
    + exfalso. apply H1. split; [done|]. by apply prefix_cons_inv_1 in H2.
  - by destruct (foldl_below_nil (c :: path)) as [E _]; unfold frames_along; cbn [copyParent]; rewrite E.
  - unfold frames_along. cbn [foldl copyParent]. unfold frames_below at 2, frames_of at 2. rewrite filter_cons, filter_nil. cbn [data_of].
    change (symbolKey (cloneChartFrame s tt d)) with (symbolKey d). destruct (decide (cf_isSelect _ = true /\ symbolKey d = c)) as [[_ <-]|H1].
    + cbn [flat_map children_of]. rewrite app_nil_r. fold (frames_along path k (copyParent s tt parents)). rewrite IH, fmap_cons.
      destruct (drop (length path) parents) as [|e rest]; [done|]. cbn [app].
      destruct (decide (path ++ [k] `prefix_of` _)) as [H2|H2], (decide (symbolKey d :: _ `prefix_of` _)) as [H3|H3]; try done.
      * exfalso. by apply H3, prefix_cons.
      * exfalso. by apply H2, (prefix_cons_inv_2 (symbolKey d) (symbolKey d)).
    + cbn [flat_map]. destruct (foldl_below_nil path) as [-> _]. rewrite fmap_cons. cbn [app].
      destruct (drop (length path) parents); [done|]. rewrite decide_False; [done|]. intros ->%prefix_cons_inv_1. by apply H1.
Qed.

Definition call_trees (c : frame_data * list frame_data) : list JsCpuProfilerChartFrame :=
  copyParent (cf_selfTime c.1) (cf_totalTime c.1) (c.1 :: c.2).

Lemma flat_map_flat_map {A B C} (f : A -> list B) (g : B -> list C) l : flat_map g (flat_map f l) = flat_map (fun a => flat_map g (f a)) l.
Proof. induction l as [|a l IH]; [done|]. cbn. by rewrite flat_map_app, IH. Qed.

Lemma recursionTree_calls f : forall parents, recursionTree parents f = flat_map call_trees (calls parents f).
Proof.
  induction f as [d cs IH] using frame_ind'. intros parents. cbn. destruct (cf_isSelect d); [|done]. rewrite flat_map_app. f_equal.
  - by destruct (0 <? cf_selfTime d).
  - rewrite flat_map_flat_map. induction IH as [|c cs Hc _ IHcs]; [done|]. cbn. by rewrite Hc, IHcs.
Qed.

Lemma reverse_calls fs : reverseChartFrameTree fs = flat_map call_trees (flat_map (calls []) fs).
Proof.
  unfold reverseChartFrameTree. rewrite flat_map_flat_map. induction fs as [|f fs IH]; [done|]. cbn. by rewrite recursionTree_calls, IH.
Qed.

(** The calls that end like a path of functions, innermost first. *)
Definition calls_along (path : list jsstring) (cs : list (frame_data * list frame_data)) : list (frame_data * list frame_data) :=
  filter (fun c => path `prefix_of` (symbolKey <$> c.1 :: c.2)) cs.

Lemma calls_frames (h : frame_data -> Z) path k cs :
  (forall s tt e d, h (cloneChartFrame s tt e) = h (cloneChartFrame s tt d)) ->
  (fun f => h (data_of f)) <$> frames_along path k (flat_map call_trees cs) =
    (fun c => h (cloneChartFrame (cf_selfTime c.1) (cf_totalTime c.1) c.1)) <$> calls_along (path ++ [k]) cs.
Proof.
  intros Hh. induction cs as [|[d ps] cs IH].
  { unfold frames_along. cbn [flat_map]. by destruct (foldl_below_nil path) as [-> _]. }
  cbn [flat_map]. rewrite frames_along_app, fmap_app, IH. unfold calls_along. rewrite filter_cons. cbn [fst snd]. unfold call_trees at 1.
  rewrite call_along. cbn [fst snd]. destruct (decide (path ++ [k] `prefix_of` (symbolKey <$> d :: ps))) as [Hp|Hp].
  - assert (Hlen : (length path < length (d :: ps))%nat).
    { apply prefix_length in Hp. rewrite length_app, length_fmap in Hp. cbn in *. lia. }
    destruct (drop (length path) (d :: ps)) as [|e rest] eqn:E; [apply (f_equal length) in E; rewrite length_drop in E; cbn in *; lia|].
    cbn. f_equal. apply Hh.
  - by destruct (drop (length path) (d :: ps)).
Qed.

Lemma calls_height f : forall parents d ps, (d, ps) ∈ calls parents f -> (length ps < length parents + height f)%nat.
Proof.
  induction f as [e cs IH] using frame_ind'. intros parents d ps. cbn [calls]. destruct (cf_isSelect e); [|by intros ?%not_elem_of_nil].
  rewrite elem_of_app. intros [H|H].
  - destruct (0 <? cf_selfTime e); [|by apply not_elem_of_nil in H]. apply list_elem_of_singleton in H as [= -> ->]. cbn. lia.
  - apply elem_of_flat_map in H as (c & Hc & H). rewrite Forall_forall in IH. specialize (IH c Hc _ _ _ H). cbn [length] in IH.
    pose proof (height_child e cs c Hc). lia.
Qed.

Lemma height_call s tt ps : Forall (fun f => (height f <= length ps)%nat) (copyParent s tt ps).
Proof.
  induction ps as [|p ps IH]; [constructor|]. cbn [copyParent]. apply Forall_singleton. cbn. apply le_n_S.
  destruct ps as [|q ps]; [cbn; lia|]. cbn [copyParent] in *. apply Forall_cons in IH as [IH _]. cbn in *. lia.
Qed.

(** The reversed call tree accounts for time of their own.  With more levels
    than the chart is high, merging ends; for a function and the functions that
    called it, innermost first, the sheet has one row if there are selected calls
    with time of their own that end this way, with the sums of the times of these
    calls, and else none. *)
Theorem bottom_up_merges levels fs id :
  (0 < levels)%nat -> Forall (fun f => (height f < levels)%nat) fs ->
  exists tabs id', combineBottomUpData levels fs id = Some (tabs, id') /\
    forall path k,
      let cs := calls_along (path ++ [k]) (flat_map (calls []) fs) in
      (cs = [] /\ rows_along path k tabs = []) \/
      exists t, rows_along path k tabs = [t] /\ cs <> [] /\
        jt_totalTime (tab_of t) = zsum ((fun c => cf_totalTime c.1) <$> cs) /\
        jt_selfTime (tab_of t) = zsum ((fun c => cf_selfTime c.1) <$> cs).
Proof.
  intros Hpos Hf. unfold combineBottomUpData. rewrite reverse_calls.
  destruct (top_down_total levels (flat_map call_trees (flat_map (calls []) fs)) id) as (tabs & id' & E); [|done|].
  { apply Forall_forall. intros g Hg. apply elem_of_flat_map in Hg as ([d ps] & Hc & Hg). apply elem_of_flat_map in Hc as (f & Hff & Hc).
    apply calls_height in Hc. rewrite Forall_forall in Hf. specialize (Hf f Hff). cbn in Hc.
    pose proof (height_call (cf_selfTime d) (cf_totalTime d) (d :: ps)) as Hh. rewrite Forall_forall in Hh. specialize (Hh g Hg). cbn [length] in Hh. lia. }
  exists tabs, id'. split; [done|]. intros path k. set (cs := calls_along (path ++ [k]) (flat_map (calls []) fs)).
  pose proof (calls_frames cf_totalTime path k (flat_map (calls []) fs) ltac:(done)) as E1.
  pose proof (calls_frames cf_selfTime path k (flat_map (calls []) fs) ltac:(done)) as E2. fold cs in E1, E2.
  assert (Hnil : frames_along path k (flat_map call_trees (flat_map (calls []) fs)) = [] <-> cs = []).
  { split; intros H; rewrite H in E1; cbn in E1; [by symmetry in E1; apply fmap_nil_inv in E1|by apply fmap_nil_inv in E1]. }
  destruct (top_down_rows path k levels _ id tabs id' E) as [[H1 H2]|(t & Ht & Hne & Htot & Hself)].
  - left. split; [by apply Hnil|done].
  - right. exists t. split_and!; [done|by rewrite <- Hnil|by rewrite Htot, E1|by rewrite Hself, E2].
Qed.

(** ** Kinds *)

(** The samples of the topmost selected frames with time of their own. *)
Fixpoint top_samples (f : JsCpuProfilerChartFrame) : list Z :=
  let 'Frame d cs := f in if cf_isSelect d && (0 <? cf_selfTime d) then cf_samplesIds d else flat_map top_samples cs.

Lemma findSamplesIds_top f : forall ids layer,
  NoDup (ids_of f) -> (forall x, x ∈ ids_of f -> x ∉ layer) ->
  exists layer', findSamplesIds f (ids, layer) = (ids ++ top_samples f, layer') /\
    forall x, x ∈ layer' -> x ∈ layer \/ x ∈ ids_of f.
Proof.
  induction f as [d cs IH] using frame_ind'. intros ids layer HN Hl. cbn [findSamplesIds top_samples].
  rewrite (bool_decide_false (cf_id d ∈ layer)) by (apply Hl; by left). rewrite andb_true_r.
  destruct (cf_isSelect d && (0 <? cf_selfTime d)).
  { eexists. split; [done|]. intros x [?|Hx]%elem_of_app; [by left|]. right. apply list_elem_of_singleton in Hx as ->. by left. }
  cbn in HN. apply NoDup_cons in HN as [_ HN].
  assert (Hl' : forall x, x ∈ flat_map ids_of cs -> x ∉ layer) by (intros x Hx; apply Hl; by right).
  cut (exists layer', foldl (fun st c => findSamplesIds c st) (ids, layer) cs = (ids ++ flat_map top_samples cs, layer') /\
    forall x, x ∈ layer' -> x ∈ layer \/ x ∈ flat_map ids_of cs).
  { intros (layer' & E & Hx). exists layer'. split; [done|]. intros x [?|?]%Hx; [by left|]. right. by right. }
  clear Hl. revert ids layer Hl'. induction cs as [|c cs IHcs]; intros ids layer Hl.
  { exists layer. cbn. rewrite app_nil_r. split; [done|]. by left. }
  apply Forall_cons in IH as [IHc IH]. cbn in HN. apply NoDup_app in HN as (HNc & Hd & HN). cbn [foldl flat_map] in *.
  destruct (IHc ids layer HNc) as (l1 & -> & H1); [intros x Hx; apply Hl, elem_of_app; by left|].
  destruct (IHcs IH HN (ids ++ top_samples c) l1) as (l2 & -> & H2).
  { intros x Hx [?|?]%H1; [|by eapply Hd]. apply (Hl x); [apply elem_of_app; by right|done]. }
  exists l2. rewrite app_assoc. split; [done|]. intros x [[?|?]%H1|?]%H2; [by left|right; apply elem_of_app; by left|right; apply elem_of_app; by right].
Qed.

Lemma forest_samples_top fs : forall ids layer,
  NoDup (flat_map ids_of fs) -> (forall x, x ∈ flat_map ids_of fs -> x ∉ layer) ->
  exists layer', foldl (fun st f => findSamplesIds f st) (ids, layer) fs = (ids ++ flat_map top_samples fs, layer').
Proof.
  induction fs as [|f fs IH]; intros ids layer HN Hl; cbn [foldl flat_map] in *; [exists layer; by rewrite app_nil_r|].
  apply NoDup_app in HN as (HNf & Hd & HN). destruct (findSamplesIds_top f ids layer HNf) as (l1 & -> & H1).
  { intros x Hx. apply Hl, elem_of_app. by left. }
  destruct (IH (ids ++ top_samples f) l1 HN) as (l2 & ->).
  { intros x Hx [?|?]%H1; [|by eapply Hd]. apply (Hl x); [apply elem_of_app; by right|done]. }
  exists l2. by rewrite app_assoc.
Qed.

(** The kind of a sample and its time in the range. *)
Definition kind_time (samples : list typed_sample) (leftNs rightNs id : Z) : option (SampleType * Z) :=
  sample ← zlookup id samples; type ← ty_type sample; time ← sample_time leftNs rightNs (ty_sample sample); Some (type, time).

(** The times of the samples of a kind. *)
Definition times_of (type : SampleType) (kts : list (SampleType * Z)) : list Z := (filter (fun kt => kt.1 = type) kts).*2.

Lemma add_time_get m type time type' :
  map_get (add_time m type time) type' =
    if decide (type = type') then Some (match map_get m type with Some t => t + time | None => time end) else map_get m type'.
Proof.
  unfold add_time. destruct (map_get m type) as [t|] eqn:E; [|apply map_get_set]. destruct (truthy t) eqn:Ht; rewrite map_get_set; [done|].
  destruct (decide (type = type')); [|done]. unfold truthy in Ht. apply negb_false_iff, Z.eqb_eq in Ht. subst t. done.
Qed.

Lemma statistic_ids samples leftNs rightNs ids : forall tm arr,
  NoDup arr -> Forall (fun id => is_Some (kind_time samples leftNs rightNs id)) arr ->
  (forall type, map_get tm type = match times_of type (omap (kind_time samples leftNs rightNs) arr) with [] => None | ts => Some (zsum ts) end) ->
  let '(tm', arr') := foldl (statistic_id samples leftNs rightNs) (tm, arr) ids in
  NoDup arr' /\ (forall id, id ∈ arr' <-> id ∈ arr \/ (id ∈ ids /\ is_Some (kind_time samples leftNs rightNs id))) /\
  forall type, map_get tm' type = match times_of type (omap (kind_time samples leftNs rightNs) arr') with [] => None | ts => Some (zsum ts) end.
Proof.
  induction ids as [|id ids IH]; intros tm arr HN Hs Hg; cbn [foldl].
  { split_and!; [done| |done]. intros id. rewrite elem_of_nil. tauto. }
  assert (Hcase : statistic_id samples leftNs rightNs (tm, arr) id =
    match kind_time samples leftNs rightNs id with
    | Some (type, time) => if bool_decide (id ∈ arr) then (tm, arr) else (add_time tm type time, arr ++ [id])
    | None => (tm, arr) end).
  { unfold statistic_id, kind_time. destruct (zlookup id samples) as [[s [ty|]]|]; cbn; [|done|done]. by destruct (sample_time _ _ s). }
  rewrite Hcase. destruct (kind_time samples leftNs rightNs id) as [[ty time]|] eqn:Hk.
  2:{ specialize (IH tm arr HN Hs Hg). destruct (foldl _ _ _) as [tm' arr']. destruct IH as (? & H & ?). split_and!; try done.
      intros x. rewrite H, elem_of_cons. split; [intros [?|[? ?]]; [by left|right; by split; [right|]]|].
      intros [?|[[->|?] Hx]]; [by left| |by right]. rewrite Hk in Hx. by destruct Hx. }
  case_bool_decide as Hin.
  - specialize (IH tm arr HN Hs Hg). destruct (foldl _ _ _) as [tm' arr']. destruct IH as (? & H & ?). split_and!; try done.
    intros x. rewrite H, elem_of_cons. split; [intros [?|[? ?]]; [by left|right; by split; [right|]]|].
    intros [?|[[->|?] Hx]]; [by left|by left|by right].
  - assert (HN' : NoDup (arr ++ [id])).
    { apply NoDup_app. split_and!; [done| |apply NoDup_singleton]. intros x Hx ->%list_elem_of_singleton. done. }
    specialize (IH (add_time tm ty time) (arr ++ [id]) HN').
    destruct (foldl _ _ _) as [tm' arr']. destruct IH as (? & H & ?).
    + apply Forall_app. split; [done|]. apply Forall_singleton. by rewrite Hk.
    + intros type. rewrite add_time_get, !Hg, omap_app. cbn [omap list_omap]. rewrite Hk. unfold times_of. rewrite filter_app, fmap_app, filter_cons, filter_nil.
      cbn [fst]. destruct (decide (ty = type)) as [->|Hne].
      * cbn [fmap list_fmap snd]. destruct ((filter _ (omap _ arr)).*2) as [|t0 ts] eqn:E; cbn [app]; [by rewrite zsum_one_elem|].
        rewrite !zsum_cons, zsum_app, zsum_one_elem. f_equal. lia.
      * cbn. by rewrite app_nil_r.
    + split_and!; try done. intros x. rewrite H, elem_of_app, list_elem_of_singleton, elem_of_cons. split.
      * intros [[?| ->]|[? ?]]; [by left|right; split; [by left|by rewrite Hk]|right; by split; [right|]].
      * intros [?|[[->|?] Hx]]; [by left; left|by left; right|by right].
Qed.

(** The statistics by kind.  For frames with different numbers, the time of a kind
    is the sum of the times within the range of the samples of that kind that the
    topmost selected frames with time of their own list, each sample counted once;
    a kind without such a sample has no entry. *)
Theorem statistics_by_kind samples fs leftNs rightNs :
  NoDup (flat_map ids_of fs) ->
  exists ids, NoDup ids /\
    (forall id, id ∈ ids <-> id ∈ flat_map top_samples fs /\ is_Some (kind_time samples leftNs rightNs id)) /\
    forall type, map_get (calStatistic samples fs leftNs rightNs) type =
      match times_of type (omap (kind_time samples leftNs rightNs) ids) with [] => None | ts => Some (zsum ts) end.
Proof.
  intros HN. unfold calStatistic. destruct (forest_samples_top fs [] [] HN) as (layer & ->); [intros x _; apply not_elem_of_nil|].
  rewrite app_nil_l. pose proof (statistic_ids samples leftNs rightNs (flat_map top_samples fs) [] []) as H.
  destruct (foldl _ _ _) as [tm arr]. destruct H as (Ha & Hb & Hc); [constructor|constructor|done|]. exists arr. split_and!; [done| |done].
  intros id. rewrite Hb, elem_of_nil. tauto.
Qed.

(** The example of [JsChart], with everything selected. *)
Definition jx_selected : list JsCpuProfilerChartFrame := setSelectChildrenState <$> jx_chart.

Lemma call_tree_merges_witness :
  exists tabs id', combineTopDownData 3 jx_selected 0 = Some (tabs, id') /\ flat_map tab_ids tabs ≡ₚ seqZ 0 (id' - 0) /\
    forall callers k,
      (frames_along callers k jx_selected = [] /\ rows_along callers k tabs = []) \/
      exists t, rows_along callers k tabs = [t] /\ frames_along callers k jx_selected <> [] /\
        jt_totalTime (tab_of t) = zsum ((fun f => cf_totalTime (data_of f)) <$> frames_along callers k jx_selected) /\
        jt_selfTime (tab_of t) = zsum ((fun f => cf_selfTime (data_of f)) <$> frames_along callers k jx_selected).
Proof. apply (call_tree_merges 3 jx_selected 0); [lia|]. apply (bool_decide_unpack _). vm_compute. exact I. Defined.

Lemma bottom_up_merges_witness :
  exists tabs id', combineBottomUpData 3 jx_selected 0 = Some (tabs, id') /\
    forall path k,
      let cs := calls_along (path ++ [k]) (flat_map (calls []) jx_selected) in
      (cs = [] /\ rows_along path k tabs = []) \/
      exists t, rows_along path k tabs = [t] /\ cs <> [] /\
        jt_totalTime (tab_of t) = zsum ((fun c => cf_totalTime c.1) <$> cs) /\
        jt_selfTime (tab_of t) = zsum ((fun c => cf_selfTime c.1) <$> cs).
Proof. apply (bottom_up_merges 3 jx_selected 0); [lia|]. apply (bool_decide_unpack _). vm_compute. exact I. Defined.

Definition jx_dict_names : gmap Z jsstring := <[11 := js "render(ARKUI_ENGINE)"]> (<[12 := js "read(NAPI)"]> ∅).

Definition jx_typed : list typed_sample :=
  (fun x => setChartDataType (createCallChain jx_nodes ∅) jx_dict_names {| ty_sample := sample_of true x; ty_type := None |}) <$> jx_rows.

Lemma statistics_by_kind_witness :
  calStatistic jx_typed jx_selected 5 35 = [(ARKUI_ENGINE, 10); (NAPI, 10); (OTHER, 5)] /\
  exists ids, NoDup ids /\
    (forall id, id ∈ ids <-> id ∈ flat_map top_samples jx_selected /\ is_Some (kind_time jx_typed 5 35 id)) /\
    forall type, map_get (calStatistic jx_typed jx_selected 5 35) type =
      match times_of type (omap (kind_time jx_typed 5 35) ids) with [] => None | ts => Some (zsum ts) end.
Proof.
  split; [vm_compute; reflexivity|]. apply (statistics_by_kind jx_typed jx_selected 5 35). apply (bool_decide_unpack _). vm_compute. exact I.
Defined.
