(* ===== verification/SwimFilter.v ===== *)
(** * The visible slices of a lane

    [trace/database/data-trafic/utils/DataFilter.ts]: of the slices of a lane that
    the database worker keeps in memory, the ones that the window shows, at most a
    few per pixel.  The slices are objects that the worker keeps between calls, so a
    lane is a list of records that each call may change, and the arrays that the code
    passes around hold positions in it.

    Times are whole nanoseconds.  A quotient of two numbers is a double: the
    operations that round are a parameter ([Doubles]), with the laws of rounding as a
    class of their own; exact rational arithmetic is an instance. *)

From Stdlib Require Import QArith Qround.
From S2P Require Import Prelude JsRuntime.
Open Scope Z_scope.

(** ** Numbers *)

(** The operations of the code whose result is rounded. *)
Class Doubles := {
  fdiv : Q -> Q -> Q;
  fadd : Q -> Q -> Q;
  fmul : Q -> Q -> Q
}.

(** What the theorems need of them: rounding is monotone, and keeps zero and signs. *)
Class DoubleLaws `{Doubles} : Prop := {
  fdiv_mono : forall a b d, (0 < d)%Q -> (a <= b)%Q -> (fdiv a d <= fdiv b d)%Q;
  fdiv_pos : forall a d, (0 < a)%Q -> (0 < d)%Q -> (0 < fdiv a d)%Q;
  fdiv_zero : forall d, (0 < d)%Q -> (fdiv 0 d == 0)%Q
}.

Definition exact_doubles : Doubles := {| fdiv := Qdiv; fadd := Qplus; fmul := Qmult |}.

#[export] Instance exact_laws : @DoubleLaws exact_doubles.
Proof.
  split; cbn.
  - intros a b d Hd Hab. apply Qmult_le_compat_r; [done|]. by apply Qlt_le_weak, Qinv_lt_0_compat.
  - intros a d Ha Hd. rewrite <- (Qmult_0_l (/ d)). apply Qmult_lt_compat_r; [by apply Qinv_lt_0_compat|done].
  - intros d _. reflexivity.
Qed.

(** A column of a row: a number, SQL's NULL, or a property that is not there. *)
Inductive cell :=
  | CUndefined
  | CNull
  | CNum (n : Z).

#[export] Instance cell_eq_dec : EqDecision cell.
Proof. solve_decision. Defined.

(** The number an operator sees: [null] counts as zero, [undefined] is NaN. *)
Definition cell_num (c : cell) : option Z :=
  match c with CUndefined => None | CNull => Some 0 | CNum n => Some n end.

Definition cell_missing (c : cell) : bool :=
  match c with CNum _ => false | _ => true end.

(** [a > b]: false as soon as one side is NaN. *)
Definition cell_gt (a b : cell) : bool :=
  match cell_num a, cell_num b with Some x, Some y => y <? x | _, _ => false end.

(** ** Slices *)

Record slice (R : Type) := Slice {
  sl_start : Z;
  sl_dur : cell;
  sl_layer : Z;
  sl_value : cell;
  sl_px : Q;
  sl_durTmp : cell;
  sl_v : option bool;
  sl_rest : R
}.
Arguments Slice {R} _ _ _ _ _ _ _ _.
Arguments sl_start {R} _.
Arguments sl_dur {R} _.
Arguments sl_layer {R} _.
Arguments sl_value {R} _.
Arguments sl_px {R} _.
Arguments sl_durTmp {R} _.
Arguments sl_v {R} _.
Arguments sl_rest {R} _.

(** A row as the query delivers it. *)
Definition row {R} (start : Z) (dur : cell) (layer : Z) (value : cell) (rest : R) : slice R :=
  Slice start dur layer value 0%Q CUndefined None rest.

Definition set_dur {R} (d : cell) (s : slice R) : slice R :=
  Slice (sl_start s) d (sl_layer s) (sl_value s) (sl_px s) (sl_durTmp s) (sl_v s) (sl_rest s).
Definition set_px {R} (p : Q) (s : slice R) : slice R :=
  Slice (sl_start s) (sl_dur s) (sl_layer s) (sl_value s) p (sl_durTmp s) (sl_v s) (sl_rest s).
Definition set_durTmp {R} (d : cell) (s : slice R) : slice R :=
  Slice (sl_start s) (sl_dur s) (sl_layer s) (sl_value s) (sl_px s) d (sl_v s) (sl_rest s).
Definition set_v {R} (v : bool) (s : slice R) : slice R :=
  Slice (sl_start s) (sl_dur s) (sl_layer s) (sl_value s) (sl_px s) (sl_durTmp s) (Some v) (sl_rest s).

Section Filters.
Context {R : Type} `{Doubles}.
Implicit Types l : list (slice R).

Definition visible (startNS endNS : Z) (it : slice R) : bool :=
  match cell_num (sl_dur it) with
  | Some d => (startNS <=? sl_start it + d) && (sl_start it <=? endNS)
  | None => false
  end.

(** Reading a property of the object at a position. *)
Definition read {A} (f : slice R -> A) (d : A) l (i : nat) : A :=
  match l !! i with Some it => f it | None => d end.

Definition findRange l (startNS endNS : Z) : list nat :=
  filter (fun i => Is_true (read (visible startNS endNS) false l i)) (seq 0 (length l)).

(** [Reflect.ownKeys(groupBy(arr, key)).map(key => group[key])] *)
Definition groups (key : slice R -> jsstring) l (arr : list nat) : list (list nat) :=
  Object_values (group_by (read key [] l) arr).

(** The text of a number that is whole. *)
Definition whole_text (q : Q) : jsstring := js_toString 10 (Qfloor q).

(** [arr.reduce((p, c) => (p[key] > c[key] ? p : c))] *)
Definition greatest (f : slice R -> cell) l (arr : list nat) : option nat :=
  match arr with
  | [] => None
  | i :: arr' => Some (foldl (fun p c => if cell_gt (read f CUndefined l p) (read f CUndefined l c) then p else c) i arr')
  end.

(** [set.add(x)] of a [Set] that iterates in the order of insertion. *)
Definition set_add (x : option nat) (res : list nat) : list nat :=
  match x with
  | Some i => if decide (i ∈ res) then res else res ++ [i]
  | None => res
  end.

(** Nanoseconds per pixel. *)
Definition pixel_ns (startNS endNS width : Z) : Q := fdiv (inject_Z (endNS - startNS)) (inject_Z width).

Definition pixel (startNS endNS width : Z) (it : slice R) : Q :=
  inject_Z (Qfloor (fdiv (inject_Z (sl_start it)) (pixel_ns startNS endNS width))).

(** The loop of [arr.map] that stores a property in every object of [arr]. *)
Definition store (upd : slice R -> slice R) l (arr : list nat) : list (slice R) :=
  foldl (fun l i => alter upd i l) l arr.

(** ** One slice per pixel, a run of equal pixels at a time *)

Definition flagInit : Q := inject_Z (-100000000).

Definition group_pixel (startNS endNS width : Z) (isDmaFence : bool) (it : slice R) : Q :=
  if isDmaFence && bool_decide (sl_dur it = CNum 0)
  then fdiv (inject_Z (sl_start it)) (pixel_ns startNS endNS width)
  else pixel startNS endNS width it.

(** One round of the loop: the objects, the flag, and the result so far. *)
Definition group_step (startNS endNS width : Z) (isDmaFence : bool)
    (st : list (slice R) * Q * list nat) (i : nat) : list (slice R) * Q * list nat :=
  let '(l, flag, arr) := st in
  if read (visible startNS endNS) false l i then
    let px := read (group_pixel startNS endNS width isDmaFence) 0%Q l i in
    let l := alter (set_px px) i l in
    let arr :=
      match last arr with
      | Some j =>
          if Qeq_bool flag px && cell_gt (read sl_dur CUndefined l i) (read sl_dur CUndefined l j)
          then take (length arr - 1) arr ++ [i] else arr
      | None => arr
      end in
    if Qeq_bool flag px then (l, flag, arr) else (l, px, arr ++ [i])
  else st.

Definition filterDataByGroupWithoutValue l (startNS endNS width : Z) (isDmaFence : bool) :
    list (slice R) * list nat :=
  let '(l', _, arr) := foldl (group_step startNS endNS width isDmaFence) (l, flagInit, []) (seq 0 (length l)) in
  (l', arr).

(** ** One slice per pixel, by grouping *)

Definition group_result (valueKey : option (slice R -> cell)) (filt : option (slice R -> bool))
    l (res : list nat) (arr : list nat) : list nat :=
  let res := set_add (greatest sl_dur l arr) res in
  let res := match valueKey with Some f => set_add (greatest f l arr) res | None => res end in
  match filt with
  | Some p => set_add (greatest sl_dur l (filter (fun i => Is_true (read p false l i)) arr)) res
  | None => res
  end.

Definition filterDataByGroup l (startNS endNS width : Z) (valueKey : option (slice R -> cell))
    (filt : option (slice R -> bool)) (fastFilter isDmaFence : bool) : list (slice R) * list nat :=
  if negb fastFilter || bool_decide (is_Some filt) then
    let arr := findRange l startNS endNS in
    let l := store (fun it => set_px (pixel startNS endNS width it) it) l arr in
    (l, foldl (group_result valueKey filt l) [] (groups (fun it => whole_text (sl_px it)) l arr))
  else filterDataByGroupWithoutValue l startNS endNS width isDmaFence.

(** ** One slice per pixel and layer *)

Definition layer_pixel (startNS endNS width : Z) (it : slice R) : Q :=
  inject_Z (Qfloor (fadd (fdiv (inject_Z (sl_start it)) (pixel_ns startNS endNS width))
                         (inject_Z (sl_layer it * width)))).

Definition open_dur (endNS : Z) (it : slice R) : cell :=
  if cell_missing (sl_dur it) || bool_decide (sl_dur it = CNum (-1))
  then CNum (endNS - sl_start it) else sl_dur it.

Definition filterDataByGroupLayer l (startNS endNS width : Z) : list (slice R) * list nat :=
  let arr := findRange l startNS endNS in
  let l := store (fun it => set_durTmp (open_dur endNS it) (set_px (layer_pixel startNS endNS width it) it)) l arr in
  (l, omap (greatest sl_durTmp l) (groups (fun it => whole_text (sl_px it)) l arr)).

(** ** Thinning the slices of each layer *)

(** One round of the loop over a layer [it]: missing lengths are filled in, and [v]
    says whether the slice is drawn. *)
Definition layer_step (endNS : Z) (pns : Q) (it : list nat) (st : list (slice R) * Z) (k : nat) :
    list (slice R) * Z :=
  let '(l, sum) := st in
  match it !! k with
  | None => st
  | Some i =>
      let start j := read sl_start 0 l j in
      let l :=
        if cell_missing (read sl_dur CUndefined l i) then
          let fin := match it !! S k with Some j => start j | None => endNS end in
          alter (set_dur (CNum (fin - start i))) i l
        else l in
      let dur j := default 0 (cell_num (read sl_dur CUndefined l j)) in
      if Qle_bool pns (inject_Z (dur i)) || (length it <? 100)%nat then (alter (set_v true) i l, sum)
      else
        match k with
        | O => (l, sum)
        | S k' =>
            match it !! k' with
            | None => st
            | Some p =>
                let c := start i - start p - dur p in
                if negb (Qle_bool pns (inject_Z c)) && negb (Qle_bool pns (inject_Z sum))
                then (alter (set_v false) i l, sum + (c + dur p))
                else (alter (set_v true) i l, 0)
            end
        end
  end.

Definition layer_result (endNS : Z) (pns : Q) (st : list (slice R) * list nat) (it : list nat) :
    list (slice R) * list nat :=
  let '(l, res) := st in
  let l := (foldl (layer_step endNS pns it) (l, 0) (seq 0 (length it))).1 in
  (l, res ++ filter (fun i => read sl_v None l i = Some true) it).

Definition filterDataByLayer l (startNS endNS width : Z) : list (slice R) * list nat :=
  let pns := pixel_ns startNS endNS width in
  foldl (layer_result endNS pns) (l, [])
    (groups (fun it => js_toString 10 (sl_layer it)) l (findRange l startNS endNS)).
End Filters.

(** ** What a filter promises

    Of the visible slices the result holds one per key (the pixel, or pixel and
    layer), and none with that key is longer. *)
Record longest_per_key {K} (key : nat -> K) (len : nat -> Z) (vis res : list nat) : Prop := {
  lp_visible : forall i, i ∈ res -> i ∈ vis;
  lp_once : NoDup (key <$> res);
  lp_longest : forall i, i ∈ vis -> exists j, j ∈ res /\ key j = key i /\ len i <= len j
}.

Lemma NoDup_fmap_key {A K} (key : A -> K) (l : list A) i j :
  NoDup (key <$> l) -> i ∈ l -> j ∈ l -> key i = key j -> i = j.
Proof.
  induction l as [|x l IH]; cbn; [set_solver|].
  intros [Hx HN]%NoDup_cons [->|Hi]%elem_of_cons [->|Hj]%elem_of_cons E; auto;
    destruct Hx; apply list_elem_of_fmap; eauto.
Qed.

(** Two filters that keep the promise show the same keys with the same lengths. *)
Lemma longest_agree {K} (key : nat -> K) len vis res1 res2 k d :
  longest_per_key key len vis res1 -> longest_per_key key len vis res2 ->
  (exists i, i ∈ res1 /\ key i = k /\ len i = d) -> (exists i, i ∈ res2 /\ key i = k /\ len i = d).
Proof.
  intros [V1 N1 L1] [V2 N2 L2] (i & Hi & <- & <-).
  destruct (L2 i (V1 i Hi)) as (j & Hj & Kj & Lj). destruct (L1 j (V2 j Hj)) as (i' & Hi' & Ki & Li).
  assert (i' = i) as -> by (apply (NoDup_fmap_key key res1); congruence). exists j. split_and!; [done..|lia].
Qed.

Section Extend.
Context {K : Type} (key : nat -> K) (len : nat -> Z).

Lemma longest_push vis res n : longest_per_key key len vis res -> key n ∉ key <$> res ->
  longest_per_key key len (vis ++ [n]) (res ++ [n]).
Proof.
  intros [V N L] Hn. split.
  - intros i [?|?]%elem_of_app; apply elem_of_app; auto.
  - rewrite fmap_app. apply NoDup_app. split_and!; [done|set_solver|apply NoDup_singleton].
  - intros i [Hi| ->%list_elem_of_singleton]%elem_of_app; [|exists n; set_solver by lia].
    destruct (L i Hi) as (j & Hj & ?). exists j. set_solver.
Qed.

Lemma longest_keep vis res n j : longest_per_key key len vis res -> j ∈ res -> key j = key n -> len n <= len j ->
  longest_per_key key len (vis ++ [n]) res.
Proof.
  intros [V N L] Hj Hk Hl. split; [set_solver|done|].
  intros i [Hi| ->%list_elem_of_singleton]%elem_of_app; [by apply L|by exists j].
Qed.

Lemma longest_replace vis res n j : longest_per_key key len vis (res ++ [j]) -> key j = key n -> len j <= len n ->
  longest_per_key key len (vis ++ [n]) (res ++ [n]).
Proof.
  intros [V N L] Hk Hl. split.
  - intros i [?|?]%elem_of_app; apply elem_of_app; [left; apply V; set_solver|auto].
  - rewrite fmap_app in *. cbn in *. by rewrite <- Hk.
  - intros i [Hi| ->%list_elem_of_singleton]%elem_of_app; [|exists n; set_solver by lia].
    destruct (L i Hi) as (m & [Hm| ->%list_elem_of_singleton]%elem_of_app & Km & Lm); [exists m; set_solver|].
    exists n. split_and!; [set_solver|congruence|lia].
Qed.
End Extend.

Section Reads.
Context {R : Type}.
Implicit Types l : list (slice R).

Lemma findRange_NoDup l startNS endNS : NoDup (findRange l startNS endNS).
Proof. apply NoDup_filter, NoDup_seq. Qed.

Lemma findRange_elem l startNS endNS i :
  i ∈ findRange l startNS endNS <-> exists it, l !! i = Some it /\ visible startNS endNS it = true.
Proof.
  unfold findRange, read. rewrite list_elem_of_filter, elem_of_seq. split.
  - intros [Hv _]. destruct (l !! i) as [it|]; [|done]. exists it. by apply Is_true_true in Hv.
  - intros (it & Hl & Hv). rewrite Hl, Hv. apply lookup_lt_Some in Hl. split; [done|lia].
Qed.

Lemma store_lookup (upd : slice R -> slice R) l arr i : NoDup arr ->
  store upd l arr !! i = if decide (i ∈ arr) then upd <$> l !! i else l !! i.
Proof.
  unfold store. revert l. induction arr as [|x arr IH]; intros l HN; [by rewrite decide_False by set_solver|].
  apply NoDup_cons in HN as [Hx HN]. cbn [foldl]. rewrite (IH _ HN).
  destruct (decide (i = x)) as [->|Hne].
  - rewrite decide_False, decide_True by set_solver. apply list_lookup_alter_eq.
  - rewrite list_lookup_alter_ne by done.
    destruct (decide (i ∈ arr)); [rewrite decide_True by set_solver|rewrite decide_False by set_solver]; done.
Qed.

Lemma read_store {A} (f : slice R -> A) d (upd : slice R -> slice R) l arr i : NoDup arr -> i ∈ arr ->
  read f d (store upd l arr) i = read (fun it => f (upd it)) d l i.
Proof. intros HN Hi. unfold read. rewrite store_lookup, decide_True by done. by destruct (l !! i). Qed.

Lemma read_ext {A} (f g : slice R -> A) d l i : (forall it, f it = g it) -> read f d l i = read g d l i.
Proof. unfold read. intros Hf. by destruct (l !! i). Qed.

(** Lengths as the comparisons see them. *)
Definition length_of (f : slice R -> cell) l (i : nat) : Z := default 0 (cell_num (read f CUndefined l i)).

Definition counts (f : slice R -> cell) l (i : nat) : Prop := is_Some (cell_num (read f CUndefined l i)).

Lemma greatest_spec f l arr : arr <> [] -> (forall i, i ∈ arr -> counts f l i) ->
  exists m, greatest f l arr = Some m /\ m ∈ arr /\ forall i, i ∈ arr -> length_of f l i <= length_of f l m.
Proof.
  destruct arr as [|x arr]; [done|]. intros _. cbn [greatest]. revert x.
  induction arr as [|y arr IH]; intros x HF; cbn [foldl].
  - exists x. split_and!; [done|set_solver|]. intros i ->%list_elem_of_singleton. lia.
  - set (z := if cell_gt _ _ then x else y).
    assert (Hz : (z = x \/ z = y) /\ length_of f l x <= length_of f l z /\ length_of f l y <= length_of f l z).
    { destruct (HF x ltac:(set_solver)) as [dx Ex], (HF y ltac:(set_solver)) as [dy Ey].
      unfold z, cell_gt, length_of. rewrite Ex, Ey. cbn. zcase; rewrite ?Ex, ?Ey; cbn; (split; [tauto|lia]). }
    destruct Hz as (Hz & Hx & Hy).
    destruct (IH z) as (m & Em & Hm & Hmax).
    { intros i [->|Hi]%elem_of_cons; [destruct Hz as [-> | ->]|]; apply HF; set_solver. }
    exists m. split_and!; [done| |].
    + apply elem_of_cons in Hm as [->|Hm]; [destruct Hz as [-> | ->]; set_solver|set_solver].
    + pose proof (Hmax z ltac:(set_solver)).
      intros i [->|[->|Hi]%elem_of_cons]%elem_of_cons; [lia..|]. apply Hmax. set_solver.
Qed.

(** Choosing the greatest of every group. *)
Lemma groups_greatest (key : slice R -> jsstring) f l arr :
  (forall i, i ∈ arr -> counts f l i) ->
  longest_per_key (read key [] l) (length_of f l) arr (omap (greatest f l) (groups key l arr)).
Proof.
  intros HF. destruct (group_by_spec (read key [] l) arr) as [HN Hg].
  assert (HG : forall k xs, (k, xs) ∈ Object_entries (group_by (read key [] l) arr) ->
    exists m, greatest f l xs = Some m /\ m ∈ arr /\ read key [] l m = k /\
      forall i, i ∈ arr -> read key [] l i = k -> length_of f l i <= length_of f l m).
  { intros k xs [Ex Hne]%(elem_of_Permutation_proper _ _ _ (Object_entries_perm _))%Hg.
    destruct (greatest_spec f l xs Hne) as (m & Em & Hm & Hmax).
    { intros i. rewrite Ex, list_elem_of_filter. intros [_ ?]. by apply HF. }
    exists m. pose proof Hm as Hm'. rewrite Ex, list_elem_of_filter in Hm'. destruct Hm' as [Hk Hin].
    split_and!; [done..|]. intros i Hi Hik. apply Hmax. rewrite Ex, list_elem_of_filter. done. }
  assert (Hkeys : forall es, es ⊆ Object_entries (group_by (read key [] l) arr) ->
    read key [] l <$> omap (greatest f l) es.*2 = es.*1).
  { induction es as [|[k xs] es IH]; [done|]. intros Hes.
    destruct (HG k xs) as (m & Em & _ & Ek & _); [apply Hes; by left|].
    cbn. rewrite Em. cbn. rewrite Ek. f_equal. apply IH. intros e He. apply Hes. by right. }
  split.
  - intros i (xs & Hxs & Em)%list_elem_of_omap. unfold groups, Object_values in Hxs.
    apply list_elem_of_fmap in Hxs as ([k xs'] & -> & Hin). cbn in Em.
    destruct (HG k xs' Hin) as (m & Em' & Hm & _). congruence.
  - unfold groups, Object_values. rewrite (Hkeys _ ltac:(done)), Object_entries_perm. done.
  - intros i Hi. set (k := read key [] l i).
    assert (Hin : (k, filter (fun x => read key [] l x = k) arr) ∈ Object_entries (group_by (read key [] l) arr)).
    { rewrite Object_entries_perm. apply Hg. split; [done|]. intros E.
      assert (Hi' : i ∈ filter (fun x => read key [] l x = k) arr) by (by apply list_elem_of_filter).
      rewrite E in Hi'. set_solver. }
    destruct (HG _ _ Hin) as (m & Em & Hm & Ek & Hmax). exists m. split_and!; [|done|by apply Hmax].
    apply list_elem_of_omap. eexists. split; [|exact Em]. unfold groups, Object_values.
    apply list_elem_of_fmap. by eexists (_, _).
Qed.
End Reads.

(** ** Grouping by pixel and layer *)

Lemma longest_change {K K'} (key : nat -> K) (key' : nat -> K') len len' vis res :
  (forall i j, i ∈ vis -> j ∈ vis -> key i = key j <-> key' i = key' j) ->
  (forall i, i ∈ vis -> len i = len' i) ->
  longest_per_key key len vis res -> longest_per_key key' len' vis res.
Proof.
  intros Hk Hl [V N L]. split; [done| |].
  - clear L. induction res as [|x res IH]; [constructor|]. apply NoDup_cons in N as [Hx HN].
    cbn. constructor; [|apply IH; set_solver]. intros (y & Hy & Hin)%list_elem_of_fmap.
    apply Hx. apply list_elem_of_fmap. exists y. split; [|done]. apply Hk; [set_solver..|done].
  - intros i Hi. destruct (L i Hi) as (j & Hj & Kj & Lj). exists j.
    rewrite <- !Hl by auto. split_and!; [done| |done]. apply Hk; auto.
Qed.

Lemma whole_text_inj p q : whole_text p = whole_text q <-> Qfloor p = Qfloor q.
Proof. unfold whole_text. split; [apply js_toString_inj|congruence]. Qed.

Section Grouped.
Context {R : Type} `{Doubles}.
Implicit Types l : list (slice R).

(** The column of pixels a slice belongs to, and its length. *)
Definition lane_pixel (startNS endNS width : Z) l (i : nat) : Z :=
  read (fun it => Qfloor (pixel startNS endNS width it)) 0 l i.
Definition lane_layer_pixel (startNS endNS width : Z) l (i : nat) : Z :=
  read (fun it => Qfloor (layer_pixel startNS endNS width it)) 0 l i.
Definition lane_dur l (i : nat) : Z := length_of sl_dur l i.
Definition lane_open_dur (endNS : Z) l (i : nat) : Z := length_of (open_dur endNS) l i.

Lemma read_text_eq (f : slice R -> Q) l i j :
  is_Some (l !! i) -> is_Some (l !! j) ->
  read (fun it => whole_text (f it)) [] l i = read (fun it => whole_text (f it)) [] l j <->
  read (fun it => Qfloor (f it)) 0 l i = read (fun it => Qfloor (f it)) 0 l j.
Proof. unfold read. intros [a ->] [b ->]. apply whole_text_inj. Qed.

Lemma visible_is_Some l startNS endNS i : i ∈ findRange l startNS endNS -> is_Some (l !! i).
Proof. intros (it & -> & _)%findRange_elem. eauto. Qed.

Lemma open_dur_counts endNS l i : is_Some (l !! i) -> counts (open_dur endNS) l i.
Proof.
  intros [it E]. unfold counts, read, open_dur. rewrite E.
  destruct (sl_dur it) as [| |n]; cbn; [eauto..|]. case_bool_decide; cbn; eauto.
Qed.

(** The filter of the call stack lanes shows, for every column of pixels and
    layer that has a visible slice, exactly one slice, and one of the longest of
    them, where a slice without an end counts up to the end of the window. *)
Theorem filterDataByGroupLayer_longest l startNS endNS width :
  longest_per_key (lane_layer_pixel startNS endNS width l) (lane_open_dur endNS l)
    (findRange l startNS endNS) (filterDataByGroupLayer l startNS endNS width).2.
Proof.
  unfold filterDataByGroupLayer. set (vis := findRange l startNS endNS).
  pose proof (findRange_NoDup l startNS endNS) as HN. cbn [snd].
  set (upd := fun it => set_durTmp (open_dur endNS it) (set_px (layer_pixel startNS endNS width it) it)).
  refine (longest_change _ _ _ _ _ _ _ _ (groups_greatest _ _ _ vis _)).
  - intros i j Hi Hj. rewrite !read_store by done. unfold lane_layer_pixel, upd. cbn [sl_px set_durTmp set_px].
    apply read_text_eq; by eapply visible_is_Some.
  - intros i Hi. unfold length_of, lane_open_dur, length_of. rewrite !read_store by done. reflexivity.
  - intros i Hi. unfold counts. rewrite !read_store by done. apply open_dur_counts. by eapply visible_is_Some.
Qed.

(** ** Grouping by pixel *)

Lemma set_add_position x res i : i ∈ set_add x res <-> x = Some i \/ i ∈ res.
Proof.
  destruct x as [j|]; cbn; [|set_solver]. case_decide; [split; [tauto|intros [[= ->]|]; done]|].
  rewrite elem_of_app, list_elem_of_singleton. split; [intros [? | ->]; auto|intros [[= ->]|]; auto].
Qed.

Lemma foldl_set_add {X} (g : X -> option nat) gs acc :
  NoDup (acc ++ omap g gs) -> foldl (fun res x => set_add (g x) res) acc gs = acc ++ omap g gs.
Proof.
  revert acc. induction gs as [|x gs IH]; intros acc HN; [by rewrite app_nil_r|].
  cbn [foldl]. change (omap g (x :: gs)) with (match g x with Some i => i :: omap g gs | None => omap g gs end) in *.
  destruct (g x) as [i|]; cbn [set_add]; [|by apply IH].
  apply NoDup_app in HN as HN'. destruct HN' as (_ & Hd & _). rewrite decide_False.
  - rewrite IH; [by rewrite <- app_assoc|]. by rewrite <- app_assoc.
  - intros Hi. destruct (Hd i Hi). by left.
Qed.

Lemma NoDup_of_keys {K} (key : nat -> K) (l : list nat) : NoDup (key <$> l) -> NoDup l.
Proof. apply NoDup_fmap_1. Qed.

Lemma visible_counts l startNS endNS i : i ∈ findRange l startNS endNS -> counts sl_dur l i.
Proof.
  intros (it & E & Hv)%findRange_elem. unfold counts, read. rewrite E. unfold visible in Hv.
  destruct (cell_num (sl_dur it)); [eauto|done].
Qed.

(** The objects after the pixels have been stored. *)
Definition with_pixels l (startNS endNS width : Z) : list (slice R) :=
  store (fun it => set_px (pixel startNS endNS width it) it) l (findRange l startNS endNS).

Lemma with_pixels_read {A} (f : slice R -> A) d l startNS endNS width i :
  (forall p it, f (set_px p it) = f it) ->
  read f d (with_pixels l startNS endNS width) i = read f d l i.
Proof.
  intros Hf. unfold read, with_pixels. rewrite store_lookup by apply findRange_NoDup.
  case_decide; [|done]. destruct (l !! i); [cbn; apply Hf|done].
Qed.

Lemma with_pixels_longest l startNS endNS width :
  longest_per_key (lane_pixel startNS endNS width l) (lane_dur l) (findRange l startNS endNS)
    (omap (greatest sl_dur (with_pixels l startNS endNS width))
       (groups (fun it => whole_text (sl_px it)) (with_pixels l startNS endNS width) (findRange l startNS endNS))).
Proof.
  pose proof (findRange_NoDup l startNS endNS) as HN.
  refine (longest_change _ _ _ _ _ _ _ _ (groups_greatest _ _ _ _ _)).
  - intros i j Hi Hj. unfold with_pixels. rewrite !read_store by done. cbn [sl_px set_px].
    apply read_text_eq; by eapply visible_is_Some.
  - intros i Hi. unfold lane_dur, length_of. by rewrite with_pixels_read.
  - intros i Hi. unfold counts. rewrite with_pixels_read by done. by eapply visible_counts.
Qed.

Lemma filterDataByGroup_slow l startNS endNS width :
  (filterDataByGroup l startNS endNS width None None false false).2 =
  omap (greatest sl_dur (with_pixels l startNS endNS width))
    (groups (fun it => whole_text (sl_px it)) (with_pixels l startNS endNS width) (findRange l startNS endNS)).
Proof.
  change ((filterDataByGroup l startNS endNS width None None false false).2) with
    (foldl (fun res x => set_add (greatest sl_dur (with_pixels l startNS endNS width) x) res) []
       (groups (fun it => whole_text (sl_px it)) (with_pixels l startNS endNS width) (findRange l startNS endNS))).
  rewrite foldl_set_add; [done|]. cbn [app]. eapply NoDup_of_keys, with_pixels_longest.
Qed.

Lemma slow_longest l startNS endNS width :
  longest_per_key (lane_pixel startNS endNS width l) (lane_dur l) (findRange l startNS endNS)
    (filterDataByGroup l startNS endNS width None None false false).2.
Proof. rewrite filterDataByGroup_slow. apply with_pixels_longest. Qed.
End Grouped.

(** ** A run of equal pixels at a time *)

Section Runs.
Context {R : Type} `{DoubleLaws}.
Implicit Types l : list (slice R).

Lemma pixel_ns_pos startNS endNS width : startNS < endNS -> 0 < width -> (0 < pixel_ns startNS endNS width)%Q.
Proof. intros. apply fdiv_pos; rewrite <- (Zlt_Qlt 0); lia. Qed.

Lemma pixel_mono startNS endNS width (a b : slice R) : startNS < endNS -> 0 < width -> sl_start a <= sl_start b ->
  Qfloor (pixel startNS endNS width a) <= Qfloor (pixel startNS endNS width b).
Proof.
  intros Hn Hw Hab. unfold pixel. rewrite !Qfloor_Z. apply Qfloor_resp_le, fdiv_mono; [by apply pixel_ns_pos|].
  by rewrite <- Zle_Qle.
Qed.

Lemma pixel_nonneg startNS endNS width (a : slice R) : startNS < endNS -> 0 < width -> 0 <= sl_start a ->
  0 <= Qfloor (pixel startNS endNS width a).
Proof.
  intros Hn Hw Ha. unfold pixel. rewrite Qfloor_Z. change 0 with (Qfloor 0). apply Qfloor_resp_le.
  rewrite <- (fdiv_zero (pixel_ns startNS endNS width)) by (by apply pixel_ns_pos).
  apply fdiv_mono; [by apply pixel_ns_pos|]. change 0%Q with (inject_Z 0). by rewrite <- Zle_Qle.
Qed.

Lemma pixel_whole startNS endNS width (it : slice R) :
  pixel startNS endNS width it = inject_Z (Qfloor (pixel startNS endNS width it)).
Proof. unfold pixel. by rewrite Qfloor_Z. Qed.

Lemma Qeq_bool_whole a b : Qeq_bool (inject_Z a) (inject_Z b) = (a =? b).
Proof. apply Bool.eq_iff_eq_true. rewrite Qeq_bool_iff, Z.eqb_eq. apply inject_Z_injective. Qed.

(** Objects that differ in their stored pixel only. *)
Definition but_px l : list (slice R) := set_px 0%Q <$> l.

Lemma read_but_px {A} (f : slice R -> A) d l l' i :
  (forall p it, f (set_px p it) = f it) -> but_px l' = but_px l -> read f d l' i = read f d l i.
Proof.
  intros Hf E. apply (f_equal (fun k => read f d k i)) in E. unfold read, but_px in *.
  rewrite !list_lookup_fmap in E. destruct (l !! i), (l' !! i); cbn in *; by rewrite ?Hf in E.
Qed.

Lemma but_px_alter p i l : but_px (alter (set_px p) i l) = but_px l.
Proof.
  apply list_eq. intros j. unfold but_px. rewrite !list_lookup_fmap. destruct (decide (i = j)) as [->|].
  - rewrite list_lookup_alter_eq. by destruct (l !! j).
  - by rewrite list_lookup_alter_ne.
Qed.

Section Loop.
Context (l : list (slice R)) (startNS endNS width : Z).
Context (Hwin : startNS < endNS) (Hwidth : 0 < width).
Context (Hsorted : StronglySorted (key_le sl_start) l) (Hpos : Forall (fun it => 0 <= sl_start it) l).

Notation px := (lane_pixel startNS endNS width l).

(** The visible slices among the first [n]. *)
Definition seen (n : nat) : list nat := filter (fun i => Is_true (read (visible startNS endNS) false l i)) (seq 0 n).

(** After [n] rounds: the result keeps the promise for the slices seen, the flag is
    the column of its last slice, and no column seen is to the right of it. *)
Record run_inv (n : nat) (st : list (slice R) * Q * list nat) : Prop := {
  ri_objects : but_px st.1.1 = but_px l;
  ri_longest : longest_per_key px (lane_dur l) (seen n) st.2;
  ri_flag : match last st.2 with
            | Some j => st.1.2 = inject_Z (px j) /\ forall i, i ∈ seen n -> px i <= px j
            | None => st.1.2 = flagInit
            end
}.

Lemma seen_S n : seen (S n) = seen n ++ (if read (visible startNS endNS) false l n then [n] else []).
Proof.
  unfold seen. rewrite seq_S, filter_app, Nat.add_0_l, filter_cons, filter_nil. f_equal.
  destruct (read _ _ l n); [by rewrite decide_True by done|by rewrite decide_False by (intros [])].
Qed.

Lemma seen_lt n i : i ∈ seen n -> (i < n)%nat /\ read (visible startNS endNS) false l i = true.
Proof. intros [Hv Hi%elem_of_seq]%list_elem_of_filter. apply Is_true_true in Hv. split; [lia|done]. Qed.

Lemma sorted_lookup i j a b : (i < j)%nat -> l !! i = Some a -> l !! j = Some b -> sl_start a <= sl_start b.
Proof.
  clear Hpos. revert i j. induction Hsorted as [|x k Hs IH HF]; intros i j Hij Ha Hb; [done|].
  destruct j as [|j]; [lia|]. destruct i as [|i]; cbn in Ha, Hb.
  - apply (inj Some) in Ha as <-. rewrite Forall_forall in HF. apply HF. by eapply list_elem_of_lookup_2.
  - apply (IH Hs i j); [lia|done..].
Qed.

Lemma px_mono i j : (i < j)%nat -> is_Some (l !! i) -> is_Some (l !! j) -> px i <= px j.
Proof.
  intros Hij [a Ea] [b Eb]. unfold lane_pixel, read. rewrite Ea, Eb. apply pixel_mono; [done..|].
  by eapply sorted_lookup.
Qed.

Lemma px_nonneg i : is_Some (l !! i) -> 0 <= px i.
Proof.
  intros [a Ea]. unfold lane_pixel, read. rewrite Ea. apply pixel_nonneg; [done..|].
  rewrite Forall_forall in Hpos. apply Hpos. by eapply list_elem_of_lookup_2.
Qed.

Lemma visible_lookup i : read (visible startNS endNS) false l i = true -> is_Some (l !! i) /\ counts sl_dur l i.
Proof.
  unfold counts, read. destruct (l !! i) as [it|]; [|done]. unfold visible.
  destruct (cell_num (sl_dur it)); [eauto|done].
Qed.
Lemma last_Some_app {A} (arr : list A) j : last arr = Some j -> exists arr0, arr = arr0 ++ [j].
Proof. rewrite last_Some. naive_solver. Qed.

Lemma run_step n st : (n < length l)%nat -> run_inv n st ->
  run_inv (S n) (group_step startNS endNS width false st n).
Proof.
  destruct st as [[l' flag] arr]. intros Hn [Ho HL HF]. cbn [fst snd] in *.
  unfold group_step. rewrite (read_but_px _ false l l') by done.
  destruct (read (visible startNS endNS) false l n) eqn:Hv;
    [|split; cbn [fst snd]; rewrite ?seen_S, ?Hv, ?app_nil_r; done].
  destruct (visible_lookup n Hv) as [Hsn Hcn].
  assert (Epx : read (group_pixel startNS endNS width false) 0%Q l' n = inject_Z (px n)).
  { rewrite (read_but_px _ 0%Q l l') by done. unfold lane_pixel, read. destruct Hsn as [it ->].
    unfold group_pixel. cbn [andb]. apply pixel_whole. }
  rewrite Epx. set (l2 := alter (set_px (inject_Z (px n))) n l').
  assert (Ho2 : but_px l2 = but_px l) by (unfold l2; rewrite but_px_alter; done).
  assert (Edur : forall i, read sl_dur CUndefined l2 i = read sl_dur CUndefined l i) by (intros; by apply read_but_px).
  destruct (last arr) as [j|] eqn:Elast.
  - destruct HF as [-> Hmax]. rewrite Qeq_bool_whole, !Edur.
    apply last_Some_app in Elast as [arr0 ->].
    assert (Hj : j ∈ seen n) by (apply HL; set_solver). destruct (seen_lt n j Hj) as [Hjn Hvj].
    destruct (visible_lookup j Hvj) as [Hsj Hcj]. pose proof (px_mono j n Hjn Hsj Hsn) as Hle.
    destruct (Z.eqb_spec (px j) (px n)) as [He|He]; cbn [andb].
    + assert (Hlen : cell_gt (read sl_dur CUndefined l n) (read sl_dur CUndefined l j) = (lane_dur l j <? lane_dur l n)).
      { unfold lane_dur, length_of, cell_gt. destruct Hcj as [dj ->], Hcn as [dn ->]. done. }
      rewrite Hlen, length_app, Nat.add_sub, take_app_length.
      destruct (Z.ltb_spec (lane_dur l j) (lane_dur l n)).
      * split; cbn [fst snd]; rewrite ?seen_S, ?Hv, ?last_snoc; [done|eapply longest_replace; [done..|lia]|].
        rewrite He. split; [done|]. intros i [Hi| ->%list_elem_of_singleton]%elem_of_app; [|lia].
        pose proof (Hmax i Hi). lia.
      * split; cbn [fst snd]; rewrite ?seen_S, ?Hv, ?last_snoc;
          [done|apply (longest_keep _ _ _ _ n j); [done|set_solver|done|lia]|].
        split; [done|]. intros i [Hi| ->%list_elem_of_singleton]%elem_of_app; [by apply Hmax|lia].
    + split; cbn [fst snd]; rewrite ?seen_S, ?Hv, ?last_snoc; [done| |].
      * apply longest_push; [done|]. intros (i & Ei & Hi)%list_elem_of_fmap.
        pose proof (Hmax i (lp_visible _ _ _ _ HL i Hi)). lia.
      * split; [done|]. intros i [Hi| ->%list_elem_of_singleton]%elem_of_app; [|lia].
        pose proof (Hmax i Hi). lia.
  - apply last_None in Elast as ->. rewrite HF. unfold flagInit at 1. rewrite Qeq_bool_whole.
    pose proof (px_nonneg n Hsn). destruct (Z.eqb_spec (-100000000) (px n)); [lia|].
    assert (Hnil : seen n = []).
    { destruct (seen n) as [|i k] eqn:E; [done|]. destruct (lp_longest _ _ _ _ HL i) as (j & Hj & _); set_solver. }
    split; cbn [fst snd]; rewrite ?seen_S, ?Hv, ?last_snoc; [done|apply longest_push; [done|set_solver]|].
    cbn [last app]. split; [done|]. rewrite Hnil. intros i ->%list_elem_of_singleton. lia.
Qed.

Lemma run_loop n : (n <= length l)%nat ->
  run_inv n (foldl (group_step startNS endNS width false) (l, flagInit, []) (seq 0 n)).
Proof.
  induction n as [|n IH]; intros Hn; [split; [done|split; [set_solver|constructor|set_solver]|done]|].
  rewrite seq_S, foldl_snoc. apply run_step; [lia|]. apply IH. lia.
Qed.

Lemma fast_longest :
  longest_per_key px (lane_dur l) (findRange l startNS endNS)
    (filterDataByGroupWithoutValue l startNS endNS width false).2.
Proof.
  unfold filterDataByGroupWithoutValue. pose proof (run_loop (length l) ltac:(lia)) as [_ HL _].
  destruct (foldl _ _ _) as [[l' flag] arr]. exact HL.
Qed.
End Loop.
End Runs.

(** C20: The two ways to thin a lane agree.  For a lane whose slices are in the order
    of their starts, the single pass over the slices and the grouping by columns of
    pixels both show exactly one slice for every column that has a visible slice,
    one of the longest there, and they show the same lengths in the same columns. *)
Theorem fast_matches_grouping {R} `{DoubleLaws} (l : list (slice R)) startNS endNS width
    (Hwin : startNS < endNS) (Hwidth : 0 < width)
    (Hsorted : StronglySorted (key_le sl_start) l) (Hpos : Forall (fun it => 0 <= sl_start it) l) :
  let fast := (filterDataByGroup l startNS endNS width None None true false).2 in
  let slow := (filterDataByGroup l startNS endNS width None None false false).2 in
  let column := lane_pixel startNS endNS width l in
  let promise := longest_per_key column (lane_dur l) (findRange l startNS endNS) in
  promise fast /\ promise slow /\
  forall c d, (exists i, i ∈ fast /\ column i = c /\ lane_dur l i = d) <->
              (exists i, i ∈ slow /\ column i = c /\ lane_dur l i = d).
Proof.
  pose proof (fast_longest l startNS endNS width Hwin Hwidth Hsorted Hpos) as Hf.
  pose proof (slow_longest l startNS endNS width) as Hs. intros fast slow column promise.
  split_and!; [exact Hf|exact Hs|]. intros c d.
  split; [by apply (longest_agree _ _ _ _ _ _ _ Hf Hs)|by apply (longest_agree _ _ _ _ _ _ _ Hs Hf)].
Qed.

(** Nine slices on three pixels of a window of thirty nanoseconds. *)
Definition fx_lane : list (slice Z) :=
  (fun '(s, d, i) => row s (CNum d) 0 CNull i) <$>
    [(0, 2, 1); (3, 5, 2); (9, 1, 3); (10, 1, 4); (12, 4, 5); (17, 4, 6); (19, 1, 7); (25, 0, 8); (31, 9, 9)].

Example fx_fast : (@filterDataByGroup _ exact_doubles fx_lane 0 30 3 None None true false).2 = [1; 4; 7]%nat.
Proof. vm_compute. reflexivity. Qed.

Example fx_slow : (@filterDataByGroup _ exact_doubles fx_lane 0 30 3 None None false false).2 = [1; 5; 7]%nat.
Proof. vm_compute. reflexivity. Qed.

Lemma fast_matches_grouping_witness :
  (exists i, i ∈ (@filterDataByGroup _ exact_doubles fx_lane 0 30 3 None None false false).2 /\
     @lane_pixel _ exact_doubles 0 30 3 fx_lane i = 1 /\ lane_dur fx_lane i = 4) /\
  length (@filterDataByGroup _ exact_doubles fx_lane 0 30 3 None None true false).2 = 3%nat.
Proof.
  split; [|vm_compute; reflexivity].
  apply (@fast_matches_grouping _ exact_doubles exact_laws fx_lane 0 30 3).
  - lia.
  - lia.
  - unfold fx_lane. repeat constructor; unfold key_le; cbn; lia.
  - unfold fx_lane. repeat constructor; cbn; lia.
  - exists 4%nat. split_and!; [|vm_compute; reflexivity..].
    apply (bool_decide_unpack _). vm_compute. exact I.
Defined.

(** ** Lanes that must show a kind of slice *)

Section Kinds.
Context {R : Type} `{Doubles}.
Implicit Types l : list (slice R).

Lemma group_result_elem valueKey filt l gs acc i :
  i ∈ foldl (group_result valueKey filt l) acc gs <->
  i ∈ acc \/ exists g, g ∈ gs /\
    (greatest sl_dur l g = Some i \/ (exists f, valueKey = Some f /\ greatest f l g = Some i) \/
     (exists p, filt = Some p /\ greatest sl_dur l (filter (fun i => Is_true (read p false l i)) g) = Some i)).
Proof.
  revert acc. induction gs as [|g gs IH]; intros acc; cbn [foldl]; [set_solver|].
  rewrite IH. unfold group_result at 1. destruct valueKey as [f|], filt as [p|]; rewrite !set_add_position.
  all: setoid_rewrite elem_of_cons; naive_solver.
Qed.

Lemma greatest_elem f l arr i : greatest f l arr = Some i -> i ∈ arr.
Proof.
  destruct arr as [|x arr]; [done|]. cbn [greatest]. intros [= <-]. revert x.
  induction arr as [|y arr IH]; intros x; cbn [foldl]; [set_solver|].
  destruct (cell_gt _ _); [specialize (IH x)|specialize (IH y)]; set_solver.
Qed.

Lemma groups_members (key : slice R -> jsstring) l arr g :
  g ∈ groups key l arr <-> exists k, g = filter (fun x => read key [] l x = k) arr /\ g <> [].
Proof. apply Object_values_group. Qed.

(** The filter of the thread lanes.  Every slice shown is visible; every column
    with a visible slice shows one of the longest of them; and when the column has a
    slice of the kind that the filter asks for (a running one), it also shows one of
    the longest of that kind. *)
Theorem filterDataByGroup_kinds l startNS endNS width (p : slice R -> bool) fast dma
    (Hp : forall q it, p (set_px q it) = p it) :
  let res := (filterDataByGroup l startNS endNS width None (Some p) fast dma).2 in
  let column := lane_pixel startNS endNS width l in
  (forall i, i ∈ res -> i ∈ findRange l startNS endNS) /\
  (forall i, i ∈ findRange l startNS endNS ->
     exists j, j ∈ res /\ column j = column i /\ lane_dur l i <= lane_dur l j) /\
  (forall i, i ∈ findRange l startNS endNS -> read p false l i = true ->
     exists j, j ∈ res /\ column j = column i /\ read p false l j = true /\ lane_dur l i <= lane_dur l j).
Proof.
  intros res column. set (vis := findRange l startNS endNS). set (l' := with_pixels l startNS endNS width).
  set (key := fun it : slice R => whole_text (sl_px it)).
  assert (Eres : res = foldl (group_result None (Some p) l') [] (groups key l' vis)).
  { unfold res, filterDataByGroup. rewrite bool_decide_true by eauto. by rewrite orb_true_r. }
  assert (Hsame : forall i j, i ∈ vis -> j ∈ vis -> read key [] l' j = read key [] l' i -> column j = column i).
  { intros i j Hi Hj. unfold key, l', with_pixels. rewrite !read_store by (done || apply findRange_NoDup).
    cbn [sl_px set_px]. apply read_text_eq; by eapply visible_is_Some. }
  assert (Edur : forall i, length_of sl_dur l' i = lane_dur l i).
  { intros i. unfold lane_dur, length_of, l'. by rewrite with_pixels_read. }
  assert (Hcount : forall i, i ∈ vis -> counts sl_dur l' i).
  { intros i Hi. unfold counts, l'. rewrite with_pixels_read by done. by eapply visible_counts. }
  assert (Ep : forall i, read p false l' i = read p false l i) by (intros i; by apply with_pixels_read).
  assert (Hgroup : forall i, i ∈ vis ->
    exists g, g ∈ groups key l' vis /\ i ∈ g /\ forall j, j ∈ g -> j ∈ vis /\ column j = column i).
  { intros i Hi. set (g := filter (fun x => read key [] l' x = read key [] l' i) vis).
    assert (Hig : i ∈ g) by (by apply list_elem_of_filter). exists g. split_and!; [|done|].
    - apply groups_members. eexists. split; [done|]. intros E. rewrite E in Hig. set_solver.
    - intros j [Hk Hj]%list_elem_of_filter. split; [done|by apply Hsame]. }
  rewrite Eres. split_and!.
  - intros i [?|(g & (k & -> & _)%groups_members & Hg)]%group_result_elem; [set_solver|].
    destruct Hg as [Hg%greatest_elem|[(f & [=] & _)|(q & [= <-] & Hg%greatest_elem)]];
      rewrite !list_elem_of_filter in Hg; tauto.
  - intros i Hi. destruct (Hgroup i Hi) as (g & Hg & Hig & Hin).
    destruct (greatest_spec sl_dur l' g) as (m & Em & Hm & Hmax); [intros ->; set_solver| |].
    { intros j Hj. apply Hcount, Hin, Hj. }
    exists m. split_and!; [apply group_result_elem; right; eauto|by apply Hin|].
    rewrite <- !Edur. by apply Hmax.
  - intros i Hi Hpi. destruct (Hgroup i Hi) as (g & Hg & Hig & Hin).
    set (g' := filter (fun i => Is_true (read p false l' i)) g).
    assert (Hig' : i ∈ g') by (apply list_elem_of_filter; rewrite Ep, Hpi; done).
    destruct (greatest_spec sl_dur l' g') as (m & Em & Hm & Hmax); [intros E; rewrite E in Hig'; set_solver| |].
    { intros j [_ Hj]%list_elem_of_filter. apply Hcount, Hin, Hj. }
    apply list_elem_of_filter in Hm as [Hpm Hm]. rewrite Ep in Hpm. exists m.
    split_and!; [|by apply Hin|by apply Is_true_true in Hpm|rewrite <- !Edur; by apply Hmax].
    apply group_result_elem. right. exists g. split; [done|]. right. right. exists p. done.
Qed.
End Kinds.

Lemma filterDataByGroup_kinds_witness :
  exists j, j ∈ (@filterDataByGroup _ exact_doubles fx_lane 0 30 3 None
                  (Some (fun it => sl_rest it =? 7)) false false).2 /\
    @lane_pixel _ exact_doubles 0 30 3 fx_lane j = 1 /\
    read (fun it => sl_rest it =? 7) false fx_lane j = true /\ 1 <= lane_dur fx_lane j.
Proof.
  apply (proj2 (proj2 (@filterDataByGroup_kinds _ exact_doubles fx_lane 0 30 3
    (fun it => sl_rest it =? 7) false false ltac:(done))) 6%nat).
  - apply (bool_decide_unpack _). vm_compute. exact I.
  - reflexivity.
Defined.

(** ** Layers share columns *)

Lemma exact_layer_pixel {R} startNS endNS width (a b : slice R) : startNS < endNS -> 0 < width ->
  sl_layer b = sl_layer a + 1 -> sl_start a = sl_start b + (endNS - startNS) ->
  Qfloor (@layer_pixel _ exact_doubles startNS endNS width a) = Qfloor (@layer_pixel _ exact_doubles startNS endNS width b).
Proof.
  intros Hn Hw Hl Hs. unfold layer_pixel, pixel_ns. cbn [fdiv fadd exact_doubles]. rewrite !Qfloor_Z.
  apply Qfloor_comp. rewrite Hl, Hs, Z.mul_add_distr_r, Z.mul_1_l, !inject_Z_plus.
  assert (~ inject_Z width == 0)%Q by (change 0%Q with (inject_Z 0); rewrite inject_Z_injective; lia).
  assert (~ inject_Z (endNS - startNS) == 0)%Q by (change 0%Q with (inject_Z 0); rewrite inject_Z_injective; lia).
  field. done.
Qed.

(** A slice can hide a slice of another layer.  The column of the call stack
    lanes adds the layer times the width of the window to a pixel that is counted
    from the start of the recording, so that a slice and a slice of the next layer
    that starts one window earlier have the same column: of two such slices at most
    one is shown, even when both are visible. *)
Theorem layers_collide {R} (l : list (slice R)) startNS endNS width i j a b
    (Hwin : startNS < endNS) (Hwidth : 0 < width) (Ha : l !! i = Some a) (Hb : l !! j = Some b)
    (Hlayer : sl_layer b = sl_layer a + 1) (Hstart : sl_start a = sl_start b + (endNS - startNS)) :
  ~ (i ∈ (@filterDataByGroupLayer _ exact_doubles l startNS endNS width).2 /\
     j ∈ (@filterDataByGroupLayer _ exact_doubles l startNS endNS width).2).
Proof.
  intros [Hi Hj]. pose proof (@filterDataByGroupLayer_longest _ exact_doubles l startNS endNS width) as [_ HN _].
  assert (i = j) as ->; [|assert (a = b) as -> by congruence; lia].
  eapply NoDup_fmap_key; [exact HN|done..|]. unfold lane_layer_pixel, read. rewrite Ha, Hb.
  by apply exact_layer_pixel.
Qed.

(** The inner slice starts at 5 and lasts until 103, the next outer one starts at 105
    in the window from 100 to 200: the short one is not drawn. *)
Definition fx_stack : list (slice Z) :=
  [row 0 (CNum 104) 0 CNull 1; row 5 (CNum 98) 1 CNull 2; row 105 (CNum 9) 0 CNull 3].

Lemma layers_collide_witness :
  findRange fx_stack 100 200 = [0; 1; 2]%nat /\
  ~ (2%nat ∈ (@filterDataByGroupLayer _ exact_doubles fx_stack 100 200 10).2 /\
     1%nat ∈ (@filterDataByGroupLayer _ exact_doubles fx_stack 100 200 10).2).
Proof.
  split; [vm_compute; reflexivity|].
  refine (layers_collide fx_stack 100 200 10 2 1 _ _ _ _ eq_refl eq_refl _ _); [lia|lia|reflexivity|reflexivity].
Defined.

(** ** Thinning the slices of each layer *)

Lemma elem_of_concat {A} (x : A) ls : x ∈ concat ls <-> exists l, l ∈ ls /\ x ∈ l.
Proof. rewrite list_elem_of_In, in_concat. setoid_rewrite list_elem_of_In. naive_solver. Qed.

Lemma filter_ext_elem {A} (P Q : A -> Prop) `{!forall x, Decision (P x), !forall x, Decision (Q x)} (l : list A) :
  (forall x, x ∈ l -> P x <-> Q x) -> filter P l = filter Q l.
Proof.
  induction l as [|x l IH]; intros HPQ; [done|]. rewrite !filter_cons, IH by set_solver.
  pose proof (HPQ x ltac:(by left)). destruct (decide (P x)), (decide (Q x)); tauto.
Qed.

Section Thinning.
Context {R : Type} `{Doubles} (endNS : Z) (pns : Q).
Implicit Types l : list (slice R).

(** What the loop over a layer of [n] slices does to a slice of it. *)
Record thinned (n : nat) (a a' : slice R) : Prop := {
  th_start : sl_start a' = sl_start a;
  th_rest : sl_rest a' = sl_rest a;
  th_filled : cell_missing (sl_dur a') = false;
  th_kept : cell_missing (sl_dur a) = false -> sl_dur a' = sl_dur a;
  th_wide : (pns <= inject_Z (default 0%Z (cell_num (sl_dur a'))))%Q -> sl_v a' = Some true;
  th_few : (n < 100)%nat -> sl_v a' = Some true
}.

(** The slice after its missing length has been filled in. *)
Lemma layer_step_at it l sum k i a : it !! k = Some i -> l !! i = Some a -> NoDup it ->
  exists l' sum', layer_step endNS pns it (l, sum) k = (l', sum') /\
    (forall j, j <> i -> l' !! j = l !! j) /\ exists a', l' !! i = Some a' /\ thinned (length it) a a'.
Proof.
  intros Hk Ha HN. unfold layer_step. rewrite Hk.
  set (fin := match it !! S k with Some j => _ | None => _ end).
  assert (E : exists l1 a1, (if cell_missing (read sl_dur CUndefined l i)
      then alter (set_dur (CNum (fin - read sl_start 0 l i))) i l else l) = l1 /\
      (forall j, j <> i -> l1 !! j = l !! j) /\ l1 !! i = Some a1 /\ cell_missing (sl_dur a1) = false /\
      sl_start a1 = sl_start a /\ sl_rest a1 = sl_rest a /\ (cell_missing (sl_dur a) = false -> sl_dur a1 = sl_dur a)).
  { unfold read at 1. rewrite Ha. destruct (cell_missing (sl_dur a)) eqn:Em.
    - do 2 eexists. split; [done|]. split; [intros j Hj; by apply list_lookup_alter_ne|].
      rewrite list_lookup_alter_eq, Ha. split; [done|]. done.
    - exists l, a. split_and!; try done. }
  destruct E as (l1 & a1 & -> & Hother & Ha1 & Hm & Hst & Hre & Hdu).
  set (d := default 0 (cell_num (read sl_dur CUndefined l1 i))).
  assert (Ed : d = default 0 (cell_num (sl_dur a1))) by (unfold d, read; by rewrite Ha1).
  assert (Hdone : forall l2 v, l2 = alter (set_v v) i l1 ->
    (v = true \/ (~ (pns <= inject_Z d)%Q /\ (100 <= length it)%nat)) ->
    (forall j, j <> i -> l2 !! j = l !! j) /\ exists a', l2 !! i = Some a' /\ thinned (length it) a a').
  { intros l2 v -> Hv. split; [intros j Hj; rewrite list_lookup_alter_ne by done; by apply Hother|].
    exists (set_v v a1). rewrite list_lookup_alter_eq, Ha1. split; [done|].
    split; cbn; try done; rewrite <- ?Ed; intros; destruct Hv as [->|[? ?]]; [done..|lia]. }
  destruct (Qle_bool pns (inject_Z d)) eqn:Hq; [|destruct (Nat.ltb_spec (length it) 100) as [Hlt|Hge]]; cbn [orb].
  - eexists _, _. split; [done|]. eapply Hdone; eauto.
  - eexists _, _. split; [done|]. eapply Hdone; eauto.
  - assert (Hnq : ~ (pns <= inject_Z d)%Q) by (rewrite <- Qle_bool_iff; congruence).
    destruct k as [|k].
    + eexists _, _. split; [done|]. split; [done|]. exists a1. split; [done|].
      split; rewrite <- ?Ed; try done. intros. lia.
    + assert (exists p, it !! k = Some p) as [p ->].
      { apply lookup_lt_is_Some. apply lookup_lt_Some in Hk. lia. }
      destruct (_ && _); eexists _, _; (split; [done|]); eapply Hdone; eauto.
Qed.

Lemma layer_loop it l : NoDup it -> (forall i, i ∈ it -> is_Some (l !! i)) ->
  forall n, (n <= length it)%nat ->
  let l' := (foldl (layer_step endNS pns it) (l, 0) (seq 0 n)).1 in
  (forall j, j ∉ take n it -> l' !! j = l !! j) /\
  (forall i a, i ∈ take n it -> l !! i = Some a -> exists a', l' !! i = Some a' /\ thinned (length it) a a').
Proof.
  intros HN Hall n. induction n as [|n IH]; intros Hn l'; [split; [done|set_solver]|].
  subst l'. rewrite seq_S, foldl_snoc. destruct IH as [Ho Hi]; [lia|].
  destruct (foldl _ _ _) as [l1 sum] eqn:E1. cbn [fst] in Ho, Hi.
  destruct (it !! n) as [i|] eqn:Hk; [|apply lookup_ge_None in Hk; lia].
  assert (Hin : i ∈ it) by (by eapply list_elem_of_lookup_2). destruct (Hall i Hin) as [a Ha].
  rewrite (take_S_r it n i Hk) in *. assert (Hfresh : i ∉ take n it).
  { rewrite <- (take_drop_middle it n i Hk) in HN. apply NoDup_app in HN as (_ & Hd & _). intros Hi'.
    apply (Hd i Hi'). by left. }
  assert (Ha1 : l1 !! i = Some a) by (rewrite Ho; done).
  destruct (layer_step_at it l1 sum n i a Hk Ha1 HN) as (l2 & sum2 & E2 & Ho2 & a2 & Ha2 & Ht).
  rewrite Nat.add_0_l, E2. cbn [fst]. split.
  - intros j Hj. rewrite Ho2, Ho by set_solver. done.
  - intros j b [Hj| ->%list_elem_of_singleton]%elem_of_app Hb; [|exists a2; assert (b = a) as -> by congruence; done].
    rewrite Ho2 by (intros ->; done). by apply Hi.
Qed.

(** All layers: [gs] are the positions of each. *)
Lemma layers_loop gs : forall l res, NoDup (concat gs) -> (forall i, i ∈ concat gs -> is_Some (l !! i)) ->
  let '(l', res') := foldl (layer_result endNS pns) (l, res) gs in
  (forall j, j ∉ concat gs -> l' !! j = l !! j) /\
  (forall g i a, g ∈ gs -> i ∈ g -> l !! i = Some a -> exists a', l' !! i = Some a' /\ thinned (length g) a a') /\
  (forall i, i ∈ res' <-> i ∈ res \/ (i ∈ concat gs /\ read sl_v None l' i = Some true)).
Proof.
  induction gs as [|g gs IH]; intros l res HN Hall; cbn [foldl]; [cbn; set_solver|].
  cbn [concat] in *. apply NoDup_app in HN as (HNg & Hd & HN).
  destruct (layer_loop g l HNg ltac:(intros; apply Hall; set_solver) (length g) ltac:(lia)) as [Ho Hi].
  rewrite take_ge in Ho, Hi by lia. unfold layer_result at 2. set (l1 := (foldl (layer_step endNS pns g) _ _).1) in *.
  set (res1 := res ++ _). specialize (IH l1 res1 HN).
  destruct (foldl (layer_result endNS pns) (l1, res1) gs) as [l' res'].
  destruct IH as (Ho' & Hi' & Hr').
  { intros i Hi'. rewrite Ho; [apply Hall; set_solver|]. intros Hg. by apply (Hd i Hg). }
  split_and!.
  - intros j Hj. rewrite Ho', Ho by set_solver. done.
  - intros g' i a [->|Hg']%elem_of_cons Hig Ha.
    + rewrite Ho' by (by apply Hd). by apply Hi.
    + apply (Hi' g' i a Hg' Hig). rewrite Ho; [done|]. intros Hg. apply (Hd i Hg). apply elem_of_concat. eauto.
  - intros i. rewrite Hr'. unfold res1. rewrite !elem_of_app, list_elem_of_filter.
    assert (i ∈ g -> read sl_v None l1 i = read sl_v None l' i).
    { intros Hg. unfold read. rewrite Ho'; [done|by apply Hd]. }
    split; [intros [[?|[Hv Hg]]|[Hg Hv]]|intros [?|[[Hg|Hg] Hv]]]; auto.
    + right. split; [by left|]. by rewrite <- H0.
    + left. right. split; [|done]. by rewrite H0.
Qed.
End Thinning.

(** The visible slices of the layer of the slice at [i]. *)
Definition layer_mates {R} (l : list (slice R)) (vis : list nat) (i : nat) : list nat :=
  filter (fun j => read sl_layer 0 l j = read sl_layer 0 l i) vis.

(** The filter of the process lanes.  It shows visible slices only, and among
    them every slice that is at least one pixel long and every slice of a layer with
    fewer than a hundred visible slices; afterwards every visible slice has a length,
    and the lengths that were there are unchanged. *)
Theorem filterDataByLayer_keeps {R} `{Doubles} (l : list (slice R)) startNS endNS width :
  let vis := findRange l startNS endNS in
  let l' := (filterDataByLayer l startNS endNS width).1 in
  let res := (filterDataByLayer l startNS endNS width).2 in
  (forall i, i ∈ res -> i ∈ vis) /\
  (forall i, i ∉ vis -> l' !! i = l !! i) /\
  (forall i a, i ∈ vis -> l !! i = Some a -> exists a', l' !! i = Some a' /\
     sl_start a' = sl_start a /\ sl_rest a' = sl_rest a /\ cell_missing (sl_dur a') = false /\
     (cell_missing (sl_dur a) = false -> sl_dur a' = sl_dur a) /\
     ((pixel_ns startNS endNS width <= inject_Z (lane_dur l' i))%Q -> i ∈ res) /\
     ((length (layer_mates l vis i) < 100)%nat -> i ∈ res)).
Proof.
  intros vis l' res. subst l' res. unfold filterDataByLayer. fold vis.
  set (key := fun it : slice R => js_toString 10 (sl_layer it)).
  assert (Hp : concat (groups key l vis) ≡ₚ vis) by apply Object_values_concat.
  pose proof (layers_loop endNS (pixel_ns startNS endNS width) (groups key l vis) l []) as HL.
  destruct (foldl _ _ _) as [l' res]. cbn [fst snd]. destruct HL as (Ho & Hi & Hr).
  { rewrite Hp. apply findRange_NoDup. }
  { intros i. rewrite Hp. apply visible_is_Some. }
  split_and!.
  - intros i [?|[Hc _]]%Hr; [set_solver|]. by rewrite Hp in Hc.
  - intros i Hv. apply Ho. by rewrite Hp.
  - intros i a Hv Ha. assert (Hc : i ∈ concat (groups key l vis)) by (by rewrite Hp).
    apply elem_of_concat in Hc as Hg. destruct Hg as (g & Hg & Hig).
    destruct (Hi g i a Hg Hig Ha) as (a' & Ha' & Ht). exists a'. split; [done|].
    assert (Hshown : sl_v a' = Some true -> i ∈ res).
    { intros Hs. apply Hr. right. split; [done|]. unfold read. by rewrite Ha'. }
    destruct Ht as [Hs Hre Hf Hk Hw Hn]. split_and!; [done..| |].
    + intros Hq. apply Hshown, Hw. unfold lane_dur, length_of, read in Hq. by rewrite Ha' in Hq.
    + intros Hq. apply Hshown, Hn. apply groups_members in Hg as (k & -> & _).
      apply list_elem_of_filter in Hig as [Ek _]. unfold layer_mates in Hq.
      rewrite (filter_ext_elem _ (fun j => read sl_layer 0 l j = read sl_layer 0 l i)); [exact Hq|].
      intros j [b Hb]%visible_is_Some. rewrite <- Ek. unfold read. rewrite Ha, Hb. unfold key.
      split; [apply js_toString_inj|congruence].
Qed.
