(* ===== verification/LaneBuffers.v ===== *)
(** * The buffers that carry the slices of a lane to the page

    Every receiver of [trace/database/data-trafic] ends in an [arrayBufferHandler] that
    stores the columns of the chosen slices in typed arrays and posts their buffers;
    the sender of the same lane wraps the buffers in typed arrays of its own and builds
    one object per index.  Both tables are data here: a column is a buffer name, the
    element type it is written with and the property it holds; a field is the property
    of the page's object, the buffer it reads, the element type it is read with and the
    conversion applied to the element.  Integer buffers are bytes in the order of the
    machine (little endian), so that reading with another type is what it is in the
    code. *)

From S2P Require Import Prelude JsRuntime HeapModel SwimFilter.

(** ** Values and objects *)

Inductive pval :=
  | PNum (c : cell)
  | PNaN
  | PText (s : jsstring)
  | PBool (b : bool).

#[export] Instance pval_eq_dec : EqDecision pval.
Proof. solve_decision. Defined.

Definition object := list (string * pval).

Definition prop (o : object) (k : string) : pval := default (PNum CUndefined) (map_get o k).

(** The number that a typed array stores: texts that are not numbers are NaN. *)
Definition pval_num (v : pval) : cell :=
  match v with
  | PNum c => c
  | PBool b => CNum (if b then 1 else 0)
  | PNaN | PText _ => CUndefined
  end.

(** ** Typed arrays *)

(** [Float64Array], or integers of a number of bytes. *)
Inductive ctype :=
  | F64
  | Ints (bytes : nat) (signed : bool).

Notation U8 := (Ints 1 false).
Notation I8 := (Ints 1 true).
Notation U16 := (Ints 2 false).
Notation I16 := (Ints 2 true).
Notation U32 := (Ints 4 false).
Notation I32 := (Ints 4 true).

(** The integer of a width that a number becomes. *)
Definition wrap_int (n : nat) (signed : bool) (z : Z) : Z :=
  let m := z mod 2 ^ (8 * Z.of_nat n) in
  if signed && (2 ^ (8 * Z.of_nat n - 1) <=? m) then m - 2 ^ (8 * Z.of_nat n) else m.

Fixpoint le_bytes (n : nat) (z : Z) : list Z :=
  match n with
  | O => []
  | S n' => z mod 256 :: le_bytes n' (z / 256)
  end.

Definition of_le (bs : list Z) : Z := foldr (fun b acc => b + 256 * acc) 0 bs.

Inductive buffer :=
  | Floats (l : list (option Z))
  | Bytes (l : list Z).

(** [let a = new T(n); res.forEach((it, i) => { a[i] = ... })] and [a.buffer] *)
Definition write_array (t : ctype) (cs : list cell) : buffer :=
  match t with
  | F64 => Floats (cell_num <$> cs)
  | Ints n _ => Bytes (concat ((fun c => le_bytes n (default 0 (cell_num c))) <$> cs))
  end.

(** [new T(buffer)[i]]: nothing there is [undefined].  A table never reads doubles as
    integers or integers as doubles. *)
Definition read_array (t : ctype) (b : option buffer) (i : nat) : pval :=
  match t, b with
  | F64, Some (Floats l) =>
      match l !! i with Some (Some z) => PNum (CNum z) | Some None => PNaN | None => PNum CUndefined end
  | Ints n sg, Some (Bytes l) =>
      let bs := take n (drop (i * n) l) in
      if bool_decide (length bs = n) then PNum (CNum (wrap_int n sg (of_le bs))) else PNum CUndefined
  | _, _ => PNum CUndefined
  end.

(** ** Messages *)

Record message := Message {
  msg_results : list (string * buffer);
  msg_len : nat;
  msg_isEmpty : bool
}.

Notation lane_row := (slice object).

Definition column : Type := string * ctype * (lane_row -> cell).

Record field := Field {
  f_prop : string;
  f_buffer : string;
  f_type : ctype;
  f_view : pval -> pval
}.

Definition post (cols : list column) (rows : list lane_row) (isEmpty : bool) : message :=
  {| msg_results := (fun '(name, t, get) => (name, write_array t (get <$> rows))) <$> cols;
     msg_len := length rows;
     msg_isEmpty := isEmpty |}.

Definition unpack (fields : list field) (msg : message) : list object :=
  (fun i => (fun f => (f_prop f, f_view f (read_array (f_type f) (map_get (msg_results msg) (f_buffer f)) i))) <$> fields)
    <$> seq 0 (msg_len msg).

(** ** Reading what was written *)

Lemma le_bytes_length n z : length (le_bytes n z) = n.
Proof. revert z. induction n; intros z; cbn; [done|]. by f_equal. Qed.

Lemma of_le_bytes n z : of_le (le_bytes n z) = z mod 2 ^ (8 * Z.of_nat n).
Proof.
  revert z. induction n as [|n IH]; intros z; [cbn; by rewrite Z.mod_1_r|].
  cbn [le_bytes of_le foldr]. change (foldr _ 0 ?l) with (of_le l). rewrite IH.
  replace (2 ^ (8 * Z.of_nat (S n))) with (256 * 2 ^ (8 * Z.of_nat n)).
  - rewrite Z.rem_mul_r; [lia|lia|]. apply Z.pow_pos_nonneg; lia.
  - change 256 with (2 ^ 8). rewrite <- Z.pow_add_r by lia. f_equal. lia.
Qed.

Lemma concat_blocks {A} (n : nat) (ls : list (list A)) i b :
  Forall (fun l => length l = n) ls -> ls !! i = Some b -> take n (drop (i * n) (concat ls)) = b.
Proof.
  intros HF. revert i. induction HF as [|l ls Hl HF IH]; intros [|i] Hi; cbn in Hi; [done|done| |].
  - apply (inj Some) in Hi as <-. cbn. by rewrite drop_0, take_app_length'.
  - cbn [concat]. rewrite Nat.mul_succ_l, drop_app_ge by lia.
    replace (i * n + n - length l)%nat with (i * n)%nat by lia. by apply IH.
Qed.

Lemma wrap_int_mod n sg z : (0 < n)%nat -> wrap_int n sg (z mod 2 ^ (8 * Z.of_nat n)) = wrap_int n sg z.
Proof. intros Hn. unfold wrap_int. by rewrite Z.mod_mod by (apply Z.pow_nonzero; lia). Qed.

(** What arrives of a value that is written as [t] and read as [t']. *)
Definition arrives (t t' : ctype) (c : cell) : pval :=
  match t, t' with
  | F64, F64 => match cell_num c with Some z => PNum (CNum z) | None => PNaN end
  | Ints n _, Ints m sg => if Nat.eqb n m then PNum (CNum (wrap_int m sg (default 0 (cell_num c)))) else PNum CUndefined
  | _, _ => PNum CUndefined
  end.

(** The two sides agree on the width of the elements. *)
Definition same_width (t t' : ctype) : bool :=
  match t, t' with
  | F64, F64 => true
  | Ints n _, Ints m _ => Nat.eqb n m && (0 <? m)%nat
  | _, _ => false
  end.

Lemma read_write t t' cs i c : same_width t t' = true -> cs !! i = Some c ->
  read_array t' (Some (write_array t cs)) i = arrives t t' c.
Proof.
  intros Hw Hc. destruct t as [|n sg], t' as [|m sg']; try done; unfold same_width in Hw.
  - cbn. rewrite list_lookup_fmap, Hc. done.
  - apply andb_prop in Hw as [->%Nat.eqb_eq Hm%Nat.ltb_lt].
    cbn [write_array read_array arrives]. rewrite Nat.eqb_refl.
    rewrite (concat_blocks m _ i (le_bytes m (default 0 (cell_num c)))).
    + rewrite bool_decide_true by apply le_bytes_length. by rewrite of_le_bytes, wrap_int_mod.
    + apply Forall_forall. intros bs (d & -> & _)%list_elem_of_fmap. apply le_bytes_length.
    + by rewrite list_lookup_fmap, Hc.
Qed.

Lemma wrap_int_id n (sg : bool) z : (0 < n)%nat ->
  (if sg then - 2 ^ (8 * Z.of_nat n - 1) <= z < 2 ^ (8 * Z.of_nat n - 1) else 0 <= z < 2 ^ (8 * Z.of_nat n)) ->
  wrap_int n sg z = z.
Proof.
  intros Hn Hz. unfold wrap_int.
  assert (E : 2 ^ (8 * Z.of_nat n) = 2 * 2 ^ (8 * Z.of_nat n - 1)).
  { rewrite <- Z.pow_succ_r by lia. f_equal. lia. }
  destruct sg; cbn [andb]; [|by rewrite Z.mod_small].
  destruct (Z.lt_ge_cases z 0).
  - replace (z mod 2 ^ (8 * Z.of_nat n)) with (z + 2 ^ (8 * Z.of_nat n)).
    + zcase; lia.
    + symmetry. rewrite <- (Z_mod_plus_full z 1). rewrite Z.mul_1_l. apply Z.mod_small. lia.
  - rewrite Z.mod_small by lia. zcase; lia.
Qed.

(** ** A table of fields against a table of columns *)

(** The object that the page should build of a row. *)
Definition page_object (cols : list column) (fields : list field) (r : lane_row) : object :=
  (fun f => (f_prop f,
     f_view f (match map_get ((fun '(name, t, get) => (name, (t, get))) <$> cols) (f_buffer f) with
               | Some (t, get) => arrives t (f_type f) (get r)
               | None => PNum CUndefined
               end))) <$> fields.

(** Every field that finds its buffer reads elements of the width written. *)
Definition tables_match (cols : list column) (fields : list field) : bool :=
  forallb (fun f => match map_get ((fun '(name, t, get) => (name, (t, get))) <$> cols) (f_buffer f) with
                    | Some (t, get) => same_width t (f_type f)
                    | None => true
                    end) fields.

Lemma map_get_columns (cols : list column) rows k :
  map_get ((fun '(name, t, get) => (name, write_array t (get <$> rows))) <$> cols) k =
  (fun '(t, get) => write_array t (get <$> rows)) <$> map_get ((fun '(name, t, get) => (name, (t, get))) <$> cols) k.
Proof.
  induction cols as [|[[name t] get] cols IH]; [done|]. cbn. by case_decide.
Qed.

Lemma unpack_post cols fields rows isEmpty : tables_match cols fields = true ->
  unpack fields (post cols rows isEmpty) = page_object cols fields <$> rows.
Proof.
  intros Hm. apply list_eq. intros i. unfold unpack. rewrite !list_lookup_fmap. cbn [post msg_len msg_results].
  destruct (rows !! i) as [r|] eqn:Hr.
  - rewrite lookup_seq_lt by (by eapply lookup_lt_Some). cbn. f_equal. unfold page_object.
    apply list_fmap_ext. intros j f Hf. f_equal. f_equal. rewrite map_get_columns.
    apply forallb_forall with (x := f) in Hm; [|by apply list_elem_of_In, (list_elem_of_lookup_2 _ j)].
    destruct (map_get _ _) as [[t get]|]; [|by destruct (f_type f)]. cbn.
    apply read_write; [done|]. by rewrite list_lookup_fmap, Hr.
  - rewrite lookup_seq_ge by (by apply lookup_ge_None). done.
Qed.
