(* ===== verification/SwimLanes.v ===== *)
(** * The lanes that the database worker keeps in memory

    The receivers of [trace/database/data-trafic] answer the page's requests for the
    slices of a lane ([ExecProtoForWorker.ts] dispatches them).  The first request of a
    lane queries the database, completes the rows, and keeps them in a map of
    [utils/AllMemoryCache.ts]; every request then filters the kept rows for the window
    ([SwimFilter]) and posts typed arrays ([LaneBuffers]).  The filters store their
    scratch values in the kept rows, so a request also changes the memory.

    The database engine is a parameter ([database]): the rows of each query.  The page
    asks for these lanes with [TraficEnum.Memory] only, which is the branch modelled. *)

From Stdlib Require Import QArith Qround.
From S2P Require Import Prelude JsRuntime HeapModel SwimFilter LaneBuffers.
Open Scope Z_scope.

(** ** The database and the memory of the worker *)

(** The rows of the queries of each lane, by the arguments that occur in the query. *)
Record database := {
  db_cpu : Z -> list lane_row;
  db_cpuFreq : Z -> list lane_row;
  db_cpuFreqLimit : Z -> list lane_row;
  db_cpuState : Z -> list lane_row;
  db_clock : jsstring -> jsstring -> list lane_row;
  db_irq : Z -> jsstring -> list lane_row;
  db_thread : Z -> Z -> list lane_row;
  db_func : Z -> Z -> list lane_row;
  db_process : Z -> list lane_row;
  db_hang : Z -> Z -> list lane_row;
  db_dmaFence : jsstring -> list lane_row
}.

Record memory := {
  cpuList : list (Z * list lane_row);
  cpuFreqList : list (Z * list lane_row);
  cpuFreqLimitList : list (Z * list lane_row);
  cpuStateList : list (Z * list lane_row);
  clockList : list (jsstring * list lane_row);
  lrqList : list (jsstring * list lane_row);
  threadStateList : list (jsstring * list lane_row);
  threadCallStackList : list (jsstring * list lane_row);
  processList : list (Z * list lane_row);
  hangList : list (Z * list lane_row);
  dmaFenceList : list (jsstring * list lane_row)
}.

Definition no_memory : memory := Build_memory [] [] [] [] [] [] [] [] [] [] [].

Definition set_cpuList v m :=
  Build_memory v (cpuFreqList m) (cpuFreqLimitList m) (cpuStateList m) (clockList m) (lrqList m) (threadStateList m)
    (threadCallStackList m) (processList m) (hangList m) (dmaFenceList m).
Definition set_cpuFreqList v m :=
  Build_memory (cpuList m) v (cpuFreqLimitList m) (cpuStateList m) (clockList m) (lrqList m) (threadStateList m)
    (threadCallStackList m) (processList m) (hangList m) (dmaFenceList m).
Definition set_cpuFreqLimitList v m :=
  Build_memory (cpuList m) (cpuFreqList m) v (cpuStateList m) (clockList m) (lrqList m) (threadStateList m)
    (threadCallStackList m) (processList m) (hangList m) (dmaFenceList m).
Definition set_cpuStateList v m :=
  Build_memory (cpuList m) (cpuFreqList m) (cpuFreqLimitList m) v (clockList m) (lrqList m) (threadStateList m)
    (threadCallStackList m) (processList m) (hangList m) (dmaFenceList m).
Definition set_clockList v m :=
  Build_memory (cpuList m) (cpuFreqList m) (cpuFreqLimitList m) (cpuStateList m) v (lrqList m) (threadStateList m)
    (threadCallStackList m) (processList m) (hangList m) (dmaFenceList m).
Definition set_lrqList v m :=
  Build_memory (cpuList m) (cpuFreqList m) (cpuFreqLimitList m) (cpuStateList m) (clockList m) v (threadStateList m)
    (threadCallStackList m) (processList m) (hangList m) (dmaFenceList m).
Definition set_threadStateList v m :=
  Build_memory (cpuList m) (cpuFreqList m) (cpuFreqLimitList m) (cpuStateList m) (clockList m) (lrqList m) v
    (threadCallStackList m) (processList m) (hangList m) (dmaFenceList m).
Definition set_threadCallStackList v m :=
  Build_memory (cpuList m) (cpuFreqList m) (cpuFreqLimitList m) (cpuStateList m) (clockList m) (lrqList m)
    (threadStateList m) v (processList m) (hangList m) (dmaFenceList m).
Definition set_processList v m :=
  Build_memory (cpuList m) (cpuFreqList m) (cpuFreqLimitList m) (cpuStateList m) (clockList m) (lrqList m)
    (threadStateList m) (threadCallStackList m) v (hangList m) (dmaFenceList m).
Definition set_hangList v m :=
  Build_memory (cpuList m) (cpuFreqList m) (cpuFreqLimitList m) (cpuStateList m) (clockList m) (lrqList m)
    (threadStateList m) (threadCallStackList m) (processList m) v (dmaFenceList m).
Definition set_dmaFenceList v m :=
  Build_memory (cpuList m) (cpuFreqList m) (cpuFreqLimitList m) (cpuStateList m) (clockList m) (lrqList m)
    (threadStateList m) (threadCallStackList m) (processList m) (hangList m) v.

(** ** Completing the rows of a query *)

Definition set_rest (o : object) (r : lane_row) : lane_row :=
  Slice (sl_start r) (sl_dur r) (sl_layer r) (sl_value r) (sl_px r) (sl_durTmp r) (sl_v r) o.

Definition mark_finish (n : Z) (r : lane_row) : lane_row :=
  set_rest (map_set (sl_rest r) "nofinish"%string (PNum (CNum n))) r.

Definition unfinished (r : lane_row) : bool :=
  cell_missing (sl_dur r) || bool_decide (sl_dur r = CNum (-1)).

(** The start of the next row, or [fin] after the last. *)
Definition next_start (l : list lane_row) (fin : Z) (i : nat) : Z :=
  match l !! S i with Some r => sl_start r | None => fin end.

Definition complete_cpu (endNS : Z) (l : list lane_row) : list lane_row :=
  imap (fun i r =>
    if unfinished r then set_dur (CNum (next_start l endNS i - sl_start r)) (mark_finish 1 r)
    else mark_finish 0 r) l.

Definition complete_total (total : Z) (l : list lane_row) : list lane_row :=
  (fun r => if unfinished r then set_dur (CNum (total - sl_start r)) r else r) <$> l.

Definition complete_next (total : Z) (l : list lane_row) : list lane_row :=
  imap (fun i r => set_dur (CNum (next_start l total i - sl_start r)) r) l.

Definition complete_func (total : Z) (l : list lane_row) : list lane_row :=
  (fun r => if unfinished r then set_dur (CNum (total - sl_start r)) (mark_finish 1 r) else mark_finish 0 r) <$> l.

(** ** The columns and fields of each lane *)

Definition start_cell (r : lane_row) : cell := CNum (sl_start r).
Definition rest_cell (k : string) (r : lane_row) : cell := pval_num (prop (sl_rest r) k).

Definition is_one (v : pval) : pval := PBool (bool_decide (v = PNum (CNum 1))).

(** [it.pid || it.processId] *)
Definition pid_or_processId (r : lane_row) : cell :=
  match rest_cell "pid" r with
  | CNum n => if n =? 0 then rest_cell "processId" r else CNum n
  | _ => rest_cell "processId" r
  end.

Definition cpu_columns : list column :=
  [("startTime", F64, start_cell); ("dur", F64, sl_dur); ("tid", U16, rest_cell "tid"); ("id", U16, rest_cell "id");
   ("processId", I16, pid_or_processId); ("cpu", U8, rest_cell "cpu"); ("argSetID", I32, rest_cell "argSetId");
   ("nofinish", U8, rest_cell "nofinish")]%string.

Definition cpu_fields : list field :=
  [Field "processId" "processId" U16 id; Field "cpu" "cpu" U8 id; Field "tid" "tid" U16 id; Field "id" "id" U16 id;
   Field "dur" "dur" F64 id; Field "startTime" "startTime" F64 id; Field "argSetID" "argSetID" I32 id;
   Field "nofinish" "nofinish" U8 is_one]%string.

Definition search_fields : list field :=
  [Field "processId" "processId" U16 id; Field "cpu" "cpu" U8 id; Field "tid" "tid" U16 id; Field "id" "id" U16 id;
   Field "dur" "dur" F64 id; Field "startTime" "startTime" F64 id;
   Field "type" "" U8 (fun _ => PText (js "cpu")); Field "argSetID" "" U8 (fun _ => PNum (CNum (-1)));
   Field "nofinish" "nofinish" U8 is_one]%string.

Definition cpuFreq_columns : list column :=
  [("startNS", F64, start_cell); ("dur", F64, sl_dur); ("value", I32, sl_value); ("cpu", U8, rest_cell "cpu")]%string.

Definition cpuFreq_fields : list field :=
  [Field "cpu" "cpu" U8 id; Field "value" "value" U32 id; Field "dur" "dur" F64 id; Field "startNS" "startNS" F64 id]%string.

Definition cpuFreqLimit_columns : list column :=
  [("startNs", F64, start_cell); ("dur", F64, sl_dur); ("value", I32, sl_value); ("max", I32, rest_cell "max");
   ("min", I32, rest_cell "min")]%string.

Definition cpuFreqLimit_fields : list field :=
  [Field "value" "value" U32 id; Field "max" "max" U32 id; Field "min" "min" U32 id; Field "dur" "dur" F64 id;
   Field "startNs" "startNs" F64 id]%string.

(** The heights of the states are computed but not posted. *)
Definition cpuState_columns : list column :=
  [("startTs", F64, start_cell); ("dur", F64, sl_dur); ("value", I32, sl_value)]%string.

Definition cpuState_fields : list field :=
  [Field "value" "value" U32 id; Field "dur" "dur" F64 id; Field "height" "value" U8 id;
   Field "startTs" "startTs" F64 id]%string.

Definition clock_columns : list column :=
  [("dur", F64, sl_dur); ("startNS", F64, start_cell); ("value", I32, sl_value); ("filterId", I32, rest_cell "filterId")]%string.

Definition clock_fields : list field :=
  [Field "filterId" "filterId" I32 id; Field "value" "value" I32 id; Field "startNS" "startNS" F64 id;
   Field "dur" "dur" F64 id]%string.

Definition irq_columns : list column :=
  [("startNS", F64, start_cell); ("dur", F64, sl_dur); ("depth", U32, rest_cell "depth");
   ("argSetId", I32, rest_cell "argSetId"); ("id", U32, rest_cell "id")]%string.

Definition irq_fields : list field :=
  [Field "argSetId" "argSetId" I32 id; Field "depth" "depth" U32 id; Field "dur" "dur" F64 id; Field "id" "id" U32 id;
   Field "startNS" "startNS" F64 id]%string.

Definition threadStateArray : list jsstring :=
  js <$> ["D-NIO"; "DK-NIO"; "D-IO"; "DK-IO"; "D"; "DK"; "R"; "R+"; "R-B"; "I"; "Running"; "S"]%string.

(** [threadStateArray.findIndex((it) => it === state)] *)
Fixpoint find_index (l : list jsstring) (s : jsstring) (i : Z) : Z :=
  match l with
  | [] => -1
  | x :: l' => if decide (x = s) then i else find_index l' s (i + 1)
  end.

Definition threadStateToNumber (v : pval) : Z :=
  match v with PText s => find_index threadStateArray s 0 | _ => -1 end.

Definition threadStateToString (v : pval) : pval :=
  match v with
  | PNum (CNum n) =>
      if n =? -1 then PText [] else
      match zlookup n threadStateArray with Some s => PText s | None => PNum CUndefined end
  | _ => PNum CUndefined
  end.

Definition thread_columns : list column :=
  [("id", I32, rest_cell "id"); ("tid", I32, rest_cell "tid");
   ("state", I32, fun r => CNum (threadStateToNumber (prop (sl_rest r) "state")));
   ("startTime", F64, start_cell); ("dur", F64, sl_dur); ("cpu", I8, rest_cell "cpu"); ("pid", I32, rest_cell "pid");
   ("argSetID", I32, rest_cell "argSetId")]%string.

Definition thread_fields : list field :=
  [Field "startTime" "startTime" F64 id; Field "dur" "dur" F64 id; Field "cpu" "cpu" I8 id; Field "id" "id" I32 id;
   Field "tid" "tid" I32 id; Field "state" "state" I32 threadStateToString; Field "pid" "pid" I32 id;
   Field "argSetID" "argSetID" I32 id]%string.

Definition layer_cell (r : lane_row) : cell := CNum (sl_layer r).

Definition func_columns : list column :=
  [("startTs", F64, start_cell); ("dur", F64, sl_dur); ("argsetid", I32, rest_cell "argsetid");
   ("depth", I32, layer_cell); ("id", I32, rest_cell "id"); ("nofinish", U8, rest_cell "nofinish")]%string.

Definition func_fields : list field :=
  [Field "startTs" "startTs" F64 id; Field "dur" "dur" F64 id; Field "argsetid" "argsetid" I32 id;
   Field "depth" "depth" I32 id; Field "id" "id" I32 id; Field "nofinish" "nofinish" U8 is_one]%string.

Definition process_columns : list column :=
  [("startTime", F64, start_cell); ("dur", F64, sl_dur); ("cpu", U8, layer_cell)]%string.

Definition process_fields : list field :=
  [Field "cpu" "cpu" U8 id; Field "dur" "dur" F64 id; Field "startTime" "startTime" F64 id]%string.

Definition hang_columns : list column :=
  [("id", I32, rest_cell "id"); ("startNS", F64, start_cell); ("dur", F64, sl_dur); ("tid", I32, rest_cell "tid");
   ("pid", I32, rest_cell "pid")]%string.

Definition hang_fields : list field :=
  [Field "id" "id" I32 id; Field "startNS" "startNS" F64 id; Field "dur" "dur" F64 id; Field "tid" "tid" I32 id;
   Field "pid" "pid" I32 id]%string.

Definition dmaFence_columns : list column :=
  [("startTime", F64, start_cell); ("dur", F64, sl_dur); ("id", U16, rest_cell "id")]%string.

Definition dmaFence_fields : list field :=
  [Field "id" "id" U16 id; Field "dur" "dur" F64 id; Field "startTime" "startTime" F64 id]%string.

(** ** The receivers *)

Record window := Window { w_startNS : Z; w_endNS : Z; w_width : Z }.

(** The objects at some positions. *)
Definition pick (l : list lane_row) (ps : list nat) : list lane_row := omap (fun i => l !! i) ps.

(** The rows within a span that the user selected. *)
Definition selected (fromNS toNS : Z) (l : list lane_row) : list lane_row :=
  filter (fun r => Is_true (visible fromNS toNS r)) l.

Definition value_key : option (lane_row -> cell) := Some sl_value.

Section Receivers.
Context `{Doubles} (db : database).

(** [if (!map.has(k)) { map.set(k, fresh) }] and [map.get(k) || []] *)
Definition kept {K} `{EqDecision K} (m : list (K * list lane_row)) (k : K) (fresh : list lane_row) : list lane_row :=
  default fresh (map_get m k).

(** A lane that is thinned by [filterDataByGroup] with its default arguments: the map
    after the request, and the rows to post. *)
Definition group_lane {K} `{EqDecision K} (m : list (K * list lane_row)) (k : K) (fresh : list lane_row) (w : window)
    (valueKey : option (lane_row -> cell)) (isDmaFence : bool) : list (K * list lane_row) * list lane_row :=
  let '(list, res) := filterDataByGroup (kept m k fresh) (w_startNS w) (w_endNS w) (w_width w) valueKey None true isDmaFence in
  (map_set m k list, pick list res).

Definition cpuDataReceiver (m : memory) (cpu : Z) (w : window) : memory * message :=
  let '(lanes, res) := group_lane (cpuList m) cpu (complete_cpu (w_endNS w) (db_cpu db cpu)) w None false in
  (set_cpuList lanes m, post cpu_columns res false).

Definition searchDataHandler (m : memory) (pidArr tidArr : list Z) : memory * message :=
  let wanted r :=
    match pid_or_processId r, rest_cell "tid" r with
    | CNum p, CNum t => bool_decide (p ∈ pidArr) || bool_decide (t ∈ tidArr)
    | CNum p, _ => bool_decide (p ∈ pidArr)
    | _, CNum t => bool_decide (t ∈ tidArr)
    | _, _ => false
    end in
  (m, post cpu_columns
        (sort_by sl_start (concat ((fun '(_, l) => filter (fun r => Is_true (wanted r)) l) <$> cpuList m))) false).

Definition cpuFreqDataReceiver (total : Z) (m : memory) (cpu : Z) (w : window) : memory * message :=
  let '(lanes, res) := group_lane (cpuFreqList m) cpu (complete_total total (db_cpuFreq db cpu)) w value_key false in
  (set_cpuFreqList lanes m, post cpuFreq_columns res false).

Definition cpuFreqLimitReceiver (total : Z) (m : memory) (cpu : Z) (w : window) : memory * message :=
  let '(lanes, res) := group_lane (cpuFreqLimitList m) cpu (complete_next total (db_cpuFreqLimit db cpu)) w value_key false in
  (set_cpuFreqLimitList lanes m, post cpuFreqLimit_columns res false).

Definition cpuStateReceiver (total : Z) (m : memory) (filterId : Z) (w : window) : memory * message :=
  let '(lanes, res) := group_lane (cpuStateList m) filterId (complete_total total (db_cpuState db filterId)) w value_key false in
  (set_cpuStateList lanes m, post cpuState_columns res false).

(** The selection of the user ([queryAll]) is not thinned. *)
Definition clockDataReceiver (totalNS : Z) (m : memory) (sqlType clockName : jsstring) (w : window)
    (queryAll : option (Z * Z)) : memory * message :=
  let key := sqlType ++ clockName in
  let fresh := complete_next totalNS (db_clock db sqlType clockName) in
  match queryAll with
  | Some (fromNS, toNS) =>
      let list := kept (clockList m) key fresh in
      (set_clockList (map_set (clockList m) key list) m, post clock_columns (selected fromNS toNS list) false)
  | None =>
      let '(lanes, res) := group_lane (clockList m) key fresh w value_key false in
      (set_clockList lanes m, post clock_columns res false)
  end.

Definition irqDataReceiver (m : memory) (cpu : Z) (name : jsstring) (w : window) : memory * message :=
  let '(lanes, res) := group_lane (lrqList m) (js_toString 10 cpu ++ name) (db_irq db cpu name) w None false in
  (set_lrqList lanes m, post irq_columns res false).

Definition dmaFenceReceiver (m : memory) (dmaFenceName : jsstring) (w : window) : memory * message :=
  let '(lanes, res) := group_lane (dmaFenceList m) dmaFenceName (db_dmaFence db dmaFenceName) w None true in
  (set_dmaFenceList lanes m, post dmaFence_columns res false).

Definition is_running (r : lane_row) : bool := bool_decide (prop (sl_rest r) "state" = PText (js "Running")).

Definition thread_key (pid tid : Z) : jsstring := js_toString 10 pid ++ js "-" ++ js_toString 10 tid.

Definition threadDataReceiver (m : memory) (pid tid : Z) (w : window) : memory * message :=
  let key := thread_key pid tid in
  let array := kept (threadStateList m) key (db_thread db pid tid) in
  let '(list, res) := filterDataByGroup array (w_startNS w) (w_endNS w) (w_width w) None (Some is_running) false false in
  (set_threadStateList (map_set (threadStateList m) key list) m,
   post thread_columns (pick list res) (bool_decide (array = []))).

(** The text of the template literal that joins thread and process. *)
Definition func_key (tid ipid : Z) : jsstring := js_toString 10 tid ++ js_toString 10 ipid.

(** When the lane is folded only the objects of depth 0 are filtered; they are the
    objects of the kept list. *)
Definition fold_positions (expand : bool) (l : list lane_row) : list nat :=
  filter (fun i => Is_true (expand || read (fun r => sl_layer r =? 0) false l i)) (seq 0 (length l)).

(** Objects of a part of the list written back into it. *)
Definition write_back (l : list lane_row) (ps : list nat) (part : list lane_row) : list lane_row :=
  foldl (fun l '(i, r) => <[i := r]> l) l (zip ps part).

Definition funcDataReceiver (total : Z) (m : memory) (tid ipid : Z) (expand : bool) (w : window) : memory * message :=
  let key := func_key tid ipid in
  let list := kept (threadCallStackList m) key (complete_func total (db_func db tid ipid)) in
  let ps := fold_positions expand list in
  let array := pick list ps in
  let '(array', res) := filterDataByGroupLayer array (w_startNS w) (w_endNS w) (w_width w) in
  (set_threadCallStackList (map_set (threadCallStackList m) key (write_back list ps array')) m,
   post func_columns (pick array' res) (bool_decide (array = []))).

Definition processDataReceiver (m : memory) (pid : Z) (w : window) : memory * message :=
  let '(list, res) := filterDataByLayer (kept (processList m) pid (db_process db pid))
                        (w_startNS w) (w_endNS w) (w_width w) in
  (set_processList (map_set (processList m) pid list) m, post process_columns (pick list res) false).

Definition hangDataReceiver (m : memory) (pid minDur : Z) (queryAll : option (Z * Z)) : memory * message :=
  let list := kept (hangList m) pid (db_hang db pid minDur) in
  (set_hangList (map_set (hangList m) pid list) m,
   post hang_columns (match queryAll with Some (fromNS, toNS) => selected fromNS toNS list | None => list end) false).

Definition clearMemoryCache (m : memory) : memory * message :=
  (Build_memory [] [] [] [] [] [] [] [] [] (hangList m) (dmaFenceList m), Message [] 0 false).

(** ** The dispatcher *)

Inductive request :=
  | ClearMemoryCache
  | CpuData (cpu : Z) (w : window)
  | SearchCpuData (pidArr tidArr : list Z)
  | CpuFreqData (total cpu : Z) (w : window)
  | CpuFreqLimitData (total cpu : Z) (w : window)
  | CpuStateData (total filterId : Z) (w : window)
  | ClockData (totalNS : Z) (sqlType clockName : jsstring) (w : window) (queryAll : option (Z * Z))
  | IrqData (cpu : Z) (name : jsstring) (w : window)
  | ThreadData (pid tid : Z) (w : window)
  | FuncData (total tid ipid : Z) (expand : bool) (w : window)
  | ProcessData (pid : Z) (w : window)
  | HangData (pid minDur : Z) (queryAll : option (Z * Z))
  | DmaFenceData (dmaFenceName : jsstring) (w : window).

Definition execProtoForWorker (m : memory) (r : request) : memory * message :=
  match r with
  | ClearMemoryCache => clearMemoryCache m
  | CpuData cpu w => cpuDataReceiver m cpu w
  | SearchCpuData pidArr tidArr => searchDataHandler m pidArr tidArr
  | CpuFreqData total cpu w => cpuFreqDataReceiver total m cpu w
  | CpuFreqLimitData total cpu w => cpuFreqLimitReceiver total m cpu w
  | CpuStateData total filterId w => cpuStateReceiver total m filterId w
  | ClockData totalNS sqlType clockName w queryAll => clockDataReceiver totalNS m sqlType clockName w queryAll
  | IrqData cpu name w => irqDataReceiver m cpu name w
  | ThreadData pid tid w => threadDataReceiver m pid tid w
  | FuncData total tid ipid expand w => funcDataReceiver total m tid ipid expand w
  | ProcessData pid w => processDataReceiver m pid w
  | HangData pid minDur queryAll => hangDataReceiver m pid minDur queryAll
  | DmaFenceData name w => dmaFenceReceiver m name w
  end.
End Receivers.

(** A sequence of requests, each with the database that is open at the time. *)
Fixpoint serve `{Doubles} (m : memory) (rs : list (database * request)) : memory :=
  match rs with
  | [] => m
  | (db, r) :: rs' => serve (execProtoForWorker db m r).1 rs'
  end.

(** ** What the page builds *)

(** The object of the page for a row of a processor lane: the identifiers arrive
    modulo the width of the arrays. *)
Definition cpu_object (r : lane_row) : object :=
  let num k := default 0 (cell_num (rest_cell k r)) in
  [("processId", PNum (CNum (wrap_int 2 false (default 0 (cell_num (pid_or_processId r))))));
   ("cpu", PNum (CNum (wrap_int 1 false (num "cpu"))));
   ("tid", PNum (CNum (wrap_int 2 false (num "tid"))));
   ("id", PNum (CNum (wrap_int 2 false (num "id"))));
   ("dur", match cell_num (sl_dur r) with Some d => PNum (CNum d) | None => PNaN end);
   ("startTime", PNum (CNum (sl_start r)));
   ("argSetID", PNum (CNum (wrap_int 4 true (num "argSetId"))));
   ("nofinish", PBool (bool_decide (wrap_int 1 false (num "nofinish") = 1)))]%string.

Lemma cpu_page_object r : page_object cpu_columns cpu_fields r = cpu_object r.
Proof.
  unfold page_object, cpu_fields, cpu_object, is_one. cbn [fmap list_fmap].
  do 7 (apply f_equal2; [reflexivity|]). apply f_equal2; [|reflexivity].
  set (n := default 0 (cell_num (rest_cell "nofinish" r))).
  transitivity ("nofinish"%string, PBool (bool_decide (PNum (CNum (wrap_int 1 false n)) = PNum (CNum 1)))); [reflexivity|].
  do 2 f_equal. apply bool_decide_ext. split; [congruence|by intros ->].
Qed.

(** C23: What the page shows of a processor lane.  For every request the page builds
    one object per slice that the filter chose, in the same order, with the times
    unchanged; thread, process and row identifiers arrive modulo 2^16, the processor
    modulo 2^8 and the argument set as a 32-bit integer. *)
Theorem cpu_slices_arrive `{Doubles} db m cpu w :
  unpack cpu_fields (cpuDataReceiver db m cpu w).2 =
  cpu_object <$> (group_lane (cpuList m) cpu (complete_cpu (w_endNS w) (db_cpu db cpu)) w None false).2.
Proof.
  unfold cpuDataReceiver. destruct (group_lane _ _ _ _ _ _) as [lanes res]. cbn [snd].
  rewrite unpack_post by reflexivity. apply list_fmap_ext. intros i r _. apply cpu_page_object.
Qed.

(** The other lanes whose fields read the buffers with the width they were written. *)
Lemma lanes_match :
  Forall (fun '(cols, fields) => tables_match cols fields = true)
    [(cpu_columns, search_fields); (cpuFreq_columns, cpuFreq_fields); (cpuFreqLimit_columns, cpuFreqLimit_fields);
     (clock_columns, clock_fields); (irq_columns, irq_fields); (thread_columns, thread_fields);
     (func_columns, func_fields); (process_columns, process_fields); (hang_columns, hang_fields);
     (dmaFence_columns, dmaFence_fields)].
Proof. repeat constructor. Qed.

Lemma threadState_roundtrip s : s ∈ threadStateArray ->
  threadStateToString (PNum (CNum (wrap_int 4 true (threadStateToNumber (PText s))))) = PText s.
Proof.
  intros Hs. unfold threadStateArray in Hs. cbn [fmap list_fmap] in Hs.
  repeat (apply elem_of_cons in Hs as [->|Hs]; [vm_compute; reflexivity|]). set_solver.
Qed.

(** ** Lanes that are thinned in one pass *)

Section Kept.
Context `{Doubles}.

(** Rows that differ in the stored pixel only. *)
Lemma group_step_but_px (startNS endNS width : Z) dma (l1 l2 : list lane_row) flag arr i : but_px l1 = but_px l2 ->
  let r1 := group_step startNS endNS width dma (l1, flag, arr) i in
  let r2 := group_step startNS endNS width dma (l2, flag, arr) i in
  but_px r1.1.1 = but_px l1 /\ but_px r2.1.1 = but_px l2 /\ r1.1.2 = r2.1.2 /\ r1.2 = r2.2.
Proof.
  intros E. unfold group_step. cbv zeta. rewrite (read_but_px (visible startNS endNS) false l2 l1) by done.
  destruct (read (visible startNS endNS) false l2 i); [|done].
  rewrite (read_but_px (group_pixel startNS endNS width dma) 0%Q l2 l1) by done.
  set (px := read (group_pixel startNS endNS width dma) 0%Q l2 i).
  assert (Ed : forall j, read sl_dur CUndefined (alter (set_px px) i l1) j = read sl_dur CUndefined (alter (set_px px) i l2) j).
  { intros j. apply read_but_px; [done|]. by rewrite !but_px_alter. }
  destruct (last arr) as [j|]; rewrite ?Ed; destruct (Qeq_bool flag px); cbn [fst snd]; rewrite !but_px_alter; done.
Qed.

Lemma one_pass_but_px (startNS endNS width : Z) dma (l1 l2 : list lane_row) : but_px l1 = but_px l2 ->
  but_px (filterDataByGroupWithoutValue l1 startNS endNS width dma).1 = but_px l2 /\
  (filterDataByGroupWithoutValue l1 startNS endNS width dma).2 = (filterDataByGroupWithoutValue l2 startNS endNS width dma).2.
Proof.
  intros E. unfold filterDataByGroupWithoutValue.
  assert (El : length l1 = length l2) by (apply (f_equal length) in E; unfold but_px in E; by rewrite !length_fmap in E).
  rewrite El. generalize (seq 0 (length l2)). intros ps. generalize flagInit. generalize (@nil nat).
  revert l1 l2 E El. induction ps as [|i ps IH]; intros l1 l2 E El arr flag; [done|]. cbn [foldl].
  pose proof (group_step_but_px startNS endNS width dma l1 l2 flag arr i E) as (E1 & E2 & Ef & Ea).
  destruct (group_step startNS endNS width dma (l1, flag, arr) i) as [[l1' f1] a1].
  destruct (group_step startNS endNS width dma (l2, flag, arr) i) as [[l2' f2] a2]. cbn [fst snd] in *. subst f2 a2.
  assert (E' : but_px l1' = but_px l2') by congruence. rewrite <- E2. apply IH; [done|].
  apply (f_equal length) in E'. unfold but_px in E'. by rewrite !length_fmap in E'.
Qed.

Lemma pick_but_px l1 l2 ps : but_px l1 = but_px l2 -> but_px (pick l1 ps) = but_px (pick l2 ps).
Proof.
  intros E. unfold pick, but_px in *. rewrite !fmap_omap. apply omap_ext. intros i _.
  by rewrite <- !list_lookup_fmap, E.
Qed.

Lemma post_but_px cols r1 r2 isEmpty :
  Forall (fun '(_, _, get) => forall q (r : lane_row), get (set_px q r) = get r) cols ->
  but_px r1 = but_px r2 -> post cols r1 isEmpty = post cols r2 isEmpty.
Proof.
  intros HF E. assert (Hg : forall get : lane_row -> cell, (forall q r, get (set_px q r) = get r) -> get <$> r1 = get <$> r2).
  { intros get Hget. apply (f_equal (fmap get)) in E. unfold but_px in E. rewrite <- !list_fmap_compose in E.
    rewrite (list_fmap_ext get (get ∘ set_px 0%Q)), E by (intros; symmetry; apply Hget).
    apply list_fmap_ext. intros; apply Hget. }
  unfold post. f_equal.
  - apply list_fmap_ext. intros i [[name t] get] Hi. rewrite Forall_forall in HF.
    specialize (HF _ (list_elem_of_lookup_2 _ _ _ Hi)). cbn in HF. by rewrite (Hg get HF).
  - apply (f_equal length) in E. unfold but_px in E. by rewrite !length_fmap in E.
Qed.

(** The answer that the rows of a lane and a window determine. *)
Definition lane_answer (cols : list column) (dma : bool) (rows : list lane_row) (w : window) : message :=
  post cols (pick rows (filterDataByGroupWithoutValue rows (w_startNS w) (w_endNS w) (w_width w) dma).2) false.

(** The lane [k] of a map holds [rows], up to stored pixels. *)
Definition holds {K} `{EqDecision K} (m : list (K * list lane_row)) (k : K) (rows : list lane_row) : Prop :=
  exists l, map_get m k = Some l /\ but_px l = but_px rows.

Lemma group_lane_holds {K} `{EqDecision K} (m : list (K * list lane_row)) k fresh w valueKey dma :
  let '(m', res) := group_lane m k fresh w valueKey dma in
  holds m' k (kept m k fresh) /\
  (forall k' rows, k' <> k -> holds m k' rows -> holds m' k' rows) /\
  forall cols, Forall (fun '(_, _, get) => forall q (r : lane_row), get (set_px q r) = get r) cols ->
    post cols res false = lane_answer cols dma (kept m k fresh) w.
Proof.
  unfold group_lane. change (filterDataByGroup ?l ?a ?b ?c valueKey None true dma) with (filterDataByGroupWithoutValue l a b c dma).
  set (rows := kept m k fresh).
  pose proof (one_pass_but_px (w_startNS w) (w_endNS w) (w_width w) dma rows rows eq_refl) as [Eb _].
  destruct (filterDataByGroupWithoutValue rows _ _ _ dma) as [l res] eqn:E. cbn [fst] in Eb. split_and!.
  - exists l. rewrite map_get_set, decide_True by done. done.
  - intros k' rows' Hne (l' & Hl' & El'). exists l'. rewrite map_get_set, decide_False by done. done.
  - intros cols Hc. unfold lane_answer. rewrite E. cbn [snd]. apply post_but_px; [done|]. by apply pick_but_px.
Qed.

Lemma lane_answer_but_px cols dma r1 r2 w :
  Forall (fun '(_, _, get) => forall q (r : lane_row), get (set_px q r) = get r) cols ->
  but_px r1 = but_px r2 -> lane_answer cols dma r1 w = lane_answer cols dma r2 w.
Proof.
  intros Hc E. unfold lane_answer. rewrite (proj2 (one_pass_but_px _ _ _ _ _ _ E)).
  apply post_but_px; [done|]. by apply pick_but_px.
Qed.

Lemma cpu_columns_px : Forall (fun '(_, _, get) => forall q (r : lane_row), get (set_px q r) = get r) cpu_columns.
Proof. repeat constructor. Qed.

Lemma exec_other_lanes db m r :
  match r with CpuData _ _ | ClearMemoryCache => False | _ => True end ->
  cpuList (execProtoForWorker db m r).1 = cpuList m.
Proof.
  destruct r; try done; intros _; cbn [execProtoForWorker];
    unfold cpuFreqDataReceiver, cpuFreqLimitReceiver, cpuStateReceiver, clockDataReceiver, irqDataReceiver,
      threadDataReceiver, funcDataReceiver, processDataReceiver, dmaFenceReceiver; by repeat case_match.
Qed.

(** Requests keep the processor lanes, except for the one that clears them. *)
Lemma exec_holds_cpu db m r cpu rows : r <> ClearMemoryCache -> holds (cpuList m) cpu rows ->
  holds (cpuList (execProtoForWorker db m r).1) cpu rows.
Proof.
  intros Hr Hm. destruct r; [done| |by rewrite exec_other_lanes..]. cbn [execProtoForWorker].
  unfold cpuDataReceiver.
  pose proof (group_lane_holds (cpuList m) cpu0 (complete_cpu (w_endNS w) (db_cpu db cpu0)) w None false) as HG.
  destruct (group_lane _ _ _ _ _ _) as [lanes res]. destruct HG as (Hk & Hother & _). cbn.
  destruct (decide (cpu0 = cpu)) as [->|Hne]; [|apply Hother; [congruence|done]].
  destruct Hm as (l & Hl & El), Hk as (l' & Hl' & El'). exists l'. split; [done|].
  rewrite El'. unfold kept. by rewrite Hl.
Qed.

Lemma serve_holds_cpu rs : forall m cpu rows, Forall (fun '(_, r) => r <> ClearMemoryCache) rs ->
  holds (cpuList m) cpu rows -> holds (cpuList (serve m rs)) cpu rows.
Proof.
  induction rs as [|[db r] rs IH]; intros m cpu rows HF Hm; [done|]. apply Forall_cons in HF as [Hr HF].
  cbn [serve]. by apply IH, exec_holds_cpu.
Qed.

(** C21: A processor lane is queried once.  After the first request, whatever requests
    of whatever lanes follow and whatever the database would answer, every further
    request of the lane is answered from the rows of the first query, completed with
    the end of the first window: the answer is a function of these rows and the new
    window, and in particular the filters' changes of the kept rows are not visible.
    (A slice that had not ended thus keeps for ever the length it had in the first
    window.) *)
Theorem cpu_lane_kept db m cpu w0 rs db' w
    (Hnew : map_get (cpuList m) cpu = None) (Hrs : Forall (fun '(_, r) => r <> ClearMemoryCache) rs) :
  (execProtoForWorker db' (serve (execProtoForWorker db m (CpuData cpu w0)).1 rs) (CpuData cpu w)).2 =
  lane_answer cpu_columns false (complete_cpu (w_endNS w0) (db_cpu db cpu)) w.
Proof.
  set (rows := complete_cpu (w_endNS w0) (db_cpu db cpu)).
  assert (H1 : holds (cpuList (execProtoForWorker db m (CpuData cpu w0)).1) cpu rows).
  { cbn [execProtoForWorker]. unfold cpuDataReceiver. pose proof (group_lane_holds (cpuList m) cpu rows w0 None false) as HG.
    fold rows. destruct (group_lane _ _ _ _ _ _) as [lanes res]. destruct HG as (Hk & _ & _).
    unfold kept in Hk. by rewrite Hnew in Hk. }
  apply (serve_holds_cpu rs) in H1; [|done]. destruct H1 as (l & Hl & El).
  set (m1 := serve _ rs) in *. cbn [execProtoForWorker]. unfold cpuDataReceiver.
  pose proof (group_lane_holds (cpuList m1) cpu (complete_cpu (w_endNS w) (db_cpu db' cpu)) w None false) as HG.
  destruct (group_lane _ _ _ _ _ _) as [lanes res]. destruct HG as (_ & _ & Ha). cbn [snd].
  rewrite (Ha _ cpu_columns_px). apply lane_answer_but_px; [apply cpu_columns_px|]. unfold kept. by rewrite Hl.
Qed.
End Kept.

(** ** A processor lane whose last slice has not ended *)

Definition lx_row (start dur tid : Z) : lane_row :=
  row start (CNum dur) 0 CNull
    [("processId", PNum (CNum 7)); ("cpu", PNum (CNum 0)); ("tid", PNum (CNum tid)); ("id", PNum (CNum 3));
     ("argSetId", PNum (CNum (-1)))]%string.

Definition lx_db : database :=
  {| db_cpu := fun _ => [lx_row 10 20 100; lx_row 40 (-1) 65541];
     db_cpuFreq := fun _ => []; db_cpuFreqLimit := fun _ => []; db_cpuState := fun _ => [];
     db_clock := fun _ _ => []; db_irq := fun _ _ => []; db_thread := fun _ _ => [];
     db_func := fun tid ipid => [row 5 (CNum 10) 0 CNull [("id"%string, PNum (CNum (1000 * tid + ipid)))]];
     db_process := fun _ => []; db_hang := fun pid _ => [lx_row 1 2 pid];
     db_dmaFence := fun _ => [lx_row 1 2 9] |}.

(** First the window from 0 to 100, then another lane, then the window from 150 to 200. *)
Lemma cpu_lane_kept_witness :
  (@execProtoForWorker exact_doubles lx_db
    (@serve exact_doubles (@execProtoForWorker exact_doubles lx_db no_memory (CpuData 0 (Window 0 100 10))).1
      [(lx_db, CpuData 1 (Window 0 100 10)); (lx_db, HangData 4 1 None)]) (CpuData 0 (Window 150 200 10))).2 =
  @lane_answer exact_doubles cpu_columns false (complete_cpu 100 (db_cpu lx_db 0)) (Window 150 200 10).
Proof.
  apply (@cpu_lane_kept exact_doubles lx_db no_memory 0 (Window 0 100 10)).
  - reflexivity.
  - repeat constructor; discriminate.
Defined.

(** The slice that is still running is shown by a worker that saw the later window
    first, and not by one that saw the earlier window first. *)
Example running_slice_lost :
  msg_len (@lane_answer exact_doubles cpu_columns false (complete_cpu 200 (db_cpu lx_db 0)) (Window 150 200 10)) = 1%nat /\
  msg_len (@lane_answer exact_doubles cpu_columns false (complete_cpu 100 (db_cpu lx_db 0)) (Window 150 200 10)) = 0%nat.
Proof. vm_compute. done. Qed.

(** Thread 65541 is shown as thread 5. *)
Example thread_id_cut :
  (fun o => prop o "tid") <$>
    unpack cpu_fields (@cpuDataReceiver exact_doubles lx_db no_memory 0 (Window 0 100 10)).2 =
  [PNum (CNum 100); PNum (CNum 5)].
Proof. vm_compute. reflexivity. Qed.

(** The page takes the heights of the processor states from the bytes of the values:
    of three states 1, 2 and 3 it gets the four bytes of the first. *)
Example state_heights :
  (fun o => prop o "height") <$>
    unpack cpuState_fields (post cpuState_columns ((fun v => row v (CNum 1) 0 (CNum v) []) <$> [1; 2; 3]) false) =
  PNum <$> [CNum 1; CNum 0; CNum 0].
Proof. vm_compute. reflexivity. Qed.

(** ** Clearing the memory *)

Section Clearing.
Context `{Doubles} (db : database).

(** Opening another trace.  After the memory has been cleared every request is
    answered as by a worker that has just started, except for the requests of the hang
    and the fence lanes, whose maps are not cleared: they are answered as if nothing
    had been cleared, so from the rows of the earlier trace when it had the lane. *)
Theorem clearing_answers m r :
  (execProtoForWorker db (execProtoForWorker db m ClearMemoryCache).1 r).2 =
  (execProtoForWorker db (match r with HangData _ _ _ | DmaFenceData _ _ => m | _ => no_memory end) r).2.
Proof.
  destruct r; cbn [execProtoForWorker clearMemoryCache fst]; try reflexivity;
    unfold cpuDataReceiver, cpuFreqDataReceiver, cpuFreqLimitReceiver, cpuStateReceiver, clockDataReceiver, irqDataReceiver,
      threadDataReceiver, funcDataReceiver, processDataReceiver, dmaFenceReceiver, searchDataHandler; cbn; by repeat case_match.
Qed.

(** A lane of hangs that was asked for before the memory was cleared. *)
Lemma hangs_survive db' m pid minDur q :
  (execProtoForWorker db' (execProtoForWorker db' (execProtoForWorker db m (HangData pid minDur q)).1 ClearMemoryCache).1
     (HangData pid minDur None)).2 = post hang_columns (kept (hangList m) pid (db_hang db pid minDur)) false.
Proof. cbn. unfold hangDataReceiver, kept at 1. cbn. rewrite map_get_set, decide_True by done. done. Qed.

(** ** Keys of the call stack lanes *)

(** Two call stack lanes can share a memory entry.  The key of a lane is the
    thread's number followed by the process's, without a separator: when the keys of
    two lanes are equal texts, the lane that is asked for second is answered with the
    slices of the first, whatever the database holds for it. *)
Theorem func_lanes_share m total tid ipid tid' ipid' expand expand' w w' db'
    (Hnew : map_get (threadCallStackList m) (func_key tid ipid) = None)
    (Hkey : func_key tid ipid = func_key tid' ipid') :
  let m1 := (execProtoForWorker db m (FuncData total tid ipid expand w)).1 in
  (execProtoForWorker db' m1 (FuncData total tid' ipid' expand' w')).2 =
  (execProtoForWorker db' m1 (FuncData total tid ipid expand' w')).2.
Proof.
  intros m1. cbn [execProtoForWorker]. unfold funcDataReceiver at 1 2. rewrite <- Hkey.
  assert (Hk : exists l, map_get (threadCallStackList m1) (func_key tid ipid) = Some l).
  { unfold m1. cbn [execProtoForWorker]. unfold funcDataReceiver.
    destruct (filterDataByGroupLayer _ _ _ _) as [a r]. cbn. rewrite map_get_set, decide_True by done. eauto. }
  destruct Hk as [l Hl]. unfold kept. rewrite Hl. done.
Qed.
End Clearing.

Lemma func_lanes_share_witness :
  let m1 := (@execProtoForWorker exact_doubles lx_db no_memory (FuncData 100 12 3 true (Window 0 100 10))).1 in
  (@execProtoForWorker exact_doubles lx_db m1 (FuncData 100 1 23 true (Window 0 100 10))).2 =
  (@execProtoForWorker exact_doubles lx_db m1 (FuncData 100 12 3 true (Window 0 100 10))).2.
Proof.
  apply (@func_lanes_share exact_doubles lx_db no_memory 100 12 3 1 23 true true (Window 0 100 10)).
  - reflexivity.
  - reflexivity.
Defined.

(** The page gets the slice of thread 12 of process 3 for thread 1 of process 23. *)
Example func_lane_mixed :
  (fun o => prop o "id") <$> unpack func_fields
    (@execProtoForWorker exact_doubles lx_db
       (@execProtoForWorker exact_doubles lx_db no_memory (FuncData 100 12 3 true (Window 0 100 10))).1
       (FuncData 100 1 23 true (Window 0 100 10))).2 = [PNum (CNum 12003)].
Proof. vm_compute. reflexivity. Qed.

(** The key of the thread lanes has a separator, so that a lane has its own entry. *)
Lemma thread_key_inj pid tid pid' tid' : 0 <= pid -> 0 <= pid' ->
  thread_key pid tid = thread_key pid' tid' -> pid = pid' /\ tid = tid'.
Proof. apply dash_inj. Qed.

(** The value that a frequency lane asks the filter to keep is not used by the pass
    that it gets: a short peak in a column is not posted. *)
Example peak_frequency_lost :
  (fun o => prop o "value") <$>
    unpack cpuFreq_fields
      (@cpuFreqDataReceiver exact_doubles
        {| db_cpu := db_cpu lx_db;
           db_cpuFreq := fun _ => [row 0 (CNum 50) 0 (CNum 100) []; row 50 (CNum 2) 0 (CNum 900) []; row 52 (CNum 48) 0 (CNum 100) []];
           db_cpuFreqLimit := db_cpuFreqLimit lx_db; db_cpuState := db_cpuState lx_db; db_clock := db_clock lx_db;
           db_irq := db_irq lx_db; db_thread := db_thread lx_db; db_func := db_func lx_db; db_process := db_process lx_db;
           db_hang := db_hang lx_db; db_dmaFence := db_dmaFence lx_db |}
        1000 no_memory 0 (Window 0 1000 10)).2 = [PNum (CNum 100)].
Proof. vm_compute. reflexivity. Qed.
