(* ===== verification/SwimRange.v ===== *)
(** * Placing the visible slices of a lane on the canvas

    The shared part of the drawing workers, [trace/database/ui-worker/
    ProcedureWorkerCommon.ts]: finding the slices that a window can show, by scanning
    from both ends or by bisection; choosing the ones to draw and giving each a
    rectangle; keeping the choice between frames; and the geometry of rectangles.
    As in [SwimFilter] a lane is a list of objects that calls change, arrays of slices
    hold positions, times are whole nanoseconds, and quotients round ([Doubles]). *)

From Stdlib Require Import QArith Qround.
From S2P Require Import Prelude JsRuntime SwimFilter.
Open Scope Z_scope.

(** ** Rectangles *)

Record rect := Rect { r_x : Z; r_y : Z; r_width : Z; r_height : Z }.

Definition intersect (r1 rect : rect) : bool :=
  let minX := if r_x r1 <=? r_x rect then r_x r1 else r_x rect in
  let minY := if r_y r1 <=? r_y rect then r_y r1 else r_y rect in
  let maxX := if r_x rect + r_width rect <=? r_x r1 + r_width r1 then r_x r1 + r_width r1 else r_x rect + r_width rect in
  let maxY := if r_y rect + r_height rect <=? r_y r1 + r_height r1 then r_y r1 + r_height r1 else r_y rect + r_height rect in
  (maxX - minX <=? r_width rect + r_width r1) && (maxY - minY <=? r_height r1 + r_height rect).

Definition contains (r : rect) (x y : Z) : bool :=
  (r_x r <=? x) && (x <=? r_x r + r_width r) && (r_y r <=? y) && (y <=? r_y r + r_height r).

Definition containsWithMargin (rc : rect) (x y t r b l : Z) : bool :=
  (r_x rc - l <=? x) && (x <=? r_x rc + r_width rc + r) && (r_y rc - t <=? y) && (y <=? r_y rc + r_height rc + b).

Definition containsWithPadding (rc : rect) (x y paddingLeftRight paddingTopBottom : Z) : bool :=
  (r_x rc + paddingLeftRight <=? x) && (x <=? r_x rc + r_width rc - paddingLeftRight) &&
  (r_y rc + paddingTopBottom <=? y) && (y <=? r_y rc + r_height rc - paddingTopBottom).

Definition offsetX : Z := 5.

Definition isFrameContainPoint (frame : rect) (x y : Z) (strict offset : bool) : bool :=
  let inX := if offset then (r_x frame - offsetX <=? x) && (x <=? r_x frame + r_width frame + offsetX)
             else (r_x frame <=? x) && (x <=? r_x frame + r_width frame) in
  if strict then inX && (r_y frame <=? y) && (y <=? r_y frame + r_height frame) else inX.

(** ** Slices with their rectangles *)

Record node (R : Type) := Node {
  nd_start : Z;
  nd_dur : cell;
  nd_frame : option rect;
  nd_v : option bool;
  nd_rest : R
}.
Arguments Node {R} _ _ _ _ _.
Arguments nd_start {R} _.
Arguments nd_dur {R} _.
Arguments nd_frame {R} _.
Arguments nd_v {R} _.
Arguments nd_rest {R} _.

Definition node_dur {R} (d : cell) (n : node R) : node R := Node (nd_start n) d (nd_frame n) (nd_v n) (nd_rest n).
Definition node_frame {R} (f : option rect) (n : node R) : node R := Node (nd_start n) (nd_dur n) f (nd_v n) (nd_rest n).
Definition node_v {R} (v : bool) (n : node R) : node R := Node (nd_start n) (nd_dur n) (nd_frame n) (Some v) (nd_rest n).

(** [x || 0] *)
Definition or_zero (c : cell) : Z := match c with CNum n => n | _ => 0 end.

Record FilterConfig := {
  startNS : Z;
  endNS : Z;
  frame : rect;
  useCache : bool;
  paddingTop : Z
}.

Section Placing.
Context {R : Type} `{Doubles}.
Implicit Types l : list (node R).

(** ** Finding the slices that the window can show *)

(** [fullData[i][startKey] + fullData[i][durKey] >= startNS], false for NaN. *)
Definition ends_after (c : FilterConfig) (n : node R) : bool :=
  match cell_num (nd_dur n) with Some d => startNS c <=? nd_start n + d | None => false end.
Definition starts_before (c : FilterConfig) (n : node R) : bool := nd_start n <=? endNS c.

Definition node_at {A} (f : node R -> A) (d : A) l (i : nat) : A :=
  match l !! i with Some n => f n | None => d end.

(** The loop of [findRange] with [n] rounds to go: [i] counts up, [j] down. *)
Fixpoint scan_ends (c : FilterConfig) l (rounds : nat) (i j lo hi : nat) (ib jb : bool) : nat * nat :=
  match rounds with
  | O => (lo, hi)
  | S rounds' =>
      let '(hi, jb) := if node_at (starts_before c) false l j && jb then (j, false) else (hi, jb) in
      let '(lo, ib) := if node_at (ends_after c) false l i && ib then (i, false) else (lo, ib) in
      if negb ib && negb jb then (lo, hi) else scan_ends c l rounds' (S i) (pred j) lo hi ib jb
  end.

(** The positions [lo .. hi]. *)
Definition findRange l (c : FilterConfig) : list nat :=
  let '(lo, hi) := scan_ends c l (length l) 0 (length l - 1) 0 0 true true in
  filter (fun i => (lo <= i < S hi)%nat) (seq 0 (length l)).

(** [searchImpl] with a bound on the depth of the recursion. *)
Fixpoint searchImpl (fuel : nat) l (c : FilterConfig) (i j : nat) : option Z :=
  match fuel with
  | O => None
  | S fuel' =>
      if (i =? j)%nat then Some (-1) else
      if (i + 1 =? j)%nat then Some (if node_at nd_start 0 l i <=? endNS c then Z.of_nat i else -1) else
      let middle := ((j - i) / 2 + i)%nat in
      if endNS c <? node_at nd_start 0 l middle then searchImpl fuel' l c i middle else searchImpl fuel' l c middle j
  end.

Definition bsearch l (c : FilterConfig) : option Z := searchImpl (S (length l)) l c 0 (length l).

(** [findIndex]: the first position, or -1. *)
Fixpoint findIndex (p : node R -> bool) l (i : Z) : Z :=
  match l with
  | [] => -1
  | n :: l' => if p n then i else findIndex p l' (i + 1)
  end.

Definition findRangeIdx l (c : FilterConfig) : option (Z * Z) :=
  b ← bsearch l c; Some (findIndex (ends_after c) l 0, b + 1).

(** ** Rectangles of slices *)

Definition pns (c : FilterConfig) : Q := fdiv (inject_Z (endNS c - startNS c)) (inject_Z (r_width (frame c))).

Definition setNodeFrame (c : FilterConfig) (n : node R) : node R :=
  match nd_frame n with
  | None => n
  | Some f =>
      let start := nd_start n in
      let dur := or_zero (nd_dur n) in
      let x := if start <? startNS c then 0 else Qfloor (fdiv (inject_Z (start - startNS c)) (pns c)) in
      let width :=
        if endNS c <? start + dur then r_width (frame c) - x
        else Qceiling (fadd (fdiv (inject_Z (start + dur - startNS c)) (pns c)) (inject_Z (- x))) in
      node_frame (Some (Rect x (r_y f) (if width <? 1 then 1 else width) (r_height f))) n
  end.

(** [if (!it.frame) { it.frame = new Rect(0, 0, 0, 0); it.frame.y = y; it.frame.height = height; }] *)
Definition give_frame (c : FilterConfig) (n : node R) : node R :=
  match nd_frame n with
  | Some _ => n
  | None => node_frame (Some (Rect 0 (r_y (frame c) + paddingTop c) 0 (r_height (frame c) - paddingTop c * 2))) n
  end.

(** ** The choice of the last frame *)

Definition refresh (c : FilterConfig) (n : node R) : node R :=
  if (startNS c <? nd_start n + or_zero (nd_dur n)) && (nd_start n <? endNS c)
  then setNodeFrame c (give_frame c n) else node_frame None n.

(** [None] when the cached choice is not used. *)
Definition fillCacheData l (filterList : list nat) (c : FilterConfig) : option (list (node R)) :=
  if useCache c && negb (bool_decide (filterList = []))
  then Some (foldl (fun l i => alter (refresh c) i l) l filterList) else None.

(** The positions [slice[0] .. slice[1]] of the array, both included. *)
Definition fillCacheDataIdx (filterData : list (node R)) (slice : Z * Z) (c : FilterConfig) : option (list (node R)) :=
  if useCache c && negb (bool_decide (filterData = []))
  then Some (imap (fun i n => if (fst slice <=? Z.of_nat i) && (Z.of_nat i <=? snd slice) then refresh c n else n) filterData)
  else None.

(** ** Choosing the slices to draw *)

(** One round: the [k]-th slice gets a rectangle and a length, and [v] says whether it
    is drawn.  [sum] of the code is zero whenever it is read. *)
Definition setSliceFrame (c : FilterConfig) (slice : list nat) l (k i : nat) : list (node R) :=
  let dur j := or_zero (node_at nd_dur CUndefined l j) in
  let start j := node_at nd_start 0 l j in
  let sum := 0 in
  if Qle_bool (pns c) (inject_Z (dur i)) || (length slice <? 100)%nat
  then alter (fun n => setNodeFrame c (node_v true n)) i l
  else
    match k with
    | O => l
    | S k' =>
        match slice !! k' with
        | None => l
        | Some p =>
            let gap := start i - start p - dur p in
            if negb (Qle_bool (pns c) (inject_Z gap)) && negb (Qle_bool (pns c) (inject_Z sum))
            then alter (node_v false) i l
            else alter (fun n => setNodeFrame c (node_v true n)) i l
        end
    end.

Definition place_step (c : FilterConfig) (slice : list nat) l (k : nat) : list (node R) :=
  match slice !! k with
  | None => l
  | Some i =>
      let l := alter (give_frame c) i l in
      let l :=
        if cell_missing (node_at nd_dur CUndefined l i) then
          let fin := match slice !! S k with Some j => node_at nd_start 0 l j | None => endNS c end in
          alter (node_dur (CNum (fin - node_at nd_start 0 l i))) i l
        else l in
      setSliceFrame c slice l k i
  end.

(** The lane's objects and the array of chosen slices after the call. *)
Definition dataFilterHandler l (filterData : list nat) (c : FilterConfig) : list (node R) * list nat :=
  match fillCacheData l filterData c with
  | Some l' => (l', filterData)
  | None =>
      if bool_decide (l = []) then (l, filterData) else
      let slice := findRange l c in
      let l' := foldl (place_step c slice) l (seq 0 (length slice)) in
      (l', filter (fun i => node_at nd_v None l' i = Some true) slice)
  end.

(** ** Times to positions *)

Definition ns2x (ns startNS endNS duration : Z) (rect : rect) : Q :=
  let endNS := if endNS =? 0 then duration else endNS in
  let xSize := fdiv (inject_Z ((ns - startNS) * r_width rect)) (inject_Z (endNS - startNS)) in
  if negb (Qle_bool 0 xSize) then 0%Q
  else if negb (Qle_bool xSize (inject_Z (r_width rect))) then inject_Z (r_width rect) else xSize.
End Placing.

(** ** Rectangles meet when they share a point *)

(** Two rectangles intersect, as the hit tests compute it from the box around
    both, exactly when they have a point in common. *)
Theorem intersect_common_point r1 r2 (Hw1 : 0 <= r_width r1) (Hh1 : 0 <= r_height r1)
    (Hw2 : 0 <= r_width r2) (Hh2 : 0 <= r_height r2) :
  intersect r1 r2 = true <-> exists x y, contains r1 x y = true /\ contains r2 x y = true.
Proof.
  unfold intersect, contains. split.
  - intros [Hx%Z.leb_le Hy%Z.leb_le]%andb_prop.
    exists (Z.max (r_x r1) (r_x r2)), (Z.max (r_y r1) (r_y r2)). rewrite !andb_true_iff, !Z.leb_le.
    zcase_in Hx; zcase_in Hy; lia.
  - intros (x & y & Ha & Hb). rewrite !andb_true_iff, !Z.leb_le in Ha. rewrite !andb_true_iff, !Z.leb_le in Hb.
    rewrite !andb_true_iff, !Z.leb_le. zcase; lia.
Qed.

Lemma intersect_common_point_witness :
  exists x y, contains (Rect 0 0 4 4) x y = true /\ contains (Rect 4 2 3 3) x y = true.
Proof. apply (intersect_common_point (Rect 0 0 4 4) (Rect 4 2 3 3)); cbn; try lia. reflexivity. Defined.

(** ** The two searches *)

Section Searches.
Context {R : Type}.
Implicit Types l : list (node R).

(** The slice at a position can be shown: it ends after the start of the window, and
    starts before its end. *)
Definition shows (c : FilterConfig) l (k : nat) : Prop :=
  node_at (ends_after c) false l k = true /\ node_at (starts_before c) false l k = true.

Lemma scan_ends_spec c l rounds : forall i j lo hi ib jb,
  (i + rounds = length l)%nat -> j = pred rounds ->
  (if ib : bool then forall k, (k < i)%nat -> node_at (ends_after c) false l k = false
   else forall k, node_at (ends_after c) false l k = true -> (lo <= k)%nat) ->
  (if jb : bool then forall k, (rounds <= k)%nat -> node_at (starts_before c) false l k = false
   else forall k, node_at (starts_before c) false l k = true -> (k <= hi)%nat) ->
  let '(lo', hi') := scan_ends c l rounds i j lo hi ib jb in
  forall k, (k < length l)%nat ->
    (node_at (ends_after c) false l k = true -> (lo' <= k)%nat) /\
    (node_at (starts_before c) false l k = true -> (k <= hi')%nat).
Proof.
  assert (Hft : forall b : bool, b = false -> b = true -> False) by congruence.
  induction rounds as [|rounds IH]; intros i j lo hi ib jb Hi -> Hib Hjb; cbn [scan_ends pred].
  - intros k Hk. destruct ib, jb; split; intros E; auto; exfalso; (eapply Hft; [|exact E]); auto with lia.
  - set (Bj := node_at (starts_before c) false l rounds). set (Ai := node_at (ends_after c) false l i).
    assert (HJ : if (if Bj && jb then false else jb) then forall k, (rounds <= k)%nat -> node_at (starts_before c) false l k = false
                 else forall k, node_at (starts_before c) false l k = true -> (k <= if Bj && jb then rounds else hi)%nat).
    { destruct jb, Bj eqn:EB; cbn [andb]; [| |done..].
      - intros k Hk. destruct (decide (k <= rounds)%nat); [done|]. exfalso. eapply Hft; [|exact Hk]. apply Hjb. lia.
      - intros k Hk. destruct (decide (k = rounds)) as [->|]; [done|]. apply Hjb. lia. }
    assert (HI : if (if Ai && ib then false else ib) then forall k, (k < S i)%nat -> node_at (ends_after c) false l k = false
                 else forall k, node_at (ends_after c) false l k = true -> ((if Ai && ib then i else lo) <= k)%nat).
    { destruct ib, Ai eqn:EA; cbn [andb]; [| |done..].
      - intros k Hk. destruct (decide (i <= k)%nat); [done|]. exfalso. eapply Hft; [|exact Hk]. apply Hib. lia.
      - intros k Hk. destruct (decide (k = i)) as [->|]; [done|]. apply Hib. lia. }
    assert (Ej : (if Bj && jb then (rounds, false) else (hi, jb)) = ((if Bj && jb then rounds else hi), if Bj && jb then false else jb))
      by (by destruct (Bj && jb)).
    assert (Ei : (if Ai && ib then (i, false) else (lo, ib)) = ((if Ai && ib then i else lo), if Ai && ib then false else ib))
      by (by destruct (Ai && ib)).
    rewrite Ej, Ei. revert HJ HI. generalize (if Bj && jb then rounds else hi) (if Ai && ib then i else lo).
    generalize (if Bj && jb then false else jb) (if Ai && ib then false else ib). intros jb' ib' hi' lo' HJ HI.
    destruct (negb ib' && negb jb') eqn:E.
    + destruct ib', jb'; try done. intros k _. split; auto.
    + apply (IH (S i) (pred rounds) lo' hi' ib' jb'); [lia|done|exact HI|exact HJ].
Qed.

(** The scan from both ends misses nothing: every slice of the lane that the
    window can show is in the slice of the array that it returns, in whatever order
    the slices are. *)
Theorem findRange_covers c l k : shows c l k -> k ∈ findRange l c.
Proof.
  intros [HA HB]. unfold findRange.
  assert (Hk : (k < length l)%nat).
  { apply lookup_lt_is_Some. unfold node_at in HA. destruct (l !! k); [eauto|done]. }
  pose proof (scan_ends_spec c l (length l) 0 (length l - 1) 0 0 true true) as HS.
  destruct (scan_ends _ _ _ _ _ _ _ _ _) as [lo hi].
  destruct (HS ltac:(lia) ltac:(lia) ltac:(lia)) with (k := k) as [H1 H2]; [|done|].
  - intros k' Hk'. unfold node_at. by rewrite (proj2 (lookup_ge_None _ _)) by lia.
  - apply list_elem_of_filter. specialize (H1 HA). specialize (H2 HB). split; [lia|]. apply elem_of_seq. lia.
Qed.

(** ** Bisection *)

Lemma searchImpl_spec c l fuel : forall i j,
  (forall a b, (a <= b < length l)%nat -> node_at nd_start 0 l a <= node_at nd_start 0 l b) ->
  (i < j <= length l)%nat -> (j - i < fuel)%nat ->
  (i = 0%nat \/ node_at nd_start 0 l i <= endNS c) ->
  (forall k, (j <= k < length l)%nat -> endNS c < node_at nd_start 0 l k) ->
  exists r, searchImpl fuel l c i j = Some r /\ -1 <= r < Z.of_nat (length l) /\
    (0 <= r -> node_at nd_start 0 l (Z.to_nat r) <= endNS c) /\
    (forall k, (k < length l)%nat -> r < Z.of_nat k -> endNS c < node_at nd_start 0 l k).
Proof.
  induction fuel as [|fuel IH]; intros i j Hs Hij Hf Hi Hj; [lia|]. cbn [searchImpl].
  destruct (Nat.eqb_spec i j); [lia|]. destruct (Nat.eqb_spec (i + 1) j) as [<-|Hne].
  - eexists. split; [done|]. destruct (Z.leb_spec (node_at nd_start 0 l i) (endNS c)).
    + split; [lia|]. rewrite Nat2Z.id. split; [done|]. intros k Hk Hik. apply Hj. lia.
    + destruct Hi as [->|]; [|lia]. split; [lia|]. split; [lia|]. intros k Hk _.
      pose proof (Hs 0%nat k ltac:(lia)). lia.
  - set (middle := ((j - i) / 2 + i)%nat).
    assert (Hm : (i < middle < j)%nat).
    { unfold middle. pose proof (Nat.div_mod (j - i) 2 ltac:(lia)). pose proof (Nat.mod_upper_bound (j - i) 2 ltac:(lia)). lia. }
    destruct (Z.ltb_spec (endNS c) (node_at nd_start 0 l middle)).
    + apply IH; [done|lia|lia|done|]. intros k Hk. pose proof (Hs middle k ltac:(lia)). lia.
    + apply IH; [done|lia|lia|by right|done].
Qed.

(** C25: Bisection ends and finds the last slice that starts within the window: for a
    lane in the order of the starts, [findRangeIdx] returns a pair of positions such
    that every slice the window can show lies between them, the second one excluded. *)
Theorem findRangeIdx_covers c l (Hsorted : StronglySorted (key_le nd_start) l) :
  exists a b, findRangeIdx l c = Some (a, b) /\ 0 <= b <= Z.of_nat (length l) /\
    (forall k, (k < length l)%nat -> Z.of_nat k < b <-> node_at nd_start 0 l k <= endNS c) /\
    (forall k, shows c l k -> a <= Z.of_nat k < b).
Proof.
  assert (Hs : forall i j, (i <= j < length l)%nat -> node_at nd_start 0 l i <= node_at nd_start 0 l j).
  { clear c. induction Hsorted as [|x k Hk IH HF]; cbn [length]; intros i j Hij; [lia|].
    destruct i as [|i], j as [|j]; [lia| |lia|apply (IH i j); lia]. unfold node_at. cbn.
    destruct (k !! j) as [b|] eqn:E; [|apply lookup_ge_None in E; lia].
    rewrite Forall_forall in HF. apply HF. by eapply list_elem_of_lookup_2. }
  assert (Hb : exists r, bsearch l c = Some r /\ -1 <= r < Z.of_nat (length l) /\
    (0 <= r -> node_at nd_start 0 l (Z.to_nat r) <= endNS c) /\
    (forall k, (k < length l)%nat -> r < Z.of_nat k -> endNS c < node_at nd_start 0 l k)).
  { unfold bsearch. destruct (decide (length l = 0%nat)) as [E|E].
    - rewrite E. exists (-1). cbn. split; [done|]. split; [lia|]. split; [lia|]. intros; lia.
    - apply searchImpl_spec; [done|lia|lia|by left|lia]. }
  destruct Hb as (r & Er & Hr & Hin & Hout). exists (findIndex (ends_after c) l 0), (r + 1).
  unfold findRangeIdx. rewrite Er. split; [done|]. split; [lia|].
  assert (Hiff : forall k, (k < length l)%nat -> Z.of_nat k < r + 1 <-> node_at nd_start 0 l k <= endNS c).
  { intros k Hk. split.
    - intros Hkr. pose proof (Hs k (Z.to_nat r) ltac:(lia)). specialize (Hin ltac:(lia)). lia.
    - intros Hle. destruct (Z.lt_ge_cases r (Z.of_nat k)) as [Hlt|]; [|lia]. specialize (Hout k Hk Hlt). lia. }
  split; [done|]. intros k [HA HB].
  assert (Hk : (k < length l)%nat).
  { apply lookup_lt_is_Some. unfold node_at in HA. destruct (l !! k); [eauto|done]. }
  split.
  - assert (HF : forall l' k i, node_at (ends_after c) false l' k = true -> findIndex (ends_after c) l' i <= i + Z.of_nat k).
    { clear. induction l' as [|x l' IH]; intros k i Hk; [done|]. cbn [findIndex].
      destruct (ends_after c x) eqn:E; [lia|]. destruct k as [|k]; [unfold node_at in Hk; cbn in Hk; congruence|].
      specialize (IH k (i + 1) Hk). lia. }
    apply (HF l k 0 HA).
  - apply Hiff; [done|]. unfold node_at in *. destruct (l !! k); [|done]. unfold starts_before in HB. by apply Z.leb_le in HB.
Qed.
End Searches.

(** ** Rectangles of slices *)

Section Frames.
Context {R : Type} `{DoubleLaws}.
Implicit Types n : node R.

Lemma pns_pos c : startNS c < endNS c -> 0 < r_width (frame c) -> (0 < pns c)%Q.
Proof. intros. apply fdiv_pos; rewrite <- (Zlt_Qlt 0); lia. Qed.

Lemma fdiv_floor_nonneg c z : startNS c < endNS c -> 0 < r_width (frame c) -> 0 <= z ->
  0 <= Qfloor (fdiv (inject_Z z) (pns c)).
Proof.
  intros Hn Hw Hz. pose proof (pns_pos c Hn Hw) as Hp. change 0 with (Qfloor 0). apply Qfloor_resp_le.
  rewrite <- (fdiv_zero (pns c)) by done. apply fdiv_mono; [done|]. change 0%Q with (inject_Z 0). by rewrite <- Zle_Qle.
Qed.

(** Where an instant lies, in pixels from the left of the lane. *)
Definition position (c : FilterConfig) (t : Z) : Q := fdiv (inject_Z (t - startNS c)) (pns c).

(** The rectangle of a slice.  Vertically it is the one that the slice had, or else the
    lane without its padding.  It starts in the pixel of the slice's start, or at the left
    of the lane when the slice starts before the window; a slice that ends after the
    window reaches the right of the lane, any other one the pixel of its end; and it is a
    pixel wide at least. *)
Definition drawn (c : FilterConfig) (old : option rect) (start dur : Z) (f : rect) : Prop :=
  r_y f = match old with Some f0 => r_y f0 | None => r_y (frame c) + paddingTop c end /\
  r_height f = match old with Some f0 => r_height f0 | None => r_height (frame c) - paddingTop c * 2 end /\
  0 <= r_x f <= Qfloor (position c (endNS c)) /\
  (start <= startNS c -> r_x f = 0) /\
  (startNS c <= start -> (inject_Z (r_x f) <= position c start < inject_Z (r_x f + 1))%Q) /\
  (endNS c < start + dur -> r_width f = Z.max 1 (r_width (frame c) - r_x f)) /\
  (start + dur <= endNS c -> r_width f = Z.max 1 (Qceiling (fadd (position c (start + dur)) (inject_Z (- r_x f))))).

Lemma floor_zero q : (q == 0)%Q -> Qfloor q = 0.
Proof. intros E. by rewrite (Qfloor_comp _ _ E). Qed.

Lemma setNodeFrame_drawn c n old : startNS c < endNS c -> 0 < r_width (frame c) -> nd_start n <= endNS c ->
  nd_frame n = Some (default (Rect 0 (r_y (frame c) + paddingTop c) 0 (r_height (frame c) - paddingTop c * 2)) old) ->
  exists f, nd_frame (setNodeFrame c n) = Some f /\ drawn c old (nd_start n) (or_zero (nd_dur n)) f.
Proof.
  intros Hn Hw He Hf. unfold setNodeFrame. rewrite Hf. cbn zeta. eexists. split; [done|].
  set (x := if nd_start n <? startNS c then 0 else _).
  assert (Hx : (startNS c <= nd_start n -> x = Qfloor (position c (nd_start n))) /\ (nd_start n <= startNS c -> x = 0)).
  { subst x. destruct (Z.ltb_spec (nd_start n) (startNS c)); (split; [intros; try lia; done|intros]); [done|].
    replace (nd_start n - startNS c) with 0 by lia. by apply floor_zero, fdiv_zero, pns_pos. }
  clearbody x. destruct Hx as [Hx Hx0]. unfold drawn. cbn [r_x r_y r_width r_height].
  split; [by destruct old|]. split; [by destruct old|]. split.
  { destruct (Z.le_gt_cases (startNS c) (nd_start n)) as [Hs|Hs]; [|rewrite Hx0 by lia; split; [done|]; apply fdiv_floor_nonneg; lia].
    rewrite Hx by done. split; [apply fdiv_floor_nonneg; lia|]. apply Qfloor_resp_le, fdiv_mono; [by apply pns_pos|].
    rewrite <- Zle_Qle. lia. }
  split; [done|]. split; [intros Hs; rewrite Hx by done; split; [apply Qfloor_le|apply Qlt_floor]|].
  split; intros Hd; destruct (Z.ltb_spec (endNS c) (nd_start n + or_zero (nd_dur n))); try lia; unfold position; zcase; lia.
Qed.
End Frames.

(** ** Choosing the slices to draw *)

Section Handler.
Context {R : Type} `{DoubleLaws} (c : FilterConfig) (slice : list nat) (Hslice : NoDup slice).
Context (Hwin : startNS c < endNS c) (Hwidth : 0 < r_width (frame c)).
Implicit Types l : list (node R).

(** What a round does to the slice it places. *)
Record placed (n n' : node R) : Prop := {
  pl_start : nd_start n' = nd_start n;
  pl_rest : nd_rest n' = nd_rest n;
  pl_dur : cell_missing (nd_dur n) = false -> nd_dur n' = nd_dur n;
  pl_wide : ((pns c <= inject_Z (or_zero (nd_dur n')))%Q \/ (length slice < 100)%nat) ->
            nd_v n' = Some true /\
            (nd_start n <= endNS c -> exists f, nd_frame n' = Some f /\ drawn c (nd_frame n) (nd_start n) (or_zero (nd_dur n')) f)
}.

Lemma setNodeFrame_same (n : node R) :
  nd_start (setNodeFrame c n) = nd_start n /\ nd_dur (setNodeFrame c n) = nd_dur n /\
  nd_v (setNodeFrame c n) = nd_v n /\ nd_rest (setNodeFrame c n) = nd_rest n.
Proof. unfold setNodeFrame. by destruct (nd_frame n). Qed.

Lemma alter_at {A} (f : A -> A) i (l : list A) a : l !! i = Some a ->
  (forall j, j <> i -> alter f i l !! j = l !! j) /\ alter f i l !! i = Some (f a).
Proof.
  intros Ha. split; [intros j Hj; by apply list_lookup_alter_ne|]. by rewrite list_lookup_alter_eq, Ha.
Qed.

Lemma place_step_at l k i a : slice !! k = Some i -> l !! i = Some a ->
  (forall j, j <> i -> place_step c slice l k !! j = l !! j) /\
  exists a', place_step c slice l k !! i = Some a' /\ placed a a'.
Proof.
  intros Hk Ha. unfold place_step. rewrite Hk.
  destruct (alter_at (give_frame c) i l a Ha) as [Ho1 Ha1]. set (l1 := alter (give_frame c) i l) in *.
  set (a1 := give_frame c a) in *. assert (Hs1 : nd_start a1 = nd_start a /\ nd_dur a1 = nd_dur a /\ nd_rest a1 = nd_rest a /\
    nd_frame a1 = Some (default (Rect 0 (r_y (frame c) + paddingTop c) 0 (r_height (frame c) - paddingTop c * 2)) (nd_frame a)))
    by (unfold a1, give_frame; destruct (nd_frame a) eqn:Ef; cbn; by rewrite ?Ef).
  destruct Hs1 as (Hs1 & Hd1 & Hr1 & Hf1). set (f1 := default _ _) in Hf1.
  set (fin := match slice !! S k with Some j => _ | None => _ end).
  assert (E : exists l2 a2, (if cell_missing (node_at nd_dur CUndefined l1 i)
      then alter (node_dur (CNum (fin - node_at nd_start 0 l1 i))) i l1 else l1) = l2 /\
      (forall j, j <> i -> l2 !! j = l !! j) /\ l2 !! i = Some a2 /\ nd_start a2 = nd_start a /\ nd_rest a2 = nd_rest a /\
      nd_frame a2 = Some f1 /\ (cell_missing (nd_dur a) = false -> nd_dur a2 = nd_dur a)).
  { unfold node_at at 1. rewrite Ha1. destruct (cell_missing (nd_dur a1)) eqn:Em.
    - destruct (alter_at (node_dur (CNum (fin - node_at nd_start 0 l1 i))) i l1 a1 Ha1) as [Ho2 Ha2].
      do 2 eexists. split; [done|]. split; [intros j Hj; rewrite Ho2, Ho1 by done; done|].
      split; [exact Ha2|]. cbn. rewrite Hd1 in Em. split_and!; try done. by rewrite Em.
    - exists l1, a1. split_and!; try done. }
  destruct E as (l2 & a2 & -> & Ho2 & Ha2 & Hs2 & Hr2 & Hf2 & Hd2).
  set (d := or_zero (node_at nd_dur CUndefined l2 i)). assert (Ed : d = or_zero (nd_dur a2)) by (unfold d, node_at; by rewrite Ha2).
  assert (Htrue : (forall j, j <> i -> alter (fun n => setNodeFrame c (node_v true n)) i l2 !! j = l !! j) /\
    exists a', alter (fun n => setNodeFrame c (node_v true n)) i l2 !! i = Some a' /\ placed a a').
  { destruct (alter_at (fun n => setNodeFrame c (node_v true n)) i l2 a2 Ha2) as [Ho3 Ha3].
    split; [intros j Hj; rewrite Ho3, Ho2 by done; done|]. eexists. split; [exact Ha3|].
    destruct (setNodeFrame_same (node_v true a2)) as (E1 & E2 & E3 & E4). split; rewrite ?E1, ?E2, ?E3, ?E4; try done.
    intros _. split; [done|]. intros He. rewrite <- Hs2. apply (setNodeFrame_drawn c (node_v true a2) (nd_frame a)); cbn; [lia..|done]. }
  unfold setSliceFrame. fold d. destruct (Qle_bool (pns c) (inject_Z d)) eqn:Hq; [done|].
  destruct (Nat.ltb_spec (length slice) 100) as [|Hge]; [done|]. cbn [orb].
  assert (Hnot : ~ ((pns c <= inject_Z (or_zero (nd_dur a2)))%Q \/ (length slice < 100)%nat)).
  { rewrite <- Ed, <- Qle_bool_iff, Hq. intros [|]; [done|lia]. }
  assert (Hkeep : (forall j, j <> i -> l2 !! j = l !! j) /\ exists a', l2 !! i = Some a' /\ placed a a').
  { split; [done|]. exists a2. split; [done|]. by split. }
  destruct k as [|k]; [done|]. destruct (slice !! k) as [p|]; [|done]. destruct (_ && _); [|done].
  destruct (alter_at (node_v false) i l2 a2 Ha2) as [Ho3 Ha3].
  split; [intros j Hj; rewrite Ho3, Ho2 by done; done|]. eexists. split; [exact Ha3|]. by split.
Qed.

Lemma place_loop l : (forall i, i ∈ slice -> is_Some (l !! i)) -> forall n, (n <= length slice)%nat ->
  let l' := foldl (place_step c slice) l (seq 0 n) in
  (forall j, j ∉ take n slice -> l' !! j = l !! j) /\
  (forall i a, i ∈ take n slice -> l !! i = Some a -> exists a', l' !! i = Some a' /\ placed a a').
Proof.
  intros Hall n. induction n as [|n IH]; intros Hn l'; [split; [done|set_solver]|].
  subst l'. rewrite seq_S, foldl_snoc, Nat.add_0_l. destruct IH as [Ho Hi]; [lia|].
  set (l1 := foldl _ _ _) in *.
  destruct (slice !! n) as [i|] eqn:Hk; [|apply lookup_ge_None in Hk; lia].
  assert (Hin : i ∈ slice) by (by eapply list_elem_of_lookup_2). destruct (Hall i Hin) as [a Ha].
  rewrite (take_S_r slice n i Hk) in *. assert (Hfresh : i ∉ take n slice).
  { rewrite <- (take_drop_middle slice n i Hk) in Hslice. apply NoDup_app in Hslice as (_ & Hd & _). intros Hi'.
    apply (Hd i Hi'). by left. }
  assert (Ha1 : l1 !! i = Some a) by (rewrite Ho; done).
  destruct (place_step_at l1 n i a Hk Ha1) as (Ho2 & a2 & Ha2 & Ht). split.
  - intros j Hj. rewrite Ho2, Ho by set_solver. done.
  - intros j b [Hj| ->%list_elem_of_singleton]%elem_of_app Hb; [|exists a2; assert (b = a) as -> by congruence; done].
    rewrite Ho2 by (intros ->; done). by apply Hi.
Qed.
End Handler.

Lemma scan_NoDup {R} (l : list (node R)) c : NoDup (findRange l c).
Proof. unfold findRange. destruct (scan_ends _ _ _ _ _ _ _ _ _). apply NoDup_filter, NoDup_seq. Qed.

Lemma findRange_is_Some {R} (l : list (node R)) c i : i ∈ findRange l c -> is_Some (l !! i).
Proof.
  unfold findRange. destruct (scan_ends _ _ _ _ _ _ _ _ _). intros [_ Hi%elem_of_seq]%list_elem_of_filter.
  apply lookup_lt_is_Some. lia.
Qed.

Lemma shows_lookup {R} c (l : list (node R)) i : shows c l i -> is_Some (l !! i).
Proof. intros [HA _]. unfold node_at in HA. destruct (l !! i); [eauto|done]. Qed.

(** The call that chooses anew, with the objects after it. *)
Lemma handler_fresh {R} `{Doubles} (l : list (node R)) filterData c :
  useCache c = false -> l <> [] ->
  dataFilterHandler l filterData c =
    (foldl (place_step c (findRange l c)) l (seq 0 (length (findRange l c))),
     filter (fun i => node_at nd_v None (foldl (place_step c (findRange l c)) l (seq 0 (length (findRange l c)))) i = Some true)
       (findRange l c)).
Proof. intros Hc Hl. unfold dataFilterHandler, fillCacheData. rewrite Hc. cbn [andb]. by rewrite bool_decide_false. Qed.

(** C24: What a lane draws.  When the choice is made anew ([useCache] is false), every
    slice that the window can show and that is at least one pixel long is chosen, and so
    is every slice when the window has fewer than a hundred; each has the rectangle that
    belongs to it ([drawn]): it starts in the pixel of the slice's start, or at the left of
    the lane when the slice starts before the window; it ends in the pixel of the slice's
    end, or at the right of the lane when the slice ends after the window; it is a pixel
    wide at least, so that a slice that starts at the end of the window is drawn one
    pixel to the right of the lane.  Starts and known lengths are unchanged. *)
Theorem handler_draws {R} `{DoubleLaws} (l : list (node R)) filterData c i a
    (Hcache : useCache c = false) (Hwin : startNS c < endNS c) (Hwidth : 0 < r_width (frame c))
    (Hi : shows c l i) (Ha : l !! i = Some a) :
  let '(l', chosen) := dataFilterHandler l filterData c in
  exists a', l' !! i = Some a' /\ nd_start a' = nd_start a /\
    (cell_missing (nd_dur a) = false -> nd_dur a' = nd_dur a) /\
    ((pns c <= inject_Z (or_zero (nd_dur a')))%Q \/ (length (findRange l c) < 100)%nat ->
     i ∈ chosen /\ exists f, nd_frame a' = Some f /\ drawn c (nd_frame a) (nd_start a) (or_zero (nd_dur a')) f).
Proof.
  rewrite handler_fresh by (done || intros ->; done). pose proof (findRange_covers c l i Hi) as Hin.
  destruct (place_loop c (findRange l c) (scan_NoDup l c) Hwin Hwidth l ltac:(intros j; apply findRange_is_Some)
    (length (findRange l c)) ltac:(lia)) as [_ Hp].
  rewrite take_ge in Hp by lia. destruct (Hp i a Hin Ha) as (a' & Ha' & [Hs _ Hd Hw]).
  exists a'. split_and!; [done..|]. intros Hc. destruct (Hw Hc) as [Hv Hf]. split.
  - apply list_elem_of_filter. split; [|done]. unfold node_at. by rewrite Ha'.
  - apply Hf. destruct Hi as [_ HB]. unfold node_at, starts_before in HB. rewrite Ha in HB. by apply Z.leb_le.
Qed.

Lemma position_le c t t' : startNS c < endNS c -> 0 < r_width (frame c) -> t <= t' ->
  (@position exact_doubles c t <= @position exact_doubles c t')%Q.
Proof. intros Hn Hw Ht. apply (@fdiv_mono exact_doubles _); [by apply (@pns_pos exact_doubles _)|]. rewrite <- Zle_Qle. lia. Qed.

Lemma position_lt c t t' : startNS c < endNS c -> 0 < r_width (frame c) -> t < t' ->
  (@position exact_doubles c t < @position exact_doubles c t')%Q.
Proof.
  intros Hn Hw Ht. apply Qmult_lt_compat_r; [apply Qinv_lt_0_compat; by apply (@pns_pos exact_doubles _)|]. rewrite <- Zlt_Qlt. lia.
Qed.

Lemma position_end c : startNS c < endNS c -> 0 < r_width (frame c) ->
  (@position exact_doubles c (endNS c) == inject_Z (r_width (frame c)))%Q.
Proof.
  intros Hn Hw. unfold position, pns. cbn. assert (Hne : forall z, 0 < z -> ~ (inject_Z z == 0)%Q).
  { intros z Hz E. apply (inject_Z_injective z 0) in E. lia. }
  field. split; apply Hne; lia.
Qed.

(** In exact arithmetic the rectangle is within the lane, but for the pixel that follows
    it when the slice starts at the end of the window. *)
Lemma drawn_within c old start dur f : startNS c < endNS c -> 0 < r_width (frame c) ->
  0 <= dur -> @drawn exact_doubles c old start dur f ->
  r_x f <= r_width (frame c) /\ (start < endNS c -> r_x f + r_width f <= r_width (frame c)).
Proof.
  intros Hn Hw Hd (_ & _ & Hx & Hx0 & Hxs & Hlong & Hshort). destruct Hx as [H0 Hx].
  rewrite (Qfloor_comp _ _ (position_end c Hn Hw)), Qfloor_Z in Hx. split; [done|]. intros Hs.
  assert (Hlt : r_x f < r_width (frame c)).
  { destruct (Z.le_gt_cases (startNS c) start) as [Hle|]; [|rewrite Hx0; lia]. rewrite Zlt_Qlt.
    eapply Qle_lt_trans; [apply (Hxs Hle)|]. rewrite <- (position_end c Hn Hw). by apply position_lt. }
  destruct (Z.lt_ge_cases (endNS c) (start + dur)) as [He|He]; [rewrite Hlong by done; lia|].
  rewrite Hshort by done. enough (Qceiling (@fadd exact_doubles (@position exact_doubles c (start + dur)) (inject_Z (- r_x f))) <= r_width (frame c) - r_x f) by lia.
  rewrite <- (Qceiling_Z (r_width (frame c) - r_x f)). apply Qceiling_resp_le. unfold Z.sub. rewrite inject_Z_plus. cbn [fadd exact_doubles].
  apply Qplus_le_compat; [|apply Qle_refl]. rewrite <- (position_end c Hn Hw). by apply position_le.
Qed.

(** Four slices, the window from 10 to 30 on ten pixels. *)
Definition rx_lane : list (node Z) :=
  (fun '(s, d) => Node s (CNum d) None None 0) <$> [(0, 5); (8, 7); (16, 1); (31, 4)].
Definition rx_config (cache : bool) : FilterConfig :=
  {| startNS := 10; endNS := 30; frame := Rect 0 0 10 20; useCache := cache; paddingTop := 2 |}.

Lemma findRange_covers_witness : 2%nat ∈ findRange rx_lane (rx_config false).
Proof. apply (findRange_covers (rx_config false) rx_lane 2). by split. Defined.

Lemma findRangeIdx_covers_witness :
  exists a b, findRangeIdx rx_lane (rx_config false) = Some (a, b) /\ 0 <= b <= Z.of_nat (length rx_lane) /\
    (forall k, (k < length rx_lane)%nat -> Z.of_nat k < b <-> node_at nd_start 0 rx_lane k <= 30) /\
    (forall k, shows (rx_config false) rx_lane k -> a <= Z.of_nat k < b).
Proof.
  apply (findRangeIdx_covers (rx_config false) rx_lane). unfold rx_lane. repeat constructor; unfold key_le; cbn; lia.
Defined.

Lemma handler_draws_witness :
  exists a', (@dataFilterHandler _ exact_doubles rx_lane [] (rx_config false)).1 !! 1%nat = Some a' /\ nd_start a' = 8 /\
    (cell_missing (CNum 7) = false -> nd_dur a' = CNum 7) /\
    ((@pns exact_doubles (rx_config false) <= inject_Z (or_zero (nd_dur a')))%Q \/
       (length (findRange rx_lane (rx_config false)) < 100)%nat ->
     1%nat ∈ (@dataFilterHandler _ exact_doubles rx_lane [] (rx_config false)).2 /\
     exists f, nd_frame a' = Some f /\ @drawn exact_doubles (rx_config false) None 8 (or_zero (nd_dur a')) f).
Proof.
  refine (@handler_draws _ exact_doubles exact_laws rx_lane [] (rx_config false) 1 (Node 8 (CNum 7) None None 0)
    eq_refl _ _ _ eq_refl); [cbn; lia|cbn; lia|by split].
Defined.

Example rx_frames :
  (fun n => nd_frame n) <$> (@dataFilterHandler _ exact_doubles rx_lane [] (rx_config false)).1 =
  [None; Some (Rect 0 2 3 16); Some (Rect 3 2 1 16); None].
Proof. vm_compute. reflexivity. Qed.

(** ** Dense lanes *)

Section Dense.
Context {R : Type} `{Doubles} (c : FilterConfig) (l : list (node R)).
Let slice := findRange l c.

(** Short slices, close to each other: each is shorter than a pixel, and so is the
    gap before it. *)
Definition dense : Prop :=
  (100 <= length slice)%nat /\ (0 < pns c)%Q /\
  (forall i, i ∈ slice -> cell_missing (node_at nd_dur CUndefined l i) = false /\
     ~ (pns c <= inject_Z (or_zero (node_at nd_dur CUndefined l i)))%Q) /\
  (forall k p i, slice !! k = Some p -> slice !! S k = Some i ->
     ~ (pns c <= inject_Z (node_at nd_start 0%Z l i - node_at nd_start 0%Z l p - or_zero (node_at nd_dur CUndefined l p)))%Q).

(** Objects that differ in rectangle and mark only. *)
Definition same_times (l' : list (node R)) : Prop :=
  forall i, node_at nd_start 0 l' i = node_at nd_start 0 l i /\ node_at nd_dur CUndefined l' i = node_at nd_dur CUndefined l i.

Lemma node_at_alter {A} (f : node R -> A) d (g : node R -> node R) i l' j :
  (forall n, f (g n) = f n) -> node_at f d (alter g i l') j = node_at f d l' j.
Proof.
  intros Hg. unfold node_at. destruct (decide (i = j)) as [->|].
  - rewrite list_lookup_alter_eq. destruct (l' !! j); [apply Hg|done].
  - by rewrite list_lookup_alter_ne.
Qed.

Lemma dense_step l' k i : dense -> same_times l' -> slice !! k = Some i -> is_Some (l' !! i) ->
  same_times (place_step c slice l' k) /\
  (forall j, j <> i -> node_at nd_v None (place_step c slice l' k) j = node_at nd_v None l' j) /\
  node_at nd_v None (place_step c slice l' k) i = (if k is O then node_at nd_v None l' i else Some false).
Proof.
  intros (Hlen & Hpos & Hshort & Hgap) Hsame Hk [a Ha]. unfold place_step. rewrite Hk.
  set (l1 := alter (give_frame c) i l').
  assert (H1 : forall A (f : node R -> A) d j, (forall f' n, f (node_frame f' n) = f n) -> node_at f d l1 j = node_at f d l' j).
  { intros A f d j Hf. apply node_at_alter. intros n. unfold give_frame. destruct (nd_frame n); [done|apply Hf]. }
  assert (Hin : i ∈ slice) by (by eapply list_elem_of_lookup_2). destruct (Hshort i Hin) as [Hm Hs].
  assert (Ed : forall j, node_at nd_dur CUndefined l1 j = node_at nd_dur CUndefined l j) by (intros j; rewrite H1 by done; apply Hsame).
  assert (Es : forall j, node_at nd_start 0 l1 j = node_at nd_start 0 l j) by (intros j; rewrite H1 by done; apply Hsame).
  rewrite Ed, Hm. unfold setSliceFrame. rewrite Ed.
  destruct (Qle_bool (pns c) (inject_Z (or_zero (node_at nd_dur CUndefined l i)))) eqn:Hq; [by apply Qle_bool_iff in Hq|].
  destruct (Nat.ltb_spec (length slice) 100); [lia|]. cbn [orb].
  destruct k as [|k].
  - split_and!; [intros j; by rewrite Ed, Es|intros j _; by rewrite H1|by rewrite H1].
  - destruct (slice !! k) as [p|] eqn:Hp; [|apply lookup_ge_None in Hp; apply lookup_lt_Some in Hk; lia].
    rewrite !Es, Ed. specialize (Hgap k p i Hp Hk).
    destruct (Qle_bool _ (inject_Z (_ - _ - _))) eqn:Hg; [by apply Qle_bool_iff in Hg|].
    destruct (Qle_bool (pns c) (inject_Z 0)) eqn:Hz; [apply Qle_bool_iff, Qle_not_lt in Hz; done|]. cbn [negb andb].
    split_and!.
    + intros j. rewrite !node_at_alter by done. by rewrite Ed, Es.
    + intros j Hj. rewrite <- (H1 _ nd_v None j) by done. unfold node_at. by rewrite list_lookup_alter_ne.
    + unfold node_at. rewrite list_lookup_alter_eq. unfold l1. rewrite list_lookup_alter_eq, Ha. done.
Qed.

Lemma dense_loop : dense -> forall n, (n <= length slice)%nat ->
  let l' := foldl (place_step c slice) l (seq 0 n) in
  same_times l' /\ (forall k i, slice !! k = Some i ->
    node_at nd_v None l' i = if decide (k < n)%nat then (if k is O then node_at nd_v None l i else Some false) else node_at nd_v None l i) /\
  forall j, is_Some (l !! j) -> is_Some (l' !! j).
Proof.
  intros HD n. pose proof (scan_NoDup l c) as HN. fold slice in HN. induction n as [|n IH]; intros Hn l'; [done|].
  subst l'. rewrite seq_S, foldl_snoc, Nat.add_0_l. destruct IH as (Hsame & Hv & Hl); [lia|]. set (l1 := foldl _ _ _) in *.
  destruct (slice !! n) as [i|] eqn:Hk; [|apply lookup_ge_None in Hk; lia].
  assert (Hi : is_Some (l1 !! i)) by (apply Hl, (findRange_is_Some l c), (list_elem_of_lookup_2 _ n), Hk).
  destruct (dense_step l1 n i HD Hsame Hk Hi) as (Hsame2 & Hother & Hself). split_and!; [done| |].
  - intros k j Hkj. destruct (decide (j = i)) as [->|Hne].
    + assert (k = n) as -> by (by eapply NoDup_lookup). rewrite Hself, decide_True by lia.
      destruct n; [|done]. rewrite (Hv 0%nat i Hk). by rewrite decide_False by lia.
    + rewrite Hother by done. rewrite (Hv k j Hkj). assert (k <> n) by congruence.
      destruct (decide (k < n)%nat), (decide (k < S n)%nat); try lia; done.
  - intros j Hj. specialize (Hl j Hj). unfold place_step. rewrite Hk. clear -Hl.
    assert (Halter : forall (g : node R -> node R) (i' : nat) (l2 : list (node R)), is_Some (l2 !! j) -> is_Some (alter g i' l2 !! j)).
    { intros g i' l2 Hj. destruct (decide (i' = j)) as [->|]; [rewrite list_lookup_alter_eq; by apply fmap_is_Some|by rewrite list_lookup_alter_ne]. }
    unfold setSliceFrame. repeat case_match; repeat apply Halter; done.
Qed.

(** A dense lane disappears.  When the window has a hundred slices or more, each
    shorter than a pixel and with a gap of less than a pixel before it, none of them is
    chosen (unless an earlier call has marked the first): the length that the code means
    to add up, so as to draw a slice once a pixel is full, starts from zero at every
    slice. *)
Theorem dense_lane_vanishes filterData (Hcache : useCache c = false) (Hdense : dense)
    (Hfirst : forall i, slice !! 0%nat = Some i -> node_at nd_v None l i <> Some true) :
  (dataFilterHandler l filterData c).2 = [].
Proof.
  assert (Hne : l <> []).
  { intros E. destruct Hdense as [Hlen _]. unfold slice in Hlen. rewrite E in Hlen. cbn in Hlen. lia. }
  rewrite handler_fresh by done. fold slice. cbn [snd]. apply filter_none, Forall_forall.
  intros i [k Hk]%list_elem_of_lookup. destruct (dense_loop Hdense (length slice) ltac:(lia)) as (_ & Hv & _).
  rewrite (Hv k i Hk), decide_True by (by eapply lookup_lt_Some). destruct k; [by apply Hfirst|done].
Qed.
End Dense.

(** The condition as a test. *)
Definition dense_check {R} `{Doubles} (c : FilterConfig) (l : list (node R)) : bool :=
  let slice := findRange l c in
  (100 <=? length slice)%nat && negb (Qle_bool (pns c) 0) &&
  forallb (fun i => negb (cell_missing (node_at nd_dur CUndefined l i)) &&
                    negb (Qle_bool (pns c) (inject_Z (or_zero (node_at nd_dur CUndefined l i))))) slice &&
  forallb (fun '(p, i) => negb (Qle_bool (pns c) (inject_Z (node_at nd_start 0 l i - node_at nd_start 0 l p
                                  - or_zero (node_at nd_dur CUndefined l p))))) (zip slice (drop 1 slice)).

Lemma Qle_bool_false a b : Qle_bool a b = false -> ~ (a <= b)%Q.
Proof. intros Hf. rewrite <- Qle_bool_iff. congruence. Qed.

Lemma dense_check_sound {R} `{Doubles} c (l : list (node R)) : dense_check c l = true -> dense c l.
Proof.
  unfold dense_check, dense. set (slice := findRange l c). intros [[[Hl Hp]%andb_prop Hs]%andb_prop Hg]%andb_prop.
  split_and!.
  - by apply Nat.leb_le in Hl.
  - apply Qnot_le_lt, Qle_bool_false. by apply negb_true_iff.
  - intros i Hi. apply forallb_forall with (x := i) in Hs; [|by apply list_elem_of_In].
    apply andb_prop in Hs as [H1 H2]. split; [by apply negb_true_iff|]. apply Qle_bool_false. by apply negb_true_iff.
  - intros k p i Hk Hk'. apply forallb_forall with (x := (p, i)) in Hg.
    + apply Qle_bool_false. by apply negb_true_iff.
    + apply list_elem_of_In, (list_elem_of_lookup_2 _ k), lookup_zip_with_Some. exists p, i.
      rewrite lookup_drop. done.
Qed.

(** A hundred and twenty slices of one nanosecond on two pixels. *)
Definition rx_dense : list (node Z) := (fun k => Node (2 * k) (CNum 1) None None k) <$> seqZ 0 120.
Definition rx_narrow : FilterConfig :=
  {| startNS := 0; endNS := 240; frame := Rect 0 0 2 20; useCache := false; paddingTop := 2 |}.

Lemma dense_lane_vanishes_witness :
  length rx_dense = 120%nat /\ (@dataFilterHandler _ exact_doubles rx_dense [] rx_narrow).2 = [].
Proof.
  split; [reflexivity|]. apply (@dense_lane_vanishes _ exact_doubles rx_narrow rx_dense []).
  - reflexivity.
  - apply dense_check_sound. vm_compute. reflexivity.
  - intros i Hi. vm_compute in Hi. apply (inj Some) in Hi as <-. vm_compute. discriminate.
Defined.
