(* ===== verification/StateTable.v ===== *)
(** * The tables of thread states

    [trace/database/logic-worker/ProcedureLogicWorkerSPT.ts]: the worker keeps the
    states of all threads, and for a range of time and some processors it builds one of
    two tables of three levels: process, thread and state, or state, process and thread.
    Each row counts the slices below it and has their total, shortest, longest and
    average length.  The rows of a level are found by their titles, so that a table is
    a forest of titled rows; the first level is an object used as a dictionary. *)

From Stdlib Require Import QArith Qround.
From S2P Require Import Prelude JsRuntime HeapModel SwimFilter.
Open Scope Z_scope.

(** ** Slices and rows *)

Record ThreadSlice := {
  ts_state : jsstring;
  ts_dur : Z;
  ts_startTs : Z;
  ts_endTs : Z;
  ts_cpu : option Z;
  ts_tid : option Z;
  ts_pid : option Z
}.

(** A number in a template literal. *)
Definition number_text (o : option Z) : jsstring :=
  match o with Some n => js_toString 10 n | None => js "null" end.

(** The numbers of a row; the average is a text. *)
Record row_stats := {
  count : Z;
  wallDuration : Z;
  minDuration : Z;
  maxDuration : Z;
  avgDuration : jsstring
}.

(** What a row stands for. *)
Record label := {
  title : jsstring;
  row_state : option jsstring;
  row_pid : option (option Z);
  row_tid : option (option Z)
}.

Inductive SPT := Spt (l : label) (s : row_stats) (children : list SPT).

Definition spt_label (r : SPT) : label := let 'Spt l _ _ := r in l.
Definition spt_stats (r : SPT) : row_stats := let 'Spt _ s _ := r in s.
Definition spt_children (r : SPT) : list SPT := let 'Spt _ _ cs := r in cs.
Definition spt_title (r : SPT) : jsstring := title (spt_label r).

(** [q.toFixed(2)] of a number that is not negative: the nearest multiple of a
    hundredth, the larger of two. *)
Definition hundredths (q : Q) : Z := Qfloor (q * 100 + (1 # 2)).

Definition hundredths_text (n : Z) : jsstring :=
  js_toString 10 (n / 100) ++ js "." ++ (if n mod 100 <? 10 then js "0" else []) ++ js_toString 10 (n mod 100).

Definition toFixed2 (q : Q) : jsstring := hundredths_text (hundredths q).

Section Table.
Context `{Doubles}.

(** A row of one slice, and one more slice in a row. *)
Definition one_slice (dur : Z) : row_stats :=
  {| count := 1; wallDuration := dur; minDuration := dur; maxDuration := dur; avgDuration := js_toString 10 dur |}.

Definition add_slice (s : row_stats) (dur : Z) : row_stats :=
  {| count := count s + 1;
     wallDuration := wallDuration s + dur;
     minDuration := Z.min (minDuration s) dur;
     maxDuration := Z.max (maxDuration s) dur;
     avgDuration := toFixed2 (fdiv (inject_Z (wallDuration s + dur)) (inject_Z (count s + 1))) |}.

(** The labels of a slice from the first level to the last: [setStateData],
    [setThreadData] and [setProcessData], and the rows of [getSPTData]. *)
Definition pts_labels (s : ThreadSlice) : list label :=
  [{| title := js "P-" ++ number_text (ts_pid s); row_state := None; row_pid := Some (ts_pid s); row_tid := None |};
   {| title := js "T-" ++ number_text (ts_tid s); row_state := None; row_pid := Some (ts_pid s); row_tid := Some (ts_tid s) |};
   {| title := js "S-" ++ ts_state s; row_state := Some (ts_state s); row_pid := Some (ts_pid s); row_tid := Some (ts_tid s) |}].

Definition spt_labels (s : ThreadSlice) : list label :=
  [{| title := js "S-" ++ ts_state s; row_state := Some (ts_state s); row_pid := None; row_tid := None |};
   {| title := js "P-" ++ number_text (ts_pid s); row_state := Some (ts_state s); row_pid := Some (ts_pid s); row_tid := None |};
   {| title := js "T-" ++ number_text (ts_tid s); row_state := Some (ts_state s); row_pid := Some (ts_pid s); row_tid := Some (ts_tid s) |}].

(** A new row with one row per level below it. *)
Fixpoint new_rows (dur : Z) (labels : list label) : list SPT :=
  match labels with
  | [] => []
  | l :: labels' => [Spt l (one_slice dur) (new_rows dur labels')]
  end.

(** One more slice below the rows of a level: the first row with the title of the
    slice gets it, or a new row is pushed. *)
Fixpoint add_rows (dur : Z) (labels : list label) (rows : list SPT) : list SPT :=
  match labels with
  | [] => rows
  | l :: labels' =>
      (fix go (rows : list SPT) : list SPT :=
         match rows with
         | [] => new_rows dur labels
         | Spt l0 s cs :: rows' =>
             if bool_decide (title l0 = title l) then Spt l0 (add_slice s dur) (add_rows dur labels' cs) :: rows'
             else Spt l0 s cs :: go rows'
         end) rows
  end.

(** The dictionary of the first level: the row at a key gets the slice. *)
Definition add_group (key : jsstring) (dur : Z) (labels : list label) (group : list (jsstring * SPT)) : list (jsstring * SPT) :=
  match map_get group key, labels with
  | Some (Spt l s cs), _ :: labels' => map_set group key (Spt l (add_slice s dur) (add_rows dur labels' cs))
  | None, l :: labels' => map_set group key (Spt l (one_slice dur) (new_rows dur labels'))
  | _, [] => group
  end.

(** [Math.max(leftNs, startTs) < Math.min(rightNs, startTs + dur)] and the processors. *)
Definition in_range (leftNs rightNs : Z) (cpus : list Z) (s : ThreadSlice) : bool :=
  (Z.max leftNs (ts_startTs s) <? Z.min rightNs (ts_startTs s + ts_dur s)) &&
  match ts_cpu s with None => true | Some cpu => bool_decide (cpu ∈ cpus) end.

Definition group_slices (key : ThreadSlice -> jsstring) (labels : ThreadSlice -> list label) (slices : list ThreadSlice) :
    list (jsstring * SPT) :=
  foldl (fun group s => add_group (key s) (ts_dur s) (labels s) group) [] slices.

Definition getPTSData (threadSlice : list ThreadSlice) (ptsLeftNs ptsRightNs : Z) (cpus : list Z) : list SPT :=
  let ptsFilter := filter (fun s => Is_true (in_range ptsLeftNs ptsRightNs cpus s)) threadSlice in
  Object_values (group_slices (fun s => number_text (ts_pid s)) pts_labels ptsFilter).

Definition getSPTData (threadSlice : list ThreadSlice) (sptLeftNs sptRightNs : Z) (cpus : list Z) : list SPT :=
  let sptFilter := filter (fun s => Is_true (in_range sptLeftNs sptRightNs cpus s)) threadSlice in
  Object_values (group_slices ts_state spt_labels sptFilter).

Definition sptGetCpuPriorityByTime (threadSlice : list ThreadSlice) (leftNs rightNs : Z) : list ThreadSlice :=
  filter (fun s => Is_true (negb ((ts_endTs s <? leftNs) || (rightNs <? ts_startTs s)))) threadSlice.
End Table.

(** ** The worker *)

Inductive spt_request :=
  | SptInit (slices : option (list ThreadSlice))
  | SptGetPTS (leftNs rightNs : Z) (cpus : list Z)
  | SptGetSPT (leftNs rightNs : Z) (cpus : list Z)
  | SptGetCpuPriority
  | SptGetCpuPriorityByTime (leftNs rightNs : Z).

Inductive spt_reply :=
  | AskThreadState
  | Ready
  | Table (rows : list SPT)
  | Slices (slices : list ThreadSlice).

Definition clearAll (threadSlice : list ThreadSlice) : list ThreadSlice := [].

Definition handle `{Doubles} (threadSlice : list ThreadSlice) (r : spt_request) : list ThreadSlice * spt_reply :=
  match r with
  | SptInit (Some slices) => (slices, Ready)
  | SptInit None => (threadSlice, AskThreadState)
  | SptGetPTS leftNs rightNs cpus => (threadSlice, Table (getPTSData threadSlice leftNs rightNs cpus))
  | SptGetSPT leftNs rightNs cpus => (threadSlice, Table (getSPTData threadSlice leftNs rightNs cpus))
  | SptGetCpuPriority => (threadSlice, Slices threadSlice)
  | SptGetCpuPriorityByTime leftNs rightNs => (threadSlice, Slices (sptGetCpuPriorityByTime threadSlice leftNs rightNs))
  end.

(** ** The rows at a path of titles *)

Definition titled (t : jsstring) (rows : list SPT) : list SPT := filter (fun r => spt_title r = t) rows.

Fixpoint rows_at (path : list jsstring) (rows : list SPT) : list SPT :=
  match path with
  | [] => []
  | [t] => titled t rows
  | t :: path' => flat_map (fun r => rows_at path' (spt_children r)) (titled t rows)
  end.

Lemma rows_at_cons t path rows : path <> [] ->
  rows_at (t :: path) rows = flat_map (fun r => rows_at path (spt_children r)) (titled t rows).
Proof. by destruct path. Qed.

(** At most one row at each path. *)
Definition unique_rows (rows : list SPT) : Prop := forall path, (length (rows_at path rows) <= 1)%nat.

Lemma unique_children rows r : unique_rows rows -> r ∈ rows -> unique_rows (spt_children r).
Proof.
  intros HU Hr path. destruct path as [|t path]; [cbn; lia|].
  specialize (HU (spt_title r :: t :: path)). rewrite rows_at_cons in HU by done.
  assert (Hin : r ∈ titled (spt_title r) rows) by (by apply list_elem_of_filter).
  apply list_elem_of_split in Hin as (l1 & l2 & E). rewrite E, flat_map_app in HU. cbn [flat_map] in HU.
  rewrite !length_app in HU. lia.
Qed.

Lemma unique_nil : unique_rows [].
Proof. intros p. destruct p as [|? []]; cbn; lia. Qed.

Section Tables.
Context `{Doubles}.

Lemma new_rows_add dur labels : new_rows dur labels = add_rows dur labels [].
Proof. by destruct labels. Qed.

Definition bump (o : list row_stats) (dur : Z) : list row_stats :=
  match o with s :: _ => [add_slice s dur] | [] => [one_slice dur] end.

Lemma titled_add dur l labels t rows : (length (titled (title l) rows) <= 1)%nat ->
  titled t (add_rows dur (l :: labels) rows) =
  if decide (t = title l)
  then [match titled t rows with
        | Spt l0 s cs :: _ => Spt l0 (add_slice s dur) (add_rows dur labels cs)
        | [] => Spt l (one_slice dur) (add_rows dur labels [])
        end]
  else titled t rows.
Proof.
  unfold titled. induction rows as [|[l0 s cs] rows IH]; intros Hlen; cbn [add_rows].
  - cbn [new_rows]. rewrite filter_cons, filter_nil, new_rows_add. unfold spt_title. cbn [spt_label].
    destruct (decide (t = title l)) as [->|Hne]; [by rewrite decide_True|by rewrite decide_False by congruence].
  - rewrite filter_cons in Hlen. unfold spt_title in *. cbn [spt_label] in *.
    case_bool_decide as E.
    + rewrite decide_True in Hlen by done. cbn [length] in Hlen. rewrite !filter_cons. cbn [spt_label]. rewrite E.
      assert (Hnil : filter (fun r => title (spt_label r) = title l) rows = []) by (apply nil_length_inv; lia).
      destruct (decide (t = title l)) as [->|Hne].
      * rewrite !decide_True by done. rewrite Hnil. done.
      * rewrite !decide_False by congruence. done.
    + rewrite decide_False in Hlen by done. specialize (IH Hlen). rewrite !filter_cons. cbn [spt_label].
      change ((fix go (rows : list SPT) : list SPT := _) rows) with (add_rows dur (l :: labels) rows).
      destruct (decide (t = title l)) as [->|Hne].
      * rewrite !(decide_False (P := title l0 = title l)) by done. rewrite IH. done.
      * destruct (decide (title l0 = t)); [f_equal|]; done.
Qed.

(** The path is a beginning of the titles of some labels, and not empty. *)
Fixpoint along (path : list jsstring) (labels : list label) : bool :=
  match path, labels with
  | t :: path', l :: labels' =>
      bool_decide (t = title l) && match path' with [] => true | _ => along path' labels' end
  | _, _ => false
  end.

(** One more slice: the rows along its labels get it, the others do not change. *)
Lemma rows_at_add dur labels : forall rows path, unique_rows rows ->
  spt_stats <$> rows_at path (add_rows dur labels rows) =
  if along path labels then bump (spt_stats <$> rows_at path rows) dur else spt_stats <$> rows_at path rows.
Proof.
  induction labels as [|l labels IH]; intros rows path HU; [by destruct path|].
  destruct path as [|t path]; [done|]. cbn [along].
  pose proof (titled_add dur l labels t rows (HU [title l])) as HT.
  pose proof (HU [title l]) as Hlen. cbn [rows_at] in Hlen.
  destruct (decide (t = title l)) as [->|Hne]; [rewrite bool_decide_true by done|rewrite bool_decide_false by done]; cbn [andb].
  - destruct path as [|t' path].
    + cbn [rows_at]. rewrite HT. destruct (titled (title l) rows) as [|[l0 s cs] [|r rs]]; cbn in *; [done|done|lia].
    + rewrite !rows_at_cons by done. rewrite HT. cbn [flat_map]. rewrite app_nil_r.
      destruct (titled (title l) rows) as [|[l0 s cs] [|r rs]] eqn:E; cbn [flat_map spt_children length] in *; [| |lia].
      * rewrite IH by apply unique_nil. by destruct path.
      * rewrite app_nil_r. apply IH. apply (unique_children rows (Spt l0 s cs) HU).
        assert (Hin : Spt l0 s cs ∈ titled (title l) rows) by (rewrite E; by left). by apply list_elem_of_filter in Hin as [_ ?].
  - destruct path as [|t' path]; [by cbn [rows_at]; rewrite HT|]. rewrite !rows_at_cons by done. by rewrite HT.
Qed.

Lemma unique_add dur labels rows : unique_rows rows -> unique_rows (add_rows dur labels rows).
Proof.
  intros HU path. rewrite <- (length_fmap spt_stats). rewrite rows_at_add by done. specialize (HU path).
  destruct (along path labels); [unfold bump; destruct (_ <$> _); cbn; lia|by rewrite length_fmap].
Qed.

(** ** The numbers of a row *)

(** The numbers of a row of slices of some lengths. *)
Definition stats_of (durs : list Z) : list row_stats := foldl bump [] durs.

Lemma stats_of_summary d durs : exists s, stats_of (d :: durs) = [s] /\
  count s = zlen (d :: durs) /\ wallDuration s = zsum (d :: durs) /\
  (minDuration s ∈ d :: durs /\ Forall (fun x => minDuration s <= x) (d :: durs)) /\
  (maxDuration s ∈ d :: durs /\ Forall (fun x => x <= maxDuration s) (d :: durs)) /\
  avgDuration s = match durs with
                  | [] => js_toString 10 d
                  | _ => toFixed2 (fdiv (inject_Z (zsum (d :: durs))) (inject_Z (zlen (d :: durs))))
                  end.
Proof.
  induction durs as [|x durs IH] using rev_ind.
  - exists (one_slice d). cbn. split_and!; [done..|lia|by left|repeat constructor; lia|by left|repeat constructor; lia|done].
  - destruct IH as (s & Es & Hc & Hw & (Hm1 & Hm2) & (HM1 & HM2) & _). exists (add_slice s x).
    rewrite app_comm_cons. unfold stats_of in *. rewrite foldl_snoc, Es.
    assert (Ec : zlen ((d :: durs) ++ [x]) = count s + 1) by (rewrite zlen_app, Hc; done).
    assert (Ew : zsum ((d :: durs) ++ [x]) = wallDuration s + x) by (rewrite zsum_app, Hw, zsum_one_elem; done).
    rewrite Ec, Ew. cbn [bump add_slice count wallDuration minDuration maxDuration avgDuration]. split_and!; [done..| | | | |].
    + apply elem_of_app. destruct (Z.min_spec (minDuration s) x) as [[_ ->]|[_ ->]]; [by left|right; by left].
    + apply Forall_app. split; [eapply Forall_impl; [exact Hm2|cbn; lia]|repeat constructor; lia].
    + apply elem_of_app. destruct (Z.max_spec (maxDuration s) x) as [[_ ->]|[_ ->]]; [right; by left|by left].
    + apply Forall_app. split; [eapply Forall_impl; [exact HM2|cbn; lia]|repeat constructor; lia].
    + by destruct durs.
Qed.

(** All slices: the row at a path has the slices whose labels go along it. *)
Lemma rows_at_fold (labels : ThreadSlice -> list label) slices path :
  let rows := foldl (fun rows s => add_rows (ts_dur s) (labels s) rows) [] slices in
  unique_rows rows /\
  spt_stats <$> rows_at path rows = stats_of (ts_dur <$> filter (fun s => Is_true (along path (labels s))) slices).
Proof.
  induction slices as [|s slices IH] using rev_ind; intros rows.
  - split; [apply unique_nil|]. by destruct path as [|? []].
  - subst rows. rewrite foldl_snoc. destruct IH as [HU HE]. split; [by apply unique_add|].
    rewrite rows_at_add by done. rewrite HE, filter_app, filter_cons, filter_nil.
    destruct (along path (labels s)); [rewrite decide_True by done|rewrite decide_False by (intros [])].
    + rewrite fmap_app. unfold stats_of. cbn [fmap list_fmap]. by rewrite foldl_snoc.
    + by rewrite app_nil_r.
Qed.

(** ** The dictionary of the first level *)

Lemma rows_at_perm path rows rows' : rows ≡ₚ rows' -> rows_at path rows ≡ₚ rows_at path rows'.
Proof.
  intros HP. destruct path as [|t [|t' path]]; [done|by cbn; unfold titled; rewrite HP|].
  rewrite !rows_at_cons by done. unfold titled. by rewrite HP.
Qed.

Lemma short_perm {A} (l l' : list A) : (length l <= 1)%nat -> l ≡ₚ l' -> l' = l.
Proof.
  intros Hl HP. destruct l as [|x [|y l]]; cbn in Hl; [by apply Permutation_nil_l in HP|by apply Permutation_singleton_l in HP|lia].
Qed.

Section Dictionary.
Context (prefix : jsstring) (key : ThreadSlice -> jsstring) (labels : ThreadSlice -> list label).
Context (Hlabels : forall s, exists l ls, labels s = l :: ls /\ title l = prefix ++ key s).

(** The entries are titled by their keys. *)
Definition keyed (group : list (jsstring * SPT)) : Prop := Forall (fun '(k, r) => spt_title r = prefix ++ k) group.

Lemma add_group_rows group s : keyed group ->
  keyed (add_group (key s) (ts_dur s) (labels s) group) /\
  (add_group (key s) (ts_dur s) (labels s) group).*2 = add_rows (ts_dur s) (labels s) group.*2.
Proof.
  destruct (Hlabels s) as (l & ls & -> & Ht). unfold add_group. intros HK.
  assert (Hset : forall r, spt_title r = prefix ++ key s -> keyed (map_set group (key s) r)).
  { intros r Hr. induction HK as [|[k0 r0] g Hg HK IH]; cbn [map_set]; [repeat constructor; done|].
    case_decide as E; constructor; [subst k0; done|done|done|done]. }
  destruct (map_get group (key s)) as [[l0 st cs]|] eqn:Hg.
  - assert (Hl0 : title l0 = prefix ++ key s).
    { clear Hset. induction HK as [|[k0 r0] g Hr HK IH]; cbn [map_get] in Hg; [done|].
      case_decide as E; [|by apply IH]. subst k0. apply (inj Some) in Hg as ->. exact Hr. }
    split; [by apply Hset|]. clear Hset. induction HK as [|[k0 [l1 s1 cs1]] g Hr HK IH]; [done|].
    cbn [map_set map_get fmap list_fmap add_rows snd] in *. case_decide as E.
    + subst k0. apply (inj Some) in Hg. injection Hg as -> -> ->. rewrite bool_decide_true by (by rewrite Ht). done.
    + rewrite bool_decide_false; [cbn; f_equal; by apply IH|].
      unfold spt_title in Hr. cbn in Hr. rewrite Hr, Ht. by intros ?%(inj (app prefix)).
  - split; [by apply Hset|]. clear Hset. induction HK as [|[k0 [l1 s1 cs1]] g Hr HK IH]; [done|].
    cbn [map_set map_get fmap list_fmap add_rows snd] in *. case_decide as E; [done|].
    rewrite bool_decide_false; [cbn; f_equal; by apply IH|].
    unfold spt_title in Hr. cbn in Hr. rewrite Hr, Ht. by intros ?%(inj (app prefix)).
Qed.

Lemma group_slices_rows slices :
  keyed (group_slices key labels slices) /\
  (group_slices key labels slices).*2 = foldl (fun rows s => add_rows (ts_dur s) (labels s) rows) [] slices.
Proof.
  unfold group_slices. induction slices as [|s slices [HK HE]] using rev_ind; [split; [constructor|done]|].
  rewrite !foldl_snoc. destruct (add_group_rows _ s HK) as [HK' HE']. split; [done|]. by rewrite HE', HE.
Qed.

Lemma table_rows_at slices path :
  spt_stats <$> rows_at path (Object_values (group_slices key labels slices)) =
  stats_of (ts_dur <$> filter (fun s => Is_true (along path (labels s))) slices).
Proof.
  destruct (group_slices_rows slices) as [_ HE]. destruct (rows_at_fold labels slices path) as [HU HF].
  rewrite <- HF, <- HE in *. f_equal. apply short_perm; [apply HU|].
  apply rows_at_perm. symmetry. apply Object_values_perm.
Qed.
End Dictionary.

(** What a row at a path should be for the slices below it. *)
Definition row_summarises (durs : list Z) (rows : list SPT) : Prop :=
  match durs with
  | [] => rows = []
  | d :: ds => exists r, rows = [r] /\
      count (spt_stats r) = zlen durs /\ wallDuration (spt_stats r) = zsum durs /\
      (minDuration (spt_stats r) ∈ durs /\ Forall (fun x => minDuration (spt_stats r) <= x) durs) /\
      (maxDuration (spt_stats r) ∈ durs /\ Forall (fun x => x <= maxDuration (spt_stats r)) durs) /\
      avgDuration (spt_stats r) =
        match ds with [] => js_toString 10 d | _ => toFixed2 (fdiv (inject_Z (zsum durs)) (inject_Z (zlen durs))) end
  end.

Lemma stats_summarise rows durs : spt_stats <$> rows = stats_of durs -> row_summarises durs rows.
Proof.
  intros E. destruct durs as [|d ds]; cbn [row_summarises]; [by apply fmap_nil_inv in E|].
  destruct (stats_of_summary d ds) as (s & Es & Hs). rewrite Es in E.
  destruct rows as [|r [|]]; try discriminate. exists r. split; [done|]. by injection E as ->.
Qed.

(** C27: The tables of thread states.  In both tables, and for every path of titles,
    there is exactly one row when a slice of the range on the chosen processors has
    these titles on the first levels, and none otherwise; the row counts these slices
    and has their total, shortest, longest and average length. *)
Theorem state_tables_summarise threadSlice leftNs rightNs cpus path :
  let slices := filter (fun s => Is_true (in_range leftNs rightNs cpus s)) threadSlice in
  row_summarises (ts_dur <$> filter (fun s => Is_true (along path (pts_labels s))) slices)
    (rows_at path (getPTSData threadSlice leftNs rightNs cpus)) /\
  row_summarises (ts_dur <$> filter (fun s => Is_true (along path (spt_labels s))) slices)
    (rows_at path (getSPTData threadSlice leftNs rightNs cpus)).
Proof.
  intros slices. split; apply stats_summarise.
  - apply (table_rows_at (js "P-")). intros s. do 2 eexists. split; reflexivity.
  - apply (table_rows_at (js "S-")). intros s. do 2 eexists. split; reflexivity.
Qed.
End Tables.

(** Four slices of two threads on two processors. *)
Definition tx_slices : list ThreadSlice :=
  (fun '(st, d, t0, c, t) =>
     {| ts_state := js st; ts_dur := d; ts_startTs := t0; ts_endTs := t0 + d; ts_cpu := c; ts_tid := Some t; ts_pid := Some 7 |})
    <$> [("R", 3, 0, None, 8); ("Running", 10, 3, Some 0, 8); ("R", 5, 13, None, 8); ("Running", 4, 5, Some 1, 9)]%string.

Example tx_table :
  (fun path => (fun r => (count (spt_stats r), wallDuration (spt_stats r), avgDuration (spt_stats r)))
     <$> rows_at (js <$> path) (@getPTSData exact_doubles tx_slices 0 100 [0])) <$>
    [["P-7"]; ["P-7"; "T-8"; "S-R"]; ["P-7"; "T-9"]]%string =
  [[(3, 18, js "6.00")]; [(2, 8, js "4.00")]; []].
Proof. vm_compute. reflexivity. Qed.
