(* ===== verification/WorkerPool.v ===== *)
(** * Tasks of the logic workers and their answers in pages

    The page gives a task to a logic worker with a handler ([ProcedureThread.queryFunc]
    of [trace/database/Procedure.ts]) that it keeps in the task map of the thread under a
    fresh identifier.  The worker posts its answer in one message, or in pages when it is
    long ([postMessage] of [logic-worker/ProcedureLogicWorkerCommon.ts]); in between it
    may ask for the rows of a query.  For every message the page calls the handler of its
    identifier, and forgets the handler with the last one ([ProcedurePool.sendMessage]).
    The tables append the pages to what they have
    ([component/trace/sheet/file-system/TabPaneFileSystemEvents.ts]).

    Identifiers are random texts in the code; that they differ is a hypothesis here. *)

From S2P Require Import Prelude JsRuntime HeapModel.

(** ** Pages *)

Record Msg (A : Type) := {
  tag : string;
  index : Z;
  isSending : bool;
  data : list A
}.
Arguments tag {A} _.
Arguments index {A} _.
Arguments isSending {A} _.
Arguments data {A} _.

(** A message of the worker: the rows of a query are wanted, or a part of an answer. *)
Inductive event (A : Type) :=
  | Query (id : jsstring) (sql : jsstring)
  | Answer (id : jsstring) (sending : bool) (results : Msg A).
Arguments Query {A} _ _.
Arguments Answer {A} _ _ _.

Section Paging.
Context {A : Type}.

Definition pagination (page pageSize : Z) (source : list A) : list A :=
  let offset := (page - 1) * pageSize in
  if zlen source <=? offset + pageSize then js_slice source offset (zlen source)
  else js_slice source offset (offset + pageSize).

Definition PAGE_SIZE : Z := 500000.

(** [Math.ceil(length / pageSize)] *)
Definition page_count (len pageSize : Z) : Z := (len + pageSize - 1) / pageSize.

Definition page_tag (i pageCount : Z) : string :=
  if i =? 1 then "start"%string else if i =? pageCount then "end"%string else "sending"%string.

(** [postMessage] for a page size other than the constant still cuts the pages by the
    constant. *)
Definition postMessage (id : jsstring) (results : list A) (pageSize : Z) : list (event A) :=
  if pageSize <? zlen results then
    let pageCount := page_count (zlen results) pageSize in
    (fun i =>
       let t := page_tag i pageCount in
       Answer id (negb (bool_decide (t = "end"%string)))
         {| tag := t; index := i; isSending := negb (bool_decide (t = "end"%string)); data := pagination i PAGE_SIZE results |})
      <$> seqZ 1 pageCount
  else
    [Answer id false {| tag := "end"; index := 0; isSending := false; data := results |}].

(** ** The page's side *)

(** A thread of the pool: whether it is busy, and the identifiers with a handler. *)
Record ProcedureThread := { busy : bool; taskMap : list jsstring }.

Definition queryFunc (th : ProcedureThread) (id : jsstring) : ProcedureThread :=
  {| busy := true; taskMap := taskMap th ++ [id] |}.

(** A message from the worker: the thread after it, the call of a handler, and a query
    for the database. *)
Definition sendMessage (th : ProcedureThread) (e : event A) :
    ProcedureThread * option (jsstring * Msg A) * option (jsstring * jsstring) :=
  let th := {| busy := false; taskMap := taskMap th |} in
  match e with
  | Query id sql => (th, None, Some (id, sql))
  | Answer id sending results =>
      if sending && bool_decide (id ∈ taskMap th) then (th, Some (id, results), None)
      else if bool_decide (id ∈ taskMap th)
      then ({| busy := false; taskMap := filter (.≠ id) (taskMap th) |}, Some (id, results), None)
      else (th, None, None)
  end.

(** What happens at the page: a task is given, or a message arrives. *)
Inductive action :=
  | Submit (id : jsstring)
  | Arrive (e : event A).

Definition step (st : ProcedureThread * list (jsstring * Msg A)) (a : action) : ProcedureThread * list (jsstring * Msg A) :=
  let '(th, calls) := st in
  match a with
  | Submit id => (queryFunc th id, calls)
  | Arrive e =>
      let '(th', call, _) := sendMessage th e in
      (th', calls ++ match call with Some c => [c] | None => [] end)
  end.

(** The handler of a table: the rows so far, and how often it has been told the end. *)
Definition receive (st : list A * nat) (res : Msg A) : list A * nat :=
  (st.1 ++ data res, if isSending res then st.2 else S st.2).
End Paging.

Arguments action : clear implicits.

(** ** Pages put together are the answer *)

Section Pages.
Context {A : Type}.
Implicit Types l : list A.

Lemma pagination_slice i size l : 0 < size -> 1 <= i ->
  pagination i size l = take (Z.to_nat size) (drop (Z.to_nat ((i - 1) * size)) l).
Proof.
  intros Hs Hi. unfold pagination, js_slice, rel_index. set (off := (i - 1) * size).
  assert (0 <= off) by (unfold off; nia). pose proof (zlen_nonneg l).
  destruct (Z.leb_spec (zlen l) (off + size)); zcase; try lia; unfold zlen in *.
  - rewrite Z.min_id. destruct (Z.le_ge_cases off (Z.of_nat (length l))).
    + rewrite Z.min_l by lia. rewrite !take_ge by (rewrite length_drop; lia). done.
    + rewrite (drop_ge l (Z.to_nat off)), (drop_ge l) by lia. by rewrite !take_nil.
  - rewrite !Z.min_l by lia. f_equal. lia.
Qed.

Lemma pages_concat size l (n : nat) : 0 < size -> zlen l <= Z.of_nat n * size ->
  concat ((fun i => pagination i size l) <$> seqZ 1 (Z.of_nat n)) = l.
Proof.
  intros Hs. cut (forall m k, (m + k)%nat = n -> zlen l <= Z.of_nat n * size ->
    concat ((fun i => pagination i size l) <$> seqZ (1 + Z.of_nat m) (Z.of_nat k)) = drop (Z.to_nat (Z.of_nat m * size)) l).
  { intros Hc Hl. exact (Hc 0%nat n eq_refl Hl). }
  intros m k. revert m. induction k as [|k IH]; intros m Hm Hl.
  - rewrite seqZ_nil by lia. cbn. rewrite drop_ge; [done|]. unfold zlen in Hl. assert (m = n) by lia. subst m. nia.
  - rewrite seqZ_cons by lia. cbn [fmap list_fmap concat].
    replace (Z.succ (1 + Z.of_nat m)) with (1 + Z.of_nat (S m)) by lia. replace (Z.pred (Z.of_nat (S k))) with (Z.of_nat k) by lia.
    rewrite IH by lia. rewrite pagination_slice by lia.
    replace ((1 + Z.of_nat m - 1) * size) with (Z.of_nat m * size) by lia.
    replace (Z.to_nat (Z.of_nat (S m) * size)) with (Z.to_nat (Z.of_nat m * size) + Z.to_nat size)%nat by nia.
    rewrite <- drop_drop. apply take_drop.
Qed.

Lemma page_count_bounds len size : 0 < size -> size < len ->
  2 <= page_count len size /\ len <= page_count len size * size.
Proof.
  intros Hs Hl. unfold page_count. pose proof (Z_div_mod_eq_full (len + size - 1) size).
  pose proof (Z.mod_pos_bound (len + size - 1) size Hs). nia.
Qed.

(** ** Every interleaving *)

(** The parts of the answer to [id] among some actions. *)
Definition own_events (id : jsstring) (acts : list (action A)) : list (bool * Msg A) :=
  omap (fun a => match a with
                 | Arrive (Answer id' sending m) => if decide (id' = id) then Some (sending, m) else None
                 | _ => None
                 end) acts.

Definition event_parts (evs : list (event A)) : list (bool * Msg A) :=
  omap (fun e => match e with Answer _ sending m => Some (sending, m) | Query _ _ => None end) evs.

(** The messages that the handler of [id] was called with. *)
Definition calls_of (id : jsstring) (calls : list (jsstring * Msg A)) : list (Msg A) :=
  (filter (fun c => c.1 = id) calls).*2.

Lemma calls_of_app id c1 c2 : calls_of id (c1 ++ c2) = calls_of id c1 ++ calls_of id c2.
Proof. unfold calls_of. by rewrite filter_app, fmap_app. Qed.

(** A step that is not about [id]. *)
Lemma step_other id st a : a <> Submit id -> own_events id [a] = [] ->
  (id ∈ taskMap (step st a).1 <-> id ∈ taskMap st.1) /\ calls_of id (step st a).2 = calls_of id st.2.
Proof.
  destruct st as [th calls]. destruct a as [id'|[id' sql|id' sending m]]; cbn [step sendMessage fst snd].
  - intros Hne _. assert (id' <> id) by congruence. cbn. split; [set_solver|done].
  - intros _ _. rewrite app_nil_r. done.
  - intros _ HE. assert (Hne : id' <> id).
    { intros ->. unfold own_events in HE. cbn in HE. by rewrite decide_True in HE. }
    assert (Hcall : calls_of id [(id', m)] = []).
    { unfold calls_of. rewrite filter_cons, filter_nil, decide_False by done. done. }
    cbn [taskMap]. case_bool_decide; rewrite ?andb_true_r, ?andb_false_r.
    + destruct sending; cbn [fst snd taskMap]; rewrite calls_of_app, Hcall, app_nil_r; split; try done.
      rewrite list_elem_of_filter. naive_solver.
    + cbn. rewrite app_nil_r. done.
Qed.

Lemma own_events_cons id a acts : own_events id (a :: acts) = own_events id [a] ++ own_events id acts.
Proof. unfold own_events. change (a :: acts) with ([a] ++ acts). by rewrite omap_app. Qed.

Lemma run_other id acts : forall st, Submit id ∉ acts -> own_events id acts = [] ->
  (id ∈ taskMap (foldl step st acts).1 <-> id ∈ taskMap st.1) /\ calls_of id (foldl step st acts).2 = calls_of id st.2.
Proof.
  induction acts as [|a acts IH]; intros st HS HE; [done|]. rewrite own_events_cons in HE.
  apply app_eq_nil in HE as [HE1 HE2]. destruct (step_other id st a) as [H1 H2]; [set_solver|done|].
  cbn [foldl]. destruct (IH (step st a)) as [H3 H4]; [set_solver|done|]. rewrite H3, H4. done.
Qed.

(** The parts [ms] and the final part [m], under any interleaving. *)
Lemma run_parts id acts : forall st ms m,
  Submit id ∉ acts -> id ∈ taskMap st.1 -> own_events id acts = ((fun m => (true, m)) <$> ms) ++ [(false, m)] ->
  id ∉ taskMap (foldl step st acts).1 /\ calls_of id (foldl step st acts).2 = calls_of id st.2 ++ ms ++ [m].
Proof.
  induction acts as [|a acts IH]; intros st ms m HS Hin HE; [by destruct ms|].
  cbn [foldl]. rewrite own_events_cons in HE. destruct (own_events id [a]) as [|p ps] eqn:Ea.
  - destruct (step_other id st a) as [H1 H2]; [set_solver|done|].
    rewrite <- H2. apply IH; [set_solver|by apply H1|done].
  - destruct a as [id'|[id' sql|id' sending m']]; unfold own_events in Ea; cbn in Ea; try done.
    destruct (decide (id' = id)) as [->|]; [|done]. injection Ea as <- <-. cbn [app] in HE.
    assert (Hcall : forall c, calls_of id (c ++ [(id, m')]) = calls_of id c ++ [m']).
    { intros c. rewrite calls_of_app. unfold calls_of at 2. by rewrite filter_cons, filter_nil, decide_True. }
    destruct st as [th calls]. cbn [fst snd step sendMessage taskMap] in *. rewrite bool_decide_true by done.
    destruct ms as [|m1 ms]; cbn [fmap list_fmap app] in HE; injection HE as -> -> HE; cbn [andb fst snd].
    + destruct (run_other id acts ({| busy := false; taskMap := filter (.≠ id) (taskMap th) |}, calls ++ [(id, m)])) as [H1 H2];
        [set_solver|done|].
      cbn [snd] in H2. rewrite H2, Hcall. split; [|done]. rewrite H1. cbn. rewrite list_elem_of_filter. tauto.
    + destruct (IH ({| busy := false; taskMap := taskMap th |}, calls ++ [(id, m1)]) ms m) as [H1 H2]; [set_solver|done|done|].
      split; [done|]. cbn [snd] in H2. by rewrite H2, Hcall, <- app_assoc.
Qed.

Lemma omap_after_fmap {X Y W} (f : Y -> option W) (g : X -> Y) (l : list X) : omap f (g <$> l) = omap (fun x => f (g x)) l.
Proof. induction l as [|x l IH]; [done|]. cbn. destruct (f (g x)); [f_equal|]; apply IH. Qed.

Lemma omap_all_Some {X Y} (f : X -> option Y) (g : X -> Y) (l : list X) :
  (forall x, x ∈ l -> f x = Some (g x)) -> omap f l = g <$> l.
Proof.
  induction l as [|x l IH]; intros Hf; [done|]. cbn. rewrite (Hf x) by set_solver. cbn. f_equal. apply IH. set_solver.
Qed.

(** The parts of an answer: all but the last say that more follows. *)
Lemma postMessage_parts id (results : list A) : exists ms m,
  event_parts (postMessage id results PAGE_SIZE) = ((fun m => (true, m)) <$> ms) ++ [(false, m)] /\
  Forall (fun m => isSending m = true) ms /\ isSending m = false /\ concat (data <$> ms) ++ data m = results.
Proof.
  unfold postMessage. destruct (Z.ltb_spec PAGE_SIZE (zlen results)) as [Hlong|].
  - destruct (page_count_bounds (zlen results) PAGE_SIZE ltac:(unfold PAGE_SIZE; lia) Hlong) as [H2 Hcover].
    set (n := page_count (zlen results) PAGE_SIZE) in *.
    set (page i := {| tag := page_tag i n; index := i; isSending := negb (bool_decide (page_tag i n = "end"%string));
                      data := pagination i PAGE_SIZE results |}).
    assert (Htag : forall i, 1 <= i <= n -> negb (bool_decide (page_tag i n = "end"%string)) = negb (i =? n)).
    { intros i Hi. unfold page_tag. zcase; try lia; done. }
    assert (Eseq : seqZ 1 n = seqZ 1 (n - 1) ++ [n]).
    { transitivity (seqZ 1 ((n - 1) + 1)); [f_equal; lia|]. rewrite seqZ_app by lia. f_equal.
      rewrite seqZ_cons by lia. rewrite seqZ_nil by lia. f_equal. lia. }
    exists (page <$> seqZ 1 (n - 1)), (page n). split_and!.
    + unfold event_parts. rewrite omap_after_fmap, Eseq, omap_app. f_equal.
      * rewrite <- list_fmap_compose. apply omap_all_Some. intros i Hi%elem_of_seqZ. unfold page. cbn. rewrite Htag by lia.
        destruct (Z.eqb_spec i n); [lia|done].
      * unfold page. cbn. rewrite Htag by lia. by rewrite Z.eqb_refl.
    + apply Forall_fmap, Forall_forall. intros i Hi%elem_of_seqZ. cbn. rewrite Htag by lia. zcase; [lia|done].
    + cbn. rewrite Htag by lia. by rewrite Z.eqb_refl.
    + transitivity (concat ((fun i => pagination i PAGE_SIZE results) <$> seqZ 1 n)).
      * rewrite Eseq, fmap_app, concat_app, <- list_fmap_compose. cbn. by rewrite app_nil_r.
      * replace n with (Z.of_nat (Z.to_nat n)) by lia. apply pages_concat; [done|]. lia.
  - exists [], {| tag := "end"; index := 0; isSending := false; data := results |}. split_and!; done.
Qed.
End Pages.

Section Delivery.
Context {A : Type}.

Lemma receive_parts (ms : list (Msg A)) : forall l n, Forall (fun m => isSending m = true) ms ->
  foldl receive (l, n) ms = (l ++ concat (data <$> ms), n).
Proof.
  induction ms as [|m ms IH]; intros l n HF; [cbn; by rewrite app_nil_r|].
  apply Forall_cons in HF as [Hm HF]. cbn [foldl receive fst snd fmap list_fmap concat]. unfold receive at 2. cbn [fst snd].
  rewrite Hm, IH by done. by rewrite <- app_assoc.
Qed.

(** C26: A task gets its whole answer, once.  However the task's own messages are mixed
    with other tasks, queries and answers, when the worker answers the task with some
    results, in one message or in pages, the handler puts exactly these results
    together, in order, is told the end exactly once, and is forgotten afterwards. *)
Theorem task_gets_answer (th : ProcedureThread) id before after (results : list A)
    (Hfresh : id ∉ taskMap th) (Hbefore : Submit id ∉ before /\ own_events id before = [])
    (Honce : Submit id ∉ after)
    (Hanswer : own_events id after = event_parts (postMessage id results PAGE_SIZE)) :
  let '(th', calls) := foldl step (th, []) (before ++ Submit id :: after) in
  foldl receive ([], 0%nat) (calls_of id calls) = (results, 1%nat) /\ id ∉ taskMap th'.
Proof.
  rewrite foldl_app. cbn [foldl]. destruct Hbefore as [Hb1 Hb2].
  destruct (run_other id before (th, []) Hb1 Hb2) as [Hm0 Hc0]. set (st0 := foldl step (th, []) before) in *.
  destruct (postMessage_parts id results) as (ms & m & Ep & Hs & He & Hd). rewrite Ep in Hanswer.
  destruct (run_parts id after (step st0 (Submit id)) ms m Honce) as [Hm1 Hc1]; [|done|].
  { destruct st0. cbn. set_solver. }
  destruct (foldl step (step st0 (Submit id)) after) as [th' calls]. cbn [fst snd] in *. split; [|done].
  rewrite Hc1. assert (E0 : calls_of id (step st0 (Submit id)).2 = []) by (destruct st0; cbn in *; by rewrite Hc0).
  rewrite E0. cbn [app]. rewrite foldl_snoc, receive_parts by done. unfold receive. cbn [fst snd].
  rewrite He. cbn [app]. by rewrite Hd.
Qed.
End Delivery.

(** Two tasks whose messages cross, with a query in between. *)
Definition px_msg (l : list Z) : Msg Z := {| tag := "end"; index := 0; isSending := false; data := l |}.

Lemma task_gets_answer_witness :
  let '(th', calls) := foldl step ({| busy := false; taskMap := [] |}, [])
      ([Submit (js "b")] ++ Submit (js "a") ::
       [Arrive (Query (js "a") (js "select")); Arrive (Answer (js "b") false (px_msg [9]));
        Arrive (Answer (js "a") false (px_msg [1; 2]))]) in
  foldl receive ([], 0%nat) (calls_of (js "a") calls) = ([1; 2], 1%nat) /\ js "a" ∉ taskMap th'.
Proof.
  apply (task_gets_answer {| busy := false; taskMap := [] |} (js "a") [Submit (js "b")]).
  - apply not_elem_of_nil.
  - split; [|reflexivity]. intros [Heq|Hin]%elem_of_cons; [discriminate Heq|by apply not_elem_of_nil in Hin].
  - intros Hin. repeat (apply elem_of_cons in Hin as [Heq|Hin]; [discriminate Heq|]). by apply not_elem_of_nil in Hin.
  - reflexivity.
Defined.
