(* ===== verification/FileEvents.v ===== *)
(** * Events, stacks and the analysis of the file system worker

    The rest of [ProcedureLogicWorkerFileSystem]
    ([trace/database/logic-worker/ProcedureLogicWorkerFileSystem.ts]) beside its call
    tree: the call chains by their identifiers, the texts that complete the rows of the
    three event tables, the stacks of one event, and the analysis that attributes every
    sample to a library and a function.  The texts of times and sizes are those of
    [ProcedureLogicWorkerCommon.ts].  The dictionary of names is a parameter, filled by a
    query. *)

From Stdlib Require Import QArith Qround.
From S2P Require Import Prelude JsRuntime HeapModel SwimFilter StateTable FileCallTree.
Open Scope Z_scope.

(** ** Texts of times and sizes *)

Definition hour1 : Z := 3600000000000.
Definition minute1 : Z := 60000000000.
Definition second1 : Z := 1000000000.
Definition millisecond1 : Z := 1000000.
Definition microsecond1 : Z := 1000.

(** The Greek letter of the micro sign. *)
Definition mu : jsstring := [956].

(** One unit: the text so far and the rest of the time. *)
Definition time_unit (unit : Z) (name : jsstring) (st : jsstring * Z) : jsstring * Z :=
  let '(res, currentNs) := st in
  if unit <=? currentNs
  then (res ++ js_toString 10 (currentNs / unit) ++ name, currentNs - currentNs / unit * unit)
  else (res, currentNs).

(** The minutes subtract the minutes of the whole time. *)
Definition time_minutes (ns : Z) (st : jsstring * Z) : jsstring * Z :=
  let '(res, currentNs) := st in
  if minute1 <=? currentNs
  then (res ++ js_toString 10 (currentNs / minute1) ++ js "m ", currentNs - ns / minute1 * minute1)
  else (res, currentNs).

Definition getTimeString (ns : Z) : jsstring :=
  let st := time_unit hour1 (js "h ") ([], ns) in
  let st := time_minutes ns st in
  let st := time_unit second1 (js "s ") st in
  let st := time_unit millisecond1 (js "ms ") st in
  let '(res, currentNs) := time_unit microsecond1 (mu ++ js "s ") st in
  let res := if 0 <? currentNs then res ++ js_toString 10 currentNs ++ js "ns " else res in
  if bool_decide (res = []) then js_toString 10 ns else res.

Section Texts.
Context `{Doubles}.

Definition quotient_text (n d : Z) : jsstring := toFixed2 (fdiv (inject_Z n) (inject_Z d)).

Definition getProbablyTime (ns : Z) : jsstring :=
  if hour1 <=? ns then quotient_text ns hour1 ++ js "h "
  else if minute1 <=? ns then quotient_text ns minute1 ++ js "m "
  else if second1 <=? ns then quotient_text ns second1 ++ js "s "
  else if millisecond1 <=? ns then quotient_text ns millisecond1 ++ js "ms "
  else if microsecond1 <=? ns then quotient_text ns microsecond1 ++ mu ++ js "s "
  else if 0 <? ns then js_toString 10 ns ++ js "ns "
  else js_toString 10 ns.

Definition bytes_text (bytes : Z) : jsstring :=
  let kb1 := 2 ^ 10 in let mb := 2 ^ 20 in let gb := 2 ^ 30 in
  if gb <? bytes then quotient_text bytes gb ++ js " GB"
  else if mb <? bytes then quotient_text bytes mb ++ js " MB"
  else if kb1 <? bytes then quotient_text bytes kb1 ++ js " KB"
  else js_toString 10 bytes ++ js " byte".

Definition getByteWithUnit (bytes : Z) : jsstring :=
  if bytes <? 0 then js "-" ++ bytes_text (- bytes) else bytes_text bytes.
End Texts.

(** ** Call chains *)

Notation chains := (gmap Z (list FileCallChain)).

Definition push_chain (m : chains) (c : FileCallChain) : chains :=
  match m !! fc_callChainId c with
  | Some l => <[fc_callChainId c := l ++ [c]]> m
  | None => <[fc_callChainId c := [c]]> m
  end.

Definition initCallChainTopDown (rows : list FileCallChain) (m : chains) : chains := foldl push_chain m rows.

Section Events.
Context (dataDict : gmap Z jsstring) (eBpfCallChainsMap : chains).

Definition symbol_name (s : option Z) : option jsstring := s ≫= fun k => dataDict !! k.

(** [s.symbolsId === null ? s.ip : dataDict.get(s.symbolsId) ?? ''] *)
Definition frame_symbol (f : FileCallChain) : jsstring :=
  match fc_symbolsId f with None => fc_ip f | Some k => default [] (dataDict !! k) end.

Definition chain_of (id : Z) : list FileCallChain := default [] (eBpfCallChainsMap !! id).

Record Stack := { st_type : Z; st_symbol : jsstring; st_path : jsstring }.

(** [path.split('/').reverse()[0]] *)
Definition last_segment (path : jsstring) : jsstring := default [] (last (js_split path (js "/"))).

Definition getStacksByCallchainId (id : Z) : list Stack :=
  (fun s =>
     let path := last_segment (default (js "Unknown Path") (dataDict !! fc_pathId s)) in
     {| st_type := if endsWith path (js ".so.1") || endsWith path (js ".dll") || endsWith path (js ".so") then 0 else 1;
        st_symbol := frame_symbol s ++ js " (" ++ path ++ js ")";
        st_path := path |}) <$> chain_of id.

(** ** The rows of the event tables

    A record has the columns that the worker reads or writes; the others pass unchanged. *)

Record FileSysEvent := {
  fe_callchainId : Z;
  fe_startTs : Z;
  fe_startTsStr : jsstring;
  fe_dur : Z;
  fe_durStr : jsstring;
  fe_type : Z;
  fe_typeStr : jsstring;
  fe_args : list (option jsstring);
  fe_fileId : Z;
  fe_depth : Z;
  fe_symbol : jsstring;
  fe_path : jsstring;
  fe_backtrace : list jsstring
}.

Context `{Doubles}.

Definition other_frames (n : Z) : jsstring := js "(" ++ js_toString 10 n ++ js " other frames)".

(** [firstArg] .. [fourthArg], [returnValue] and [error] are the six arguments. *)
Definition supplementFileSysEvent (tab : jsstring) (r : FileSysEvent) : FileSysEvent :=
  let stacks := chain_of (fe_callchainId r) in
  let events := bool_decide (tab = js "events") in
  let path := default (js "-") (dataDict !! fe_fileId r) in
  {| fe_callchainId := fe_callchainId r; fe_startTs := fe_startTs r; fe_startTsStr := getTimeString (fe_startTs r);
     fe_dur := fe_dur r; fe_durStr := getProbablyTime (fe_dur r); fe_type := fe_type r;
     fe_typeStr := js (default ""%string (map_get FILE_TYPE_MAP (fe_type r)));
     fe_args := if events then (fun a => Some (default (js "0x0") a)) <$> fe_args r else fe_args r;
     fe_fileId := fe_fileId r;
     fe_depth := zlen stacks;
     fe_symbol := match stacks with f :: _ => frame_symbol f | [] => [] end;
     fe_path := match stacks with _ :: _ => path | [] => [] end;
     fe_backtrace := match stacks with f :: _ => [frame_symbol f; other_frames (zlen stacks)] | [] => [] end |}.

Definition supplementFileSysEvents (res : list FileSysEvent) (tab : jsstring) : list FileSysEvent :=
  supplementFileSysEvent tab <$> res.

Record VirtualMemoryEvent := {
  ve_startTs : Z;
  ve_startTsStr : jsstring;
  ve_dur : Z;
  ve_durStr : jsstring;
  ve_size : Z;
  ve_sizeStr : jsstring;
  ve_type : Z;
  ve_operation : jsstring
}.

Definition supplementVMEvents (res : list VirtualMemoryEvent) : list VirtualMemoryEvent :=
  (fun e =>
     {| ve_startTs := ve_startTs e; ve_startTsStr := getTimeString (ve_startTs e); ve_dur := ve_dur e;
        ve_durStr := getProbablyTime (ve_dur e); ve_size := ve_size e; ve_sizeStr := getByteWithUnit (ve_size e * 4096);
        ve_type := ve_type e; ve_operation := js (default "UNKNOWNN"%string (map_get VM_TYPE_MAP (ve_type e))) |}) <$> res.

Record IoCompletionTimes := {
  ie_callchainId : Z;
  ie_startTs : Z;
  ie_startTsStr : jsstring;
  ie_dur : Z;
  ie_durStr : jsstring;
  ie_durPer4k : Z;
  ie_durPer4kStr : jsstring;
  ie_size : Z;
  ie_sizeStr : jsstring;
  ie_pathId : Z;
  ie_path : jsstring;
  ie_type : Z;
  ie_operation : jsstring;
  ie_backtrace : list jsstring
}.

(** A path number of zero has no path. *)
Definition supplementIoEvents (res : list IoCompletionTimes) : list IoCompletionTimes :=
  (fun e =>
     let stacks := chain_of (ie_callchainId e) in
     {| ie_callchainId := ie_callchainId e; ie_startTs := ie_startTs e; ie_startTsStr := getTimeString (ie_startTs e);
        ie_dur := ie_dur e; ie_durStr := getProbablyTime (ie_dur e); ie_durPer4k := ie_durPer4k e;
        ie_durPer4kStr := if ie_durPer4k e =? 0 then js "-" else getProbablyTime (ie_durPer4k e);
        ie_size := ie_size e; ie_sizeStr := getByteWithUnit (ie_size e); ie_pathId := ie_pathId e;
        ie_path := if ie_pathId e =? 0 then js "-" else default (js "-") (dataDict !! ie_pathId e);
        ie_type := ie_type e; ie_operation := js (default "UNKNOWN"%string (map_get DISKIO_TYPE_MAP (ie_type e)));
        ie_backtrace := match stacks with f :: _ => [frame_symbol f; other_frames (zlen stacks)] | [] => [] end |}) <$> res.

(** ** The analysis by library and function *)

Definition FS_TYPE : Z := 0.
Definition PF_TYPE : Z := 1.
Definition BIO_TYPE : Z := 2.

Record FileAnalysisSample := {
  as_sample : FileSample;
  as_libId : Z;
  as_symbolId : option Z;
  as_libName : jsstring;
  as_symbolName : jsstring
}.

(** The constructor copies every field of the sample but the time. *)
Definition new_sample (s : FileSample) : FileSample :=
  {| fs_type := fs_type s; fs_callChainId := fs_callChainId s; fs_dur := fs_dur s; fs_pid := fs_pid s; fs_tid := fs_tid s;
     fs_threadName := fs_threadName s; fs_processName := fs_processName s; fs_ts := 0 |}.

(** Frames of the kernel's block layer, or of the C and C++ libraries. *)
Definition skipped (type : Z) (f : FileCallChain) : bool :=
  if type =? BIO_TYPE then match symbol_name (fc_symbolsId f) with Some s => includes s (js "submit_bio") | None => false end
  else match dataDict !! fc_pathId f with Some p => includes p (js "musl") || includes p (js "libc++") | None => false end.

(** The loop from the last frame down, with [depth] frames to go. *)
Fixpoint last_frame (type : Z) (chain : list FileCallChain) (depth : nat) : option FileCallChain :=
  match depth with
  | O => None
  | S depth' =>
      match chain !! depth' with
      | Some f => if skipped type f then last_frame type chain depth' else Some f
      | None => None
      end
  end.

Definition setAnalysisSample (s : FileSample) (lastCallChain : option FileCallChain) (chain : list FileCallChain) :
    option FileAnalysisSample :=
  f ← match lastCallChain with Some f => Some f | None => last chain end;
  let libName := last_segment (default [] (dataDict !! fc_pathId f)) in
  Some {| as_sample := new_sample s; as_libId := fc_pathId f; as_symbolId := fc_symbolsId f; as_libName := libName;
          as_symbolName := or_text (default [] (symbol_name (fc_symbolsId f))) (fc_ip f ++ js " (" ++ libName ++ js ")") |}.

(** The library or the function that the user looks into; a missing property equals no
    identifier. *)
Record analysis_filter := {
  obj_libId : option Z;
  obj_symbolId : option (option Z)
}.

Definition analysis_matches (obj : option analysis_filter) (a : FileAnalysisSample) : bool :=
  match obj with
  | None => true
  | Some o => bool_decide (obj_libId o = Some (as_libId a)) || bool_decide (obj_symbolId o = Some (as_symbolId a))
  end.

Definition analyse (type : Z) (s : FileSample) : option FileAnalysisSample :=
  let callChainList := chain_of (fs_callChainId s) in
  if bool_decide (callChainList = []) then None
  else setAnalysisSample s (last_frame type callChainList (length callChainList)) callChainList.

Definition fileSystemAnalysis (type : Z) (samplesList : list FileSample) (obj : option analysis_filter) :
    list FileAnalysisSample :=
  omap (fun s => a ← analyse type s; if analysis_matches obj a then Some a else None) samplesList.
End Events.

(** ** The text of a time *)

(** A text of numbers and units. *)
Definition parts_text (parts : list (Z * jsstring)) : jsstring :=
  concat ((fun '(n, name) => js_toString 10 n ++ name) <$> parts).

(** The time that the parts stand for. *)
Definition unit_of (name : jsstring) : Z :=
  if bool_decide (name = js "h ") then hour1 else if bool_decide (name = js "m ") then minute1
  else if bool_decide (name = js "s ") then second1 else if bool_decide (name = js "ms ") then millisecond1
  else if bool_decide (name = mu ++ js "s ") then microsecond1 else 1.

Definition parts_time (parts : list (Z * jsstring)) : Z := zsum ((fun '(n, name) => n * unit_of name) <$> parts).

(** A state of the conversion: the text shows the parts, and with the rest they are the time. *)
Definition shows_time (ns : Z) (st : jsstring * Z) : Prop :=
  exists parts, st.1 = parts_text parts /\ parts_time parts + st.2 = ns /\ Forall (fun '(n, _) => 0 < n) parts.

Lemma shows_add ns res cur n name rest : shows_time ns (res, cur) -> 0 < n -> cur = n * unit_of name + rest ->
  shows_time ns (res ++ js_toString 10 n ++ name, rest).
Proof.
  intros (parts & Ht & Hs & HF) Hn Hc. cbn [fst snd] in *. exists (parts ++ [(n, name)]). cbn [fst snd].
  unfold parts_text, parts_time in *. rewrite !fmap_app, concat_app, zsum_app. cbn [fmap list_fmap concat]. rewrite zsum_one_elem, app_nil_r.
  split; [by rewrite Ht|]. split; [lia|]. apply Forall_app. split; [done|by repeat constructor].
Qed.

Lemma time_unit_shows ns unit name st : 0 < unit -> unit_of name = unit -> 0 <= st.2 -> shows_time ns st ->
  shows_time ns (time_unit unit name st) /\ 0 <= (time_unit unit name st).2 < unit.
Proof.
  destruct st as [res cur]. intros Hu Hn H0 Hs. unfold time_unit. cbn [fst snd] in *.
  destruct (Z.leb_spec unit cur); [|done]. pose proof (Z_div_mod_eq_full cur unit). pose proof (Z.mod_pos_bound cur unit Hu).
  split; [|cbn; lia]. eapply shows_add; [exact Hs|apply Z.div_str_pos; lia|rewrite Hn; lia].
Qed.

Lemma time_below_hour ns st : 0 <= ns < hour1 -> st = ([], ns) -> time_minutes ns st = time_unit minute1 (js "m ") st.
Proof. intros _ ->. reflexivity. Qed.

(** The steps after the minutes. *)
Definition time_tail (st : jsstring * Z) : jsstring * Z :=
  time_unit microsecond1 (mu ++ js "s ") (time_unit millisecond1 (js "ms ") (time_unit second1 (js "s ") st)).

Lemma getTimeString_tail ns : getTimeString ns =
  let '(res, currentNs) := time_tail (time_minutes ns (time_unit hour1 (js "h ") ([], ns))) in
  let res := if 0 <? currentNs then res ++ js_toString 10 currentNs ++ js "ns " else res in
  if bool_decide (res = []) then js_toString 10 ns else res.
Proof. reflexivity. Qed.

Lemma toString_not_nil n : js_toString 10 n <> [].
Proof.
  intros E. destruct (Z.lt_ge_cases n 0) as [Hn|Hn].
  - unfold js_toString in E. destruct (Z.ltb_spec n 0); [done|lia].
  - pose proof (js_toString_nonneg n Hn) as H. rewrite E in H. done.
Qed.

(** The text of a time below one hour.  It is a sequence of positive numbers with
    their units, and these add up to the time. *)
Theorem time_text_adds_up ns (Hns : 0 < ns < hour1) :
  exists parts, getTimeString ns = parts_text parts /\ parts_time parts = ns /\ Forall (fun '(n, _) => 0 < n) parts.
Proof.
  rewrite getTimeString_tail. assert (E : time_unit hour1 (js "h ") ([], ns) = ([], ns)).
  { unfold time_unit. destruct (Z.leb_spec hour1 ns); [lia|done]. }
  rewrite E, (time_below_hour ns ([], ns)) by (done || lia).
  assert (H0 : shows_time ns ([], ns)) by (exists []; cbn; split_and!; [done|lia|constructor]).
  destruct (time_unit_shows ns minute1 (js "m ") ([], ns)) as [H1 L1]; [done|done|cbn; lia|done|].
  apply (time_unit_shows ns second1 (js "s ")) in H1 as [H2 L2]; [|done|done|lia].
  apply (time_unit_shows ns millisecond1 (js "ms ")) in H2 as [H3 L3]; [|done|done|lia].
  apply (time_unit_shows ns microsecond1 (mu ++ js "s ")) in H3 as [H4 L4]; [|done|done|lia].
  unfold time_tail. destruct (time_unit microsecond1 _ _) as [res cur]. cbn [fst snd] in *.
  assert (HR : exists parts, (if 0 <? cur then res ++ js_toString 10 cur ++ js "ns " else res) = parts_text parts /\
    parts_time parts = ns /\ Forall (fun '(n, _) => 0 < n) parts).
  { destruct (Z.ltb_spec 0 cur).
    - destruct (shows_add ns res cur cur (js "ns ") 0 H4) as (parts & Ht & Hs & HF); [done|change (unit_of (js "ns ")) with 1; lia|].
      exists parts. cbn in *. split_and!; [done|lia|done].
    - destruct H4 as (parts & Ht & Hs & HF). exists parts. cbn in *. split_and!; [done|lia|done]. }
  destruct HR as (parts & -> & Hs & HF). exists parts. rewrite bool_decide_false; [done|].
  destruct parts as [|[n name] parts]; [cbn in Hs; lia|]. unfold parts_text. cbn.
  intros [[E0 _]%app_eq_nil _]%app_eq_nil. by apply toString_not_nil in E0.
Qed.

Lemma time_text_adds_up_witness :
  exists parts, getTimeString 61000002003 = parts_text parts /\ parts_time parts = 61000002003 /\
    Forall (fun '(n, _) => 0 < n) parts.
Proof. apply (time_text_adds_up 61000002003). unfold hour1. lia. Defined.

(** Of a time of an hour or more, whose rest is a minute or more, everything below the
    minutes is lost. *)
Lemma time_text_loses ns : hour1 <= ns -> minute1 <= ns mod hour1 ->
  getTimeString ns = js_toString 10 (ns / hour1) ++ js "h " ++ js_toString 10 (ns mod hour1 / minute1) ++ js "m ".
Proof.
  intros Hh Hm. rewrite getTimeString_tail. pose proof (Z_div_mod_eq_full ns hour1) as Eh.
  pose proof (Z.mod_pos_bound ns hour1 ltac:(done)) as Bh.
  assert (E1 : time_unit hour1 (js "h ") ([], ns) = (js_toString 10 (ns / hour1) ++ js "h ", ns mod hour1)).
  { unfold time_unit. destruct (Z.leb_spec hour1 ns); [|lia]. f_equal. lia. }
  rewrite E1. unfold time_minutes. destruct (Z.leb_spec minute1 (ns mod hour1)); [|lia].
  assert (Hneg : ns mod hour1 - ns / minute1 * minute1 < 0).
  { assert (60 <= ns / minute1) by (apply Z.div_le_lower_bound; unfold minute1, hour1 in *; lia).
    pose proof (Z_div_mod_eq_full ns minute1). pose proof (Z.mod_pos_bound ns minute1 ltac:(done)).
    assert (1 <= ns / hour1) by (apply Z.div_le_lower_bound; [done|lia]). unfold hour1, minute1 in *. lia. }
  set (cur := ns mod hour1 - _) in *. unfold time_tail, time_unit.
  destruct (Z.leb_spec second1 cur); [unfold second1 in *; lia|].
  destruct (Z.leb_spec millisecond1 cur); [unfold millisecond1 in *; lia|].
  destruct (Z.leb_spec microsecond1 cur); [unfold microsecond1 in *; lia|].
  destruct (Z.ltb_spec 0 cur); [lia|]. rewrite bool_decide_false; [by rewrite <- app_assoc|].
  intros [[E0 _]%app_eq_nil _]%app_eq_nil. by apply toString_not_nil in E0.
Qed.

Example time_text_hour : getTimeString 3661000000000 = js "1h 1m ".
Proof. vm_compute. reflexivity. Qed.

(** ** Call chains by their identifiers *)

Lemma initCallChainTopDown_lookup rows m id :
  initCallChainTopDown rows m !! id =
  match filter (fun c => fc_callChainId c = id) rows with
  | [] => m !! id
  | own => Some (default [] (m !! id) ++ own)
  end.
Proof.
  unfold initCallChainTopDown. induction rows as [|c rows IH] using rev_ind; [done|].
  rewrite foldl_snoc, filter_app, filter_cons, filter_nil. set (m' := foldl push_chain m rows) in *.
  unfold push_chain. destruct (decide (fc_callChainId c = id)) as [Hc|Hc].
  - rewrite Hc. destruct (m' !! id) as [l|] eqn:E; rewrite lookup_insert_eq.
    + destruct (filter _ rows) as [|x xs]; cbn in *; [by rewrite <- IH|].
      injection IH as ->. by rewrite <- app_assoc.
    + destruct (filter _ rows) as [|x xs]; cbn in *; [by rewrite <- IH|discriminate].
  - rewrite app_nil_r, <- IH. destruct (m' !! fc_callChainId c); by rewrite lookup_insert_ne.
Qed.

(** ** The analysis *)

Section Analysis.
Context (dataDict : gmap Z jsstring) (eBpfCallChainsMap : chains).

Notation frames id := (chain_of eBpfCallChainsMap id).

(** The frame that a sample counts for: the last one that is not skipped, or the last of
    all when every frame is skipped. *)
Definition counts_for (type : Z) (chain : list FileCallChain) (f : FileCallChain) : Prop :=
  (exists k, chain !! k = Some f /\ skipped dataDict type f = false /\
     Forall (fun g => skipped dataDict type g = true) (drop (S k) chain)) \/
  (last chain = Some f /\ Forall (fun g => skipped dataDict type g = true) chain).

Lemma last_frame_spec type chain n : (n <= length chain)%nat ->
  Forall (fun g => skipped dataDict type g = true) (drop n chain) ->
  match last_frame dataDict type chain n with
  | Some f => exists k, chain !! k = Some f /\ skipped dataDict type f = false /\
      Forall (fun g => skipped dataDict type g = true) (drop (S k) chain)
  | None => Forall (fun g => skipped dataDict type g = true) chain
  end.
Proof.
  induction n as [|n IH]; intros Hn HF; [done|]. cbn [last_frame].
  destruct (chain !! n) as [f|] eqn:E; [|apply lookup_ge_None in E; lia].
  destruct (skipped dataDict type f) eqn:Es; [|by exists n]. apply IH; [lia|].
  rewrite (drop_S _ _ _ E). by constructor.
Qed.

Lemma analyse_spec type s :
  match analyse dataDict eBpfCallChainsMap type s with
  | None => frames (fs_callChainId s) = []
  | Some a => exists f, counts_for type (frames (fs_callChainId s)) f /\
      as_libId a = fc_pathId f /\ as_symbolId a = fc_symbolsId f /\ as_sample a = new_sample s
  end.
Proof.
  unfold analyse. set (chain := frames (fs_callChainId s)). case_bool_decide as E; [done|].
  pose proof (last_frame_spec type chain (length chain) ltac:(lia)) as HL. rewrite drop_all in HL. specialize (HL ltac:(done)).
  unfold setAnalysisSample. destruct (last_frame dataDict type chain (length chain)) as [f|]; cbn.
  - exists f. split_and!; [by left|done..].
  - destruct (last chain) as [f|] eqn:El; cbn; [exists f; split_and!; [by right|done..]|]. by apply last_None in El.
Qed.

(** The analysis attributes every sample that has a call chain, in the order of the
    samples and with its length, to the library and the function of its last frame that
    is not one of the skipped ones (of the last frame when all are skipped), whatever
    the chain; and looking into a library or a function shows exactly the samples that
    the whole analysis attributes to it. *)
Theorem analysis_attributes type samples obj :
  let all := fileSystemAnalysis dataDict eBpfCallChainsMap type samples None in
  as_sample <$> all = new_sample <$> filter (fun s => frames (fs_callChainId s) <> []) samples /\
  Forall (fun a => exists f, counts_for type (frames (fs_callChainId (as_sample a))) f /\
            as_libId a = fc_pathId f /\ as_symbolId a = fc_symbolsId f) all /\
  fileSystemAnalysis dataDict eBpfCallChainsMap type samples obj = filter (fun a => Is_true (analysis_matches obj a)) all.
Proof.
  intros all. subst all. unfold fileSystemAnalysis. induction samples as [|s samples (IH1 & IH2 & IH3)]; [done|].
  pose proof (analyse_spec type s) as HA. rewrite filter_cons.
  cbn [omap list_omap]. destruct (analyse dataDict eBpfCallChainsMap type s) as [a|] eqn:Ea; cbn [mbind option_bind].
  - destruct HA as (f & Hf & Hl & Hs & Hn).
    assert (Hne : frames (fs_callChainId s) <> []).
    { intros E. unfold analyse in Ea. rewrite bool_decide_true in Ea by done. done. }
    rewrite decide_True by done. cbn [analysis_matches]. split_and!.
    + rewrite !fmap_cons. f_equal; [done|exact IH1].
    + constructor; [|done]. exists f. rewrite Hn. done.
    + rewrite filter_cons. destruct (analysis_matches obj a); [rewrite decide_True by done|rewrite decide_False by (intros [])];
        cbn; [f_equal|]; exact IH3.
  - rewrite decide_False by (intros Hd; by apply Hd). done.
Qed.
End Analysis.
