(* ===== verification/Scheduling.v ===== *)
(** * The scheduling analysis

    [trace/database/logic-worker/ProcedureLogicWorkerSchedulingAnalysis.ts]: the worker
    that computes, from the rows of queries, how long every processor ran at every
    frequency and idle state, which threads ran at a frequency, at which frequencies a
    thread ran, and how threads use the large, middle and small cores; and
    [ProcedureLogicWorkerCpuState.ts], which fills the gaps between the states of a
    processor.

    The rows of a query are a request's argument: the worker asks for them when they
    are missing.  Rows that the worker passes on unchanged have a type of their own.
    An exception in a handler means that no message is posted. *)

From Stdlib Require Import QArith Qround.
From S2P Require Import Prelude JsRuntime HeapModel Grouping SwimFilter StateTable FileEvents.
Open Scope Z_scope.

(** ** Rows *)

(** A row of the table of measures; an unfinished one has no length. *)
Record measure_row := {
  mr_cpu : Z;
  mr_value : Z;
  mr_ts : Z;
  mr_dur : option Z
}.

(** A measure with its time from the start of the recording.  No query of measures has
    the column [block]. *)
Record CpuMeasure := {
  cm_cpu : Z;
  cm_value : Z;
  cm_ts : Z;
  cm_dur : Z
}.

Definition with_dur (m : CpuMeasure) (dur : Z) : CpuMeasure :=
  {| cm_cpu := cm_cpu m; cm_value := cm_value m; cm_ts := cm_ts m; cm_dur := dur |}.

Record FreqThread := {
  ft_tid : Z;
  ft_pid : Z;
  ft_ts : Z;
  ft_dur : Z
}.

(** [irq]: the average is a real number of the database. *)
Record Irq := {
  irq_cpu : Z;
  irq_value : jsstring;
  irq_block : jsstring;
  irq_sum : Z;
  irq_min : Z;
  irq_max : Z;
  irq_avg : Q
}.

(** An average: the only length of a group as a number, or the text of a quotient. *)
Inductive average :=
  | AvgNumber (n : Z)
  | AvgText (hundredths : Z).

(** A group of [filterMap]. *)
Record CpuAnalysis := {
  ca_cpu : Z;
  ca_value : Z;
  ca_sum : Z;
  ca_min : Z;
  ca_max : Z;
  ca_avg : average;
  ca_count : Z
}.

(** A row shown: a group with its texts. *)
Record analysis_row := {
  ar_group : CpuAnalysis;
  ar_sumTimeStr : jsstring;
  ar_min : jsstring;
  ar_max : jsstring;
  ar_avg : jsstring;
  ar_ratio : jsstring
}.

Record irq_row := {
  ir_irq : Irq;
  ir_sumTimeStr : jsstring;
  ir_min : jsstring;
  ir_max : jsstring;
  ir_avg : jsstring;
  ir_ratio : jsstring
}.

(** A thread at one frequency. *)
Record thread_time := {
  tt_tid : Z;
  tt_tName : jsstring;
  tt_pid : Z;
  tt_pName : jsstring;
  tt_dur : Z;
  tt_durStr : jsstring;
  tt_ratio : jsstring
}.

(** A thread's time on the kinds of cores, and on every processor. *)
Record usage_row := {
  ur_pid : Z;
  ur_tid : Z;
  ur_cpu : Z;
  ur_total : Z
}.

Record ThreadCpuUsage := {
  tu_pid : Z;
  tu_pName : jsstring;
  tu_tid : Z;
  tu_tName : jsstring;
  tu_total : Z;
  tu_big : Z;
  tu_mid : Z;
  tu_small : Z;
  tu_cpus : list (Z * Z);
  tu_percents : list jsstring;
  tu_timeStrs : list jsstring
}.

(** A slice of a thread, and one frequency of a thread. *)
Record thread_slice := {
  sl_cpu : Z;
  sl_ts : Z;
  sl_dur : Z
}.

Record freq_part := { fp_cpu : Z; fp_freq : Z; fp_dur : Z }.

Record freq_row := {
  fr_freq : Z;
  fr_cpu : Z;
  fr_time : Z;
  fr_timeStr : jsstring;
  fr_ratio : jsstring;
  fr_totalDur : Z
}.

(** ** The state of the worker *)

Inductive analysis :=
  | Measures (rows : list (Z * list analysis_row))
  | Irqs (rows : list (Z * list irq_row)).

Record scheduling := {
  sc_endTs : Z;
  sc_startTs : Z;
  sc_totalDur : Z;
  sc_cpu : Z;
  sc_freq : Z;
  bigCores : list Z;
  midCores : list Z;
  smallCores : list Z;
  cpuFreqMap : list (Z * list CpuMeasure);
  cpuIdle0Map : list (Z * list CpuMeasure);
  threadMap : list (Z * jsstring);
  processMap : list (Z * jsstring);
  cpuAnalysisMap : list (string * analysis)
}.

Definition scheduling_clearAll (st : scheduling) : scheduling :=
  {| sc_endTs := sc_endTs st; sc_startTs := sc_startTs st; sc_totalDur := sc_totalDur st; sc_cpu := sc_cpu st;
     sc_freq := sc_freq st; bigCores := []; midCores := []; smallCores := []; cpuFreqMap := []; cpuIdle0Map := [];
     threadMap := []; processMap := []; cpuAnalysisMap := [] |}.

Definition set_range (endTs total : Z) (st : scheduling) : scheduling :=
  {| sc_endTs := endTs; sc_startTs := endTs - total; sc_totalDur := total; sc_cpu := sc_cpu st; sc_freq := sc_freq st;
     bigCores := bigCores st; midCores := midCores st; smallCores := smallCores st; cpuFreqMap := cpuFreqMap st;
     cpuIdle0Map := cpuIdle0Map st; threadMap := threadMap st; processMap := processMap st; cpuAnalysisMap := cpuAnalysisMap st |}.

Definition set_choice (cpu freq : Z) (st : scheduling) : scheduling :=
  {| sc_endTs := sc_endTs st; sc_startTs := sc_startTs st; sc_totalDur := sc_totalDur st; sc_cpu := cpu; sc_freq := freq;
     bigCores := bigCores st; midCores := midCores st; smallCores := smallCores st; cpuFreqMap := cpuFreqMap st;
     cpuIdle0Map := cpuIdle0Map st; threadMap := threadMap st; processMap := processMap st; cpuAnalysisMap := cpuAnalysisMap st |}.

Definition set_cores (big mid small : list Z) (st : scheduling) : scheduling :=
  {| sc_endTs := sc_endTs st; sc_startTs := sc_startTs st; sc_totalDur := sc_totalDur st; sc_cpu := sc_cpu st;
     sc_freq := sc_freq st; bigCores := big; midCores := mid; smallCores := small; cpuFreqMap := cpuFreqMap st;
     cpuIdle0Map := cpuIdle0Map st; threadMap := threadMap st; processMap := processMap st; cpuAnalysisMap := cpuAnalysisMap st |}.

Definition set_freqs (m : list (Z * list CpuMeasure)) (st : scheduling) : scheduling :=
  {| sc_endTs := sc_endTs st; sc_startTs := sc_startTs st; sc_totalDur := sc_totalDur st; sc_cpu := sc_cpu st;
     sc_freq := sc_freq st; bigCores := bigCores st; midCores := midCores st; smallCores := smallCores st; cpuFreqMap := m;
     cpuIdle0Map := cpuIdle0Map st; threadMap := threadMap st; processMap := processMap st; cpuAnalysisMap := cpuAnalysisMap st |}.

Definition set_idle0 (m : list (Z * list CpuMeasure)) (st : scheduling) : scheduling :=
  {| sc_endTs := sc_endTs st; sc_startTs := sc_startTs st; sc_totalDur := sc_totalDur st; sc_cpu := sc_cpu st;
     sc_freq := sc_freq st; bigCores := bigCores st; midCores := midCores st; smallCores := smallCores st;
     cpuFreqMap := cpuFreqMap st; cpuIdle0Map := m; threadMap := threadMap st; processMap := processMap st;
     cpuAnalysisMap := cpuAnalysisMap st |}.

Definition set_names (threads processes : list (Z * jsstring)) (st : scheduling) : scheduling :=
  {| sc_endTs := sc_endTs st; sc_startTs := sc_startTs st; sc_totalDur := sc_totalDur st; sc_cpu := sc_cpu st;
     sc_freq := sc_freq st; bigCores := bigCores st; midCores := midCores st; smallCores := smallCores st;
     cpuFreqMap := cpuFreqMap st; cpuIdle0Map := cpuIdle0Map st; threadMap := threads; processMap := processes;
     cpuAnalysisMap := cpuAnalysisMap st |}.

Definition set_analysis (name : string) (a : analysis) (st : scheduling) : scheduling :=
  {| sc_endTs := sc_endTs st; sc_startTs := sc_startTs st; sc_totalDur := sc_totalDur st; sc_cpu := sc_cpu st;
     sc_freq := sc_freq st; bigCores := bigCores st; midCores := midCores st; smallCores := smallCores st;
     cpuFreqMap := cpuFreqMap st; cpuIdle0Map := cpuIdle0Map st; threadMap := threadMap st; processMap := processMap st;
     cpuAnalysisMap := map_set (cpuAnalysisMap st) name a |}.

(** ** Lengths *)

(** [Math.min(a.ts + a.dur, b.ts + b.dur) - Math.max(a.ts, b.ts)] *)
Definition overlap (ts dur ts' dur' : Z) : Z := Z.min (ts + dur) (ts' + dur') - Z.max ts ts'.

(** The time from the start of the recording, and the length of an unfinished row. *)
Definition complete (st : scheduling) (r : measure_row) : CpuMeasure :=
  let ts := mr_ts r - sc_startTs st in
  {| cm_cpu := mr_cpu r; cm_value := mr_value r; cm_ts := ts; cm_dur := default (sc_totalDur st - ts) (mr_dur r) |}.

Definition handleCPUIdle0Map (st : scheduling) (arr : list measure_row) : scheduling :=
  set_idle0 (map_accumulate cm_cpu push_to [] (complete st <$> arr)) st.

(** The loop over the idle slices, which stops behind the end of the measure. *)
Fixpoint idle_within (m : CpuMeasure) (arr : list CpuMeasure) : list CpuMeasure :=
  match arr with
  | [] => []
  | it :: arr' =>
      (if 0 <? overlap (cm_ts m) (cm_dur m) (cm_ts it) (cm_dur it) then [it] else []) ++
      (if cm_ts m + cm_dur m <? cm_ts it then [] else idle_within m arr')
  end.

Definition getEffectiveFrequencyDur (st : scheduling) (m : CpuMeasure) : CpuMeasure :=
  let filterArr := idle_within m (default [] (map_get (cpuIdle0Map st) (cm_cpu m))) in
  with_dur m (foldl (fun dur idle => dur + overlap (cm_ts m) (cm_dur m) (cm_ts idle) (cm_dur idle)) 0 filterArr).

(** The first slice of a processor that starts later is preceded by one without a
    frequency. *)
Definition first_freqs (o : option (list CpuMeasure)) (m : CpuMeasure) : list CpuMeasure :=
  match o with
  | Some l => l ++ [m]
  | None => (if 0 <? cm_ts m then [{| cm_cpu := cm_cpu m; cm_value := -1; cm_ts := 0; cm_dur := cm_ts m |}] else []) ++ [m]
  end.

Definition groupFreqByCpu (st : scheduling) (arr : list measure_row) : scheduling :=
  set_freqs (map_accumulate cm_cpu first_freqs [] (filter (fun m => 0 < cm_dur m) (complete st <$> arr))) st.

Section Worker.
Context `{Doubles} (Number_toString : Q -> jsstring).

(** [((part / whole) * 100).toFixed(2)] *)
Definition ratio_text (part whole : Z) : jsstring :=
  if whole =? 0 then (if part =? 0 then js "NaN" else if 0 <? part then js "Infinity" else js "-Infinity")
  else toFixed2 (fmul (fdiv (inject_Z part) (inject_Z whole)) 100).

(** [getProbablyTime] of a number that may not be whole, or of a text: [small] is what
    [toFixed(0)] gives, which a text does not have, and [plain] the value as a text. *)
Definition probably_time (q : Q) (small : option jsstring) (plain : jsstring) : option jsstring :=
  let part unit name := Some (toFixed2 (fdiv q (inject_Z unit)) ++ name) in
  if Qle_bool (inject_Z hour1) q then part hour1 (js "h ")
  else if Qle_bool (inject_Z minute1) q then part minute1 (js "m ")
  else if Qle_bool (inject_Z second1) q then part second1 (js "s ")
  else if Qle_bool (inject_Z millisecond1) q then part millisecond1 (js "ms ")
  else if Qle_bool (inject_Z microsecond1) q then part microsecond1 (mu ++ js "s ")
  else if negb (Qle_bool q 0) then t ← small; Some (t ++ js "ns ")
  else Some plain.

Definition average_text (a : average) : option jsstring :=
  match a with
  | AvgNumber n => Some (getProbablyTime n)
  | AvgText h => probably_time (fdiv (inject_Z h) 100) None (hundredths_text h)
  end.

(** ** Time per frequency and idle state *)

(** One more slice in a group of [filterMap]. *)
Definition add_measure (o : option CpuAnalysis) (m : CpuMeasure) : CpuAnalysis :=
  match o with
  | Some g =>
      let sum := ca_sum g + cm_dur m in
      let count := ca_count g + 1 in
      {| ca_cpu := ca_cpu g; ca_value := ca_value g; ca_sum := sum;
         ca_min := if ca_min g <? cm_dur m then ca_min g else cm_dur m;
         ca_max := if cm_dur m <? ca_max g then ca_max g else cm_dur m;
         ca_avg := AvgText (hundredths (fdiv (inject_Z sum) (inject_Z count))); ca_count := count |}
  | None =>
      {| ca_cpu := cm_cpu m; ca_value := cm_value m; ca_sum := cm_dur m; ca_min := cm_dur m; ca_max := cm_dur m;
         ca_avg := AvgNumber (cm_dur m); ca_count := 1 |}
  end.

(** [group[value]]: the key is the text of the value. *)
Definition filterMap (l : list CpuMeasure) : list (jsstring * CpuAnalysis) :=
  map_accumulate (fun m => js_toString 10 (cm_value m)) add_measure [] l.

Definition show_group (total : Z) (g : CpuAnalysis) : option analysis_row :=
  avg ← average_text (ca_avg g);
  Some {| ar_group := g; ar_sumTimeStr := getProbablyTime (ca_sum g); ar_min := getProbablyTime (ca_min g);
          ar_max := getProbablyTime (ca_max g); ar_avg := avg;
          ar_ratio := ratio_text (ca_sum g) (if total =? 0 then 1 else total) |}.

Definition setTargetMapValue (cpuArr : list CpuAnalysis) (total : Z) : option (list analysis_row) :=
  mapM (show_group total) cpuArr.

(** The order of the rows: frequencies by time, idle states by their number. *)
Definition row_key (isFreq : bool) (g : CpuAnalysis) : Z := if isFreq then - ca_sum g else ca_value g.

Definition shown_groups (isFreq : bool) (l : list CpuMeasure) : list CpuAnalysis :=
  take 20 (sort_by (row_key isFreq) (Object_values (filterMap l))).

(** The slices of a processor that count. *)
Definition counted (st : scheduling) (isFreq : bool) (arr : list measure_row) : list CpuMeasure :=
  filter (fun m => 0 < cm_dur m)
    ((fun r => let m := complete st r in if isFreq then getEffectiveFrequencyDur st m else m) <$> arr).

Definition add_total (o : option Z) (m : CpuMeasure) : Z := default 0 o + cm_dur m.

Definition computeCpuMeasureDur (st : scheduling) (arr : list measure_row) (isFreq : bool) :
    option (list (Z * list analysis_row)) :=
  let map := map_accumulate cm_cpu push_to [] (counted st isFreq arr) in
  let sumMap := map_accumulate cm_cpu add_total [] (counted st isFreq arr) in
  mapM (fun '(key, l) =>
          rows ← setTargetMapValue (shown_groups isFreq l) (default 0 (map_get sumMap key)); Some (key, rows)) map.

(** ** Interrupts *)

Definition add_irq_total (o : option Z) (i : Irq) : Z := default 0 o + irq_sum i.

Definition show_irq (total : Z) (i : Irq) : option irq_row :=
  avg ← probably_time (irq_avg i) (Some (js_toString 10 (Qfloor (irq_avg i + (1 # 2))))) (Number_toString (irq_avg i));
  Some {| ir_irq := i; ir_sumTimeStr := getProbablyTime (irq_sum i); ir_min := getProbablyTime (irq_min i);
          ir_max := getProbablyTime (irq_max i); ir_avg := avg;
          ir_ratio := ratio_text (irq_sum i) (if total =? 0 then 1 else total) |}.

Definition groupIrgDataByCpu (arr : list Irq) : option (list (Z * list irq_row)) :=
  let map := map_accumulate irq_cpu push_to [] arr in
  let sumMap := map_accumulate irq_cpu add_irq_total [] arr in
  mapM (fun '(key, l) =>
          rows ← mapM (show_irq (default 0 (map_get sumMap key))) (take 20 (sort_by (fun i => - irq_sum i) l)); Some (key, rows)) map.

(** ** Threads at a frequency *)

Definition name_of (m : list (Z * jsstring)) (id : Z) : jsstring :=
  match map_get m id with Some n => if bool_decide (n = []) then js "null" else n | None => js "null" end.

Definition add_thread_time (st : scheduling) (o : option thread_time) (x : FreqThread * Z) : thread_time :=
  let '(tf, dur) := x in
  match o with
  | Some t =>
      {| tt_tid := tt_tid t; tt_tName := tt_tName t; tt_pid := tt_pid t; tt_pName := tt_pName t; tt_dur := tt_dur t + dur;
         tt_durStr := getProbablyTime (tt_dur t + dur); tt_ratio := tt_ratio t |}
  | None =>
      {| tt_tid := ft_tid tf; tt_tName := name_of (threadMap st) (ft_tid tf); tt_pid := ft_pid tf;
         tt_pName := name_of (processMap st) (ft_pid tf); tt_dur := dur; tt_durStr := getProbablyTime dur; tt_ratio := js "0" |}
  end.

(** The slices of threads during one slice of the frequency, with what they share. *)
Definition shared_times (arr : list FreqThread) (it : CpuMeasure) : list (FreqThread * Z) :=
  (fun tf => (tf, overlap (cm_ts it) (cm_dur it) (ft_ts tf) (ft_dur tf))) <$>
    filter (fun f => 0 < overlap (ft_ts f) (ft_dur f) (cm_ts it) (cm_dur it)) arr.

Definition with_ratio (total : Z) (t : thread_time) : thread_time :=
  {| tt_tid := tt_tid t; tt_tName := tt_tName t; tt_pid := tt_pid t; tt_pName := tt_pName t; tt_dur := tt_dur t;
     tt_durStr := tt_durStr t; tt_ratio := ratio_text (tt_dur t) total |}.

Definition chosen_freqs (st : scheduling) : list CpuMeasure :=
  filter (fun it => cm_value it = sc_freq st) (default [] (map_get (cpuFreqMap st) (sc_cpu st))).

Definition handlerFreqThreadData (st : scheduling) (arr : list FreqThread) : list thread_time :=
  let cpuFreqArr := chosen_freqs st in
  let sumFreqDur := zsum (cm_dur <$> cpuFreqArr) in
  let map := map_accumulate (fun x : FreqThread * Z => ft_tid x.1) (add_thread_time st) []
               (concat (shared_times arr <$> cpuFreqArr)) in
  let target := sort_by (fun t => - tt_dur t) map.*2 in
  take 20 (with_ratio sumFreqDur <$> target).

(** ** Threads on the kinds of cores *)

Inductive core := Big | Mid | Small.

#[global] Instance core_eq_dec : EqDecision core.
Proof. solve_decision. Defined.

(** The last kind that lists the processor, or the middle. *)
Definition cpuType (st : scheduling) (cpu : Z) : core :=
  if bool_decide (cpu ∈ smallCores st) then Small
  else if bool_decide (cpu ∈ midCores st) then Mid
  else if bool_decide (cpu ∈ bigCores st) then Big
  else Mid.

Definition on_core (st : scheduling) (c : core) (item : usage_row) : Z :=
  if bool_decide (cpuType st (ur_cpu item) = c) then ur_total item else 0.

Definition add_usage (st : scheduling) (o : option ThreadCpuUsage) (item : usage_row) : ThreadCpuUsage :=
  match o with
  | Some t =>
      {| tu_pid := tu_pid t; tu_pName := tu_pName t; tu_tid := tu_tid t; tu_tName := tu_tName t;
         tu_total := tu_total t + ur_total item; tu_big := tu_big t + on_core st Big item;
         tu_mid := tu_mid t + on_core st Mid item; tu_small := tu_small t + on_core st Small item;
         tu_cpus := map_set (tu_cpus t) (ur_cpu item) (ur_total item); tu_percents := []; tu_timeStrs := [] |}
  | None =>
      {| tu_pid := ur_pid item; tu_pName := name_of (processMap st) (ur_pid item); tu_tid := ur_tid item;
         tu_tName := name_of (threadMap st) (ur_tid item); tu_total := ur_total item; tu_big := on_core st Big item;
         tu_mid := on_core st Mid item; tu_small := on_core st Small item;
         tu_cpus := [(ur_cpu item, ur_total item)]; tu_percents := []; tu_timeStrs := [] |}
  end.

(** The sums of the kinds are parameters of the function: what it adds to them is lost
    when it returns. *)
Definition filterThreadCpuUsageArr (st : scheduling) (arr : list usage_row) (sumBig sumMid sumSmall : Z) :
    list (jsstring * ThreadCpuUsage) :=
  map_accumulate (fun item => js_toString 10 (ur_tid item)) (add_usage st) [] arr.

Definition percent (part sum : Z) : jsstring := if sum =? 0 then js "0" else ratio_text part sum.

Definition with_texts (sumBig sumMid sumSmall : Z) (t : ThreadCpuUsage) : ThreadCpuUsage :=
  {| tu_pid := tu_pid t; tu_pName := tu_pName t; tu_tid := tu_tid t; tu_tName := tu_tName t; tu_total := tu_total t;
     tu_big := tu_big t; tu_mid := tu_mid t; tu_small := tu_small t; tu_cpus := tu_cpus t;
     tu_percents := [percent (tu_big t) sumBig; percent (tu_mid t) sumMid; percent (tu_small t) sumSmall];
     tu_timeStrs := [getProbablyTime (tu_big t); getProbablyTime (tu_mid t); getProbablyTime (tu_small t)] |}.

(** [source] is sorted in place four times, and its beginning copied each time. *)
Definition handlerThreadCpuUsageData (st : scheduling) (arr : list usage_row) : list (string * list ThreadCpuUsage) :=
  let sumBig := 0 in
  let sumMid := 0 in
  let sumSmall := 0 in
  let source := with_texts sumBig sumMid sumSmall <$>
                  Object_values (filterThreadCpuUsageArr st arr sumBig sumMid sumSmall) in
  let source1 := sort_by (fun t => - tu_total t) source in
  let source2 := sort_by (fun t => - tu_big t) source1 in
  let source3 := sort_by (fun t => - tu_mid t) source2 in
  let source4 := sort_by (fun t => - tu_small t) source3 in
  [("total"%string, take 20 source1); ("big"%string, take 20 source2);
   ("mid"%string, take 20 source3); ("small"%string, take 20 source4)].

(** ** Frequencies of a thread *)

Definition touches (it : thread_slice) (f : CpuMeasure) : bool :=
  let itEndTs := sl_ts it + sl_dur it in
  let fEndTs := cm_ts f + cm_dur f in
  ((cm_ts f <=? sl_ts it) && (sl_ts it <=? fEndTs)) ||
  ((sl_ts it <=? cm_ts f) && (fEndTs <=? itEndTs)) ||
  ((cm_ts f <? itEndTs) && (itEndTs <=? fEndTs)).

Definition freqArr (st : scheduling) (it : thread_slice) : list freq_part :=
  (fun tf => {| fp_cpu := sl_cpu it; fp_freq := cm_value tf; fp_dur := overlap (sl_ts it) (sl_dur it) (cm_ts tf) (cm_dur tf) |}) <$>
    filter (fun f => Is_true (touches it f)) (default [] (map_get (cpuFreqMap st) (sl_cpu it))).

(** [`${cpu}-${freq}`] *)
Definition freq_key (fa : freq_part) : jsstring := js_toString 10 (fp_cpu fa) ++ js "-" ++ js_toString 10 (fp_freq fa).

Definition add_freq (sumDur : Z) (o : option freq_row) (fa : freq_part) : freq_row :=
  match o with
  | Some r =>
      let time := fr_time r + fp_dur fa in
      {| fr_freq := fr_freq r; fr_cpu := fr_cpu r; fr_time := time; fr_timeStr := getProbablyTime time;
         fr_ratio := ratio_text time sumDur; fr_totalDur := fr_totalDur r |}
  | None =>
      {| fr_freq := fp_freq fa; fr_cpu := fp_cpu fa; fr_time := fp_dur fa; fr_timeStr := getProbablyTime (fp_dur fa);
         fr_ratio := ratio_text (fp_dur fa) sumDur; fr_totalDur := sumDur |}
  end.

Definition filterThreadFreqData (parts : list (list freq_part)) (sumDur : Z) : list (jsstring * freq_row) :=
  map_accumulate freq_key (add_freq sumDur) [] (concat parts).

Definition handlerThreadFreqData (st : scheduling) (arr : list thread_slice) : list freq_row :=
  let sumDur := zsum (sl_dur <$> arr) in
  sort_by (fun r => - fr_time r) (Object_values (filterThreadFreqData (freqArr st <$> arr) sumDur)).

(** ** Names *)

(** The rows of [getProcessAndThread]: whether a process, the number and the name. *)
Definition handleProcessThread (st : scheduling) (arr : list (bool * Z * jsstring)) : scheduling :=
  let '(threads, processes) :=
    foldl (fun '(threads, processes) '(isProcess, id, name) =>
             if isProcess : bool then (threads, map_set processes id name) else (map_set threads id name, processes)) ([], []) arr in
  set_names threads processes st.

(** ** Requests *)

(** Rows that get the names of their thread and process, and the text of a length. *)
Record named_row := { nr_tid : Z; nr_pid : Z; nr_maxDuration : option Z; nr_names : option (jsstring * jsstring); nr_durStr : option jsstring }.

Definition add_names (st : scheduling) (r : named_row) : named_row :=
  {| nr_tid := nr_tid r; nr_pid := nr_pid r; nr_maxDuration := nr_maxDuration r;
     nr_names := Some (name_of (processMap st) (nr_pid r), name_of (threadMap st) (nr_tid r));
     nr_durStr := getProbablyTime <$> nr_maxDuration r |}.

Context {R : Type}.

Inductive sched_request :=
  | ClearData
  | InitFreqData (rows : option (list measure_row))
  | GetProcessAndThread (rows : option (list (bool * Z * jsstring)))
  | GetCpuIdle0 (rows : option (list measure_row))
  | CpuFrequency (rows : option (list measure_row))
  | CpuFrequencyThread (rows : option (list FreqThread)) (cpu freq : Z)
  | CpuIdle (rows : option (list measure_row))
  | CpuIrq (rows : option (list Irq))
  | UsageOfThreads (rows : option (list usage_row)) (big mid small : list Z)
  | FreqOfThread (rows : option (list thread_slice))
  | RunTimeOfThreads (rows : option (list named_row))
  | SwitchCount (rows : option (list named_row))
  | Relay (rows : option (list R)).

(** What is posted: a query for the rows, or results. *)
Inductive sched_reply :=
  | AskRows
  | Nothing
  | Analysed (a : analysis)
  | ThreadTimes (rows : list thread_time)
  | Usages (rows : list (string * list ThreadCpuUsage))
  | FreqRows (rows : list freq_row)
  | Named (rows : list named_row)
  | Relayed (rows : list R).

(** An analysis is computed once and kept. *)
Definition kept_analysis (st : scheduling) (name : string) (rows : option (option analysis)) : scheduling * option sched_reply :=
  match map_get (cpuAnalysisMap st) name, rows with
  | Some a, _ => (st, Some (Analysed a))
  | None, Some (Some a) => (set_analysis name a st, Some (Analysed a))
  | None, Some None => (st, None)
  | None, None => (st, Some AskRows)
  end.

Definition schedulingClearData (st : scheduling) : scheduling * option sched_reply := (scheduling_clearAll st, Some Nothing).

Definition schedulingInitFreqData (st : scheduling) (rows : option (list measure_row)) : scheduling * option sched_reply :=
  match rows with Some l => (groupFreqByCpu st l, Some Nothing) | None => (st, Some AskRows) end.

Definition schedulinGetProcessAndThread (st : scheduling) (rows : option (list (bool * Z * jsstring))) :
    scheduling * option sched_reply :=
  match rows with Some l => (handleProcessThread st l, Some Nothing) | None => (st, Some AskRows) end.

Definition schedulingGetCpuIdle0 (st : scheduling) (rows : option (list measure_row)) : scheduling * option sched_reply :=
  match rows with Some l => (handleCPUIdle0Map st l, Some Nothing) | None => (st, Some AskRows) end.

Definition schedulingCPUFrequency (st : scheduling) (rows : option (list measure_row)) : scheduling * option sched_reply :=
  kept_analysis st "freq" ((fun l => Measures <$> computeCpuMeasureDur st l true) <$> rows).

Definition schedulingCPUFrequencyThread (st : scheduling) (rows : option (list FreqThread)) (cpu freq : Z) :
    scheduling * option sched_reply :=
  match rows with
  | Some l => (st, Some (ThreadTimes (handlerFreqThreadData st l)))
  | None => (set_choice cpu freq st, Some AskRows)
  end.

Definition schedulingCPUIdle (st : scheduling) (rows : option (list measure_row)) : scheduling * option sched_reply :=
  kept_analysis st "idle" ((fun l => Measures <$> computeCpuMeasureDur st l false) <$> rows).

Definition schedulingCPUIrq (st : scheduling) (rows : option (list Irq)) : scheduling * option sched_reply :=
  kept_analysis st "irq" ((fun l => Irqs <$> groupIrgDataByCpu l) <$> rows).

Definition schedulingThreadCpuUsage (st : scheduling) (rows : option (list usage_row)) (big mid small : list Z) :
    scheduling * option sched_reply :=
  match rows with
  | Some l => (st, Some (Usages (handlerThreadCpuUsageData st l)))
  | None => (set_cores big mid small st, Some AskRows)
  end.

(** [schedulingThreadRunTime] and [schedulingProcessSwitchCount]. *)
Definition with_names (st : scheduling) (rows : option (list named_row)) : scheduling * option sched_reply :=
  match rows with Some l => (st, Some (Named (add_names st <$> l))) | None => (st, Some AskRows) end.

Definition schedulingThreadFreq (st : scheduling) (rows : option (list thread_slice)) : scheduling * option sched_reply :=
  match rows with Some l => (st, Some (FreqRows (handlerThreadFreqData st l))) | None => (st, Some AskRows) end.

(** [schedulingGetCpuUsage], [schedulingProcessThreadCount], [schedulingProTop10Swicount]
    and [schedulingProcessRunTime]. *)
Definition relay (st : scheduling) (rows : option (list R)) : scheduling * option sched_reply :=
  match rows with Some l => (st, Some (Relayed l)) | None => (st, Some AskRows) end.

Definition handleDataByType (st : scheduling) (r : sched_request) : scheduling * option sched_reply :=
  match r with
  | ClearData => schedulingClearData st
  | InitFreqData rows => schedulingInitFreqData st rows
  | GetProcessAndThread rows => schedulinGetProcessAndThread st rows
  | GetCpuIdle0 rows => schedulingGetCpuIdle0 st rows
  | CpuFrequency rows => schedulingCPUFrequency st rows
  | CpuFrequencyThread rows cpu freq => schedulingCPUFrequencyThread st rows cpu freq
  | CpuIdle rows => schedulingCPUIdle st rows
  | CpuIrq rows => schedulingCPUIrq st rows
  | UsageOfThreads rows big mid small => schedulingThreadCpuUsage st rows big mid small
  | FreqOfThread rows => schedulingThreadFreq st rows
  | RunTimeOfThreads rows | SwitchCount rows => with_names st rows
  | Relay rows => relay st rows
  end.

(** A request may carry the end and the length of the recording. *)
Definition sched_handle (st : scheduling) (range : option (Z * Z)) (r : sched_request) : scheduling * option sched_reply :=
  let st := match range with Some (endTs, total) => if endTs =? 0 then st else set_range endTs total st | None => st end in
  handleDataByType st r.
End Worker.

(** ** States of a processor *)

Record CpuState := {
  cs_startTs : Z;
  cs_endTs : Z;
  cs_dur : Z;
  cs_value : Z
}.

(** A state without a thread between two times. *)
Definition gap (from till : Z) : CpuState := {| cs_startTs := from; cs_endTs := till; cs_dur := till - from; cs_value := 3 |}.

(** The states after one that ends at [prev]. *)
Fixpoint fill_gaps (prev : Z) (arr : list CpuState) : list CpuState :=
  match arr with
  | [] => []
  | current :: arr' =>
      (if prev <? cs_startTs current then [gap prev (cs_startTs current)] else []) ++ current :: fill_gaps (cs_endTs current) arr'
  end.

(** The gap before the first state starts at 0. *)
Definition supplementCpuState (arr : list CpuState) : list CpuState := fill_gaps 0 arr.

(** The time that two slices share. *)
Notation shared ts dur ts' dur' := (Z.max 0 (overlap ts dur ts' dur')).

(** ** Idle time during a frequency *)

(** The idle slices of a processor in the order of time. *)
Definition in_order (l : list CpuMeasure) : Prop := StronglySorted (fun a b => cm_ts a <= cm_ts b) l.

Lemma idle_within_sum m l : in_order l ->
  zsum ((fun it => overlap (cm_ts m) (cm_dur m) (cm_ts it) (cm_dur it)) <$> idle_within m l) =
  zsum ((fun it => shared (cm_ts m) (cm_dur m) (cm_ts it) (cm_dur it)) <$> l).
Proof.
  induction 1 as [|it l HS IH HF]; [done|]. cbn [idle_within]. rewrite fmap_app, zsum_app, fmap_cons, zsum_cons.
  f_equal.
  - destruct (Z.ltb_spec 0 (overlap (cm_ts m) (cm_dur m) (cm_ts it) (cm_dur it))); cbn; lia.
  - destruct (Z.ltb_spec (cm_ts m + cm_dur m) (cm_ts it)) as [Hlt|]; [|by apply IH]. cbn.
    clear IH HS. induction HF as [|x l Hx _ IH]; [done|]. rewrite fmap_cons, zsum_cons, <- IH. unfold overlap. lia.
Qed.

(** The effective time at a frequency.  When the idle slices of a processor are in
    the order of time, the early end of the loop loses nothing: the length of a measure
    becomes the time it shares with all the slices in which the processor was in idle
    state 0, and nothing else of it changes. *)
Theorem effective_time_shared st (rows : list measure_row) m
    (Hsorted : in_order (filter (fun it => cm_cpu it = cm_cpu m) (complete st <$> rows))) :
  getEffectiveFrequencyDur (handleCPUIdle0Map st rows) m =
  with_dur m (zsum ((fun it => shared (cm_ts m) (cm_dur m) (cm_ts it) (cm_dur it)) <$>
                     filter (fun it => cm_cpu it = cm_cpu m) (complete st <$> rows))).
Proof.
  unfold getEffectiveFrequencyDur, handleCPUIdle0Map. cbn [cpuIdle0Map set_idle0].
  rewrite (map_accumulate_get cm_cpu push_to). cbn [map_get].
  set (l := filter _ (complete st <$> rows)) in *.
  rewrite run_push. f_equal. rewrite foldl_sum, Z.add_0_l. destruct l as [|x l]; [done|]. cbn [default from_option app]. by apply idle_within_sum.
Qed.

(** The idle slices come from the database in the order of time here. *)
Definition sx_state : scheduling :=
  {| sc_endTs := 1100; sc_startTs := 100; sc_totalDur := 1000; sc_cpu := 0; sc_freq := 0; bigCores := [4]; midCores := [2];
     smallCores := [0]; cpuFreqMap := []; cpuIdle0Map := []; threadMap := [(7, js "main")]; processMap := []; cpuAnalysisMap := [] |}.

Definition sx_idle : list measure_row :=
  [{| mr_cpu := 0; mr_value := 0; mr_ts := 150; mr_dur := Some 100 |}; {| mr_cpu := 1; mr_value := 0; mr_ts := 120; mr_dur := Some 900 |};
   {| mr_cpu := 0; mr_value := 0; mr_ts := 300; mr_dur := Some 50 |}; {| mr_cpu := 0; mr_value := 0; mr_ts := 900; mr_dur := None |}].

Definition sx_measure : CpuMeasure := {| cm_cpu := 0; cm_value := 1800; cm_ts := 100; cm_dur := 300 |}.

Lemma effective_time_shared_witness :
  getEffectiveFrequencyDur (handleCPUIdle0Map sx_state sx_idle) sx_measure = with_dur sx_measure 100.
Proof.
  rewrite (effective_time_shared sx_state sx_idle sx_measure); [vm_compute; reflexivity|].
  repeat constructor; vm_compute; discriminate.
Defined.

(** ** Frequencies of a processor without gaps *)

(** Slices one after the other from [a] to [b]. *)
Fixpoint tiles (a : Z) (l : list CpuMeasure) (b : Z) : Prop :=
  match l with
  | [] => a = b
  | m :: l' => cm_ts m = a /\ 0 <= cm_dur m /\ tiles (a + cm_dur m) l' b
  end.

Lemma tiles_le a l b : tiles a l b -> a <= b.
Proof. revert a. induction l as [|m l IH]; intros a; cbn; [lia|]. intros (_ & Hd & Ht%IH). lia. Qed.

Lemma tiles_shared ts dur l b : 0 <= dur -> forall a, tiles a l b ->
  zsum ((fun m => shared ts dur (cm_ts m) (cm_dur m)) <$> l) = Z.max 0 (Z.min (ts + dur) b - Z.max ts a).
Proof.
  intros Hd. induction l as [|m l IH]; intros a; cbn [tiles].
  - intros ->. cbn. lia.
  - intros (Ha & Hm & Ht). pose proof (tiles_le _ _ _ Ht). rewrite fmap_cons, zsum_cons, (IH _ Ht). unfold overlap. lia.
Qed.

(** The slices that a processor has in the rows of the query. *)
Definition own_slices (st : scheduling) (rows : list measure_row) (cpu : Z) : list CpuMeasure :=
  filter (fun m => cm_cpu m = cpu) (filter (fun m => 0 < cm_dur m) (complete st <$> rows)).

Definition freq_slices (st : scheduling) (cpu : Z) : list CpuMeasure := default [] (map_get (cpuFreqMap st) cpu).

Lemma freq_slices_group st rows cpu :
  freq_slices (groupFreqByCpu st rows) cpu =
  match own_slices st rows cpu with [] => [] | m :: l => first_freqs None m ++ l end.
Proof.
  unfold freq_slices, groupFreqByCpu. cbn [cpuFreqMap set_freqs]. rewrite map_accumulate_get. cbn [map_get].
  fold (own_slices st rows cpu). destruct (own_slices st rows cpu) as [|m l]; [done|]. cbn [foldl].
  generalize (first_freqs None m). induction l as [|x l IH]; intros k; cbn [foldl]; [by rewrite app_nil_r|].
  rewrite IH. cbn [first_freqs]. by rewrite <- app_assoc.
Qed.

Lemma freq_slices_positive st rows cpu : Forall (fun m => 0 < cm_dur m) (freq_slices (groupFreqByCpu st rows) cpu).
Proof.
  rewrite freq_slices_group. assert (HF : Forall (fun m => 0 < cm_dur m) (own_slices st rows cpu)).
  { unfold own_slices. apply Forall_forall. intros m [_ [Hm _]%list_elem_of_filter]%list_elem_of_filter. done. }
  destruct (own_slices st rows cpu) as [|m l]; [constructor|]. apply Forall_cons in HF as [Hm HF].
  apply Forall_app. split; [|done]. unfold first_freqs. apply Forall_app. split; [|by repeat constructor].
  destruct (Z.ltb_spec 0 (cm_ts m)); repeat constructor. done.
Qed.

(** The rows of a processor follow each other up to [b]; its slices then tile the
    recording from 0. *)
Definition recorded_until (st : scheduling) (rows : list measure_row) (cpu b : Z) : Prop :=
  match own_slices st rows cpu with [] => False | m :: l => 0 <= cm_ts m /\ tiles (cm_ts m) (m :: l) b end.

Lemma recorded_tiles st rows cpu b : recorded_until st rows cpu b -> tiles 0 (freq_slices (groupFreqByCpu st rows) cpu) b.
Proof.
  unfold recorded_until. rewrite freq_slices_group. destruct (own_slices st rows cpu) as [|m l]; [done|].
  intros [H0 Ht]. unfold first_freqs. destruct (Z.ltb_spec 0 (cm_ts m)); cbn [app tiles cm_ts cm_dur] in *.
  - rewrite Z.add_0_l. tauto.
  - assert (E : cm_ts m = 0) by lia. rewrite E in *. tauto.
Qed.

(** ** The frequencies of a thread *)

(** The time that the slices of a thread on a processor share with a frequency. *)
Definition time_at (st : scheduling) (arr : list thread_slice) (cpu f : Z) : Z :=
  zsum ((fun it => zsum ((fun m => shared (sl_ts it) (sl_dur it) (cm_ts m) (cm_dur m)) <$>
                           filter (fun m => cm_value m = f) (freq_slices st cpu))) <$>
          filter (fun it => sl_cpu it = cpu) arr).

Lemma touches_shared it m : 0 <= sl_dur it -> 0 < cm_dur m ->
  shared (sl_ts it) (sl_dur it) (cm_ts m) (cm_dur m) =
  if touches it m then overlap (sl_ts it) (sl_dur it) (cm_ts m) (cm_dur m) else 0.
Proof.
  intros Hi Hm. unfold touches, overlap.
  destruct (Z.leb_spec (cm_ts m) (sl_ts it)), (Z.leb_spec (sl_ts it) (cm_ts m + cm_dur m)), (Z.leb_spec (sl_ts it) (cm_ts m)),
    (Z.leb_spec (cm_ts m + cm_dur m) (sl_ts it + sl_dur it)), (Z.ltb_spec (cm_ts m) (sl_ts it + sl_dur it)),
    (Z.leb_spec (sl_ts it + sl_dur it) (cm_ts m + cm_dur m)); cbn; lia.
Qed.

Section ThreadFrequencies.
Context `{Doubles} (st0 : scheduling) (rows : list measure_row).

Notation st := (groupFreqByCpu st0 rows).

Notation part cpu f d := {| fp_cpu := cpu; fp_freq := f; fp_dur := d |}.

Lemma freq_key_inj a b : 0 <= fp_cpu a -> 0 <= fp_cpu b -> freq_key a = freq_key b ->
  fp_cpu a = fp_cpu b /\ fp_freq a = fp_freq b.
Proof. apply dash_inj. Qed.

Definition good_slices (arr : list thread_slice) : Prop := Forall (fun it => 0 <= sl_cpu it /\ 0 <= sl_dur it) arr.

Lemma parts_of_slice it cpu f : 0 <= sl_cpu it -> 0 <= sl_dur it -> 0 <= cpu ->
  zsum ((fun fa => if decide (freq_key fa = freq_key (part cpu f 0)) then fp_dur fa else 0) <$> freqArr st it) =
  if decide (sl_cpu it = cpu)
  then zsum ((fun m => shared (sl_ts it) (sl_dur it) (cm_ts m) (cm_dur m)) <$> filter (fun m => cm_value m = f) (freq_slices st cpu))
  else 0.
Proof.
  intros Hc Hd Hcpu. unfold freqArr. fold (freq_slices st (sl_cpu it)). rewrite <- list_fmap_compose. cbn.
  destruct (decide (sl_cpu it = cpu)) as [<-|Hne].
  - rewrite !zsum_filter_if. apply zsum_ext. eapply Forall_impl; [apply freq_slices_positive|]. cbn beta. intros m Hm.
    rewrite (touches_shared it m) by done. unfold compose. cbn [fp_dur].
    destruct (decide (cm_value m = f)) as [<-|Hv].
    + destruct (touches it m); [rewrite decide_True by done|rewrite decide_False by (intros [])]; [|done]. by rewrite decide_True.
    + case_decide; [|done]. rewrite decide_False; [done|]. intros E. apply freq_key_inj in E as [_ E]; [|done..]. done.
  - apply zsum_zero. apply Forall_forall. intros m _. unfold compose. rewrite decide_False; [done|].
    intros E. apply freq_key_inj in E as [E _]; done.
Qed.

Lemma parts_at arr cpu f : good_slices arr -> 0 <= cpu ->
  zsum (fp_dur <$> filter (fun fa => freq_key fa = freq_key (part cpu f 0)) (concat (freqArr st <$> arr))) = time_at st arr cpu f.
Proof.
  intros HF Hcpu. rewrite zsum_filter_if, zsum_concat_map. unfold time_at. rewrite zsum_filter_if.
  apply zsum_ext. eapply Forall_impl; [exact HF|]. cbn beta. intros it [Hc Hd]. by apply parts_of_slice.
Qed.

Lemma parts_cpu arr fa : good_slices arr -> fa ∈ concat (freqArr st <$> arr) -> 0 <= fp_cpu fa.
Proof.
  intros HF (l & (it & -> & Hit)%list_elem_of_fmap & Hfa)%elem_of_concat.
  unfold freqArr in Hfa. apply list_elem_of_fmap in Hfa as (m & -> & _). cbn.
  by apply (proj1 (Forall_forall _ _) HF) in Hit as [? _].
Qed.

(** The rows of the table by their keys. *)
Lemma freq_row_spec arr sumDur k r : good_slices arr ->
  (k, r) ∈ filterThreadFreqData (freqArr st <$> arr) sumDur ->
  k = freq_key (part (fr_cpu r) (fr_freq r) 0) /\ 0 <= fr_cpu r /\ fr_time r = time_at st arr (fr_cpu r) (fr_freq r) /\
  fr_totalDur r = sumDur /\ fr_ratio r = ratio_text (fr_time r) sumDur.
Proof.
  intros HF Hr%map_accumulate_elem. set (own := filter _ _) in Hr.
  pose proof (run_first (add_freq sumDur) (fun r => part (fr_cpu r) (fr_freq r) 0) (fun fa => part (fp_cpu fa) (fp_freq fa) 0)
    ltac:(done) ltac:(done) own r Hr) as Hh.
  pose proof (run_first (add_freq sumDur) fr_totalDur (fun _ => sumDur) ltac:(done) ltac:(done) own r Hr) as Ht.
  pose proof (run_sum (add_freq sumDur) fr_time fp_dur ltac:(by intros []) own None r Hr) as Hs.
  assert (Hq : fr_ratio r = ratio_text (fr_time r) sumDur).
  { apply (run_last (add_freq sumDur) (fun r => fr_ratio r = ratio_text (fr_time r) sumDur)) in Hr; [done|by intros []]. }
  destruct own as [|fa own'] eqn:Eo; [done|]. cbn in Hh, Ht. apply (inj Some) in Ht. apply (inj Some) in Hh. injection Hh as Ec Ef.
  assert (Hfa : fa ∈ own) by (rewrite Eo; by left). unfold own in Hfa. apply list_elem_of_filter in Hfa as [Hk Hin].
  assert (Hkey : k = freq_key (part (fr_cpu r) (fr_freq r) 0)) by (rewrite <- Hk, <- Ec, <- Ef; done).
  assert (Hc : 0 <= fr_cpu r) by (rewrite <- Ec; by eapply parts_cpu). split_and!; [done|done| |done|done].
  rewrite Hs, Z.add_0_l, <- parts_at by done. rewrite <- Eo. unfold own. by rewrite Hkey.
Qed.

Lemma touched_row arr sumDur cpu f : good_slices arr -> 0 <= cpu -> 0 < time_at st arr cpu f ->
  exists r, (freq_key (part cpu f 0), r) ∈ filterThreadFreqData (freqArr st <$> arr) sumDur.
Proof.
  intros HF Hcpu Ht. rewrite <- parts_at in Ht by done.
  destruct (foldl (fun o x => Some (add_freq sumDur o x)) None
    (filter (fun fa => freq_key fa = freq_key (part cpu f 0)) (concat (freqArr st <$> arr)))) as [r|] eqn:E.
  - exists r. unfold filterThreadFreqData. by apply map_accumulate_elem.
  - apply run_None in E. rewrite E in Ht. cbn in Ht. lia.
Qed.

(** Over a processor whose frequencies are known throughout, the parts of a slice are
    the whole slice. *)
Lemma parts_whole it b : 0 <= sl_dur it -> 0 <= sl_ts it -> recorded_until st0 rows (sl_cpu it) b -> sl_ts it + sl_dur it <= b ->
  zsum (fp_dur <$> freqArr st it) = sl_dur it.
Proof.
  intros Hd Hs Hr%recorded_tiles Hb. unfold freqArr. fold (freq_slices st (sl_cpu it)). rewrite <- list_fmap_compose.
  assert (E : zsum ((fp_dur ∘ (fun tf => part (sl_cpu it) (cm_value tf) (overlap (sl_ts it) (sl_dur it) (cm_ts tf) (cm_dur tf)))) <$>
      filter (fun f => Is_true (touches it f)) (freq_slices st (sl_cpu it))) =
    zsum ((fun m => shared (sl_ts it) (sl_dur it) (cm_ts m) (cm_dur m)) <$> freq_slices st (sl_cpu it))).
  { rewrite zsum_filter_if. apply zsum_ext. eapply Forall_impl; [apply freq_slices_positive|]. cbn beta. intros m Hm.
    rewrite (touches_shared it m) by done. destruct (touches it m); [by rewrite decide_True|by rewrite decide_False by (intros [])]. }
  rewrite E, (tiles_shared _ _ _ b Hd 0 Hr). lia.
Qed.

(** C29: The frequencies of a thread.  After the frequencies of a recording are loaded,
    the table has one row per processor and frequency, by falling time; the time of a
    row is what the thread's slices on the processor share with the slices of the
    frequency, and every frequency with some time has a row.  When the frequencies of
    the thread's processors are known up to the end of its slices, the times of the rows
    add up to the thread's running time, of which the ratios are parts. *)
Theorem thread_frequencies arr (Hgood : good_slices arr) :
  let table := handlerThreadFreqData st arr in
  let total := zsum (sl_dur <$> arr) in
  StronglySorted (key_le (fun r => - fr_time r)) table /\
  NoDup ((fun r => (fr_cpu r, fr_freq r)) <$> table) /\
  Forall (fun r => fr_time r = time_at st arr (fr_cpu r) (fr_freq r) /\ fr_ratio r = ratio_text (fr_time r) total) table /\
  (forall cpu f, 0 <= cpu -> 0 < time_at st arr cpu f -> (cpu, f) ∈ (fun r => (fr_cpu r, fr_freq r)) <$> table) /\
  (Forall (fun it => 0 <= sl_ts it /\ exists b, recorded_until st0 rows (sl_cpu it) b /\ sl_ts it + sl_dur it <= b) arr ->
   zsum (fr_time <$> table) = total).
Proof.
  intros table total. unfold table, handlerThreadFreqData. fold total. set (g := filterThreadFreqData _ total).
  assert (Hperm : sort_by (fun r => - fr_time r) (Object_values g) ≡ₚ g.*2) by (rewrite sort_by_perm; apply Object_values_perm).
  assert (Hspec := fun k r => freq_row_spec arr total k r Hgood). fold g in Hspec.
  assert (HN : NoDup g.*1) by (apply map_accumulate_nodup; constructor).
  split_and!.
  - apply sort_by_sorted.
  - rewrite Hperm. apply (nodup_by_key _ (fun '(cpu, f) => freq_key (part cpu f 0))); [|done]. intros k r Hr. by apply Hspec in Hr as [? _].
  - rewrite Hperm. apply Forall_forall. intros r ([k r'] & -> & Hr)%list_elem_of_fmap. apply Hspec in Hr as (_ & _ & ? & _ & ?). done.
  - intros cpu f Hcpu Ht. rewrite Hperm. destruct (touched_row arr total cpu f Hgood Hcpu Ht) as [r Hr].
    destruct (Hspec _ _ Hr) as (Ek & Hc & _). apply freq_key_inj in Ek as [E1 E2]; [|done|done]. cbn in E1, E2. subst cpu f.
    apply list_elem_of_fmap. exists r. split; [done|]. apply list_elem_of_fmap. by exists (freq_key (part (fr_cpu r) (fr_freq r) 0), r).
  - intros Hw. rewrite Hperm. unfold g, filterThreadFreqData.
    rewrite (accumulate_sum (add_freq total) freq_key fr_time fp_dur) by (by intros []). rewrite zsum_concat_map. cbn [fmap list_fmap].
    apply zsum_ext. eapply Forall_impl; [apply Forall_and; split; [exact Hgood|exact Hw]|]. cbn beta.
    intros it ([_ Hd] & Hs & b & Hb & Hle). by apply (parts_whole it b).
Qed.
End ThreadFrequencies.

(** A thread that moves between two processors, over three slices of frequencies. *)
Definition sx_freqs : list measure_row :=
  [{| mr_cpu := 0; mr_value := 1000; mr_ts := 200; mr_dur := Some 300 |}; {| mr_cpu := 0; mr_value := 2000; mr_ts := 500; mr_dur := None |};
   {| mr_cpu := 4; mr_value := 3000; mr_ts := 100; mr_dur := Some 1000 |}].

Definition sx_slices : list thread_slice :=
  [{| sl_cpu := 0; sl_ts := 50; sl_dur := 400 |}; {| sl_cpu := 4; sl_ts := 600; sl_dur := 100 |}].

Lemma thread_frequencies_witness :
  zsum (fr_time <$> @handlerThreadFreqData exact_doubles (groupFreqByCpu sx_state sx_freqs) sx_slices) = 500 /\
  (fun r => (fr_cpu r, fr_freq r, fr_time r)) <$> @handlerThreadFreqData exact_doubles (groupFreqByCpu sx_state sx_freqs) sx_slices =
    [(0, 1000, 300); (4, 3000, 100); (0, -1, 50); (0, 2000, 50)].
Proof.
  split; [|vm_compute; reflexivity].
  refine (proj2 (proj2 (proj2 (proj2 (@thread_frequencies exact_doubles sx_state sx_freqs sx_slices _)))) _).
  - repeat constructor; vm_compute; discriminate.
  - repeat constructor; try (vm_compute; discriminate); exists 1000; vm_compute; repeat split; discriminate.
Defined.

(** ** Time per frequency and idle state *)

Lemma mapM_entries_get {K A B} `{EqDecision K} (F : K -> A -> option B) (m : list (K * A)) : forall t k,
  mapM (fun '(k, l) => r ← F k l; Some (k, r)) m = Some t -> map_get t k = map_get m k ≫= F k.
Proof.
  induction m as [|[k0 l0] m IH]; intros t k; cbn [mapM]; [by intros [= <-]|].
  destruct (F k0 l0) as [r|] eqn:EF; cbn; [|done]. destruct (mapM _ m) as [t'|] eqn:Em; cbn; [|done].
  intros [= <-]. cbn [map_get]. case_decide as E; [subst; symmetry; exact EF|]. by apply IH.
Qed.

Lemma mapM_entries_None {K A B} `{EqDecision K} (F : K -> A -> option B) (m : list (K * A)) : NoDup m.*1 ->
  mapM (fun '(k, l) => r ← F k l; Some (k, r)) m = None <-> exists k l, map_get m k = Some l /\ F k l = None.
Proof.
  intros HN. rewrite mapM_None, Exists_exists. split.
  - intros ([k l] & Hin & E). exists k, l. split; [by apply map_get_nodup|]. by destruct (F k l).
  - intros (k & l & Hg & E). exists (k, l). split; [by apply map_get_in|]. by rewrite E.
Qed.

Section PerValue.
Context `{Doubles}.

(** What a group should say of the lengths of its slices. *)
Definition group_says (durs : list Z) (g : CpuAnalysis) : Prop :=
  ca_sum g = zsum durs /\ ca_count g = zlen durs /\
  (ca_min g ∈ durs /\ Forall (fun d => ca_min g <= d) durs) /\
  (ca_max g ∈ durs /\ Forall (fun d => d <= ca_max g) durs) /\
  ca_avg g = if ca_count g =? 1 then AvgNumber (ca_sum g)
             else AvgText (hundredths (fdiv (inject_Z (ca_sum g)) (inject_Z (ca_count g)))).

Lemma add_measure_says l : forall g, foldl (fun o x => Some (add_measure o x)) None l = Some g -> group_says (cm_dur <$> l) g.
Proof.
  induction l as [|m l IH] using rev_ind; [done|]. intros g. rewrite foldl_snoc. intros [= <-].
  destruct (foldl _ None l) as [g|] eqn:E.
  - destruct (IH g eq_refl) as (Hs & Hc & [Hm1 Hm2] & [HM1 HM2] & _). rewrite fmap_app. cbn [fmap list_fmap].
    assert (Hpos : 1 <= zlen (cm_dur <$> l)) by (destruct l; [done|unfold zlen; cbn; lia]).
    unfold group_says. cbn [add_measure ca_sum ca_count ca_min ca_max ca_avg]. rewrite zsum_app, zlen_app, Hs, Hc, zsum_one_elem.
    change (zlen [cm_dur m]) with 1. split_and!; [done|done|..].
    + destruct (Z.ltb_spec (ca_min g) (cm_dur m)); set_solver.
    + apply Forall_app. split; [|repeat constructor]; destruct (Z.ltb_spec (ca_min g) (cm_dur m)); try lia; [done|].
      eapply Forall_impl; [exact Hm2|]. cbn beta. lia.
    + destruct (Z.ltb_spec (cm_dur m) (ca_max g)); set_solver.
    + apply Forall_app. split; [|repeat constructor]; destruct (Z.ltb_spec (cm_dur m) (ca_max g)); try lia; [done|].
      eapply Forall_impl; [exact HM2|]. cbn beta. lia.
    + destruct (Z.eqb_spec (zlen (cm_dur <$> l) + 1) 1); [lia|done].
  - apply run_None in E as ->. cbn. unfold group_says. cbn. split_and!; try done; try lia; repeat constructor; lia.
Qed.

(** The groups of the slices of a processor. *)
Definition groups_of (own : list CpuMeasure) (groups : list CpuAnalysis) : Prop :=
  NoDup (ca_value <$> groups) /\ (forall v, v ∈ ca_value <$> groups <-> v ∈ cm_value <$> own) /\
  Forall (fun g => group_says (cm_dur <$> filter (fun m => cm_value m = ca_value g) own) g) groups.

Lemma filterMap_elem own k g : (k, g) ∈ filterMap own ->
  k = js_toString 10 (ca_value g) /\ ca_value g ∈ cm_value <$> own /\
  group_says (cm_dur <$> filter (fun m => cm_value m = ca_value g) own) g.
Proof.
  intros Hg%map_accumulate_elem.
  pose proof (run_first add_measure ca_value cm_value ltac:(done) ltac:(done) _ _ Hg) as Hh.
  pose proof (add_measure_says _ _ Hg) as Hs. destruct (filter _ own) as [|m l] eqn:E; [done|]. cbn in Hh. injection Hh as Hv.
  assert (Hm : m ∈ filter (fun x => js_toString 10 (cm_value x) = k) own) by (rewrite E; by left).
  apply list_elem_of_filter in Hm as [Hk Hm]. split_and!; [by rewrite <- Hv|rewrite <- Hv; by apply list_elem_of_fmap_2|].
  rewrite <- E in Hs. erewrite list_filter_iff; [exact Hs|]. intros x. rewrite <- Hk, <- Hv. split; [by intros ->|]. apply js_toString_inj.
Qed.

Lemma filterMap_groups own : groups_of own (Object_values (filterMap own)).
Proof.
  unfold groups_of. assert (HN : NoDup (filterMap own).*1) by (apply map_accumulate_nodup; constructor).
  pose proof (Object_values_perm (filterMap own)) as HP. split_and!.
  - rewrite HP. apply (nodup_by_key _ (js_toString 10)); [|done]. intros k g Hg. by apply filterMap_elem in Hg as [? _].
  - intros v. rewrite HP. rewrite <- list_fmap_compose, !list_elem_of_fmap. split.
    + intros ([k g] & -> & Hg). apply filterMap_elem in Hg as (_ & Hg & _). by apply list_elem_of_fmap in Hg.
    + intros (m & -> & Hm).
      destruct (foldl (fun o x => Some (add_measure o x)) None
        (filter (fun x => js_toString 10 (cm_value x) = js_toString 10 (cm_value m)) own)) as [g|] eqn:E.
      * apply (map_accumulate_elem (fun x => js_toString 10 (cm_value x)) add_measure) in E. fold (filterMap own) in E.
        exists (js_toString 10 (cm_value m), g). split; [|done]. apply filterMap_elem in E as [E _]. by apply js_toString_inj in E.
      * apply run_None in E. assert (Hm' : m ∈ filter (fun x => js_toString 10 (cm_value x) = js_toString 10 (cm_value m)) own)
          by (by apply list_elem_of_filter). rewrite E in Hm'. by apply not_elem_of_nil in Hm'.
  - rewrite HP. apply Forall_forall. intros g ([k g'] & -> & Hg)%list_elem_of_fmap. by apply filterMap_elem in Hg as (_ & _ & ?).
Qed.

Section OneAnalysis.
Context (st : scheduling) (arr : list measure_row) (isFreq : bool).

Notation own cpu := (filter (fun m => cm_cpu m = cpu) (counted st isFreq arr)).

Lemma counted_get cpu : map_get (map_accumulate cm_cpu push_to [] (counted st isFreq arr)) cpu = match own cpu with [] => None | l => Some l end.
Proof. rewrite map_accumulate_get. cbn [map_get]. rewrite run_push. by destruct (own cpu). Qed.

Lemma counted_total cpu : default 0 (map_get (map_accumulate cm_cpu add_total [] (counted st isFreq arr)) cpu) = zsum (cm_dur <$> own cpu).
Proof.
  rewrite map_accumulate_get. cbn [map_get]. destruct (foldl _ None _) as [t|] eqn:E; cbn [default from_option].
  - apply (run_sum add_total (fun x => x) cm_dur) in E; [exact E|]. by intros [] x.
  - apply run_None in E. by rewrite E.
Qed.

Lemma counted_positive cpu : own cpu <> [] -> 0 < zsum (cm_dur <$> own cpu).
Proof.
  assert (HF : Forall (fun m => 0 < cm_dur m) (own cpu)).
  { apply Forall_forall. intros m [_ Hm]%list_elem_of_filter. unfold counted in Hm. by apply list_elem_of_filter in Hm as [? _]. }
  destruct (own cpu) as [|m l]; [done|]. intros _. apply Forall_cons in HF as [Hm HF]. rewrite fmap_cons, zsum_cons.
  assert (0 <= zsum (cm_dur <$> l)); [|lia]. clear Hm. induction HF; [done|]. rewrite fmap_cons, zsum_cons. lia.
Qed.

(** C28: Time per frequency and idle state.  When the analysis returns, every processor
    with a slice that counts has rows, and no other has: of the groups of its slices by
    their value, each with the number, the total, the shortest, longest and average
    length of exactly its slices, the first twenty are shown, by falling time for
    frequencies and by rising state for idle states, and the ratio of a row is its part
    of the processor's total. *)
Theorem time_per_value target (Hok : computeCpuMeasureDur st arr isFreq = Some target) cpu :
  match map_get target cpu with
  | None => own cpu = []
  | Some rows => exists groups, groups_of (own cpu) groups /\
      best (row_key isFreq) 20 groups (ar_group <$> rows) /\
      Forall (fun r => ar_ratio r = ratio_text (ca_sum (ar_group r)) (zsum (cm_dur <$> own cpu))) rows
  end.
Proof.
  unfold computeCpuMeasureDur in Hok. cbv zeta in Hok.
  rewrite (mapM_entries_get (fun key l => setTargetMapValue (shown_groups isFreq l) _) _ _ cpu Hok), counted_get.
  destruct (own cpu) as [|m l] eqn:Eo; [done|]. rewrite <- Eo. cbn [mbind option_bind]. rewrite counted_total.
  destruct (setTargetMapValue _ _) as [rows|] eqn:Er.
  - exists (Object_values (filterMap (own cpu))). split; [apply filterMap_groups|].
    unfold setTargetMapValue in Er. apply mapM_Some in Er.
    assert (Hrow : Forall2 (fun g r => ar_group r = g /\ ar_ratio r = ratio_text (ca_sum g) (zsum (cm_dur <$> own cpu)))
      (shown_groups isFreq (own cpu)) rows).
    { eapply Forall2_impl; [exact Er|]. cbn beta. intros g r. unfold show_group.
      destruct (average_text (ca_avg g)); cbn; [|done]. intros [= <-]. cbn. split; [done|].
      destruct (Z.eqb_spec (zsum (cm_dur <$> own cpu)) 0); [|done]. pose proof (counted_positive cpu ltac:(by rewrite Eo)). lia. }
    split.
    + assert (Eg : ar_group <$> rows = shown_groups isFreq (own cpu)).
      { clear -Hrow. induction Hrow as [|g r gs rs [Hg _] _ IH]; [done|]. by rewrite fmap_cons, Hg, IH. }
      rewrite Eg. apply best_take.
    + clear -Hrow. induction Hrow as [|g r gs rs [<- Hr] _ IH]; by constructor.
  - exfalso. assert (HNone : computeCpuMeasureDur st arr isFreq = None); [|unfold computeCpuMeasureDur in HNone; cbv zeta in HNone; congruence].
    unfold computeCpuMeasureDur. cbv zeta.
    apply (mapM_entries_None (fun key l => setTargetMapValue (shown_groups isFreq l) _)); [apply map_accumulate_nodup; constructor|].
    exists cpu, (own cpu). rewrite counted_get, Eo, counted_total, <- Eo. done.
Qed.

(** The text of an average that is a text fails for less than a microsecond. *)
Lemma average_text_None a : average_text a = None <->
  exists h, a = AvgText h /\ (0 < fdiv (inject_Z h) 100)%Q /\ (fdiv (inject_Z h) 100 < 1000)%Q.
Proof.
  destruct a as [n|h]; cbn [average_text]; [split; [done|by intros (h & [=] & _)]|].
  set (q := fdiv (inject_Z h) 100). unfold probably_time.
  assert (Hle : forall u, Qle_bool (inject_Z u) q = true <-> (inject_Z u <= q)%Q) by (intros; apply Qle_bool_iff).
  assert (Hbig : (q < 1000)%Q -> forall u, 1000 <= u -> Qle_bool (inject_Z u) q = false).
  { intros Hq u Hu. apply not_true_is_false. rewrite Hle. intros Hu'. apply (Qlt_irrefl q). eapply Qlt_le_trans; [exact Hq|].
    eapply Qle_trans; [|exact Hu']. change 1000%Q with (inject_Z 1000). by rewrite <- Zle_Qle. }
  split.
  - intros E. exists h. split; [done|]. fold q.
    repeat match type of E with (if ?b then _ else _) = None => destruct b eqn:?; [by try discriminate E|] end.
    destruct (negb (Qle_bool q 0)) eqn:Hz; [|done]. apply negb_true_iff in Hz. split; apply Qnot_le_lt; intros Hc.
    + apply Qle_bool_iff in Hc. congruence.
    + change 1000%Q with (inject_Z microsecond1) in Hc. apply Qle_bool_iff in Hc. congruence.
  - intros (h' & [= <-] & Hpos & Hlt). fold q in Hpos, Hlt.
    rewrite !(Hbig Hlt) by done. destruct (Qle_bool q 0) eqn:Hz; [|done]. apply Qle_bool_iff in Hz.
    exfalso. apply (Qlt_irrefl 0). by eapply Qlt_le_trans.
Qed.

(** When the analysis fails.  The average of a group of two or more slices is a
    text, which has no [toFixed]: the analysis throws, and no answer is posted, exactly
    when some row to be shown has two or more slices that average to less than a
    microsecond. *)
Theorem analysis_fails :
  computeCpuMeasureDur st arr isFreq = None <->
  exists cpu g, g ∈ shown_groups isFreq (own cpu) /\ 1 < ca_count g /\
    let average := fdiv (inject_Z (hundredths (fdiv (inject_Z (ca_sum g)) (inject_Z (ca_count g))))) 100 in
    (0 < average)%Q /\ (average < 1000)%Q.
Proof.
  assert (Hsays : forall cpu g, g ∈ shown_groups isFreq (own cpu) -> exists durs, durs <> [] /\ group_says durs g).
  { intros cpu g Hg. assert (Hin : g ∈ Object_values (filterMap (own cpu))).
    { rewrite <- (sort_by_perm (row_key isFreq)). eapply elem_of_sublist; [exact Hg|]. apply sublist_take. }
    destruct (filterMap_groups (own cpu)) as (_ & _ & HF). apply (proj1 (Forall_forall _ _) HF) in Hin.
    eexists. split; [|exact Hin]. intros E. destruct Hin as (_ & _ & [Hm _] & _). rewrite E in Hm. by apply not_elem_of_nil in Hm. }
  assert (Hnone : forall cpu total g, g ∈ shown_groups isFreq (own cpu) ->
    show_group total g = None <-> 1 < ca_count g /\
      let average := fdiv (inject_Z (hundredths (fdiv (inject_Z (ca_sum g)) (inject_Z (ca_count g))))) 100 in
      (0 < average)%Q /\ (average < 1000)%Q).
  { intros cpu total g Hg. destruct (Hsays cpu g Hg) as (durs & Hne & _ & Hc & _ & _ & Ha).
    assert (1 <= ca_count g) by (rewrite Hc; destruct durs; [done|unfold zlen; cbn; lia]).
    transitivity (average_text (ca_avg g) = None); [unfold show_group; by destruct (average_text (ca_avg g))|].
    rewrite average_text_None, Ha. destruct (Z.eqb_spec (ca_count g) 1).
    - split; [by intros (h & [=] & _)|lia].
    - split; [intros (h & [= <-] & Hq); split; [lia|done]|]. intros [_ Hq]. by eexists. }
  unfold computeCpuMeasureDur. cbv zeta.
  rewrite (mapM_entries_None (fun key l => setTargetMapValue (shown_groups isFreq l) _)) by (apply map_accumulate_nodup; constructor).
  unfold setTargetMapValue. setoid_rewrite mapM_None. setoid_rewrite Exists_exists. split.
  - intros (cpu & l & Hl & g & Hg & E). rewrite counted_get in Hl. assert (l = own cpu) as -> by (destruct (own cpu); congruence).
    exists cpu, g. split; [done|]. by apply (Hnone cpu) in E.
  - intros (cpu & g & Hg & E). exists cpu, (own cpu). rewrite counted_get. split.
    + destruct (own cpu); [by apply not_elem_of_nil in Hg|done].
    + exists g. split; [done|]. by apply (Hnone cpu).
Qed.
End OneAnalysis.
End PerValue.

(** Two idle slices of half a microsecond. *)
Definition sx_short : list measure_row :=
  [{| mr_cpu := 0; mr_value := 1; mr_ts := 100; mr_dur := Some 400 |}; {| mr_cpu := 0; mr_value := 1; mr_ts := 600; mr_dur := Some 600 |}].

Example short_idle_fails : @computeCpuMeasureDur exact_doubles sx_state sx_short false = None.
Proof. vm_compute. reflexivity. Qed.

(** With an idle slice of ten microseconds the analysis shows the group. *)
Definition sx_long : list measure_row := sx_short ++ [{| mr_cpu := 0; mr_value := 1; mr_ts := 2000; mr_dur := Some 10000 |}].

Lemma time_per_value_witness : exists target rows groups,
  @computeCpuMeasureDur exact_doubles sx_state sx_long false = Some target /\ map_get target 0 = Some rows /\
  best (row_key false) 20 groups (ar_group <$> rows) /\ ca_value <$> (ar_group <$> rows) = [1].
Proof.
  destruct (@computeCpuMeasureDur exact_doubles sx_state sx_long false) as [target|] eqn:E; [|by vm_compute in E].
  pose proof (@time_per_value exact_doubles sx_state sx_long false target E 0) as Ht.
  destruct (map_get target 0) as [rows|] eqn:Er; [|by vm_compute in Ht].
  destruct Ht as (groups & _ & Hb & _). exists target, rows, groups. split_and!; [done|done|done|].
  vm_compute in E. injection E as <-. vm_compute in Er. injection Er as <-. reflexivity.
Defined.

(** ** Threads on the kinds of cores *)

Section CoreUsage.
Context `{Doubles} (st : scheduling) (arr : list usage_row).

(** What the row of a thread should say. *)
Definition usage_says (t : ThreadCpuUsage) : Prop :=
  let own := filter (fun i => ur_tid i = tu_tid t) arr in
  tu_total t = zsum (ur_total <$> own) /\
  tu_big t = zsum (ur_total <$> filter (fun i => cpuType st (ur_cpu i) = Big) own) /\
  tu_mid t = zsum (ur_total <$> filter (fun i => cpuType st (ur_cpu i) = Mid) own) /\
  tu_small t = zsum (ur_total <$> filter (fun i => cpuType st (ur_cpu i) = Small) own) /\
  tu_total t = tu_big t + tu_mid t + tu_small t.

Lemma on_core_sum c l : zsum (on_core st c <$> l) = zsum (ur_total <$> filter (fun i => cpuType st (ur_cpu i) = c) l).
Proof.
  symmetry. apply zsum_filter; intros i Hi; unfold on_core; [by rewrite bool_decide_true|by rewrite bool_decide_false].
Qed.

Lemma usage_row_spec k t : (k, t) ∈ filterThreadCpuUsageArr st arr 0 0 0 ->
  k = js_toString 10 (tu_tid t) /\ tu_tid t ∈ ur_tid <$> arr /\ usage_says t.
Proof.
  intros Ht%map_accumulate_elem.
  pose proof (run_first (add_usage st) tu_tid ur_tid ltac:(done) ltac:(done) _ _ Ht) as Hh.
  pose proof (run_sum (add_usage st) tu_total ur_total ltac:(by intros []) _ _ _ Ht) as S0.
  pose proof (run_sum (add_usage st) tu_big (on_core st Big) ltac:(by intros []) _ _ _ Ht) as S1.
  pose proof (run_sum (add_usage st) tu_mid (on_core st Mid) ltac:(by intros []) _ _ _ Ht) as S2.
  pose proof (run_sum (add_usage st) tu_small (on_core st Small) ltac:(by intros []) _ _ _ Ht) as S3.
  assert (S4 : tu_total t = tu_big t + tu_mid t + tu_small t).
  { rewrite S0, S1, S2, S3. cbn [from_option]. generalize (filter (fun x => js_toString 10 (ur_tid x) = k) arr). intros l.
    induction l as [|i l IH]; [done|]. rewrite !fmap_cons, !zsum_cons. unfold on_core at 1 3 5.
    destruct (cpuType st (ur_cpu i)); cbn [bool_decide decide_rel]; repeat case_bool_decide; try done; lia. }
  destruct (filter _ arr) as [|i l] eqn:E; [done|]. cbn in Hh. injection Hh as Hv.
  assert (Hi : i ∈ filter (fun x => js_toString 10 (ur_tid x) = k) arr) by (rewrite E; by left).
  apply list_elem_of_filter in Hi as [Hk Hi]. split_and!; [by rewrite <- Hv|rewrite <- Hv; by apply list_elem_of_fmap_2|].
  assert (Eo : filter (fun x => ur_tid x = tu_tid t) arr = i :: l).
  { rewrite <- E. apply list_filter_iff. intros x. rewrite <- Hk, <- Hv. split; [by intros ->|apply js_toString_inj]. }
  unfold usage_says. rewrite Eo. cbn [from_option] in *. rewrite <- !on_core_sum. split_and!; [lia..|done].
Qed.

Lemma usage_tids tid : tid ∈ ur_tid <$> arr ->
  exists t, (js_toString 10 tid, t) ∈ filterThreadCpuUsageArr st arr 0 0 0 /\ tu_tid t = tid.
Proof.
  intros (i & -> & Hi)%list_elem_of_fmap.
  destruct (foldl (fun o x => Some (add_usage st o x)) None
    (filter (fun x => js_toString 10 (ur_tid x) = js_toString 10 (ur_tid i)) arr)) as [t|] eqn:E.
  - apply (map_accumulate_elem (fun x => js_toString 10 (ur_tid x)) (add_usage st)) in E. exists t. split; [done|].
    apply usage_row_spec in E as [E _]. by apply js_toString_inj in E.
  - apply run_None in E. assert (Hi' : i ∈ filter (fun x => js_toString 10 (ur_tid x) = js_toString 10 (ur_tid i)) arr)
      by (by apply list_elem_of_filter). rewrite E in Hi'. by apply not_elem_of_nil in Hi'.
Qed.

(** The use of the cores.  The four lists are the first twenty of one table, by
    falling total and by falling time on the large, the middle and the small cores; the
    table has one row per thread, whose times are the sums over the thread's rows of the
    processors of each kind and add up to its total.  The percentages, however, are
    always 0: the sums they are taken of are never added up. *)
Theorem core_usage : exists table total big mid small,
  handlerThreadCpuUsageData st arr = [("total"%string, total); ("big"%string, big); ("mid"%string, mid); ("small"%string, small)] /\
  best (fun t => - tu_total t) 20 table total /\ best (fun t => - tu_big t) 20 table big /\
  best (fun t => - tu_mid t) 20 table mid /\ best (fun t => - tu_small t) 20 table small /\
  NoDup (tu_tid <$> table) /\ (forall tid, tid ∈ tu_tid <$> table <-> tid ∈ ur_tid <$> arr) /\
  Forall (fun t => usage_says t /\ tu_percents t = [js "0"; js "0"; js "0"]) table.
Proof.
  set (g := filterThreadCpuUsageArr st arr 0 0 0). set (table := with_texts 0 0 0 <$> Object_values g).
  assert (HP : table ≡ₚ with_texts 0 0 0 <$> g.*2) by (unfold table; by rewrite Object_values_perm).
  exists table. do 4 eexists. split; [unfold handlerThreadCpuUsageData; cbv zeta; fold g; fold table; reflexivity|].
  split_and!; try (eapply best_perm; [|apply best_take]; by rewrite ?sort_by_perm).
  - rewrite HP, <- list_fmap_compose. change (tu_tid ∘ with_texts 0 0 0) with tu_tid.
    apply (nodup_by_key _ (js_toString 10)); [|apply map_accumulate_nodup; constructor].
    intros k t Ht. by apply usage_row_spec in Ht as [? _].
  - intros tid. rewrite HP, <- list_fmap_compose. change (tu_tid ∘ with_texts 0 0 0) with tu_tid. split.
    + intros (t & -> & ([k t'] & -> & Ht)%list_elem_of_fmap)%list_elem_of_fmap. by apply usage_row_spec in Ht as (_ & ? & _).
    + intros (t & Ht & <-)%usage_tids. apply list_elem_of_fmap_2. exact (list_elem_of_fmap_2 snd _ _ Ht).
  - rewrite HP. apply Forall_fmap, Forall_forall. intros t ([k t'] & -> & Ht)%list_elem_of_fmap.
    apply usage_row_spec in Ht as (_ & _ & Hs). split; [exact Hs|done].
Qed.
End CoreUsage.

(** ** Threads at a frequency *)

Section AtFrequency.
Context `{Doubles} (st : scheduling) (arr : list FreqThread).

(** The time that a thread shares with the chosen frequency. *)
Definition time_of_thread (tid : Z) : Z :=
  zsum ((fun it => zsum ((fun f => shared (cm_ts it) (cm_dur it) (ft_ts f) (ft_dur f)) <$> filter (fun f => ft_tid f = tid) arr)) <$>
          chosen_freqs st).

Notation pairs := (concat (shared_times arr <$> chosen_freqs st)).

Lemma pairs_positive : Forall (fun x : FreqThread * Z => 0 < x.2) pairs.
Proof.
  apply Forall_forall. intros x (l & (it & -> & _)%list_elem_of_fmap & Hx)%elem_of_concat.
  unfold shared_times in Hx. apply list_elem_of_fmap in Hx as (f & -> & [Hf _]%list_elem_of_filter). cbn. unfold overlap in *. lia.
Qed.

Lemma pairs_of_thread tid : zsum (snd <$> filter (fun x : FreqThread * Z => ft_tid x.1 = tid) pairs) = time_of_thread tid.
Proof.
  rewrite zsum_filter_if, zsum_concat_map. unfold time_of_thread. apply zsum_ext, Forall_forall. intros it _.
  unfold shared_times. rewrite <- list_fmap_compose, !zsum_filter_if. apply zsum_ext, Forall_forall. intros f _.
  unfold compose, overlap. cbn [fst snd]. repeat case_decide; lia.
Qed.

Definition pair_tid (x : FreqThread * Z) : Z := ft_tid x.1.

Lemma thread_row_spec k t : (k, t) ∈ map_accumulate pair_tid (add_thread_time st) [] pairs ->
  k = tt_tid t /\ tt_dur t = time_of_thread k /\ 0 < time_of_thread k.
Proof.
  intros Ht%map_accumulate_elem.
  pose proof (run_first (add_thread_time st) tt_tid pair_tid ltac:(by intros ? []) ltac:(by intros []) _ _ Ht) as Hh.
  pose proof (run_sum (add_thread_time st) tt_dur snd ltac:(by intros [] []) _ _ _ Ht) as Hs.
  change (filter (fun x => pair_tid x = k) pairs) with (filter (fun x : FreqThread * Z => ft_tid x.1 = k) pairs) in *.
  cbn [from_option] in Hs. rewrite pairs_of_thread, Z.add_0_l in Hs. rewrite <- Hs.
  destruct (filter _ pairs) as [|x l] eqn:E; [done|]. cbn in Hh. injection Hh as Hv.
  assert (Hx : x ∈ filter (fun x : FreqThread * Z => ft_tid x.1 = k) pairs) by (rewrite E; by left).
  apply list_elem_of_filter in Hx as [Hk _]. split_and!; [by rewrite <- Hv, <- Hk|done|].
  rewrite Hs, <- pairs_of_thread, E, fmap_cons, zsum_cons.
  assert (HF : Forall (fun x : FreqThread * Z => 0 < x.2) (x :: l)).
  { rewrite <- E. apply Forall_forall. intros y [_ Hy]%list_elem_of_filter. by apply (proj1 (Forall_forall _ _) pairs_positive). }
  apply Forall_cons in HF as [Hpos HF]. assert (0 <= zsum (snd <$> l)); [|lia]. clear -HF.
  induction HF; [done|]. rewrite fmap_cons, zsum_cons. lia.
Qed.

(** The threads at a frequency.  The list is the first twenty, by falling time, of
    a table with one row for every thread that ran while the chosen processor had the
    chosen frequency; the time of a row is all the time that the thread's slices share
    with the slices of the frequency, and its ratio the part of the frequency's whole
    time. *)
Theorem threads_at_frequency : exists table,
  best (fun t => - tt_dur t) 20 table (handlerFreqThreadData st arr) /\
  NoDup (tt_tid <$> table) /\ (forall tid, tid ∈ tt_tid <$> table <-> 0 < time_of_thread tid) /\
  Forall (fun t => tt_dur t = time_of_thread (tt_tid t) /\
                   tt_ratio t = ratio_text (tt_dur t) (zsum (cm_dur <$> chosen_freqs st))) table.
Proof.
  set (g := map_accumulate pair_tid (add_thread_time st) [] pairs).
  set (total := zsum (cm_dur <$> chosen_freqs st)). exists (with_ratio total <$> g.*2).
  assert (Hrow := thread_row_spec : forall k t, (k, t) ∈ g -> _).
  split_and!.
  - unfold handlerFreqThreadData. cbv zeta. fold pair_tid g total. rewrite (sort_by_fmap _ (with_ratio total)) by done. apply best_take.
  - rewrite <- list_fmap_compose. change (tt_tid ∘ with_ratio total) with tt_tid.
    apply (nodup_by_key _ (fun k => k)); [|apply map_accumulate_nodup; constructor]. intros k t Ht. by apply Hrow in Ht as [? _].
  - intros tid. rewrite <- list_fmap_compose. change (tt_tid ∘ with_ratio total) with tt_tid. split.
    + intros (t & -> & ([k t'] & -> & Ht)%list_elem_of_fmap)%list_elem_of_fmap. cbn. by apply Hrow in Ht as (<- & _ & ?).
    + intros Hpos. rewrite <- pairs_of_thread in Hpos.
      destruct (foldl (fun o x => Some (add_thread_time st o x)) None (filter (fun x => pair_tid x = tid) pairs)) as [t|] eqn:E.
      * apply (map_accumulate_elem pair_tid (add_thread_time st)) in E. fold g in E. destruct (Hrow _ _ E) as (-> & _).
        apply list_elem_of_fmap_2. exact (list_elem_of_fmap_2 snd _ _ E).
      * apply run_None in E. unfold pair_tid in E. rewrite E in Hpos. cbn in Hpos. lia.
  - apply Forall_fmap, Forall_forall. intros t ([k t'] & -> & Ht)%list_elem_of_fmap. cbn. apply Hrow in Ht as (<- & Hd & _). done.
Qed.
End AtFrequency.

(** ** States of a processor without gaps *)

(** States one after the other, without a gap, from [a] to [b]. *)
Fixpoint seamless (a : Z) (l : list CpuState) (b : Z) : Prop :=
  match l with
  | [] => a = b
  | c :: l' => cs_startTs c = a /\ cs_endTs c = a + cs_dur c /\ seamless (cs_endTs c) l' b
  end.

(** The rows of the query: each state starts at or after the end of the one before. *)
Fixpoint apart (prev : Z) (arr : list CpuState) : Prop :=
  match arr with
  | [] => True
  | c :: arr' => prev <= cs_startTs c /\ cs_endTs c = cs_startTs c + cs_dur c /\ apart (cs_endTs c) arr'
  end.

Lemma fill_gaps_spec arr : forall prev, apart prev arr ->
  seamless prev (fill_gaps prev arr) (default prev (cs_endTs <$> last arr)) /\ arr `sublist_of` fill_gaps prev arr /\
  Forall (fun c => c ∈ arr \/ cs_value c = 3 /\ 0 < cs_dur c) (fill_gaps prev arr).
Proof.
  induction arr as [|c arr IH]; intros prev; cbn [apart fill_gaps]; [intros; split_and!; [done|done|constructor]|].
  intros (Hp & He & Ha). destruct (IH _ Ha) as (Hs & Hsub & HF).
  assert (Hs' : seamless (cs_endTs c) (fill_gaps (cs_endTs c) arr) (default prev (cs_endTs <$> last (c :: arr)))).
  { destruct arr as [|c' arr]; [exact Hs|]. rewrite last_cons_cons. destruct (last (c' :: arr)) eqn:El; [exact Hs|]. by apply last_None in El. }
  assert (HF' : Forall (fun x => x ∈ c :: arr \/ cs_value x = 3 /\ 0 < cs_dur x) (c :: fill_gaps (cs_endTs c) arr)).
  { constructor; [left; by left|]. eapply Forall_impl; [exact HF|]. cbn beta. intros x [?|?]; [left; by right|by right]. }
  destruct (Z.ltb_spec prev (cs_startTs c)) as [Hlt|Hge]; cbn [app seamless].
  - split_and!; [done|cbn; lia|cbn; done|cbn; lia|done|apply sublist_cons; by apply sublist_skip|].
    constructor; [right; cbn; lia|done].
  - split_and!; [lia|lia|done|by apply sublist_skip|done].
Qed.

(** The states of a processor without gaps.  Of states that do not overlap, the
    worker makes a sequence that starts at 0, in which every state starts where the one
    before it ends and which ends with the last state; it has all the given states in
    their order, and what it adds are states without a thread. *)
Theorem states_seamless arr (Happart : apart 0 arr) :
  seamless 0 (supplementCpuState arr) (default 0 (cs_endTs <$> last arr)) /\ arr `sublist_of` supplementCpuState arr /\
  Forall (fun c => c ∈ arr \/ cs_value c = 3 /\ 0 < cs_dur c) (supplementCpuState arr).
Proof. by apply fill_gaps_spec. Qed.

Definition sx_states : list CpuState :=
  [{| cs_startTs := 5; cs_endTs := 8; cs_dur := 3; cs_value := 0 |}; {| cs_startTs := 8; cs_endTs := 9; cs_dur := 1; cs_value := 1 |};
   {| cs_startTs := 20; cs_endTs := 30; cs_dur := 10; cs_value := 2 |}].

Lemma states_seamless_witness : seamless 0 (supplementCpuState sx_states) 30 /\ length (supplementCpuState sx_states) = 5%nat.
Proof. split; [|reflexivity]. apply (states_seamless sx_states). repeat split; vm_compute; discriminate. Defined.
