(* ===== verification/PathTree.v ===== *)
(** * Merging stacks into a tree

    A call tree merges the stacks of samples: a frame is found among the children of the
    frame before it by its key, or is a new child, and what a node says is updated by
    every frame merged into it.  Such a tree has at most one node at each path of keys,
    and the node has been updated by exactly the stacks that begin with the path. *)

From S2P Require Import Prelude Grouping.

Inductive rose (A : Type) := Rose (a : A) (children : list (rose A)).
Arguments Rose {A} _ _.

Definition rose_data {A} (t : rose A) : A := let 'Rose a _ := t in a.
Definition rose_children {A} (t : rose A) : list (rose A) := let 'Rose _ cs := t in cs.

Section PathTree.
Context {A X K : Type} `{EqDecision K} (key : A -> K) (xkey : X -> K) (upd : option A -> X -> A).
Context (Hsome : forall a x, key a = xkey x -> key (upd (Some a) x) = key a) (Hnone : forall x, key (upd None x) = xkey x).

Fixpoint ins (frames : list X) (ts : list (rose A)) : list (rose A) :=
  match frames with
  | [] => ts
  | x :: rest =>
      (fix go (ts : list (rose A)) : list (rose A) :=
         match ts with
         | [] => [Rose (upd None x) (ins rest [])]
         | Rose a cs :: ts' =>
             if decide (key a = xkey x) then Rose (upd (Some a) x) (ins rest cs) :: ts' else Rose a cs :: go ts'
         end) ts
  end.

Definition keyed_by (k : K) (ts : list (rose A)) : list (rose A) := filter (fun t => key (rose_data t) = k) ts.

(** The nodes at a path of keys. *)
Fixpoint nodes_at (path : list K) (ts : list (rose A)) : list A :=
  match path with
  | [] => []
  | [k] => rose_data <$> keyed_by k ts
  | k :: path' => flat_map (fun t => nodes_at path' (rose_children t)) (keyed_by k ts)
  end.

Lemma nodes_at_cons k path ts : path <> [] ->
  nodes_at (k :: path) ts = flat_map (fun t => nodes_at path (rose_children t)) (keyed_by k ts).
Proof. by destruct path. Qed.

Definition unique_paths (ts : list (rose A)) : Prop := forall path, (length (nodes_at path ts) <= 1)%nat.

Lemma unique_paths_nil : unique_paths [].
Proof. intros p. destruct p as [|? []]; cbn; lia. Qed.

Lemma unique_paths_key k ts : unique_paths ts -> (length (keyed_by k ts) <= 1)%nat.
Proof. intros HU. specialize (HU [k]). cbn in HU. by rewrite length_fmap in HU. Qed.

Lemma unique_paths_children ts t : unique_paths ts -> t ∈ ts -> unique_paths (rose_children t).
Proof.
  intros HU Ht path. destruct path as [|k path]; [cbn; lia|].
  specialize (HU (key (rose_data t) :: k :: path)). rewrite nodes_at_cons in HU by done.
  assert (Hin : t ∈ keyed_by (key (rose_data t)) ts) by (by apply list_elem_of_filter).
  apply list_elem_of_split in Hin as (l1 & l2 & E). rewrite E, flat_map_app in HU. cbn [flat_map] in HU.
  rewrite !length_app in HU. lia.
Qed.

Lemma keyed_by_ins x rest k ts : (length (keyed_by (xkey x) ts) <= 1)%nat ->
  keyed_by k (ins (x :: rest) ts) =
  if decide (k = xkey x)
  then [match keyed_by k ts with
        | Rose a cs :: _ => Rose (upd (Some a) x) (ins rest cs)
        | [] => Rose (upd None x) (ins rest [])
        end]
  else keyed_by k ts.
Proof.
  unfold keyed_by. induction ts as [|[a cs] ts IH]; intros Hlen; cbn [ins].
  - rewrite filter_cons, filter_nil. cbn [rose_data]. rewrite Hnone.
    destruct (decide (k = xkey x)) as [->|Hne]; [by rewrite decide_True|by rewrite decide_False by congruence].
  - rewrite filter_cons in Hlen. cbn [rose_data] in Hlen. destruct (decide (key a = xkey x)) as [E|E].
    + cbn [length] in Hlen. rewrite !filter_cons. cbn [rose_data]. rewrite Hsome by done. rewrite E.
      assert (Hnil : filter (fun t => key (rose_data t) = xkey x) ts = []) by (apply nil_length_inv; lia).
      destruct (decide (k = xkey x)) as [->|Hne]; [rewrite !decide_True by done; by rewrite Hnil|by rewrite !decide_False by congruence].
    + specialize (IH Hlen). rewrite !filter_cons. cbn [rose_data].
      change ((fix go (ts : list (rose A)) : list (rose A) := _) ts) with (ins (x :: rest) ts).
      destruct (decide (k = xkey x)) as [->|Hne].
      * rewrite !(decide_False (P := key a = xkey x)) by done. by rewrite IH.
      * destruct (decide (key a = k)); [f_equal|]; done.
Qed.

(** The frame at the end of a path that the frames begin with. *)
Fixpoint along (path : list K) (frames : list X) : option X :=
  match path, frames with
  | k :: path', x :: frames' =>
      if decide (k = xkey x) then match path' with [] => Some x | _ => along path' frames' end else None
  | _, _ => None
  end.

(** One more stack: the nodes along it are updated, the others do not change. *)
Lemma nodes_at_ins frames : forall ts path, unique_paths ts ->
  nodes_at path (ins frames ts) =
  match along path frames with Some x => [upd (head (nodes_at path ts)) x] | None => nodes_at path ts end.
Proof.
  induction frames as [|x frames IH]; intros ts path HU; [by destruct path|].
  destruct path as [|k path]; [done|]. cbn [along].
  pose proof (keyed_by_ins x frames k ts (unique_paths_key _ _ HU)) as HT.
  destruct (decide (k = xkey x)) as [->|Hne].
  - pose proof (unique_paths_key (xkey x) ts HU) as Hlen. destruct path as [|k' path].
    + cbn [nodes_at]. rewrite HT. by destruct (keyed_by (xkey x) ts) as [|[a cs] ts'].
    + rewrite !nodes_at_cons by done. rewrite HT. cbn [flat_map]. rewrite app_nil_r.
      destruct (keyed_by (xkey x) ts) as [|[a cs] [|t ts']] eqn:E; cbn [flat_map rose_children length] in *; [| |lia].
      * rewrite IH by apply unique_paths_nil. by destruct path.
      * rewrite app_nil_r. apply IH. apply (unique_paths_children ts (Rose a cs) HU).
        assert (Hin : Rose a cs ∈ keyed_by (xkey x) ts) by (rewrite E; by left). by apply list_elem_of_filter in Hin as [_ ?].
  - destruct path as [|k' path]; [by cbn [nodes_at]; rewrite HT|]. rewrite !nodes_at_cons by done. by rewrite HT.
Qed.

Lemma unique_paths_ins frames ts : unique_paths ts -> unique_paths (ins frames ts).
Proof. intros HU path. rewrite nodes_at_ins by done. destruct (along path frames); [done|apply HU]. Qed.

(** All stacks: the node at a path has the updates of the stacks that begin with it. *)
Lemma nodes_at_fold stacks path :
  unique_paths (foldl (fun ts frames => ins frames ts) [] stacks) /\
  nodes_at path (foldl (fun ts frames => ins frames ts) [] stacks) =
    option_list (foldl (fun o x => Some (upd o x)) None (omap (along path) stacks)).
Proof.
  induction stacks as [|frames stacks [HU HE]] using rev_ind; [split; [apply unique_paths_nil|by destruct path as [|? []]]|].
  rewrite foldl_snoc. split; [by apply unique_paths_ins|].
  rewrite nodes_at_ins, omap_app by done. cbn [omap list_omap]. destruct (along path frames) as [x|].
  - rewrite foldl_snoc, HE. by destruct (foldl _ None _).
  - by rewrite app_nil_r.
Qed.
End PathTree.
