(* ===== verification/PerfWorker.v ===== *)
(** * The samples of the processors and their reversed call tree

    [trace/database/logic-worker/ProcedureLogicWorkerPerf.ts]: the worker loads the files,
    threads and call chains of the processor samples, attributes the samples of a
    selection to libraries and functions, and builds the reversed call tree
    ([trace/bean/PerfBottomUpStruct.ts]).  The call tree itself is [PerfTree].

    The dictionary of texts ([DataCache.dataDict]) is an argument, filled by a query.
    A name is a number of the dictionary, or a text for the frames that the worker
    adds.  The times of a sample come as a text of numbers, which is a list here.
    Functions return [None] when the code throws. *)

From S2P Require Import Prelude JsRuntime HeapModel Grouping FileCallTree.
Open Scope Z_scope.

(** ** Files, threads and call chains *)

Record PerfFile := {
  pf_fileId : Z;
  pf_path : jsstring;
  pf_fileName : jsstring
}.

(** The position behind the last slash, counted from [i]. *)
Fixpoint last_slash (i : Z) (s : jsstring) : option Z :=
  match s with
  | [] => None
  | c :: s' => match last_slash (i + 1) s' with Some k => Some k | None => if c =? 47 then Some i else None end
  end.

Definition setFileName (path : jsstring) : jsstring :=
  match last_slash 0 path with
  | Some number => if 0 <? number then substring_from path (number + 1) else path
  | None => path
  end.

Definition name_file (f : PerfFile) : PerfFile :=
  {| pf_fileId := pf_fileId f; pf_path := pf_path f; pf_fileName := setFileName (pf_path f) |}.

Record PerfThread := {
  pt_tid : Z;
  pt_pid : Z;
  pt_threadName : jsstring;
  pt_processName : jsstring
}.

Inductive perf_name :=
  | NameId (k : Z)
  | NameText (s : jsstring).

Record PerfCallChain := {
  pc_sampleId : Z;
  pc_name : perf_name;
  pc_fileId : Z;
  pc_symbolId : Z;
  pc_vaddrInFile : Z;
  pc_tid : Z;
  pc_fileName : jsstring;
  pc_path : jsstring;
  pc_canCharge : bool;
  pc_isThread : bool;
  pc_isThreadState : bool
}.

Record PerfCountSample := {
  ps_sampleId : Z;
  ps_tid : Z;
  ps_count : Z;
  ps_threadState : jsstring;
  ps_pid : Z;
  ps_eventCount : Z;
  ps_ts : list Z
}.

(** What is loaded, and the options of the tree. *)
Record perf := {
  filesData : list (Z * list PerfFile);
  threadData : list (Z * PerfThread);
  callChainData : list (Z * list PerfCallChain);
  isHideThread : bool;
  isHideThreadState : bool;
  isOnlyKernel : bool
}.

Definition perf_clearAll (st : perf) : perf :=
  {| filesData := []; threadData := []; callChainData := []; isHideThread := isHideThread st;
     isHideThreadState := isHideThreadState st; isOnlyKernel := isOnlyKernel st |}.

Definition perfQueryPerfFiles (st : perf) (files : list PerfFile) : perf :=
  {| filesData := map_accumulate pf_fileId push_to (filesData st) (name_file <$> files); threadData := threadData st;
     callChainData := callChainData st; isHideThread := isHideThread st; isHideThreadState := isHideThreadState st;
     isOnlyKernel := isOnlyKernel st |}.

Definition perfQueryPerfThread (st : perf) (threads : list PerfThread) : perf :=
  {| filesData := filesData st; threadData := map_accumulate pt_tid (fun _ t => t) (threadData st) threads;
     callChainData := callChainData st; isHideThread := isHideThread st; isHideThreadState := isHideThreadState st;
     isOnlyKernel := isOnlyKernel st |}.

Definition setPerfCallChainFrameName (st : perf) (c : PerfCallChain) : PerfCallChain :=
  let '(fileName, path) :=
    match map_get (filesData st) (pc_fileId c) with
    | Some (f :: _) => (pf_fileName f, pf_path f)
    | _ => (js "unknown", pc_path c)
    end in
  {| pc_sampleId := pc_sampleId c; pc_name := pc_name c; pc_fileId := pc_fileId c; pc_symbolId := pc_symbolId c;
     pc_vaddrInFile := pc_vaddrInFile c; pc_tid := pc_tid c; pc_fileName := fileName; pc_path := path; pc_canCharge := true;
     pc_isThread := pc_isThread c; pc_isThreadState := pc_isThreadState c |}.

Definition maxDepth : Z := 256.

(** A chain that is longer than the depth loses its first frame. *)
Definition addPerfGroupData (o : option (list PerfCallChain)) (c : PerfCallChain) : list PerfCallChain :=
  let current := default [] o in
  (if maxDepth <? zlen current then drop 1 current else current) ++ [c].

(** The links between neighbours, which nothing reads, are left out. *)
Definition initPerfCallChainTopDown (st : perf) (callChains : list PerfCallChain) : perf :=
  {| filesData := filesData st; threadData := threadData st;
     callChainData := map_accumulate pc_sampleId addPerfGroupData [] (setPerfCallChainFrameName st <$> callChains);
     isHideThread := isHideThread st; isHideThreadState := isHideThreadState st; isOnlyKernel := isOnlyKernel st |}.

(** ** The analysis by library and function *)

Record PerfAnalysisSample := {
  pa_sample : PerfCountSample;
  pa_threadName : jsstring;
  pa_processName : jsstring;
  pa_libId : Z;
  pa_libName : jsstring;
  pa_symbolId : Z;
  pa_symbolName : jsstring
}.

(** The library or the function that the user looks into. *)
Record perf_filter := {
  po_libId : option Z;
  po_libName : option jsstring;
  po_symbolId : option Z;
  po_symbolName : option jsstring
}.

Section Worker.
Context (dataDict : gmap Z jsstring) (st : perf).

(** [dataDict.get(name as number)]: a text is no key of the dictionary. *)
Definition dict_name (n : perf_name) : option jsstring :=
  match n with NameId k => dataDict !! k | NameText _ => None end.

Definition perf_matches (obj : option perf_filter) (c : PerfCallChain) : bool :=
  match obj with
  | None => true
  | Some o =>
      (bool_decide (po_libId o = Some (pc_fileId c)) && bool_decide (po_libName o = Some (pc_fileName c))) ||
      (bool_decide (po_symbolId o = Some (pc_symbolId c)) && bool_decide (po_symbolName o = dict_name (pc_name c)))
  end.

(** A copy of the sample leaves its times out. *)
Definition analysis_copy (s : PerfCountSample) : PerfCountSample :=
  {| ps_sampleId := ps_sampleId s; ps_tid := ps_tid s; ps_count := ps_count s; ps_threadState := ps_threadState s;
     ps_pid := ps_pid s; ps_eventCount := ps_eventCount s; ps_ts := [] |}.

Definition analyse_sample (obj : option perf_filter) (s : PerfCountSample) : option (list PerfAnalysisSample) :=
  callChains ← map_get (callChainData st) (ps_sampleId s);
  lastCallChain ← last callChains;
  thread ← map_get (threadData st) (ps_tid s);
  process ← map_get (threadData st) (ps_pid s);
  Some (if perf_matches obj lastCallChain
        then [{| pa_sample := analysis_copy s;
                 pa_threadName := or_text (pt_threadName thread) (js "Thread");
                 pa_processName := or_text (pt_threadName process) (js "Process");
                 pa_libId := pc_fileId lastCallChain; pa_libName := pc_fileName lastCallChain;
                 pa_symbolId := pc_symbolId lastCallChain;
                 pa_symbolName := default [] (dict_name (pc_name lastCallChain)) |}]
        else []).

Definition combineCallChainForAnalysis (samplesData : list PerfCountSample) (obj : option perf_filter) :
    option (list PerfAnalysisSample) :=
  @concat _ <$> mapM (analyse_sample obj) samplesData.

(** ** The reversed call tree *)

(** [frameChildren] is missing until a merge sets it. *)
Inductive PerfBottomUpStruct :=
  Bu (symbolName : jsstring) (selfTime totalTime eventCount : Z) (tsArray : list Z)
     (frameChildren : option (list PerfBottomUpStruct)) (children : list PerfBottomUpStruct).

Definition bu_name (n : PerfBottomUpStruct) : jsstring := let 'Bu x _ _ _ _ _ _ := n in x.
Definition bu_self (n : PerfBottomUpStruct) : Z := let 'Bu _ x _ _ _ _ _ := n in x.
Definition bu_total (n : PerfBottomUpStruct) : Z := let 'Bu _ _ x _ _ _ _ := n in x.
Definition bu_events (n : PerfBottomUpStruct) : Z := let 'Bu _ _ _ x _ _ _ := n in x.
Definition bu_ts (n : PerfBottomUpStruct) : list Z := let 'Bu _ _ _ _ x _ _ := n in x.
Definition bu_frames (n : PerfBottomUpStruct) : option (list PerfBottomUpStruct) := let 'Bu _ _ _ _ _ x _ := n in x.
Definition bu_children (n : PerfBottomUpStruct) : list PerfBottomUpStruct := let 'Bu _ _ _ _ _ _ x := n in x.

(** [`${item.name}(${item.fileName})`]: the number of the name, not its text. *)
Definition name_text (n : perf_name) : jsstring :=
  match n with NameId k => js_toString 10 k | NameText s => s end.

Definition search_key (item : PerfCallChain) : jsstring := name_text (pc_name item) ++ js "(" ++ pc_fileName item ++ js ")".

Definition node_label (item : PerfCallChain) : jsstring :=
  default [] (dict_name (pc_name item)) ++ js "(" ++ pc_fileName item ++ js ")".

(** [calculateSelfTime] *)
Definition own_time (total : Z) (children : list PerfBottomUpStruct) : Z := total - zsum (bu_total <$> children).

(** The frames of a sample below the children of a node.  The own time of a node is
    computed again whenever a child changes. *)
Fixpoint bu_insert (s : PerfCountSample) (chain : list PerfCallChain) (nodes : list PerfBottomUpStruct) :
    list PerfBottomUpStruct :=
  match chain with
  | [] => nodes
  | item :: rest =>
      (fix go (nodes : list PerfBottomUpStruct) : list PerfBottomUpStruct :=
         match nodes with
         | [] =>
             let children := bu_insert s rest [] in
             [Bu (node_label item) (own_time (ps_count s) children) (ps_count s) (ps_eventCount s) (ps_ts s) None children]
         | Bu name self total events ts frames children :: nodes' =>
             if bool_decide (name = search_key item) then
               let children := bu_insert s rest children in
               let total := total + ps_count s in
               Bu name (own_time total children) total (events + ps_eventCount s) (ts ++ ps_ts s) frames children :: nodes'
             else Bu name self total events ts frames children :: go nodes'
         end) nodes
  end.

(** [copyParentNode]: a copy of every caller, innermost first, with the times of the
    function. *)
Fixpoint copyParentNode (self total events : Z) (ts : list Z) (parents : list jsstring) : list PerfBottomUpStruct :=
  match parents with
  | [] => []
  | p :: parents' => [Bu p self total events ts None (copyParentNode self total events ts parents')]
  end.

Fixpoint bu_recursion (parents : list jsstring) (n : PerfBottomUpStruct) : list PerfBottomUpStruct :=
  let 'Bu name self total events ts _ children := n in
  (if 0 <? self then [Bu name self total events ts None (copyParentNode self total events ts parents)] else []) ++
  flat_map (bu_recursion (name :: parents)) children.

(** [bottomUpStruct.frameChildren?.push(...children)] *)
Definition push_frames (o : option (list PerfBottomUpStruct)) (children : list PerfBottomUpStruct) :
    option (list PerfBottomUpStruct) :=
  match o with Some l => Some (l ++ children) | None => None end.

(** One more node of a level with the name of a row, or a new row.  The events are not
    added up. *)
Definition merge_row (o : option PerfBottomUpStruct) (n : PerfBottomUpStruct) : PerfBottomUpStruct :=
  match o with
  | Some (Bu name self total events ts frames children) =>
      Bu name (self + bu_self n) (total + bu_total n) events (ts ++ bu_ts n) (push_frames frames (bu_children n)) children
  | None => let 'Bu name self total events ts frames children := n in
      Bu name self total events ts (push_frames frames children) children
  end.

(** A level, and below it the frames that were gathered for every row; [levels] bounds
    how deep it goes. *)
Fixpoint mergeTreeBifurcation (levels : nat) (dataArray : list PerfBottomUpStruct) : option (list PerfBottomUpStruct) :=
  match levels with
  | O => None
  | S levels' =>
      mapM (fun d =>
              let 'Bu name self total events ts frames children := d in
              match frames with
              | None => Some (Bu name self total events ts (Some []) children)
              | Some l => kids ← mergeTreeBifurcation levels' l;
                          Some (Bu name self total events ts (Some []) (children ++ kids))
              end) (map_accumulate bu_name merge_row [] dataArray).*2
  end.

Definition topUpDataToBottomUpData (levels : nat) (perfPositiveArray : list PerfBottomUpStruct) : option (list PerfBottomUpStruct) :=
  mergeTreeBifurcation levels (flat_map (bu_recursion []) perfPositiveArray).

(** A sample without a call chain throws. *)
Definition add_sample (topUp : option (list PerfBottomUpStruct)) (s : PerfCountSample) : option (list PerfBottomUpStruct) :=
  nodes ← topUp;
  callChains ← map_get (callChainData st) (ps_sampleId s);
  Some (bu_insert s callChains nodes).

Definition getBottomUp (levels : nat) (samplesData : list PerfCountSample) : option (list PerfBottomUpStruct) :=
  topUp ← foldl add_sample (Some []) samplesData;
  topUpDataToBottomUpData levels topUp.
End Worker.

(** ** Loading *)

(** The last frames of a chain. *)
Definition last_frames (l : list PerfCallChain) : list PerfCallChain := drop (length l - 257) l.

Lemma last_frames_snoc l c : addPerfGroupData (Some (last_frames l)) c = last_frames (l ++ [c]).
Proof.
  unfold addPerfGroupData, last_frames, maxDepth, zlen. cbn [default from_option]. unfold id. rewrite length_drop, length_app. cbn [length].
  destruct (Z.ltb_spec 256 (Z.of_nat (length l - (length l - 257)))).
  - rewrite drop_drop, drop_app_le by lia. f_equal. f_equal. lia.
  - replace (length l - 257)%nat with 0%nat by lia. replace (length l + 1 - 257)%nat with 0%nat by lia. done.
Qed.

(** The call chains that are loaded: every sample has the last 257 of its rows, in the
    order of the rows and with the names of their files. *)
Lemma loaded_chains st rows id :
  map_get (callChainData (initPerfCallChainTopDown st rows)) id =
  match filter (fun c => pc_sampleId c = id) (setPerfCallChainFrameName st <$> rows) with
  | [] => None
  | own => Some (last_frames own)
  end.
Proof.
  unfold initPerfCallChainTopDown. cbn [callChainData]. rewrite map_accumulate_get. cbn [map_get].
  set (own := filter _ _). clearbody own. destruct own as [|c own]; [done|]. induction own as [|d own IH] using rev_ind; [done|].
  rewrite app_comm_cons, foldl_snoc, IH, last_frames_snoc. done.
Qed.

(** ** What the reversed call tree shows *)

Section BottomUp.
Context (dataDict : gmap Z jsstring) (st : perf) (samples : list PerfCountSample).

Notation chain s := (default [] (map_get (callChainData st) (ps_sampleId s))).
Notation label := (node_label dataDict).

(** The function of a sample, and its callers, innermost first. *)
Definition leaf_of (s : PerfCountSample) : option jsstring := head (reverse (label <$> chain s)).
Definition callers_of (s : PerfCountSample) : list jsstring := tail (reverse (label <$> chain s)).

(** Every sample has a call chain and counts; no function of the dictionary is called as
    the number of another. *)
Definition ordinary : Prop :=
  Forall (fun s => is_Some (map_get (callChainData st) (ps_sampleId s)) /\ chain s <> [] /\ 0 < ps_count s) samples /\
  forall s s' f g, s ∈ samples -> s' ∈ samples -> f ∈ chain s -> g ∈ chain s' -> search_key f <> label g.

Lemma insert_fresh s item rest nodes : Forall (fun n => bu_name n <> search_key item) nodes ->
  bu_insert dataDict s (item :: rest) nodes = nodes ++ bu_insert dataDict s (item :: rest) [].
Proof.
  induction 1 as [|[name self total events ts frames children] nodes Hn HF IH]; [done|].
  cbn [bu_insert]. cbn [bu_name] in Hn. rewrite bool_decide_false by done. rewrite <- app_comm_cons. f_equal. exact IH.
Qed.

(** The tree of one sample. *)
Definition leaf_rows (s : PerfCountSample) (labels : list jsstring) : list PerfBottomUpStruct :=
  match labels with
  | [] => []
  | l :: callers =>
      [Bu l (ps_count s) (ps_count s) (ps_eventCount s) (ps_ts s) None
         (copyParentNode (ps_count s) (ps_count s) (ps_eventCount s) (ps_ts s) callers)]
  end.

Lemma insert_one s c : c <> [] -> exists n, bu_insert dataDict s c [] = [n] /\ bu_total n = ps_count s /\ Some (bu_name n) = label <$> head c.
Proof. destruct c as [|item rest]; [done|]. intros _. eexists. split; [reflexivity|done]. Qed.

Lemma chain_rows s c : 0 < ps_count s -> forall parents, c <> [] ->
  flat_map (bu_recursion parents) (bu_insert dataDict s c []) = leaf_rows s (reverse (label <$> c) ++ parents).
Proof.
  intros Hc. induction c as [|item rest IH]; intros parents Hne; [done|]. cbn [bu_insert flat_map bu_recursion].
  rewrite app_nil_r. destruct rest as [|item' rest].
  - cbn [bu_insert flat_map]. rewrite app_nil_r. unfold own_time. cbn [fmap list_fmap zsum foldr]. rewrite Z.sub_0_r.
    destruct (Z.ltb_spec 0 (ps_count s)); [|lia]. done.
  - destruct (insert_one s (item' :: rest) ltac:(done)) as (n & En & Ht & _). unfold own_time at 1. rewrite En at 1.
    cbn [fmap list_fmap]. rewrite zsum_one_elem, Ht, Z.sub_diag. cbn [app]. rewrite IH by done.
    rewrite fmap_cons, !reverse_cons, <- !app_assoc. done.
Qed.

Lemma samples_tree : ordinary ->
  foldl (add_sample dataDict st) (Some []) samples = Some (flat_map (fun s => bu_insert dataDict s (chain s) []) samples).
Proof.
  intros [HF Hd]. assert (Hgen : forall l, l `sublist_of` samples ->
    foldl (add_sample dataDict st) (Some []) l = Some (flat_map (fun s => bu_insert dataDict s (chain s) []) l)).
  { induction l as [|s l IH] using rev_ind; [done|]. intros Hl.
    assert (Hs : s ∈ samples) by (eapply elem_of_sublist; [|exact Hl]; set_solver).
    assert (Hl' : l `sublist_of` samples) by (etrans; [|exact Hl]; by apply sublist_inserts_r).
    rewrite foldl_snoc, IH by done. rewrite flat_map_app. cbn [flat_map]. rewrite app_nil_r.
    destruct (proj1 (Forall_forall _ _) HF s Hs) as ([c Ec] & Hne & Hc). assert (Echain : chain s = c) by (by rewrite Ec).
    unfold add_sample. rewrite Ec. cbn [mbind option_bind]. change (default [] (Some c)) with c. rewrite Echain in Hne.
    destruct c as [|item rest]; [done|]. f_equal. apply insert_fresh. apply Forall_forall. intros n Hn.
    apply list_elem_of_In, in_flat_map in Hn as (s' & Hs'%list_elem_of_In & Hn).
    assert (Hs2 : s' ∈ samples) by (by eapply elem_of_sublist).
    destruct (proj1 (Forall_forall _ _) HF s' Hs2) as (_ & Hne' & _).
    destruct (insert_one s' (chain s') Hne') as (n' & E & _ & Hh). cbn beta in Hn. rewrite E in Hn. destruct Hn as [<-|[]].
    destruct (chain s') as [|g c'] eqn:Eg; [done|]. cbn in Hh. injection Hh as ->. intros Heq.
    apply (Hd s s' item g Hs Hs2); [rewrite Echain; by left|rewrite Eg; by left|by symmetry]. }
  by apply Hgen.
Qed.

Definition leaf_row (s : PerfCountSample) : PerfBottomUpStruct :=
  Bu (default [] (leaf_of s)) (ps_count s) (ps_count s) (ps_eventCount s) (ps_ts s) None
     (copyParentNode (ps_count s) (ps_count s) (ps_eventCount s) (ps_ts s) (callers_of s)).

Lemma reversed_rows : ordinary ->
  flat_map (bu_recursion []) (flat_map (fun s => bu_insert dataDict s (chain s) []) samples) = leaf_row <$> samples.
Proof.
  intros [HF _]. induction HF as [|s l (_ & Hne & Hc) _ IH]; [done|].
  cbn [flat_map]. rewrite flat_map_app, IH, fmap_cons, (chain_rows s (chain s) Hc [] Hne), app_nil_r.
  unfold leaf_row, leaf_of, callers_of. destruct (reverse (label <$> chain s)) as [|l0 callers] eqn:E; [|done].
  apply (f_equal length) in E. rewrite length_reverse, length_fmap in E. destruct (chain s); done.
Qed.

(** A row of the result for the samples of one function. *)
Definition row_shows (own : list PerfCountSample) (r : PerfBottomUpStruct) : Prop :=
  bu_self r = zsum (ps_count <$> own) /\ bu_total r = zsum (ps_count <$> own) /\
  exists s, head own = Some s /\ bu_events r = ps_eventCount s /\
    bu_children r = copyParentNode (ps_count s) (ps_count s) (ps_eventCount s) (ps_ts s) (callers_of s).

Definition no_frames (n : PerfBottomUpStruct) : bool := match bu_frames n with None => true | Some _ => false end.

Lemma merged_row name r :
  (name, r) ∈ map_accumulate bu_name merge_row [] (leaf_row <$> samples) ->
  bu_name r = name /\ bu_frames r = None /\ row_shows (filter (fun s => default [] (leaf_of s) = name) samples) r.
Proof.
  intros Hr%map_accumulate_elem. set (own := filter (fun s => default [] (leaf_of s) = name) samples).
  assert (Eo : filter (fun x => bu_name x = name) (leaf_row <$> samples) = leaf_row <$> own).
  { unfold own. clear. induction samples as [|s l IH]; [done|]. rewrite fmap_cons, !filter_cons.
    change (bu_name (leaf_row s)) with (default [] (leaf_of s)). case_decide; [rewrite fmap_cons|]; by rewrite IH. }
  rewrite Eo in Hr.
  pose proof (run_sum merge_row bu_self bu_self ltac:(by intros [[]|] []) _ _ _ Hr) as S1.
  pose proof (run_sum merge_row bu_total bu_total ltac:(by intros [[]|] []) _ _ _ Hr) as S2.
  pose proof (run_first merge_row (fun n => (bu_name n, bu_events n, bu_children n)) (fun n => (bu_name n, bu_events n, bu_children n))
    ltac:(by intros [] []) ltac:(by intros []) _ _ Hr) as Hh.
  pose proof (run_first merge_row no_frames no_frames ltac:(by intros [? ? ? ? ? [|] ?] []) ltac:(by intros [? ? ? ? ? [|] ?]) _ _ Hr) as Hfr.
  rewrite <- !list_fmap_compose in S1, S2. change (bu_self ∘ leaf_row) with ps_count in S1. change (bu_total ∘ leaf_row) with ps_count in S2.
  destruct own as [|s own'] eqn:E; [done|]. rewrite fmap_cons in Hh, Hfr. cbn [head fmap option_fmap option_map] in Hh, Hfr.
  injection Hh as Hn He Hk. injection Hfr as Hfr.
  assert (Hs : s ∈ own) by (rewrite E; by left). unfold own in Hs. apply list_elem_of_filter in Hs as [Hs _].
  split_and!.
  - by rewrite <- Hn, <- Hs.
  - unfold no_frames in Hfr. by destruct (bu_frames r).
  - split_and!; [exact S1|exact S2|]. exists s. split_and!; [done|by rewrite <- He|by rewrite <- Hk].
Qed.

Lemma leaf_some s : ordinary -> s ∈ samples -> exists l, leaf_of s = Some l.
Proof.
  intros [HF _] Hs. destruct (proj1 (Forall_forall _ _) HF s Hs) as (_ & Hne & _).
  unfold leaf_of. destruct (reverse (label <$> chain s)) as [|l ls] eqn:E; [|by exists l].
  apply (f_equal length) in E. rewrite length_reverse, length_fmap in E. destruct (chain s); done.
Qed.

Lemma leaf_filter name : ordinary ->
  filter (fun s => leaf_of s = Some name) samples = filter (fun s => default [] (leaf_of s) = name) samples.
Proof.
  intros Hord. assert (Hleaf := fun s => leaf_some s Hord). clear Hord. induction samples as [|s l IH]; [done|]. rewrite !filter_cons.
  destruct (Hleaf s) as [x Ex]; [by left|]. rewrite Ex. rewrite IH by (intros; apply Hleaf; by right).
  destruct (decide (x = name)) as [->|Hx]; [by rewrite !decide_True|]. rewrite !decide_False; [done|done|congruence].
Qed.

(** The reversed call tree.  For samples that have call chains and when no function
    is called as a number, the table has one row per function that was on top of a
    sample, and its times are the counts of all these samples.  Below it, however, only
    the callers of the first of these samples are shown, with the count of that sample,
    and the events of the row are those of the first sample. *)
Theorem bottom_up_first_callers levels (Hord : ordinary) :
  exists rows, getBottomUp dataDict st (S levels) samples = Some rows /\
    NoDup (bu_name <$> rows) /\
    (forall name, name ∈ bu_name <$> rows <-> Some name ∈ leaf_of <$> samples) /\
    Forall (fun r => row_shows (filter (fun s => leaf_of s = Some (bu_name r)) samples) r) rows.
Proof.
  set (g := map_accumulate bu_name merge_row [] (leaf_row <$> samples)).
  set (final := fun '(Bu name self total events ts frames children) => Bu name self total events ts (Some []) children).
  pose proof (fun name => leaf_filter name Hord) as Hfilter.
  assert (Hname : forall n, bu_name (final n) = bu_name n) by (by intros []).
  assert (Hnames : bu_name <$> (final <$> g.*2) = bu_name <$> g.*2).
  { rewrite <- list_fmap_compose. apply list_fmap_ext. intros i n _. apply Hname. }
  exists (final <$> g.*2). split_and!.
  - unfold getBottomUp. rewrite samples_tree by done. cbn [mbind option_bind]. unfold topUpDataToBottomUpData.
    rewrite reversed_rows by done. cbn [mergeTreeBifurcation]. fold g.
    assert (HF : Forall (fun n => bu_frames n = None) g.*2).
    { apply Forall_forall. intros n ([k n'] & -> & Hn)%list_elem_of_fmap. by apply merged_row in Hn as (_ & ? & _). }
    clear -HF. induction HF as [|[name self total events ts frames children] l Hn _ IH]; [done|].
    cbn [bu_frames] in Hn. subst frames. cbn [mapM]. rewrite fmap_cons. cbn [mbind option_bind]. rewrite IH. done.
  - rewrite Hnames. apply (nodup_by_key bu_name (fun k => k)); [|apply map_accumulate_nodup; constructor].
    intros k n Hn. by apply merged_row in Hn as [? _].
  - intros name. rewrite Hnames. split.
    + intros (n & -> & ([k n'] & -> & Hn)%list_elem_of_fmap)%list_elem_of_fmap. apply merged_row in Hn as (Hk & _ & _ & _ & s & Hh & _). cbn.
      assert (Hs : s ∈ filter (fun s => leaf_of s = Some k) samples) by (rewrite Hfilter; by apply head_Some_elem_of).
      apply list_elem_of_filter in Hs as [Hl Hs]. rewrite Hk, <- Hl. by apply list_elem_of_fmap_2.
    + intros (s & Hl & Hs)%list_elem_of_fmap.
      destruct (foldl (fun o x => Some (merge_row o x)) None (filter (fun x => bu_name x = name) (leaf_row <$> samples))) as [r|] eqn:E.
      * apply (map_accumulate_elem bu_name merge_row) in E. fold g in E. destruct (merged_row _ _ E) as [<- _].
        apply list_elem_of_fmap_2. exact (list_elem_of_fmap_2 snd _ _ E).
      * apply run_None in E. exfalso. assert (Hr : leaf_row s ∈ filter (fun x => bu_name x = name) (leaf_row <$> samples)).
        { apply list_elem_of_filter. split; [cbn; by rewrite <- Hl|by apply list_elem_of_fmap_2]. }
        rewrite E in Hr. by apply not_elem_of_nil in Hr.
  - apply Forall_fmap, Forall_forall. intros n ([k n'] & -> & Hn)%list_elem_of_fmap. cbn beta. apply merged_row in Hn as (Hk & _ & Hrow).
    unfold compose. cbn [snd]. rewrite Hname, Hfilter, Hk. destruct n'. exact Hrow.
Qed.
End BottomUp.

(** Two samples in the same function, called from two others. *)
Definition bx_frame (id name : Z) : PerfCallChain :=
  {| pc_sampleId := id; pc_name := NameId name; pc_fileId := 1; pc_symbolId := name; pc_vaddrInFile := 0; pc_tid := 0;
     pc_fileName := []; pc_path := []; pc_canCharge := true; pc_isThread := false; pc_isThreadState := false |}.

Definition bx_perf : perf :=
  initPerfCallChainTopDown
    (perfQueryPerfThread
       (perfQueryPerfFiles
          {| filesData := []; threadData := []; callChainData := []; isHideThread := false; isHideThreadState := false; isOnlyKernel := false |}
          [{| pf_fileId := 1; pf_path := js "/lib/a.so"; pf_fileName := [] |}])
       [{| pt_tid := 5; pt_pid := 5; pt_threadName := js "app"; pt_processName := js "app" |}])
    [bx_frame 1 10; bx_frame 1 12; bx_frame 2 11; bx_frame 2 12].

Definition bx_dict : gmap Z jsstring := {[ 10 := js "main"; 11 := js "work"; 12 := js "read" ]}.

Definition bx_sample (id count : Z) : PerfCountSample :=
  {| ps_sampleId := id; ps_tid := 5; ps_count := count; ps_threadState := js "Running"; ps_pid := 5; ps_eventCount := 10 * count; ps_ts := [id] |}.

Lemma bottom_up_first_callers_witness :
  (exists rows, getBottomUp bx_dict bx_perf 1 [bx_sample 1 3; bx_sample 2 4] = Some rows /\ NoDup (bu_name <$> rows)) /\
  match getBottomUp bx_dict bx_perf 1 [bx_sample 1 3; bx_sample 2 4] with
  | Some [r] => (bu_name r, bu_total r, bu_events r, List.map bu_name (bu_children r)) = (js "read(a.so)", 7, 30, [js "main(a.so)"])
  | _ => False
  end.
Proof.
  split; [|vm_compute; reflexivity].
  destruct (bottom_up_first_callers bx_dict bx_perf [bx_sample 1 3; bx_sample 2 4] 0) as (rows & E & HN & _).
  - split; [repeat constructor; try (by vm_compute); by eexists|].
    intros s s' f g Hs%list_elem_of_In Hs'%list_elem_of_In Hf%list_elem_of_In Hg%list_elem_of_In.
    destruct Hs as [<-|[<-|[]]], Hs' as [<-|[<-|[]]]; vm_compute in Hf, Hg;
      destruct Hf as [<-|[<-|[]]], Hg as [<-|[<-|[]]]; vm_compute; discriminate.
  - by exists rows.
Defined.
