(* ===== verification/PerfTree.v ===== *)
(** * The call tree of the processor samples

    [freshPerfCallchains] of [trace/database/logic-worker/ProcedureLogicWorkerPerf.ts]: the
    stacks of the samples, with a frame for the thread and one for its state in front,
    are merged from the outermost or from the innermost frame into one tree per root
    function and process, and the trees of a process hang below a node of their own.
    While a tree is built its shown children are its children, so a node is a tree
    here.  The filters that hide nodes are those of [CallTree] and not repeated.  The
    identifiers of the nodes, the texts of percentages and the copies of the library
    and the address that the chart shows are left out.

    Functions return [None] when the code throws: a sample of an unknown thread. *)

From S2P Require Import Prelude JsRuntime HeapModel Grouping FileCallTree PathTree PerfWorker.
Open Scope Z_scope.

Record PerfCallChainMerageData := {
  pn_symbolName : jsstring;
  pn_symbol : jsstring;
  pn_pid : Z;
  pn_tid : Z;
  pn_libName : jsstring;
  pn_vaddrInFile : Z;
  pn_path : jsstring;
  pn_canCharge : bool;
  pn_selfDur : Z;
  pn_dur : Z;
  pn_count : Z;
  pn_eventCount : Z;
  pn_tsArray : list Z;
  pn_isThread : bool;
  pn_isState : bool;
  pn_isProcess : bool
}.

Definition new_node : PerfCallChainMerageData :=
  {| pn_symbolName := []; pn_symbol := []; pn_pid := 0; pn_tid := 0; pn_libName := []; pn_vaddrInFile := 0; pn_path := [];
     pn_canCharge := true; pn_selfDur := 0; pn_dur := 0; pn_count := 0; pn_eventCount := 0; pn_tsArray := [];
     pn_isThread := false; pn_isState := false; pn_isProcess := false |}.

Section Tree.
Context (dataDict : gmap Z jsstring) (st : perf).

(** The text of a name: a number may be missing in the dictionary. *)
Definition frame_name (n : perf_name) : option jsstring :=
  match n with NameId k => dataDict !! k | NameText s => Some s end.

Definition shown_name (n : perf_name) : jsstring := default [] (frame_name n).

(** A node without a name takes everything from the frame. *)
Definition merageCallChainSample (node : PerfCallChainMerageData) (c : PerfCallChain) (s : PerfCountSample) (isEnd : bool) :
    PerfCallChainMerageData :=
  let fresh := bool_decide (pn_symbolName node = []) in
  let name := shown_name (pc_name c) in
  {| pn_symbolName := if fresh then name else pn_symbolName node;
     pn_symbol := if fresh then name ++ js " " ++ (if bool_decide (pc_fileName c = []) then [] else js "(" ++ pc_fileName c ++ js ")")
                  else pn_symbol node;
     pn_pid := if fresh then ps_pid s else pn_pid node;
     pn_tid := if fresh then ps_tid s else pn_tid node;
     pn_libName := if fresh then pc_fileName c else pn_libName node;
     pn_vaddrInFile := if fresh then pc_vaddrInFile c else pn_vaddrInFile node;
     pn_path := if fresh && negb (bool_decide (pc_path c = [])) then pc_path c else pn_path node;
     pn_canCharge := if fresh then pc_canCharge c else pn_canCharge node;
     pn_selfDur := if isEnd then pn_selfDur node + ps_count s else pn_selfDur node;
     pn_dur := pn_dur node + ps_count s;
     pn_count := pn_count node + ps_count s;
     pn_eventCount := pn_eventCount node + ps_eventCount s;
     pn_tsArray := pn_tsArray node ++ ps_ts s;
     pn_isThread := pc_isThread c || pn_isThread node;
     pn_isState := pc_isThreadState c || pn_isState node;
     pn_isProcess := pn_isProcess node |}.

(** [child.symbolName === name]: a missing name equals no text. *)
Definition is_child (c : PerfCallChain) (t : rose PerfCallChainMerageData) : bool :=
  bool_decide (Some (pn_symbolName (rose_data t)) = frame_name (pc_name c)).

(** The frames below a node.  The sample goes to every child with the name of the frame,
    and on below the last of these; without one a child is added. *)
Fixpoint mergeChildrenByIndex (s : PerfCountSample) (frames : list PerfCallChain) (children : list (rose PerfCallChainMerageData)) :
    list (rose PerfCallChainMerageData) :=
  match frames with
  | [] => children
  | c :: rest =>
      let isEnd := bool_decide (rest = []) in
      if existsb (is_child c) children then
        (fix go (children : list (rose PerfCallChainMerageData)) : list (rose PerfCallChainMerageData) :=
           match children with
           | [] => []
           | Rose d kids :: children' =>
               if is_child c (Rose d kids)
               then Rose (merageCallChainSample d c s isEnd)
                      (if existsb (is_child c) children' then kids else mergeChildrenByIndex s rest kids) :: go children'
               else Rose d kids :: go children'
           end) children
      else children ++ [Rose (merageCallChainSample new_node c s isEnd) (mergeChildrenByIndex s rest [])]
  end.

(** The frames that the worker adds. *)
Definition thread_frame (s : PerfCountSample) (thread : PerfThread) : PerfCallChain :=
  {| pc_sampleId := 0; pc_name := NameText (or_text (pt_threadName thread) (js "Thread") ++ js "(" ++ js_toString 10 (ps_tid s) ++ js ")");
     pc_fileId := 0; pc_symbolId := 0; pc_vaddrInFile := 0; pc_tid := ps_tid s; pc_fileName := []; pc_path := [];
     pc_canCharge := false; pc_isThread := true; pc_isThreadState := false |}.

Definition state_frame (s : PerfCountSample) : PerfCallChain :=
  let name := or_text (ps_threadState s) (js "Unknown State") in
  {| pc_sampleId := 0; pc_name := NameText name; pc_fileId := 0; pc_symbolId := 0; pc_vaddrInFile := 0; pc_tid := ps_tid s;
     pc_fileName := if bool_decide (name = js "-") then js "Unknown Thread State" else []; pc_path := [];
     pc_canCharge := false; pc_isThread := false; pc_isThreadState := true |}.

Definition kernel : jsstring := js "[kernel.kallsyms]".

Definition addOtherCallchainsData (s : PerfCountSample) (chain : list PerfCallChain) : option (list PerfCallChain) :=
  thread ← map_get (threadData st) (ps_tid s);
  let l := if isHideThreadState st then chain else state_frame s :: chain in
  let l := if isHideThread st then l else thread_frame s thread :: l in
  Some (if isOnlyKernel st then filter (fun c => pc_fileName c = kernel \/ pc_path c = kernel) l else l).

(** The frames of a sample in the order of merging; a sample without a chain has none. *)
Definition sample_frames (isTopDown : bool) (s : PerfCountSample) : option (list PerfCallChain) :=
  match map_get (callChainData st) (ps_sampleId s) with
  | Some (c :: chain) => l ← addOtherCallchainsData s (c :: chain); Some (if isTopDown then l else reverse l)
  | _ => Some []
  end.

(** A sample with its first frame and the others. *)
Record stack := { sk_sample : PerfCountSample; sk_root : PerfCallChain; sk_rest : list PerfCallChain }.

(** [symbolName + perfSample.pid] *)
Definition root_key (k : stack) : jsstring := shown_name (pc_name (sk_root k)) ++ js_toString 10 (ps_pid (sk_sample k)).

Definition add_root (o : option (rose PerfCallChainMerageData)) (k : stack) : rose PerfCallChainMerageData :=
  let '(d, kids) := match o with Some (Rose d kids) => (d, kids) | None => (new_node, []) end in
  Rose (merageCallChainSample d (sk_root k) (sk_sample k) false) (mergeChildrenByIndex (sk_sample k) (sk_rest k) kids).

Definition sample_stack (isTopDown : bool) (s : PerfCountSample) : option (option stack) :=
  l ← sample_frames isTopDown s;
  Some match l with [] => None | c :: rest => Some {| sk_sample := s; sk_root := c; sk_rest := rest |} end.

(** [currentTreeMapData] *)
Definition treeMap (stacks : list stack) : list (jsstring * rose PerfCallChainMerageData) := map_accumulate root_key add_root [] stacks.

(** A process: the times of its trees added up. *)
Definition add_process (o : option (rose PerfCallChainMerageData)) (t : rose PerfCallChainMerageData) : option (rose PerfCallChainMerageData) :=
  let d := rose_data t in
  match o with
  | Some (Rose p kids) =>
      Some (Rose {| pn_symbolName := pn_symbolName p; pn_symbol := pn_symbol p; pn_pid := pn_pid p; pn_tid := pn_tid p;
                    pn_libName := pn_libName p; pn_vaddrInFile := pn_vaddrInFile p; pn_path := pn_path p;
                    pn_canCharge := pn_canCharge p; pn_selfDur := pn_selfDur p; pn_dur := pn_dur p + pn_dur d;
                    pn_count := pn_count p + pn_dur d; pn_eventCount := pn_eventCount p + pn_eventCount d;
                    pn_tsArray := pn_tsArray p ++ pn_tsArray d; pn_isThread := pn_isThread p; pn_isState := pn_isState p;
                    pn_isProcess := pn_isProcess p |} (kids ++ [t]))
  | None =>
      thread ← map_get (threadData st) (pn_tid d);
      let name := or_text (pt_processName thread) (js "Process") ++ js "(" ++ js_toString 10 (pn_pid d) ++ js ")" in
      Some (Rose {| pn_symbolName := name; pn_symbol := name; pn_pid := 0; pn_tid := pn_tid d; pn_libName := []; pn_vaddrInFile := 0;
                    pn_path := []; pn_canCharge := false; pn_selfDur := 0; pn_dur := pn_dur d; pn_count := pn_dur d;
                    pn_eventCount := pn_eventCount d; pn_tsArray := pn_tsArray d; pn_isThread := false; pn_isState := false;
                    pn_isProcess := true |} [t])
  end.

(** [rootMerageMap], by the text of the process number. *)
Definition mergeNodeData (trees : list (rose PerfCallChainMerageData)) : option (list (jsstring * rose PerfCallChainMerageData)) :=
  foldl (fun m t => m ← m;
                    let pid := js_toString 10 (pn_pid (rose_data t)) in
                    p ← add_process (map_get m pid) t;
                    Some (map_set m pid p)) (Some []) trees.

(** [allProcess] *)
Definition freshPerfCallchains (samples : list PerfCountSample) (isTopDown : bool) : option (list (rose PerfCallChainMerageData)) :=
  stacks ← mapM (sample_stack isTopDown) samples;
  rootMerageMap ← mergeNodeData (Object_values (treeMap (omap id stacks)));
  Some (Object_values rootMerageMap).

(** ** Merging is the merging of paths *)

Notation node_key := pn_symbolName.
Notation item := (PerfCallChain * PerfCountSample * bool)%type.

Definition item_key (x : item) : jsstring := shown_name (pc_name x.1.1).
Definition item_upd (o : option PerfCallChainMerageData) (x : item) : PerfCallChainMerageData :=
  merageCallChainSample (default new_node o) x.1.1 x.1.2 x.2.

(** The frames with their sample, and whether they are the last. *)
Fixpoint items (s : PerfCountSample) (frames : list PerfCallChain) : list item :=
  match frames with
  | [] => []
  | c :: rest => (c, s, bool_decide (rest = [])) :: items s rest
  end.

Definition named (c : PerfCallChain) : Prop := is_Some (frame_name (pc_name c)).

Notation tree_ins := (ins node_key item_key item_upd).

Lemma item_some a x : node_key a = item_key x -> node_key (item_upd (Some a) x) = node_key a.
Proof. unfold item_upd, item_key. cbn. case_bool_decide; congruence. Qed.

Lemma item_none x : node_key (item_upd None x) = item_key x.
Proof. reflexivity. Qed.

Lemma is_child_key s c e t : named c -> is_child c t = true <-> node_key (rose_data t) = item_key (c, s, e).
Proof.
  intros [n Hn]. unfold is_child, item_key, shown_name. cbn [fst]. rewrite bool_decide_eq_true, Hn. cbn. split; [by intros [= ->]|by intros ->].
Qed.

Lemma no_child s c e ts : named c -> keyed_by node_key (item_key (c, s, e)) ts = [] -> existsb (is_child c) ts = false.
Proof.
  intros Hc E. apply not_true_is_false. rewrite existsb_exists. intros (t & Ht%list_elem_of_In & H%(is_child_key s c e)); [|done].
  assert (Hin : t ∈ keyed_by node_key (item_key (c, s, e)) ts) by (by apply list_elem_of_filter). rewrite E in Hin.
  by apply not_elem_of_nil in Hin.
Qed.

Lemma merge_ins s frames : Forall named frames -> forall ts, unique_paths node_key ts ->
  mergeChildrenByIndex s frames ts = tree_ins (items s frames) ts.
Proof.
  induction 1 as [|c rest Hc _ IH]; intros ts HU; [done|].
  assert (Hlen := unique_paths_key node_key (item_key (c, s, bool_decide (rest = []))) ts HU).
  assert (Hkids : forall t, t ∈ ts -> mergeChildrenByIndex s rest (rose_children t) = tree_ins (items s rest) (rose_children t)).
  { intros t Ht. apply IH. by apply (unique_paths_children node_key ts). }
  assert (Hnew : mergeChildrenByIndex s rest [] = tree_ins (items s rest) []) by (apply IH, unique_paths_nil).
  clear HU IH. cbn [mergeChildrenByIndex items]. set (e := bool_decide (rest = [])) in *. cbv zeta.
  induction ts as [|[d kids] ts IHts]; [cbn; by rewrite Hnew|].
  unfold keyed_by in Hlen. rewrite filter_cons in Hlen. cbn [rose_data] in Hlen.
  pose proof (Hkids (Rose d kids) ltac:(by left)) as Hk. cbn [rose_children] in Hk.
  cbn [existsb]. destruct (is_child c (Rose d kids)) eqn:Ei; cbn [orb].
  - apply (is_child_key s c e) in Ei as E; [|done]. cbn [rose_data] in E. cbn [ins]. rewrite (decide_True (P := node_key d = _)) in Hlen |- * by done.
    cbn [length] in Hlen. assert (Hnil : keyed_by node_key (item_key (c, s, e)) ts = []) by (apply nil_length_inv; unfold keyed_by; lia).
    rewrite (no_child s c e ts Hc Hnil). unfold item_upd at 1. cbn [default from_option fst snd]. rewrite <- Hk. f_equal.
    clear -Hc Hnil. apply (no_child s c e) in Hnil; [|done]. induction ts as [|[d' kids'] ts IH]; [done|].
    cbn [existsb] in Hnil. apply orb_false_iff in Hnil as [H1 H2]. rewrite H1. f_equal. by apply IH.
  - assert (E : node_key d <> item_key (c, s, e)).
    { intros E. apply not_true_iff_false in Ei. apply Ei. by apply (is_child_key s c e). }
    rewrite (decide_False (P := node_key d = _)) in Hlen by done.
    assert (E' : tree_ins ((c, s, e) :: items s rest) (Rose d kids :: ts) = Rose d kids :: tree_ins ((c, s, e) :: items s rest) ts)
      by (cbn [ins]; by rewrite decide_False).
    rewrite E', <- IHts; [by destruct (existsb (is_child c) ts)|exact Hlen|intros; apply Hkids; by right].
Qed.

(** ** What the trees say *)

Definition names (frames : list PerfCallChain) : list jsstring := (fun c => shown_name (pc_name c)) <$> frames.

Lemma along_items s frames : forall path, path <> [] ->
  match along item_key path (items s frames) with
  | Some x => path `prefix_of` names frames /\ x.1.2 = s /\ x.2 = bool_decide (names frames = path)
  | None => ~ path `prefix_of` names frames
  end.
Proof.
  induction frames as [|c rest IH]; intros [|k path] Hp; try done; cbn [items along].
  - intros Hpre. by apply prefix_nil_not in Hpre.
  - unfold item_key at 1. cbn [fst names fmap list_fmap]. destruct (decide (k = shown_name (pc_name c))) as [->|Hk].
    + destruct path as [|k' path].
      * cbn [fst snd]. split_and!; [apply prefix_cons, prefix_nil|done|]. apply bool_decide_ext. destruct rest; [done|]. split; [done|]. intros [=].
      * specialize (IH (k' :: path) ltac:(done)). destruct (along item_key (k' :: path) (items s rest)) as [x|].
        -- destruct IH as (Hpre & Hs & He). split_and!; [by apply prefix_cons|done|]. rewrite He. apply bool_decide_ext.
           unfold names. split; [by intros ->|by intros [= ->]].
        -- intros Hpre. apply IH. by apply prefix_cons_inv_2 in Hpre.
    + intros Hpre. apply prefix_cons_inv_1 in Hpre. done.
Qed.

(** The trees of the stacks that share a root. *)
Definition root_kids (own : list stack) : list (rose PerfCallChainMerageData) :=
  foldl (fun ts k => tree_ins (items (sk_sample k) (sk_rest k)) ts) [] own.

Lemma root_kids_fold own path :
  unique_paths node_key (root_kids own) /\
  nodes_at node_key path (root_kids own) =
    option_list (foldl (fun o x => Some (item_upd o x)) None (omap (along item_key path) ((fun k => items (sk_sample k) (sk_rest k)) <$> own))).
Proof.
  pose proof (nodes_at_fold node_key item_key item_upd item_some item_none ((fun k => items (sk_sample k) (sk_rest k)) <$> own) path) as HN.
  assert (E : foldl (fun ts frames => tree_ins frames ts) [] ((fun k => items (sk_sample k) (sk_rest k)) <$> own) = root_kids own).
  { clear HN. unfold root_kids. generalize (@nil (rose PerfCallChainMerageData)). induction own as [|k own IH]; intros ts; [done|]. cbn. apply IH. }
  by rewrite E in HN.
Qed.

Definition named_stack (k : stack) : Prop := Forall named (sk_rest k).

Lemma root_children own t : Forall named_stack own -> foldl (fun o k => Some (add_root o k)) None own = Some t ->
  rose_children t = root_kids own.
Proof.
  intros HF. revert t. induction own as [|k own IH] using rev_ind; [done|]. intros t. rewrite foldl_snoc. intros [= <-].
  apply Forall_app in HF as [HF [Hk _]%Forall_cons]. unfold root_kids. rewrite foldl_snoc. fold (root_kids own).
  destruct (foldl _ None own) as [[d kids]|] eqn:E; cbn [add_root rose_children].
  - specialize (IH HF _ eq_refl). cbn in IH. subst kids. apply merge_ins; [done|apply (root_kids_fold own [])].
  - apply run_None in E as ->. apply merge_ins; [done|apply unique_paths_nil].
Qed.

Notation count_of k := (ps_count (sk_sample k)).
Notation events_of k := (ps_eventCount (sk_sample k)).

(** A node that some stacks went through, of which some ended there. *)
Definition node_says (through ends : list stack) (n : PerfCallChainMerageData) : Prop :=
  pn_dur n = zsum ((fun k => count_of k) <$> through) /\ pn_count n = pn_dur n /\
  pn_eventCount n = zsum ((fun k => events_of k) <$> through) /\
  pn_selfDur n = zsum ((fun k => count_of k) <$> ends).

(** What the tree of a root should be for the stacks of the root: the root has all of
    them, and at every path of names below it there is one node if some of the stacks
    go on this way, with exactly these stacks, and none otherwise. *)
Definition tree_says (own : list stack) (t : rose PerfCallChainMerageData) : Prop :=
  node_says own [] (rose_data t) /\
  forall path, path <> [] ->
    match filter (fun k => path `prefix_of` names (sk_rest k)) own with
    | [] => nodes_at node_key path (rose_children t) = []
    | through => exists n, nodes_at node_key path (rose_children t) = [n] /\
        node_says through (filter (fun k => names (sk_rest k) = path) own) n
    end.

Lemma along_sum (g : PerfCountSample -> bool -> Z) own path : path <> [] ->
  zsum ((fun x : item => g x.1.2 x.2) <$> omap (along item_key path) ((fun k => items (sk_sample k) (sk_rest k)) <$> own)) =
  zsum ((fun k => g (sk_sample k) (bool_decide (names (sk_rest k) = path))) <$> filter (fun k => path `prefix_of` names (sk_rest k)) own).
Proof.
  intros Hp. induction own as [|k own IH]; [done|]. rewrite fmap_cons, filter_cons. cbn [omap list_omap].
  pose proof (along_items (sk_sample k) (sk_rest k) path Hp) as Ha. destruct (along item_key path _) as [x|].
  - destruct Ha as (Hpre & Hs & He). rewrite decide_True by done. rewrite !fmap_cons, !zsum_cons, Hs, He. f_equal. exact IH.
  - rewrite decide_False by done. exact IH.
Qed.

Lemma along_nil own path : path <> [] ->
  omap (along item_key path) ((fun k => items (sk_sample k) (sk_rest k)) <$> own) = [] <->
  filter (fun k => path `prefix_of` names (sk_rest k)) own = [].
Proof.
  intros Hp. induction own as [|k own IH]; [done|]. rewrite fmap_cons, filter_cons. cbn [omap list_omap].
  pose proof (along_items (sk_sample k) (sk_rest k) path Hp) as Ha. destruct (along item_key path _) as [x|].
  - destruct Ha as (Hpre & _). by rewrite decide_True.
  - by rewrite decide_False.
Qed.

Lemma root_says own t : Forall named_stack own -> foldl (fun o k => Some (add_root o k)) None own = Some t -> tree_says own t.
Proof.
  intros HF Ht. pose proof (root_children own t HF Ht) as Hkids. split.
  - assert (Hsum : forall (f : PerfCallChainMerageData -> Z) g, f new_node = 0 ->
      (forall n c s, f (merageCallChainSample n c s false) = f n + g s) ->
      f (rose_data t) = zsum ((fun k => g (sk_sample k)) <$> own)).
    { intros f g H0 Hf. apply (run_sum add_root (fun t => f (rose_data t)) (fun k => g (sk_sample k))) in Ht; [exact Ht|].
      intros [[d kids]|] k; cbn [add_root rose_data from_option]; rewrite Hf; [done|by rewrite H0]. }
    split_and!.
    + by apply (Hsum pn_dur ps_count).
    + rewrite (Hsum pn_dur ps_count), (Hsum pn_count ps_count) by done. done.
    + by apply (Hsum pn_eventCount ps_eventCount).
    + rewrite (Hsum pn_selfDur (fun _ => 0)); [|done|intros; cbn; lia]. apply zsum_zero, Forall_forall. done.
  - intros path Hp. destruct (root_kids_fold own path) as [_ E]. rewrite Hkids, E.
    pose proof (along_nil own path Hp) as Hnil.
    destruct (foldl (fun o x => Some (item_upd o x)) None _) as [n|] eqn:En.
    + destruct (filter (fun k => path `prefix_of` names (sk_rest k)) own) as [|k through] eqn:Et.
      { rewrite (proj2 Hnil eq_refl) in En. done. }
      exists n. split; [done|]. rewrite <- Et.
      assert (Hsum : forall (f : PerfCallChainMerageData -> Z) (g : PerfCountSample -> bool -> Z), f new_node = 0 ->
        (forall n c s e, f (merageCallChainSample n c s e) = f n + g s e) ->
        f n = zsum ((fun k => g (sk_sample k) (bool_decide (names (sk_rest k) = path))) <$>
                filter (fun k => path `prefix_of` names (sk_rest k)) own)).
      { intros f g H0 Hf. rewrite <- along_sum by done. apply (run_sum item_upd f (fun x : item => g x.1.2 x.2)) in En; [exact En|].
        intros [m|] x; unfold item_upd; cbn [default from_option]; rewrite Hf; [done|by rewrite H0]. }
      split_and!.
      * by apply (Hsum pn_dur (fun s _ => ps_count s)).
      * rewrite (Hsum pn_dur (fun s _ => ps_count s)), (Hsum pn_count (fun s _ => ps_count s)) by done. done.
      * by apply (Hsum pn_eventCount (fun s _ => ps_eventCount s)).
      * rewrite (Hsum pn_selfDur (fun s e => if e then ps_count s else 0)); [|done|intros ? ? ? []; cbn; lia].
        rewrite !zsum_filter_if. apply zsum_ext, Forall_forall. intros k' _.
        destruct (decide (names (sk_rest k') = path)) as [->|Hne]; [rewrite bool_decide_true by done; by rewrite decide_True|].
        rewrite bool_decide_false by done. by case_decide.
    + apply run_None, Hnil in En. by rewrite En.
Qed.

(** ** The processes *)

Definition known (s : PerfCountSample) : Prop := is_Some (map_get (threadData st) (ps_tid s)).

Lemma sample_stacks isTopDown samples : Forall known samples -> is_Some (mapM (sample_stack isTopDown) samples).
Proof.
  intros HF. apply mapM_is_Some. eapply Forall_impl; [exact HF|]. cbn beta. intros s [thread Hs].
  assert (Hl : exists l, sample_frames isTopDown s = Some l).
  { unfold sample_frames. destruct (map_get (callChainData st) (ps_sampleId s)) as [[|c chain]|]; [by exists []| |by exists []].
    unfold addOtherCallchainsData. rewrite Hs. eexists. reflexivity. }
  destruct Hl as [l Hl]. change (is_Some (sample_stack isTopDown s)). unfold sample_stack. rewrite Hl. eexists. reflexivity.
Qed.

Lemma sample_stacks_from isTopDown samples stacks k : mapM (sample_stack isTopDown) samples = Some stacks ->
  Some k ∈ stacks -> sk_sample k ∈ samples.
Proof.
  intros HM%mapM_Some Hk. induction HM as [|s o samples stacks Ho _ IH]; [by apply not_elem_of_nil in Hk|].
  apply elem_of_cons in Hk as [<-|Hk]; [|right; by apply IH]. unfold sample_stack in Ho.
  destruct (sample_frames isTopDown s) as [[|c rest]|]; cbn in Ho; [done| |done]. injection Ho as <-. by left.
Qed.

(** The thread of a root is that of one of its samples. *)
Lemma root_thread own t : Forall (fun k => known (sk_sample k)) own ->
  foldl (fun o k => Some (add_root o k)) None own = Some t -> is_Some (map_get (threadData st) (pn_tid (rose_data t))).
Proof.
  intros HF. revert t. induction own as [|k own IH] using rev_ind; [done|]. intros t. rewrite foldl_snoc. intros [= <-].
  apply Forall_app in HF as [HF [Hk _]%Forall_cons]. destruct (foldl _ None own) as [[d kids]|] eqn:E; cbn.
  - specialize (IH HF _ eq_refl). cbn in IH. by case_bool_decide.
  - exact Hk.
Qed.

(** One more tree of a process whose thread is known. *)
Definition process_upd (o : option (rose PerfCallChainMerageData)) (t : rose PerfCallChainMerageData) : rose PerfCallChainMerageData :=
  default t (add_process o t).

Definition tree_pid (t : rose PerfCallChainMerageData) : jsstring := js_toString 10 (pn_pid (rose_data t)).

Lemma mergeNodeData_accumulate trees : Forall (fun t => is_Some (map_get (threadData st) (pn_tid (rose_data t)))) trees ->
  mergeNodeData trees = Some (map_accumulate tree_pid process_upd [] trees).
Proof.
  unfold mergeNodeData, map_accumulate. induction trees as [|t trees IH] using rev_ind; [done|].
  intros [HF [[thread Ht] _]%Forall_cons]%Forall_app. rewrite !foldl_snoc, IH by done. cbn [mbind option_bind].
  set (m := foldl _ [] trees). fold (tree_pid t). set (o := map_get m (tree_pid t)). clearbody o.
  assert (Hp : exists p, add_process o t = Some p) by (unfold add_process; rewrite Ht; destruct o as [[p kids]|]; eexists; reflexivity).
  destruct Hp as [p Hp]. unfold process_upd. by rewrite Hp.
Qed.

Lemma process_sum f (Hnew : forall t p, add_process None t = Some p -> f (rose_data p) = f (rose_data t))
    (Hadd : forall q t p, add_process (Some q) t = Some p -> f (rose_data p) = f (rose_data q) + f (rose_data t)) :
  forall o t, f (rose_data (process_upd o t)) = from_option (fun q => f (rose_data q)) 0 o + f (rose_data t).
Proof.
  intros [q|] t; unfold process_upd; cbn [from_option].
  - destruct (add_process (Some q) t) as [p|] eqn:E; [by apply Hadd|]. destruct q. done.
  - destruct (add_process None t) as [p|] eqn:E; [|done]. exact (Hnew t p E).
Qed.

Lemma process_trees trees t : Forall (fun t => is_Some (map_get (threadData st) (pn_tid (rose_data t)))) trees ->
  foldl (fun o t => Some (process_upd o t)) None trees = Some t -> rose_children t = trees.
Proof.
  intros HF. revert t. induction trees as [|x trees IH] using rev_ind; [done|]. intros t. rewrite foldl_snoc. intros [= <-].
  apply Forall_app in HF as [HF [[thread Hx] _]%Forall_cons].
  destruct (foldl (fun o t => Some (process_upd o t)) None trees) as [[p kids]|] eqn:E.
  - specialize (IH HF _ eq_refl). cbn in IH. by subst kids.
  - apply run_None in E as ->. unfold process_upd, add_process. by rewrite Hx.
Qed.

Notation dur_of t := (pn_dur (rose_data t)).

Notation trees_of own := (Object_values (treeMap own)).
Notation thread_known t := (is_Some (map_get (threadData st) (pn_tid (rose_data t)))).

Lemma trees_known own : Forall (fun k => known (sk_sample k)) own -> Forall (fun t => thread_known t) (trees_of own).
Proof.
  intros HK. rewrite Object_values_perm. apply Forall_forall. intros t ([k t'] & -> & Ht%map_accumulate_elem)%list_elem_of_fmap.
  eapply root_thread; [|exact Ht]. apply Forall_forall. intros x [_ Hx]%list_elem_of_filter. by apply (proj1 (Forall_forall _ _) HK).
Qed.

Lemma trees_sum own f g : f new_node = 0 -> (forall n c s, f (merageCallChainSample n c s false) = f n + g s) ->
  zsum ((fun t => f (rose_data t)) <$> trees_of own) = zsum ((fun k => g (sk_sample k)) <$> own).
Proof.
  intros H0 Hf. rewrite Object_values_perm. unfold treeMap.
  rewrite (accumulate_sum add_root root_key (fun t => f (rose_data t)) (fun k => g (sk_sample k))); [done|].
  intros [[d kids]|] k; cbn [add_root rose_data from_option]; rewrite Hf; [done|by rewrite H0].
Qed.

(** Columns of a process that add up those of its trees. *)
Definition adds_up (f : PerfCallChainMerageData -> Z) : Prop :=
  forall o t, f (rose_data (process_upd o t)) = from_option (fun q => f (rose_data q)) 0 o + f (rose_data t).

Lemma dur_adds_up : adds_up pn_dur.
Proof.
  unfold adds_up. apply process_sum; [|by intros [q kids] t p [= <-]].
  intros t p. unfold add_process. destruct (map_get _ _); cbn; [by intros [= <-]|done].
Qed.

Lemma events_add_up : adds_up pn_eventCount.
Proof.
  unfold adds_up. apply process_sum; [|by intros [q kids] t p [= <-]].
  intros t p. unfold add_process. destruct (map_get _ _); cbn; [by intros [= <-]|done].
Qed.

Lemma processes_sum f trees : adds_up f ->
  zsum ((fun p => f (rose_data p)) <$> Object_values (map_accumulate tree_pid process_upd [] trees)) = zsum ((fun t => f (rose_data t)) <$> trees).
Proof.
  intros Hf. rewrite Object_values_perm.
  by rewrite (accumulate_sum process_upd tree_pid (fun p => f (rose_data p)) (fun t => f (rose_data t)) Hf).
Qed.

(** A process has the trees of its number. *)
Lemma process_has trees p : Forall (fun t => thread_known t) trees ->
  p ∈ Object_values (map_accumulate tree_pid process_upd [] trees) ->
  dur_of p = zsum ((fun t => dur_of t) <$> rose_children p) /\
  exists pid, rose_children p = filter (fun t => pn_pid (rose_data t) = pid) trees.
Proof.
  intros HT. rewrite Object_values_perm. intros ([k p'] & -> & Hp%map_accumulate_elem)%list_elem_of_fmap. cbn [snd].
  set (mine := filter (fun t => tree_pid t = k) trees) in *.
  assert (Hmine : Forall (fun t => thread_known t) mine).
  { apply Forall_forall. intros t [_ Ht]%list_elem_of_filter. by apply (proj1 (Forall_forall _ _) HT). }
  rewrite (process_trees mine p' Hmine Hp).
  split; [exact (run_sum process_upd (fun t => dur_of t) (fun t => dur_of t) dur_adds_up mine None p' Hp)|].
  destruct mine as [|t mine'] eqn:E; [done|]. exists (pn_pid (rose_data t)). rewrite <- E.
  assert (Ht : t ∈ mine) by (rewrite E; by left). unfold mine in Ht. apply list_elem_of_filter in Ht as [Ht _].
  unfold mine. apply list_filter_iff. intros x. rewrite <- Ht. unfold tree_pid. split; [apply js_toString_inj|by intros ->].
Qed.

(** C30: The call tree of the processor samples.  When the threads of the samples are
    known the tree is built, from the outermost or the innermost frame; no sample is
    lost or counted twice: the times and the events of the processes are those of the
    samples that have frames.  A process has the trees of its number, and their times.
    When the names of the functions are known, each tree has at every path of names one
    node for exactly the stacks of its root that go on this way, with their samples and
    events, and with those as its own that end there. *)
Theorem perf_tree_merges samples isTopDown (Hknown : Forall known samples) :
  exists stacks processes,
    mapM (sample_stack isTopDown) samples = Some stacks /\ freshPerfCallchains samples isTopDown = Some processes /\
    let own := omap id stacks in
    zsum ((fun p => dur_of p) <$> processes) = zsum ((fun k => count_of k) <$> own) /\
    zsum ((fun p => pn_eventCount (rose_data p)) <$> processes) = zsum ((fun k => events_of k) <$> own) /\
    Forall (fun p => dur_of p = zsum ((fun t => dur_of t) <$> rose_children p) /\
      exists pid, rose_children p = filter (fun t => pn_pid (rose_data t) = pid) (Object_values (treeMap own))) processes /\
    (Forall named_stack own -> forall key,
      match map_get (treeMap own) key with
      | None => filter (fun k => root_key k = key) own = []
      | Some t => tree_says (filter (fun k => root_key k = key) own) t
      end).
Proof.
  destruct (sample_stacks isTopDown samples Hknown) as [stacks HM].
  exists stacks, (Object_values (map_accumulate tree_pid process_upd [] (trees_of (omap id stacks)))). split; [done|].
  assert (HT : Forall (fun t => thread_known t) (trees_of (omap id stacks))).
  { apply trees_known, Forall_forall. intros k ([k'|] & Hk & [= ->])%list_elem_of_omap.
    apply (proj1 (Forall_forall _ _) Hknown). by apply (sample_stacks_from isTopDown samples stacks). }
  split; [unfold freshPerfCallchains; rewrite HM; cbn [mbind option_bind]; by rewrite mergeNodeData_accumulate|].
  intros own. fold own in HT |- *. split_and!.
  - rewrite (processes_sum pn_dur _ dur_adds_up). by apply (trees_sum own pn_dur ps_count).
  - rewrite (processes_sum pn_eventCount _ events_add_up). by apply (trees_sum own pn_eventCount ps_eventCount).
  - apply Forall_forall. intros p Hp. by apply process_has.
  - intros HN key. unfold treeMap. rewrite map_accumulate_get. cbn [map_get].
    destruct (foldl _ None _) as [t|] eqn:E; [|by apply run_None in E]. apply root_says; [|done].
    apply Forall_forall. intros k [_ Hk]%list_elem_of_filter. by apply (proj1 (Forall_forall _ _) HN).
Qed.
End Tree.

Lemma perf_tree_merges_witness : exists processes,
  freshPerfCallchains bx_dict bx_perf [bx_sample 1 3; bx_sample 2 4] true = Some processes /\
  zsum ((fun p => pn_dur (rose_data p)) <$> processes) = 7.
Proof.
  destruct (perf_tree_merges bx_dict bx_perf [bx_sample 1 3; bx_sample 2 4] true) as (stacks & processes & HM & HP & Hd & _);
    [repeat constructor; by eexists|].
  exists processes. split; [done|]. rewrite Hd. vm_compute in HM. injection HM as <-. vm_compute. reflexivity.
Defined.

(** The trees below the thread and its state, from the outermost frame. *)
Example bx_tree :
  match freshPerfCallchains bx_dict bx_perf [bx_sample 1 3; bx_sample 2 4] true with
  | Some [Rose p [t]] =>
      (pn_symbolName p, pn_symbolName (rose_data t)) = (js "app(5)", js "app(5)") /\
      List.map (fun n => (pn_dur n, pn_selfDur n))
        (nodes_at pn_symbolName [js "Running"; js "main"; js "read"] (rose_children t)) = [(3, 3)] /\
      List.map (fun n => (pn_dur n, pn_selfDur n)) (nodes_at pn_symbolName [js "Running"] (rose_children t)) = [(7, 0)]
  | _ => False
  end.
Proof. vm_compute. repeat split; reflexivity. Qed.
