(* ===== verification/ParallelSweep.v ===== *)
(** * Parallelism: the sweep over running slices

    [ParallelUtil.ts]: [HanldParalLogic] walks over the running slices of the threads
    of a process in the order of their starts, keeps the slices that run at the moment
    ([waitArr]) and hands every stretch of time in which they do not change to a
    callback, with the slices that run in it.

    A slice ends at [null] when the database has no duration for it; arithmetic reads
    [null] as 0.  One round of the loop is [paral_step]; the part of the array that
    [index] has not reached is a list. *)

From S2P Require Import Prelude JsRuntime Grouping.
Open Scope Z_scope.

(** A row of [queryRunningThread] and [queryCoreRunningThread]. *)
Record running := Running {
  rn_pid : Z;
  rn_tid : Z;
  rn_pName : option jsstring;
  rn_ts : Z;
  rn_endTs : option Z
}.

#[export] Instance running_eq_dec : EqDecision running.
Proof. solve_decision. Defined.

(** [dumpObj]; [len] is the length of [listSlice]. *)
Record dump := Dump {
  d_ts : Z;
  d_endTs : Z;
  d_listSlice : list running;
  d_len : Z
}.

Definition dump_of (from to : Z) (list : list running) : dump :=
  {| d_ts := from; d_endTs := to; d_listSlice := list; d_len := zlen list |}.

(** A number or [null] in an arithmetic context. *)
Definition null_num (o : option Z) : Z := default 0 o.

(** [Math.min(...waitArr.map((item) => item.endTs))] of an array that is not empty. *)
Definition minEndTs (x : running) (waitArr : list running) : Z :=
  foldr (fun s m => Z.min (null_num (rn_endTs s)) m) (null_num (rn_endTs x)) waitArr.

(** [findIndex((item) => item.endTs === minEndTs)], and
    [if (minIndex !== -1) { waitArr.splice(minIndex, 1) }]: a [null] is not a number. *)
Definition splice_min (waitArr : list running) (m : Z) : list running :=
  match list_find (fun s => rn_endTs s = Some m) waitArr with
  | Some (minIndex, _) => delete minIndex waitArr
  | None => waitArr
  end.

(** [waitArr], [globalTs], and the rows from [index] on. *)
Record sweep := Sweep {
  waitArr : list running;
  globalTs : Z;
  pending : list running
}.

(** One round: the next state, and the stretch that is handed over if there is one. *)
Definition paral_step (s : sweep) : option (sweep * option dump) :=
  match waitArr s, pending s with
  | [], [] => None
  | [], x :: rest => Some (Sweep [x] (rn_ts x) rest, None)
  | w :: ws, rest =>
      let wait := w :: ws in
      let m := minEndTs w ws in
      if globalTs s =? m then Some (Sweep (splice_min wait m) (globalTs s) rest, None)
      else match rest with
      | x :: rest' =>
          if rn_ts x <? m then
            if globalTs s =? rn_ts x then Some (Sweep (wait ++ [x]) (globalTs s) rest', None)
            else Some (Sweep (wait ++ [x]) (rn_ts x) rest', Some (dump_of (globalTs s) (rn_ts x) wait))
          else Some (Sweep (splice_min wait m) m rest, Some (dump_of (globalTs s) m wait))
      | [] => Some (Sweep (splice_min wait m) m rest, Some (dump_of (globalTs s) m wait))
      end
  end.

(** The loop, with the callback's [param] threaded through; [None] when the rounds run
    out. *)
Fixpoint paral_loop {P} (func : P -> dump -> P) (fuel : nat) (s : sweep) (param : P) : option P :=
  match fuel with
  | O => None
  | S fuel =>
      match paral_step s with
      | None => Some param
      | Some (s', None) => paral_loop func fuel s' param
      | Some (s', Some d) => paral_loop func fuel s' (func param d)
      end
  end.

(** A slice is pushed and spliced once, and one more round ends the loop. *)
Definition paral_fuel (arr : list running) : nat := S (2 * length arr).

Definition HanldParalLogic {P} (func : P -> dump -> P) (fuel : nat) (arr : list running) (param : P) : option P :=
  paral_loop func fuel (Sweep [] 0 arr) param.

(** The stretches themselves, in order. *)
Fixpoint stretches (fuel : nat) (s : sweep) : option (list dump) :=
  match fuel with
  | O => None
  | S fuel =>
      match paral_step s with
      | None => Some []
      | Some (s', d) => app (option_list d) <$> stretches fuel s'
      end
  end.

(** ** What is active when *)

Definition active_at (t : Z) (s : running) : bool :=
  match rn_endTs s with Some e => (rn_ts s <=? t) && (t <? e) | None => false end.

Definition active (t : Z) (arr : list running) : list running := filter (fun s => active_at t s) arr.

(** Rows with an end that is not before their start, as the queries and the clipping
    to the selection leave them. *)
Definition ended (s : running) : Prop := exists e, rn_endTs s = Some e /\ 0 <= rn_ts s <= e.

Definition starts_le (a b : running) : Prop := rn_ts a <= rn_ts b.

Definition swept (arr : list running) : Prop := Forall ended arr /\ StronglySorted starts_le arr.

Instance ended_dec s : Decision (ended s).
Proof.
  refine (match rn_endTs s as o return rn_endTs s = o -> Decision (ended s) with
          | Some e => fun E => cast_if (decide (0 <= rn_ts s <= e))
          | None => fun E => right _ end eq_refl).
  - by exists e.
  - intros (e' & E' & H). congruence.
  - intros (e' & E' & H). congruence.
Defined.

(** ** The loop is a fold over the stretches *)

Lemma paral_loop_fold {P} (func : P -> dump -> P) fuel : forall s param,
  paral_loop func fuel s param = foldl func param <$> stretches fuel s.
Proof.
  induction fuel as [|fuel IH]; intros s param; [done|]. cbn [paral_loop stretches].
  destruct (paral_step s) as [[s' [d|]]|]; [| |done]; rewrite IH; by destruct (stretches fuel s').
Qed.

Lemma stretches_more fuel : forall fuel' s ds, stretches fuel s = Some ds -> (fuel <= fuel')%nat -> stretches fuel' s = Some ds.
Proof.
  induction fuel as [|fuel IH]; intros [|fuel'] s ds E Hf; try (done || lia). cbn [stretches] in E |- *.
  destruct (paral_step s) as [[s' d]|]; [|done]. apply fmap_Some in E as (ds' & E & ->). by rewrite (IH fuel' s' ds' E) by lia.
Qed.

(** ** Stretches that tile the time *)

(** The stretches follow each other from [g] on, each of them is not empty and lists what
    is active all through it, and nothing is active outside of them. *)
Fixpoint in_order (g : Z) (ds : list dump) : Prop :=
  match ds with
  | [] => True
  | d :: ds => g <= d_ts d < d_endTs d /\ in_order (d_endTs d) ds
  end.

Definition within (t : Z) (d : dump) : Prop := d_ts d <= t < d_endTs d.

Definition tiles (g : Z) (arr : list running) (ds : list dump) : Prop :=
  in_order g ds /\
  (forall d, d ∈ ds -> d_listSlice d <> [] /\ d_len d = zlen (d_listSlice d) /\ forall t, within t d -> d_listSlice d = active t arr) /\
  (forall t, g <= t -> active t arr <> [] -> exists d, d ∈ ds /\ within t d).

Lemma in_order_le g ds d : in_order g ds -> d ∈ ds -> g <= d_ts d.
Proof.
  revert g. induction ds as [|d0 ds IH]; intros g; cbn; [by intros _ ?%elem_of_nil|].
  intros [H1 H2] [-> | Hd]%elem_of_cons; [lia|]. specialize (IH _ H2 Hd). lia.
Qed.

Lemma in_order_weaken g g' ds : g <= g' -> in_order g' ds -> in_order g ds.
Proof. destruct ds; cbn; [done|]. intuition lia. Qed.

(** Time in which nothing runs may be put in front, and rows that are over left out. *)
Lemma tiles_idle g g' arr arr' ds :
  g <= g' -> (forall t, g <= t < g' -> active t arr = []) -> (forall t, g' <= t -> active t arr = active t arr') ->
  tiles g' arr' ds -> tiles g arr ds.
Proof.
  intros Hg Hi He (HO & HL & HC). split; [by eapply in_order_weaken|]. split.
  - intros d Hd. destruct (HL d Hd) as (Hn & E & HL'). split; [done|]. split; [done|]. intros t Ht. rewrite He; [by apply HL'|].
    pose proof (in_order_le _ _ _ HO Hd). unfold within in Ht. lia.
  - intros t Ht Ha. destruct (decide (t < g')); [by rewrite Hi in Ha by lia|]. apply HC; [lia|]. by rewrite <- He by lia.
Qed.

(** A stretch may be put in front. *)
Lemma tiles_stretch g g' arr arr' w ds :
  g < g' -> w <> [] -> (forall t, g <= t < g' -> active t arr = w) -> (forall t, g' <= t -> active t arr = active t arr') ->
  tiles g' arr' ds -> tiles g arr (dump_of g g' w :: ds).
Proof.
  intros Hg Hw Hi He (HO & HL & HC). split; [cbn; split; [lia|done]|]. split.
  - intros d [-> | Hd]%elem_of_cons.
    + split; [done|]. split; [done|]. intros t Ht. symmetry. by apply Hi.
    + destruct (HL d Hd) as (Hn & E & HL'). split; [done|]. split; [done|]. intros t Ht. rewrite He; [by apply HL'|].
      pose proof (in_order_le _ _ _ HO Hd). unfold within in Ht. lia.
  - intros t Ht Ha. destruct (decide (t < g')).
    + exists (dump_of g g' w). split; [by left|]. unfold within. cbn. lia.
    + rewrite He in Ha by lia. destruct (HC t) as (d & ? & ?); [lia|done|]. exists d. split; [by right|done].
Qed.

(** ** One round *)

Lemma minEndTs_le w ws s : s ∈ w :: ws -> minEndTs w ws <= null_num (rn_endTs s).
Proof.
  unfold minEndTs. induction ws as [|x ws IH]; cbn [foldr].
  - intros [-> | []%elem_of_nil]%elem_of_cons. lia.
  - intros [-> | [-> | H]%elem_of_cons]%elem_of_cons.
    + specialize (IH ltac:(by left)). lia.
    + lia.
    + specialize (IH ltac:(by right)). lia.
Qed.

Lemma minEndTs_in w ws : exists s, s ∈ w :: ws /\ null_num (rn_endTs s) = minEndTs w ws.
Proof.
  unfold minEndTs. induction ws as [|x ws (s & Hs & E)]; cbn [foldr]; [exists w; split; [by left|done]|].
  destruct (Z.min_dec (null_num (rn_endTs x)) (foldr (fun s m => Z.min (null_num (rn_endTs s)) m) (null_num (rn_endTs w)) ws)) as [-> | ->].
  - exists x. split; [right; by left|done].
  - exists s. split; [|done]. apply elem_of_cons in Hs as [-> | Hs]; [by left|right; by right].
Qed.

(** A row with the least end goes, and the others keep their places. *)
Lemma splice_min_split l m s : s ∈ l -> rn_endTs s = Some m ->
  exists l1 x l2, l = l1 ++ x :: l2 /\ rn_endTs x = Some m /\ splice_min l m = l1 ++ l2.
Proof.
  intros Hs Em. unfold splice_min. destruct (list_find (fun s => rn_endTs s = Some m) l) as [[i x]|] eqn:E.
  - apply list_find_Some in E as (Hi & Hx & _). exists (take i l), x, (drop (S i) l).
    split; [by rewrite take_drop_middle|]. split; [done|apply delete_take_drop].
  - apply list_find_None in E. rewrite Forall_forall in E. by destruct (E s Hs).
Qed.

Lemma active_app t l k : active t (l ++ k) = active t l ++ active t k.
Proof. apply filter_app. Qed.

Lemma active_all t l : Forall (fun s => active_at t s = true) l -> active t l = l.
Proof. intros H. induction H as [|s l E _ IH]; [done|]. unfold active in *. rewrite filter_cons, E. cbn. by rewrite IH. Qed.

Lemma active_none t l : Forall (fun s => active_at t s = false) l -> active t l = [].
Proof. intros H. induction H as [|s l E _ IH]; [done|]. unfold active in *. rewrite filter_cons, E. cbn. done. Qed.

Lemma active_over t e l1 x l2 : rn_endTs x = Some e -> e <= t -> active t (l1 ++ x :: l2) = active t (l1 ++ l2).
Proof.
  intros E Ht. rewrite (active_app t l1 (x :: l2)), (active_app t l1 l2). f_equal. unfold active. rewrite filter_cons, decide_False; [done|].
  unfold active_at. rewrite E. destruct (Z.ltb_spec t e); [lia|]. rewrite andb_false_r. intros [].
Qed.

(** What holds between the rounds. *)
Definition sweep_ok (s : sweep) : Prop :=
  Forall (fun x => ended x /\ rn_ts x <= globalTs s /\ globalTs s <= null_num (rn_endTs x)) (waitArr s) /\
  Forall (fun x => ended x /\ globalTs s <= rn_ts x) (pending s) /\ StronglySorted starts_le (pending s).

Lemma pending_later x rest g : Forall (fun y => ended y /\ g <= rn_ts y) (x :: rest) -> StronglySorted starts_le (x :: rest) ->
  ended x /\ g <= rn_ts x /\ Forall (fun y => ended y /\ rn_ts x <= rn_ts y) rest /\ StronglySorted starts_le rest.
Proof.
  intros [[Hx Hg] HF]%Forall_cons [HS HL]%StronglySorted_inv. split; [done|]. split; [done|]. split; [|done].
  rewrite Forall_forall in HF |- *. rewrite Forall_forall in HL. intros y Hy. split; [by apply HF|by apply HL].
Qed.

Lemma active_waiting t g m w : Forall (fun x => ended x /\ rn_ts x <= g /\ m <= null_num (rn_endTs x)) w -> g <= t < m -> active t w = w.
Proof.
  intros HW Ht. apply active_all. eapply Forall_impl; [exact HW|]. cbn. intros x ((e & E & _) & Hs & He).
  unfold active_at. rewrite E in *. cbn in He. apply andb_true_iff. split; [apply Z.leb_le|apply Z.ltb_lt]; lia.
Qed.

Lemma active_pending t g l : Forall (fun x => ended x /\ g <= rn_ts x) l -> t < g -> active t l = [].
Proof.
  intros HP Ht. apply active_none. eapply Forall_impl; [exact HP|]. cbn. intros x ((e & E & _) & Hs).
  unfold active_at. rewrite E. apply andb_false_iff. left. apply Z.leb_gt. lia.
Qed.

(** The least end among the waiting slices, and what splicing its slice leaves. *)
Lemma least_waiting w ws g (wait := w :: ws) (m := minEndTs w ws) :
  Forall (fun x => ended x /\ rn_ts x <= g /\ g <= null_num (rn_endTs x)) wait ->
  g <= m /\
  Forall (fun x => ended x /\ rn_ts x <= g /\ m <= null_num (rn_endTs x)) wait /\
  (length (splice_min wait m) < length wait)%nat /\
  (forall Q : running -> Prop, Forall Q wait -> Forall Q (splice_min wait m)) /\
  (forall t rest, m <= t -> active t (wait ++ rest) = active t (splice_min wait m ++ rest)).
Proof.
  intros HW. rewrite Forall_forall in HW. destruct (minEndTs_in w ws) as (s & Hs & Es). change (s ∈ wait) in Hs.
  destruct (HW s Hs) as ((e & Ee & _) & _ & Hgs). rewrite Ee in Es, Hgs. cbn in Es, Hgs. subst e.
  destruct (splice_min_split wait m s Hs Ee) as (l1 & x & l2 & El & Ex & Esp).
  split; [done|]. rewrite Esp, El. split.
  - rewrite <- El. apply Forall_forall. intros y Hy. destruct (HW y Hy) as (? & ? & _). split; [done|]. split; [done|].
    by apply minEndTs_le.
  - split; [rewrite !length_app; cbn; lia|]. split; [intros Q; rewrite !Forall_app, Forall_cons; tauto|].
    intros t rest Ht. rewrite <- !app_assoc. by apply (active_over t m).
Qed.

(** A state, and the stretch handed over before it, continue the tiling of another. *)
Definition continues (s : sweep) (s' : sweep) (d : option dump) : Prop :=
  sweep_ok s' /\
  (length (waitArr s') + 2 * length (pending s') < length (waitArr s) + 2 * length (pending s))%nat /\
  forall ds, tiles (globalTs s') (waitArr s' ++ pending s') ds -> tiles (globalTs s) (waitArr s ++ pending s) (option_list d ++ ds).

(** A slice that is over goes, and the stretch up to its end, if there is one. *)
Lemma splice_continues w ws g rest (wait := w :: ws) (m := minEndTs w ws) :
  sweep_ok (Sweep wait g rest) -> Forall (fun x => ended x /\ m <= rn_ts x) rest ->
  continues (Sweep wait g rest) (Sweep (splice_min wait m) m rest) (if g =? m then None else Some (dump_of g m wait)).
Proof.
  intros (HW & HP & HS) HR. cbn [waitArr globalTs pending] in *.
  destruct (least_waiting w ws g HW) as (Hgm & Hle & Hlen & Hsub & Hover). subst wait m.
  split; [|split; [cbn [waitArr pending]; lia|]].
  - split; [|by split]. apply Hsub. eapply Forall_impl; [exact Hle|]. cbn. intros x (? & ? & ?). split; [done|]. split; [lia|done].
  - intros ds. cbn [waitArr globalTs pending]. destruct (Z.eqb_spec g (minEndTs w ws)) as [-> | Hne]; cbn [option_list app].
    + apply tiles_idle; [done|intros; lia|intros; by apply Hover].
    + apply tiles_stretch; [lia|done| |intros; by apply Hover]. intros t Ht.
      change (active t ((w :: ws) ++ rest) = w :: ws).
      rewrite active_app, (active_waiting t g (minEndTs w ws) (w :: ws) Hle Ht), (active_pending t (minEndTs w ws) rest HR) by lia. apply app_nil_r.
Qed.

(** A slice that starts joins, after the stretch up to its start if there is one. *)
Lemma push_continues w ws g x rest (wait := w :: ws) :
  sweep_ok (Sweep wait g (x :: rest)) -> rn_ts x < minEndTs w ws ->
  continues (Sweep wait g (x :: rest)) (Sweep (wait ++ [x]) (rn_ts x) rest) (if g =? rn_ts x then None else Some (dump_of g (rn_ts x) wait)).
Proof.
  intros (HW & HP & HS) Hx. cbn [waitArr globalTs pending] in *.
  destruct (least_waiting w ws g HW) as (Hgm & Hle & _). subst wait.
  destruct (pending_later x rest g HP HS) as (Hex & Hgx & HR & HS').
  split; [|split; [cbn [waitArr pending]; rewrite length_app; cbn; lia|]].
  - split; [|by split]. apply Forall_app. split; [|apply Forall_singleton; cbn].
    + eapply Forall_impl; [exact Hle|]. cbn. intros y (? & ? & ?). split; [done|]. lia.
    + split; [done|]. split; [lia|]. destruct Hex as (e & Ee & He). rewrite Ee. cbn. lia.
  - intros ds. cbn [waitArr globalTs pending]. rewrite <- app_assoc. cbn [app].
    destruct (Z.eqb_spec g (rn_ts x)) as [-> | Hne]; cbn [option_list app]; [done|].
    apply tiles_stretch; [lia|done| |done]. intros t Ht. change (active t ((w :: ws) ++ x :: rest) = w :: ws).
    rewrite active_app, (active_waiting t g (minEndTs w ws) (w :: ws) Hle) by lia.
    rewrite (active_pending t (rn_ts x) (x :: rest)); [apply app_nil_r| |lia]. apply Forall_cons. split; [split; [done|lia]|done].
Qed.

(** The first slice after a time in which none runs. *)
Lemma start_continues g x rest :
  sweep_ok (Sweep [] g (x :: rest)) -> continues (Sweep [] g (x :: rest)) (Sweep [x] (rn_ts x) rest) None.
Proof.
  intros (_ & HP & HS). cbn [waitArr globalTs pending] in *. destruct (pending_later x rest g HP HS) as (Hex & Hgx & HR & HS').
  split; [|split; [cbn; lia|]].
  - split; [|by split]. apply Forall_singleton. cbn. split; [done|]. split; [lia|]. destruct Hex as (e & Ee & He). rewrite Ee. cbn. lia.
  - intros ds. cbn [waitArr globalTs pending option_list app]. apply tiles_idle; [done| |done]. intros t Ht.
    apply (active_pending t (rn_ts x)); [|lia]. apply Forall_cons. split; [split; [done|lia]|done].
Qed.

(** Every round but the last continues. *)
Lemma paral_step_continues s : sweep_ok s ->
  match paral_step s with Some (s', d) => continues s s' d | None => waitArr s = [] /\ pending s = [] end.
Proof.
  destruct s as [[|w ws] g rest]; intros HI; unfold paral_step; cbn [waitArr globalTs pending].
  - destruct rest as [|x rest]; [done|by apply start_continues].
  - assert (Hr : g = minEndTs w ws -> Forall (fun x => ended x /\ minEndTs w ws <= rn_ts x) rest) by (intros <-; by destruct HI as (_ & ? & _)).
    destruct (Z.eqb_spec g (minEndTs w ws)) as [E|E].
    + pose proof (splice_continues w ws g rest HI (Hr E)) as H. rewrite (proj2 (Z.eqb_eq _ _) E) in H. by rewrite E in H |- *.
    + assert (Hs := splice_continues w ws g rest HI). rewrite (proj2 (Z.eqb_neq _ _) E) in Hs.
      destruct rest as [|x rest]; [by apply Hs|]. destruct (Z.ltb_spec (rn_ts x) (minEndTs w ws)) as [Hx|Hx].
      * pose proof (push_continues w ws g x rest HI Hx) as H. destruct (Z.eqb_spec g (rn_ts x)) as [-> | ?]; exact H.
      * apply Hs. destruct HI as (_ & HP & HS). cbn [pending globalTs] in *. destruct (pending_later x rest g HP HS) as (? & ? & HR & _).
        apply Forall_cons. split; [by split|]. eapply Forall_impl; [exact HR|]. cbn. intros y [? ?]. split; [done|lia].
Qed.

Lemma stretches_tile fuel : forall s, sweep_ok s -> (length (waitArr s) + 2 * length (pending s) < fuel)%nat ->
  exists ds, stretches fuel s = Some ds /\ tiles (globalTs s) (waitArr s ++ pending s) ds.
Proof.
  induction fuel as [|fuel IH]; intros s HI Hf; [lia|]. cbn [stretches]. pose proof (paral_step_continues s HI) as H.
  destruct (paral_step s) as [[s' d]|].
  - destruct H as (HI' & Hlt & HT). destruct (IH s' HI' ltac:(lia)) as (ds & -> & Hds). eexists. split; [done|]. by apply HT.
  - destruct H as [-> ->]. exists []. split; [done|]. split; [done|]. split; [by intros d []%elem_of_nil|done].
Qed.

Lemma swept_ok arr : swept arr -> sweep_ok (Sweep [] 0 arr).
Proof.
  intros [HE HS]. split; [constructor|]. split; [|done]. eapply Forall_impl; [exact HE|]. cbn.
  intros x Hx. split; [done|]. destruct Hx as (? & _ & ?). lia.
Qed.

(** ** Sums over stretches are sums over instants *)

Lemma tiles_tail g arr d ds : tiles g arr (d :: ds) -> tiles (d_endTs d) arr ds.
Proof.
  intros ([H1 HO] & HL & HC). split; [done|]. split; [intros d' Hd'; apply HL; by right|].
  intros t Ht Ha. destruct (HC t ltac:(lia) Ha) as (d' & [-> | Hd']%elem_of_cons & Hw); [unfold within in Hw; lia|by exists d'].
Qed.

Lemma tiles_before g arr d ds t : tiles g arr (d :: ds) -> g <= t < d_ts d -> active t arr = [].
Proof.
  intros ([H1 HO] & HL & HC) Ht. destruct (decide (active t arr = [])) as [|Hn]; [done|].
  destruct (HC t ltac:(lia) Hn) as (d' & [-> | Hd']%elem_of_cons & Hw); unfold within in Hw; [lia|].
  pose proof (in_order_le _ _ _ HO Hd'). lia.
Qed.

(** A stretch ends with the rows at the latest. *)
Lemma tiles_end g arr ds d hi : tiles g arr ds -> d ∈ ds ->
  Forall (fun s => null_num (rn_endTs s) <= hi) arr -> d_endTs d <= hi.
Proof.
  intros (HO & HL & _) Hd HF. destruct (HL d Hd) as (Hn & _ & HA).
  assert (Hw : within (d_endTs d - 1) d).
  { revert g HO Hd. clear. induction ds as [|d0 ds IH]; intros g; [by intros _ ?%elem_of_nil|]. cbn.
    intros [H1 HO] [-> | Hd]%elem_of_cons; [unfold within; lia|by apply (IH (d_endTs d0))]. }
  rewrite (HA _ Hw) in Hn. destruct (active (d_endTs d - 1) arr) as [|s l] eqn:E; [done|].
  assert (Hs : s ∈ active (d_endTs d - 1) arr) by (rewrite E; by left). unfold active in Hs.
  apply list_elem_of_filter in Hs as [Ha Hs]. rewrite Forall_forall in HF. specialize (HF s Hs).
  unfold active_at in Ha. destruct (rn_endTs s); [|done]. cbn in HF. apply Is_true_true, andb_true_iff in Ha as [_ Ha%Z.ltb_lt]. lia.
Qed.

Lemma zsum_const {X} (f : X -> Z) c l : Forall (fun x => f x = c) l -> zsum (f <$> l) = zlen l * c.
Proof. induction 1 as [|x l E _ IH]; [done|]. rewrite fmap_cons, zsum_cons, zlen_cons, E, IH. lia. Qed.

Lemma zlen_seqZ a n : 0 <= n -> zlen (seqZ a n) = n.
Proof. intros. unfold zlen. rewrite length_seqZ. lia. Qed.

(** A number that depends on how many slices run adds up over the stretches to what it
    adds up to over the instants. *)
Lemma tiles_sum (f : Z -> Z) (Hf : f 0 = 0) arr hi ds : forall g,
  tiles g arr ds -> g <= hi -> Forall (fun s => null_num (rn_endTs s) <= hi) arr ->
  zsum ((fun d => (d_endTs d - d_ts d) * f (d_len d)) <$> ds) = zsum ((fun t => f (zlen (active t arr))) <$> seqZ g (hi - g)).
Proof.
  induction ds as [|d ds IH]; intros g HT Hg HF.
  - symmetry. apply zsum_zero, Forall_forall. intros t [Ht _]%elem_of_seqZ. destruct HT as (_ & _ & HC).
    destruct (decide (active t arr = [])) as [-> | Hn]; [done|]. destruct (HC t Ht Hn) as (d & []%elem_of_nil & _).
  - pose proof (tiles_end _ _ _ d hi HT ltac:(by left) HF) as Hd. pose proof (tiles_tail _ _ _ _ HT) as HT'.
    pose proof HT as ([H1 _] & HL & _). destruct (HL d ltac:(by left)) as (_ & El & HA).
    rewrite fmap_cons, zsum_cons, (IH _ HT' Hd HF).
    replace (hi - g) with ((d_ts d - g) + ((d_endTs d - d_ts d) + (hi - d_endTs d))) by lia.
    rewrite !seqZ_app, !fmap_app, !zsum_app by lia. replace (g + (d_ts d - g)) with (d_ts d) by lia.
    replace (d_ts d + (d_endTs d - d_ts d)) with (d_endTs d) by lia.
    rewrite (zsum_zero _ (seqZ g _)); [rewrite (zsum_const _ (f (d_len d)) (seqZ (d_ts d) _)), zlen_seqZ; [lia|lia|]|];
      apply Forall_forall; intros t [Ht1 Ht2]%elem_of_seqZ.
    + rewrite El, (HA t); [done|unfold within; lia].
    + by rewrite (tiles_before _ _ _ _ t HT) by lia.
Qed.

(** ** Whether the sweep returns *)

Lemma paral_step_keeps_null s s' d :
  paral_step s = Some (s', d) -> Exists (fun x => rn_endTs x = None) (waitArr s ++ pending s) ->
  Exists (fun x => rn_endTs x = None) (waitArr s' ++ pending s').
Proof.
  assert (Hsp : forall l m rest, Exists (fun x => rn_endTs x = None) (l ++ rest) ->
    Exists (fun x => rn_endTs x = None) (splice_min l m ++ rest)).
  { intros l m rest. unfold splice_min. destruct (list_find _ l) as [[i x]|] eqn:E; [|done].
    apply list_find_Some in E as (Hi & Hx & _). rewrite <- (take_drop_middle l i x Hi) at 1. rewrite delete_take_drop.
    rewrite !Exists_app, Exists_cons, Hx. intuition congruence. }
  destruct s as [[|w ws] g rest]; unfold paral_step; cbn [waitArr globalTs pending].
  - destruct rest as [|x rest]; [done|]. intros [= <- <-]. done.
  - destruct (g =? _); [intros [= <- <-]; apply Hsp|].
    destruct rest as [|x rest]; [intros [= <- <-]; apply Hsp|].
    destruct (_ <? _); [|intros [= <- <-]; apply Hsp].
    destruct (g =? _); intros [= <- <-]; cbn [waitArr pending];
      change ((w :: ws) ++ x :: rest) with ((w :: ws) ++ ([x] ++ rest)); by rewrite app_assoc.
Qed.

Lemma paral_step_decreases s : Forall (fun x => rn_endTs x <> None) (waitArr s ++ pending s) ->
  match paral_step s with
  | Some (s', _) => (length (waitArr s') + 2 * length (pending s') < length (waitArr s) + 2 * length (pending s))%nat /\
                    Forall (fun x => rn_endTs x <> None) (waitArr s' ++ pending s')
  | None => True
  end.
Proof.
  destruct s as [[|w ws] g rest]; unfold paral_step; cbn [waitArr globalTs pending].
  - destruct rest as [|x rest]; [done|]. intros. cbn. split; [lia|done].
  - intros HF. assert (Hsp : (length (splice_min (w :: ws) (minEndTs w ws)) < length (w :: ws))%nat /\
      Forall (fun x => rn_endTs x <> None) (splice_min (w :: ws) (minEndTs w ws) ++ rest)).
    { destruct (minEndTs_in w ws) as (s & Hs & E). apply Forall_app in HF as [HF HR].
      assert (Es : rn_endTs s = Some (minEndTs w ws)).
      { rewrite Forall_forall in HF. specialize (HF s Hs). destruct (rn_endTs s); [|done]. cbn in E. congruence. }
      destruct (splice_min_split _ _ s Hs Es) as (l1 & x & l2 & El & _ & ->). rewrite El in HF |- *.
      apply Forall_app in HF as [? [_ ?]%Forall_cons]. rewrite !length_app, !Forall_app. cbn. split; [lia|done]. }
    assert (Hpush : forall x rest', rest = x :: rest' -> (length ((w :: ws) ++ [x]) + 2 * length rest' < length (w :: ws) + 2 * length rest)%nat /\
      Forall (fun x => rn_endTs x <> None) (((w :: ws) ++ [x]) ++ rest')).
    { intros x rest' ->. rewrite <- app_assoc. split; [rewrite length_app; cbn; lia|done]. }
    destruct Hsp as [Hs1 Hs2]. destruct (g =? _); [split; [cbn [waitArr pending]; lia|done]|].
    destruct rest as [|x rest]; [split; [cbn [waitArr pending]; lia|done]|].
    destruct (_ <? _); [|split; [cbn [waitArr pending]; lia|done]].
    destruct (g =? _); by apply Hpush.
Qed.

Lemma stretches_return fuel : forall s, Forall (fun x => rn_endTs x <> None) (waitArr s ++ pending s) ->
  (length (waitArr s) + 2 * length (pending s) < fuel)%nat -> is_Some (stretches fuel s).
Proof.
  induction fuel as [|fuel IH]; intros s HF Hf; [lia|]. cbn [stretches]. pose proof (paral_step_decreases s HF) as H.
  destruct (paral_step s) as [[s' d]|]; [|by eexists]. destruct H as [Hlt HF']. apply fmap_is_Some, IH; [done|lia].
Qed.

Lemma stretches_hang fuel : forall s, Exists (fun x => rn_endTs x = None) (waitArr s ++ pending s) -> stretches fuel s = None.
Proof.
  induction fuel as [|fuel IH]; intros s HE; [done|]. cbn [stretches].
  destruct (paral_step s) as [[s' d]|] eqn:E; [by rewrite (IH s' (paral_step_keeps_null _ _ _ E HE))|].
  destruct s as [[|w ws] g [|x rest]]; [by apply Exists_nil in HE|done| |]; cbn in E; repeat case_match; done.
Qed.

Lemma sweep_tiled arr (H : swept arr) :
  exists ds, tiles 0 arr ds /\
    forall P (func : P -> dump -> P) param fuel, (paral_fuel arr <= fuel)%nat ->
      HanldParalLogic func fuel arr param = Some (foldl func param ds).
Proof.
  destruct (stretches_tile (paral_fuel arr) (Sweep [] 0 arr) (swept_ok arr H)) as (ds & E & HT); [unfold paral_fuel; cbn; lia|].
  exists ds. split; [done|]. intros P func param fuel Hf. unfold HanldParalLogic. rewrite paral_loop_fold.
  by rewrite (stretches_more (paral_fuel arr) fuel _ ds).
Qed.

(** C31: Rows that are sorted by their starts and have ends: within two rounds per row and
    one more, the sweep returns what folding its callback over a list of stretches
    returns.  The stretches are not empty, come in the order of time and do not overlap;
    each hands over exactly the slices, at least one, in the order of the rows, that run at every
    instant of it; and every instant at which some slice runs lies in one of them. *)
Theorem sweep_tiles_time arr (H : swept arr) :
  exists ds, tiles 0 arr ds /\
    forall P (func : P -> dump -> P) param fuel, (paral_fuel arr <= fuel)%nat ->
      HanldParalLogic func fuel arr param = Some (foldl func param ds).
Proof. exact (sweep_tiled arr H). Qed.

(** C32: The sweep returns exactly when every slice has an end: then it returns within two
    rounds per row and one more, whatever the order of the rows and the callback.  A
    single row without a duration, whose end the query gives as [null], stays among the
    waiting slices for ever, and the loop of the page never ends. *)
Theorem sweep_returns_iff_ended {P} (func : P -> dump -> P) param arr :
  if decide (Forall (fun s => is_Some (rn_endTs s)) arr)
  then is_Some (HanldParalLogic func (paral_fuel arr) arr param)
  else forall fuel, HanldParalLogic func fuel arr param = None.
Proof.
  unfold HanldParalLogic. case_decide as H.
  - rewrite paral_loop_fold. apply fmap_is_Some, stretches_return; [|unfold paral_fuel; cbn; lia].
    eapply Forall_impl; [exact H|]. cbn. intros x Hx. by apply not_eq_None_Some.
  - intros fuel. rewrite paral_loop_fold, stretches_hang; [done|]. cbn [waitArr pending app].
    apply not_Forall_Exists in H; [|intros x; apply _]. eapply Exists_impl; [exact H|]. cbn. intros x Hx. by apply eq_None_not_Some.
Qed.

Definition two_slices : list running := [Running 7 1 None 0 (Some 10); Running 7 2 None 5 (Some 8)].

Example two_slices_stretches :
  HanldParalLogic (fun ds d => ds ++ [(d_ts d, d_endTs d, d_len d)]) 5 two_slices [] = Some [(0, 5, 1); (5, 8, 2); (8, 10, 1)].
Proof. vm_compute. reflexivity. Qed.

Lemma sweep_tiles_time_witness :
  exists ds, tiles 0 two_slices ds /\
    HanldParalLogic (fun n d => n + (d_endTs d - d_ts d) * d_len d) 5 two_slices 0 = Some (foldl (fun n d => n + (d_endTs d - d_ts d) * d_len d) 0 ds).
Proof.
  destruct (sweep_tiles_time two_slices) as (ds & HT & HF).
  - split; [repeat (constructor; [eexists; split; [reflexivity|cbn; lia]|]); constructor|].
    repeat constructor; unfold starts_le; cbn; lia.
  - exists ds. split; [exact HT|]. apply HF. unfold paral_fuel. cbn. lia.
Defined.
