(* ===== verification/ParallelTables.v ===== *)
(** * Parallelism: the two tables

    [TabPaneTimeParallel.ts] and [TabPaneMtParallel.ts] show for how long the threads of a
    process ran at the same time.  The first has a row per process (or per process and
    class of processors) with a child per number of threads that ran together; the second
    takes the pairs of processors that share a physical core and shows for how long both
    were busy with the process.

    The rows come from two queries ([queryRunningThread], [queryCoreRunningThread]), the
    answers of which are parameters; [left] and [right] bound the selection.  The texts
    [`${pid}`] and [`${pid} ${key}`] that the maps use as keys are the numbers and pairs
    themselves.  A number that starts as [null] counts as zero when it is added to.  The
    sweep ([ParallelSweep]) is run with the rounds that suffice whenever it returns at
    all; [None] means that it does not.  The second table is computed by calls that wait
    for queries; what they do between two of them is here, the page that they share is in
    [MtPage]. *)

From Stdlib Require Import QArith Qround.
From S2P Require Import Prelude JsRuntime HeapModel Grouping SwimFilter ParallelSweep.
Open Scope Z_scope.

Definition UNIT : Z := 1000000.

(** [q.toFixed(3)] of a number that is not negative; [None] is NaN. *)
Definition thousandths_text (n : Z) : jsstring :=
  js_toString 10 (n / 1000) ++ js "." ++ (if n mod 1000 <? 10 then js "00" else if n mod 1000 <? 100 then js "0" else []) ++
  js_toString 10 (n mod 1000).

Definition toFixed3 (q : option Q) : jsstring :=
  match q with Some q => thousandths_text (Qfloor (q * 1000 + (1 # 2))) | None => js "NaN" end.

(** A process of the table: its name, or a placeholder when there is none. *)
Definition process_title (s : running) : jsstring :=
  match rn_pName s with
  | Some ((_ :: _) as name) => name ++ js " " ++ js_toString 10 (rn_pid s)
  | _ => js "[NULL] " ++ js_toString 10 (rn_pid s)
  end.

(** The row cut to the selection. *)
Definition clip_slice (lo hi : Z) (s : running) : running :=
  {| rn_pid := rn_pid s; rn_tid := rn_tid s; rn_pName := rn_pName s;
     rn_ts := if rn_ts s <? lo then lo else rn_ts s;
     rn_endTs := if hi <? null_num (rn_endTs s) then Some hi else rn_endTs s |}.

Definition slice_dur (s : running) : Z := null_num (rn_endTs s) - rn_ts s.

(** [if (!(setArr.has(tid))) { tidArr.push(tid) }] *)
Definition add_tid (tidArr : list Z) (tid : Z) : list Z :=
  if bool_decide (tid ∈ tidArr) then tidArr else tidArr ++ [tid].

(** The rows of a process, as both tables collect them; [v_dur] is [dur] of the first and
    [gourpDur] of the second. *)
Record collected := {
  v_pid : Z;
  v_tid : Z;
  v_title : jsstring;
  v_tidArr : list Z;
  v_dur : Z;
  v_stateItem : list running
}.

Definition collect (o : option collected) (s : running) : collected :=
  match o with
  | Some v => {| v_pid := v_pid v; v_tid := v_tid v; v_title := v_title v;
                 v_tidArr := add_tid (v_tidArr v) (rn_tid s);
                 v_dur := v_dur v + slice_dur s;
                 v_stateItem := v_stateItem v ++ [s] |}
  | None => {| v_pid := rn_pid s; v_tid := rn_tid s; v_title := process_title s;
               v_tidArr := [rn_tid s]; v_dur := slice_dur s; v_stateItem := [s] |}
  end.

Definition collect_rows (lo hi : Z) (rows : list running) : list (Z * collected) :=
  map_accumulate rn_pid collect [] (clip_slice lo hi <$> rows).

(** The sweep with enough rounds. *)
Definition sweep_rows {P} (func : P -> dump -> P) (arr : list running) (param : P) : option P :=
  HanldParalLogic func (paral_fuel arr) arr param.

Inductive core_type := CoreL | CoreM | CoreS.

#[export] Instance core_type_eq_dec : EqDecision core_type.
Proof. solve_decision. Defined.

Definition core_text (k : core_type) : jsstring :=
  match k with CoreL => js "L" | CoreM => js "M" | CoreS => js "S" end.

(** [largeCores], [midCores], [smallCores], in the order of the entries of [cpuObj]. *)
Record core_classes := { largeCores : list Z; midCores : list Z; smallCores : list Z }.

Definition cpuObj (c : core_classes) : list (core_type * list Z) :=
  [(CoreL, largeCores c); (CoreM, midCores c); (CoreS, smallCores c)].

(** Rows of which the database knows the durations. *)
Definition all_ended (rows : list running) : Prop := Forall (fun s => is_Some (rn_endTs s)) rows.

#[export] Instance all_ended_dec rows : Decision (all_ended rows).
Proof. apply Forall_dec. intros s. apply _. Defined.

Section Tables.
Context `{Doubles}.
Variable winCpuCount : positive.
Variables lo hi : Z.

Definition quotient (a b : Z) : option Q := if b =? 0 then None else Some (fdiv (inject_Z a) (inject_Z b)).
Definition percent (a b : Z) : option Q := (fun q => fmul q 100) <$> quotient a b.
Definition in_unit (n : Z) : jsstring := toFixed3 (quotient n UNIT).
Definition load_of (dur : Z) : Q := fdiv (inject_Z dur) (inject_Z (100 * UNIT * Zpos winCpuCount)).

(** [null + q] is [q]. *)
Definition null_add (o : option Q) (q : Q) : Q := match o with Some p => fadd p q | None => q end.

(** ** The table of numbers of threads *)

Record degree := {
  g_tidArr : list Z;
  g_allParallel : Q;
  g_parallelNum : Z;
  g_parallelDur : jsstring;
  g_pDur : Z;
  g_stateItem : list running
}.

(** [hanldMapLogic] of [TabPaneTimeParallel]: a stretch with one thread opens no row.
    [value.dur] is not 0 here, because the slices of the stretch last. *)
Definition time_hanldMapLogic (value : collected) (pMap : list (Z * degree)) (dumpObj : dump) : list (Z * degree) :=
  let pDur := d_endTs dumpObj - d_ts dumpObj in
  let pSlice := fmul (fdiv (inject_Z (d_len dumpObj * pDur)) (inject_Z (v_dur value))) 100 in
  match map_get pMap (d_len dumpObj) with
  | Some pObj =>
      map_set pMap (d_len dumpObj)
        {| g_tidArr := g_tidArr pObj; g_allParallel := fadd (g_allParallel pObj) pSlice; g_parallelNum := g_parallelNum pObj;
           g_parallelDur := in_unit (g_pDur pObj + pDur); g_pDur := g_pDur pObj + pDur; g_stateItem := g_stateItem pObj |}
  | None =>
      if d_len dumpObj =? 1 then pMap
      else map_set pMap (d_len dumpObj)
        {| g_tidArr := v_tidArr value; g_allParallel := pSlice; g_parallelNum := d_len dumpObj;
           g_parallelDur := in_unit pDur; g_pDur := pDur; g_stateItem := v_stateItem value |}
  end.

(** A child as it is shown: [allParallel] is a text by then. *)
Record shown_degree := {
  sd_allParallel : jsstring;
  sd_parallelNum : Z;
  sd_parallelDur : jsstring
}.

Definition show_degree (g : degree) : shown_degree :=
  {| sd_allParallel := toFixed3 (Some (g_allParallel g)); sd_parallelNum := g_parallelNum g; sd_parallelDur := g_parallelDur g |}.

(** A row of the table; [parallelNum] and [parallelDur] of a row of a class are dashes
    when nothing ran together. *)
Record shown_value := {
  sv_pid : Z;
  sv_tid : Z;
  sv_title : jsstring;
  sv_tCount : Z;
  sv_dur : jsstring;
  sv_load : jsstring;
  sv_allParallel : jsstring;
  sv_dashes : bool;
  sv_children : list shown_degree
}.

Definition sum_allParallel (pMap : list (Z * degree)) : option Q :=
  foldl (fun o g => Some (null_add o (g_allParallel g))) None pMap.*2.

Definition allParallel_text (pMap : list (Z * degree)) : jsstring :=
  match sum_allParallel pMap with None => toFixed3 (Some 0%Q) | Some q => toFixed3 (Some q) end.

(** [showTreeChart], for one process. *)
Definition showTreeChart_value (value : collected) : option shown_value :=
  (fun pMap : list (Z * degree) =>
     {| sv_pid := v_pid value; sv_tid := v_tid value; sv_title := v_title value;
        sv_tCount := zlen (v_tidArr value); sv_dur := in_unit (v_dur value);
        sv_load := toFixed3 (Some (load_of (v_dur value)));
        sv_allParallel := allParallel_text pMap; sv_dashes := false;
        sv_children := show_degree <$> pMap.*2 |})
  <$> sweep_rows (time_hanldMapLogic value) (v_stateItem value) [].

(** [getAllCoreData] with [handleAllParallelData] and [showTreeChart]. *)
Definition getAllCoreData (rows : list running) : option (list shown_value) :=
  mapM (fun kv => showTreeChart_value kv.2) (collect_rows lo hi rows).

(** A process with its classes: [dur] and [load] add up. *)
Record process_row := {
  pr_pid : Z;
  pr_tid : Z;
  pr_title : jsstring;
  pr_dur : Z;
  pr_load : option Q;
  pr_children : list shown_value
}.

Definition new_process (s : running) : process_row :=
  {| pr_pid := rn_pid s; pr_tid := rn_tid s; pr_title := process_title s; pr_dur := 0; pr_load := None; pr_children := [] |}.

(** [if (!dataSourceMap.has(pid)) { dataSourceMap.set(pid, ...) }] for the rows in turn. *)
Definition open_processes {V} (open : running -> V) (m : list (Z * V)) (rows : list running) : list (Z * V) :=
  foldl (fun m s => if map_has m (rn_pid s) then m else map_set m (rn_pid s) (open s)) m rows.

(** [showCoreTreeChart], for one process of a class. *)
Definition showCoreTreeChart_value (key : core_type) (dataSourceMap : list (Z * process_row)) (value : collected) : option (list (Z * process_row)) :=
  (fun pMap : list (Z * degree) =>
     match map_get dataSourceMap (v_pid value) with
     | None => dataSourceMap
     | Some obj =>
         map_set dataSourceMap (v_pid value)
           {| pr_pid := pr_pid obj; pr_tid := pr_tid obj; pr_title := pr_title obj;
              pr_dur := pr_dur obj + v_dur value;
              pr_load := Some (null_add (pr_load obj) (load_of (v_dur value)));
              pr_children := pr_children obj ++
                [{| sv_pid := v_pid value; sv_tid := v_tid value; sv_title := core_text key;
                    sv_tCount := zlen (v_tidArr value); sv_dur := in_unit (v_dur value);
                    sv_load := toFixed3 (Some (load_of (v_dur value)));
                    sv_allParallel := allParallel_text pMap; sv_dashes := bool_decide (pMap = []);
                    sv_children := show_degree <$> pMap.*2 |}] |}
     end)
  <$> sweep_rows (time_hanldMapLogic value) (v_stateItem value) [].

(** [hanldeGroupParalleData] *)
Definition hanldeGroupParalleData (rows : list running) (key : core_type) (dataSourceMap : list (Z * process_row)) : option (list (Z * process_row)) :=
  foldl (fun om kv => om ≫= fun m => showCoreTreeChart_value key m kv.2)
    (Some (open_processes new_process dataSourceMap (clip_slice lo hi <$> rows))) (collect_rows lo hi rows).

(** The row of a process as shown; [null.toFixed] would throw. *)
Record shown_process := {
  sp_pid : Z;
  sp_tid : Z;
  sp_title : jsstring;
  sp_dur : jsstring;
  sp_load : jsstring;
  sp_children : list shown_value
}.

Definition show_process (p : process_row) : res shown_process :=
  match pr_load p with
  | None => Throw TypeError
  | Some q => Ok {| sp_pid := pr_pid p; sp_tid := pr_tid p; sp_title := pr_title p; sp_dur := in_unit (pr_dur p);
                    sp_load := toFixed3 (Some q); sp_children := pr_children p |}
  end.

Definition res_map {A B} (f : A -> res B) (l : list A) : res (list B) :=
  foldr (fun x r => let* y := f x in let* ys := r in Ok (y :: ys)) (Ok []) l.

(** The classes that have processors, one query each. *)
Definition core_groups (query : list Z -> list running) (c : core_classes) : option (list (Z * process_row)) :=
  foldl (fun om kv => om ≫= fun m => match kv.2 with [] => Some m | val => hanldeGroupParalleData (query val) kv.1 m end)
    (Some []) (cpuObj c).

(** [getCoreGroupData] *)
Definition getCoreGroupData (query : list Z -> list running) (c : core_classes) : option (res (list shown_process)) :=
  (fun m : list (Z * process_row) => res_map show_process m.*2) <$> core_groups query c.

(** ** The table of physical cores *)

(** [hanldMapLogic] of [TabPaneMtParallel] *)
Definition mt_hanldMapLogic (param : Z) (dumpObj : dump) : Z :=
  if d_len dumpObj =? 1 then param else param + (d_endTs dumpObj - d_ts dumpObj).

(** The class both processors of a group belong to, the last one when there are several;
    [arr[1]] of a single processor is [undefined]. *)
Definition includes_at (val arr : list Z) (i : nat) : bool :=
  match arr !! i with Some c => bool_decide (c ∈ val) | None => false end.

Definition handleSamePhysicsCore (arr : list Z) (obj : list (core_type * list Z)) : option core_type :=
  if 2 <? zlen arr then None
  else foldl (fun core kv => if includes_at kv.2 arr 0 && includes_at kv.2 arr 1 then Some kv.1 else core) None obj.

Record mt_group := {
  mg_pid : Z;
  mg_tid : Z;
  mg_group : jsstring;
  mg_dur : jsstring;
  mg_parallelNum : Z;
  mg_parallelDur : jsstring;
  mg_allParallel : jsstring;
  mg_load : jsstring;
  mg_tCount : Z
}.

(** A row of [coreTypeMap]. *)
Record mt_type := {
  mt_pid : Z;
  mt_tid : Z;
  mt_title : core_type;
  mt_dur : Z;
  mt_parallelNum : Z;
  mt_parallelDur : Z;
  mt_load : Q;
  mt_children : list mt_group
}.

(** A class as shown. *)
Record shown_type := {
  st_type : mt_type;
  st_allParallel : jsstring;
  st_dur : jsstring;
  st_parallelDur : jsstring;
  st_load : jsstring
}.

(** A row of [dataSourceMap]; [parallelNum] and [load] start as [null]. *)
Record mt_root := {
  mr_pid : Z;
  mr_tid : Z;
  mr_title : jsstring;
  mr_dur : Z;
  mr_parallelNum : option Z;
  mr_parallelDur : Z;
  mr_load : option Q;
  mr_children : list shown_type
}.

Definition new_root (s : running) : mt_root :=
  {| mr_pid := rn_pid s; mr_tid := rn_tid s; mr_title := process_title s; mr_dur := 0; mr_parallelNum := None;
     mr_parallelDur := 0; mr_load := None; mr_children := [] |}.

Record mt_maps := {
  dataSourceMap : list (Z * mt_root);
  coreTypeMap : list ((Z * core_type) * mt_type)
}.

Definition group_text (gourpKey : jsstring) (gourp : list Z) : jsstring :=
  gourpKey ++ js ":" ++ concat (zip_with (fun (i : nat) c => (if decide (i = 0%nat) then [] else js ",") ++ js_toString 10 c) (seq 0 (length gourp)) gourp).

Definition group_row (gourpKey : jsstring) (gourp : list Z) (value : collected) (pDur : Z) : mt_group :=
  {| mg_pid := v_pid value; mg_tid := v_tid value; mg_group := group_text gourpKey gourp;
     mg_dur := in_unit (v_dur value); mg_parallelNum := zlen gourp; mg_parallelDur := in_unit pDur;
     mg_allParallel := toFixed3 (percent (pDur * zlen gourp) (v_dur value));
     mg_load := toFixed3 (Some (load_of (v_dur value))); mg_tCount := zlen (v_tidArr value) |}.

(** [mergeTreeCoreData], for one process. *)
Definition merge_type (coreKey : core_type) (gourpKey : jsstring) (gourp : list Z) (value : collected) (pDur : Z) (o : option mt_type) : mt_type :=
  match o with
  | Some obj => {| mt_pid := mt_pid obj; mt_tid := mt_tid obj; mt_title := mt_title obj;
                   mt_dur := mt_dur obj + v_dur value; mt_parallelNum := mt_parallelNum obj;
                   mt_parallelDur := mt_parallelDur obj + pDur; mt_load := fadd (mt_load obj) (load_of (v_dur value));
                   mt_children := mt_children obj ++ [group_row gourpKey gourp value pDur] |}
  | None => {| mt_pid := v_pid value; mt_tid := v_tid value; mt_title := coreKey;
               mt_dur := v_dur value; mt_parallelNum := zlen gourp; mt_parallelDur := pDur; mt_load := load_of (v_dur value);
               mt_children := [group_row gourpKey gourp value pDur] |}
  end.

Definition mergeTreeCoreData (coreKey : core_type) (gourpKey : jsstring) (gourp : list Z) (types : list ((Z * core_type) * mt_type)) (values : list collected) : option (list ((Z * core_type) * mt_type)) :=
  foldl (fun om value =>
           om ≫= fun m => (fun pDur => map_set m (v_pid value, coreKey) (merge_type coreKey gourpKey gourp value pDur (map_get m (v_pid value, coreKey))))
             <$> sweep_rows mt_hanldMapLogic (v_stateItem value) 0)
    (Some types) values.

(** [handleTreeProcessData] *)
Definition handleTreeProcessData (rows : list running) (key : core_type) (gourpKey : jsstring) (gourp : list Z) (m : mt_maps) : option mt_maps :=
  (fun types => {| dataSourceMap := open_processes new_root (dataSourceMap m) (clip_slice lo hi <$> rows); coreTypeMap := types |})
  <$> mergeTreeCoreData key gourpKey gourp (coreTypeMap m) (collect_rows lo hi rows).*2.

(** A loop over groups, each with the answer of its query, when nothing else happens
    meanwhile. *)
Definition mt_groups_from (gs : list (core_type * jsstring * list Z * list running)) (m : mt_maps) : option mt_maps :=
  foldl (fun om g => om ≫= handleTreeProcessData g.2 g.1.1.1 g.1.1.2 g.1.2) (Some m) gs.

Definition no_maps : mt_maps := {| dataSourceMap := []; coreTypeMap := [] |}.

Definition show_type (t : mt_type) : shown_type :=
  {| st_type := t; st_allParallel := toFixed3 (percent (mt_parallelDur t * mt_parallelNum t) (mt_dur t));
     st_dur := in_unit (mt_dur t); st_parallelDur := in_unit (mt_parallelDur t); st_load := toFixed3 (Some (mt_load t)) |}.

(** The last passes: every class adds to its process, which takes over the [parallelNum]
    of the last of them ... *)
Definition add_type (obj : mt_root) (t : mt_type) : mt_root :=
  {| mr_pid := mr_pid obj; mr_tid := mr_tid obj; mr_title := mr_title obj;
     mr_dur := mr_dur obj + mt_dur t; mr_parallelNum := Some (mt_parallelNum t);
     mr_parallelDur := mr_parallelDur obj + mt_parallelDur t; mr_load := Some (null_add (mr_load obj) (mt_load t));
     mr_children := mr_children obj ++ [show_type t] |}.

Definition add_types (m : mt_maps) : list (Z * mt_root) :=
  foldl (fun ds t => match map_get ds (mt_pid t) with Some obj => map_set ds (mt_pid t) (add_type obj t) | None => ds end)
    (dataSourceMap m) (coreTypeMap m).*2.

(** ... and the numbers of the processes become texts. *)
Record shown_root := {
  sr_root : mt_root;
  sr_allParallel : jsstring;
  sr_dur : jsstring;
  sr_parallelDur : jsstring;
  sr_load : jsstring
}.

Definition show_root (r : mt_root) : res shown_root :=
  match mr_load r with
  | None => Throw TypeError
  | Some q => Ok {| sr_root := r; sr_allParallel := toFixed3 (percent (mr_parallelDur r * null_num (mr_parallelNum r)) (mr_dur r));
                    sr_dur := in_unit (mr_dur r); sr_parallelDur := in_unit (mr_parallelDur r); sr_load := toFixed3 (Some q) |}
  end.

(** The rows of the table for the maps that the groups have filled. *)
Definition mt_rows (m : mt_maps) : res (list shown_root) := res_map show_root (add_types m).*2.

(** ** The rows of an answer *)

(** What the queries ask for: rows sorted by their starts that touch the selection.  A row
    without a duration ([S.dur] is NULL) passes as one of length zero, and has no end. *)
Definition selected (rows : list running) : Prop :=
  0 <= lo <= hi /\ StronglySorted starts_le rows /\
  Forall (fun s => rn_ts s <= hi /\ match rn_endTs s with Some e => rn_ts s <= e /\ lo <= e | None => lo <= rn_ts s end) rows.

(** An answer without such rows. *)
Definition answer (rows : list running) : Prop :=
  0 <= lo <= hi /\ StronglySorted starts_le rows /\
  Forall (fun s => exists e, rn_endTs s = Some e /\ rn_ts s <= e /\ lo <= e /\ rn_ts s <= hi) rows.

Lemma selected_answer rows : selected rows -> all_ended rows -> answer rows.
Proof.
  intros (Hw & HS & HF) HE. split; [done|]. split; [done|]. unfold all_ended in HE. rewrite Forall_forall in HF, HE |- *.
  intros s Hs. destruct (HE s Hs) as [e E]. specialize (HF s Hs). rewrite E in HF. exists e. split; [done|]. lia.
Qed.

(** A sweep over a row without an end never returns. *)
Lemma sweep_hangs {P} (func : P -> dump -> P) param arr : ~ all_ended arr -> forall fuel, HanldParalLogic func fuel arr param = None.
Proof.
  intros HE fuel. unfold HanldParalLogic. rewrite paral_loop_fold, stretches_hang; [done|]. cbn [waitArr pending app].
  apply not_Forall_Exists in HE; [|intros x; apply _]. eapply Exists_impl; [exact HE|]. cbn. intros x Hx. by apply eq_None_not_Some.
Qed.

Lemma clip_ended rows : 0 <= hi -> all_ended (clip_slice lo hi <$> rows) <-> all_ended rows.
Proof.
  intros Hh. unfold all_ended. rewrite Forall_fmap. apply Forall_iff. intros s. cbn. destruct (rn_endTs s) as [e|]; cbn.
  - destruct (hi <? e); split; eauto.
  - destruct (Z.ltb_spec hi 0); [lia|done].
Qed.

(** The rows of a process, and the instants of the selection with a property. *)
Definition of_process (pid : Z) (rows : list running) : list running := filter (fun s => rn_pid s = pid) rows.

Definition instants (P : Z -> bool) : Z := zsum ((fun t => if P t then 1 else 0) <$> seqZ lo (hi - lo)).

(** Processor time within the selection: the number that run, over the instants. *)
Definition busy_time (rows : list running) : Z := zsum ((fun t => zlen (active t rows)) <$> seqZ lo (hi - lo)).

Lemma clip_of_process pid rows : filter (fun s => rn_pid s = pid) (clip_slice lo hi <$> rows) = clip_slice lo hi <$> of_process pid rows.
Proof.
  unfold of_process. induction rows as [|s rows IH]; [done|]. rewrite fmap_cons, !filter_cons. cbn [rn_pid clip_slice].
  case_decide; rewrite IH; done.
Qed.

Lemma sorted_sublist {A} (R : A -> A -> Prop) (P : A -> Prop) `{!forall x, Decision (P x)} l : StronglySorted R l -> StronglySorted R (filter P l).
Proof.
  induction 1 as [|x l _ IH HF]; [constructor|]. rewrite filter_cons. case_decide; [|done]. constructor; [done|].
  rewrite Forall_forall in HF |- *. intros y [_ Hy]%list_elem_of_filter. auto.
Qed.

Lemma answer_process pid rows : answer rows -> answer (of_process pid rows).
Proof.
  intros (Hw & HS & HF). split; [done|]. split; [by apply sorted_sublist|].
  rewrite Forall_forall in HF |- *. intros y [_ Hy]%list_elem_of_filter. auto.
Qed.

Lemma answer_clipped rows : answer rows -> swept (clip_slice lo hi <$> rows).
Proof.
  intros (Hw & HS & HF). split.
  - apply Forall_fmap. eapply Forall_impl; [exact HF|]. intros s (e & E & H1 & H2 & H3). unfold ended. cbn. rewrite E. cbn.
    destruct (Z.ltb_spec (rn_ts s) lo), (Z.ltb_spec hi e); eexists; (split; [done|lia]).
  - clear HF. induction HS as [|s l HS IH HF]; [constructor|]. rewrite fmap_cons. constructor; [done|].
    apply Forall_fmap. eapply Forall_impl; [exact HF|]. unfold starts_le. cbn. intros y Hy.
    destruct (Z.ltb_spec (rn_ts s) lo), (Z.ltb_spec (rn_ts y) lo); lia.
Qed.

Lemma active_clipped rows t : answer rows -> zlen (active t (clip_slice lo hi <$> rows)) = if bool_decide (lo <= t < hi) then zlen (active t rows) else 0.
Proof.
  intros (Hw & _ & HF). induction HF as [|s rows (e & E & H1 & H2 & H3) _ IH]; [by case_bool_decide|].
  rewrite fmap_cons. unfold active in *. rewrite !filter_cons.
  assert (Ea : active_at t (clip_slice lo hi s) = bool_decide (lo <= t < hi) && active_at t s).
  { unfold active_at. cbn. rewrite E. cbn. destruct (Z.ltb_spec (rn_ts s) lo), (Z.ltb_spec hi e); case_bool_decide; cbn [andb]; zcase; cbn; lia. }
  rewrite Ea. case_bool_decide; cbn [andb]; [|done]. destruct (active_at t s); cbn [decide]; [|done].
  change (zlen (clip_slice lo hi s :: filter (fun s => active_at t s) (clip_slice lo hi <$> rows)) = zlen (s :: filter (fun s => active_at t s) rows)).
  by rewrite !zlen_cons, IH.
Qed.

(** A sum over the instants of the selection, of a number that nothing adds to outside. *)
Lemma selection_sum (F : Z -> Z) : 0 <= lo <= hi -> (forall t, t < lo -> F t = 0) ->
  zsum (F <$> seqZ 0 hi) = zsum (F <$> seqZ lo (hi - lo)).
Proof.
  intros Hw Hz. replace hi with (lo + (hi - lo)) at 1 by lia. rewrite seqZ_app, fmap_app, zsum_app by lia.
  rewrite zsum_zero; [done|]. apply Forall_forall. intros t [_ Ht]%elem_of_seqZ. apply Hz. lia.
Qed.

(** The sweep over the clipped rows of an answer: the stretches, and what they sum to. *)
Lemma answer_sweep rows : answer rows -> exists ds,
  tiles 0 (clip_slice lo hi <$> rows) ds /\
  (forall P (func : P -> dump -> P) param, sweep_rows func (clip_slice lo hi <$> rows) param = Some (foldl func param ds)) /\
  forall f : Z -> Z, f 0 = 0 ->
    zsum ((fun d => (d_endTs d - d_ts d) * f (d_len d)) <$> ds) = zsum ((fun t => f (zlen (active t rows))) <$> seqZ lo (hi - lo)).
Proof.
  intros HA. pose proof HA as (Hw & _ & HF).
  destruct (sweep_tiled (clip_slice lo hi <$> rows) (answer_clipped _ HA)) as (ds & HT & Hfold).
  exists ds. split; [done|]. split; [intros; by apply Hfold|]. intros f Hf.
  assert (He : Forall (fun s => null_num (rn_endTs s) <= hi) (clip_slice lo hi <$> rows)).
  { apply Forall_fmap. eapply Forall_impl; [exact HF|]. cbn. intros s (e & E & _). rewrite E. cbn. destruct (Z.ltb_spec hi e); cbn; lia. }
  rewrite (tiles_sum f Hf _ hi ds 0 HT ltac:(lia) He), Z.sub_0_r, selection_sum.
  - apply zsum_ext, Forall_forall. intros t Ht%elem_of_seqZ. rewrite active_clipped by done. by rewrite bool_decide_true by lia.
  - done.
  - intros t Ht. rewrite active_clipped by done. by rewrite bool_decide_false by lia.
Qed.

(** The durations of the clipped rows add up to the time that they run. *)
Lemma clipped_durations rows : answer rows -> zsum (slice_dur <$> (clip_slice lo hi <$> rows)) = busy_time rows.
Proof.
  intros (Hw & _ & HF). unfold busy_time. induction HF as [|s rows (e & E & H1 & H2 & H3) _ IH].
  - symmetry. by apply zsum_zero, Forall_forall.
  - rewrite !fmap_cons, zsum_cons, IH. clear IH. unfold slice_dur. cbn [rn_ts rn_endTs clip_slice]. rewrite E.
    change (null_num (Some e)) with e. set (a := if rn_ts s <? lo then lo else rn_ts s). set (b := null_num (if hi <? e then Some hi else Some e)).
    assert (Hab : lo <= a <= b /\ b <= hi) by (subst a b; destruct (Z.ltb_spec (rn_ts s) lo), (Z.ltb_spec hi e); cbn; lia).
    transitivity (zsum ((fun t => (if bool_decide (a <= t < b) then 1 else 0) + zlen (active t rows)) <$> seqZ lo (hi - lo))).
    + rewrite zsum_plus. f_equal. replace (hi - lo) with ((a - lo) + ((b - a) + (hi - b))) by lia.
      rewrite !seqZ_app, !fmap_app, !zsum_app by lia. replace (lo + (a - lo)) with a by lia. replace (a + (b - a)) with b by lia.
      rewrite (zsum_zero _ (seqZ lo _)), (zsum_zero _ (seqZ b _)); [rewrite (zsum_const _ 1), zlen_seqZ; [lia|lia|]| |];
        apply Forall_forall; intros t Ht%elem_of_seqZ; case_bool_decide; lia.
    + apply zsum_ext, Forall_forall. intros t Ht%elem_of_seqZ. unfold active. rewrite filter_cons.
      assert (Ea : active_at t s = bool_decide (a <= t < b)).
      { unfold active_at. rewrite E. subst a b.
        destruct (Z.ltb_spec (rn_ts s) lo), (Z.ltb_spec hi e); cbn; case_bool_decide; zcase; cbn; lia. }
      rewrite Ea. case_bool_decide; cbn [decide]; [rewrite decide_True by done; by rewrite zlen_cons|rewrite decide_False; [lia|by intros []]].
Qed.

Lemma collected_items rows pid v : (pid, v) ∈ collect_rows lo hi rows -> v_stateItem v = clip_slice lo hi <$> of_process pid rows.
Proof.
  intros Hv. unfold collect_rows in Hv. apply map_accumulate_elem in Hv. rewrite clip_of_process in Hv.
  pose proof (run_log collect v_stateItem id ltac:(by intros [?|] ?) _ None v Hv) as E. by rewrite list_fmap_id in E.
Qed.

(** What is collected for a process. *)
Lemma collected_process rows pid v : answer rows -> (pid, v) ∈ collect_rows lo hi rows ->
  of_process pid rows <> [] /\ v_pid v = pid /\ v_stateItem v = clip_slice lo hi <$> of_process pid rows /\
  v_dur v = busy_time (of_process pid rows) /\
  NoDup (v_tidArr v) /\ forall tid, tid ∈ v_tidArr v <-> tid ∈ rn_tid <$> of_process pid rows.
Proof.
  intros HA Hv. pose proof (collected_items rows pid v Hv) as Hitems. unfold collect_rows in Hv. apply map_accumulate_elem in Hv. rewrite clip_of_process in Hv.
  set (l := clip_slice lo hi <$> of_process pid rows) in *. assert (Hn : of_process pid rows <> []).
  { intros E. subst l. rewrite E in Hv. done. }
  split; [done|]. split_and!.
  - pose proof (run_first collect v_pid rn_pid ltac:(done) ltac:(done) l v Hv) as E. subst l.
    destruct (of_process pid rows) as [|s k] eqn:Es; [done|]. injection E as <-. cbn.
    assert (Hs : s ∈ of_process pid rows) by (rewrite Es; by left). by apply list_elem_of_filter in Hs as [? _].
  - done.
  - pose proof (run_sum collect v_dur slice_dur ltac:(by intros [?|] ?) l None v Hv) as E. cbn in E.
    rewrite E. by apply clipped_durations, answer_process.
  - clear Hn Hitems. revert v Hv. induction l as [|s l IH] using rev_ind; intros v; [done|]. rewrite foldl_snoc. intros [= <-].
    destruct (foldl _ None l) as [v0|]; [|apply NoDup_singleton]. cbn. unfold add_tid. case_bool_decide as Hs; [by apply IH|].
    apply NoDup_app. split_and!; [by apply IH|by intros x Hx ->%list_elem_of_singleton|apply NoDup_singleton].
  - intros tid. replace (rn_tid <$> of_process pid rows) with (rn_tid <$> l) by (subst l; by rewrite <- list_fmap_compose).
    clear Hn Hitems. revert v Hv. induction l as [|s l IH] using rev_ind; intros v; [done|]. rewrite foldl_snoc. intros [= <-].
    rewrite fmap_app, elem_of_app. cbn [fmap list_fmap]. destruct (foldl _ None l) as [v0|] eqn:E.
    + rewrite <- (IH _ eq_refl). cbn. unfold add_tid. case_bool_decide; [set_solver|]. by rewrite elem_of_app.
    + apply run_None in E as ->. cbn. set_solver.
Qed.

(** ** The degrees *)

(** A stretch of more than one thread, added to the row of its number. *)
Definition add_stretch (value : collected) (o : option degree) (d : dump) : degree :=
  let pDur := d_endTs d - d_ts d in
  let pSlice := fmul (fdiv (inject_Z (d_len d * pDur)) (inject_Z (v_dur value))) 100 in
  match o with
  | Some g => {| g_tidArr := g_tidArr g; g_allParallel := fadd (g_allParallel g) pSlice; g_parallelNum := g_parallelNum g;
                 g_parallelDur := in_unit (g_pDur g + pDur); g_pDur := g_pDur g + pDur; g_stateItem := g_stateItem g |}
  | None => {| g_tidArr := v_tidArr value; g_allParallel := pSlice; g_parallelNum := d_len d;
               g_parallelDur := in_unit pDur; g_pDur := pDur; g_stateItem := v_stateItem value |}
  end.

Lemma degrees_grouped value ds : forall m, map_get m 1 = None ->
  foldl (time_hanldMapLogic value) m ds = map_accumulate d_len (add_stretch value) m (filter (fun d => d_len d <> 1) ds).
Proof.
  induction ds as [|d ds IH]; intros m Hm; [done|]. cbn [foldl]. rewrite filter_cons. unfold time_hanldMapLogic at 2. cbv zeta.
  destruct (decide (d_len d = 1)) as [E|E].
  - rewrite E, Hm. cbn. rewrite decide_False by congruence. by apply IH.
  - rewrite decide_True by done. rewrite (proj2 (Z.eqb_neq _ _) E). cbn [map_accumulate foldl].
    destruct (map_get m (d_len d)) as [g|] eqn:Eg; cbn; rewrite IH by (rewrite map_get_set, decide_False; done); done.
Qed.

Lemma stretch_sum n ds : zsum ((fun d => (d_endTs d - d_ts d) * (if d_len d =? n then 1 else 0)) <$> ds) =
  zsum ((fun d => d_endTs d - d_ts d) <$> filter (fun d => d_len d = n) ds).
Proof.
  symmetry. apply zsum_filter; intros d Hd; [rewrite (proj2 (Z.eqb_eq _ _) Hd)|rewrite (proj2 (Z.eqb_neq _ _) Hd)]; lia.
Qed.

Lemma in_order_pos g ds : in_order g ds -> Forall (fun d => 0 < d_endTs d - d_ts d) ds.
Proof. revert g. induction ds as [|d ds IH]; intros g; [constructor|]. intros [? ?]. constructor; [lia|by eapply IH]. Qed.

Lemma zsum_pos {X} (f : X -> Z) l : Forall (fun x => 0 < f x) l -> (0 < zsum (f <$> l) <-> l <> []).
Proof.
  intros HF. destruct l as [|x l]; [cbn; split; [lia|done]|]. split; [done|]. intros _. apply Forall_cons in HF as [Hx HF].
  rewrite fmap_cons, zsum_cons. assert (0 <= zsum (f <$> l)); [|lia]. clear Hx x. induction HF; [done|]. rewrite fmap_cons, zsum_cons. lia.
Qed.

Lemma stretch_instants rows ds n : answer rows -> n <> 0 ->
  (forall f : Z -> Z, f 0 = 0 -> zsum ((fun d => (d_endTs d - d_ts d) * f (d_len d)) <$> ds) = zsum ((fun t => f (zlen (active t rows))) <$> seqZ lo (hi - lo))) ->
  zsum ((fun d => d_endTs d - d_ts d) <$> filter (fun d => d_len d = n) ds) = instants (fun t => zlen (active t rows) =? n).
Proof.
  intros HA Hn Hsum. rewrite <- stretch_sum. apply (Hsum (fun k => if k =? n then 1 else 0)).
  by rewrite (proj2 (Z.eqb_neq _ _)) by congruence.
Qed.

(** The children of a row: one per number of threads, two at least, that ran together at
    some instant, with the number of those instants. *)
Definition degrees_ok (rows : list running) (pMap : list (Z * degree)) : Prop :=
  NoDup pMap.*1 /\
  (forall n, n ∈ pMap.*1 <-> 2 <= n /\ 0 < instants (fun t => zlen (active t rows) =? n)) /\
  forall n g, (n, g) ∈ pMap -> g_parallelNum g = n /\ g_parallelDur g = in_unit (instants (fun t => zlen (active t rows) =? n)).

Lemma degrees_nodup value ds : NoDup (foldl (time_hanldMapLogic value) [] ds).*1.
Proof. rewrite degrees_grouped by done. apply map_accumulate_nodup. constructor. Qed.

Lemma degrees_get value ds n :
  map_get (foldl (time_hanldMapLogic value) [] ds) n =
  if decide (n = 1) then None else foldl (fun o x => Some (add_stretch value o x)) None (filter (fun d => d_len d = n) ds).
Proof.
  rewrite degrees_grouped, map_accumulate_get by done. cbn [map_get]. case_decide as Hn.
  - rewrite filter_none; [done|]. apply Forall_forall. intros d [? _]%list_elem_of_filter. congruence.
  - by rewrite list_filter_filter_l by congruence.
Qed.

Lemma degrees_key value g arr ds n : tiles g arr ds ->
  n ∈ (foldl (time_hanldMapLogic value) [] ds).*1 <-> 2 <= n /\ filter (fun d => d_len d = n) ds <> [].
Proof.
  intros (_ & HL & _). rewrite map_get_elem, degrees_get. case_decide as Hn; [split; [by intros []|lia]|].
  rewrite <- not_eq_None_Some, run_None. split; [|tauto]. intros Hne. split; [|done].
  destruct (filter (fun d => d_len d = n) ds) as [|d l] eqn:E; [done|].
  assert (Hd : d ∈ filter (fun d => d_len d = n) ds) by (rewrite E; by left). apply list_elem_of_filter in Hd as [<- Hd].
  destruct (HL d Hd) as (Hl & El & _). destruct (d_listSlice d) as [|s k]; [done|]. rewrite El, zlen_cons in Hn |- *.
  pose proof (zlen_nonneg k). lia.
Qed.

Lemma degrees_swept rows value : answer rows -> v_stateItem value = clip_slice lo hi <$> rows ->
  exists pMap, sweep_rows (time_hanldMapLogic value) (v_stateItem value) [] = Some pMap /\ degrees_ok rows pMap.
Proof.
  intros HA Ev. destruct (answer_sweep rows HA) as (ds & HT & Hfold & Hsum). rewrite Ev, Hfold.
  eexists. split; [done|]. split; [apply degrees_nodup|]. split.
  - intros n. rewrite (degrees_key _ _ _ _ _ HT). split; intros [Hn Hp]; (split; [done|]); revert Hp;
      rewrite <- (stretch_instants rows ds n HA ltac:(lia) Hsum); apply zsum_pos, Forall_forall; intros d [_ Hd]%list_elem_of_filter;
      destruct HT as (HO & _); pose proof (in_order_pos _ _ HO) as HP; rewrite Forall_forall in HP; by apply HP.
  - intros n g Hg. assert (Hn : 2 <= n) by (apply (degrees_key value _ _ _ n HT); by apply (list_elem_of_fmap_2 fst _ (n, g))).
    apply (map_get_nodup _ _ _ (degrees_nodup _ _)) in Hg. rewrite degrees_get, decide_False in Hg by lia. split.
    + pose proof (run_first (add_stretch value) g_parallelNum d_len ltac:(done) ltac:(done) _ _ Hg) as E.
      destruct (filter _ ds) as [|d l] eqn:Ef; [done|]. injection E as <-.
      assert (Hd : d ∈ filter (fun d => d_len d = n) ds) by (rewrite Ef; by left). by apply list_elem_of_filter in Hd as [? _].
    + rewrite <- (stretch_instants rows ds n HA ltac:(lia) Hsum).
      pose proof (run_sum (add_stretch value) g_pDur (fun d => d_endTs d - d_ts d) ltac:(by intros [?|] ?) _ None g Hg) as E.
      cbn [from_option] in E. rewrite Z.add_0_l in E. rewrite <- E.
      apply (run_last (add_stretch value) (fun g => g_parallelDur g = in_unit (g_pDur g)) ltac:(by intros [?|] ?) _ _ Hg).
Qed.

Lemma fmap_nil_iff {A B} (f : A -> B) l : f <$> l = [] <-> l = [].
Proof. by destruct l. Qed.

Lemma mapM_forall {A B} (f : A -> option B) (R : A -> B -> Prop) l :
  Forall (fun x => exists y, f x = Some y /\ R x y) l -> exists k, mapM f l = Some k /\ Forall2 R l k.
Proof.
  induction 1 as [|x l (y & E & HR) _ (k & Ek & HF)]; [exists []; split; [done|constructor]|].
  exists (y :: k). cbn [mapM]. rewrite E. cbn. rewrite Ek. cbn. split; [done|by constructor].
Qed.

(** A row of the table against the rows of its process. *)
Definition value_ok (mine : list running) (v : shown_value) : Prop :=
  sv_dur v = in_unit (busy_time mine) /\
  (exists tids, NoDup tids /\ (forall tid, tid ∈ tids <-> tid ∈ rn_tid <$> mine) /\ sv_tCount v = zlen tids) /\
  NoDup (sd_parallelNum <$> sv_children v) /\
  (forall n, n ∈ sd_parallelNum <$> sv_children v <-> 2 <= n /\ 0 < instants (fun t => zlen (active t mine) =? n)) /\
  forall g, g ∈ sv_children v -> sd_parallelDur g = in_unit (instants (fun t => zlen (active t mine) =? sd_parallelNum g)).

Lemma shown_degrees rows pMap : degrees_ok rows pMap ->
  sd_parallelNum <$> (show_degree <$> pMap.*2) = pMap.*1 /\
  forall g, g ∈ show_degree <$> pMap.*2 -> sd_parallelDur g = in_unit (instants (fun t => zlen (active t rows) =? sd_parallelNum g)).
Proof.
  intros (_ & _ & HD). split.
  - rewrite <- !list_fmap_compose. apply list_fmap_ext. intros i [n g] Hi. cbn. apply (HD n g). by eapply list_elem_of_lookup_2.
  - intros x (g & -> & ([n g'] & -> & Hg)%list_elem_of_fmap)%list_elem_of_fmap. cbn. destruct (HD n g' Hg) as [-> ->]. done.
Qed.

Lemma showTreeChart_ok rows pid v : answer rows -> (pid, v) ∈ collect_rows lo hi rows ->
  exists s, showTreeChart_value v = Some s /\ (sv_pid s = pid /\ value_ok (of_process pid rows) s).
Proof.
  intros HA Hv. destruct (collected_process rows pid v HA Hv) as (Hn & Hp & Hs & Hd & HN & Ht).
  destruct (degrees_swept (of_process pid rows) v (answer_process _ _ HA) Hs) as (pMap & E & HD).
  destruct (shown_degrees _ _ HD) as [Hk Hg]. pose proof HD as (HDN & HDk & _).
  unfold showTreeChart_value. rewrite E. eexists. split; [done|]. cbn. split; [done|]. unfold value_ok. cbn.
  rewrite Hk, Hd. split; [done|]. split; [by exists (v_tidArr v)|]. by split.
Qed.

Lemma collected_key rows pid : pid ∈ (collect_rows lo hi rows).*1 <-> of_process pid rows <> [].
Proof.
  rewrite map_get_elem. unfold collect_rows. rewrite map_accumulate_get, clip_of_process, <- not_eq_None_Some. cbn [map_get].
  by rewrite run_None, fmap_nil_iff.
Qed.

Lemma busy_nil : busy_time [] = 0.
Proof. by apply zsum_zero, Forall_forall. Qed.

(** The table of parallelism over all processors, for an answer whose rows have ends:
    it has one row for each process of the answer.  The row shows the processor time of
    the process within the selection, the number of its different threads, and one child
    for each number of its threads, two at least, that ran at the same time at some
    instant of the selection; the child shows for how many instants (nanoseconds) exactly
    that many ran. *)
Theorem time_parallel_table rows (HA : answer rows) :
  exists table, getAllCoreData rows = Some table /\
    NoDup (sv_pid <$> table) /\ (forall pid, pid ∈ sv_pid <$> table <-> pid ∈ rn_pid <$> rows) /\
    forall v, v ∈ table -> value_ok (of_process (sv_pid v) rows) v.
Proof.
  set (m := collect_rows lo hi rows). assert (HN : NoDup m.*1) by (apply map_accumulate_nodup; constructor).
  destruct (mapM_forall (fun kv => showTreeChart_value kv.2) (fun kv s => sv_pid s = kv.1 /\ value_ok (of_process kv.1 rows) s) m) as (table & E & HF).
  { apply Forall_forall. intros [pid v] Hv. by apply showTreeChart_ok. }
  exists table. split; [done|]. assert (Hp : sv_pid <$> table = m.*1).
  { clear -HF. induction HF as [|[pid v] s m table [Hp _] _ IH]; [done|]. rewrite !fmap_cons, IH, Hp. done. }
  rewrite Hp. split; [done|]. split.
  - intros pid. unfold m. rewrite collected_key. unfold of_process. rewrite list_elem_of_fmap. split.
    + intros Hne. destruct (filter (fun s => rn_pid s = pid) rows) as [|s l] eqn:Ef; [done|].
      assert (Hs : s ∈ filter (fun s => rn_pid s = pid) rows) by (rewrite Ef; by left). apply list_elem_of_filter in Hs as [<- Hs]. by exists s.
    + intros (s & -> & Hs) Hne. by apply (filter_nil_not_elem_of _ _ s Hne).
  - intros v Hv. apply list_elem_of_lookup in Hv as [i Hi]. destruct (Forall2_lookup_r _ _ _ _ _ HF Hi) as ([pid w] & _ & <- & Hok). done.
Qed.

(** ** Rows without an end *)

Lemma process_ended rows : all_ended rows <-> forall pid, all_ended (of_process pid rows).
Proof.
  unfold all_ended. setoid_rewrite Forall_forall. split.
  - intros HE pid s [_ Hs]%list_elem_of_filter. auto.
  - intros HE s Hs. apply (HE (rn_pid s)). by apply list_elem_of_filter.
Qed.

(** When every process that is collected can be swept, all rows have ends. *)
Lemma collected_ended rows : 0 <= hi -> Forall (fun kv => all_ended (v_stateItem kv.2)) (collect_rows lo hi rows) -> all_ended rows.
Proof.
  intros Hh HF. rewrite Forall_forall in HF. apply process_ended. intros pid. destruct (decide (of_process pid rows = [])) as [-> | Hn]; [constructor|].
  apply collected_key, list_elem_of_fmap in Hn as ([p v] & -> & Hv). specialize (HF _ Hv). cbn [fst snd] in *.
  rewrite (collected_items _ _ _ Hv) in HF. by apply (clip_ended _ Hh).
Qed.

Lemma swept_ended {P} (func : P -> dump -> P) arr param x : sweep_rows func arr param = Some x -> all_ended arr.
Proof. intros E. destruct (all_ended_dec arr) as [|Hn]; [done|]. unfold sweep_rows in E. by rewrite (sweep_hangs func param arr Hn) in E. Qed.

Lemma fold_bind_None {A M} (f : A -> M -> option M) l : foldl (fun om x => om ≫= f x) None l = None.
Proof. by induction l. Qed.

(** A loop that gets through needs what each of its rounds needs. *)
Lemma fold_bind_needs {A M} (f : A -> M -> option M) (P : A -> Prop) l : (forall x m m', f x m = Some m' -> P x) ->
  forall m m', foldl (fun om x => om ≫= f x) (Some m) l = Some m' -> Forall P l.
Proof.
  intros Hf. induction l as [|x l IH]; intros m m' E; [constructor|]. cbn [foldl mbind option_bind] in E.
  destruct (f x m) as [m1|] eqn:E1; [|by rewrite fold_bind_None in E]. constructor; [by eapply Hf|by eapply IH].
Qed.

(** The sweep that keeps the page from ever showing a table. *)
Lemma unended_process rows : 0 <= hi -> ~ all_ended rows -> exists pid, of_process pid rows <> [] /\
  forall P (func : P -> dump -> P) param fuel, HanldParalLogic func fuel (clip_slice lo hi <$> of_process pid rows) param = None.
Proof.
  intros Hh HE. apply not_Forall_Exists in HE; [|intros x; apply _]. apply Exists_exists in HE as (s & Hs & Hn).
  assert (Hin : s ∈ of_process (rn_pid s) rows) by (by apply list_elem_of_filter). exists (rn_pid s). split; [by intros E; rewrite E in Hin; apply elem_of_nil in Hin|].
  intros P func param fuel. apply sweep_hangs. rewrite clip_ended by done. intros HA. unfold all_ended in HA. rewrite Forall_forall in HA. by apply Hn, HA.
Qed.

(** ** The classes of processors *)

(** The rows that have been opened keep their first. *)
Definition keep_first {V} (open : running -> V) (o : option V) (s : running) : V := default (open s) o.

Lemma open_processes_accumulate {V} (open : running -> V) rows : forall m,
  open_processes open m rows = map_accumulate rn_pid (keep_first open) m rows.
Proof.
  induction rows as [|s rows IH]; intros m; [done|]. cbn [open_processes foldl map_accumulate].
  change (foldl _ ?m rows) with (open_processes open m rows) at 1. unfold map_has, keep_first.
  destruct (map_get m (rn_pid s)) as [v|] eqn:E; rewrite IH; unfold map_accumulate; cbn [default]; [|done].
  unfold id. by rewrite (map_set_same _ _ _ E).
Qed.

(** A class adds a child to a process. *)
Definition extends (key : core_type) (mine : list running) (r r' : process_row) : Prop :=
  pr_pid r' = pr_pid r /\ pr_dur r' = pr_dur r + busy_time mine /\ is_Some (pr_load r') /\
  exists child, pr_children r' = pr_children r ++ [child] /\ sv_title child = core_text key /\ value_ok mine child /\
                (sv_dashes child = true <-> sv_children child = []).

Lemma showCoreTreeChart_ok rows key pid v m r : answer rows -> (pid, v) ∈ collect_rows lo hi rows -> map_get m pid = Some r ->
  exists r', showCoreTreeChart_value key m v = Some (map_set m pid r') /\ extends key (of_process pid rows) r r'.
Proof.
  intros HA Hv Hr. destruct (collected_process rows pid v HA Hv) as (Hn & Hp & Hs & Hd & HN & Ht).
  destruct (degrees_swept (of_process pid rows) v (answer_process _ _ HA) Hs) as (pMap & E & HD).
  destruct (shown_degrees _ _ HD) as [Hk Hg]. pose proof HD as (HDN & HDk & _).
  unfold showCoreTreeChart_value. rewrite E. cbn [fmap option_fmap option_map]. rewrite Hp, Hr. eexists. split; [done|].
  unfold extends. cbn. split; [done|]. split; [by rewrite Hd|]. split; [by eexists|]. eexists. split; [done|]. cbn. split; [done|].
  split; [|rewrite bool_decide_eq_true, !fmap_nil_iff; done].
  unfold value_ok. cbn. rewrite Hk, Hd. split; [done|]. split; [by exists (v_tidArr v)|]. by split.
Qed.

(** The processes of a class in turn: each adds to its own row. *)
Lemma show_class rows key l : answer rows -> l ⊆ collect_rows lo hi rows -> NoDup l.*1 ->
  forall m, (forall pid, pid ∈ l.*1 -> is_Some (map_get m pid)) ->
  exists m', foldl (fun om kv => om ≫= fun m => showCoreTreeChart_value key m kv.2) (Some m) l = Some m' /\ m'.*1 = m.*1 /\
    forall pid, if bool_decide (pid ∈ l.*1)
                then exists r r', map_get m pid = Some r /\ map_get m' pid = Some r' /\ extends key (of_process pid rows) r r'
                else map_get m' pid = map_get m pid.
Proof.
  intros HA. induction l as [|[pid v] l IH]; intros Hsub HN m Hm.
  - exists m. split; [done|]. split; [done|]. intros p. by rewrite bool_decide_false by apply not_elem_of_nil.
  - rewrite fmap_cons in HN, Hm. cbn [fst] in *. apply NoDup_cons in HN as [Hp HN].
    destruct (Hm pid) as [r Hr]; [by left|].
    destruct (showCoreTreeChart_ok rows key pid v m r HA (Hsub _ ltac:(by left)) Hr) as (r' & E & Hext).
    destruct (IH ltac:(intros x Hx; apply Hsub; by right) HN (map_set m pid r')) as (m' & E' & Hk & Hget).
    { intros p Hin. rewrite map_get_set. case_decide; [by eexists|]. apply Hm. by right. }
    exists m'. cbn [foldl snd mbind option_bind]. rewrite E. split; [done|]. split.
    { rewrite Hk, map_set_keys. unfold map_has. by rewrite Hr. }
    intros p. specialize (Hget p). rewrite map_get_set in Hget. destruct (decide (pid = p)) as [<- | Hne].
    + rewrite bool_decide_false in Hget by done. rewrite bool_decide_true by (rewrite fmap_cons; by left). by exists r, r'.
    + rewrite (bool_decide_ext (p ∈ ((pid, v) :: l).*1) (p ∈ l.*1)); [done|]. rewrite fmap_cons, elem_of_cons. cbn. split; [|tauto].
      intros [-> | ?]; done.
Qed.

(** One class: its processes are opened, and get a child each. *)
Lemma class_step rows key m : answer rows -> NoDup m.*1 ->
  exists m', hanldeGroupParalleData rows key m = Some m' /\ NoDup m'.*1 /\
    forall pid, if decide (of_process pid rows = []) then map_get m' pid = map_get m pid
                else exists r r', (map_get m pid = Some r \/ map_get m pid = None /\ exists s, rn_pid s = pid /\ r = new_process s) /\
                                  map_get m' pid = Some r' /\ extends key (of_process pid rows) r r'.
Proof.
  intros HA HN. unfold hanldeGroupParalleData. rewrite open_processes_accumulate.
  set (m1 := map_accumulate rn_pid (keep_first new_process) m (clip_slice lo hi <$> rows)).
  assert (Hm1 : forall pid, map_get m1 pid = foldl (fun o x => Some (keep_first new_process o x)) (map_get m pid) (clip_slice lo hi <$> of_process pid rows)).
  { intros pid. unfold m1. by rewrite map_accumulate_get, clip_of_process. }
  assert (Hkeep : forall l r, foldl (fun o x => Some (keep_first new_process o x)) (Some r) l = Some r) by (induction l; done).
  destruct (show_class rows key (collect_rows lo hi rows) HA ltac:(done) ltac:(apply map_accumulate_nodup; constructor) m1) as (m' & E & Hk & Hget).
  { intros pid Hp%collected_key. rewrite Hm1. destruct (of_process pid rows) as [|s l]; [done|]. rewrite fmap_cons. cbn [foldl].
    rewrite Hkeep. by eexists. }
  exists m'. split; [done|]. split; [rewrite Hk; by apply map_accumulate_nodup|]. intros pid. specialize (Hget pid). rewrite Hm1 in Hget.
  destruct (decide (of_process pid rows = [])) as [En|En].
  - rewrite En in Hget. rewrite bool_decide_false in Hget; [done|]. rewrite collected_key. tauto.
  - rewrite bool_decide_true in Hget by (by apply collected_key). destruct Hget as (r & r' & Hr & Hr' & Hext). exists r, r'. split; [|done].
    destruct (map_get m pid) as [r0|]; [left; by rewrite Hkeep in Hr|]. right. split; [done|].
    destruct (of_process pid rows) as [|s l] eqn:Es; [done|]. rewrite fmap_cons in Hr. cbn [foldl] in Hr. rewrite Hkeep in Hr. injection Hr as <-.
    exists (clip_slice lo hi s). split; [|done]. cbn. assert (Hs : s ∈ of_process pid rows) by (rewrite Es; by left).
    by apply list_elem_of_filter in Hs as [? _].
Qed.

(** The classes that a process has rows in, and a row of the table against them. *)
Definition own_classes (pid : Z) (done : list (core_type * list running)) : list (core_type * list running) :=
  filter (fun kr => of_process pid kr.2 <> []) done.

Definition child_ok (pid : Z) (kr : core_type * list running) (child : shown_value) : Prop :=
  sv_title child = core_text kr.1 /\ value_ok (of_process pid kr.2) child /\ (sv_dashes child = true <-> sv_children child = []).

Definition process_ok (pid : Z) (done : list (core_type * list running)) (r : process_row) : Prop :=
  pr_pid r = pid /\ pr_dur r = zsum ((fun kr => busy_time (of_process pid kr.2)) <$> done) /\ is_Some (pr_load r) /\
  Forall2 (child_ok pid) (own_classes pid done) (pr_children r).

Definition classes_ok (done : list (core_type * list running)) (m : list (Z * process_row)) : Prop :=
  NoDup m.*1 /\ forall pid, match map_get m pid with
                             | None => own_classes pid done = []
                             | Some r => own_classes pid done <> [] /\ process_ok pid done r
                             end.

Lemma own_classes_snoc pid done kr : own_classes pid (done ++ [kr]) = own_classes pid done ++ (if decide (of_process pid kr.2 = []) then [] else [kr]).
Proof. unfold own_classes. rewrite filter_app, filter_cons, filter_nil. by repeat case_decide. Qed.

Lemma no_classes_time pid done : own_classes pid done = [] -> zsum ((fun kr => busy_time (of_process pid kr.2)) <$> done) = 0.
Proof.
  intros E. apply zsum_zero, Forall_forall. intros kr Hkr. destruct (decide (of_process pid kr.2 = [])) as [-> | Hn].
  - apply busy_nil.
  - by destruct (filter_nil_not_elem_of _ _ kr E Hn Hkr).
Qed.

Lemma classes_step done m key rows : answer rows -> classes_ok done m ->
  exists m', hanldeGroupParalleData rows key m = Some m' /\ classes_ok (done ++ [(key, rows)]) m'.
Proof.
  intros HA [HN Hm]. destruct (class_step rows key m HA HN) as (m' & E & HN' & Hget). exists m'. split; [done|]. split; [done|].
  intros pid. specialize (Hm pid). specialize (Hget pid). rewrite own_classes_snoc. cbn [snd]. unfold process_ok.
  rewrite fmap_app, zsum_app. cbn [fmap list_fmap zsum foldr snd]. rewrite own_classes_snoc. cbn [snd]. destruct (decide (of_process pid rows = [])) as [En|En].
  - rewrite Hget, app_nil_r, En, busy_nil. destruct (map_get m pid) as [r|]; [|done].
    destruct Hm as (? & ? & Hd & ?). split; [done|]. split; [done|]. split; [rewrite Hd; lia|done].
  - destruct Hget as (r & r' & Hr & -> & Hp & Hd & Hl & child & Hc & Hok). split; [by intros [_ ?]%app_nil|].
    assert (Hr0 : pr_pid r = pid /\ pr_dur r = zsum ((fun kr => busy_time (of_process pid kr.2)) <$> done) /\
                  Forall2 (child_ok pid) (own_classes pid done) (pr_children r)).
    { destruct Hr as [Hr | (Hr & s & <- & ->)]; rewrite Hr in Hm; [by destruct Hm as (_ & ? & ? & _ & ?)|]. cbn.
      rewrite Hm, no_classes_time by done. split; [done|]. split; [done|constructor]. }
    destruct Hr0 as (<- & Hd0 & Hc0). split; [done|]. split; [rewrite Hd, Hd0; lia|]. split; [done|]. rewrite Hc.
    apply Forall2_app; [done|]. constructor; [done|constructor].
Qed.

Lemma res_map_ok {A B} (f : A -> res B) (g : A -> B) l : Forall (fun x => f x = Ok (g x)) l -> res_map f l = Ok (g <$> l).
Proof. induction 1 as [|x l E _ IH]; [done|]. unfold res_map in *. cbn [foldr]. rewrite E, IH. done. Qed.

(** The classes with processors, and the answers of their queries. *)
Definition queried (query : list Z -> list running) (c : core_classes) : list (core_type * list running) :=
  omap (fun kv => match kv.2 with [] => None | val => Some (kv.1, query val) end) (cpuObj c).

Lemma core_groups_ok query c : Forall (fun kr => answer kr.2) (queried query c) ->
  exists m, core_groups query c = Some m /\ classes_ok (queried query c) m.
Proof.
  unfold core_groups, queried. generalize (cpuObj c) as l. clear c.
  assert (Hgen : forall l done m, Forall (fun kr => answer kr.2) (omap (fun kv : core_type * list Z => match kv.2 with [] => None | val => Some (kv.1, query val) end) l) ->
    classes_ok done m ->
    exists m', foldl (fun om kv => om ≫= fun m => match kv.2 with [] => Some m | val => hanldeGroupParalleData (query val) kv.1 m end) (Some m) l = Some m' /\
               classes_ok (done ++ omap (fun kv : core_type * list Z => match kv.2 with [] => None | val => Some (kv.1, query val) end) l) m').
  { induction l as [|[k [|v val]] l IH]; intros done m HF Hm; [exists m; by rewrite app_nil_r|by apply IH|].
    cbn [omap list_omap fst snd] in HF |- *. apply Forall_cons in HF as [HA HF].
    destruct (classes_step done m k (query (v :: val)) HA Hm) as (m1 & E1 & H1). cbn [foldl fst snd mbind option_bind]. rewrite E1.
    destruct (IH _ m1 HF H1) as (m' & E & H'). exists m'. split; [done|]. by rewrite <- app_assoc in H'. }
  intros l HF. apply (Hgen l [] [] HF). split; [constructor|]. done.
Qed.

Lemma class_needs_ends rows key m m' : 0 <= hi -> hanldeGroupParalleData rows key m = Some m' -> all_ended rows.
Proof.
  intros Hh E. apply collected_ended; [done|]. eapply (fold_bind_needs (fun kv m => showCoreTreeChart_value key m kv.2)); [|exact E].
  intros [pid v] m1 m1' Ev. apply fmap_Some in Ev as (pMap & Ev & _). by eapply swept_ended.
Qed.

Lemma core_groups_need_ends query c m : 0 <= hi -> core_groups query c = Some m -> Forall (fun kr => all_ended kr.2) (queried query c).
Proof.
  intros Hh E. unfold queried. apply fold_bind_needs with (f := fun kv m => match kv.2 with [] => Some m | val => hanldeGroupParalleData (query val) kv.1 m end)
    (P := fun kv => match kv.2 with [] => True | val => all_ended (query val) end) in E.
  - induction E as [|[k [|x val]] l Hx _ IH]; [constructor|done|]. by constructor.
  - intros [k [|x val]] m1 m1' E1; [done|]. eapply class_needs_ends; [done|exact E1].
Qed.

(** C33: The table of parallelism by classes of processors, for queries that answer with
    what they ask for, while the selection and the classes stay as they are.  When every row of the answers has an end, the page gets a table
    and no exception.  It has one row for each process with slices on a processor of some
    class, which shows the processor time of the process over the classes.  Its children
    are the classes with such slices, the large ones first; each of them shows, as the
    rows of the table over all processors do, the time, the threads and the times for
    which more than one thread ran, and dashes exactly when this never happened.  When a
    row has no end, the page never gets a table: the sweep over the slices of its process
    takes more than any number of rounds. *)
Theorem time_class_table query c (HA : Forall (fun kr => selected kr.2) (queried query c)) :
  if decide (Forall (fun kr => all_ended kr.2) (queried query c)) then
    exists table, getCoreGroupData query c = Some (Ok table) /\
      NoDup (sp_pid <$> table) /\ (forall pid, pid ∈ sp_pid <$> table <-> own_classes pid (queried query c) <> []) /\
      forall p, p ∈ table ->
        sp_dur p = in_unit (zsum ((fun kr => busy_time (of_process (sp_pid p) kr.2)) <$> queried query c)) /\
        Forall2 (child_ok (sp_pid p)) (own_classes (sp_pid p) (queried query c)) (sp_children p)
  else
    getCoreGroupData query c = None /\
    exists kr pid, kr ∈ queried query c /\ of_process pid kr.2 <> [] /\
      forall P (func : P -> dump -> P) param fuel, HanldParalLogic func fuel (clip_slice lo hi <$> of_process pid kr.2) param = None.
Proof.
  case_decide as HE.
  2: { assert (Hh : exists kr, kr ∈ queried query c /\ ~ all_ended kr.2).
       { apply not_Forall_Exists in HE; [|intros x; apply _]. apply Exists_exists in HE as (kr & ? & ?). eauto. }
       destruct Hh as (kr & Hkr & Hn). rewrite Forall_forall in HA. destruct (HA kr Hkr) as [Hw _]. split.
       - unfold getCoreGroupData. destruct (core_groups query c) as [m|] eqn:E; [|done]. destruct HE. eapply core_groups_need_ends; [lia|exact E].
       - destruct (unended_process kr.2 ltac:(lia) Hn) as (pid & H1 & H2). by exists kr, pid. }
  assert (HA' : Forall (fun kr => answer kr.2) (queried query c)).
  { rewrite Forall_forall in HA, HE |- *. intros kr Hkr. apply selected_answer; auto. }
  clear HA HE. rename HA' into HA.
  destruct (core_groups_ok query c HA) as (m & E & HN & Hm). unfold getCoreGroupData. rewrite E. cbn [fmap option_fmap option_map].
  set (shown := fun p => match show_process p with Ok x => x | Throw _ => Build_shown_process 0 0 [] [] [] [] end).
  assert (He : forall pid p, (pid, p) ∈ m -> show_process p = Ok (shown p) /\ sp_pid (shown p) = pid /\ process_ok pid (queried query c) p /\
    sp_dur (shown p) = in_unit (pr_dur p) /\ sp_children (shown p) = pr_children p).
  { intros pid p Hp%(map_get_nodup _ _ _ HN). specialize (Hm pid). rewrite Hp in Hm. destruct Hm as [_ Hok].
    pose proof Hok as (Hpid & _ & [q Hq] & _). unfold shown, show_process. rewrite Hq. done. }
  exists (shown <$> m.*2). split; [f_equal; apply res_map_ok, Forall_fmap, Forall_forall; intros [pid p] Hp; by apply (He pid p)|].
  assert (Hk : sp_pid <$> (shown <$> m.*2) = m.*1).
  { rewrite <- !list_fmap_compose. apply list_fmap_ext. intros i [pid p] Hi. cbn. apply (He pid p). by eapply list_elem_of_lookup_2. }
  rewrite Hk. split; [done|]. split.
  - intros pid. rewrite map_get_elem. specialize (Hm pid). destruct (map_get m pid) as [r|]; [|split; [by intros []|by rewrite Hm]].
    destruct Hm as [Hm _]. split; [done|by eexists].
  - intros x (p & -> & ([pid p'] & -> & Hp)%list_elem_of_fmap)%list_elem_of_fmap. cbn.
    destruct (He pid p' Hp) as (_ & -> & (_ & Hd & _ & Hc) & -> & ->). by rewrite Hd.
Qed.

(** ** The pairs of processors *)

(** Instants of the selection with two slices of the rows at least. *)
Definition shared_time (rows : list running) : Z := instants (fun t => 2 <=? zlen (active t rows)).

Lemma mt_swept rows : answer rows -> sweep_rows mt_hanldMapLogic (clip_slice lo hi <$> rows) 0 = Some (shared_time rows).
Proof.
  intros HA. destruct (answer_sweep rows HA) as (ds & (_ & HL & _) & Hfold & Hsum). rewrite Hfold. f_equal.
  unfold shared_time, instants. rewrite <- (Hsum (fun k => if 2 <=? k then 1 else 0)) by done.
  assert (E : forall a, foldl mt_hanldMapLogic a ds = a + zsum ((fun d => if d_len d =? 1 then 0 else d_endTs d - d_ts d) <$> ds)).
  { clear. induction ds as [|d ds IH]; intros a; [cbn; lia|]. cbn [foldl]. rewrite IH, fmap_cons, zsum_cons.
    unfold mt_hanldMapLogic. destruct (_ =? _); lia. }
  rewrite E, Z.add_0_l. apply zsum_ext, Forall_forall. intros d Hd. destruct (HL d Hd) as (Hn & El & _).
  destruct (d_listSlice d) as [|s l]; [done|]. rewrite El, zlen_cons. pose proof (zlen_nonneg l). zcase; lia.
Qed.

(** What a process adds to a class: one row of [mergeTreeCoreData]. *)
Record share := Share { sh_core : core_type; sh_key : jsstring; sh_group : list Z; sh_value : collected; sh_pDur : Z }.

Definition sh_id (x : share) : Z * core_type := (v_pid (sh_value x), sh_core x).
Definition merge_share (o : option mt_type) (x : share) : mt_type := merge_type (sh_core x) (sh_key x) (sh_group x) (sh_value x) (sh_pDur x) o.

Definition shares_of (core : core_type) (gourpKey : jsstring) (gourp : list Z) (rows : list running) : list share :=
  (fun kv => Share core gourpKey gourp kv.2 (shared_time (of_process kv.1 rows))) <$> collect_rows lo hi rows.

Lemma mergeTreeCoreData_shares core gourpKey gourp rows types : answer rows ->
  mergeTreeCoreData core gourpKey gourp types (collect_rows lo hi rows).*2 =
  Some (map_accumulate sh_id merge_share types (shares_of core gourpKey gourp rows)).
Proof.
  intros HA. unfold mergeTreeCoreData, shares_of, map_accumulate.
  assert (HF : Forall (fun kv : Z * collected => sweep_rows mt_hanldMapLogic (v_stateItem kv.2) 0 = Some (shared_time (of_process kv.1 rows))) (collect_rows lo hi rows)).
  { apply Forall_forall. intros [pid v] Hv. destruct (collected_process rows pid v HA Hv) as (_ & _ & Hs & _).
    cbn [fst snd]. rewrite Hs. by apply mt_swept, answer_process. }
  revert types. induction HF as [|[pid v] l E _ IH]; intros types; [done|]. rewrite !fmap_cons. cbn [foldl fst snd] in *.
  rewrite <- IH. f_equal. cbn [mbind option_bind]. rewrite E. done.
Qed.

(** A group that counts, with the answer of its query. *)
Definition group_rows (g : core_type * jsstring * list Z * list running) : list running := g.2.
Definition group_core (g : core_type * jsstring * list Z * list running) : core_type := g.1.1.1.
Definition group_shares (g : core_type * jsstring * list Z * list running) : list share := shares_of g.1.1.1 g.1.1.2 g.1.2 g.2.

Lemma mt_groups_accumulate groups :
  Forall (fun g => answer (group_rows g)) groups ->
  mt_groups_from groups no_maps = Some
    {| dataSourceMap := map_accumulate rn_pid (keep_first new_root) [] (concat ((fun g => clip_slice lo hi <$> group_rows g) <$> groups));
       coreTypeMap := map_accumulate sh_id merge_share [] (concat (group_shares <$> groups)) |}.
Proof.
  unfold mt_groups_from. change no_maps with
    {| dataSourceMap := map_accumulate rn_pid (keep_first new_root) [] []; coreTypeMap := map_accumulate sh_id merge_share [] [] |}.
  rewrite <- (app_nil_l (concat ((fun g => clip_slice lo hi <$> group_rows g) <$> groups))).
  rewrite <- (app_nil_l (concat (group_shares <$> groups))).
  generalize (@nil running) as rs, (@nil share) as ss. induction groups as [|[[[core gk] g] rows] groups IH]; intros rs ss HF; [by rewrite !app_nil_r|].
  cbn [foldl fst snd mbind option_bind]. apply Forall_cons in HF as [HA HF]. cbn [group_rows snd] in HA. unfold handleTreeProcessData at 2.
  rewrite mergeTreeCoreData_shares by done. cbn [coreTypeMap dataSourceMap fmap option_fmap option_map].
  rewrite open_processes_accumulate. unfold map_accumulate. rewrite <- !foldl_app. etransitivity; [apply IH; done|].
  rewrite !fmap_cons. cbn [concat group_rows group_shares fst snd]. by rewrite !app_assoc.
Qed.

Lemma group_needs_ends rows core gk g m m' : 0 <= hi -> handleTreeProcessData rows core gk g m = Some m' -> all_ended rows.
Proof.
  intros Hh E. apply fmap_Some in E as (types & E & _). apply collected_ended; [done|].
  apply (Forall_fmap snd (fun v => all_ended (v_stateItem v))). unfold mergeTreeCoreData in E.
  eapply (fold_bind_needs (fun value m => (fun pDur => map_set m (v_pid value, core) (merge_type core gk g value pDur (map_get m (v_pid value, core))))
    <$> sweep_rows mt_hanldMapLogic (v_stateItem value) 0)); [|exact E].
  intros v m1 m1' Ev. apply fmap_Some in Ev as (pDur & Ev & _). by eapply swept_ended.
Qed.

Lemma groups_need_ends groups m m' : 0 <= hi -> mt_groups_from groups m = Some m' -> Forall (fun g => all_ended (group_rows g)) groups.
Proof.
  intros Hh E. eapply (fold_bind_needs (fun g => handleTreeProcessData g.2 g.1.1.1 g.1.1.2 g.1.2)); [|exact E].
  intros g m1 m1' E1. by eapply group_needs_ends.
Qed.

(** *** What the shares add up to *)

Lemma zsum_key (B : Z -> Z) ks pid : NoDup ks -> (pid ∉ ks -> B pid = 0) ->
  zsum ((fun k => if bool_decide (k = pid) then B k else 0) <$> ks) = B pid.
Proof.
  intros HN HB. destruct (decide (pid ∈ ks)) as [Hin|Hout].
  - apply list_elem_of_split in Hin as (l1 & l2 & ->). apply NoDup_app in HN as (_ & H1 & [H2 _]%NoDup_cons).
    rewrite fmap_app, zsum_app, fmap_cons, zsum_cons, bool_decide_true by done.
    rewrite (zsum_zero _ l1), (zsum_zero _ l2); [lia| |]; apply Forall_forall; intros k Hk; (rewrite bool_decide_false; [done|]); intros ->; [done|].
    apply (H1 _ Hk). by left.
  - rewrite HB by done. apply zsum_zero, Forall_forall. intros k Hk. rewrite bool_decide_false; [done|]. by intros ->.
Qed.

Section Totals.
(** A number of a share that depends on the rows of its process only. *)
Variables (gx : share -> Z) (B : list running -> Z).
Hypothesis (HB : B [] = 0).
Hypothesis (Hgx : forall core gk g rows pid v, answer rows -> (pid, v) ∈ collect_rows lo hi rows ->
  gx (Share core gk g v (shared_time (of_process pid rows))) = B (of_process pid rows)).

Lemma group_total g pid : answer (group_rows g) ->
  zsum ((fun x => if bool_decide (v_pid (sh_value x) = pid) then gx x else 0) <$> group_shares g) = B (of_process pid (group_rows g)).
Proof.
  destruct g as [[[core gk] g] rows]. cbn [group_rows snd]. intros HA. unfold group_shares, shares_of. cbn [fst snd].
  rewrite <- (zsum_key (fun k => B (of_process k rows)) (collect_rows lo hi rows).*1 pid).
  - rewrite <- !list_fmap_compose. apply zsum_ext, Forall_forall. intros [k v] Hv. cbn [compose sh_value fst snd].
    unfold compose. cbn [sh_value fst snd]. destruct (collected_process rows k v HA Hv) as (_ & -> & _). by rewrite Hgx.
  - apply map_accumulate_nodup. constructor.
  - rewrite collected_key. intros Hn. destruct (decide (of_process pid rows = [])) as [-> | ?]; [done|tauto].
Qed.

Lemma class_total g pid k : answer (group_rows g) ->
  zsum ((fun x => if bool_decide (sh_id x = (pid, k)) then gx x else 0) <$> group_shares g) =
  if bool_decide (group_core g = k) then B (of_process pid (group_rows g)) else 0.
Proof.
  intros HA. rewrite <- (group_total g pid HA). assert (Hc : Forall (fun x => sh_core x = group_core g) (group_shares g)).
  { apply Forall_fmap, Forall_forall. done. }
  case_bool_decide as Hk.
  - apply zsum_ext. eapply Forall_impl; [exact Hc|]. cbn. intros x Hx. unfold sh_id. rewrite Hx, Hk.
    by rewrite (bool_decide_ext ((v_pid (sh_value x), k) = (pid, k)) (v_pid (sh_value x) = pid)) by naive_solver.
  - apply zsum_zero. eapply Forall_impl; [exact Hc|]. cbn. intros x Hx. unfold sh_id. rewrite Hx. rewrite bool_decide_false; [done|]. naive_solver.
Qed.

(** Over all groups. *)
Lemma groups_total gs (P : share -> bool) (Q : core_type * jsstring * list Z * list running -> Z) :
  Forall (fun g => zsum ((fun x => if P x then gx x else 0) <$> group_shares g) = Q g) gs ->
  zsum ((fun x => if P x then gx x else 0) <$> concat (group_shares <$> gs)) = zsum (Q <$> gs).
Proof. intros HF. rewrite zsum_concat_map. by apply zsum_ext. Qed.
End Totals.

Lemma shared_nil : shared_time [] = 0.
Proof. by apply zsum_zero, Forall_forall. Qed.

Lemma share_dur core gk g rows pid v : answer rows -> (pid, v) ∈ collect_rows lo hi rows ->
  v_dur (sh_value (Share core gk g v (shared_time (of_process pid rows)))) = busy_time (of_process pid rows).
Proof. intros HA Hv. cbn. by apply (collected_process rows pid v HA Hv). Qed.

Lemma share_pDur core gk g rows pid v : answer rows -> (pid, v) ∈ collect_rows lo hi rows ->
  sh_pDur (Share core gk g v (shared_time (of_process pid rows))) = shared_time (of_process pid rows).
Proof. done. Qed.

(** *** The classes and the processes *)

Lemma types_entry shares pid k t : ((pid, k), t) ∈ map_accumulate sh_id merge_share [] shares ->
  mt_pid t = pid /\ mt_title t = k /\
  mt_dur t = zsum ((fun x => if bool_decide (sh_id x = (pid, k)) then v_dur (sh_value x) else 0) <$> shares) /\
  mt_parallelDur t = zsum ((fun x => if bool_decide (sh_id x = (pid, k)) then sh_pDur x else 0) <$> shares).
Proof.
  intros Ht. apply map_accumulate_elem in Ht.
  assert (Hd : forall f : share -> Z, zsum (f <$> filter (fun x => sh_id x = (pid, k)) shares) = zsum ((fun x => if bool_decide (sh_id x = (pid, k)) then f x else 0) <$> shares)).
  { intros f. apply zsum_filter; intros x Hx; [by rewrite bool_decide_true|by rewrite bool_decide_false]. }
  rewrite <- !Hd. split_and!.
  - pose proof (run_first merge_share mt_pid (fun x => (sh_id x).1) ltac:(done) ltac:(done) _ _ Ht) as E.
    destruct (filter _ shares) as [|x l] eqn:Ef; [done|]. injection E as <-.
    assert (Hx : x ∈ filter (fun x => sh_id x = (pid, k)) shares) by (rewrite Ef; by left). by apply list_elem_of_filter in Hx as [[= ? ?] _].
  - pose proof (run_first merge_share mt_title (fun x => (sh_id x).2) ltac:(done) ltac:(done) _ _ Ht) as E.
    destruct (filter _ shares) as [|x l] eqn:Ef; [done|]. injection E as <-.
    assert (Hx : x ∈ filter (fun x => sh_id x = (pid, k)) shares) by (rewrite Ef; by left). by apply list_elem_of_filter in Hx as [[= ? ?] _].
  - by rewrite (run_sum merge_share mt_dur (fun x => v_dur (sh_value x)) ltac:(by intros [?|] ?) _ None t Ht).
  - by rewrite (run_sum merge_share mt_parallelDur sh_pDur ltac:(by intros [?|] ?) _ None t Ht).
Qed.

(** [add_types] adds to every process the classes of its own. *)
Lemma add_types_get types : forall ds pid,
  map_get (foldl (fun ds t => match map_get ds (mt_pid t) with Some obj => map_set ds (mt_pid t) (add_type obj t) | None => ds end) ds types) pid =
  (fun r => foldl add_type r (filter (fun t => mt_pid t = pid) types)) <$> map_get ds pid.
Proof.
  induction types as [|t types IH]; intros ds pid; [cbn [foldl]; by destruct (map_get ds pid)|]. cbn [foldl]. rewrite IH, filter_cons.
  destruct (map_get ds (mt_pid t)) as [obj|] eqn:E; [rewrite map_get_set|]; case_decide as Hp; try (by subst; rewrite E); try done.
Qed.

Lemma add_types_keys types : forall ds : list (Z * mt_root),
  (foldl (fun ds t => match map_get ds (mt_pid t) with Some obj => map_set ds (mt_pid t) (add_type obj t) | None => ds end) ds types).*1 = ds.*1.
Proof.
  induction types as [|t types IH]; intros ds; [done|]. cbn [foldl]. rewrite IH. destruct (map_get ds (mt_pid t)) as [obj|] eqn:E; [|done].
  rewrite map_set_keys. unfold map_has. by rewrite E.
Qed.

Lemma add_type_sums types : forall r, let r' := foldl add_type r types in
  mr_pid r' = mr_pid r /\ mr_dur r' = mr_dur r + zsum (mt_dur <$> types) /\
  mr_parallelDur r' = mr_parallelDur r + zsum (mt_parallelDur <$> types) /\
  mr_children r' = mr_children r ++ (show_type <$> types) /\ (types <> [] -> is_Some (mr_load r')).
Proof.
  assert (Hl : forall types r, is_Some (mr_load r) -> is_Some (mr_load (foldl add_type r types))).
  { induction types0 as [|t types0 IH]; intros r Hr; [done|]. apply IH. by eexists. }
  induction types as [|t types IH]; intros r; cbn [foldl].
  - rewrite app_nil_r. repeat split; cbn; try lia. done.
  - destruct (IH (add_type r t)) as (-> & -> & -> & -> & _). rewrite !fmap_cons, !zsum_cons. cbn [mr_pid mr_dur mr_parallelDur mr_children add_type].
    rewrite <- app_assoc. repeat split; try lia. intros _. apply Hl. by eexists.
Qed.

Section Pairs.
Variable groups : list (core_type * jsstring * list Z * list running).
Hypothesis (HA : Forall (fun g => answer (group_rows g)) groups).
Notation types := (map_accumulate sh_id merge_share [] (concat (group_shares <$> groups))).
Notation roots := (map_accumulate rn_pid (keep_first new_root) [] (concat ((fun g => clip_slice lo hi <$> group_rows g) <$> groups))).

(** Times of a process, over the groups and over those of a class. *)
Definition in_class (k : core_type) (B : list running -> Z) (pid : Z) (g : core_type * jsstring * list Z * list running) : Z :=
  if bool_decide (group_core g = k) then B (of_process pid (group_rows g)) else 0.

Lemma types_times pid k t : ((pid, k), t) ∈ types ->
  mt_pid t = pid /\ mt_title t = k /\
  mt_dur t = zsum (in_class k busy_time pid <$> groups) /\ mt_parallelDur t = zsum (in_class k shared_time pid <$> groups).
Proof.
  intros Ht. destruct (types_entry _ _ _ _ Ht) as (Hp & Hk & -> & ->). split; [done|]. split; [done|].
  split; (apply groups_total; eapply Forall_impl; [exact HA|]; intros g Hg; apply class_total; [| |done]).
  - apply busy_nil.
  - apply share_dur.
  - apply shared_nil.
  - apply share_pDur.
Qed.

Lemma types_nodup : NoDup types.*1.
Proof. apply map_accumulate_nodup. constructor. Qed.

(** Sums over the classes of a process are sums over its groups. *)
Lemma process_total (f : mt_type -> Z) (gx : share -> Z) (B : list running -> Z) pid :
  (forall o x, f (merge_share o x) = from_option f 0 o + gx x) -> B [] = 0 ->
  (forall core gk g rows pid v, answer rows -> (pid, v) ∈ collect_rows lo hi rows -> gx (Share core gk g v (shared_time (of_process pid rows))) = B (of_process pid rows)) ->
  zsum (f <$> filter (fun t => mt_pid t = pid) types.*2) = zsum ((fun g => B (of_process pid (group_rows g))) <$> groups).
Proof.
  intros Hf HB Hgx. set (P := fun k : Z * core_type => bool_decide (k.1 = pid)).
  transitivity (zsum ((fun kv : (Z * core_type) * mt_type => if P kv.1 then f kv.2 else 0) <$> types)).
  - rewrite zsum_filter_if, <- list_fmap_compose. apply zsum_ext, Forall_forall. intros [[p k] t] Ht. unfold compose, P. cbn [fst snd].
    destruct (types_times p k t Ht) as (-> & _). case_decide; [by rewrite bool_decide_true|by rewrite bool_decide_false].
  - etransitivity; [apply (accumulate_keyed_sum sh_id merge_share P f gx Hf)|]. cbn [fmap list_fmap zsum foldr]. rewrite Z.add_0_l.
    apply groups_total. eapply Forall_impl; [exact HA|]. intros g Hg. by apply group_total.
Qed.

Lemma types_key pid k : (pid, k) ∈ types.*1 <-> exists g, g ∈ groups /\ group_core g = k /\ of_process pid (group_rows g) <> [].
Proof.
  rewrite map_get_elem, map_accumulate_get, <- not_eq_None_Some. cbn [map_get]. rewrite run_None. rewrite Forall_forall in HA. split.
  - intros Hne. destruct (filter _ _) as [|x l] eqn:E; [done|]. clear Hne.
    assert (Hx : x ∈ filter (fun x => sh_id x = (pid, k)) (concat (group_shares <$> groups))) by (rewrite E; by left).
    apply list_elem_of_filter in Hx as [Hid (xs & (g & -> & Hg)%list_elem_of_fmap & Hx)%elem_of_concat]. exists g. split; [done|].
    destruct g as [[[core gk] gr] rows]. apply list_elem_of_fmap in Hx as ([p v] & -> & Hv). injection Hid as Hp <-. split; [done|].
    destruct (collected_process rows p v (HA _ Hg) Hv) as (Hn & Hp' & _). cbn in Hp. rewrite Hp' in Hp. by subst.
  - intros (g & Hg & <- & Hn) Hnil. apply collected_key, list_elem_of_fmap in Hn as ([p v] & -> & Hv).
    destruct (collected_process _ p v (HA _ Hg) Hv) as (_ & Hp & _). refine (filter_nil_not_elem_of _ _ _ Hnil _ _).
    2: { apply elem_of_concat. exists (group_shares g). split; [by apply list_elem_of_fmap_2|]. by apply (list_elem_of_fmap_2 _ _ (p, v)). }
    unfold sh_id. cbn. by rewrite Hp.
Qed.

Lemma roots_key pid : pid ∈ roots.*1 <-> exists g, g ∈ groups /\ of_process pid (group_rows g) <> [].
Proof.
  rewrite map_get_elem, map_accumulate_get, <- not_eq_None_Some. cbn [map_get]. rewrite run_None.
  assert (E : filter (fun s => rn_pid s = pid) (concat ((fun g => clip_slice lo hi <$> group_rows g) <$> groups)) =
    concat ((fun g => clip_slice lo hi <$> of_process pid (group_rows g)) <$> groups)).
  { clear HA. induction groups as [|g gs IH]; [done|]. rewrite !fmap_cons. cbn [concat]. by rewrite filter_app, IH, clip_of_process. }
  rewrite E. clear E HA. induction groups as [|g gs IH]; [split; [done|by intros (? & []%elem_of_nil & _)]|]. rewrite fmap_cons. cbn [concat].
  destruct (decide (of_process pid (group_rows g) = [])) as [E|E].
  - rewrite E. cbn [fmap list_fmap app]. rewrite IH. split; intros (g' & Hg' & Hn); exists g'; (split; [|done]); [by right|].
    apply elem_of_cons in Hg' as [-> | ?]; done.
  - split; [intros _; exists g; split; [by left|done]|]. intros _ [H1%fmap_nil_iff _]%app_nil. done.
Qed.

Lemma roots_entry pid r : (pid, r) ∈ roots -> exists s, rn_pid s = pid /\ r = new_root s.
Proof.
  intros Hr. apply map_accumulate_elem in Hr. pose proof (run_first (keep_first new_root) id new_root ltac:(done) ltac:(done) _ _ Hr) as E.
  destruct (filter _ _) as [|s l] eqn:Ef; [done|]. injection E as <-. exists s. split; [|done].
  assert (Hs : s ∈ filter (fun s => rn_pid s = pid) (concat ((fun g => clip_slice lo hi <$> group_rows g) <$> groups))) by (rewrite Ef; by left).
  by apply list_elem_of_filter in Hs as [? _].
Qed.

Lemma types_keyed : (fun t => (mt_pid t, mt_title t)) <$> types.*2 = types.*1.
Proof.
  rewrite <- list_fmap_compose. apply list_fmap_ext. intros i [[pid k] t] Hi. cbn.
  apply list_elem_of_lookup_2 in Hi. by destruct (types_times pid k t Hi) as (-> & -> & _).
Qed.

(** The classes of a process. *)
Lemma own_types pid (own := filter (fun t => mt_pid t = pid) types.*2) :
  NoDup (mt_title <$> own) /\
  (forall k, k ∈ mt_title <$> own <-> exists g, g ∈ groups /\ group_core g = k /\ of_process pid (group_rows g) <> []) /\
  forall t, t ∈ own -> mt_dur t = zsum (in_class (mt_title t) busy_time pid <$> groups) /\
                       mt_parallelDur t = zsum (in_class (mt_title t) shared_time pid <$> groups).
Proof.
  assert (Hown : forall t, t ∈ own <-> mt_pid t = pid /\ ((pid, mt_title t), t) ∈ types).
  { intros t. unfold own. rewrite list_elem_of_filter, list_elem_of_fmap. split.
    - intros (Hp & [[p k] t'] & -> & Ht). split; [done|]. cbn in *. destruct (types_times p k t' Ht) as (<- & <- & _). by rewrite Hp in Ht.
    - intros [Hp Ht]. split; [done|]. by exists ((pid, mt_title t), t). }
  split_and!.
  - assert (HN : NoDup ((fun t => (mt_pid t, mt_title t)) <$> own)).
    { eapply sublist_NoDup; [|apply fmap_sublist, sublist_filter]. rewrite types_keyed. apply types_nodup. }
    apply (NoDup_fmap_1 (pair pid)). rewrite <- list_fmap_compose. rewrite (list_fmap_ext _ (fun t => (mt_pid t, mt_title t))); [done|].
    intros i t Ht. apply list_elem_of_lookup_2, Hown in Ht as [<- _]. done.
  - intros k. rewrite <- types_key, list_elem_of_fmap, list_elem_of_fmap. split.
    + intros (t & -> & [_ Ht]%Hown). by exists ((pid, mt_title t), t).
    + intros ([[p k'] t] & [= -> ->] & Ht). destruct (types_times p k' t Ht) as (Hp & Hk & _). exists t. split; [done|]. apply Hown. by rewrite Hk.
  - intros t [_ Ht]%Hown. by destruct (types_times _ _ t Ht) as (_ & _ & ? & ?).
Qed.

(** A row of the table against the groups. *)
Definition root_ok (pid : Z) (r : shown_root) : Prop :=
  sr_dur r = in_unit (zsum ((fun g => busy_time (of_process pid (group_rows g))) <$> groups)) /\
  sr_parallelDur r = in_unit (zsum ((fun g => shared_time (of_process pid (group_rows g))) <$> groups)) /\
  NoDup ((fun t => mt_title (st_type t)) <$> mr_children (sr_root r)) /\
  (forall k, k ∈ (fun t => mt_title (st_type t)) <$> mr_children (sr_root r) <->
             exists g, g ∈ groups /\ group_core g = k /\ of_process pid (group_rows g) <> []) /\
  forall t, t ∈ mr_children (sr_root r) ->
    st_dur t = in_unit (zsum (in_class (mt_title (st_type t)) busy_time pid <$> groups)) /\
    st_parallelDur t = in_unit (zsum (in_class (mt_title (st_type t)) shared_time pid <$> groups)).

Lemma root_shown pid r : (pid, r) ∈ add_types {| dataSourceMap := roots; coreTypeMap := types |} ->
  exists shown, show_root r = Ok shown /\ mr_pid (sr_root shown) = pid /\ root_ok pid shown.
Proof.
  intros Hr. assert (HN : NoDup roots.*1) by (apply map_accumulate_nodup; constructor).
  unfold add_types in Hr. cbn [dataSourceMap coreTypeMap] in Hr.
  apply map_get_nodup in Hr; [|by rewrite add_types_keys]. rewrite add_types_get in Hr. apply fmap_Some in Hr as (r0 & Hr0 & ->).
  destruct (roots_entry pid r0 (map_get_in _ _ _ Hr0)) as (s & Hs & ->).
  destruct (proj1 (roots_key pid)) as (g & Hg & Hn); [apply map_get_elem; by eexists|].
  set (own := filter (fun t => mt_pid t = pid) types.*2). destruct (own_types pid) as (HoN & Hok & Hot). fold own in HoN, Hok, Hot.
  assert (Hne : own <> []).
  { intros E. rewrite E in Hok. apply (elem_of_nil (group_core g)), Hok. by exists g. }
  destruct (add_type_sums own (new_root s)) as (Ep & Ed & Eq & Ec & [q El]); [done|]. unfold show_root. rewrite El.
  eexists. split; [done|]. cbn [sr_root sr_dur sr_parallelDur]. split; [by rewrite Ep|]. unfold root_ok. cbn [sr_root sr_dur sr_parallelDur].
  rewrite Ec, Ed, Eq. cbn [new_root mr_dur mr_parallelDur mr_children app]. rewrite !Z.add_0_l. unfold own at 1 2.
  rewrite (process_total mt_dur (fun x => v_dur (sh_value x)) busy_time), (process_total mt_parallelDur sh_pDur shared_time) by
    (first [by intros [?|] ?|apply busy_nil|apply shared_nil|apply share_dur|apply share_pDur]).
  rewrite <- list_fmap_compose. split; [done|]. split; [done|]. split; [done|]. split; [done|].
  intros t' (t & -> & Ht)%list_elem_of_fmap. cbn. destruct (Hot t Ht) as [-> ->]. done.
Qed.

(** The table of a loop over groups whose answers have ends. *)
Lemma mt_table_ok :
  exists m table, mt_groups_from groups no_maps = Some m /\ mt_rows m = Ok table /\
    NoDup ((fun r => mr_pid (sr_root r)) <$> table) /\
    (forall pid, pid ∈ (fun r => mr_pid (sr_root r)) <$> table <-> exists g, g ∈ groups /\ of_process pid (group_rows g) <> []) /\
    forall r, r ∈ table -> root_ok (mr_pid (sr_root r)) r.
Proof.
  rewrite mt_groups_accumulate by done. exists {| dataSourceMap := roots; coreTypeMap := types |}. unfold mt_rows.
  set (m := add_types _). assert (Hk : m.*1 = roots.*1) by apply add_types_keys.
  set (shown := fun r => match show_root r with Ok x => x | Throw _ => Build_shown_root r [] [] [] [] end).
  assert (Hm : forall pid r, (pid, r) ∈ m -> show_root r = Ok (shown r) /\ mr_pid (sr_root (shown r)) = pid /\ root_ok pid (shown r)).
  { intros pid r Hr. destruct (root_shown pid r Hr) as (x & E & H1 & H2). unfold shown. rewrite E. done. }
  exists (shown <$> m.*2). split; [done|]. split; [apply res_map_ok, Forall_fmap, Forall_forall; intros [pid r] Hr; by apply (Hm pid r)|].
  assert (Hp : (fun r => mr_pid (sr_root r)) <$> (shown <$> m.*2) = m.*1).
  { rewrite <- !list_fmap_compose. apply list_fmap_ext. intros i [pid r] Hi. cbn. apply (Hm pid r). by eapply list_elem_of_lookup_2. }
  rewrite Hp, Hk. split; [apply map_accumulate_nodup; constructor|]. split; [apply roots_key|].
  intros x (r & -> & ([pid r'] & -> & Hr)%list_elem_of_fmap)%list_elem_of_fmap. cbn. destruct (Hm pid r' Hr) as (_ & -> & ?). done.
Qed.

End Pairs.

End Tables.

(** ** A selection of two threads *)

Lemma two_slices_answer : answer 0 100 two_slices.
Proof.
  split; [lia|]. split; [repeat constructor; unfold starts_le; cbn; lia|].
  repeat (constructor; [eexists; split; [reflexivity|cbn; lia]|]). constructor.
Qed.

(** The classes of a device with twelve processors. *)
Definition twelve_cores : core_classes := {| largeCores := [10; 11]; midCores := [4; 5; 6; 7; 8; 9]; smallCores := [0; 1; 2; 3] |}.

Example two_slices_table :
  option_map (map (fun v => (sv_tCount v, sv_allParallel v, map sd_parallelNum (sv_children v)))) (@getAllCoreData exact_doubles 12 0 100 two_slices) =
  Some [(2, js "46.154", [2])].
Proof. vm_compute. reflexivity. Qed.

Lemma time_parallel_table_witness : answer 0 100 two_slices /\
  exists table, @getAllCoreData exact_doubles 12 0 100 two_slices = Some table /\ NoDup (sv_pid <$> table).
Proof.
  split; [exact two_slices_answer|].
  destruct (@time_parallel_table exact_doubles 12 0 100 two_slices two_slices_answer) as (table & E & HN & _). exists table. split; [exact E|exact HN].
Defined.

Lemma two_slices_selected : selected 0 100 two_slices.
Proof.
  split; [lia|]. split; [repeat constructor; unfold starts_le; cbn; lia|].
  repeat (constructor; [cbn; lia|]). constructor.
Qed.

(** The same with a slice that the trace does not end. *)
Definition open_slices : list running := two_slices ++ [Running 7 3 None 9 None].

Lemma open_slices_selected : selected 0 100 open_slices.
Proof.
  split; [lia|]. split; [repeat constructor; unfold starts_le; cbn; lia|].
  repeat (constructor; [cbn; lia|]). constructor.
Qed.

Lemma time_class_table_witness :
  (exists table, @getCoreGroupData exact_doubles 12 0 100 (fun _ => two_slices) twelve_cores = Some (Ok table) /\ NoDup (sp_pid <$> table)) /\
  @getCoreGroupData exact_doubles 12 0 100 (fun _ => open_slices) twelve_cores = None.
Proof.
  split.
  - pose proof (@time_class_table exact_doubles 12 0 100 (fun _ => two_slices) twelve_cores) as T. rewrite decide_True in T.
    + destruct T as (table & E & HN & _); [repeat (constructor; [exact two_slices_selected|]); constructor|]. exists table. split; [exact E|exact HN].
    + apply (bool_decide_unpack _). vm_compute. exact I.
  - pose proof (@time_class_table exact_doubles 12 0 100 (fun _ => open_slices) twelve_cores) as T. rewrite decide_False in T.
    + apply T. repeat (constructor; [exact open_slices_selected|]). constructor.
    + apply (bool_decide_unpack _). vm_compute. exact I.
Defined.
