(* ===== verification/CoreSettings.v ===== *)
(** * Parallelism: the settings of processors

    The tables of parallelism ([ParallelTables]) depend on two settings.  The classes of
    processors (small, middle, large) are edited in a list of check boxes that
    [TabPaneFilter.setCoreConfigList] builds: it hands the arrays of the page to a
    listener per line, which changes some of them in place and replaces its own variables
    for others by filtered copies.  Arrays are therefore cells of a store here, and the
    page and the lines hold their addresses.  The groups of processors that share a
    physical core are edited in [TabPaneMtParallel], in a [Map] that a loop of the page
    may be reading at the time ([MtPage]): maps are slots here. *)

From S2P Require Import Prelude JsRuntime HeapModel SwimFilter ParallelTables.
Open Scope Z_scope.

(** ** The classes *)

(** One thing for each class. *)
Record trio (A : Type) := Trio { for_small : A; for_mid : A; for_large : A }.
Arguments Trio {A}.
Arguments for_small {A}.
Arguments for_mid {A}.
Arguments for_large {A}.

Definition tget {A} (k : core_type) (t : trio A) : A :=
  match k with CoreS => for_small t | CoreM => for_mid t | CoreL => for_large t end.

Definition tset {A} (k : core_type) (v : A) (t : trio A) : trio A :=
  match k with
  | CoreS => Trio v (for_mid t) (for_large t)
  | CoreM => Trio (for_small t) v (for_large t)
  | CoreL => Trio (for_small t) (for_mid t) v
  end.

(** A line of the list: its processor, what its boxes show, and its variables [small],
    [mid] and [large]. *)
Record line := Line { ln_cpu : Z; ln_boxes : trio bool; ln_vars : trio nat }.

Record settings := Settings {
  store : list (list Z);
  pane : trio nat;
  lines : list line
}.

(** [canUpdateCheckList] *)
Definition canUpdateCheckList (check : bool) (coreArr : list Z) (cpu : Z) : list Z :=
  if check then if bool_decide (cpu ∈ coreArr) then coreArr else coreArr ++ [cpu]
  else match list_find (fun c => c = cpu) coreArr with Some (index, _) => delete index coreArr | None => coreArr end.

(** The arrays of the page as [initDefaultConfig] leaves them. *)
Definition initDefaultConfig (winCpuCount : Z) : trio (list Z) :=
  if winCpuCount =? 12 then Trio [0; 1; 2; 3] [4; 5; 6; 7; 8; 9] [10; 11] else Trio [] [] [].

(** [setCoreConfigList]: a line per processor, all with the arrays of the page. *)
Definition setCoreConfigList (count : Z) (st : list (list Z)) (refs : trio nat) : list line :=
  (fun i => Line i (Trio (bool_decide (i ∈ default [] (st !! for_small refs))) (bool_decide (i ∈ default [] (st !! for_mid refs)))
                         (bool_decide (i ∈ default [] (st !! for_large refs)))) refs) <$> seqZ 0 count.

(** The list opened on the arrays of the page. *)
Definition open_settings (count : Z) (arrays : trio (list Z)) : settings :=
  let st := [for_small arrays; for_mid arrays; for_large arrays] in
  Settings st (Trio 0 1 2)%nat (setCoreConfigList count st (Trio 0 1 2)%nat).

(** The other classes, in the order in which the listener of a box replaces them. *)
Definition others (k : core_type) : list core_type :=
  match k with CoreS => [CoreM; CoreL] | CoreM => [CoreL; CoreS] | CoreL => [CoreM; CoreS] end.

(** [mid = mid.filter((it) => it !== cpu)]: a new array, for this line only. *)
Definition refilter (cpu : Z) (sv : list (list Z) * trio nat) (o : core_type) : list (list Z) * trio nat :=
  let '(st, vars) := sv in
  (st ++ [filter (fun it => it <> cpu) (default [] (st !! tget o vars))], tset o (length st) vars).

(** The listeners of [createCheckBoxLine]: the box of a class in a line has changed. *)
Definition change (i : nat) (k : core_type) (checked : bool) (s : settings) : settings :=
  match lines s !! i with
  | None => s
  | Some l =>
      let boxes := foldl (fun b o => tset o false b) (tset k checked (ln_boxes l)) (others k) in
      let st1 := alter (fun arr => canUpdateCheckList checked arr (ln_cpu l)) (tget k (ln_vars l)) (store s) in
      let '(st2, vars) := foldl (refilter (ln_cpu l)) (st1, ln_vars l) (others k) in
      Settings st2 (pane s) (<[i := Line (ln_cpu l) boxes vars]> (lines s))
  end.

Definition changes (evs : list (nat * core_type * bool)) (s : settings) : settings :=
  foldl (fun s ev => change ev.1.1 ev.1.2 ev.2 s) s evs.

(** The arrays that the page computes its tables with. *)
Definition class_of (s : settings) (k : core_type) : list Z := default [] (store s !! tget k (pane s)).

Definition page_classes (s : settings) : core_classes :=
  {| largeCores := class_of s CoreL; midCores := class_of s CoreM; smallCores := class_of s CoreS |}.

(** ** What a change does to the page *)

Lemma tget_tset {A} k k' (v : A) t : tget k (tset k' v t) = if decide (k = k') then v else tget k t.
Proof. by destruct k, k'. Qed.

Lemma update_elem check arr cpu c : NoDup arr ->
  c ∈ canUpdateCheckList check arr cpu <-> if decide (c = cpu) then check = true else c ∈ arr.
Proof.
  intros HN. unfold canUpdateCheckList. destruct check.
  - case_bool_decide as Hin; [|rewrite elem_of_app, list_elem_of_singleton]; case_decide as E; subst; naive_solver.
  - destruct (list_find _ arr) as [[i x]|] eqn:E.
    + apply list_find_Some in E as (Hi & -> & _). rewrite delete_take_drop. revert HN. pose proof (take_drop_middle arr i cpu Hi) as Ea. revert Ea.
      generalize (take i arr) (drop (S i) arr). intros l1 l2 <- (_ & H1 & [H2 _]%NoDup_cons)%NoDup_app.
      case_decide as Ec; [subst; rewrite elem_of_app; split; [|done]|rewrite !elem_of_app, elem_of_cons; naive_solver].
      intros [Hc|Hc]; [|done]. destruct (H1 _ Hc). by left.
    + apply list_find_None in E. rewrite Forall_forall in E. case_decide as Ec; [|done]. subst. split; [|done]. intros Hc. by destruct (E _ Hc).
Qed.

Lemma update_nodup check arr cpu : NoDup arr -> NoDup (canUpdateCheckList check arr cpu).
Proof.
  intros HN. unfold canUpdateCheckList. destruct check.
  - case_bool_decide; [done|]. apply NoDup_app. split_and!; [done| |apply NoDup_singleton]. by intros x Hx ->%list_elem_of_singleton.
  - destruct (list_find _ arr) as [[i x]|] eqn:E; [|done]. eapply sublist_NoDup; [exact HN|apply sublist_delete].
Qed.

Lemma change_class i k checked s l k' : lines s !! i = Some l -> (tget k' (pane s) < length (store s))%nat ->
  class_of (change i k checked s) k' =
  if decide (tget k (ln_vars l) = tget k' (pane s)) then canUpdateCheckList checked (class_of s k') (ln_cpu l) else class_of s k'.
Proof.
  intros Hl Hp. unfold change. rewrite Hl. set (st1 := alter _ _ _). assert (Hlen : length st1 = length (store s)) by apply length_alter.
  assert (Hst : exists st' vars, foldl (refilter (ln_cpu l)) (st1, ln_vars l) (others k) = (st1 ++ st', vars)).
  { destruct k; cbn; rewrite <- app_assoc; eauto. }
  destruct Hst as (st' & vars & ->). unfold class_of. cbn [store pane]. rewrite lookup_app_l by lia. subst st1. case_decide as E.
  - rewrite E, list_lookup_alter_eq. destruct (store s !! tget k' (pane s)) eqn:Es; [done|]. apply lookup_ge_None in Es. lia.
  - by rewrite list_lookup_alter_ne.
Qed.

Lemma change_line i k checked s l : lines s !! i = Some l ->
  exists vars, lines (change i k checked s) = <[i := Line (ln_cpu l) (tset k checked (Trio false false false)) vars]> (lines s) /\
    pane (change i k checked s) = pane s /\ (length (store s) <= length (store (change i k checked s)))%nat /\
    tget k vars = tget k (ln_vars l) /\ forall o, o <> k -> (length (store s) <= tget o vars)%nat.
Proof.
  intros Hl. unfold change. rewrite Hl. set (st1 := alter _ _ _). assert (Hlen : length st1 = length (store s)) by apply length_alter. clearbody st1.
  destruct k; cbn; eexists; (split; [done|]); (split; [done|]); rewrite !length_app, Hlen; cbn;
    (split; [lia|]); (split; [done|]); intros []; cbn; rewrite ?length_app, ?Hlen; cbn; done || lia.
Qed.

(** ** Lines that use one box *)

Definition page_ok (s : settings) : Prop :=
  (forall k, (tget k (pane s) < length (store s))%nat) /\ (forall k k', tget k (pane s) = tget k' (pane s) -> k = k') /\
  forall k, NoDup (class_of s k).

(** The line still shares the array of its box, and its boxes show the classes. *)
Definition line_ok (use : nat -> core_type) (s : settings) (i : nat) (l : line) : Prop :=
  ln_cpu l = Z.of_nat i /\ tget (use i) (ln_vars l) = tget (use i) (pane s) /\
  forall k, tget k (ln_boxes l) = bool_decide (ln_cpu l ∈ class_of s k) /\ (k <> use i -> ln_cpu l ∉ class_of s k).

Definition settled (use : nat -> core_type) (s : settings) : Prop :=
  page_ok s /\ forall i l, lines s !! i = Some l -> line_ok use s i l.

Lemma change_settled use s i checked : settled use s -> settled use (change i (use i) checked s).
Proof.
  intros [(Hp & Hi & HN) HL]. destruct (lines s !! i) as [l|] eqn:El; [|unfold change; by rewrite El].
  destruct (change_line i (use i) checked s l El) as (vars & Elines & Epane & Hlen & Hv & Ho).
  destruct (HL i l El) as (Hcpu & Hvar & Hbox).
  assert (HC : forall k, class_of (change i (use i) checked s) k = if decide (k = use i) then canUpdateCheckList checked (class_of s k) (ln_cpu l) else class_of s k).
  { intros k. rewrite (change_class i (use i) checked s l k El (Hp k)), Hvar. do 2 case_decide; try done; [|congruence].
    by destruct (Hi (use i) k). }
  split; [split_and!|].
  - intros k. rewrite Epane. specialize (Hp k). lia.
  - by rewrite Epane.
  - intros k. rewrite HC. case_decide; [by apply update_nodup|done].
  - rewrite Elines. intros j lj [(<- & <- & _) | [Hne Hj]]%list_lookup_insert_Some.
    + split; [done|]. cbn [ln_cpu ln_vars ln_boxes]. split; [by rewrite Epane, Hv|]. intros k. rewrite HC, tget_tset. case_decide as Ek.
      * subst k. split; [|done]. apply eq_bool_prop_intro. rewrite bool_decide_spec, update_elem, decide_True by done. by destruct checked.
      * destruct (Hbox k) as [_ Hn]. specialize (Hn Ek). split; [|done]. rewrite bool_decide_false by done. by destruct k.
    + destruct (HL j lj Hj) as (Hcpuj & Hvarj & Hboxj). split; [done|]. split; [by rewrite Epane|]. intros k. rewrite HC.
      destruct (Hboxj k) as [-> Hn]. case_decide as Ek; [|done].
      assert (Hc : forall c, c = ln_cpu lj -> c ∈ canUpdateCheckList checked (class_of s k) (ln_cpu l) <-> c ∈ class_of s k).
      { intros c ->. rewrite update_elem, decide_False by (try done; lia). done. }
      split; [apply bool_decide_ext; by rewrite Hc|]. rewrite Hc by done. done.
Qed.

Lemma changes_settled use evs : Forall (fun ev => ev.1.2 = use ev.1.1) evs -> forall s, settled use s -> settled use (changes evs s).
Proof.
  induction 1 as [|[[i k] c] evs E _ IH]; intros s Hs; [done|]. cbn in E. subst k. apply IH. by apply change_settled.
Qed.

Lemma class_of_opened count arrays k : class_of (open_settings count arrays) k = tget k arrays.
Proof. by destruct k. Qed.

Lemma opened_line count arrays i l : lines (open_settings count arrays) !! i = Some l ->
  l = Line (Z.of_nat i) (Trio (bool_decide (Z.of_nat i ∈ for_small arrays)) (bool_decide (Z.of_nat i ∈ for_mid arrays)) (bool_decide (Z.of_nat i ∈ for_large arrays))) (Trio 0 1 2)%nat.
Proof.
  cbn. unfold setCoreConfigList. rewrite list_lookup_fmap, fmap_Some. intros (c & Hc & ->). apply lookup_seqZ in Hc as [-> _].
  by rewrite Z.add_0_l.
Qed.

Lemma opened_page count arrays : (forall k, NoDup (tget k arrays)) -> page_ok (open_settings count arrays).
Proof. intros HN. split_and!; [intros []; cbn; lia|by intros [] []|intros k; by rewrite class_of_opened]. Qed.

(** Classes that are edited without moving a processor: when in every line only one
    box is ever used, and the processor of the line is in no other class at the start,
    then after any sequence of changes in any lines the boxes show exactly the classes
    that the page computes its tables with. *)
Theorem settings_one_box count arrays use evs :
  (forall k, NoDup (tget k arrays)) ->
  (forall i k, 0 <= Z.of_nat i < count -> k <> use i -> Z.of_nat i ∉ tget k arrays) ->
  Forall (fun ev => ev.1.2 = use ev.1.1) evs ->
  forall i l k, lines (changes evs (open_settings count arrays)) !! i = Some l ->
    ln_cpu l = Z.of_nat i /\ tget k (ln_boxes l) = bool_decide (ln_cpu l ∈ class_of (changes evs (open_settings count arrays)) k).
Proof.
  intros HN Hu HE i l k Hl. assert (HS : settled use (open_settings count arrays)).
  { split; [by apply opened_page|]. intros j lj Hj. pose proof (lookup_lt_Some _ _ _ Hj) as Hlt. apply opened_line in Hj as ->.
    cbn in Hlt. unfold setCoreConfigList in Hlt. rewrite length_fmap, length_seqZ in Hlt.
    split; [done|]. split; [done|]. intros k'. rewrite class_of_opened. cbn [ln_cpu ln_boxes]. split; [by destruct k'|].
    apply Hu. lia. }
  destruct (changes_settled use evs HE _ HS) as [_ HL]. destruct (HL i l Hl) as (Hc & _ & Hb). split; [done|]. by destruct (Hb k).
Qed.

(** C35: A processor that is moved to another class in the opened list stays in its old
    class on the page: the listener takes it out of a copy.  The boxes show the new class
    only, while the tables are computed with the processor in both; and moving it back
    changes nothing on the page, because the line no longer holds the array of the old
    class. *)
Theorem moved_core_in_both count arrays i k k' :
  (forall k, NoDup (tget k arrays)) -> Z.of_nat i < count -> k <> k' -> Z.of_nat i ∈ tget k arrays ->
  let s := change i k' true (open_settings count arrays) in
  let s' := change i k true s in
  ln_boxes <$> lines s !! i = Some (tset k' true (Trio false false false)) /\
  Z.of_nat i ∈ class_of s k /\ Z.of_nat i ∈ class_of s k' /\
  ln_boxes <$> lines s' !! i = Some (tset k true (Trio false false false)) /\
  forall x, class_of s' x = class_of s x.
Proof.
  intros HN Hi Hk Hin s s'. destruct (opened_page count arrays HN) as (Hp & Hinj & _).
  destruct (lines (open_settings count arrays) !! i) as [l|] eqn:El.
  2: { cbn in El. unfold setCoreConfigList in El. apply lookup_ge_None in El. rewrite length_fmap, length_seqZ in El. lia. }
  assert (Hvars : ln_vars l = pane (open_settings count arrays) /\ ln_cpu l = Z.of_nat i) by (by apply opened_line in El as ->).
  destruct Hvars as [Hvars Hcpu].
  destruct (change_line i k' true _ l El) as (vars & Elines & Epane & Hlen & Hv & Ho). fold s in Elines, Epane, Hlen.
  assert (El' : lines s !! i = Some (Line (ln_cpu l) (tset k' true (Trio false false false)) vars)).
  { rewrite Elines. apply list_lookup_insert_eq. by eapply lookup_lt_Some. }
  destruct (change_line i k true s _ El') as (vars' & Elines' & _). fold s' in Elines'.
  assert (HC : forall x, class_of s x = if decide (k' = x) then canUpdateCheckList true (class_of (open_settings count arrays) x) (ln_cpu l) else class_of (open_settings count arrays) x).
  { intros x. unfold s. rewrite (change_class i k' true _ l x El (Hp x)), Hvars. do 2 case_decide; subst; try done. by destruct (Hinj k' x). }
  split; [by rewrite El'|]. split; [rewrite HC, decide_False, class_of_opened by done; done|].
  split; [rewrite HC, decide_True, class_of_opened, update_elem, decide_True; done|]. split.
  - rewrite Elines', list_lookup_insert_eq; [done|]. by eapply lookup_lt_Some.
  - intros x. unfold s'. rewrite (change_class i k true s _ x El'); [|rewrite Epane; specialize (Hp x); lia].
    cbn [ln_vars]. rewrite decide_False; [done|]. rewrite Epane. specialize (Hp x). specialize (Ho k Hk). lia.
Qed.

(** ** Maps that are read while they change *)

(** The table of physical cores is computed by a loop over the entries of a [Map] that
    waits for queries between them, and sees what happens to the map meanwhile.  The
    entries of a [Map] are slots in the order in which they were added: an entry that is
    deleted leaves its slot empty, and a loop is a position that only moves on. *)
Definition slots := list (option (jsstring * list Z)).

Definition entries (m : slots) : list (jsstring * list Z) := omap id m.

Fixpoint slot_set (m : slots) (k : jsstring) (v : list Z) : slots :=
  match m with
  | [] => [Some (k, v)]
  | Some (k0, v0) :: m' => if decide (k0 = k) then Some (k0, v) :: m' else Some (k0, v0) :: slot_set m' k v
  | None :: m' => None :: slot_set m' k v
  end.

Definition slot_delete (m : slots) (k : jsstring) : slots :=
  (fun s => match s with Some (k0, v0) => if decide (k0 = k) then None else Some (k0, v0) | None => None end) <$> m.

Definition slot_clear (m : slots) : slots := (fun _ => None) <$> m.

(** ** The groups *)

(** [bufferGroupMap] and the lines of [groupContentDiv]; [arrays] holds every three arrays
    of classes that the page has had, of which it has those at [cores] now. *)
Record groups := Groups {
  bufferGroupMap : slots;
  groupContent : list (jsstring * list Z);
  addGroupArr : list Z;
  arrays : list (trio (list Z));
  cores : nat;
  isCreateGroup : bool;
  isCreateCpu : bool;
  isReset : bool
}.

(** [CORE_JSON] *)
Definition core_json : list (jsstring * list Z) :=
  [(js "group1", [4; 5]); (js "group2", [6; 7]); (js "group3", [8; 9]); (js "group4", [10; 11])].

Definition arrays_at (g : groups) (i : nat) : trio (list Z) := default (Trio [] [] []) (arrays g !! i).

Definition trio_classes (t : trio (list Z)) : core_classes :=
  {| largeCores := for_large t; midCores := for_mid t; smallCores := for_small t |}.

Section Groups.
Variable winCpuCount : Z.

(** [initDefaultConfig]: new arrays, when the list of classes is to be built anew. *)
Definition reload_cores (g : groups) : groups :=
  if isCreateCpu g
  then Groups (bufferGroupMap g) (groupContent g) (addGroupArr g) (arrays g ++ [initDefaultConfig winCpuCount]) (length (arrays g))
         (isCreateGroup g) (isCreateCpu g) (isReset g)
  else g.

(** [initGroupFn]: a group of two processors at least, none of which is in a group, gets a
    line and an entry with the number of the line. *)
Definition initGroupFn (g : groups) (arr : list Z) : groups :=
  let info := concat (entries (bufferGroupMap g)).*2 in
  let flag := 0 <? zlen (filter (fun item => item ∈ info) arr) in
  if (1 <? zlen arr) && negb flag then
    let key := js "group" ++ js_toString 10 (zlen (groupContent g) + 1) in
    Groups (slot_set (bufferGroupMap g) key arr) (groupContent g ++ [(key, arr)]) (addGroupArr g) (arrays g) (cores g) (isCreateGroup g) (isCreateCpu g) (isReset g)
  else g.

(** [getGroupTableLine]: it sets [isCreateGroup], and shows for every processor whether
    it is checked and disabled. *)
Definition getGroupTableLine (cut : bool) (g : groups) : groups * list (Z * bool * bool) :=
  let bufferInfo := concat (entries (bufferGroupMap g)).*2 in
  let switchArr := concat core_json.*2 in
  let preset := (winCpuCount =? 12) && negb cut && isReset g in
  let now := arrays_at g (cores g) in
  let all := for_small now ++ for_mid now ++ for_large now in
  (Groups (bufferGroupMap g) (groupContent g) (addGroupArr g) (arrays g) (cores g) false (isCreateCpu g) (isReset g),
   (fun i => (i, if preset then bool_decide (i ∈ switchArr) else bool_decide (i ∈ bufferInfo),
                 if preset then negb (bool_decide (i ∈ switchArr)) else negb (bool_decide (i ∈ all)))) <$> seqZ 0 winCpuCount).

(** [resetGroup] *)
Definition resetGroup (isRest : bool) (g : groups) : groups :=
  Groups (slot_clear (bufferGroupMap g)) (groupContent g) (addGroupArr g) (arrays g) (cores g) true (isCreateCpu g) (negb isRest).

(** What the user does with the two popovers.  [EditCores] stands for the changes of the
    check boxes of the classes: the listeners change arrays in place, those that the page
    has or those of a list that it has shown before. *)
Inductive group_event :=
  | OpenGroups
  | ToggleCore (cpu : Z) (checked : bool)
  | AddGroup
  | CutGroup
  | ConfirmGroups
  | ResetGroups
  | OpenCores
  | EditCores (i : nat) (c : trio (list Z))
  | ConfirmCores
  | ResetCores.

Definition set_add (arr : list Z) (g : groups) : groups :=
  Groups (bufferGroupMap g) (groupContent g) arr (arrays g) (cores g) (isCreateGroup g) (isCreateCpu g) (isReset g).

Definition set_create (b : bool) (g : groups) : groups :=
  Groups (bufferGroupMap g) (groupContent g) (addGroupArr g) (arrays g) (cores g) (isCreateGroup g) b (isReset g).

(** The listeners, with the argument of the call of [updateDataSource] that they end with
    if they do. *)
Definition group_step (g : groups) (ev : group_event) : groups * option bool :=
  match ev with
  | OpenGroups =>
      let g := set_add [] g in
      if isCreateGroup g then
        let g := Groups (bufferGroupMap g) [] (addGroupArr g) (arrays g) (cores g) (isCreateGroup g) (isCreateCpu g) (isReset g) in
        let g := (getGroupTableLine false g).1 in
        if (winCpuCount =? 12) && isReset g then
          let g := Groups (bufferGroupMap g) (groupContent g) (addGroupArr g) (arrays g) (cores g) (isCreateGroup g) (isCreateCpu g) false in
          (foldl initGroupFn g core_json.*2, None)
        else (g, None)
      else ((getGroupTableLine false g).1, None)
  | ToggleCore cpu checked => (set_add (canUpdateCheckList checked (addGroupArr g) cpu) g, None)
  | AddGroup => (set_add [] (initGroupFn g (addGroupArr g)), None)
  | CutGroup =>
      match last (groupContent g) with
      | None => (g, None)
      | Some (key, _) =>
          let g := Groups (slot_delete (bufferGroupMap g) key) (take (length (groupContent g) - 1) (groupContent g)) [] (arrays g) (cores g) (isCreateGroup g) (isCreateCpu g) (isReset g) in
          ((getGroupTableLine true g).1, None)
      end
  | ConfirmGroups => (g, Some true)
  | ResetGroups => (reload_cores (set_create true (resetGroup false g)), Some false)
  | OpenCores => (if isCreateCpu g then set_create false (reload_cores g) else g, None)
  | EditCores i c => (Groups (bufferGroupMap g) (groupContent g) (addGroupArr g) (<[i := c]> (arrays g)) (cores g) (isCreateGroup g) (isCreateCpu g) (isReset g), None)
  | ConfirmCores => (resetGroup true g, Some true)
  | ResetCores => (resetGroup false (reload_cores (set_create true g)), Some false)
  end.

(** The pane before its first selection. *)
Definition new_groups : groups := Groups [] [] [] [Trio [] [] []] 0 true true true.

(** *** What holds of the groups *)

Definition disjoint_pairs (obj : list (jsstring * list Z)) : Prop :=
  NoDup (concat obj.*2) /\ Forall (fun arr => 2 <= zlen arr) obj.*2.

Definition groups_ok (g : groups) : Prop := disjoint_pairs (entries (bufferGroupMap g)) /\ NoDup (addGroupArr g).

Lemma entries_set m k v : entries (slot_set m k v) = map_set (entries m) k v.
Proof.
  induction m as [|[[k0 v0]|] m IH]; [done| |exact IH]. cbn [slot_set]. change (entries (Some (k0, v0) :: m)) with ((k0, v0) :: entries m).
  cbn [map_set]. rewrite <- IH. by case_decide.
Qed.

Lemma entries_clear m : entries (slot_clear m) = [].
Proof. by induction m. Qed.

Lemma entries_app m m' : entries (m ++ m') = entries m ++ entries m'.
Proof. unfold entries. by rewrite omap_app. Qed.

Lemma disjoint_cons k arr m : disjoint_pairs ((k, arr) :: m) <->
  NoDup arr /\ (forall c, c ∈ arr -> c ∉ concat m.*2) /\ 2 <= zlen arr /\ disjoint_pairs m.
Proof. unfold disjoint_pairs. rewrite fmap_cons. cbn [concat snd]. rewrite NoDup_app, Forall_cons. naive_solver. Qed.

Lemma map_set_concat (m : list (jsstring * list Z)) k arr c : c ∈ concat (map_set m k arr).*2 -> c ∈ concat m.*2 \/ c ∈ arr.
Proof.
  induction m as [|[k0 a0] m IH]; cbn [map_set]; [rewrite fmap_cons; cbn; rewrite app_nil_r; by right|].
  case_decide; rewrite !fmap_cons; cbn [concat snd]; rewrite !elem_of_app; naive_solver.
Qed.

Lemma disjoint_set m k arr : disjoint_pairs m -> NoDup arr -> 2 <= zlen arr -> (forall c, c ∈ arr -> c ∉ concat m.*2) -> disjoint_pairs (map_set m k arr).
Proof.
  intros Hm HN H2. induction m as [|[k0 a0] m IH]; intros Hd; cbn [map_set].
  - apply disjoint_cons. split; [done|]. split; [|done]. intros c _ []%elem_of_nil.
  - apply disjoint_cons in Hm as (HN0 & Hd0 & H20 & Hm). rewrite fmap_cons in Hd. cbn [concat snd] in Hd. setoid_rewrite elem_of_app in Hd.
    case_decide; apply disjoint_cons; (split; [done|]); (split; [|split; [done|]]); [naive_solver|done| |apply IH; naive_solver].
    intros c Hc [?|?]%map_set_concat; naive_solver.
Qed.

Lemma sublist_concat (m m' : list (jsstring * list Z)) c : m' `sublist_of` m -> c ∈ concat m'.*2 -> c ∈ concat m.*2.
Proof.
  intros Hs (arr & (kv & -> & Hkv)%list_elem_of_fmap & Hc)%elem_of_concat. apply elem_of_concat. exists kv.2. split; [|done].
  apply list_elem_of_fmap_2. by eapply elem_of_sublist.
Qed.

(** Groups taken from disjoint ones. *)
Lemma disjoint_sublist m m' : disjoint_pairs m -> m' `sublist_of` m -> disjoint_pairs m'.
Proof.
  intros Hm Hs. induction Hs as [|[k arr] m' m Hs IH|[k arr] m' m Hs IH]; [done| |]; apply disjoint_cons in Hm as (HN & Hd & H2 & Hm); [|by apply IH].
  apply disjoint_cons. split; [done|]. split; [|split; [done|by apply IH]]. intros c Hc Hin. by apply (Hd c Hc), (sublist_concat m m').
Qed.

Lemma entries_delete m k : entries (slot_delete m k) `sublist_of` entries m.
Proof. induction m as [|[[k0 v0]|] m IH]; cbn; [done| |done]. case_decide; cbn; by constructor. Qed.

Lemma initGroupFn_ok g arr : groups_ok g -> NoDup arr -> groups_ok (initGroupFn g arr).
Proof.
  intros [Hg Ha] HN. unfold initGroupFn. destruct (Z.ltb_spec 1 (zlen arr)); cbn [andb]; [|done].
  destruct (Z.ltb_spec 0 (zlen (filter (fun item => item ∈ concat (entries (bufferGroupMap g)).*2) arr))) as [_|Hf]; cbn [negb]; [done|].
  split; [|done]. cbn. rewrite entries_set. apply disjoint_set; [done|done|lia|]. intros c Hc Hin.
  assert (Hcf : c ∈ filter (fun item => item ∈ concat (entries (bufferGroupMap g)).*2) arr) by (by apply list_elem_of_filter).
  destruct (filter _ arr); [by apply elem_of_nil in Hcf|]. rewrite zlen_cons in Hf. pose proof (zlen_nonneg l). lia.
Qed.

Lemma core_json_pairs : disjoint_pairs core_json.
Proof. split; [by apply (bool_decide_unpack _)|]. repeat (constructor; [by vm_compute|]). constructor. Qed.

(** Whatever the user does, the groups stay disjoint. *)
Lemma group_step_ok g ev : groups_ok g -> groups_ok (group_step g ev).1.
Proof.
  intros Hg. pose proof Hg as [Hd Ha].
  assert (Hload : forall g, groups_ok g -> groups_ok (reload_cores g)) by (intros g' Hg'; unfold reload_cores; by destruct (isCreateCpu g')).
  assert (Hreset : forall b g, groups_ok g -> groups_ok (resetGroup b g)).
  { intros b g' [_ ?]. split; [|done]. cbn. rewrite entries_clear. split; constructor. }
  destruct ev; cbn [group_step].
  - unfold getGroupTableLine. cbn [set_add isCreateGroup isReset fst]. destruct (isCreateGroup g); [|split; [done|constructor]].
    destruct (_ && _); [|split; [done|constructor]].
    cbn [core_json fmap list_fmap snd foldl]. do 4 (apply initGroupFn_ok; [|by apply (bool_decide_unpack _)]). split; [done|constructor].
  - split; [done|by apply update_nodup].
  - destruct (initGroupFn_ok g (addGroupArr g) Hg Ha) as [? _]. split; [done|constructor].
  - destruct (last (groupContent g)) as [[key ?]|]; [|done]. split; [|constructor]. eapply disjoint_sublist; [exact Hd|apply entries_delete].
  - done.
  - apply Hload. by apply (Hreset false).
  - destruct (isCreateCpu g); [|done]. by destruct (Hload g Hg).
  - by split.
  - by apply Hreset.
  - apply Hreset, Hload. by split.
Qed.

End Groups.

(** ** A device with twelve processors *)

Example moved_pair_class :
  let s := changes [(0%nat, CoreM, true); (1%nat, CoreM, true)] (open_settings 12 (initDefaultConfig 12)) in
  (fun l => ln_boxes l) <$> (lines s !! 0%nat) = Some (Trio false true false) /\
  handleSamePhysicsCore [0; 1] (cpuObj (page_classes s)) = Some CoreS.
Proof. vm_compute. done. Qed.

Lemma twelve_nodup k : NoDup (tget k (initDefaultConfig 12)).
Proof. destruct k; by apply (bool_decide_unpack _). Qed.

Lemma moved_core_in_both_witness :
  0 ∈ class_of (change 0 CoreM true (open_settings 12 (initDefaultConfig 12))) CoreS /\
  0 ∈ class_of (change 0 CoreM true (open_settings 12 (initDefaultConfig 12))) CoreM.
Proof.
  destruct (moved_core_in_both 12 (initDefaultConfig 12) 0 CoreS CoreM twelve_nodup) as (_ & H1 & H2 & _); [lia|done|by left|].
  split; [exact H1|exact H2].
Defined.

Lemma settings_one_box_witness :
  tget CoreM <$> (ln_boxes <$> lines (changes [(3%nat, CoreM, true); (5%nat, CoreM, true); (3%nat, CoreM, false)] (open_settings 8 (initDefaultConfig 8))) !! 5%nat) =
  Some (bool_decide (5 ∈ class_of (changes [(3%nat, CoreM, true); (5%nat, CoreM, true); (3%nat, CoreM, false)] (open_settings 8 (initDefaultConfig 8))) CoreM)).
Proof.
  set (s := changes _ _). destruct (lines s !! 5%nat) as [l|] eqn:E; [|by vm_compute in E].
  destruct (settings_one_box 8 (initDefaultConfig 8) (fun _ => CoreM) [(3%nat, CoreM, true); (5%nat, CoreM, true); (3%nat, CoreM, false)]) with (i := 5%nat) (l := l) (k := CoreM) as [Hc Hb].
  - intros k. destruct k; constructor.
  - intros i k _ _ Hin. destruct k; by apply elem_of_nil in Hin.
  - repeat constructor.
  - exact E.
  - cbn [fmap option_fmap option_map]. rewrite Hb, Hc. reflexivity.
Defined.
