(* ===== verification/MtPage.v ===== *)
(** * Parallelism: the page of physical cores

    [TabPaneMtParallel.ts] as a whole: the settings of groups ([CoreSettings]), the
    selection, and the calls of [getMtParallelData] that are under way.  Such a call goes
    through the groups of a [Map] and waits for a query at every group that counts.  While
    it waits the user can go on: the call reads the selection, the arrays of classes and
    the groups that the page has when it resumes, and it fills two maps of the page that
    every call of [updateDataSource] empties.

    An event is a new selection, a listener of the settings, or the answer to the query
    that a call waits for.  The queries are a parameter; a call is a position in the slots
    of its map.  When a call ends, the numbers of the rows become texts.  A call that goes
    on after another one has ended would add numbers to these texts; the model keeps no
    maps then ([pg_maps]), and does not say what the table shows ([pg_table]) until the
    next update.  The step of an event is [None] when the page hangs in a sweep. *)

From Stdlib Require Import QArith.
From S2P Require Import Prelude JsRuntime HeapModel SwimFilter ParallelSweep ParallelTables CoreSettings.
Open Scope Z_scope.

Record selection := Selection {
  processIds : list Z;
  threadIds : list Z;
  leftStartNs : Z;
  rightEndNs : Z
}.

(** A call of [getMtParallelData]: whether its [obj] is [bufferGroupMap] itself or a map of
    the default groups; the next slot; which arrays its [cpuObj] holds; its [processIds];
    and, while it waits, the group it waits for with the rows on their way.  [ru_groups] is
    a record of the groups that it has asked for. *)
Record run := Run {
  ru_live : bool;
  ru_next : nat;
  ru_cores : nat;
  ru_processIds : list Z;
  ru_wait : option (core_type * jsstring * list Z * list running);
  ru_groups : list (jsstring * list Z)
}.

Record page := Page {
  pg_groups : groups;
  pg_sel : selection;
  pg_maps : option mt_maps;
  pg_runs : list run;
  pg_table : option (list shown_root)
}.

Inductive page_event :=
  | Select (s : selection)
  | User (ev : group_event)
  | Answer (i : nat).

(** [for (const [key, cpuGroup] of obj.entries())] up to the next group that counts. *)
Fixpoint seek (obj : list (core_type * list Z)) (l : slots) (pos : nat) : nat * option (core_type * jsstring * list Z) :=
  match l with
  | [] => (pos, None)
  | s :: l' =>
      match (s ≫= fun kv => (fun core => (core, kv.1, kv.2)) <$> handleSamePhysicsCore kv.2 obj) with
      | Some g => (S pos, Some g)
      | None => seek obj l' (S pos)
      end
  end.

Section Page.
Context `{Doubles}.
Variable winCpuCount : positive.
(** [queryCoreRunningThread] *)
Variable query : list Z -> list Z -> list Z -> Z -> Z -> list running.

Definition source (g : groups) (live : bool) : slots := if live then bufferGroupMap g else Some <$> core_json.

Definition classes_at (g : groups) (i : nat) : list (core_type * list Z) := cpuObj (trio_classes (arrays_at g i)).

(** The last passes of [getMtParallelData], and the callback that shows the rows.  An
    exception leaves the table as it is. *)
Definition finish (p : page) : page :=
  match pg_maps p with
  | None => Page (pg_groups p) (pg_sel p) None (pg_runs p) None
  | Some m => Page (pg_groups p) (pg_sel p) None (pg_runs p) (match mt_rows m with Ok rows => Some rows | Throw _ => pg_table p end)
  end.

Definition ask (p : page) (processIds gourp : list Z) : list running :=
  query processIds (threadIds (pg_sel p)) gourp (leftStartNs (pg_sel p)) (rightEndNs (pg_sel p)).

Definition set_run (i : nat) (r : run) (p : page) : page :=
  Page (pg_groups p) (pg_sel p) (pg_maps p) (<[i := r]> (pg_runs p)) (pg_table p).

(** The loop of [getMtParallelData] from the next slot to the next [await], or to the end. *)
Definition go_on (i : nat) (r : run) (p : page) : page :=
  match seek (classes_at (pg_groups p) (ru_cores r)) (drop (ru_next r) (source (pg_groups p) (ru_live r))) (ru_next r) with
  | (next, Some (core, key, gourp)) =>
      set_run i (Run (ru_live r) next (ru_cores r) (ru_processIds r)
        (Some (core, key, gourp, ask p (ru_processIds r) gourp)) (ru_groups r ++ [(key, gourp)])) p
  | (next, None) =>
      finish (set_run i (Run (ru_live r) next (ru_cores r) (ru_processIds r) None (ru_groups r)) p)
  end.

(** The query of the [i]-th call answers. *)
Definition resume (i : nat) (p : page) : option page :=
  match pg_runs p !! i with
  | None => Some p
  | Some r =>
      match ru_wait r with
      | None => Some p
      | Some (core, key, gourp, rows) =>
          (fun m => go_on i r (Page (pg_groups p) (pg_sel p) ((fun _ => m) <$> pg_maps p) (pg_runs p) (_ ← pg_maps p; pg_table p)))
          <$> handleTreeProcessData winCpuCount (leftStartNs (pg_sel p)) (rightEndNs (pg_sel p)) rows core key gourp (default no_maps (pg_maps p))
      end
  end.

(** The condition of [updateDataSource]. *)
Definition can_update (flag : bool) (g : groups) : bool :=
  let param := if flag then negb (zlen (entries (bufferGroupMap g)) =? 0) else Zpos winCpuCount =? 12 in
  let now := arrays_at g (cores g) in
  (negb (zlen (for_mid now) =? 0) || negb (zlen (for_large now) =? 0) || negb (zlen (for_small now) =? 0)) && param.

(** [updateDataSource]: the maps are emptied and a call starts, or the table is emptied. *)
Definition updateDataSource (flag : bool) (p : page) : page :=
  if can_update flag (pg_groups p) then
    let r := Run flag 0 (cores (pg_groups p)) (foldl add_tid [] (processIds (pg_sel p))) None [] in
    go_on (length (pg_runs p)) r (Page (pg_groups p) (pg_sel p) (Some no_maps) (pg_runs p ++ [r]) (pg_table p))
  else Page (pg_groups p) (pg_sel p) (pg_maps p) (pg_runs p) (Some []).

Definition set_groups (g : groups) (p : page) : page := Page g (pg_sel p) (pg_maps p) (pg_runs p) (pg_table p).

Definition page_step (p : page) (ev : page_event) : option page :=
  match ev with
  | Select s =>
      Some (updateDataSource false (Page (group_step (Zpos winCpuCount) (pg_groups p) ResetCores).1 s (pg_maps p) (pg_runs p) (Some [])))
  | User ev =>
      let '(g, update) := group_step (Zpos winCpuCount) (pg_groups p) ev in
      Some (match update with Some flag => updateDataSource flag (set_groups g p) | None => set_groups g p end)
  | Answer i => resume i p
  end.

Definition page_run (p : page) (evs : list page_event) : option page := foldl (fun o ev => o ≫= fun p => page_step p ev) (Some p) evs.

(** The page before its first selection. *)
Definition new_page : page := Page new_groups (Selection [] [] 0 0) (Some no_maps) [] (Some []).

(** ** The way through the slots *)

Definition counting (obj : list (core_type * list Z)) (s : option (jsstring * list Z)) : option (core_type * jsstring * list Z) :=
  s ≫= fun kv => (fun core => (core, kv.1, kv.2)) <$> handleSamePhysicsCore kv.2 obj.

(** The groups of a map that count. *)
Definition todo (obj : list (core_type * list Z)) (l : slots) : list (core_type * jsstring * list Z) := omap (counting obj) l.

Lemma seek_todo obj l : forall pos,
  match seek obj l pos with
  | (next, Some (core, key, gourp)) => exists l1 l2, l = l1 ++ Some (key, gourp) :: l2 /\ next = (pos + S (length l1))%nat /\
      todo obj l = (core, key, gourp) :: todo obj l2
  | (next, None) => next = (pos + length l)%nat /\ todo obj l = []
  end.
Proof.
  induction l as [|s l IH]; intros pos; cbn [seek todo omap list_omap length]; [by rewrite Nat.add_0_r|]. fold (counting obj s).
  destruct (counting obj s) as [[[core key] gourp]|] eqn:E.
  - unfold counting in E. destruct s as [[k v]|]; [|done]. cbn in E. apply fmap_Some in E as (c & _ & [= -> -> ->]).
    exists [], l. cbn. split; [done|]. split; [lia|done].
  - specialize (IH (S pos)). destruct (seek obj l (S pos)) as [next [[[core key] gourp]|]].
    + destruct IH as (l1 & l2 & -> & -> & E2). exists (s :: l1), l2. cbn. split; [done|]. split; [lia|]. exact E2.
    + destruct IH as [-> IH]. split; [lia|exact IH].
Qed.

(** ** The groups of a call *)

(** The groups that a call has asked for are entries that it has passed, in order. *)
Definition run_ok (p : page) (r : run) : Prop := ru_groups r `sublist_of` entries (take (ru_next r) (source (pg_groups p) (ru_live r))).

(** The slots of the settings stay as they are, up to new ones at the end. *)
Definition grows (p p' : page) : Prop := bufferGroupMap (pg_groups p) `prefix_of` bufferGroupMap (pg_groups p').

(** Nothing is taken out of the settings during these events. *)
Fixpoint keeps (p : page) (evs : list page_event) : Prop :=
  match evs with
  | [] => True
  | ev :: evs => match page_step p ev with Some p' => grows p p' /\ keeps p' evs | None => True end
  end.

Lemma take_prefix {A} n (l l' : list A) : l `prefix_of` l' -> take n l `prefix_of` take n l'.
Proof. intros [k ->]. rewrite take_app. by eexists. Qed.

Lemma entries_prefix m m' : m `prefix_of` m' -> entries m `sublist_of` entries m'.
Proof. intros [k ->]. rewrite entries_app. by apply sublist_inserts_r. Qed.

Lemma run_ok_grows p p' r : run_ok p r -> (ru_live r = true -> grows p p') -> run_ok p' r.
Proof.
  unfold run_ok, source. intros Hr Hg. destruct (ru_live r); [|done]. etransitivity; [exact Hr|]. apply entries_prefix, take_prefix. by apply Hg.
Qed.

Lemma go_on_groups i r p : pg_groups (go_on i r p) = pg_groups p.
Proof. unfold go_on, finish. destruct (seek _ _ _) as [next [[[core key] gourp]|]]; [done|]. by destruct (pg_maps _). Qed.

(** Going on touches one call, and keeps what it has asked for in order. *)
Lemma go_on_run i r p :
  exists r', pg_runs (go_on i r p) = <[i := r']> (pg_runs p) /\ ru_live r' = ru_live r /\ (run_ok p r -> run_ok p r').
Proof.
  unfold go_on. set (l := source (pg_groups p) (ru_live r)) in *.
  pose proof (seek_todo (classes_at (pg_groups p) (ru_cores r)) (drop (ru_next r) l) (ru_next r)) as Hs.
  destruct (seek _ _ _) as [next [[[core key] gourp]|]].
  - destruct Hs as (l1 & l2 & El & -> & _). eexists. split; [done|]. split; [done|]. unfold run_ok. cbn [ru_groups ru_next ru_live]. fold l. intros Hr.
    assert (Hn : (ru_next r + length (l1 ++ Some (key, gourp) :: l2) = length l)%nat).
    { rewrite <- El, length_drop. apply (f_equal length) in El. rewrite length_drop, length_app in El. cbn in El. lia. }
    rewrite length_app in Hn. cbn in Hn.
    assert (Et : take (ru_next r + S (length l1)) l = take (ru_next r) l ++ l1 ++ [Some (key, gourp)]).
    { rewrite <- (take_drop (ru_next r) l) at 1. rewrite take_app, length_take, (Nat.min_l _ (length l)) by lia.
      rewrite take_take, Nat.min_r by lia. f_equal. assert (El' : drop (ru_next r) l = (l1 ++ [Some (key, gourp)]) ++ l2) by (by rewrite El, <- app_assoc).
      rewrite El'. replace (_ + S _ - _)%nat with (length (l1 ++ [Some (key, gourp)])) by (rewrite length_app; cbn; lia). by rewrite take_app_length. }
    rewrite Et, !entries_app. apply sublist_app; [exact Hr|]. apply sublist_inserts_l. done.
  - destruct Hs as [-> _]. exists (Run (ru_live r) (ru_next r + length (drop (ru_next r) l)) (ru_cores r) (ru_processIds r) None (ru_groups r)).
    split; [unfold finish; cbn; by destruct (pg_maps p)|]. split; [done|]. unfold run_ok. cbn [ru_groups ru_next ru_live]. fold l. intros Hr.
    etransitivity; [exact Hr|]. apply entries_prefix. rewrite length_drop. destruct (decide (ru_next r <= length l)%nat).
    + replace (ru_next r + (length l - ru_next r))%nat with (length l) by lia. rewrite firstn_all. apply prefix_take.
    + replace (ru_next r + (length l - ru_next r))%nat with (ru_next r) by lia. done.
Qed.

(** The calls from the [n]-th on, those of the settings' own map only when [b]. *)
Definition runs_ok (b : bool) (n : nat) (p : page) : Prop :=
  forall j r, (n <= j)%nat -> pg_runs p !! j = Some r -> (ru_live r = true -> b = true) -> run_ok p r.

Lemma go_on_ok b n i r p : (forall j r, j <> i -> (n <= j)%nat -> pg_runs p !! j = Some r -> (ru_live r = true -> b = true) -> run_ok p r) ->
  ((n <= i)%nat -> (ru_live r = true -> b = true) -> run_ok p r) -> runs_ok b n (go_on i r p).
Proof.
  intros Hp Hr j rj Hj Ej Hb. destruct (go_on_run i r p) as (r' & E & Hl & Hok). unfold run_ok. rewrite go_on_groups.
  rewrite E in Ej. apply list_lookup_insert_Some in Ej as [(<- & <- & _) | [Hne Ej]].
  - apply Hok, Hr; [done|]. by rewrite <- Hl.
  - by apply (Hp j rj (not_eq_sym Hne) Hj Ej).
Qed.

Lemma update_ok b n flag p : runs_ok b n p -> runs_ok b n (updateDataSource flag p).
Proof.
  intros Hp. unfold updateDataSource. destruct (can_update _ _); [|done]. cbv zeta. apply go_on_ok.
  - intros j r Hj Hn Ej Hb. cbn [pg_runs] in Ej. apply lookup_snoc_Some in Ej as [[_ Ej] | [-> _]]; [|done]. by apply (Hp j r).
  - intros _ _. apply sublist_nil_l.
Qed.

Lemma runs_ok_groups b n g p : runs_ok b n p -> (b = true -> grows p (set_groups g p)) -> runs_ok b n (set_groups g p).
Proof. intros Hp Hg j r Hj Ej Hb. apply (run_ok_grows p); [by apply (Hp j r)|]. intros Hl. by apply Hg, Hb. Qed.

Lemma update_groups flag p : pg_groups (updateDataSource flag p) = pg_groups p.
Proof. unfold updateDataSource. destruct (can_update _ _); [|done]. cbv zeta. by rewrite go_on_groups. Qed.

Lemma page_step_ok b n p ev p' : page_step p ev = Some p' -> (b = true -> grows p p') -> runs_ok b n p -> runs_ok b n p'.
Proof.
  intros E Hg Hp. destruct ev as [s|ev|i]; cbn [page_step] in E.
  - injection E as <-. unfold grows in Hg. rewrite update_groups in Hg. apply update_ok.
    apply (runs_ok_groups b n (group_step (Zpos winCpuCount) (pg_groups p) ResetCores).1) in Hp; [exact Hp|exact Hg].
  - destruct (group_step (Zpos winCpuCount) (pg_groups p) ev) as [g [flag|]]; injection E as <-; unfold grows in Hg; rewrite ?update_groups in Hg;
      [apply update_ok|]; by apply runs_ok_groups.
  - unfold resume in E. destruct (pg_runs p !! i) as [r|] eqn:Ei; [|by simplify_eq]. destruct (ru_wait r) as [[[[core key] gourp] rows]|]; [|by simplify_eq].
    apply fmap_Some in E as (m & _ & ->). apply go_on_ok; [intros j rj _ Hj Ej Hb; by apply (Hp j rj)|]. intros Hn Hb. by apply (Hp i r).
Qed.

Lemma page_run_app p evs evs' : page_run p (evs ++ evs') = page_run p evs ≫= fun p' => page_run p' evs'.
Proof.
  unfold page_run. rewrite foldl_app. destruct (foldl _ (Some p) evs) as [p'|]; [done|]. apply fold_bind_None.
Qed.

Lemma page_run_ok b n evs : forall p p', page_run p evs = Some p' -> (b = true -> keeps p evs) -> runs_ok b n p -> runs_ok b n p'.
Proof.
  induction evs as [|ev evs IH]; intros p p' E Hk Hp; [by injection E as <-|]. cbn [page_run foldl mbind option_bind] in E.
  destruct (page_step p ev) as [p1|] eqn:E1; [|unfold page_run in E; by rewrite fold_bind_None in E]. cbn [keeps] in Hk. rewrite E1 in Hk.
  apply (IH p1 p' E); [intros Hb; by apply Hk|]. eapply page_step_ok; [exact E1| |exact Hp]. intros Hb. by apply Hk.
Qed.

(** The settings of the page are disjoint groups, whatever happens. *)
Lemma page_step_settings p ev p' : page_step p ev = Some p' -> groups_ok (pg_groups p) -> groups_ok (pg_groups p').
Proof.
  intros E Hp. destruct ev as [s|ev|i]; cbn [page_step] in E.
  - injection E as <-. rewrite update_groups. by apply (group_step_ok (Zpos winCpuCount) _ ResetCores).
  - pose proof (group_step_ok (Zpos winCpuCount) _ ev Hp) as Hg. destruct (group_step (Zpos winCpuCount) (pg_groups p) ev) as [g [flag|]]; injection E as <-;
      rewrite ?update_groups; done.
  - unfold resume in E. destruct (pg_runs p !! i) as [r|]; [|by simplify_eq]. destruct (ru_wait r) as [[[[core key] gourp] rows]|]; [|by simplify_eq].
    apply fmap_Some in E as (m & _ & ->). by rewrite go_on_groups.
Qed.

Lemma page_run_settings evs : forall p p', page_run p evs = Some p' -> groups_ok (pg_groups p) -> groups_ok (pg_groups p').
Proof.
  induction evs as [|ev evs IH]; intros p p' E Hp; [by injection E as <-|]. cbn [page_run foldl mbind option_bind] in E.
  destruct (page_step p ev) as [p1|] eqn:E1; [|unfold page_run in E; by rewrite fold_bind_None in E].
  apply (IH p1 p' E). by eapply page_step_settings.
Qed.

(** C36: The groups of processors stay disjoint.  Whatever the user does with the page, in
    whatever order and however the answers of queries come in between, the settings are
    groups of at least two different processors each, and no processor is in two of them.
    The same holds of the groups that a call asks for, from its start on, one after the
    other while the user goes on: always when the call is for the default groups, and when
    it is for the settings themselves, which it reads as they change, as long as no group
    is taken out or replaced in the meantime (groups may be added). *)
Theorem group_settings_disjoint evs0 p evs p' i r :
  page_run new_page evs0 = Some p -> page_run p evs = Some p' ->
  (length (pg_runs p) <= i)%nat -> pg_runs p' !! i = Some r -> (ru_live r = true -> keeps p evs) ->
  disjoint_pairs (entries (bufferGroupMap (pg_groups p'))) /\ disjoint_pairs (ru_groups r).
Proof.
  intros E0 E Hi Er Hk. assert (Hd : groups_ok (pg_groups p')).
  { eapply page_run_settings; [exact E|]. eapply page_run_settings; [exact E0|]. split; [split; constructor|constructor]. }
  destruct Hd as [Hd _]. split; [done|].
  assert (Hr : run_ok p' r).
  { apply (page_run_ok (ru_live r) (length (pg_runs p)) evs p p' E Hk) with (j := i); [|done..].
    intros j rj Hj Ej. apply lookup_lt_Some in Ej. lia. }
  eapply disjoint_sublist; [|exact Hr].
  assert (Hs : disjoint_pairs (entries (source (pg_groups p') (ru_live r)))).
  { unfold source. destruct (ru_live r); [done|]. exact core_json_pairs. }
  eapply disjoint_sublist; [exact Hs|]. apply entries_prefix, prefix_take.
Qed.

(** ** A call that is alone *)

(** The groups that count of the map that an update hands over, with the answers of their
    queries. *)
Definition update_groups_of (flag : bool) (p : page) : list (core_type * jsstring * list Z * list running) :=
  (fun g => (g, ask p (foldl add_tid [] (processIds (pg_sel p))) g.2)) <$>
    todo (classes_at (pg_groups p) (cores (pg_groups p))) (source (pg_groups p) flag).

(** Events that leave the selection, the maps and what the call reads as they are: answers,
    the check boxes of the group that is put together, opening the list of classes; and all
    edits of the groups when the call is for the default ones. *)
Definition quiet (flag : bool) (ev : page_event) : bool :=
  match ev with
  | Answer _ => true
  | User (ToggleCore _ _) | User OpenCores => true
  | User OpenGroups | User AddGroup | User CutGroup => negb flag
  | _ => false
  end.

Definition is_answer (i : nat) (ev : page_event) : bool := match ev with Answer j => (j =? i)%nat | _ => false end.

Definition answers (i : nat) (evs : list page_event) : nat := length (filter (fun ev => is_answer i ev) evs).

Lemma initGroupFn_arrays g arr : arrays (initGroupFn g arr) = arrays g.
Proof. unfold initGroupFn. by destruct (_ && _). Qed.

Lemma default_groups_arrays l : forall g, arrays (foldl initGroupFn g l) = arrays g.
Proof. induction l as [|arr l IH]; intros g; [done|]. cbn [foldl]. by rewrite IH, initGroupFn_arrays. Qed.

Lemma quiet_step flag g ev : quiet flag (User ev) = true ->
  (group_step (Zpos winCpuCount) g ev).2 = None /\ arrays g `prefix_of` arrays (group_step (Zpos winCpuCount) g ev).1 /\
  source (group_step (Zpos winCpuCount) g ev).1 flag = source g flag.
Proof.
  unfold source. intros Hq. destruct ev; try done; cbn [quiet] in Hq; try apply negb_true_iff in Hq as ->; cbn [group_step].
  - split_and!; [|exists []; rewrite app_nil_r|done]; destruct (isCreateGroup _); [|done| |done]; destruct (_ && _); try done.
    cbn [fst]. by rewrite default_groups_arrays.
  - split_and!; [done|exists []; cbn [fst set_add arrays]; by rewrite initGroupFn_arrays, app_nil_r|done].
  - destruct (last _) as [[key ?]|]; split_and!; try done; exists []; by rewrite app_nil_r.
  - split_and!; [done| |by destruct flag, (isCreateCpu g) eqn:E; cbn; unfold reload_cores; rewrite ?E].
    destruct (isCreateCpu g) eqn:E; [|done]. cbn. unfold reload_cores. rewrite E. cbn. by eexists.
Qed.

Section Alone.
Variables (flag : bool) (p : page).
Let i := length (pg_runs p).
Let pids := foldl add_tid [] (processIds (pg_sel p)).
Let obj := classes_at (pg_groups p) (cores (pg_groups p)).
Let answered (g : core_type * jsstring * list Z) := (g, ask p pids g.2).

(** What the call reads is as it was at its start, and no other call waits. *)
Record alone (q : page) : Prop := {
  al_sel : pg_sel q = pg_sel p;
  al_len : (cores (pg_groups p) < length (arrays (pg_groups q)))%nat;
  al_obj : classes_at (pg_groups q) (cores (pg_groups p)) = obj;
  al_source : source (pg_groups q) flag = source (pg_groups p) flag;
  al_other : forall j r, j <> i -> pg_runs q !! j = Some r -> ru_wait r = None
}.

(** The call waits, with maps [m] and groups [gs] to go. *)
Definition waiting (m : mt_maps) (gs : list (core_type * jsstring * list Z * list running)) (q : page) : Prop :=
  alone q /\ pg_maps q = Some m /\
  exists r g, pg_runs q !! i = Some r /\ ru_live r = flag /\ ru_cores r = cores (pg_groups p) /\ ru_processIds r = pids /\
    ru_wait r = Some g /\ gs = g :: (answered <$> todo obj (drop (ru_next r) (source (pg_groups p) flag))).

(** The call has ended, with maps [m]. *)
Definition over (m : mt_maps) (q : page) : Prop :=
  (forall rows, mt_rows m = Ok rows -> pg_table q = Some rows) /\ forall j r, pg_runs q !! j = Some r -> ru_wait r = None.

Definition reached (m : mt_maps) (gs : list (core_type * jsstring * list Z * list running)) (q : page) : Prop :=
  match gs with [] => over m q | _ => waiting m gs q end.

Lemma go_on_reached m r q : alone q -> pg_maps q = Some m -> (i < length (pg_runs q))%nat ->
  ru_live r = flag -> ru_cores r = cores (pg_groups p) -> ru_processIds r = pids ->
  reached m (answered <$> todo obj (drop (ru_next r) (source (pg_groups p) flag))) (go_on i r q).
Proof.
  intros Ha Hm Hi Hf Hc Hp. pose proof Ha as [Hs Hl Ho Hsrc Hoth]. unfold go_on. rewrite Hc, Ho, Hf, Hsrc.
  pose proof (seek_todo obj (drop (ru_next r) (source (pg_groups p) flag)) (ru_next r)) as Hseek.
  destruct (seek _ _ _) as [next [[[core key] gourp]|]].
  - destruct Hseek as (l1 & l2 & El & -> & ->). cbn [fmap list_fmap reached]. split; [|split; [exact Hm|]].
    + split; [exact Hs|exact Hl|exact Ho|exact Hsrc|]. cbn. intros j rj Hj Ej. rewrite list_lookup_insert_ne in Ej by done. by eapply Hoth.
    + do 2 eexists. split; [by apply list_lookup_insert_eq|]. cbn [ru_live ru_cores ru_processIds ru_wait ru_next].
      split_and!; [done..|]. unfold answered at 2. cbn [snd]. unfold ask. rewrite Hs, Hp. do 2 f_equal. f_equal.
      rewrite <- drop_drop, El. replace (S (length l1)) with (length (l1 ++ [Some (key, gourp)])) by (rewrite length_app; cbn; lia).
      assert (E2 : l1 ++ Some (key, gourp) :: l2 = (l1 ++ [Some (key, gourp)]) ++ l2) by (by rewrite <- app_assoc). by rewrite E2, drop_app_length.
  - destruct Hseek as [-> ->]. cbn [fmap list_fmap reached]. unfold finish. cbn [set_run pg_maps pg_runs pg_groups pg_sel pg_table]. rewrite Hm. split.
    + cbn. by intros rows ->.
    + cbn. intros j rj Ej. apply list_lookup_insert_Some in Ej as [(<- & <- & _) | [Hne Ej]]; [done|]. by apply (Hoth j rj).
Qed.

Lemma quiet_alone ev q : quiet flag (User ev) = true -> alone q ->
  exists g, page_step q (User ev) = Some (set_groups g q) /\ alone (set_groups g q).
Proof.
  intros Hq [Hs Hl Ho Hsrc Hoth]. cbn [page_step]. destruct (quiet_step flag (pg_groups q) ev Hq) as (Hu & [l Ha] & Hsrc').
  destruct (group_step (Zpos winCpuCount) (pg_groups q) ev) as [g u]. cbn in *. subst u. exists g. split; [done|].
  split; cbn; try done.
  - rewrite Ha, length_app. lia.
  - rewrite <- Ho. unfold classes_at, arrays_at. rewrite Ha, lookup_app_l by done. done.
  - by rewrite Hsrc'.
Qed.

Lemma quiet_reached ev m gs q : quiet flag (User ev) = true -> reached m gs q -> exists q', page_step q (User ev) = Some q' /\ reached m gs q'.
Proof.
  intros Hq Hr. destruct gs as [|g gs].
  - destruct Hr as [H1 H2]. cbn [page_step]. destruct (quiet_step flag (pg_groups q) ev Hq) as (Hu & _ & _).
    destruct (group_step _ (pg_groups q) ev) as [g u]. cbn in Hu. subst u. by exists (set_groups g q).
  - destruct Hr as (Ha & Hm & r & g' & Hr). destruct (quiet_alone ev q Hq Ha) as (gr & E & Ha'). exists (set_groups gr q).
    split; [exact E|]. split; [exact Ha'|]. split; [exact Hm|]. by exists r, g'.
Qed.

Lemma idle_answer j q : (forall r, pg_runs q !! j = Some r -> ru_wait r = None) -> page_step q (Answer j) = Some q.
Proof. intros Hj. cbn. unfold resume. destruct (pg_runs q !! j) as [r|]; [|done]. by rewrite (Hj r eq_refl). Qed.

Lemma answer_reached m g gs q : waiting m (g :: gs) q ->
  page_step q (Answer i) = None /\ handleTreeProcessData winCpuCount (leftStartNs (pg_sel p)) (rightEndNs (pg_sel p)) g.2 g.1.1.1 g.1.1.2 g.1.2 m = None \/
  exists m' q', page_step q (Answer i) = Some q' /\ reached m' gs q' /\
    handleTreeProcessData winCpuCount (leftStartNs (pg_sel p)) (rightEndNs (pg_sel p)) g.2 g.1.1.1 g.1.1.2 g.1.2 m = Some m'.
Proof.
  intros (Ha & Hm & r & g' & Er & Hl & Hc & Hp & Hw & [= <- ->]). cbn [page_step]. unfold resume. rewrite Er, Hw.
  destruct g as [[[core key] gourp] rows]. cbn [fst snd]. rewrite Hm. cbn [default]. unfold id. destruct Ha as [Hs Hal]. rewrite Hs.
  destruct (handleTreeProcessData _ _ _ _ _ _ _ m) as [m'|]; [|by left]. right. exists m'. eexists. split; [done|]. split; [|done].
  apply go_on_reached; try done. cbn. by eapply lookup_lt_Some.
Qed.

(** The rest of the way: the call gets through its groups with as many answers. *)
Lemma run_reached evs : Forall (fun ev => quiet flag ev = true) evs -> forall m gs q, reached m gs q -> (length gs <= answers i evs)%nat ->
  match mt_groups_from winCpuCount (leftStartNs (pg_sel p)) (rightEndNs (pg_sel p)) gs m with
  | None => page_run q evs = None
  | Some m' => exists q', page_run q evs = Some q' /\ over m' q'
  end.
Proof.
  induction 1 as [|ev evs Hq _ IH]; intros m gs q Hr Hn.
  - destruct gs as [|g gs]; [|cbn in Hn; lia]. by exists q.
  - unfold page_run. cbn [foldl mbind option_bind]. destruct ev as [?|ev|j]; [done| |].
    + destruct (quiet_reached ev m gs q Hq Hr) as (q1 & -> & Hr1). by apply (IH m gs q1).
    + unfold answers in Hn. rewrite filter_cons in Hn. cbn [is_answer] in Hn. destruct (decide (j = i)) as [-> | Hne].
      * rewrite decide_True in Hn by (by rewrite Nat.eqb_refl). destruct gs as [|g gs].
        { rewrite idle_answer by apply Hr. apply (IH m [] q Hr). cbn. lia. }
        destruct (answer_reached m g gs q Hr) as [[E1 E2] | (m1 & q1 & E1 & Hr1 & E2)]; rewrite E1; unfold mt_groups_from; cbn [foldl mbind option_bind]; rewrite E2.
        { rewrite !fold_bind_None. done. }
        apply (IH m1 gs q1 Hr1). cbn in Hn. unfold answers. lia.
      * rewrite decide_False in Hn by (rewrite (proj2 (Nat.eqb_neq j i)); [by intros []|done]).
        rewrite idle_answer; [by apply (IH m gs q Hr)|]. destruct gs as [|g gs]; [intros r; apply Hr|]. destruct Hr as [Ha _].
        intros r. by apply (al_other q Ha j r).
Qed.
End Alone.

Lemma can_update_len flag g : can_update flag g = true -> (cores g < length (arrays g))%nat.
Proof.
  unfold can_update, arrays_at. intros Hc. apply andb_prop in Hc as [Hc _]. destruct (arrays g !! cores g) as [t|] eqn:E; [by eapply lookup_lt_Some|].
  cbn in Hc. done.
Qed.

Lemma update_reached flag p : can_update flag (pg_groups p) = true -> Forall (fun r => ru_wait r = None) (pg_runs p) ->
  reached flag p no_maps (update_groups_of flag p) (updateDataSource flag p).
Proof.
  intros Hc Hidle. unfold updateDataSource. rewrite Hc. cbv zeta. set (r := Run flag 0 _ _ None []).
  apply (go_on_reached flag p no_maps r); cbn [pg_maps pg_runs]; try done; [|rewrite length_app; cbn; lia].
  split; cbn; try done.
  - by eapply can_update_len.
  - intros j rj Hj Ej. apply lookup_snoc_Some in Ej as [[_ Ej] | [-> _]]; [|done]. rewrite Forall_forall in Hidle.
    apply Hidle. by eapply list_elem_of_lookup_2.
Qed.

(** C34: The table of parallelism on physical cores.  An update starts when no other one is
    under way, and until its queries have answered the user neither starts another one nor
    changes what it reads: the selection, the arrays of classes, and the groups when it is
    for those of the settings; other events may come in between, and any answers.  The
    answers are what the queries ask for.  When every row of them has an end, no exception
    is thrown and the page then shows a table with one row for each process with slices in
    a group that counts (a pair of processors of one class).  The row shows the processor
    time of the process in those groups, and the time for which, in a group, both
    processors were busy with it (two of its slices ran); it has one child for each class
    with such a group, with the same two times over the groups of the class.  When a row
    has no end, the page hangs. *)
Theorem mt_parallel_table flag p evs (lo := leftStartNs (pg_sel p)) (hi := rightEndNs (pg_sel p)) (gs := update_groups_of flag p)
    (Hstart : can_update flag (pg_groups p) = true) (Hidle : Forall (fun r => ru_wait r = None) (pg_runs p))
    (Hquiet : Forall (fun ev => quiet flag ev = true) evs) (Hanswers : (length gs <= answers (length (pg_runs p)) evs)%nat)
    (HA : Forall (fun g => selected lo hi (group_rows g)) gs) :
  if decide (Forall (fun g => all_ended (group_rows g)) gs) then
    exists p' table, page_run (updateDataSource flag p) evs = Some p' /\ pg_table p' = Some table /\
      NoDup ((fun r => mr_pid (sr_root r)) <$> table) /\
      (forall pid, pid ∈ (fun r => mr_pid (sr_root r)) <$> table <-> exists g, g ∈ gs /\ of_process pid (group_rows g) <> []) /\
      forall r, r ∈ table -> root_ok lo hi gs (mr_pid (sr_root r)) r
  else page_run (updateDataSource flag p) evs = None.
Proof.
  pose proof (run_reached flag p evs Hquiet no_maps gs _ (update_reached flag p Hstart Hidle) Hanswers) as Hrun. fold lo hi in Hrun. case_decide as HE.
  - assert (HA' : Forall (fun g => answer lo hi (group_rows g)) gs).
    { rewrite Forall_forall in HA, HE |- *. intros g Hg. apply selected_answer; auto. }
    destruct (mt_table_ok winCpuCount lo hi gs HA') as (m & table & E & Er & Hok). rewrite E in Hrun. destruct Hrun as (p' & Ep & Ht & _).
    exists p', table. split; [done|]. split; [by apply Ht|]. exact Hok.
  - destruct (mt_groups_from winCpuCount lo hi gs no_maps) as [m|] eqn:E; [|done]. destruct HE. clearbody gs. destruct gs as [|g gs']; [constructor|].
    apply Forall_cons in HA as [(Hw & _) _]. eapply groups_need_ends; [|exact E]. lia.
Qed.
End Page.

(** ** A device with twelve processors *)

Definition any_time : selection := Selection [7; 7] [1; 2; 3] 0 100.
Definition ended_query (pids tids cpus : list Z) (lo hi : Z) : list running := two_slices.
Definition open_query (pids tids cpus : list Z) (lo hi : Z) : list running := open_slices.

(** The page after a selection whose four queries have answered, with the groups opened and
    all but the first taken out. *)
Definition settled_events : list page_event :=
  [Select any_time; Answer 0; Answer 0; Answer 0; Answer 0; User OpenGroups; User CutGroup; User CutGroup; User CutGroup].

Definition settled_page (query : list Z -> list Z -> list Z -> Z -> Z -> list running) : page :=
  default new_page (@page_run exact_doubles 12 query new_page settled_events).

(** The first selection, before its update starts. *)
Definition first_page : page :=
  Page (group_step 12 new_groups ResetCores).1 any_time (Some no_maps) [] (Some []).

Lemma settled_groups :
  update_groups_of ended_query true (settled_page ended_query) = [(CoreM, js "group1", [4; 5], two_slices)].
Proof. vm_compute. reflexivity. Qed.

Lemma settled_selection : pg_sel (settled_page ended_query) = any_time.
Proof. vm_compute. reflexivity. Qed.

Lemma mt_parallel_table_witness :
  (exists p' table,
     @page_run exact_doubles 12 ended_query (@updateDataSource exact_doubles 12 ended_query true (settled_page ended_query))
       [User (ToggleCore 6 true); Answer 0; User OpenCores; Answer 1] = Some p' /\
     pg_table p' = Some table /\ NoDup ((fun r => mr_pid (sr_root r)) <$> table)) /\
  @page_run exact_doubles 12 open_query (@updateDataSource exact_doubles 12 open_query false first_page)
    [Answer 0; User OpenGroups; Answer 0; User CutGroup; Answer 0; Answer 0] = None.
Proof.
  split.
  - pose proof (@mt_parallel_table exact_doubles 12 ended_query true (settled_page ended_query)
      [User (ToggleCore 6 true); Answer 0; User OpenCores; Answer 1]) as T. cbv zeta in T. rewrite decide_True in T.
    + destruct T as (p' & table & E & Et & HN & _).
      * vm_compute. reflexivity.
      * apply (bool_decide_unpack _). vm_compute. exact I.
      * repeat constructor.
      * vm_compute. lia.
      * rewrite settled_groups, settled_selection. constructor; [exact two_slices_selected|constructor].
      * exists p', table. split; [exact E|]. split; [exact Et|exact HN].
    + apply (bool_decide_unpack _). vm_compute. exact I.
  - pose proof (@mt_parallel_table exact_doubles 12 open_query false first_page
      [Answer 0; User OpenGroups; Answer 0; User CutGroup; Answer 0; Answer 0]) as T. cbv zeta in T. rewrite decide_False in T.
    + apply T.
      * vm_compute. reflexivity.
      * constructor.
      * repeat constructor.
      * vm_compute. lia.
      * repeat (constructor; [exact open_slices_selected|]). constructor.
    + apply (bool_decide_unpack _). vm_compute. exact I.
Defined.

(** A group is added to the settings while the call for them waits: it is asked for too. *)
Definition adding_events : list page_event :=
  [User ConfirmGroups; User (ToggleCore 6 true); User (ToggleCore 7 true); User AddGroup; Answer 1; Answer 1].

Lemma group_settings_disjoint_witness : exists p r,
  @page_run exact_doubles 12 ended_query (settled_page ended_query) adding_events = Some p /\ pg_runs p !! 1%nat = Some r /\
  ru_groups r = [(js "group1", [4; 5]); (js "group2", [6; 7])] /\ disjoint_pairs (ru_groups r).
Proof.
  destruct (@page_run exact_doubles 12 ended_query (settled_page ended_query) adding_events) as [p|] eqn:E; [|by vm_compute in E].
  destruct (pg_runs p !! 1%nat) as [r|] eqn:Er; [|vm_compute in E; injection E as <-; by vm_compute in Er].
  exists p, r. split; [reflexivity|]. split; [exact Er|]. split.
  - vm_compute in E. injection E as <-. vm_compute in Er. injection Er as <-. reflexivity.
  - apply (@group_settings_disjoint exact_doubles 12 ended_query settled_events (settled_page ended_query) adding_events p 1 r).
    + vm_compute. reflexivity.
    + exact E.
    + vm_compute. lia.
    + exact Er.
    + intros _. cbn [keeps adding_events]. vm_compute. repeat split; first [exists []; reflexivity|eexists; reflexivity].
Defined.

(** A group that is taken out while the call for the settings waits is not forgotten: a
    group with one of its processors can be added, and the call asks for it as well. *)
Lemma cut_while_waiting : exists p r,
  @page_run exact_doubles 12 ended_query (settled_page ended_query)
    [User ConfirmGroups; User CutGroup; User (ToggleCore 5 true); User (ToggleCore 6 true); User AddGroup; Answer 1; Answer 1] = Some p /\
  pg_runs p !! 1%nat = Some r /\ ru_groups r = [(js "group1", [4; 5]); (js "group1", [5; 6])] /\ ~ disjoint_pairs (ru_groups r).
Proof.
  eexists. eexists. split; [vm_compute; reflexivity|]. split; [reflexivity|]. split; [reflexivity|].
  intros [HN _]. apply (bool_decide_pack _) in HN. by vm_compute in HN.
Qed.
