(* ===== verification/BusyTime.v ===== *)
(** * Busy time at the frequencies of a processor

    [StateBusyTimeWorker.ts]: a worker gets the samples of the frequency and of the idle
    state of the processors, and adds to the row of each frequency the time for which the
    processor ran with it and was not idle (state 0) within the selection.  [getBusyTime]
    cuts the samples of a processor to the selection and [handleBusyTimeLogic] walks over
    both lists at once.  The keys [filterId + '-' + value] are pairs; of a row only
    [busyTime] is modelled, in nanoseconds: the last line of the worker shows it in
    milliseconds. *)

From S2P Require Import Prelude HeapModel Grouping ParallelSweep.
Open Scope Z_scope.

(** A row of [result] and of [res]. *)
Record freq_sample := FreqSample { fs_cpu : Z; fs_ts : Z; fs_filterId : Z; fs_value : Z }.
Record state_sample := StateSample { ss_cpu : Z; ss_ts : Z; ss_value : Z }.

Definition sample_map := list ((Z * Z) * Z).

(** [if (sampleMap.has(key)) { obj.busyTime += busyTime; }] *)
Definition add_busy (sampleMap : sample_map) (key : Z * Z) (busyTime : Z) : sample_map :=
  match map_get sampleMap key with Some b => map_set sampleMap key (b + busyTime) | None => sampleMap end.

Definition freq_key (f : freq_sample) : Z * Z := (fs_filterId f, fs_value f).

(** [handleBusyTimeLogic]: the lists from [freqIndex] and [stateIndex] on, with the
    frequency and the state at [beginNs]. *)
Fixpoint busy_loop (fuel : nat) (beginNs : Z) (freq : Z * Z) (stateVal : Z) (fs : list freq_sample) (ss : list state_sample) (sampleMap : sample_map) : option sample_map :=
  match fuel with
  | O => None
  | S fuel =>
      match fs, ss with
      | f :: fs', s :: ss' =>
          let add newBeginNs := if stateVal =? 0 then add_busy sampleMap freq (newBeginNs - beginNs) else sampleMap in
          if fs_ts f <? ss_ts s then busy_loop fuel (fs_ts f) (freq_key f) stateVal fs' ss (add (fs_ts f))
          else if ss_ts s <? fs_ts f then busy_loop fuel (ss_ts s) freq (ss_value s) fs ss' (add (ss_ts s))
          else busy_loop fuel (ss_ts s) (freq_key f) (ss_value s) fs' ss' (add (ss_ts s))
      | _, _ => Some sampleMap
      end
  end.

Definition busy_fuel (fs : list freq_sample) (ss : list state_sample) : nat := S (length fs + length ss).

Definition handleBusyTimeLogic (fs : list freq_sample) (ss : list state_sample) (sampleMap : sample_map) (startNS : Z) : option sample_map :=
  match fs, ss with
  | f :: fs', s :: ss' => busy_loop (busy_fuel fs' ss') startNS (freq_key f) (ss_value s) fs' ss' sampleMap
  | _, _ => Some sampleMap
  end.

(** [findIndex((a) => a.ts >= ns)], and the array from the element before it on, or from
    the last element on when there is none. *)
Definition first_from {A} (ts : A -> Z) (ns : Z) (l : list A) : option nat := fst <$> list_find (fun a => ns <= ts a) l.

Definition cut_front {A} (include : option nat) (l : list A) : list A :=
  match include with Some O => l | Some (S i) => drop i l | None => drop (length l - 1) l end.

(** [if (last.ts !== rightEndNs) { push({ts: rightEndNs, ...}) }] *)
Definition close_end {A} (ts : A -> Z) (mk : A -> A) (rightEndNs : Z) (l : list A) : list A :=
  match last l with Some x => if ts x =? rightEndNs then l else l ++ [mk x] | None => l end.

Definition close_freq (rightEndNs : Z) : list freq_sample -> list freq_sample :=
  close_end fs_ts (fun f => FreqSample (fs_cpu f) rightEndNs (fs_filterId f) (fs_value f)) rightEndNs.

Definition close_state (rightEndNs : Z) : list state_sample -> list state_sample :=
  close_end ss_ts (fun s => StateSample (ss_cpu s) rightEndNs (ss_value s)) rightEndNs.

(** [initStateResult[0].ts = startNS] under its condition. *)
Definition move_first (startNS : Z) (include : option nat) (ss : list state_sample) : list state_sample :=
  match ss, include with
  | s :: ss', Some (S _) => if ss_ts s <? startNS then StateSample (ss_cpu s) startNS (ss_value s) :: ss' else ss
  | _, _ => ss
  end.

(** [getBusyTime] *)
Definition start_ns (fs : list freq_sample) (leftStartNs : Z) : Z :=
  match first_from fs_ts leftStartNs fs, fs with Some O, f :: _ => fs_ts f | _, _ => leftStartNs end.

Definition getBusyTime (fs : list freq_sample) (ss : list state_sample) (sampleMap : sample_map) (leftStartNs rightEndNs : Z) : option sample_map :=
  match fs, ss with
  | [], _ => Some sampleMap
  | _, [] => Some sampleMap
  | _, _ =>
      let startNS := start_ns fs leftStartNs in
      let fs1 := cut_front (first_from fs_ts leftStartNs fs) fs in
      let includeStateData := first_from ss_ts startNS ss in
      let ss1 := move_first startNS includeStateData (cut_front includeStateData ss) in
      handleBusyTimeLogic (close_freq rightEndNs fs1) (close_state rightEndNs ss1) sampleMap startNS
  end.

(** The handler of the message: the processors in turn, over one map. *)
Definition busy_worker (cpuFiliterOrder : list Z) (result : list freq_sample) (res : list state_sample) (sampleMap : sample_map) (leftStartNs rightEndNs : Z) : option sample_map :=
  foldl (fun om a => om ≫= fun m => getBusyTime (filter (fun f => fs_cpu f = a) result) (filter (fun s => ss_cpu s = a) res) m leftStartNs rightEndNs)
    (Some sampleMap) cpuFiliterOrder.

(** ** What holds at an instant *)

(** What holds at an instant: the value of the last sample that is not later, or the
    given one before the first. *)
Definition last_from {A B} (ts : A -> Z) (val : A -> B) (base : B) (l : list A) (t : Z) : B :=
  foldl (fun b a => if ts a <=? t then val a else b) base l.

Notation freq_from := (last_from fs_ts freq_key).
Notation state_from := (last_from ss_ts ss_value).

Definition busy_from (key base : Z * Z) (stateVal : Z) (fs : list freq_sample) (ss : list state_sample) (from to : Z) : Z :=
  zsum ((fun t => if bool_decide (freq_from base fs t = key) && (state_from stateVal ss t =? 0) then 1 else 0) <$> seqZ from (to - from)).

(** The times of a list from a moment on: in order, up to the end of the selection. *)
Definition runs_to (begin right : Z) (ts : list Z) : Prop :=
  StronglySorted Z.le (begin :: ts) /\ last (begin :: ts) = Some right.

Lemma last_before {A B} (ts : A -> Z) (val : A -> B) base l t : Forall (fun a => t < ts a) l -> last_from ts val base l t = base.
Proof.
  unfold last_from. intros H. revert base. induction H as [|a l Ha _ IH]; intros base; [done|]. cbn [foldl].
  rewrite (proj2 (Z.leb_gt _ _) Ha). apply IH.
Qed.

Lemma last_passed {A B} (ts : A -> Z) (val : A -> B) base x l t : ts x <= t -> last_from ts val base (x :: l) t = last_from ts val (val x) l t.
Proof. intros Ht. unfold last_from. cbn [foldl]. by rewrite (proj2 (Z.leb_le _ _) Ht). Qed.

Lemma runs_to_le begin right x ts : runs_to begin right (x :: ts) -> begin <= x /\ runs_to x right ts /\ Forall (fun y => x <= y) ts.
Proof.
  intros [[HS HF]%StronglySorted_inv HL]. apply Forall_cons in HF as [Hx _]. apply StronglySorted_inv in HS as HS'. destruct HS' as [_ HF'].
  split; [done|]. split; [split; [done|]; by rewrite last_cons_cons in HL|done].
Qed.

Lemma runs_to_later begin begin' right x ts : runs_to begin right (x :: ts) -> begin' <= x -> runs_to begin' right (x :: ts).
Proof.
  intros [[HS HF]%StronglySorted_inv HL] Hb. split; [|by rewrite last_cons_cons in HL |- *]. constructor; [done|].
  apply StronglySorted_inv in HS as [_ HF']. apply Forall_cons. split; [done|]. eapply Forall_impl; [exact HF'|]. cbn. lia.
Qed.

Lemma runs_to_end begin right ts : runs_to begin right ts -> begin <= right.
Proof.
  intros [[_ HF]%StronglySorted_inv HL]. destruct ts as [|x ts]; [injection HL as ->; lia|]. rewrite last_cons_cons in HL.
  apply last_Some_elem_of in HL. rewrite Forall_forall in HF. by apply HF.
Qed.

(** A stretch up to the next sample, and the rest. *)
Lemma busy_split key freq freq' st st' fs fs' ss ss' begin b right :
  begin <= b <= right -> Forall (fun f => b <= fs_ts f) fs -> Forall (fun s => b <= ss_ts s) ss ->
  (forall t, b <= t -> freq_from freq fs t = freq_from freq' fs' t) -> (forall t, b <= t -> state_from st ss t = state_from st' ss' t) ->
  busy_from key freq st fs ss begin right =
  (if bool_decide (freq = key) && (st =? 0) then b - begin else 0) + busy_from key freq' st' fs' ss' b right.
Proof.
  intros Hb Hf Hs Ef Es. unfold busy_from. replace (right - begin) with ((b - begin) + (right - b)) by lia.
  rewrite seqZ_app, fmap_app, zsum_app by lia. replace (begin + (b - begin)) with b by lia. f_equal.
  - rewrite (zsum_const _ (if bool_decide (freq = key) && (st =? 0) then 1 else 0)); [rewrite zlen_seqZ by lia; destruct (_ && _); lia|].
    apply Forall_forall. intros t Ht%elem_of_seqZ. rewrite !last_before; [done| |]; (eapply Forall_impl; [first [exact Hs|exact Hf]|]; cbn; intros; lia).
  - apply zsum_ext, Forall_forall. intros t Ht%elem_of_seqZ. rewrite Ef, Es by lia. done.
Qed.

Lemma add_busy_get m freq st d key : 
  map_get (if st =? 0 then add_busy m freq d else m) key = (fun b => b + (if bool_decide (freq = key) && (st =? 0) then d else 0)) <$> map_get m key.
Proof.
  unfold add_busy. destruct (st =? 0); [|rewrite andb_false_r; destruct (map_get m key); cbn; f_equal; lia]. rewrite andb_true_r.
  destruct (map_get m freq) as [b|] eqn:E; [rewrite map_get_set|]; case_bool_decide as Hk.
  - subst. rewrite decide_True, E by done. done.
  - rewrite decide_False by done. destruct (map_get m key); cbn; f_equal; lia.
  - subst. by rewrite E.
  - destruct (map_get m key); cbn; f_equal; lia.
Qed.

Lemma add_busy_keys (m : sample_map) freq (st d : Z) : (if st =? 0 then add_busy m freq d else m).*1 = m.*1.
Proof.
  destruct (st =? 0); [|done]. unfold add_busy. destruct (map_get m freq) eqn:E; [|done]. rewrite map_set_keys. unfold map_has. by rewrite E.
Qed.

(** What the loop adds to the rows. *)
Definition counted_busy (m m' : sample_map) (busy : Z * Z -> Z) : Prop :=
  m'.*1 = m.*1 /\ forall key, map_get m' key = (fun b => b + busy key) <$> map_get m key.

Lemma counted_step m freq (st d : Z) m' busy busy' :
  counted_busy (if st =? 0 then add_busy m freq d else m) m' busy' ->
  (forall key, busy key = (if bool_decide (freq = key) && (st =? 0) then d else 0) + busy' key) -> counted_busy m m' busy.
Proof.
  intros [Hk Hg] Hb. split; [by rewrite Hk, add_busy_keys|]. intros key. rewrite Hg, add_busy_get, Hb.
  destruct (map_get m key); cbn; [|done]. f_equal. lia.
Qed.

Lemma busy_loop_counts right fuel : forall begin freq st fs ss m,
  runs_to begin right (fs_ts <$> fs) -> runs_to begin right (ss_ts <$> ss) -> (length fs + length ss < fuel)%nat ->
  exists m', busy_loop fuel begin freq st fs ss m = Some m' /\ counted_busy m m' (fun key => busy_from key freq st fs ss begin right).
Proof.
  induction fuel as [|fuel IH]; intros begin freq st fs ss m Hf Hs Hfu; [lia|]. cbn [busy_loop].
  assert (Hstop : begin = right -> counted_busy m m (fun key => busy_from key freq st fs ss begin right)).
  { intros ->. split; [done|]. intros key. assert (busy_from key freq st fs ss right right = 0) as -> by (unfold busy_from; by rewrite Z.sub_diag).
    destruct (map_get m key); cbn; [|done]. f_equal. lia. }
  destruct fs as [|f fs']; [exists m; split; [done|]; destruct Hf as [_ [= ->]]; by apply Hstop|].
  destruct ss as [|s ss']; [exists m; split; [done|]; destruct Hs as [_ [= ->]]; by apply Hstop|].
  rewrite fmap_cons in Hf. rewrite fmap_cons in Hs. destruct (runs_to_le _ _ _ _ Hf) as (Hbf & Hf' & HFf). destruct (runs_to_le _ _ _ _ Hs) as (Hbs & Hs' & HFs).
  pose proof (runs_to_end _ _ _ Hf') as Hrf. pose proof (runs_to_end _ _ _ Hs') as Hrs. rewrite Forall_fmap in HFf. rewrite Forall_fmap in HFs.
  assert (HF : forall b, b <= fs_ts f -> Forall (fun f => b <= fs_ts f) (f :: fs')).
  { intros b Hb. apply Forall_cons. split; [done|]. eapply Forall_impl; [exact HFf|]. cbn. lia. }
  assert (HS : forall b, b <= ss_ts s -> Forall (fun s => b <= ss_ts s) (s :: ss')).
  { intros b Hb. apply Forall_cons. split; [done|]. eapply Forall_impl; [exact HFs|]. cbn. lia. }
  assert (Ef : forall t, fs_ts f <= t -> freq_from freq (f :: fs') t = freq_from (freq_key f) fs' t).
  { intros t Ht. by apply last_passed. }
  assert (Es : forall t, ss_ts s <= t -> state_from st (s :: ss') t = state_from (ss_value s) ss' t).
  { intros t Ht. by apply last_passed. }
  destruct (Z.ltb_spec (fs_ts f) (ss_ts s)); [|destruct (Z.ltb_spec (ss_ts s) (fs_ts f))].
  - destruct (IH (fs_ts f) (freq_key f) st fs' (s :: ss') (if st =? 0 then add_busy m freq (fs_ts f - begin) else m)) as (m' & E & HC); [exact Hf'|rewrite fmap_cons; apply (runs_to_later begin); [exact Hs|lia]|cbn in Hfu |- *; lia|].
    exists m'. split; [exact E|]. eapply counted_step; [exact HC|]. intros key. cbn beta.
    apply busy_split; [lia|apply HF; lia|apply HS; lia|done|done].
  - destruct (IH (ss_ts s) freq (ss_value s) (f :: fs') ss' (if st =? 0 then add_busy m freq (ss_ts s - begin) else m)) as (m' & E & HC); [rewrite fmap_cons; apply (runs_to_later begin); [exact Hf|lia]|exact Hs'|cbn in Hfu |- *; lia|].
    exists m'. split; [exact E|]. eapply counted_step; [exact HC|]. intros key. cbn beta.
    apply busy_split; [lia|apply HF; lia|apply HS; lia|done|done].
  - assert (E0 : fs_ts f = ss_ts s) by lia. rewrite E0 in Hf', Ef.
    destruct (IH (ss_ts s) (freq_key f) (ss_value s) fs' ss' (if st =? 0 then add_busy m freq (ss_ts s - begin) else m)) as (m' & E & HC); [exact Hf'|exact Hs'|cbn in Hfu |- *; lia|].
    exists m'. split; [exact E|]. eapply counted_step; [exact HC|]. intros key. cbn beta.
    apply busy_split; [lia|apply HF; lia|apply HS; lia|done|done].
Qed.

(** ** The samples of a selection *)

Section Cut.
Context {A B : Type} (ts : A -> Z) (val : A -> B).

Definition ts_le (a b : A) : Prop := ts a <= ts b.

Lemma last_from_app base l k t : last_from ts val base (l ++ k) t = last_from ts val (last_from ts val base l t) k t.
Proof. apply foldl_app. Qed.

Lemma sorted_drop (R : A -> A -> Prop) n : forall l, StronglySorted R l -> StronglySorted R (drop n l).
Proof. induction n as [|n IH]; intros l HS; [done|]. destruct l as [|x l]; [done|]. apply IH. by apply StronglySorted_inv in HS as [? _]. Qed.

Lemma forall_drop (P : A -> Prop) n l : Forall P l -> Forall P (drop n l).
Proof. intros HF. rewrite <- (take_drop n l) in HF. by apply Forall_app in HF as [_ ?]. Qed.

(** From the element before the first one of the selection on. *)
Lemma cut_front_spec ns x0 l0 (l := x0 :: l0) : StronglySorted ts_le l ->
  exists x k, cut_front (first_from ts ns l) l = x :: k /\ StronglySorted ts_le (x :: k) /\ (forall P : A -> Prop, Forall P l -> Forall P (x :: k)) /\
    Forall (fun a => ns <= ts a) k /\ (forall t, ns <= t -> last_from ts val (val x0) l t = last_from ts val (val x) k t) /\
    match first_from ts ns l with
    | Some O => x = x0 /\ k = l0 /\ ns <= ts x0
    | Some (S _) => ts x < ns /\ k <> []
    | None => ts x < ns /\ k = []
    end.
Proof.
  intros HS. unfold first_from. destruct (list_find (fun a => ns <= ts a) l) as [[[|i] y]|] eqn:E; cbn [fmap option_fmap option_map fst].
  - apply list_find_Some in E as (Hy & Hns & _). injection Hy as <-. exists x0, l0. split; [done|]. split; [done|]. split; [done|].
    apply StronglySorted_inv in HS as [_ HF]. split; [eapply Forall_impl; [exact HF|]; unfold ts_le; cbn; lia|]. split; [|done].
    intros t Ht. unfold last_from. cbn [foldl l]. by destruct (_ <=? _).
  - apply list_find_Some in E as (Hy & Hns & Hbefore). pose proof (lookup_lt_Some _ _ _ Hy) as Hlen.
    destruct (lookup_lt_is_Some_2 l i) as [x Hx]; [lia|]. pose proof (Hbefore i x Hx ltac:(lia)) as Hxn. cbn in Hxn.
    assert (Ed : forall base t, ts x <= t -> last_from ts val base l t = last_from ts val (val x) (drop (S i) l) t).
    { intros base t Ht. rewrite <- (take_drop_middle l i x Hx) at 1. rewrite last_from_app. by apply last_passed. }
    assert (Ex : drop i l = x :: drop (S i) l) by (by apply drop_S). assert (Ey : drop (S i) l = y :: drop (S (S i)) l) by (by apply drop_S).
    exists x, (drop (S i) l). cbn [cut_front]. split; [done|]. pose proof (sorted_drop _ i _ HS) as HSd. rewrite Ex in HSd. split; [done|].
    split; [intros P HP; rewrite <- Ex; by apply forall_drop|]. split.
    + apply StronglySorted_inv in HSd as [HSd _]. rewrite Ey in HSd |- *. apply StronglySorted_inv in HSd as [_ HF].
      apply Forall_cons. split; [done|]. eapply Forall_impl; [exact HF|]. unfold ts_le. cbn. lia.
    + split; [intros t Ht; apply Ed; lia|]. split; [lia|by rewrite Ey].
  - apply list_find_None in E. cbn [cut_front]. destruct (lookup_lt_is_Some_2 l (length l - 1)) as [x Hx]; [unfold l; cbn; lia|].
    assert (Ex : drop (length l - 1) l = [x]).
    { rewrite (drop_S _ _ _ Hx). rewrite drop_ge; [done|]. lia. }
    pose proof (sorted_drop _ (length l - 1) _ HS) as HSd. exists x, []. split; [done|]. rewrite Ex in HSd. split; [done|].
    split; [intros P HP; rewrite <- Ex; by apply forall_drop|]. split; [constructor|].
    assert (Hxn : ts x < ns). { rewrite Forall_forall in E. pose proof (E x ltac:(by eapply list_elem_of_lookup_2)) as Hn. cbn in Hn. lia. }
    split; [|done]. intros t Ht. rewrite <- (take_drop_middle l _ x Hx). rewrite last_from_app, last_passed by lia. rewrite drop_ge by lia. done.
Qed.

(** A marker at the end of the selection. *)
Lemma close_end_spec (mk : A -> A) start right x k : (forall a, ts (mk a) = right) ->
  StronglySorted ts_le (x :: k) -> Forall (fun a => ts a <= right) (x :: k) -> Forall (fun a => start <= ts a) k -> start <= right ->
  (k = [] -> ts x = right -> start = right) ->
  exists k', close_end ts mk right (x :: k) = x :: k' /\ runs_to start right (ts <$> k') /\
    forall base t, t < right -> last_from ts val base k' t = last_from ts val base k t.
Proof.
  intros Hmk HS HF Hst Hsr Hend. apply StronglySorted_inv in HS as [HS _]. apply Forall_cons in HF as [Hx HF].
  assert (HSk : StronglySorted Z.le (start :: (ts <$> k))).
  { constructor; [|by apply Forall_fmap]. clear -HS. induction HS as [|a k _ IH Ha]; [constructor|]. constructor; [done|]. by apply Forall_fmap. }
  assert (Happ : forall a, ts a = right -> runs_to start right (ts <$> k ++ [a]) /\ forall base t, t < right -> last_from ts val base (k ++ [a]) t = last_from ts val base k t).
  { intros a Ha. split.
    - rewrite fmap_app. cbn [fmap list_fmap]. rewrite Ha. split; [|by rewrite app_comm_cons, last_snoc].
      rewrite app_comm_cons. assert (Hall : Forall (fun y => y <= right) (start :: (ts <$> k))) by (apply Forall_cons; split; [done|by apply Forall_fmap]).
      revert HSk Hall. generalize (start :: (ts <$> k)) as l. clear. induction l as [|y l IH]; intros HS HF; [repeat constructor|].
      apply StronglySorted_inv in HS as [HS Hy]. apply Forall_cons in HF as [Hyr HF]. cbn. constructor; [by apply IH|]. apply Forall_app. split; [done|by constructor].
    - intros base t Ht. rewrite last_from_app. apply last_before. constructor; [lia|constructor]. }
  unfold close_end. destruct k as [|y k] using rev_ind; cbn [last].
  - destruct (Z.eqb_spec (ts x) right) as [E|E]; [|exists [mk x]; split; [done|]; by apply (Happ (mk x))].
    exists []. split; [done|]. split; [|done]. rewrite (Hend eq_refl E). split; [repeat constructor|done].
  - clear IHk. rewrite app_comm_cons, last_snoc. destruct (Z.eqb_spec (ts y) right) as [E|E].
    + exists (k ++ [y]). split; [done|]. split; [|done]. split; [done|]. rewrite fmap_app, app_comm_cons. cbn [fmap list_fmap]. by rewrite last_snoc, E.
    + exists ((k ++ [y]) ++ [mk y]). split; [by rewrite <- app_comm_cons|]. by apply Happ.
Qed.

End Cut.

(** Samples in the order of time, up to the end of the selection; the first sample of the
    state is before it. *)
Definition samples_ok (left right : Z) (fs : list freq_sample) (ss : list state_sample) : Prop :=
  left <= right /\ StronglySorted (ts_le fs_ts) fs /\ StronglySorted (ts_le ss_ts) ss /\
  Forall (fun f => fs_ts f <= right) fs /\ Forall (fun s => ss_ts s <= right) ss /\
  (forall s, head ss = Some s -> ss_ts s < right).

(** The instants of the selection, from the first sample of the frequency on, at which
    the processor ran with the frequency and was not idle.  Before the first sample of
    the state, its value counts. *)
Definition cpu_busy (left right : Z) (fs : list freq_sample) (ss : list state_sample) (key : Z * Z) : Z :=
  match fs, ss with
  | f :: _, s :: _ => busy_from key (freq_key f) (ss_value s) fs ss (Z.max left (fs_ts f)) right
  | _, _ => 0
  end.

Lemma start_ns_max f fs left : StronglySorted (ts_le fs_ts) (f :: fs) -> start_ns (f :: fs) left = Z.max left (fs_ts f).
Proof.
  intros HS. unfold start_ns. destruct (cut_front_spec fs_ts fs_value left f fs HS) as (x & k & E & _ & Hall & _ & _ & Hc).
  assert (Hlt : fs_ts f < left -> first_from fs_ts left (f :: fs) <> Some 0%nat).
  { intros Hlt Hf. rewrite Hf in Hc. lia. }
  destruct (decide (left <= fs_ts f)) as [Hle|Hgt].
  - unfold first_from. cbn. rewrite decide_True by done. cbn. lia.
  - destruct (first_from fs_ts left (f :: fs)) as [[|i]|]; [|lia|lia]. by destruct (Hlt ltac:(lia)).
Qed.

Lemma counted_ext m m' busy busy' : (forall key, busy key = busy' key) -> counted_busy m m' busy -> counted_busy m m' busy'.
Proof. intros E [Hk Hg]. split; [done|]. intros key. by rewrite Hg, E. Qed.

Lemma move_first_spec start include y n : exists y', move_first start include (y :: n) = y' :: n /\ ss_value y' = ss_value y /\
  (y' = y \/ ss_ts y' = start /\ exists i, include = Some (S i)).
Proof.
  unfold move_first. destruct include as [[|i]|]; [by exists y; eauto| |by exists y; eauto].
  destruct (_ <? _); eexists; (split; [done|]); (split; [done|]); [right; eauto|by left].
Qed.

(** The frequencies of the selection from its start on. *)
Lemma cut_freq left right f fs0 (start := Z.max left (fs_ts f)) :
  StronglySorted (ts_le fs_ts) (f :: fs0) -> Forall (fun f => fs_ts f <= right) (f :: fs0) -> left <= right ->
  exists x k, close_freq right (cut_front (first_from fs_ts left (f :: fs0)) (f :: fs0)) = x :: k /\ runs_to start right (fs_ts <$> k) /\
    forall t, start <= t < right -> freq_from (freq_key f) (f :: fs0) t = freq_from (freq_key x) k t.
Proof.
  intros HSf Hrf Hlr. destruct (cut_front_spec fs_ts freq_key left f fs0 HSf) as (x & k & Ek & HSk & Hallf & Hkf & Eqf & Hcf).
  assert (Hsr : start <= right) by (apply Forall_cons in Hrf as [? _]; lia).
  assert (Hfx : fs_ts f <= fs_ts x).
  { pose proof HSf as [_ HFf]%StronglySorted_inv. assert (Hx' : Forall (fun a => fs_ts f <= fs_ts a) (x :: k)) by (apply Hallf, Forall_cons; split; [lia|exact HFf]).
    by apply Forall_cons in Hx' as [? _]. }
  destruct (close_end_spec fs_ts freq_key (fun f => FreqSample (fs_cpu f) right (fs_filterId f) (fs_value f)) start right x k)
    as (k' & Ek' & Hrun & Hval); [done|done|by apply Hallf| |done| |].
  - pose proof HSk as [_ HF]%StronglySorted_inv. rewrite Forall_forall in Hkf, HF |- *. intros a Ha. specialize (Hkf a Ha). specialize (HF a Ha).
    unfold ts_le in HF. cbn in Hkf. subst start. destruct (first_from fs_ts left (f :: fs0)) as [[|i]|]; [destruct Hcf as (-> & _)| |]; lia.
  - intros -> Ex. subst start. destruct (first_from fs_ts left (f :: fs0)) as [[|i]|]; [destruct Hcf as (-> & _ & Hl); lia|by destruct Hcf|lia].
  - exists x, k'. rewrite Ek. split; [exact Ek'|]. split; [done|]. intros t Ht. rewrite Hval by lia. apply Eqf. lia.
Qed.

(** The states of the selection. *)
Lemma cut_state start right s ss0 :
  StronglySorted (ts_le ss_ts) (s :: ss0) -> Forall (fun s => ss_ts s <= right) (s :: ss0) -> start <= right -> ss_ts s < right ->
  exists y n, close_state right (move_first start (first_from ss_ts start (s :: ss0)) (cut_front (first_from ss_ts start (s :: ss0)) (s :: ss0))) = y :: n /\
    runs_to start right (ss_ts <$> n) /\ forall t, start <= t < right -> state_from (ss_value s) (s :: ss0) t = state_from (ss_value y) n t.
Proof.
  intros HSs Hrs Hsr Hs. destruct (cut_front_spec ss_ts ss_value start s ss0 HSs) as (y & n & -> & HSn & Halls & Hns & Eqs & Hcs).
  destruct (move_first_spec start (first_from ss_ts start (s :: ss0)) y n) as (y' & -> & Hv & Hy').
  pose proof (Halls _ Hrs) as [Hyr Hnr]%Forall_cons.
  destruct (close_end_spec ss_ts ss_value (fun s => StateSample (ss_cpu s) right (ss_value s)) start right y' n) as (n' & En' & Hrun & Hval).
  - done.
  - destruct Hy' as [-> | [E _]]; [done|]. apply StronglySorted_inv in HSn as [HSn _]. constructor; [done|].
    eapply Forall_impl; [exact Hns|]. unfold ts_le. cbn. lia.
  - apply Forall_cons. split; [|done]. destruct Hy' as [-> | [E _]]; lia.
  - done.
  - done.
  - intros -> Ey. destruct Hy' as [-> | [E (i & Ei)]]; [|lia]. destruct (first_from ss_ts start (s :: ss0)) as [[|i]|]; [destruct Hcs as (-> & _); lia|by destruct Hcs|lia].
  - exists y', n'. split; [exact En'|]. split; [done|]. intros t Ht. rewrite Hval, Hv by lia. apply Eqs. lia.
Qed.

Lemma getBusyTime_counts fs ss m left right : samples_ok left right fs ss ->
  exists m', getBusyTime fs ss m left right = Some m' /\ counted_busy m m' (cpu_busy left right fs ss).
Proof.
  intros (Hlr & HSf & HSs & Hrf & Hrs & Hhead).
  assert (Hnone : (fs = [] \/ ss = []) -> counted_busy m m (cpu_busy left right fs ss)).
  { intros Hn. split; [done|]. intros key. assert (cpu_busy left right fs ss key = 0) as -> by (destruct Hn as [-> | ->]; [done|by destruct fs]).
    destruct (map_get m key); cbn; [|done]. f_equal. lia. }
  destruct fs as [|f fs0]; [exists m; split; [done|]; apply Hnone; by left|].
  destruct ss as [|s ss0]; [exists m; split; [done|]; apply Hnone; by right|].
  destruct (cut_freq left right f fs0 HSf Hrf Hlr) as (x & k & Ek & Hrk & Hvk).
  assert (Hsr : Z.max left (fs_ts f) <= right) by (apply Forall_cons in Hrf as [? _]; lia).
  destruct (cut_state (Z.max left (fs_ts f)) right s ss0 HSs Hrs Hsr (Hhead s eq_refl)) as (y & n & En & Hrn & Hvn).
  unfold getBusyTime. rewrite start_ns_max by done. cbv zeta. rewrite Ek, En. cbn [handleBusyTimeLogic].
  destruct (busy_loop_counts right (busy_fuel k n) (Z.max left (fs_ts f)) (freq_key x) (ss_value y) k n m Hrk Hrn) as (m' & E & HC); [unfold busy_fuel; lia|].
  exists m'. split; [exact E|]. eapply counted_ext; [|exact HC]. intros key. unfold cpu_busy, busy_from. apply zsum_ext, Forall_forall.
  intros t Ht%elem_of_seqZ. rewrite Hvk, Hvn by lia. done.
Qed.

Lemma counted_trans m m1 m2 b1 b2 : counted_busy m m1 b1 -> counted_busy m1 m2 b2 -> counted_busy m m2 (fun key => b1 key + b2 key).
Proof.
  intros [Hk1 Hg1] [Hk2 Hg2]. split; [by rewrite Hk2, Hk1|]. intros key. rewrite Hg2, Hg1. destruct (map_get m key); cbn; [|done]. f_equal. lia.
Qed.

(** C39: The busy times of the selected processors, for samples in the order of time: the
    worker keeps the rows, and adds to the row of each frequency the number of instants of
    the selection, from the first sample of the frequency of a processor on, at which the
    processor ran with that frequency and its state was 0; nothing else is added, and the
    walk ends. *)
Theorem busy_times_count order result res m left right :
  Forall (fun a => samples_ok left right (filter (fun f => fs_cpu f = a) result) (filter (fun s => ss_cpu s = a) res)) order ->
  exists m', busy_worker order result res m left right = Some m' /\ m'.*1 = m.*1 /\
    forall key, map_get m' key =
      (fun b => b + zsum ((fun a => cpu_busy left right (filter (fun f => fs_cpu f = a) result) (filter (fun s => ss_cpu s = a) res) key) <$> order)) <$> map_get m key.
Proof.
  intros HO. unfold busy_worker. revert m. induction HO as [|a order Ha _ IH]; intros m.
  - exists m. split; [done|]. split; [done|]. intros key. cbn. destruct (map_get m key); cbn; [|done]. f_equal. lia.
  - cbn [foldl mbind option_bind]. destruct (getBusyTime_counts _ _ m left right Ha) as (m1 & -> & H1). destruct (IH m1) as (m' & E & H2).
    exists m'. split; [exact E|]. destruct (counted_trans _ _ _ _ _ H1 H2) as [Hk Hg]. split; [exact Hk|]. exact Hg.
Qed.

Definition ex_freqs : list freq_sample := [FreqSample 0 0 5 100; FreqSample 0 40 5 200; FreqSample 0 70 5 100].
Definition ex_states : list state_sample := [StateSample 0 10 0; StateSample 0 60 1; StateSample 0 80 0].

Example ex_busy : busy_worker [0] ex_freqs ex_states [((5, 100), 0); ((5, 200), 0)] 20 100 = Some [((5, 100), 40); ((5, 200), 20)].
Proof. vm_compute. reflexivity. Qed.

Lemma busy_times_count_witness :
  exists m', busy_worker [0] ex_freqs ex_states [((5, 100), 0); ((5, 200), 0)] 20 100 = Some m' /\ m'.*1 = [(5, 100); (5, 200)].
Proof.
  destruct (busy_times_count [0] ex_freqs ex_states [((5, 100), 0); ((5, 200), 0)] 20 100) as (m' & E & Hk & _).
  - apply Forall_singleton. split; [lia|]. split; [repeat constructor; unfold ts_le; cbn; lia|]. split; [repeat constructor; unfold ts_le; cbn; lia|].
    split; [repeat constructor; cbn; lia|]. split; [repeat constructor; cbn; lia|]. intros s [= <-]. cbn. lia.
  - exists m'. split; [exact E|exact Hk].
Defined.
