(* ===== verification/FreqUsage.v ===== *)
(** * Consumption at the frequencies of the processors

    [TabPaneFreqUsageWorker.ts]: a worker gets the running slices of the selected threads
    and the frequencies of the processors, cuts every slice at the frequencies and builds
    a tree of processes, threads, processors and frequencies, with a summary per process.

    Durations and products of frequencies and durations are whole numbers; percentages,
    capacities and loads round ([Doubles]).  [NaNum] stands for numbers that are not
    finite, which the copy by JSON turns into [null]; [null] counts as zero when it is
    added to.  The levels of the tree have types of their own.  The keys ['pid_tid'] are
    pairs. *)

From Stdlib Require Import QArith.
From S2P Require Import Prelude JsRuntime HeapModel Grouping SwimFilter.
Open Scope Z_scope.

Inductive num := NaNum | NullNum | Num (q : Q).

(** [RunningData] and [CpuFreqData] *)
Record run_slice := RunSlice { r_pid : Z; r_tid : Z; r_cpu : Z; r_dur : Z; r_ts : Z }.
Record cpu_freq := CpuFreq { q_ts : Z; q_cpu : Z; q_value : Z; q_dur : Z }.

(** The column [frequency]: none ([-1]), unknown, the frequency, or the text of the
    frequency and the capacity. *)
Inductive frequency := FNone | FUnknown | FValue (value : Z) | FPower (value : Z) (power : Q).

#[export] Instance Q_eq_dec : EqDecision Q.
Proof. intros [n d] [n' d']. unfold Decision. decide equality; [apply Pos.eq_dec|apply Z.eq_dec]. Defined.

#[export] Instance frequency_eq_dec : EqDecision frequency.
Proof. solve_decision. Defined.

(** [RunningFreqData] without its children. *)
Record usage := Usage {
  u_thread : jsstring;
  u_consumption : Z;
  u_cpu : Z;
  u_frequency : frequency;
  u_dur : Z;
  u_percent : num;
  u_consumpower : num;
  u_cpuload : num
}.

Record cpu_node := CpuNode { c_row : usage; c_children : list usage }.
Record thread_node := ThreadNode { t_row : usage; t_children : list cpu_node }.
Record process_node := ProcessNode { p_row : usage; p_children : list thread_node }.

(** The summary of a process: an array that is indexed by the processor, with holes. *)
Record summary_node := SummaryNode { s_row : usage; s_children : list (option cpu_node) }.

(** [comPower]: the rate and the capacities by frequency of each processor. *)
Record power_info := PowerInfo { smtRate : Q; mapData : list (Z * Q) }.

Section Worker.
Context `{Doubles}.

Definition num_q (n : num) : Q := match n with Num q => q | _ => 0%Q end.

Definition nadd (a b : num) : num :=
  match a, b with NaNum, _ => NaNum | _, NaNum => NaNum | _, _ => Num (fadd (num_q a) (num_q b)) end.

Definition nmul (p : option Q) (d : Z) : num := match p with Some q => Num (fmul q (inject_Z d)) | None => NaNum end.

(** [a / b * 100] *)
Definition npercent (a : num) (b : Q) : num :=
  match a with
  | NaNum => NaNum
  | _ => if Qeq_bool b 0 then NaNum else Num (fmul (fdiv (num_q a) b) 100)
  end.

(** The state of the worker while it answers. *)
Variables (comPower : option (list (Z * power_info))) (timeZones : Z) (maxCommpuPower : Q).

(** [computorPower]; [None] is [undefined]. *)
Definition computorPower (cpu value : Z) : option Q :=
  match comPower with
  | None => Some 0%Q
  | Some m => map_get m cpu ≫= fun i => map_get (mapData i) value
  end.

Definition shown_frequency (cpu value : Z) : frequency :=
  match computorPower cpu value with
  | Some q => if Qeq_bool q 0 then FValue value else FPower value q
  | None => FValue value
  end.

(** [returnObj] for a piece of a slice at a frequency (flags 1 to 4, which differ in the
    length of the piece), and for a slice at an unknown one (flag 5). *)
Definition thread_text (item : run_slice) : jsstring := js_toString 10 (r_pid item) ++ js "_" ++ js_toString 10 (r_tid item).

Definition known_piece (sum : Z) (item : run_slice) (f : cpu_freq) (dur : Z) : usage :=
  let power := computorPower (r_cpu item) (q_value f) in
  Usage (thread_text item) (q_value f * dur) (r_cpu item) (shown_frequency (r_cpu item) (q_value f)) dur
    (npercent (Num (inject_Z dur)) (inject_Z sum)) (nmul power dur) (npercent (nmul power dur) (fmul (inject_Z timeZones) maxCommpuPower)).

Definition unknown_piece (sum : Z) (item : run_slice) : usage :=
  Usage (thread_text item) 0 (r_cpu item) FUnknown (r_dur item) (npercent (Num (inject_Z (r_dur item))) (inject_Z sum)) (Num 0) (Num 0).

Definition returnObj (sum : Z) (item : run_slice) (f : cpu_freq) (flag : Z) : usage :=
  match flag with
  | 1 => known_piece sum item f (r_dur item)
  | 2 => known_piece sum item f (q_ts f + q_dur f - r_ts item)
  | 3 => known_piece sum item f (r_dur item + r_ts item - q_ts f)
  | 4 => known_piece sum item f (q_dur f)
  | _ => unknown_piece sum item
  end.

(** The loop of [dealCpuFreqData] over the frequencies for one slice; after the flags 1, 3
    and 5 the slice is taken out of its list and the loop left. *)
Fixpoint match_run (sum : Z) (cpuList : list Z) (item : run_slice) (freqs : list cpu_freq) : list usage :=
  match freqs with
  | [] => []
  | f :: freqs' =>
      let fend := q_ts f + q_dur f in
      let iend := r_ts item + r_dur item in
      if r_cpu item =? q_cpu f then
        if (q_ts f <? r_ts item) && (r_ts item <? fend) && (r_dur item <? fend - r_ts item) then [returnObj sum item f 1]
        else
          (if (q_ts f <? r_ts item) && (r_ts item <? fend) && (fend - r_ts item <=? r_dur item) then [returnObj sum item f 2] else []) ++
          if (r_ts item <=? q_ts f) && (q_ts f <? iend) && (r_dur item + r_ts item - q_ts f <? q_dur f) then [returnObj sum item f 3]
          else
            (if (r_ts item <=? q_ts f) && (q_ts f <? iend) && (q_dur f <=? r_dur item + r_ts item - q_ts f) then [returnObj sum item f 4] else []) ++
            if (r_ts item <=? q_ts f) && (iend <=? q_ts f) then [returnObj sum item f 5]
            else match_run sum cpuList item freqs'
      else if bool_decide (r_cpu item ∈ cpuList) then match_run sum cpuList item freqs'
      else [returnObj sum item f 5]
  end.

(** [a.dur += b.dur] and the other sums. *)
Definition add_usage_row (a b : usage) : usage :=
  Usage (u_thread a) (u_consumption a + u_consumption b) (u_cpu a) (u_frequency a) (u_dur a + u_dur b)
    (nadd (u_percent a) (u_percent b)) (nadd (u_consumpower a) (u_consumpower b)) (nadd (u_cpuload a) (u_cpuload b)).

Definition with_thread (thread : jsstring) (a : usage) : usage :=
  Usage thread (u_consumption a) (u_cpu a) (u_frequency a) (u_dur a) (u_percent a) (u_consumpower a) (u_cpuload a).

(** [creatNewObj] *)
Definition creatNewObj (cpu : Z) (flag : bool) : usage := Usage (if flag then [] else js "P") 0 cpu FNone 0 (Num 0) (Num 0) (Num 0).

(** Two nested loops that merge every later element with the key of an earlier one into
    it and take it out of the list. *)
Fixpoint merge_equal {X K} `{EqDecision K} (key : X -> K) (merge : X -> X -> X) (fuel : nat) (l : list X) : list X :=
  match fuel, l with
  | S fuel, x :: l => foldl merge x (filter (fun y => key y = key x) l) :: merge_equal key merge fuel (filter (fun y => key y <> key x) l)
  | _, _ => []
  end.

(** A merged row joins its processor, which is opened when it is the first. *)
Definition put_row (r : usage) (c : cpu_node) : cpu_node :=
  if u_cpu (c_row c) =? u_cpu r
  then CpuNode (with_thread (u_thread r) (add_usage_row (c_row c) r)) (sort_by (fun x => - u_consumption x) (c_children c ++ [r]))
  else c.

Definition open_cpu (cpuFreqArr : list cpu_node) (r : usage) : list cpu_node :=
  if bool_decide (u_cpu r ∈ (fun c => u_cpu (c_row c)) <$> cpuFreqArr) then cpuFreqArr else cpuFreqArr ++ [CpuNode (creatNewObj (u_cpu r) true) []].

(** [mergeSameData] *)
Definition usage_key (r : usage) : Z * frequency := (u_cpu r, u_frequency r).

Definition mergeSameData (resultList : list usage) : list cpu_node :=
  sort_by (fun c => u_cpu (c_row c))
    (foldl (fun arr r => put_row r <$> open_cpu arr r) [] (merge_equal usage_key add_usage_row (length resultList) resultList)).

(** [dealTree]: a process per thread, and then the processes of one number together. *)
Definition thread_tree (item : list cpu_node) : thread_node :=
  ThreadNode (foldl (fun t c => with_thread (u_thread (c_row c)) (add_usage_row t (c_row c))) (creatNewObj (-2) true) item) item.

Definition process_tree (pid : Z) (t : thread_node) : process_node :=
  ProcessNode (with_thread (js "P" ++ js_toString 10 pid) (add_usage_row (creatNewObj (-1) false) (t_row t))) [t].

Definition merge_process (a b : process_node) : process_node :=
  ProcessNode (add_usage_row (p_row a) (p_row b)) (p_children a ++ take 1 (p_children b)).

Definition dealTree (params : list ((Z * Z) * list cpu_node)) : list process_node :=
  let result := (fun kv => process_tree kv.1.1 (thread_tree kv.2)) <$> params in
  merge_equal (fun p => u_thread (p_row p)) merge_process (length result) result.

(** [orgnazitionMap]: a slice cut to the selection, and the slices by thread. *)
Definition clip_run (leftNs rightNs : Z) (r : run_slice) : run_slice :=
  let '(ts, dur) := if (r_ts r <? leftNs) && (leftNs <? r_ts r + r_dur r) then (leftNs, r_ts r + r_dur r - leftNs) else (r_ts r, r_dur r) in
  let dur := if rightNs <? ts + dur then rightNs - ts else dur in
  RunSlice (r_pid r) (r_tid r) (r_cpu r) (if dur <? 0 then 0 else dur) ts.

Definition run_key (r : run_slice) : Z * Z := (r_pid r, r_tid r).

(** [dealCpuFreqData] *)
Definition dealCpuFreqData (cpuFreqData : list cpu_freq) (result : list ((Z * Z) * list run_slice)) (sum : Z) (cpuList : list Z) : list process_node :=
  dealTree ((fun kv => (kv.1, mergeSameData (concat ((fun item => match_run sum cpuList item cpuFreqData) <$> kv.2)))) <$> result).

Definition orgnazitionMap (runData : list run_slice) (cpuFreqData : list cpu_freq) (leftNs rightNs : Z) (cpuArray : list Z) : list process_node :=
  let clipped := clip_run leftNs rightNs <$> runData in
  dealCpuFreqData cpuFreqData (map_accumulate run_key push_to [] clipped) (zsum (r_dur <$> clipped)) cpuArray.

(** [recursion]: the rows of the processes and of the frequencies; a row of a processor
    with the number [-1] would be taken for a process. *)
Definition twice (r : usage) : list usage := (if u_cpu r =? -1 then [r] else []) ++ [r].

Definition flatten_cpu (c : cpu_node) : list usage := (if u_cpu (c_row c) =? -1 then [c_row c] else []) ++ concat (twice <$> c_children c).
Definition flatten_thread (t : thread_node) : list usage := (if u_cpu (t_row t) =? -1 then [t_row t] else []) ++ concat (flatten_cpu <$> t_children t).
Definition flatten_process (p : process_node) : list usage := (if u_cpu (p_row p) =? -1 then [p_row p] else []) ++ concat (flatten_thread <$> p_children p).
Definition recursion (arr : list process_node) : list usage := concat (flatten_process <$> arr).

(** [JSON.parse(JSON.stringify(...))] *)
Definition json_num (n : num) : num := match n with NaNum => NullNum | _ => n end.

Definition json_row (r : usage) : usage :=
  Usage (u_thread r) (u_consumption r) (u_cpu r) (u_frequency r) (u_dur r) (json_num (u_percent r)) (json_num (u_consumpower r)) (json_num (u_cpuload r)).

(** Writing to an index of an array: it grows with holes. *)
Definition array_set {X} (l : list (option X)) (i : nat) (x : X) : list (option X) :=
  if decide (i < length l)%nat then <[i := Some x]> l else l ++ replicate (i - length l) None ++ [Some x].

Definition is_process (r : usage) : bool := bool_decide (80 ∈ u_thread r).

Definition summary_data : jsstring := js "summary data".

(** A row of a frequency joins the children of its processor. *)
Fixpoint put_frequency (l : list usage) (r : usage) : list usage :=
  match l with
  | [] => [with_thread summary_data r]
  | x :: l' => if decide (u_frequency x = u_frequency r) then add_usage_row x r :: l' else x :: put_frequency l' r
  end.

Definition put_summary (s : summary_node) (r : usage) : summary_node :=
  let i := Z.to_nat (u_cpu r) in
  let slot := default (CpuNode (with_thread summary_data (creatNewObj (u_cpu r) true)) []) (mjoin (s_children s !! i)) in
  SummaryNode (s_row s) (array_set (s_children s) i (CpuNode (add_usage_row (c_row slot) r) (put_frequency (c_children slot) r))).

(** [fixTotal]; [None] when a row comes before the first process, where the code throws. *)
Definition fix_row (result : list summary_node) (r : usage) : option (list summary_node) :=
  if is_process r then Some (result ++ [SummaryNode (with_thread (u_thread r ++ js "-summary data") r) []])
  else match last result with
       | Some s => Some (<[(length result - 1)%nat := put_summary s r]> result)
       | None => None
       end.

Definition fixTotal (arr : list usage) : option (list summary_node) := foldl (fun o r => o ≫= fun l => fix_row l r) (Some []) arr.

(** [String.prototype.includes] *)
Fixpoint text_prefix (needle hay : jsstring) : bool :=
  match needle, hay with
  | [], _ => true
  | c :: needle', d :: hay' => (c =? d) && text_prefix needle' hay'
  | _ :: _, [] => false
  end.

Fixpoint text_includes (hay needle : jsstring) : bool :=
  text_prefix needle hay || match hay with [] => false | _ :: hay' => text_includes hay' needle end.

(** [mergeTotal]: the summary goes in front of the threads; [None] when there is none,
    where the code throws. *)
Fixpoint mergeTotal (arr1 : list process_node) (arr2 : list summary_node) : option (list (summary_node * process_node)) :=
  match arr1 with
  | [] => Some []
  | p :: arr1' =>
      match list_find (fun s => text_includes (u_thread (s_row s)) (u_thread (p_row p)) = true) arr2 with
      | Some (i, s) => cons (SummaryNode (with_thread summary_data (s_row s)) (s_children s), p) <$> mergeTotal arr1' (delete i arr2)
      | None => None
      end
  end.

End Worker.

(** The message: the capacity of the highest frequency of every processor, and the tree. *)
Definition max_power `{Doubles} (i : power_info) : Q :=
  (foldl (fun '(maxFreq, p) e => if maxFreq <? e.1 then (e.1, e.2) else (maxFreq, p)) (0, 0%Q) (mapData i)).2.

Definition freq_usage_worker `{Doubles} (comPower : option (list (Z * power_info))) (runData : list run_slice) (cpuFreqData : list cpu_freq)
    (leftNs rightNs : Z) (cpuArray : list Z) : option (list (summary_node * process_node)) :=
  let maxCommpuPower := match comPower with
                        | None => 0%Q
                        | Some m => foldl (fun a i => fadd a (fmul (max_power i) (smtRate i))) 0%Q m.*2
                        end in
  let result := orgnazitionMap comPower (rightNs - leftNs) maxCommpuPower runData cpuFreqData leftNs rightNs cpuArray in
  fixTotal (json_row <$> recursion result) ≫= mergeTotal result.

(** ** The pieces of a slice *)

Section Pieces.
Context `{Doubles}.
Variables (comPower : option (list (Z * power_info))) (timeZones : Z) (maxCommpuPower : Q).
Notation known_piece := (known_piece comPower timeZones maxCommpuPower).
Notation match_run := (match_run comPower timeZones maxCommpuPower).

Definition run_end (item : run_slice) : Z := r_ts item + r_dur item.
Definition freq_end (f : cpu_freq) : Z := q_ts f + q_dur f.

(** The frequencies of the slice's processor, what a slice shares with one, and whether
    the code looks at it as shared. *)
Definition freqs_of (item : run_slice) (freqs : list cpu_freq) : list cpu_freq := filter (fun f => q_cpu f = r_cpu item) freqs.

Definition shared (item : run_slice) (f : cpu_freq) : Z := Z.max 0 (Z.min (run_end item) (freq_end f) - Z.max (r_ts item) (q_ts f)).

Definition touching (item : run_slice) (f : cpu_freq) : Prop :=
  q_ts f < r_ts item < freq_end f \/ r_ts item <= q_ts f < run_end item.

#[local] Instance touching_dec item f : Decision (touching item f).
Proof. unfold touching. apply _. Defined.

(** Frequencies of a processor in the order of time. *)
Definition after (a b : cpu_freq) : Prop := freq_end a <= q_ts b.
Definition ordered (fs : list cpu_freq) : Prop := StronglySorted after fs /\ Forall (fun f => 0 <= q_dur f) fs.

(** A slice is also listed as unknown, with its whole length, when it does not end inside
    a frequency and there is a later one. *)
Definition left_over (item : run_slice) (fs : list cpu_freq) : Prop :=
  Exists (fun f => run_end item <= q_ts f) fs /\ Forall (fun f => ~ (touching item f /\ run_end item < freq_end f)) fs.

#[local] Instance left_over_dec item fs : Decision (left_over item fs).
Proof. unfold left_over. apply _. Defined.

Lemma left_over_cons item f fs : left_over item (f :: fs) <->
  ~ (touching item f /\ run_end item < freq_end f) /\
  (run_end item <= q_ts f /\ Forall (fun f => ~ (touching item f /\ run_end item < freq_end f)) fs \/ left_over item fs).
Proof. unfold left_over. rewrite Exists_cons, Forall_cons. tauto. Qed.

Lemma match_run_head sum cpuList item f freqs : q_cpu f = r_cpu item -> 0 <= r_dur item -> 0 <= q_dur f ->
  match_run sum cpuList item (f :: freqs) =
  if decide (touching item f)
  then known_piece sum item f (shared item f) :: (if run_end item <? freq_end f then [] else match_run sum cpuList item freqs)
  else if run_end item <=? q_ts f then [unknown_piece sum item] else match_run sum cpuList item freqs.
Proof.
  intros Ecpu Hd Hdf. cbn [FreqUsage.match_run]. rewrite (proj2 (Z.eqb_eq _ _)) by congruence. cbn [returnObj].
  unfold touching, shared, run_end, freq_end in *.
  destruct (Z.ltb_spec (q_ts f) (r_ts item)) as [H1|H1]; cbn [andb].
  - rewrite (proj2 (Z.leb_gt (r_ts item) (q_ts f))) by lia. cbn [andb app].
    destruct (Z.ltb_spec (r_ts item) (q_ts f + q_dur f)) as [H2|H2]; cbn [andb app].
    + rewrite decide_True by lia. destruct (Z.ltb_spec (r_dur item) (q_ts f + q_dur f - r_ts item)) as [H3|H3].
      * rewrite (proj2 (Z.ltb_lt (r_ts item + r_dur item) _)) by lia. do 2 f_equal. lia.
      * rewrite (proj2 (Z.leb_le _ (r_dur item))), (proj2 (Z.ltb_ge (r_ts item + r_dur item) _)) by lia. cbn [app]. do 2 f_equal. lia.
    + rewrite decide_False by lia. by rewrite (proj2 (Z.leb_gt (r_ts item + r_dur item) _)) by lia.
  - rewrite (proj2 (Z.leb_le (r_ts item) (q_ts f))) by lia. cbn [andb app].
    destruct (Z.ltb_spec (q_ts f) (r_ts item + r_dur item)) as [H2|H2]; cbn [andb app].
    + rewrite decide_True by lia. destruct (Z.ltb_spec (r_dur item + r_ts item - q_ts f) (q_dur f)) as [H3|H3].
      * rewrite (proj2 (Z.ltb_lt (r_ts item + r_dur item) _)) by lia. do 2 f_equal. lia.
      * rewrite (proj2 (Z.leb_le (q_dur f) _)), (proj2 (Z.ltb_ge (r_ts item + r_dur item) _)), (proj2 (Z.leb_gt (r_ts item + r_dur item) _)) by lia.
        cbn [app]. do 2 f_equal. lia.
    + rewrite decide_False by lia. done.
Qed.

(** The pieces of a slice: what it shares with each of the frequencies that it touches,
    and the whole slice once more when it is left over. *)
Lemma match_run_spec sum cpuList item freqs : r_cpu item ∈ cpuList -> 0 <= r_dur item -> ordered (freqs_of item freqs) ->
  match_run sum cpuList item freqs =
  ((fun f => known_piece sum item f (shared item f)) <$> filter (touching item) (freqs_of item freqs)) ++
  (if decide (left_over item (freqs_of item freqs)) then [unknown_piece sum item] else []).
Proof.
  intros Hc Hd. induction freqs as [|f freqs IH]; intros Ho.
  - rewrite decide_False; [done|]. intros [[]%Exists_nil _].
  - unfold freqs_of in *. rewrite filter_cons in Ho |- *.
    destruct (decide (q_cpu f = r_cpu item)) as [Ecpu|Ecpu].
    2: { cbn [FreqUsage.match_run]. rewrite (proj2 (Z.eqb_neq _ _)) by congruence. rewrite bool_decide_true by done. by apply IH. }
    destruct Ho as [[HS HF]%StronglySorted_inv [Hdf HD]%Forall_cons]. rewrite match_run_head by done.
    specialize (IH (conj HS HD)). set (mine := filter (fun f => q_cpu f = r_cpu item) freqs) in *. rewrite filter_cons.
    assert (Hnone : run_end item <= freq_end f -> filter (touching item) mine = [] /\ Forall (fun f => ~ (touching item f /\ run_end item < freq_end f)) mine).
    { intros Hb. assert (Hn : Forall (fun g => ~ touching item g) mine).
      { eapply Forall_impl; [exact HF|]. unfold after, touching, run_end in *. cbn. lia. }
      split; [by apply filter_none|]. eapply Forall_impl; [exact Hn|]. cbn. tauto. }
    pose proof (left_over_cons item f mine) as Hlo. destruct (decide (touching item f)) as [Ht|Ht].
    + rewrite fmap_cons. destruct (Z.ltb_spec (run_end item) (freq_end f)) as [H1|H1].
      * destruct (Hnone ltac:(lia)) as [-> _]. rewrite decide_False by tauto. done.
      * assert (Hq : ~ run_end item <= q_ts f) by (unfold touching, run_end in *; lia). rewrite IH. cbn [app]. do 2 f_equal.
        destruct (decide (left_over item mine)); [rewrite decide_True|rewrite decide_False]; try done; rewrite Hlo; [|tauto].
        split; [|tauto]. intros [_ ?]. lia.
    + destruct (Z.leb_spec (run_end item) (q_ts f)) as [H1|H1].
      * destruct (Hnone ltac:(unfold freq_end; lia)) as [-> Hn]. rewrite decide_True; [done|]. rewrite Hlo. tauto.
      * rewrite IH. f_equal. destruct (decide (left_over item mine)); [rewrite decide_True|rewrite decide_False]; try done; rewrite Hlo; [tauto|].
        intros [_ [[? _]|?]]; [lia|done].
Qed.

(** ** Slices within known frequencies *)

(** Frequencies that follow each other without gaps from [from] on. *)
Fixpoint gapless (from : Z) (fs : list cpu_freq) : Prop :=
  match fs with [] => True | f :: fs => q_ts f = from /\ 0 < q_dur f /\ gapless (freq_end f) fs end.

Fixpoint gapless_end (from : Z) (fs : list cpu_freq) : Z := match fs with [] => from | f :: fs => gapless_end (freq_end f) fs end.

Lemma gapless_le from fs : gapless from fs -> from <= gapless_end from fs /\ ordered fs /\ Forall (fun f => from <= q_ts f /\ freq_end f <= gapless_end from fs) fs.
Proof.
  revert from. induction fs as [|f fs IH]; intros from; cbn [gapless gapless_end].
  - intros _. split; [lia|]. split; [split; constructor|constructor].
  - intros (E & Hd & Hg). destruct (IH _ Hg) as (H1 & [HS HD] & HF). split; [unfold freq_end in *; lia|]. split.
    + split; [constructor; [done|]|constructor; [lia|done]]. eapply Forall_impl; [exact HF|]. unfold after. cbn. lia.
    + constructor; [lia|]. eapply Forall_impl; [exact HF|]. unfold freq_end. cbn. lia.
Qed.

Lemma gapless_pos from fs f : gapless from fs -> f ∈ fs -> 0 < q_dur f.
Proof.
  revert from. induction fs as [|g fs IH]; intros from; [by intros _ ?%elem_of_nil|]. intros (_ & Hd & Hg) [-> | Hf]%elem_of_cons; [done|by eapply IH].
Qed.

Lemma ordered_lt fs f g : ordered fs -> f ∈ fs -> g ∈ fs -> q_ts g < q_ts f -> freq_end g <= q_ts f.
Proof.
  intros [HS HD] Hf Hg. induction HS as [|h l HS IH HA]; [by apply elem_of_nil in Hf|]. apply Forall_cons in HD as [Hh HD].
  rewrite Forall_forall in HA. apply elem_of_cons in Hf as [-> | Hf], Hg as [-> | Hg]; try lia.
  - specialize (HA g Hg). unfold after, freq_end in *. lia.
  - intros _. exact (HA f Hf).
  - by apply IH.
Qed.

Lemma gapless_shared item fs : forall from, gapless from fs -> 0 <= r_dur item ->
  zsum (shared item <$> fs) = Z.max 0 (Z.min (run_end item) (gapless_end from fs) - Z.max (r_ts item) from).
Proof.
  induction fs as [|f fs IH]; intros from; cbn [gapless gapless_end].
  - intros _ Hd. cbn. unfold run_end. lia.
  - intros (E & Hd & Hg) Hr. rewrite fmap_cons, zsum_cons, (IH _ Hg Hr). pose proof (proj1 (gapless_le _ _ Hg)) as Hle.
    unfold shared, run_end, freq_end in *. lia.
Qed.

Lemma gapless_inside from fs t : gapless from fs -> from <= t < gapless_end from fs -> exists f, f ∈ fs /\ q_ts f <= t < freq_end f.
Proof.
  revert from. induction fs as [|f fs IH]; intros from; cbn [gapless gapless_end]; [lia|]. intros (E & Hd & Hg) Ht.
  destruct (decide (t < freq_end f)); [exists f; split; [by left|lia]|].
  destruct (IH _ Hg) as (g & Hin & ?); [lia|]. exists g. split; [by right|done].
Qed.

(** C38: A slice on a processor whose frequencies are known without gaps throughout the
    slice.  The pieces that it is cut into add up to its length when it does not end
    exactly where a frequency begins; when it does, it is counted twice, because its
    whole length is listed once more at an unknown frequency. *)
Theorem pieces_add_up sum cpuList item freqs from :
  r_cpu item ∈ cpuList -> 0 < r_dur item -> gapless from (freqs_of item freqs) ->
  from <= r_ts item -> run_end item <= gapless_end from (freqs_of item freqs) ->
  zsum (u_dur <$> match_run sum cpuList item freqs) =
  if decide (Exists (fun f => q_ts f = run_end item) (freqs_of item freqs)) then 2 * r_dur item else r_dur item.
Proof.
  intros Hc Hd Hg Hfrom Hend. destruct (gapless_le _ _ Hg) as (_ & Ho & HF). rewrite match_run_spec by (done || lia).
  set (mine := freqs_of item freqs) in *. rewrite fmap_app, zsum_app, <- list_fmap_compose.
  assert (Hk : zsum ((u_dur ∘ (fun f => known_piece sum item f (shared item f))) <$> filter (touching item) mine) = r_dur item).
  { transitivity (zsum (shared item <$> mine)).
    - apply zsum_filter; [done|]. intros f Hf. unfold touching, shared, run_end, freq_end in *. lia.
    - rewrite (gapless_shared item mine from Hg) by lia. unfold run_end in *. lia. }
  rewrite Hk. assert (Hlo : left_over item mine <-> Exists (fun f => q_ts f = run_end item) mine).
  { rewrite Forall_forall in HF. unfold left_over. rewrite !Exists_exists, Forall_forall. split.
    - intros [(f & Hf & Hle) Hn]. destruct (decide (run_end item = gapless_end from mine)) as [E|E].
      + destruct (HF f Hf) as [_ He]. pose proof (gapless_pos _ _ _ Hg Hf). unfold freq_end in He. lia.
      + destruct (gapless_inside from mine (run_end item) Hg) as (g & Hg1 & Hg2); [unfold run_end in *; lia|]. exists g. split; [done|].
        destruct (decide (q_ts g = run_end item)) as [|Hne]; [done|]. destruct (Hn g Hg1). unfold touching, run_end in *. lia.
    - intros (f & Hf & E). split; [exists f; split; [done|lia]|]. intros g Hg1 [Htg Hlt].
      assert (freq_end g <= q_ts f); [|lia]. apply (ordered_lt mine); [done|done|done|].
      unfold touching, run_end in *. lia. }
  destruct (decide (left_over item mine)); [rewrite decide_True by tauto|rewrite decide_False by tauto]; cbn; lia.
Qed.

End Pieces.

(** ** Merging *)

Lemma merge_equal_groups {X K} `{EqDecision K} (key : X -> K) (merge : X -> X -> X) fuel : forall l, (length l <= fuel)%nat ->
  merge_equal key merge fuel l = (map_accumulate key (fold_equal merge) [] l).*2.
Proof.
  induction fuel as [|fuel IH]; intros [|x l] Hf; [done|cbn in Hf; lia|done|]. cbn [merge_equal].
  change (map_accumulate key (fold_equal merge) [] (x :: l)) with (map_accumulate key (fold_equal merge) [(key x, x)] l).
  destruct (accumulate_front key (fold_equal merge) (key x) x l []) as (v' & E1 & ->). rewrite run_fold_equal in E1. injection E1 as <-.
  rewrite fmap_cons, IH; [done|]. cbn in Hf. pose proof (length_filter (fun y => key y <> key x) l). lia.
Qed.

(** ** The tree adds up *)

(** A column that adds up: the duration or the consumption. *)
Class Additive `{Doubles} (m : usage -> Z) : Prop := {
  additive_add : forall a b, m (add_usage_row a b) = m a + m b;
  additive_new : forall cpu flag, m (creatNewObj cpu flag) = 0;
  additive_thread : forall t a, m (with_thread t a) = m a;
  additive_json : forall a, m (json_row a) = m a
}.

#[export] Instance dur_additive `{Doubles} : Additive u_dur.
Proof. by split. Qed.

#[export] Instance consumption_additive `{Doubles} : Additive u_consumption.
Proof. by split. Qed.

Definition total (m : usage -> Z) (l : list usage) : Z := zsum (m <$> l).

Section Tree.
Context `{Doubles} (m : usage -> Z) `{!Additive m}.

Definition merged (l : list usage) : list usage := merge_equal usage_key add_usage_row (length l) l.

Lemma merged_rows l :
  NoDup (usage_key <$> merged l) /\ (forall k, k ∈ usage_key <$> merged l <-> k ∈ usage_key <$> l) /\
  (forall g, g ∈ merged l -> m g = total m (filter (fun x => usage_key x = usage_key g) l)) /\
  total m (merged l) = total m l.
Proof.
  unfold merged. rewrite merge_equal_groups by done. set (G := map_accumulate _ _ _ _).
  assert (Hkey : forall k g, (k, g) ∈ G -> usage_key g = k /\ m g = total m (filter (fun x => usage_key x = k) l)).
  { intros k g Hg. apply map_accumulate_elem in Hg. split.
    - pose proof (run_first (fold_equal add_usage_row) usage_key usage_key ltac:(done) ltac:(done) _ _ Hg) as E.
      destruct (filter _ l) as [|x l'] eqn:Ef; [done|]. injection E as E1 E2.
      assert (Hx : x ∈ filter (fun x => usage_key x = k) l) by (rewrite Ef; by left). apply list_elem_of_filter in Hx as [<- _].
      unfold usage_key. congruence.
    - apply (run_sum (fold_equal add_usage_row) m m ltac:(intros [a|] x; cbn; [apply additive_add|lia]) _ None g Hg). }
  assert (Hk : usage_key <$> G.*2 = G.*1).
  { rewrite <- list_fmap_compose. apply list_fmap_ext. intros i [k g] Hi. cbn. apply (Hkey k g). by eapply list_elem_of_lookup_2. }
  rewrite Hk. split; [apply map_accumulate_nodup; constructor|]. split; [|split].
  - intros k. unfold G. rewrite map_get_elem, map_accumulate_get, <- not_eq_None_Some. cbn [map_get]. rewrite run_None, list_elem_of_fmap. split.
    + intros Hne. destruct (filter _ l) as [|x l'] eqn:Ef; [done|].
      assert (Hx : x ∈ filter (fun x => usage_key x = k) l) by (rewrite Ef; by left). apply list_elem_of_filter in Hx as [<- Hx]. by exists x.
    + intros (x & -> & Hx) Hne. by apply (filter_nil_not_elem_of _ _ x Hne).
  - intros g ([k g'] & -> & Hg)%list_elem_of_fmap. cbn. destruct (Hkey k g' Hg) as [-> ?]. done.
  - unfold total, G. rewrite (accumulate_sum (fold_equal add_usage_row) usage_key m m); [done|]. intros [a|] x; cbn; [apply additive_add|lia].
Qed.

(** The processors of a thread, for the merged rows [G]. *)
Definition cpu_of (c : cpu_node) : Z := u_cpu (c_row c).

Definition cpus_ok (G : list usage) (arr : list cpu_node) : Prop :=
  NoDup (cpu_of <$> arr) /\ (forall c, c ∈ cpu_of <$> arr <-> c ∈ u_cpu <$> G) /\
  (forall n, n ∈ arr -> c_children n ≡ₚ filter (fun r => u_cpu r = cpu_of n) G /\ m (c_row n) = total m (filter (fun r => u_cpu r = cpu_of n) G)) /\
  zsum ((fun n => m (c_row n)) <$> arr) = total m G.

Lemma put_row_cpu r n : cpu_of (put_row r n) = cpu_of n.
Proof. unfold put_row, cpu_of. by destruct (_ =? _). Qed.

Lemma put_row_other r (arr : list cpu_node) : u_cpu r ∉ cpu_of <$> arr -> put_row r <$> arr = arr.
Proof.
  intros Hn. rewrite <- (list_fmap_id arr) at 2. apply list_fmap_ext. intros i n Hi. unfold put_row. rewrite (proj2 (Z.eqb_neq _ _)); [done|].
  intros E. apply Hn, list_elem_of_fmap. exists n. split; [done|by eapply list_elem_of_lookup_2].
Qed.

Lemma put_row_sum r (arr : list cpu_node) : NoDup (cpu_of <$> arr) -> u_cpu r ∈ cpu_of <$> arr ->
  zsum ((fun n => m (c_row n)) <$> (put_row r <$> arr)) = zsum ((fun n => m (c_row n)) <$> arr) + m r.
Proof.
  induction arr as [|n arr IH]; [by intros _ ?%elem_of_nil|]. rewrite fmap_cons. intros [Hn HN]%NoDup_cons [E | Hin]%elem_of_cons.
  - rewrite !fmap_cons, !zsum_cons, put_row_other by (by rewrite E). unfold put_row. rewrite (proj2 (Z.eqb_eq _ _)) by done.
    cbn [c_row]. rewrite additive_thread, additive_add. lia.
  - rewrite !fmap_cons, !zsum_cons, IH by done. unfold put_row at 1. rewrite (proj2 (Z.eqb_neq _ _)); [lia|]. intros E. apply Hn. unfold cpu_of. by rewrite E.
Qed.

Lemma cpus_step G arr r : cpus_ok G arr -> cpus_ok (G ++ [r]) (put_row r <$> open_cpu arr r).
Proof.
  intros (HN & Hk & Hn & Hs). set (arr1 := open_cpu arr r).
  assert (H1 : NoDup (cpu_of <$> arr1) /\ (forall c, c ∈ cpu_of <$> arr1 <-> c ∈ u_cpu <$> G ++ [r]) /\
    (forall n, n ∈ arr1 -> c_children n ≡ₚ filter (fun r => u_cpu r = cpu_of n) G /\ m (c_row n) = total m (filter (fun r => u_cpu r = cpu_of n) G)) /\
    zsum ((fun n => m (c_row n)) <$> arr1) = total m G /\ u_cpu r ∈ cpu_of <$> arr1).
  { unfold arr1, open_cpu. fold cpu_of. setoid_rewrite fmap_app. setoid_rewrite elem_of_app. cbn [fmap list_fmap].
    case_bool_decide as Hin.
    - split; [done|]. split; [|done]. intros c. rewrite Hk, list_elem_of_singleton. split; [tauto|]. intros [? | ->]; [done|by apply Hk].
    - rewrite fmap_app. cbn [fmap list_fmap]. split; [apply NoDup_app; split; [done|]; split; [by intros x Hx ->%list_elem_of_singleton|apply NoDup_singleton]|].
      split; [intros c; by rewrite elem_of_app, Hk|]. split; [|split; [rewrite fmap_app, zsum_app, Hs; cbn; rewrite additive_new; lia|rewrite elem_of_app; right; by left]].
      intros n [Hin' | ->%list_elem_of_singleton]%elem_of_app; [by apply Hn|]. cbn. rewrite filter_none; [rewrite additive_new; done|].
      apply Forall_forall. intros x Hx E. apply Hin, Hk, list_elem_of_fmap. by exists x. }
  destruct H1 as (HN1 & Hk1 & Hn1 & Hs1 & Hr). assert (Hmap : cpu_of <$> (put_row r <$> arr1) = cpu_of <$> arr1).
  { rewrite <- list_fmap_compose. apply list_fmap_ext. intros. apply put_row_cpu. }
  split; [by rewrite Hmap|]. split; [by rewrite Hmap|]. split.
  - intros x (n & -> & Hin)%list_elem_of_fmap. rewrite put_row_cpu. destruct (Hn1 n Hin) as [Hc Hm]. unfold total in *. rewrite filter_app, filter_cons, filter_nil.
    unfold put_row. destruct (Z.eqb_spec (u_cpu (c_row n)) (u_cpu r)) as [E|E].
    + rewrite decide_True by (by unfold cpu_of). cbn [c_children c_row]. split; [by rewrite sort_by_perm, Hc|].
      rewrite additive_thread, additive_add, Hm, fmap_app, zsum_app. cbn. lia.
    + rewrite decide_False by (unfold cpu_of; congruence). rewrite app_nil_r. done.
  - rewrite put_row_sum by done. unfold total in *. rewrite Hs1, fmap_app, zsum_app. cbn. lia.
Qed.

Lemma mergeSameData_ok l : cpus_ok (merged l) (mergeSameData l).
Proof.
  unfold mergeSameData. fold (merged l). assert (HI : cpus_ok (merged l) (foldl (fun arr r => put_row r <$> open_cpu arr r) [] (merged l))).
  { generalize (merged l) as G. induction G as [|r G IH] using rev_ind; [|rewrite foldl_snoc; by apply cpus_step].
    split; [constructor|]. split; [done|]. split; [by intros n ?%elem_of_nil|done]. }
  set (arr := foldl _ _ _) in *. destruct HI as (HN & Hk & Hn & Hs). pose proof (sort_by_perm (fun c => u_cpu (c_row c)) arr) as HP.
  split; [by rewrite HP|]. split; [intros c; by rewrite HP|]. split; [intros n; rewrite HP; apply Hn|].
  rewrite <- Hs. apply zsum_perm. by rewrite HP.
Qed.

End Tree.

(** Rows taken apart by a key are still the same rows. *)
Lemma partition_perm {X K} `{EqDecision K} (f : X -> K) ks : forall G : list X, NoDup ks -> Forall (fun x => f x ∈ ks) G ->
  concat ((fun k => filter (fun x => f x = k) G) <$> ks) ≡ₚ G.
Proof.
  induction ks as [|k0 ks IH]; intros G HN HF.
  - destruct G as [|x G]; [done|]. apply Forall_cons in HF as [[]%elem_of_nil _].
  - apply NoDup_cons in HN as [Hk HN]. rewrite fmap_cons. cbn [concat].
    assert (E : (fun k => filter (fun x => f x = k) G) <$> ks = (fun k => filter (fun x => f x = k) (filter (fun x => f x <> k0) G)) <$> ks).
    { apply list_fmap_ext. intros i k Hi. symmetry. apply list_filter_filter_l. intros x <- E. apply Hk. rewrite <- E.
      by eapply list_elem_of_lookup_2. }
    rewrite E, IH; [apply filter_app_complement|done|]. rewrite Forall_forall in HF |- *. intros x [Hx Hin]%list_elem_of_filter.
    specialize (HF x Hin). apply elem_of_cons in HF as [?|?]; [done|done].
Qed.

Lemma concat_perm {X Y} (f g : X -> list Y) l : (forall x, x ∈ l -> f x ≡ₚ g x) -> concat (f <$> l) ≡ₚ concat (g <$> l).
Proof.
  induction l as [|x l IH]; intros HP; [done|]. rewrite !fmap_cons. cbn [concat]. rewrite (HP x) by (by left).
  f_equiv. apply IH. intros y Hy. apply HP. by right.
Qed.

Lemma total_perm m l k : l ≡ₚ k -> total m l = total m k.
Proof. intros HP. unfold total. by rewrite HP. Qed.

Lemma total_app m l k : total m (l ++ k) = total m l + total m k.
Proof. unfold total. by rewrite fmap_app, zsum_app. Qed.

Section Threads.
Context `{Doubles}.

Definition rows_of (t : thread_node) : list usage := concat (c_children <$> t_children t).

(** The merged rows, by processor and by key. *)
Lemma merged_class m `{!Additive m} (P : Z * frequency -> bool) l :
  total m (filter (fun x => P (usage_key x) = true) (merged l)) = total m (filter (fun x => P (usage_key x) = true) l).
Proof.
  destruct (merged_rows m l) as (HN & Hk & Hg & _). unfold merged in *. rewrite merge_equal_groups in * by done. set (G := map_accumulate _ _ _ _) in *.
  assert (Hkey : forall k g, (k, g) ∈ G -> usage_key g = k).
  { intros k g HG. apply map_accumulate_elem in HG. pose proof (run_first (fold_equal add_usage_row) usage_key usage_key ltac:(done) ltac:(done) _ _ HG) as E.
    destruct (filter _ l) as [|x l'] eqn:Ef; [done|]. injection E as E1 E2.
    assert (Hx : x ∈ filter (fun x => usage_key x = k) l) by (rewrite Ef; by left). apply list_elem_of_filter in Hx as [<- _]. unfold usage_key. congruence. }
  assert (Hif : forall k : list usage, total m (filter (fun x => P (usage_key x) = true) k) = zsum ((fun x => if P (usage_key x) then m x else 0) <$> k)).
  { intros k. apply zsum_filter; intros x Hx; [by rewrite Hx|]. by destruct (P (usage_key x)). }
  rewrite !Hif, <- list_fmap_compose. transitivity (zsum ((fun kv => if P kv.1 then m kv.2 else 0) <$> G)).
  - apply zsum_ext, Forall_forall. intros [k g] HG. cbn. by rewrite (Hkey k g HG).
  - unfold G. rewrite (accumulate_keyed_sum usage_key (fold_equal add_usage_row) P m m); [done|]. intros [a|] x; cbn; [apply additive_add|lia].
Qed.

Lemma filter_bool {X} (P : X -> Prop) `{!forall x, Decision (P x)} (l : list X) : filter P l = filter (fun x => bool_decide (P x) = true) l.
Proof. apply list_filter_iff. intros x. by rewrite bool_decide_eq_true. Qed.

Lemma merged_cpu m `{!Additive m} c l : total m (filter (fun x => u_cpu x = c) (merged l)) = total m (filter (fun x => u_cpu x = c) l).
Proof.
  pose proof (merged_class m (fun k => bool_decide (k.1 = c)) l) as E. cbn in E.
  by rewrite (filter_bool (fun x => u_cpu x = c) (merged l)), (filter_bool (fun x => u_cpu x = c) l).
Qed.

Lemma merged_key m `{!Additive m} k l : total m (filter (fun x => usage_key x = k) (merged l)) = total m (filter (fun x => usage_key x = k) l).
Proof.
  pose proof (merged_class m (fun k' => bool_decide (k' = k)) l) as E.
  by rewrite (filter_bool (fun x => usage_key x = k) (merged l)), (filter_bool (fun x => usage_key x = k) l).
Qed.

(** A thread against its pieces. *)
Definition thread_ok (m : usage -> Z) (l : list usage) (t : thread_node) : Prop :=
  m (t_row t) = total m l /\ NoDup (cpu_of <$> t_children t) /\
  (forall c, c ∈ t_children t -> m (c_row c) = total m (filter (fun x => u_cpu x = cpu_of c) l) /\ NoDup (u_frequency <$> c_children c) /\
    forall r, r ∈ c_children c -> u_cpu r = cpu_of c /\ m r = total m (filter (fun x => usage_key x = usage_key r) l)) /\
  (forall x, x ∈ l -> usage_key x ∈ usage_key <$> rows_of t).

Lemma merged_rows_perm m `{!Additive m} l : rows_of (thread_tree (mergeSameData l)) ≡ₚ merged l.
Proof.
  destruct (mergeSameData_ok m l) as (HN & Hk & Hn & _). unfold rows_of, thread_tree. cbn [t_children].
  rewrite (concat_perm c_children (fun n => filter (fun r => u_cpu r = cpu_of n) (merged l))) by (intros n Hin; by apply Hn).
  etransitivity; [|apply (partition_perm u_cpu (cpu_of <$> mergeSameData l) (merged l))].
  - by rewrite <- list_fmap_compose.
  - done.
  - apply Forall_forall. intros x Hx. apply Hk, list_elem_of_fmap. by exists x.
Qed.

Lemma thread_tree_ok m `{!Additive m} l : thread_ok m l (thread_tree (mergeSameData l)).
Proof.
  destruct (mergeSameData_ok m l) as (HN & Hk & Hn & Hs). destruct (merged_rows m l) as (HGN & HGk & HGg & HGs).
  split; [|split; [done|split]].
  - unfold thread_tree. cbn [t_row]. rewrite <- HGs, <- Hs. generalize (mergeSameData l) as arr. intros arr.
    assert (Hf : forall a, m (foldl (fun t c => with_thread (u_thread (c_row c)) (add_usage_row t (c_row c))) a arr) = m a + zsum ((fun n => m (c_row n)) <$> arr)).
    { induction arr as [|c arr IH]; intros a; [cbn; lia|]. cbn [foldl]. rewrite IH, additive_thread, additive_add, fmap_cons, zsum_cons. lia. }
    rewrite Hf, additive_new. lia.
  - intros c Hc. cbn [t_children thread_tree] in Hc. destruct (Hn c Hc) as [HP Hm]. split; [by rewrite Hm, merged_cpu|].
    assert (Hr : forall r, r ∈ c_children c -> u_cpu r = cpu_of c /\ r ∈ merged l) by (intros r; rewrite HP, list_elem_of_filter; done). split.
    + apply (NoDup_fmap_1 (pair (cpu_of c))). rewrite <- list_fmap_compose. rewrite (list_fmap_ext _ usage_key).
      * rewrite HP. eapply sublist_NoDup; [exact HGN|]. apply fmap_sublist, sublist_filter.
      * intros i r Hi. apply list_elem_of_lookup_2, Hr in Hi as [E _]. unfold usage_key. by rewrite <- E.
    + intros r Hin. destruct (Hr r Hin) as [E Hg]. split; [done|]. by apply HGg.
  - intros x Hx. rewrite (merged_rows_perm m). apply HGk, list_elem_of_fmap. by exists x.
Qed.

End Threads.

(** ** The summary *)

Section Summary.
Context `{Doubles} (m : usage -> Z) `{!Additive m}.

(** A processor of the summary against the rows [R] that joined it. *)
Definition slot_ok (R : list usage) (i : nat) (c : cpu_node) : Prop :=
  cpu_of c = Z.of_nat i /\ m (c_row c) = total m (filter (fun x => u_cpu x = Z.of_nat i) R) /\ NoDup (u_frequency <$> c_children c) /\
  (forall r, r ∈ c_children c -> u_cpu r = Z.of_nat i /\ m r = total m (filter (fun x => usage_key x = usage_key r) R)) /\
  (forall k, k ∈ u_frequency <$> c_children c <-> (Z.of_nat i, k) ∈ usage_key <$> R).

Definition summary_ok (R : list usage) (s : summary_node) : Prop :=
  forall i, match mjoin (s_children s !! i) with
            | Some c => slot_ok R i c
            | None => Z.of_nat i ∉ u_cpu <$> R
            end.

Lemma array_set_get {X} (l : list (option X)) i x j : mjoin (array_set l i x !! j) = if decide (i = j) then Some x else mjoin (l !! j).
Proof.
  unfold array_set. destruct (decide (i < length l)%nat) as [Hi|Hi].
  - case_decide as E; [subst; by rewrite list_lookup_insert_eq|by rewrite list_lookup_insert_ne].
  - destruct (decide (j < length l)%nat); [rewrite lookup_app_l, decide_False by lia; done|]. rewrite lookup_app_r by lia.
    rewrite (lookup_ge_None_2 l j) by lia. case_decide as E.
    + subst. rewrite lookup_app_r; rewrite length_replicate; [|lia]. by rewrite Nat.sub_diag.
    + destruct (decide (j - length l < j + 0 /\ j < i)%nat) as [[_ Hj]|Hj].
      * rewrite lookup_app_l by (rewrite length_replicate; lia). by rewrite lookup_replicate_2 by lia.
      * destruct (decide (j < i)%nat); [rewrite lookup_app_l by (rewrite length_replicate; lia); by rewrite lookup_replicate_2 by lia|].
        rewrite lookup_app_r by (rewrite length_replicate; lia). rewrite length_replicate.
        destruct (j - length l - (i - length l))%nat eqn:E'; [lia|]. done.
Qed.

Lemma put_frequency_keys (l : list usage) r k : k ∈ u_frequency <$> put_frequency l r <-> k ∈ u_frequency <$> l \/ k = u_frequency r.
Proof.
  induction l as [|x l IH]; cbn [put_frequency]; [cbn [fmap list_fmap]; rewrite list_elem_of_singleton; cbn; split; [by right|by intros [[]%elem_of_nil|]]|].
  case_decide as E; rewrite !fmap_cons, !elem_of_cons; [cbn; rewrite <- E; tauto|]. rewrite IH. tauto.
Qed.

Lemma put_frequency_nodup (l : list usage) r : NoDup (u_frequency <$> l) -> NoDup (u_frequency <$> put_frequency l r).
Proof.
  induction l as [|x l IH]; cbn [put_frequency]; [intros _; apply NoDup_singleton|]. rewrite fmap_cons. intros [Hx HN]%NoDup_cons.
  case_decide as E; rewrite fmap_cons; apply NoDup_cons; (split; [|auto]); [done|]. rewrite put_frequency_keys. naive_solver.
Qed.

(** A row joins the rows of its frequency. *)
Lemma put_frequency_elem (l : list usage) r y : NoDup (u_frequency <$> l) -> y ∈ put_frequency l r ->
  (y ∈ l /\ u_frequency y <> u_frequency r) \/
  (exists x, x ∈ l /\ u_frequency x = u_frequency r /\ y = add_usage_row x r) \/ (u_frequency r ∉ u_frequency <$> l /\ y = with_thread summary_data r).
Proof.
  induction l as [|x l IH]; cbn [put_frequency].
  - intros _ ->%list_elem_of_singleton. right. right. split; [by intros ?%elem_of_nil|done].
  - rewrite fmap_cons. intros [Hx HN]%NoDup_cons. case_decide as E.
    + intros [-> | Hy]%elem_of_cons; [right; left; exists x; split; [by left|done]|]. left. split; [by right|]. intros E'. apply Hx. rewrite E, <- E'.
      apply list_elem_of_fmap. by exists y.
    + intros [-> | Hy]%elem_of_cons; [left; split; [by left|done]|].
      destruct (IH HN Hy) as [[? ?] | [(z & ? & ? & ?) | [? ?]]]; [left; split; [by right|done]|right; left; exists z; split; [by right|done]|].
      right. right. split; [|done]. intros [?|?]%elem_of_cons; congruence.
Qed.

Lemma total_snoc (P : usage -> Prop) `{!forall x, Decision (P x)} R r :
  total m (filter P (R ++ [r])) = total m (filter P R) + (if decide (P r) then m r else 0).
Proof. rewrite filter_app, total_app, filter_cons, filter_nil. case_decide; unfold total; cbn; lia. Qed.

Lemma keys_snoc R r k : k ∈ usage_key <$> R ++ [r] <-> k ∈ usage_key <$> R \/ k = usage_key r.
Proof. rewrite fmap_app, elem_of_app. cbn [fmap list_fmap]. by rewrite list_elem_of_singleton. Qed.

Lemma no_key R k : k ∉ usage_key <$> R -> total m (filter (fun x => usage_key x = k) R) = 0.
Proof.
  intros Hn. unfold total. rewrite filter_none; [done|]. apply Forall_forall. intros x Hx E. apply Hn, list_elem_of_fmap. by exists x.
Qed.

(** The slot of the row. *)
Lemma slot_put R c r i : u_cpu r = Z.of_nat i -> slot_ok R i c -> slot_ok (R ++ [r]) i (CpuNode (add_usage_row (c_row c) r) (put_frequency (c_children c) r)).
Proof.
  intros Ecpu (Hc & Hm & HN & Hr & Hk). split; [done|]. split; [cbn; rewrite additive_add, total_snoc, decide_True, Hm; done|].
  cbn [c_children]. split; [by apply put_frequency_nodup|]. split.
  - intros y Hy. rewrite total_snoc. destruct (put_frequency_elem _ _ _ HN Hy) as [[Hin Hne] | [(x & Hin & Ex & ->) | [Hout ->]]].
    + destruct (Hr y Hin) as [Ey Em]. split; [done|]. rewrite decide_False; [lia|]. unfold usage_key. congruence.
    + destruct (Hr x Hin) as [Ey Em]. split; [done|]. rewrite additive_add, decide_True; [by rewrite Em|]. unfold usage_key. cbn. congruence.
    + split; [done|]. rewrite additive_thread, decide_True by done. rewrite no_key; [lia|]. unfold usage_key. cbn. rewrite Ecpu, <- Hk. done.
  - intros k. rewrite put_frequency_keys, keys_snoc, Hk. unfold usage_key. rewrite Ecpu. naive_solver.
Qed.

(** The other slots do not change. *)
Lemma slot_other R c r i : u_cpu r <> Z.of_nat i -> slot_ok R i c -> slot_ok (R ++ [r]) i c.
Proof.
  intros Hne (Hc & Hm & HN & Hr & Hk). split; [done|]. split; [rewrite total_snoc, decide_False, Hm by done; lia|]. split; [done|]. split.
  - intros y Hy. destruct (Hr y Hy) as [Ey Em]. split; [done|]. rewrite total_snoc, decide_False; [lia|]. unfold usage_key. congruence.
  - intros k. rewrite keys_snoc, Hk. unfold usage_key. naive_solver.
Qed.

Lemma summary_step R s r : 0 <= u_cpu r -> summary_ok R s -> summary_ok (R ++ [r]) (put_summary s r).
Proof.
  intros Hcpu HS i. unfold put_summary. cbn [s_children]. rewrite array_set_get. case_decide as E.
  - subst i. apply slot_put; [lia|]. specialize (HS (Z.to_nat (u_cpu r))). destruct (mjoin (s_children s !! Z.to_nat (u_cpu r))) as [c|]; [done|].
    cbn [default]. rewrite Z2Nat.id in HS by done. split; [cbn; lia|]. cbn [c_row c_children]. rewrite additive_thread, additive_new.
    split; [|split; [constructor|split; [by intros r' ?%elem_of_nil|]]].
    + unfold total. rewrite filter_none; [done|]. apply Forall_forall. intros x Hx E. apply HS, list_elem_of_fmap. exists x. split; [lia|done].
    + intros k. split; [by intros ?%elem_of_nil|]. intros (x & [= Ex _] & Hx)%list_elem_of_fmap. destruct HS. apply list_elem_of_fmap. exists x. split; [lia|done].
  - specialize (HS i). destruct (mjoin (s_children s !! i)) as [c|]; [apply slot_other; [lia|done]|]. rewrite fmap_app, elem_of_app. cbn [fmap list_fmap].
    rewrite list_elem_of_singleton. intros [?|?]; [done|lia].
Qed.

Lemma summary_fold R s : Forall (fun r => 0 <= u_cpu r) R -> s_children s = [] -> summary_ok R (foldl put_summary s R) /\ s_row (foldl put_summary s R) = s_row s.
Proof.
  intros HF Hs. induction R as [|r R IH] using rev_ind.
  - split; [|done]. intros i. cbn. rewrite Hs. by intros ?%elem_of_nil.
  - apply Forall_app in HF as [HF [Hr _]%Forall_cons]. rewrite foldl_snoc. destruct (IH HF) as [H1 H2]. split; [by apply summary_step|done].
Qed.

End Summary.

(** ** Processes *)

Lemma no_P n : 80 ∉ js_toString 10 n.
Proof.
  assert (Hd : forall fuel n acc, 0 <= n -> Forall (fun c => c <> 80) acc -> Forall (fun c => c <> 80) (radix_digits fuel 10 n acc)).
  { induction fuel as [|fuel IH]; intros k acc Hk HF; [done|]. cbn [radix_digits].
    assert (HF' : Forall (fun c => c <> 80) (digit (k mod 10) :: acc)).
    { constructor; [|done]. pose proof (Z.mod_pos_bound k 10 ltac:(lia)). unfold digit. zcase; lia. }
    destruct (k <? 10); [done|]. apply IH; [apply Z.div_pos; lia|done]. }
  unfold js_toString, toString_nonneg. intros Hin. destruct (Z.ltb_spec n 0).
  - apply elem_of_cons in Hin as [?|Hin]; [done|]. assert (HF := Hd (S (Z.to_nat (Z.log2 (- n)))) (- n) [] ltac:(lia) (Forall_nil_2 _)).
    rewrite Forall_forall in HF. by apply (HF _ Hin).
  - assert (HF := Hd (S (Z.to_nat (Z.log2 n))) n [] ltac:(lia) (Forall_nil_2 _)). rewrite Forall_forall in HF. by apply (HF _ Hin).
Qed.

Lemma accumulate_fmap {K V X Y} `{EqDecision K} (f : Y -> X) (key : X -> K) (upd : option V -> X -> V) (l : list Y) : forall m,
  map_accumulate key upd m (f <$> l) = map_accumulate (fun y => key (f y)) (fun o y => upd o (f y)) m l.
Proof. induction l as [|y l IH]; intros m; [done|]. rewrite fmap_cons. apply IH. Qed.

Section Processes.
Context `{Doubles}.

Definition process_name (pid : Z) : jsstring := js "P" ++ js_toString 10 pid.

Lemma process_name_inj a b : process_name a = process_name b -> a = b.
Proof. unfold process_name. intros E%app_inv_head. by apply js_toString_inj. Qed.

(** A process against its threads. *)
Definition process_of (pid : Z) (threads : list thread_node) (p : process_node) : Prop :=
  u_thread (p_row p) = process_name pid /\ u_cpu (p_row p) = -1 /\ p_children p = threads /\
  forall m `{!Additive m}, m (p_row p) = zsum ((fun t => m (t_row t)) <$> threads).

Lemma dealTree_ok (params : list ((Z * Z) * list cpu_node)) :
  NoDup ((fun p => u_thread (p_row p)) <$> dealTree params) /\
  (forall pid, process_name pid ∈ (fun p => u_thread (p_row p)) <$> dealTree params <-> pid ∈ (fun kv => kv.1.1) <$> params) /\
  forall p, p ∈ dealTree params -> exists pid, process_of pid ((fun kv => thread_tree kv.2) <$> filter (fun kv => kv.1.1 = pid) params) p.
Proof.
  unfold dealTree. rewrite merge_equal_groups, accumulate_fmap by done.
  set (key := fun kv : (Z * Z) * list cpu_node => _). set (upd := fun (o : option process_node) (kv : (Z * Z) * list cpu_node) => _).
  set (G := map_accumulate key upd [] params). assert (Hkey : forall kv, key kv = process_name kv.1.1) by done.
  assert (HG : forall k p, (k, p) ∈ G -> u_thread (p_row p) = k /\ exists pid, k = process_name pid /\
    process_of pid ((fun kv => thread_tree kv.2) <$> filter (fun kv => kv.1.1 = pid) params) p).
  { intros k p Hp. apply map_accumulate_elem in Hp.
    assert (Hfirst : exists kv, kv ∈ params /\ key kv = k).
    { destruct (filter (fun x => key x = k) params) as [|kv l] eqn:Ef; [done|].
      assert (Hkv : kv ∈ filter (fun x => key x = k) params) by (rewrite Ef; by left). apply list_elem_of_filter in Hkv as [? ?]. by exists kv. }
    destruct Hfirst as (kv0 & _ & <-). rewrite Hkey in *. set (pid := kv0.1.1) in *.
    assert (Ef : filter (fun x => key x = process_name pid) params = filter (fun kv => kv.1.1 = pid) params).
    { apply list_filter_iff. intros kv. rewrite Hkey. split; [apply process_name_inj|by intros ->]. }
    rewrite Ef in Hp.
    assert (Hname : u_thread (p_row p) = process_name pid).
    { pose proof (run_first upd (fun p => u_thread (p_row p)) key ltac:(done) ltac:(done) _ _ Hp) as E.
      destruct (filter _ params) as [|kv l] eqn:Ef'; [done|]. injection E as <-.
      assert (Hkv : kv ∈ filter (fun kv => kv.1.1 = pid) params) by (rewrite Ef'; by left). apply list_elem_of_filter in Hkv as [<- _]. done. }
    split; [done|]. exists pid. split; [done|]. split; [done|]. split; [|split].
    - pose proof (run_first upd (fun p => u_cpu (p_row p)) (fun _ => -1) ltac:(done) ltac:(done) _ _ Hp) as E.
      destruct (filter _ params); [done|]. by injection E as <-.
    - apply (run_log upd p_children (fun kv => thread_tree kv.2) ltac:(by intros [a|] kv) _ None p Hp).
    - intros m Hm. rewrite <- list_fmap_compose.
      apply (run_sum upd (fun p => m (p_row p)) (fun kv => m (t_row (thread_tree kv.2)))) with (o := None) (l := filter (fun kv => kv.1.1 = pid) params); [|done].
      intros [a|] kv; cbn [upd fold_equal from_option merge_process process_tree p_row]; rewrite ?additive_thread, !additive_add, ?additive_thread, ?additive_add, ?additive_new; lia. }
  assert (Hk : (fun p => u_thread (p_row p)) <$> G.*2 = G.*1).
  { rewrite <- list_fmap_compose. apply list_fmap_ext. intros i [k p] Hi. cbn. apply (HG k p). by eapply list_elem_of_lookup_2. }
  rewrite Hk. split; [apply map_accumulate_nodup; constructor|]. split.
  - intros pid. unfold G. rewrite map_get_elem, map_accumulate_get, <- not_eq_None_Some. cbn [map_get]. rewrite run_None, list_elem_of_fmap. split.
    + intros Hne. destruct (filter _ params) as [|kv l] eqn:Ef; [done|].
      assert (Hkv : kv ∈ filter (fun x => key x = process_name pid) params) by (rewrite Ef; by left). apply list_elem_of_filter in Hkv as [E Hkv].
      exists kv. split; [|done]. rewrite Hkey in E. by apply process_name_inj in E.
    + intros (kv & -> & Hkv) Hne. by apply (filter_nil_not_elem_of _ _ kv Hne).
  - intros p ([k p'] & -> & Hp)%list_elem_of_fmap. destruct (HG k p' Hp) as (_ & pid & _ & ?). by exists pid.
Qed.

(** ** The copy and its summary *)

(** Rows of a thread: no processor is negative and no text has a P. *)
Definition plain (r : usage) : Prop := 0 <= u_cpu r /\ 80 ∉ u_thread r.

Lemma merged_plain l : Forall plain l -> Forall plain (merged l).
Proof.
  intros HF. unfold merged. rewrite merge_equal_groups by done. apply Forall_fmap, Forall_forall. intros [k g] Hg. cbn.
  apply map_accumulate_elem in Hg. pose proof (run_first (fold_equal add_usage_row) (fun g => (u_cpu g, u_thread g)) (fun g => (u_cpu g, u_thread g)) ltac:(done) ltac:(done) _ _ Hg) as E.
  destruct (filter _ l) as [|x l'] eqn:Ef; [done|]. injection E as E1 E2.
  assert (Hx : x ∈ filter (fun x => usage_key x = k) l) by (rewrite Ef; by left). apply list_elem_of_filter in Hx as [_ Hx].
  rewrite Forall_forall in HF. unfold plain. rewrite <- E1, <- E2. by apply HF.
Qed.

Lemma rows_plain l : Forall plain l -> Forall plain (rows_of (thread_tree (mergeSameData l))).
Proof. intros HF. rewrite (merged_rows_perm u_dur). by apply merged_plain. Qed.

Lemma thread_row_cpu item : u_cpu (t_row (thread_tree item)) = -2.
Proof.
  unfold thread_tree. cbn [t_row].
  assert (Hf : forall a, u_cpu (foldl (fun t c => with_thread (u_thread (c_row c)) (add_usage_row t (c_row c))) a item) = u_cpu a).
  { induction item as [|c item IH]; intros a; [done|]. cbn [foldl]. by rewrite IH. }
  by rewrite Hf.
Qed.

Lemma flatten_thread_rows l : Forall plain l -> flatten_thread (thread_tree (mergeSameData l)) = rows_of (thread_tree (mergeSameData l)).
Proof.
  intros HF. pose proof (rows_plain l HF) as HR. unfold flatten_thread. rewrite thread_row_cpu. change (-2 =? -1) with false. unfold rows_of in *. cbn [app]. f_equal.
  apply list_fmap_ext. intros i c Hi. apply list_elem_of_lookup_2 in Hi. cbn [thread_tree t_children] in *.
  destruct (mergeSameData_ok u_dur l) as (_ & Hk & _). assert (Hcpu : 0 <= u_cpu (c_row c)).
  { destruct (proj1 (list_elem_of_fmap u_cpu (merged l) (cpu_of c))) as (g & E & Hg); [apply Hk, list_elem_of_fmap; by exists c|].
    pose proof (merged_plain l HF) as HM. rewrite Forall_forall in HM. destruct (HM g Hg). unfold cpu_of in E. lia. }
  unfold flatten_cpu. rewrite (proj2 (Z.eqb_neq (u_cpu (c_row c)) _)) by lia. cbn [app].
  assert (HC : Forall plain (c_children c)).
  { rewrite Forall_forall in HR |- *. intros r Hr. apply HR, elem_of_concat. exists (c_children c). split; [by apply list_elem_of_fmap_2|done]. }
  clear -HC. induction HC as [|r l [Hr _] _ IH]; [done|]. rewrite fmap_cons. cbn [concat]. rewrite IH. unfold twice.
  rewrite (proj2 (Z.eqb_neq _ _)) by lia. done.
Qed.

(** A process and its rows make one summary. *)
Lemma fix_block (acc : list summary_node) pr rows : is_process pr = true -> Forall (fun r => is_process r = false) rows ->
  foldl (fun o r => o ≫= fun l => fix_row l r) (Some acc) (pr :: rows) =
  Some (acc ++ [foldl put_summary (SummaryNode (with_thread (u_thread pr ++ js "-summary data") pr) []) rows]).
Proof.
  intros Hp HF. cbn [foldl mbind option_bind]. unfold fix_row at 2. rewrite Hp. set (s := SummaryNode _ _). generalize s as s0. clear -HF.
  induction HF as [|r rows Hr _ IH]; intros s; [done|]. cbn [foldl mbind option_bind]. unfold fix_row at 2. rewrite Hr, last_snoc.
  rewrite <- IH. f_equal. f_equal. rewrite length_app. cbn [length]. rewrite insert_app_r_alt by lia.
  replace (length acc + 1 - 1 - length acc)%nat with 0%nat by lia. done.
Qed.

(** The rows of a process with its threads in the copy. *)
Definition block_of (p : process_node) : list usage := json_row <$> concat (rows_of <$> p_children p).
Definition summary_of (p : process_node) : summary_node :=
  foldl put_summary (SummaryNode (with_thread (u_thread (p_row p) ++ js "-summary data") (json_row (p_row p))) []) (block_of p).

Definition block_ok (p : process_node) : Prop :=
  is_process (p_row p) = true /\ flatten_process p = p_row p :: concat (rows_of <$> p_children p) /\ Forall plain (concat (rows_of <$> p_children p)).

Lemma fixTotal_blocks ps : Forall block_ok ps -> fixTotal (json_row <$> recursion ps) = Some (summary_of <$> ps).
Proof.
  intros HF. unfold fixTotal, recursion. rewrite <- (app_nil_l (summary_of <$> ps)). generalize (@nil summary_node) as acc.
  induction HF as [|p ps (Hp & Ef & HR) _ IH]; intros acc; [by rewrite app_nil_r|]. rewrite !fmap_cons. cbn [concat]. rewrite fmap_app, foldl_app, Ef, fmap_cons.
  rewrite fix_block.
  - rewrite IH, <- app_assoc. done.
  - done.
  - apply Forall_fmap. eapply Forall_impl; [exact HR|]. intros r [_ Hr]. cbn. unfold is_process. cbn. by apply bool_decide_false.
Qed.

Lemma text_prefix_app a b : text_prefix a (a ++ b) = true.
Proof. induction a as [|c a IH]; [done|]. cbn. by rewrite Z.eqb_refl. Qed.

Lemma text_includes_app a b : text_includes (a ++ b) a = true.
Proof. pose proof (text_prefix_app a b) as E. destruct (a ++ b); cbn [text_includes]; by rewrite E. Qed.

Lemma summary_row (p : process_node) : s_row (summary_of p) = with_thread (u_thread (p_row p) ++ js "-summary data") (json_row (p_row p)).
Proof.
  unfold summary_of. assert (Hf : forall l s, s_row (foldl put_summary s l) = s_row s) by (induction l as [|r l IH]; intros s; [done|]; cbn [foldl]; by rewrite IH).
  by rewrite Hf.
Qed.

(** Every process gets its own summary, whatever texts contain each other. *)
Lemma mergeTotal_own ps : mergeTotal ps (summary_of <$> ps) =
  Some ((fun p => (SummaryNode (with_thread summary_data (s_row (summary_of p))) (s_children (summary_of p)), p)) <$> ps).
Proof.
  induction ps as [|p ps IH]; [done|]. rewrite !fmap_cons. cbn [mergeTotal list_find].
  rewrite decide_True by (rewrite summary_row; cbn [u_thread with_thread]; apply text_includes_app). cbn [delete list_delete]. rewrite IH. done.
Qed.

(** *** Everything together *)

Variables (comPower : option (list (Z * power_info))) (runData : list run_slice) (cpuFreqData : list cpu_freq) (leftNs rightNs : Z) (cpuArray : list Z).

Definition max_power_sum : Q :=
  match comPower with None => 0%Q | Some m => foldl (fun a i => fadd a (fmul (max_power i) (smtRate i))) 0%Q m.*2 end.

(** The pieces of the slices of a thread. *)
Definition clipped_runs : list run_slice := clip_run leftNs rightNs <$> runData.

Definition run_pieces (item : run_slice) : list usage :=
  match_run comPower (rightNs - leftNs) max_power_sum (zsum (r_dur <$> clipped_runs)) cpuArray item cpuFreqData.

Definition thread_pieces (pid tid : Z) : list usage := concat (run_pieces <$> filter (fun r => run_key r = (pid, tid)) clipped_runs).

Lemma run_pieces_rows item : Forall (fun x => u_cpu x = r_cpu item /\ u_thread x = thread_text item) (run_pieces item).
Proof.
  unfold run_pieces. induction cpuFreqData as [|f fs IH]; [constructor|]. cbn [match_run].
  repeat case_match; repeat (apply Forall_app; split); repeat constructor; done.
Qed.

Lemma pieces_plain pid tid : Forall (fun r => 0 <= r_cpu r) runData -> Forall plain (thread_pieces pid tid).
Proof.
  intros HC. unfold thread_pieces. apply Forall_concat, Forall_fmap, Forall_forall. intros item [_ Hi]%list_elem_of_filter.
  eapply Forall_impl; [apply run_pieces_rows|]. cbn. intros x [E1 E2]. unfold plain. rewrite E1, E2. split.
  - unfold clipped_runs in Hi. apply list_elem_of_fmap in Hi as (r & -> & Hr). rewrite Forall_forall in HC. specialize (HC r Hr).
    unfold clip_run. by repeat case_match.
  - unfold thread_text. rewrite !elem_of_app. intros [Hp | [Hp | Hp]]; [by apply no_P in Hp| |by apply no_P in Hp]. by apply list_elem_of_singleton in Hp.
Qed.

Definition run_keys : list (Z * Z) := (map_accumulate run_key push_to [] clipped_runs).*1.

(** The threads of a process, in the order of their first slices. *)
Definition threads_of (pid : Z) : list Z := snd <$> filter (fun k => k.1 = pid) run_keys.

Definition thread_of (pid tid : Z) : thread_node := thread_tree (mergeSameData (thread_pieces pid tid)).

Definition worker_result : list process_node := orgnazitionMap comPower (rightNs - leftNs) max_power_sum runData cpuFreqData leftNs rightNs cpuArray.

Lemma run_keys_elem pid tid : (pid, tid) ∈ run_keys <-> (pid, tid) ∈ run_key <$> runData.
Proof.
  unfold run_keys. rewrite map_get_elem, map_accumulate_get, <- not_eq_None_Some. cbn [map_get]. rewrite run_None. unfold clipped_runs.
  assert (Hk : forall r, run_key (clip_run leftNs rightNs r) = run_key r) by (intros r; unfold clip_run; by repeat case_match).
  rewrite list_elem_of_fmap. split.
  - intros Hne. destruct (filter _ _) as [|x l] eqn:Ef; [done|].
    assert (Hx : x ∈ filter (fun r => run_key r = (pid, tid)) (clip_run leftNs rightNs <$> runData)) by (rewrite Ef; by left).
    apply list_elem_of_filter in Hx as [<- (r & -> & Hr)%list_elem_of_fmap]. exists r. by rewrite Hk.
  - intros (r & -> & Hr) Hne. apply (filter_nil_not_elem_of _ _ (clip_run leftNs rightNs r) Hne); [done|]. by apply list_elem_of_fmap_2.
Qed.

Lemma threads_nodup pid : NoDup (threads_of pid) /\ forall tid, tid ∈ threads_of pid <-> (pid, tid) ∈ run_key <$> runData.
Proof.
  unfold threads_of. split.
  - apply (NoDup_fmap_1 (pair pid)). rewrite <- list_fmap_compose. rewrite (list_fmap_ext _ id); [rewrite list_fmap_id; apply NoDup_filter, map_accumulate_nodup; constructor|].
    intros i [p t] Hi. apply list_elem_of_lookup_2, list_elem_of_filter in Hi as [<- _]. done.
  - intros tid. rewrite <- run_keys_elem, list_elem_of_fmap. split.
    + intros ([p t] & -> & [<- Hk]%list_elem_of_filter). done.
    + intros Hk. exists (pid, tid). split; [done|]. by apply list_elem_of_filter.
Qed.

Lemma worker_params : worker_result = dealTree ((fun k => (k, mergeSameData (thread_pieces k.1 k.2))) <$> run_keys).
Proof.
  unfold worker_result, orgnazitionMap, dealCpuFreqData, run_keys. f_equal. rewrite <- (list_fmap_compose fst). apply list_fmap_ext. intros i [[pid tid] items] Hi.
  apply list_elem_of_lookup_2, map_accumulate_elem in Hi. rewrite run_push in Hi. unfold compose. cbn [fst snd]. do 2 f_equal.
  unfold thread_pieces. fold clipped_runs in Hi |- *. destruct (filter _ _); [done|]. by injection Hi as <-.
Qed.

Lemma worker_processes :
  NoDup ((fun p => u_thread (p_row p)) <$> worker_result) /\
  (forall pid, process_name pid ∈ (fun p => u_thread (p_row p)) <$> worker_result <-> pid ∈ r_pid <$> runData) /\
  forall p, p ∈ worker_result -> exists pid, process_of pid (thread_of pid <$> threads_of pid) p.
Proof.
  rewrite worker_params. destruct (dealTree_ok ((fun k => (k, mergeSameData (thread_pieces k.1 k.2))) <$> run_keys)) as (HN & Hk & Hp).
  split; [done|]. split.
  - intros pid. rewrite Hk, <- list_fmap_compose, !list_elem_of_fmap. split.
    + intros ([p t] & -> & Hin). apply run_keys_elem, list_elem_of_fmap in Hin as (r & [= -> ->] & Hr). by exists r.
    + intros (r & -> & Hr). exists (r_pid r, r_tid r). split; [done|]. apply run_keys_elem, list_elem_of_fmap. by exists r.
  - intros p Hin. destruct (Hp p Hin) as (pid & Hpid). exists pid. assert (E : (fun kv => thread_tree kv.2) <$> filter (fun kv => kv.1.1 = pid) ((fun k => (k, mergeSameData (thread_pieces k.1 k.2))) <$> run_keys) = thread_of pid <$> threads_of pid); [|by rewrite <- E].
    unfold threads_of. clear. induction run_keys as [|[p t] ks IH]; [done|]. rewrite fmap_cons, !filter_cons. cbn [fst]. case_decide as E; [|done].
    rewrite !fmap_cons, IH. by subst.
Qed.

Lemma process_block pid p : Forall (fun r => 0 <= r_cpu r) runData -> process_of pid (thread_of pid <$> threads_of pid) p -> block_ok p.
Proof.
  intros HC (Hn & Hc & Hch & _). split; [|split].
  - unfold is_process. rewrite Hn. apply bool_decide_true. by left.
  - unfold flatten_process. rewrite Hc. change (-1 =? -1) with true. cbn [app]. do 2 f_equal. rewrite Hch, <- !list_fmap_compose. apply list_fmap_ext.
    intros i tid _. unfold compose. by apply flatten_thread_rows, pieces_plain.
  - rewrite Hch. apply Forall_concat, Forall_fmap, Forall_fmap, Forall_forall. intros tid _. cbn. by apply rows_plain, pieces_plain.
Qed.

(** The pieces of a process, and that the rows of its threads stand for them. *)
Definition process_pieces (pid : Z) : list usage := concat (thread_pieces pid <$> threads_of pid).

Definition class_total (m : usage -> Z) (P : Z * frequency -> bool) (l : list usage) : Z := zsum ((fun x => if P (usage_key x) then m x else 0) <$> l).

Lemma class_total_filter m P l : total m (filter (fun x => P (usage_key x) = true) l) = class_total m P l.
Proof. apply zsum_filter; intros x Hx; [by rewrite Hx|]. by destruct (P (usage_key x)). Qed.

Lemma class_total_concat m P ls : class_total m P (concat ls) = zsum (class_total m P <$> ls).
Proof. unfold class_total. induction ls as [|l ls IH]; [done|]. rewrite fmap_cons, zsum_cons. cbn [concat]. by rewrite fmap_app, zsum_app, IH. Qed.

Lemma class_total_json m `{!Additive m} P l : class_total m P (json_row <$> l) = class_total m P l.
Proof. unfold class_total. rewrite <- list_fmap_compose. apply zsum_ext, Forall_forall. intros x _. unfold compose. by rewrite additive_json. Qed.

Lemma thread_class m `{!Additive m} P pid tid : class_total m P (rows_of (thread_of pid tid)) = class_total m P (thread_pieces pid tid).
Proof.
  rewrite <- !class_total_filter, <- (merged_class m P (thread_pieces pid tid)). unfold thread_of. apply total_perm. by rewrite (merged_rows_perm m).
Qed.

Lemma block_class m `{!Additive m} P pid p : process_of pid (thread_of pid <$> threads_of pid) p ->
  class_total m P (block_of p) = class_total m P (process_pieces pid).
Proof.
  intros (_ & _ & Hch & _). unfold block_of, process_pieces. rewrite class_total_json, Hch, !class_total_concat, <- !list_fmap_compose by done.
  apply zsum_ext, Forall_forall. intros tid _. by apply thread_class.
Qed.

Lemma block_keys pid p k : process_of pid (thread_of pid <$> threads_of pid) p -> k ∈ usage_key <$> block_of p <-> k ∈ usage_key <$> process_pieces pid.
Proof.
  intros (_ & _ & Hch & _). unfold block_of, process_pieces. rewrite Hch, <- (list_fmap_compose json_row usage_key). change (usage_key ∘ json_row) with usage_key.
  assert (Ht : forall tid, k ∈ usage_key <$> rows_of (thread_of pid tid) <-> k ∈ usage_key <$> thread_pieces pid tid).
  { intros tid. unfold thread_of. rewrite (merged_rows_perm u_dur). by destruct (merged_rows u_dur (thread_pieces pid tid)) as (_ & Hk & _). }
  clear Hch. induction (threads_of pid) as [|tid tids IH]; [done|]. rewrite !fmap_cons. cbn [concat]. by rewrite !fmap_app, !elem_of_app, Ht, IH.
Qed.

Lemma process_summary m `{!Additive m} pid p : Forall (fun r => 0 <= r_cpu r) runData ->
  process_of pid (thread_of pid <$> threads_of pid) p -> summary_ok m (process_pieces pid) (summary_of p).
Proof.
  intros HC Hp. destruct (process_block pid p HC Hp) as (_ & _ & HR).
  assert (HF : Forall (fun r => 0 <= u_cpu r) (block_of p)) by (apply Forall_fmap; eapply Forall_impl; [exact HR|]; intros r [? _]; done).
  destruct (summary_fold m (block_of p) (SummaryNode (with_thread (u_thread (p_row p) ++ js "-summary data") (json_row (p_row p))) []) HF eq_refl) as [HS _].
  assert (Hcpu : forall c, total m (filter (fun x => u_cpu x = c) (block_of p)) = total m (filter (fun x => u_cpu x = c) (process_pieces pid))).
  { intros c. rewrite !(filter_bool (fun x => u_cpu x = c)). pose proof (block_class m (fun k => bool_decide (k.1 = c)) pid p Hp) as E.
    by rewrite <- !class_total_filter in E. }
  assert (Hkey : forall k, total m (filter (fun x => usage_key x = k) (block_of p)) = total m (filter (fun x => usage_key x = k) (process_pieces pid))).
  { intros k. rewrite !(filter_bool (fun x => usage_key x = k)). pose proof (block_class m (fun k' => bool_decide (k' = k)) pid p Hp) as E.
    by rewrite <- !class_total_filter in E. }
  intros i. specialize (HS i). fold (summary_of p) in HS. destruct (mjoin (s_children (summary_of p) !! i)) as [c|].
  - destruct HS as (H1 & H2 & H3 & H4 & H5). split; [done|]. split; [by rewrite <- Hcpu|]. split; [done|]. split.
    + intros r Hr. destruct (H4 r Hr) as [? E]. split; [done|]. by rewrite <- Hkey.
    + intros k. by rewrite H5, (block_keys pid p).
  - intros (x & E & Hx)%list_elem_of_fmap. apply HS. assert (Hk : usage_key x ∈ usage_key <$> block_of p) by (apply (block_keys pid p); [done|by apply list_elem_of_fmap_2]).
    apply list_elem_of_fmap in Hk as (y & [= Ey _] & Hy). apply list_elem_of_fmap. exists y. split; [congruence|done].
Qed.

(** C37: The tree of consumption, for slices on numbered processors: the worker answers with
    one process for each process of the slices.  In the tree of a process every column
    that adds up (the duration and the consumption) does: the process and its summary
    have the sum over all pieces of its slices; it has one thread for each of its threads,
    with the sum over the pieces of the thread, below it one row per processor, and below
    that one row per frequency with the sum over exactly the pieces of the thread on that
    processor at that frequency; and the summary has the same rows per processor and
    frequency over all threads of the process. *)
Theorem usage_tree_adds_up : Forall (fun r => 0 <= r_cpu r) runData ->
  exists out, freq_usage_worker comPower runData cpuFreqData leftNs rightNs cpuArray = Some out /\
    NoDup ((fun sp => u_thread (p_row sp.2)) <$> out) /\
    (forall pid, process_name pid ∈ (fun sp => u_thread (p_row sp.2)) <$> out <-> pid ∈ r_pid <$> runData) /\
    forall s p, (s, p) ∈ out -> exists pid, u_thread (p_row p) = process_name pid /\
      NoDup (threads_of pid) /\ (forall tid, tid ∈ threads_of pid <-> (pid, tid) ∈ run_key <$> runData) /\
      forall m, Additive m ->
        m (p_row p) = total m (process_pieces pid) /\ m (s_row s) = total m (process_pieces pid) /\
        Forall2 (fun tid t => thread_ok m (thread_pieces pid tid) t) (threads_of pid) (p_children p) /\
        summary_ok m (process_pieces pid) s.
Proof.
  intros HC. destruct worker_processes as (HN & Hk & Hp). unfold freq_usage_worker. fold max_power_sum. fold worker_result. cbv zeta.
  assert (HB : Forall block_ok worker_result).
  { apply Forall_forall. intros p Hin. destruct (Hp p Hin) as (pid & Hpid). by apply (process_block pid). }
  rewrite fixTotal_blocks by done. cbn [mbind option_bind]. rewrite mergeTotal_own. eexists. split; [done|]. rewrite <- !list_fmap_compose.
  split; [done|]. split; [done|]. intros s p (p' & [= -> ->] & Hin)%list_elem_of_fmap. destruct (Hp p' Hin) as (pid & Hpid). exists pid.
  pose proof Hpid as (Hn & _ & Hch & Hsum). split; [done|]. destruct (threads_nodup pid) as [HTN HTk]. split; [done|]. split; [done|]. intros m Hm.
  assert (Hth : forall tid, thread_ok m (thread_pieces pid tid) (thread_of pid tid)) by (intros tid; apply thread_tree_ok, Hm).
  assert (Hrow : m (p_row p') = total m (process_pieces pid)).
  { rewrite (Hsum m Hm). unfold process_pieces, total. rewrite zsum_concat_map, <- list_fmap_compose. apply zsum_ext, Forall_forall. intros tid _.
    unfold compose. by destruct (Hth tid) as [-> _]. }
  split; [done|]. split; [rewrite <- Hrow; cbn [s_row]; by rewrite additive_thread, summary_row, additive_thread, additive_json|].
  split; [rewrite Hch; apply Forall2_fmap_r, Forall_Forall2_diag, Forall_forall; intros tid _; apply Hth|].
  exact (process_summary m pid p' HC Hpid).
Qed.

End Processes.

(** ** A small selection *)

Definition ex_run : list run_slice := [RunSlice 7 8 0 10 5; RunSlice 7 9 0 5 5; RunSlice 6 6 0 4 1].
Definition ex_freq : list cpu_freq := [CpuFreq 0 0 1000 10; CpuFreq 10 0 2000 10].

(** The second thread ran for 5 nanoseconds up to a change of the frequency. *)
Example ex_usage :
  option_map (map (fun sp => (u_dur (p_row sp.2), map (fun t => (u_dur (t_row t), map (fun c => map (fun r => (u_frequency r, u_dur r)) (c_children c)) (t_children t))) (p_children sp.2))))
    (@freq_usage_worker exact_doubles None ex_run ex_freq 0 100 [0]) =
  Some [(20, [(10, [[(FValue 2000, 5); (FValue 1000, 5)]]); (10, [[(FValue 1000, 5); (FUnknown, 5)]])]); (4, [(4, [[(FValue 1000, 4)]])])].
Proof. vm_compute. reflexivity. Qed.

Lemma pieces_add_up_witness :
  zsum (u_dur <$> @match_run exact_doubles None 100 0%Q 19 [0] (RunSlice 7 9 0 5 5) ex_freq) = 10.
Proof.
  rewrite (@pieces_add_up exact_doubles None 100 0%Q 19 [0] (RunSlice 7 9 0 5 5) ex_freq 0).
  - reflexivity.
  - by left.
  - cbn. lia.
  - vm_compute. repeat split.
  - cbn. lia.
  - vm_compute. discriminate.
Defined.

Lemma usage_tree_adds_up_witness :
  exists out, @freq_usage_worker exact_doubles None ex_run ex_freq 0 100 [0] = Some out /\ NoDup ((fun sp => u_thread (p_row sp.2)) <$> out).
Proof.
  destruct (@usage_tree_adds_up exact_doubles None ex_run ex_freq 0 100 [0]) as (out & E & HN & _).
  - repeat constructor; cbn; lia.
  - exists out. split; [exact E|exact HN].
Defined.
